(* ===== verification/_CoqProject ===== *)
-Q . S2P
Prelude.v
PyStr.v
PyFloat.v
PyFnmatch.v
Codec.v
Errors.v
Pack.v
Oracles.v
KeySet.v
Containers.v
SkipList.v
SkipListProofs.v
SkipListDelete.v
SkipListQuery.v
ZSet.v
Eviction.v
TypesSpec.v
Store.v
Frames.v
StoreInv.v
StoreOps.v
Snapshot.v
SnapshotProofs.v
Registry.v
CmdStrings.v
CmdKeys.v
CmdContainers.v
CmdZsets.v
CmdServer.v
CmdInv.v
CmdHandlers.v
Resp.v
RespProofs.v
TcpServer.v
Replies.v
Client.v
ClientSpec.v
EndToEnd.v
Json.v
FormatSpec.v
Engine.v
Aof.v
AofProofs.v
Disk.v
Manifest.v
AofWriter.v
Manager.v
Recovery.v
ManagerInv.v
ManagerRewrite.v
ManagerFinish.v
CrashSpec.v
EngineInv.v
EngineDepth.v
EngineLife.v
EngineSpec.v
CommitSpec.v
EngineRuns.v
ReplStream.v
Primary.v
ReplicaLink.v
HashRing.v
Metrics.v
Migration.v
ShardNode.v
ReplSystem.v
ReplLinkProofs.v
ReplWires.v
ReplInv.v
ReplLinkSteps.v
ReplServe.v
ReplSpec.v
Topology.v
Router.v
RouterSpec.v
ClusterManager.v
ClusterSpec.v
MigrationSpec.v
Services.v
Findings.v
