(* ===== verification/Prelude.v ===== *)
(** * kvstore, a Redis-compatible key-value store: a verification library

    ** The program

    kvstore (src/src/kvstore) is a clustered store that speaks RESP2.  A shard
    node has an engine: typed values in a keyspace with TTLs, a memory account,
    an eviction policy and incremental snapshots, a table of commands, and an
    append-only file with background rewrites.  A node replicates its engine to
    others and takes the role of a primary or a replica.  A router hashes keys
    onto a ring of groups and forwards commands to the group that owns them; a
    cluster manager beside it probes the nodes, fails groups over and moves keys
    when the ring changes.  Clients reach nodes and router over TCP, or over an
    HTTP API.

    ** How the code is modelled

    A method is a function of the state it runs on that returns or raises and
    leaves a state behind, [M X S A := S -> result X A * S], with Python's order
    of effects: what a raising call has changed stays changed ([catchM],
    [finallyM]).  Dictionaries are association lists in insertion order, strings
    are lists of code points, bytes are integers below 256, integers are [Z] with
    the 64-bit limits where the code checks them, floats are binary64.  Errors are
    values of [exn] with the class, prefix and message of core/exceptions.py;
    messages that quote a rejected value leave the quotation out.

    Coroutines are cut at their awaits: each part between two awaits is an
    operation, and what the environment answers is an argument or an operation of
    a class.  Interleavings are lists of events or step relations.  Whatever is
    not in the program is a parameter: the clock and the random generator
    ([Oracles]), [sys.getsizeof] ([Sizing]), the network ([Network],
    [ManagerNet]), the outcome of every call on the disk ([Disk]).

    Components meet at interfaces, with laws where a client relies on them:
    [EvictionPolicy] and [PolicyLaws] (store and policies), [Hooks] (store and
    engine), [CommandContext] (handlers and engine), [Persistence] and
    [ReplicationFeed] (engine, log and replication), [ReplicaEngine],
    [NodeEngine] and [ReplicaLaws] (replication and engine), [Answering] (server
    and handler).

    ** Files, and the sources they model

    - Foundations: this file (effects, dictionaries, invariants of effects),
      [PyStr], [PyFloat], [PyFnmatch], [Pack], [Json] (Python's str, int, float,
      fnmatch, struct, zlib and json), [Codec] (core/codec.py), [Errors]
      (core/exceptions.py), [Oracles].
    - Data types: [KeySet] (engine/keyset.py), [Containers]
      (engine/datatypes/containers.py, sizing.py), [SkipList] (skiplist.py) with
      [SkipListProofs], [SkipListDelete], [SkipListQuery], [ZSet] (zset.py),
      [Eviction] (engine/eviction/), [TypesSpec].
    - Keyspace: [Store] (engine/store.py, entry.py), its invariants [StoreInv],
      [StoreOps], and [Frames], what the methods carry along.
    - Commands: [Registry] (engine/commands/registry.py), [CmdStrings],
      [CmdKeys] (keyspace.py), [CmdContainers] (lists.py, hashes.py, sets.py),
      [CmdZsets], [CmdServer] (server.py and the table); [CmdInv] and
      [CmdHandlers] show that every handler keeps the invariants.
    - Protocol: [Resp] and [Replies] (protocol/resp.py), [TcpServer]
      (protocol/tcp_server.py), [Client] (protocol/client.py); [RespProofs],
      [ClientSpec], [EndToEnd].
    - Persistence: [Snapshot] (engine/persistence/snapshot.py), [Aof] and
      [AofWriter] (aof.py), [Manifest] (manifest.py), [Manager] (manager.py) over
      [Disk], a directory whose calls may fail; [SnapshotProofs], [AofProofs],
      [FormatSpec], [Recovery], [ManagerInv], [ManagerRewrite], [ManagerFinish],
      [CrashSpec].
    - Engine: [Engine] (engine/engine.py, the holds of
      observability/gcpolicy.py); [EngineInv], [EngineDepth], [EngineLife],
      [EngineSpec], [CommitSpec] (with the group commit), [EngineRuns] (concrete
      nodes).
    - Replication: [ReplStream] (replication/stream.py), [Primary] (primary.py),
      [ReplicaLink] (replica.py), [ShardNode] (node.py); the system of nodes and
      its proof in [ReplSystem], [ReplLinkProofs], [ReplWires], [ReplInv],
      [ReplLinkSteps], [ReplServe], [ReplSpec].
    - Cluster: [HashRing] (cluster/hash_ring.py, with MD5), [Topology]
      (topology.py), [Migration] (migration.py), [Router] (router.py),
      [ClusterManager] (manager.py); [RouterSpec], [ClusterSpec],
      [MigrationSpec].
    - Around them: [Metrics] (observability/metrics.py), [Services]
      (services/kv_service.py, api/errors.py, the endpoints of api/v1,
      engine/cron.py, the router's side of tcp_server.py); [Findings].

    ** What the theorems show

    - Keyspace and engine: whatever requests are served, the keyspace stays
      consistent ([engine_stays_consistent]); a snapshot is the keyspace as it was
      when it began ([snapshot_isolation]); a command changes only the keys it
      names ([command_frame]), keeps the limits ([limits_after_write]) and, when
      refused, changes nothing ([refused_unchanged]); replay logs nothing
      ([replay_writes_nothing]).
    - Persistence: from any sequence of operations, failing calls, crashes and
      restarts, a load rebuilds every committed write ([crash_recovery]); replies
      are sent after the commit ([replies_wait_for_commit]); formats read back
      ([snapshot_file_roundtrip], [log_replayed]) and damage is refused
      ([damaged_byte_refused], [damaged_payload_refused]).
    - Replication: in every run of nodes that lose connections, change role and
      restart, a streaming replica holds its primary's data at its offset
      ([replicas_hold_primary_data]), and it catches up ([replica_catches_up]).
    - Cluster: a batch's writes run at most once ([batch_writes_at_most_once]);
      the router relays a node's answers byte for byte
      ([router_relays_answer]); configurations stay well formed
      ([manager_configs_well_formed]); a failover promotes the replica that has
      most ([failover_promotes_best]); a ring change moves keys only to the new
      group ([ring_moves_few_keys]); moving a key loses no acknowledged write
      while the move has not failed ([moving_copies_current]).
    - Data types: the skip list and the sorted set against the sorted listing
      ([sorted_set_listing], [sorted_set_updates], [sorted_set_queries]), the LRU
      policy against a clock ([lru_victim_is_oldest]).
    - Protocol: requests cut into reads in any way run once and in order
      ([pipeline_in_order]), a call returns the handler's answers
      ([call_returns_answers]), and replies are matched to their callers
      ([replies_matched]).
    - Departures: [Findings] and the last theorems of [EngineRuns], [AofProofs],
      [ClusterSpec] and [MigrationSpec] are runs in which the code does not do
      what it means to.

    ** Fuel

    Loops whose recursion is not structural carry a bound that the state gives:
    the bytes received for the parsers' loops, the keys for eviction, expiry and
    snapshots, the levels of a skip list for its descents, the members for
    iteration, the length of a text for JSON and for patterns.  Where a bound is
    a real limit of the loop, a theorem says that it is enough
    ([wait_rewrite_finishes], the view lemmas of [RespProofs] and [Replies], the
    representation lemmas of the skip list); one loop has none, and
    [negative_length_read_forever] shows why.  How often the manager's
    [_let_replicas_catch_up] polls before its deadline is an argument.

    ** Not modelled

    - asyncio itself: the lengths of sleeps and intervals, task objects,
      cancellation other than where the code relies on it (a migration's [stop],
      a client's timeouts); threads are steps that run when they are joined or
      earlier.  Locks are held for whole operations.
    - The listening socket's start and stop, what opening a connection does on
      the network, and the reading of process figures (metrics.py).
    - The HTTP framework: paths, validation, JSON bodies, middleware, health and
      administration pages (api/health.py, middleware.py, metrics.py, deps.py,
      v1/endpoints/admin.py, schemas/admin.py): declarations for a library that
      is not in the repository, over operations that are modelled.
    - observability/collect.py, a list of which counter is exposed under which
      name; core/config.py, core/logging.py, cli.py, main.py, lifespan.py and
      __main__.py: settings, logging and process start-up.
    - Durations the code measures and reports, the recursion limit and memory
      exhaustion of the interpreter, and the order in which Python iterates over
      a set, which is fixed to one choice. *)

From stdpp Require Export base tactics list list_numbers gmap sets sorting.
From Stdlib Require Export ZArith Lia.
Global Open Scope Z_scope.
#[global] Arguments Z.add : simpl never.
#[global] Arguments Z.sub : simpl never.
#[global] Arguments Z.mul : simpl never.
#[global] Arguments Z.pow : simpl never.
#[global] Arguments Z.opp : simpl never.

(** ** The effect monad

    A Python method runs on mutable state and either returns or raises; the
    state a raising call leaves behind is kept, as in Python. *)
Inductive result (X A : Type) : Type :=
| Ok (a : A)
| Raise (x : X).
Arguments Ok {X A} a.
Arguments Raise {X A} x.

Definition M (X S A : Type) : Type := S -> result X A * S.

Section Monad.
Context {X S : Type}.

Definition ret {A} (a : A) : M X S A := fun s => (Ok a, s).
Definition raise {A} (x : X) : M X S A := fun s => (Raise x, s).
Definition bindM {A B} (c : M X S A) (f : A -> M X S B) : M X S B :=
  fun s => match c s with
           | (Ok a, s') => f a s'
           | (Raise x, s') => (Raise x, s')
           end.
Definition getM : M X S S := fun s => (Ok s, s).
Definition putM (s : S) : M X S unit := fun _ => (Ok tt, s).
Definition modifyM (f : S -> S) : M X S unit := fun s => (Ok tt, f s).
Definition readM {A} (f : S -> A) : M X S A := fun s => (Ok (f s), s).

(** [try: body finally: last] of a block whose [last] does not return. *)
Definition finallyM {A} (body : M X S A) (last : M X S unit) : M X S A :=
  fun s => match body s with
           | (r, s') => match last s' with
                        | (Ok _, s'') => (r, s'')
                        | (Raise x, s'') => (Raise x, s'')
                        end
           end.

(** [try: body except <class>: handler] for the errors [p] accepts. *)
Definition catchM {A} (body : M X S A) (p : X -> bool) (handler : X -> M X S A) : M X S A :=
  fun s => match body s with
           | (Raise x, s') => if p x then handler x s' else (Raise x, s')
           | r => r
           end.

Fixpoint mapM_list {A B} (f : A -> M X S B) (l : list A) : M X S (list B) :=
  match l with
  | [] => ret []
  | a :: l' => bindM (f a) (fun b => bindM (mapM_list f l') (fun bs => ret (b :: bs)))
  end.

Fixpoint forM_list {A} (f : A -> M X S unit) (l : list A) : M X S unit :=
  match l with
  | [] => ret tt
  | a :: l' => bindM (f a) (fun _ => forM_list f l')
  end.

(** [[a for a in l if f(a)]] where the test has effects. *)
Fixpoint filterM_list {A} (f : A -> M X S bool) (l : list A) : M X S (list A) :=
  match l with
  | [] => ret []
  | a :: l' => bindM (f a) (fun b => bindM (filterM_list f l')
                 (fun r => ret (if b : bool then a :: r else r)))
  end.
End Monad.

Declare Scope py_scope.
Delimit Scope py_scope with py.
Notation "x <- c ;; k" := (bindM c (fun x => k))
  (at level 100, c at next level, right associativity) : py_scope.
Notation "'let!' p := c 'in' k" := (bindM c (fun x => match x with p => k end))
  (at level 10, p pattern, c at level 99, k at level 200) : py_scope.
Notation "c ;; k" := (bindM c (fun _ => k))
  (at level 100, right associativity) : py_scope.
Global Open Scope py_scope.

(** Splits the conjunctions that are written as such; definitions stay folded. *)
Ltac conj := repeat match goal with |- _ /\ _ => split end.

(** The result and the state [w] of a call that has been run. *)
Ltac returns w := eexists _, w; split; [reflexivity|conj].

(** ** Reasoning about effects: a weakest precondition *)
Section Wp.
Context {X S : Type}.

Definition wp {A} (c : M X S A) (Q : result X A -> S -> Prop) (s : S) : Prop :=
  Q (c s).1 (c s).2.

(** The postcondition a command has when it either returns or raises and keeps [I]. *)
Definition keeps {A} (I : S -> Prop) (c : M X S A) : Prop :=
  forall s, I s -> I (c s).2.

Lemma wp_bind {A B} (c : M X S A) (f : A -> M X S B) Q s :
  wp c (fun r s' => match r with
                    | Ok a => wp (f a) Q s'
                    | Raise x => Q (Raise x) s'
                    end) s -> wp (bindM c f) Q s.
Proof. unfold wp, bindM. destruct (c s) as [[a|x] s']; done. Qed.

Lemma wp_mono {A} (c : M X S A) (Q Q' : result X A -> S -> Prop) s :
  wp c Q s -> (forall r s', Q r s' -> Q' r s') -> wp c Q' s.
Proof. unfold wp. auto. Qed.

Lemma keeps_ret {A} I (a : A) : keeps I (ret a : M X S A).
Proof. intros s Hs. done. Qed.

Lemma keeps_raise {A} I x : keeps I (raise x : M X S A).
Proof. intros s Hs. done. Qed.

Lemma keeps_read {A} I (f : S -> A) : keeps I (readM f : M X S A).
Proof. intros s Hs. done. Qed.

Lemma keeps_get I : keeps I (getM : M X S S).
Proof. intros s Hs. done. Qed.

Lemma keeps_modify (I : S -> Prop) f :
  (forall s, I s -> I (f s)) -> keeps I (modifyM f : M X S unit).
Proof. intros H s Hs. by apply H. Qed.

Lemma keeps_bind {A B} I (c : M X S A) (f : A -> M X S B) :
  keeps I c -> (forall a, keeps I (f a)) -> keeps I (bindM c f).
Proof.
  intros Hc Hf s Hs. unfold bindM. specialize (Hc s Hs).
  destruct (c s) as [[a|x] s']; simpl in *; [by apply Hf | done].
Qed.

Lemma keeps_finally {A} I (c : M X S A) last :
  keeps I c -> keeps I last -> keeps I (finallyM c last).
Proof.
  intros Hc Hl s Hs. unfold finallyM. specialize (Hc s Hs).
  destruct (c s) as [r s']. simpl in Hc. specialize (Hl s' Hc).
  destruct (last s') as [[[]|x] s'']; done.
Qed.

Lemma keeps_catch {A} I (c : M X S A) p h :
  keeps I c -> (forall x, keeps I (h x)) -> keeps I (catchM c p h).
Proof.
  intros Hc Hh s Hs. unfold catchM. specialize (Hc s Hs).
  destruct (c s) as [[a|x] s']; [done|]. simpl in Hc. destruct (p x); [by apply Hh | done].
Qed.

Lemma keeps_forM {A} I (f : A -> M X S unit) l :
  (forall a, a ∈ l -> keeps I (f a)) -> keeps I (forM_list f l).
Proof.
  induction l as [|a l IH]; intros H; [apply keeps_ret|].
  apply keeps_bind; [apply H; left | intros _; apply IH; intros b Hb; apply H; by right].
Qed.

Lemma keeps_mapM {A B} I (f : A -> M X S B) l :
  (forall a, a ∈ l -> keeps I (f a)) -> keeps I (mapM_list f l).
Proof.
  induction l as [|a l IH]; intros H; [apply keeps_ret|].
  apply keeps_bind; [apply H; left | intros b].
  apply keeps_bind; [apply IH; intros c Hc; apply H; by right | intros; apply keeps_ret].
Qed.

Lemma keeps_filterM {A} I (f : A -> M X S bool) l :
  (forall a, a ∈ l -> keeps I (f a)) -> keeps I (filterM_list f l).
Proof.
  induction l as [|a l IH]; intros H; [apply keeps_ret|].
  apply keeps_bind; [apply H; left | intros b].
  apply keeps_bind; [apply IH; intros c Hc; apply H; by right | intros; apply keeps_ret].
Qed.

(** What a sequence did, from what its first part did. *)
Lemma bind_Ok {A B} (c : M X S A) (f : A -> M X S B) s b s' :
  bindM c f s = (Ok b, s') -> exists a s1, c s = (Ok a, s1) /\ f a s1 = (Ok b, s').
Proof. unfold bindM. destruct (c s) as [[a|x] s1]; [eauto|done]. Qed.

Lemma after_Ok {A B} (c : M X S A) (k : A -> M X S B) s a s1 : c s = (Ok a, s1) -> bindM c k s = k a s1.
Proof. unfold bindM. by intros ->. Qed.

Lemma after_Raise {A B} (c : M X S A) (k : A -> M X S B) s x s1 : c s = (Raise x, s1) -> bindM c k s = (Raise x, s1).
Proof. unfold bindM. by intros ->. Qed.

Lemma filterM_sublist {A} (f : A -> M X S bool) l s l' s' :
  filterM_list f l s = (Ok l', s') -> l' `sublist_of` l.
Proof.
  revert s l' s'. induction l as [|a l IH]; intros s l' s'; cbn [filterM_list]; [intros [= <- <-]; constructor|].
  intros (b & s1 & _ & (l1 & s2 & Hl & Hr)%bind_Ok)%bind_Ok. apply IH in Hl.
  injection Hr as <- _. destruct b; by constructor.
Qed.

(** [c] keeps [I], and what it returns satisfies [Q]. *)
Definition yields {A} (I : S -> Prop) (c : M X S A) (Q : A -> Prop) : Prop :=
  forall s, I s -> I (c s).2 /\ forall a, (c s).1 = Ok a -> Q a.

Lemma yields_keeps {A} I (c : M X S A) : keeps I c <-> yields I c (fun _ => True).
Proof. split; intros H s Hs; [split; [by apply H|done] | by destruct (H s Hs)]. Qed.

Lemma yields_ret {A} I (a : A) (Q : A -> Prop) : Q a -> yields I (ret a : M X S A) Q.
Proof. intros Ha s Hs. split; [done|]. by intros b [= <-]. Qed.

Lemma yields_raise {A} I x (Q : A -> Prop) : yields I (raise x : M X S A) Q.
Proof. intros s Hs. by split. Qed.

Lemma yields_bind {A B} I (c : M X S A) (f : A -> M X S B) Q R :
  yields I c Q -> (forall a, Q a -> yields I (f a) R) -> yields I (bindM c f) R.
Proof.
  intros Hc Hf s Hs. unfold bindM. destruct (Hc s Hs) as [H1 H2].
  destruct (c s) as [[a|x] s']; simpl in *; [apply (Hf a); auto | done].
Qed.

Lemma yields_weaken {A} I (c : M X S A) (Q R : A -> Prop) :
  yields I c Q -> (forall a, Q a -> R a) -> yields I c R.
Proof. intros Hc HR s Hs. destruct (Hc s Hs). split; [done|]. eauto. Qed.

Lemma yields_mapM {A B} I (f : A -> M X S B) (Q : A -> B -> Prop) l :
  (forall a, a ∈ l -> yields I (f a) (Q a)) -> yields I (mapM_list f l) (Forall2 Q l).
Proof.
  induction l as [|a l IH]; intros H; [by apply yields_ret|]. simpl.
  eapply yields_bind; [apply H; left | intros b Hb].
  eapply yields_bind; [apply IH; intros c Hc; apply H; by right | intros bs Hbs].
  apply yields_ret. by constructor.
Qed.
End Wp.

Create HintDb keeps.
#[export] Hint Resolve keeps_ret keeps_raise keeps_read keeps_get keeps_bind
  keeps_finally keeps_catch : keeps.

(** ** Python's [dict]

    Insertion-ordered: assigning to a key that is present keeps its place, a
    new key goes last. *)
Section Dict.
Context {K V : Type} `{EqDecision K}.

Definition dict : Type := list (K * V).

Fixpoint dict_get (k : K) (d : list (K * V)) : option V :=
  match d with
  | [] => None
  | (k', v) :: d' => if decide (k = k') then Some v else dict_get k d'
  end.

Fixpoint dict_set (k : K) (v : V) (d : list (K * V)) : list (K * V) :=
  match d with
  | [] => [(k, v)]
  | (k', v') :: d' => if decide (k = k') then (k, v) :: d' else (k', v') :: dict_set k v d'
  end.

(** [d.pop(k, None)], the dictionary that is left. *)
Fixpoint dict_pop (k : K) (d : list (K * V)) : list (K * V) :=
  match d with
  | [] => []
  | (k', v') :: d' => if decide (k = k') then d' else (k', v') :: dict_pop k d'
  end.

Definition dict_mem (k : K) (d : list (K * V)) : bool :=
  match dict_get k d with Some _ => true | None => false end.

Definition dict_keys (d : list (K * V)) : list K := d.*1.

Definition dict_wf (d : list (K * V)) : Prop := NoDup d.*1.

(** The sum a running total over the entries stands for. *)
Fixpoint dict_sum (f : K -> V -> Z) (d : list (K * V)) : Z :=
  match d with
  | [] => 0
  | (k, v) :: d' => f k v + dict_sum f d'
  end.
End Dict.

Section DictLemmas.
Context {K V : Type} `{EqDecision K}.
Implicit Types (d : list (K * V)) (k : K) (v : V).

Lemma dict_get_None k d : dict_get k d = None <-> k ∉ d.*1.
Proof.
  induction d as [|[k' v'] d IH]; simpl; [set_solver|].
  destruct (decide (k = k')) as [->|Hne]; [set_solver|].
  rewrite IH. set_solver.
Qed.

Lemma dict_get_Some_elem k v d : dict_get k d = Some v -> (k, v) ∈ d.
Proof.
  induction d as [|[k' v'] d IH]; simpl; [done|].
  destruct (decide (k = k')) as [->|Hne]; intros H; simplify_eq; [left | right; auto].
Qed.

Lemma dict_get_elem k v d : dict_wf d -> (k, v) ∈ d -> dict_get k d = Some v.
Proof.
  unfold dict_wf. induction d as [|[k' v'] d IH]; simpl; intros Hnd Hin; [set_solver|].
  apply NoDup_cons in Hnd as [Hn Hnd].
  apply elem_of_cons in Hin as [Heq|Hin]; [simplify_eq; by rewrite decide_True|].
  rewrite decide_False; [by apply IH|].
  intros ->. apply Hn. apply list_elem_of_fmap. by exists (k', v).
Qed.

Lemma dict_mem_true k d : dict_mem k d = true <-> k ∈ d.*1.
Proof.
  unfold dict_mem. destruct (dict_get k d) as [v|] eqn:E.
  - split; [|done]. intros _. apply dict_get_Some_elem in E.
    apply list_elem_of_fmap. by exists (k, v).
  - apply dict_get_None in E. split; [done | by intros].
Qed.

Lemma dict_get_is_Some k d : is_Some (dict_get k d) <-> k ∈ d.*1.
Proof.
  rewrite <- dict_mem_true. unfold dict_mem.
  destruct (dict_get k d); split; intros H; try done; by destruct H.
Qed.

Lemma dict_get_set k k' v d :
  dict_get k (dict_set k' v d) = if decide (k = k') then Some v else dict_get k d.
Proof.
  induction d as [|[k1 v1] d IH]; simpl.
  - destruct (decide (k = k')); done.
  - destruct (decide (k' = k1)) as [->|Hne]; simpl.
    + destruct (decide (k = k1)); done.
    + rewrite IH. destruct (decide (k = k1)) as [->|]; [|done].
      by rewrite decide_False.
Qed.

Lemma dict_keys_set_in k v d : k ∈ d.*1 -> (dict_set k v d).*1 = d.*1.
Proof.
  induction d as [|[k' v'] d IH]; simpl; [set_solver|]. intros Hin.
  destruct (decide (k = k')) as [->|]; simpl; [done|].
  f_equal. apply IH. set_solver.
Qed.

Lemma dict_set_new k v d : k ∉ d.*1 -> dict_set k v d = d ++ [(k, v)].
Proof.
  induction d as [|[k' v'] d IH]; simpl; [done|]. intros Hin.
  rewrite decide_False by set_solver. f_equal. apply IH. set_solver.
Qed.

Lemma dict_keys_set k v d x : x ∈ (dict_set k v d).*1 <-> x = k \/ x ∈ d.*1.
Proof.
  destruct (decide (k ∈ d.*1)).
  - rewrite dict_keys_set_in by done. naive_solver.
  - rewrite dict_set_new by done. rewrite fmap_app. set_solver.
Qed.

Lemma dict_set_wf k v d : dict_wf d -> dict_wf (dict_set k v d).
Proof.
  unfold dict_wf. intros Hnd. destruct (decide (k ∈ d.*1)).
  - by rewrite dict_keys_set_in.
  - rewrite dict_set_new, fmap_app by done. apply NoDup_app.
    split_and!; [done | simpl; intros x Hx; rewrite list_elem_of_singleton; by intros -> | apply NoDup_singleton].
Qed.

Lemma dict_pop_sublist k d : dict_pop k d `sublist_of` d.
Proof.
  induction d as [|[k' v'] d IH]; simpl; [done|].
  destruct (decide (k = k')); [by apply sublist_cons | by apply sublist_skip].
Qed.

Lemma dict_pop_wf k d : dict_wf d -> dict_wf (dict_pop k d).
Proof.
  unfold dict_wf. intros Hnd. eapply sublist_NoDup; [done|].
  apply fmap_sublist, dict_pop_sublist.
Qed.

Lemma dict_pop_notin k d : k ∉ d.*1 -> dict_pop k d = d.
Proof.
  induction d as [|[k' v'] d IH]; simpl; [done|]. intros Hin.
  rewrite decide_False by set_solver. f_equal. apply IH. set_solver.
Qed.

Lemma dict_keys_pop k d x : dict_wf d -> x ∈ (dict_pop k d).*1 <-> x <> k /\ x ∈ d.*1.
Proof.
  unfold dict_wf. induction d as [|[k' v'] d IH]; simpl; intros Hnd; [set_solver|].
  apply NoDup_cons in Hnd as [Hn Hnd]. destruct (decide (k = k')) as [->|]; simpl.
  - set_solver.
  - rewrite !elem_of_cons, IH by done. naive_solver.
Qed.

Lemma dict_get_pop k k' d :
  dict_wf d -> dict_get k (dict_pop k' d) = if decide (k = k') then None else dict_get k d.
Proof.
  unfold dict_wf. induction d as [|[k1 v1] d IH]; simpl; intros Hnd.
  { by destruct (decide (k = k')). }
  apply NoDup_cons in Hnd as [Hn Hnd]. destruct (decide (k' = k1)) as [->|].
  - destruct (decide (k = k1)) as [->|]; [by apply dict_get_None | done].
  - simpl. rewrite IH by done. destruct (decide (k = k1)) as [->|]; [|done].
    by rewrite decide_False.
Qed.

Lemma dict_length_set k v d :
  length (dict_set k v d) = if decide (k ∈ d.*1) then length d else S (length d).
Proof.
  case_decide as H.
  - rewrite <- (length_fmap fst (dict_set k v d)), dict_keys_set_in by done.
    by rewrite length_fmap.
  - rewrite dict_set_new, length_app by done. simpl. lia.
Qed.

Lemma dict_length_pop k d : k ∈ d.*1 -> S (length (dict_pop k d)) = length d.
Proof.
  induction d as [|[k' v'] d IH]; simpl; [set_solver|]. intros Hin.
  destruct (decide (k = k')); simpl; [done|]. rewrite IH; [done|set_solver].
Qed.

Lemma dict_sum_set f k v d :
  dict_sum f (dict_set k v d) =
    dict_sum f d + f k v - (match dict_get k d with Some v0 => f k v0 | None => 0 end).
Proof.
  induction d as [|[k' v'] d IH]; simpl; [lia|].
  destruct (decide (k = k')) as [->|]; simpl; [lia|]. rewrite IH. lia.
Qed.

Lemma dict_sum_pop f k d :
  dict_sum f (dict_pop k d) =
    dict_sum f d - (match dict_get k d with Some v0 => f k v0 | None => 0 end).
Proof.
  induction d as [|[k' v'] d IH]; simpl; [lia|].
  destruct (decide (k = k')) as [->|]; simpl; [lia|]. rewrite IH. lia.
Qed.

Lemma dict_sum_app f d1 d2 : dict_sum f (d1 ++ d2) = dict_sum f d1 + dict_sum f d2.
Proof. induction d1 as [|[k v] d1 IH]; simpl; [lia|]. rewrite IH. lia. Qed.

Lemma dict_sum_ext f g d :
  (forall k v, (k, v) ∈ d -> f k v = g k v) -> dict_sum f d = dict_sum g d.
Proof.
  induction d as [|[k v] d IH]; simpl; intros H; [done|].
  rewrite (H k v) by left. rewrite IH; [done|]. intros; apply H; by right.
Qed.

Lemma dict_sum_nonneg f d : (forall k v, (k, v) ∈ d -> 0 <= f k v) -> 0 <= dict_sum f d.
Proof.
  induction d as [|[k v] d IH]; simpl; intros H; [done|].
  assert (0 <= f k v) by (apply H; left).
  assert (0 <= dict_sum f d); [|lia]. apply IH. intros; apply H; by right.
Qed.

Lemma dict_pop_perm k v d : dict_get k d = Some v -> d ≡ₚ (k, v) :: dict_pop k d.
Proof.
  induction d as [|[k' v'] d IH]; simpl; [done|].
  destruct (decide (k = k')) as [->|Hne]; intros Hk; simplify_eq/=; [done|].
  rewrite (IH Hk) at 1. apply perm_swap.
Qed.
End DictLemmas.

(** An element joins the list of its key. *)
Lemma bucket_add {K A} `{EqDecision K} (a : K) (x : A) (d : list (K * list A)) :
  dict_set a (default [] (dict_get a d) ++ [x]) d ≫= snd ≡ₚ (d ≫= snd) ++ [x].
Proof.
  induction d as [|[a' l] d IH]; [done|]. cbn [dict_set dict_get]. destruct (decide (a = a')) as [->|Ha]; cbn [mbind list_bind].
  - cbn [default snd]. rewrite <- !app_assoc. apply (Permutation_app_head l), (Permutation_app_comm [x]).
  - by rewrite IH, app_assoc.
Qed.

#[export] Hint Resolve dict_set_wf dict_pop_wf : keeps.

(** ** Sums over lists *)
Fixpoint sumZ {A} (f : A -> Z) (l : list A) : Z :=
  match l with
  | [] => 0
  | a :: l' => f a + sumZ f l'
  end.

Lemma sumZ_app {A} (f : A -> Z) l1 l2 : sumZ f (l1 ++ l2) = sumZ f l1 + sumZ f l2.
Proof. induction l1 as [|a l1 IH]; simpl; [lia|]. rewrite IH. lia. Qed.

Lemma sumZ_reverse {A} (f : A -> Z) l : sumZ f (reverse l) = sumZ f l.
Proof.
  induction l as [|a l IH]; [done|]. rewrite reverse_cons, sumZ_app, IH. simpl. lia.
Qed.

Lemma sumZ_perm {A} (f : A -> Z) l1 l2 : l1 ≡ₚ l2 -> sumZ f l1 = sumZ f l2.
Proof. induction 1; simpl; lia. Qed.

Lemma sumZ_nonneg {A} (f : A -> Z) l : (forall a, 0 <= f a) -> 0 <= sumZ f l.
Proof. intros Hf. induction l as [|a l IH]; simpl; [lia|]. pose proof (Hf a). lia. Qed.

Lemma sumZ_insert {A} (f : A -> Z) l i old new :
  l !! i = Some old -> sumZ f (<[i := new]> l) = sumZ f l + (f new - f old).
Proof.
  revert i. induction l as [|a l IH]; intros [|i] Hi; simplify_eq/=; [lia|].
  rewrite (IH i) by done. lia.
Qed.

Lemma dict_sum_sumZ {K V} (f : K -> V -> Z) (d : list (K * V)) :
  dict_sum f d = sumZ (fun p => f p.1 p.2) d.
Proof. induction d as [|[k v] d IH]; simpl; [done|]. by rewrite IH. Qed.

(** ** Filters and sorted lists *)
Lemma filter_none {T} (P : T -> Prop) `{!forall x, Decision (P x)} (l : list T) :
  (forall x, x ∈ l -> ~ P x) -> filter P l = [].
Proof.
  induction l as [|x l IH]; intros Hl; [done|]. rewrite filter_cons_False by (apply Hl; left).
  apply IH. intros y Hy. apply Hl. by right.
Qed.

Lemma filter_ext_in {T} (P Q : T -> Prop) `{!forall x, Decision (P x), !forall x, Decision (Q x)} (l : list T) :
  (forall x, x ∈ l -> P x <-> Q x) -> filter P l = filter Q l.
Proof.
  induction l as [|x l IH]; intros Hl; [done|]. rewrite !filter_cons.
  rewrite IH by (intros y Hy; apply Hl; by right).
  specialize (Hl x ltac:(left)). repeat case_decide; tauto.
Qed.

Lemma filter_all {T} (P : T -> Prop) `{!forall x, Decision (P x)} (l : list T) :
  (forall x, x ∈ l -> P x) -> filter P l = l.
Proof.
  induction l as [|x l IH]; intros Hl; [done|]. rewrite filter_cons_True by (apply Hl; left).
  rewrite IH; [done|]. intros y Hy. apply Hl. by right.
Qed.

Lemma sorted_prefix {T} (R : T -> T -> Prop) (P : T -> Prop) `{!forall x, Decision (P x)} (l : list T) :
  StronglySorted R l -> (forall x y, x ∈ l -> y ∈ l -> R x y -> P y -> P x) ->
  exists A B, l = A ++ B /\ Forall P A /\ Forall (fun x => ~ P x) B.
Proof.
  induction 1 as [|x l Hs IH Hx]; intros HP; [by exists [], []|].
  destruct (decide (P x)) as [Hlt|Hge].
  - destruct IH as (A & B & -> & HA & HB); [intros; eapply HP; eauto; by right|].
    exists (x :: A), B. split; [done|split; [by constructor|done]].
  - exists [], (x :: l). split; [done|split; [constructor|]]. constructor; [done|].
    rewrite Forall_forall in *. intros y Hy Hp. apply Hge. eapply HP; eauto; [left|by right].
Qed.

Lemma sorted_before_last {T} (R : T -> T -> Prop) l x z :
  StronglySorted R l -> last l = Some z -> x ∈ l -> x <> z -> R x z.
Proof.
  intros Hs Hz Hx Hne. apply last_Some in Hz as [l' ->].
  apply StronglySorted_app in Hs as (H1 & _ & _). apply H1; [|set_solver].
  apply elem_of_app in Hx as [Hx|Hx]; [done|]. by apply list_elem_of_singleton in Hx.
Qed.

Lemma split_at {T} (l : list T) i :
  (i < length l)%nat -> exists A x B, l = A ++ x :: B /\ length A = i /\ l !! i = Some x.
Proof.
  intros Hi. destruct (lookup_lt_is_Some_2 l i Hi) as [x Hx]. exists (take i l), x, (drop (S i) l).
  split_and!; [by rewrite take_drop_middle|rewrite length_take; lia|done].
Qed.
