(* ===== verification/PyStr.v ===== *)
(** * Python strings and integers

    A [str] is its list of code points.  This file holds what the sources use
    of Python's [str] and [int]: ordering, [find], [upper], the decimal text of
    an integer and [int(text)] with its full grammar. *)

From Stdlib Require Import Ascii String.
From S2P Require Import Prelude.

Abbreviation pystr := (list Z).

(** A literal of the source, from its ASCII text. *)
Definition lit (s : String.string) : pystr :=
  map (fun c => Z.of_N (N_of_ascii c)) (list_ascii_of_string s).

(** ** Ordering: code point by code point *)
Fixpoint str_cmp (a b : pystr) : comparison :=
  match a, b with
  | [], [] => Eq
  | [], _ :: _ => Lt
  | _ :: _, [] => Gt
  | x :: a', y :: b' => match x ?= y with Eq => str_cmp a' b' | c => c end
  end.

Definition str_ltb (a b : pystr) : bool := match str_cmp a b with Lt => true | _ => false end.
Definition str_leb (a b : pystr) : bool := match str_cmp a b with Gt => false | _ => true end.

Lemma str_cmp_refl a : str_cmp a a = Eq.
Proof. induction a as [|x a IH]; simpl; [done|]. by rewrite Z.compare_refl. Qed.

Lemma str_cmp_eq a b : str_cmp a b = Eq <-> a = b.
Proof.
  split; [|intros ->; apply str_cmp_refl].
  revert b; induction a as [|x a IH]; intros [|y b]; simpl; try done.
  destruct (x ?= y) eqn:E; try done. intros H. apply Z.compare_eq in E as ->.
  f_equal. by apply IH.
Qed.

Lemma str_cmp_antisym a b : str_cmp b a = CompOpp (str_cmp a b).
Proof.
  revert b; induction a as [|x a IH]; intros [|y b]; simpl; try done.
  rewrite Z.compare_antisym. destruct (x ?= y); simpl; [apply IH|done|done].
Qed.

Lemma str_cmp_trans a b c : str_cmp a b = Lt -> str_cmp b c = Lt -> str_cmp a c = Lt.
Proof.
  revert b c; induction a as [|x a IH]; intros [|y b] [|z c]; simpl; try done.
  destruct (x ?= y) eqn:E1, (y ?= z) eqn:E2; try done; intros H1 H2;
    rewrite ?Z.compare_eq_iff, ?Z.compare_lt_iff in *; subst.
  - rewrite Z.compare_refl. by eapply IH.
  - by rewrite (proj2 (Z.compare_lt_iff _ _) E2).
  - by rewrite (proj2 (Z.compare_lt_iff _ _) E1).
  - by rewrite (proj2 (Z.compare_lt_iff x z) (Z.lt_trans _ _ _ E1 E2)).
Qed.

(** ** Characters *)
Definition ch (c : String.string) : Z := default 0 (head (lit c)).

Definition is_ascii_lower (c : Z) : bool := (97 <=? c) && (c <=? 122).
Definition is_ascii_upper (c : Z) : bool := (65 <=? c) && (c <=? 90).

(** [c.upper()]: ASCII letters, and the ten other code points whose upper case
    is ASCII text.  The remaining code points map to text with a non-ASCII
    character, which no command name or option equals; they are kept. *)
Definition upper_char (c : Z) : pystr :=
  if is_ascii_lower c then [c - 32]
  else if c =? 0xDF then lit "SS"
  else if c =? 0x131 then lit "I"
  else if c =? 0x17F then lit "S"
  else if c =? 0xFB00 then lit "FF"
  else if c =? 0xFB01 then lit "FI"
  else if c =? 0xFB02 then lit "FL"
  else if c =? 0xFB03 then lit "FFI"
  else if c =? 0xFB04 then lit "FFL"
  else if (c =? 0xFB05) || (c =? 0xFB06) then lit "ST"
  else [c].

Definition str_upper (s : pystr) : pystr := s ≫= upper_char.

(** [s.lower()]: ASCII letters, and the two other code points whose lower case
    has an ASCII letter (the Kelvin sign, and the dotted capital I). *)
Definition lower_char (c : Z) : pystr :=
  if is_ascii_upper c then [c + 32]
  else if c =? 0x212A then [107]
  else if c =? 0x130 then [105; 0x307]
  else [c].

Definition str_lower (s : pystr) : pystr := s ≫= lower_char.

(** [s.capitalize()]. *)
Definition capitalize (s : pystr) : pystr :=
  match s with [] => [] | c :: s' => upper_char c ++ str_lower s' end.

(** [s.find(c, start)] for a one-character [c]. *)
Fixpoint find_char (c : Z) (s : pystr) : option nat :=
  match s with
  | [] => None
  | x :: s' => if x =? c then Some 0%nat else S <$> find_char c s'
  end.

(** [s.rpartition(c)]; the flag tells whether [c] occurs. *)
Definition rpartition (c : Z) (s : pystr) : pystr * bool * pystr :=
  match find_char c (reverse s) with
  | Some i => (reverse (drop (S i) (reverse s)), true, reverse (take i (reverse s)))
  | None => ([], false, s)
  end.

Definition find_from (c : Z) (start : nat) (s : pystr) : option nat :=
  Nat.add start <$> find_char c (drop start s).

(** [s[lo:hi]] for [0 <= lo <= hi]. *)
Definition slice {A} (lo hi : nat) (s : list A) : list A := take (hi - lo) (drop lo s).

(** ** Integers as text *)

(** The code points of the decimal zeros: every [str.isdecimal] character is one
    of these plus 0 to 9 (Unicode 14, the Python 3.11 tables). *)
Definition decimal_zeros : list Z :=
  [0x30; 0x660; 0x6f0; 0x7c0; 0x966; 0x9e6; 0xa66; 0xae6; 0xb66; 0xbe6; 0xc66; 0xce6;
   0xd66; 0xde6; 0xe50; 0xed0; 0xf20; 0x1040; 0x1090; 0x17e0; 0x1810; 0x1946; 0x19d0;
   0x1a80; 0x1a90; 0x1b50; 0x1bb0; 0x1c40; 0x1c50; 0xa620; 0xa8d0; 0xa900; 0xa9d0;
   0xa9f0; 0xaa50; 0xabf0; 0xff10; 0x104a0; 0x10d30; 0x11066; 0x110f0; 0x11136;
   0x111d0; 0x112f0; 0x11450; 0x114d0; 0x11650; 0x116c0; 0x11730; 0x118e0; 0x11950;
   0x11c50; 0x11d50; 0x11da0; 0x16a60; 0x16ac0; 0x16b50; 0x1d7ce; 0x1d7d8; 0x1d7e2;
   0x1d7ec; 0x1d7f6; 0x1e140; 0x1e2f0; 0x1e950; 0x1fbf0].

(** The white space [int()] strips. *)
Definition int_spaces : list Z :=
  [0x9; 0xa; 0xb; 0xc; 0xd; 0x20; 0x85; 0xa0; 0x1680; 0x2000; 0x2001; 0x2002; 0x2003;
   0x2004; 0x2005; 0x2006; 0x2007; 0x2008; 0x2009; 0x200a; 0x2028; 0x2029; 0x202f;
   0x205f; 0x3000].

Fixpoint digit_in (zeros : list Z) (c : Z) : option Z :=
  match zeros with
  | [] => None
  | z :: zs => if (z <=? c) && (c <? z + 10) then Some (c - z) else digit_in zs c
  end.

Definition is_int_space (c : Z) : bool := bool_decide (c ∈ int_spaces).

(** What [int(text)] and [float(text)] strip: text with a non-ASCII character is
    first mapped to ASCII, and the mapping also counts U+001C to U+001F as
    spaces. *)
Definition text_space (s : pystr) (c : Z) : bool :=
  is_int_space c || (existsb (Z.leb 128) s && (28 <=? c) && (c <=? 31)).

Fixpoint lstrip (p : Z -> bool) (s : pystr) : pystr :=
  match s with
  | [] => []
  | c :: s' => if p c then lstrip p s' else s
  end.

Definition rstrip (p : Z -> bool) (s : pystr) : pystr := reverse (lstrip p (reverse s)).
Definition strip (p : Z -> bool) (s : pystr) : pystr := rstrip p (lstrip p s).

(** Digits with single underscores between them; [prev] says whether the
    previous character was a digit. *)
Fixpoint int_digits (zeros : list Z) (prev : bool) (s : pystr) : option (list Z) :=
  match s with
  | [] => if prev then Some [] else None
  | c :: s' =>
      if c =? 95 then (if prev then int_digits zeros false s' else None)
      else match digit_in zeros c with
           | Some d => cons d <$> int_digits zeros true s'
           | None => None
           end
  end.

Definition digits_value (ds : list Z) : Z := fold_left (fun acc d => acc * 10 + d) ds 0.

(** Python refuses to convert text of more digits than this. *)
Definition INT_MAX_STR_DIGITS : nat := 4300.

Definition int_unsigned (zeros : list Z) (s : pystr) : option Z :=
  match int_digits zeros false s with
  | Some ds => if bool_decide (length ds <= INT_MAX_STR_DIGITS)%nat
               then Some (digits_value ds) else None
  | None => None
  end.

Definition int_signed (zeros : list Z) (s : pystr) : option Z :=
  match s with
  | 43 :: s' => int_unsigned zeros s'
  | 45 :: s' => Z.opp <$> int_unsigned zeros s'
  | _ => int_unsigned zeros s
  end.

(** [int(text)]; [None] stands for [ValueError]. *)
Definition py_int (s : pystr) : option Z :=
  int_signed decimal_zeros (strip (text_space s) s).

(** [int(data)] of bytes: ASCII digits and white space only. *)
Definition is_ascii_space (c : Z) : bool := ((9 <=? c) && (c <=? 13)) || (c =? 32).
Definition py_int_bytes (s : list Z) : option Z := int_signed [48] (strip is_ascii_space s).

(** [str(n)]. *)
Fixpoint dec_digits_fuel (fuel : nat) (n : Z) (acc : list Z) : list Z :=
  match fuel with
  | O => acc
  | S f => if n <? 10 then n :: acc else dec_digits_fuel f (n / 10) (n mod 10 :: acc)
  end.

Definition dec_digits (n : Z) : list Z := dec_digits_fuel (S (Z.to_nat (Z.log2 n))) n [].

Definition str_of_int (z : Z) : pystr :=
  let ds := map (Z.add 48) (dec_digits (Z.abs z)) in
  if z <? 0 then 45 :: ds else ds.

(** ** The decimal text of an integer reads back as that integer *)
Lemma digits_value_app ds d : digits_value (ds ++ [d]) = digits_value ds * 10 + d.
Proof. unfold digits_value. by rewrite fold_left_app. Qed.

Lemma digits_value_acc ds a :
  fold_left (fun acc d => acc * 10 + d) ds a = a * 10 ^ Z.of_nat (length ds) + digits_value ds.
Proof.
  revert a. induction ds as [|d ds IH] using rev_ind; intros a.
  - simpl. unfold digits_value. simpl. lia.
  - rewrite fold_left_app, digits_value_app. simpl. rewrite IH, length_app. simpl.
    replace (Z.of_nat (length ds + 1)) with (Z.of_nat (length ds) + 1) by lia.
    rewrite Z.pow_add_r by lia. ring.
Qed.

Lemma dec_digits_fuel_value fuel n acc :
  0 <= n < 2 ^ Z.of_nat fuel ->
  digits_value (dec_digits_fuel fuel n acc) =
    n * 10 ^ Z.of_nat (length acc) + digits_value acc.
Proof.
  revert n acc. induction fuel as [|fuel IH]; intros n acc Hn.
  { simpl in *. replace n with 0 by lia. lia. }
  simpl. destruct (Z.ltb_spec n 10).
  - unfold digits_value at 1. simpl. by rewrite digits_value_acc.
  - replace (2 ^ Z.of_nat (S fuel)) with (2 * 2 ^ Z.of_nat fuel) in Hn
      by (rewrite Nat2Z.inj_succ, Z.pow_succ_r; lia).
    rewrite IH.
    + unfold digits_value at 1. simpl. rewrite digits_value_acc.
      replace (Z.of_nat (S (length acc))) with (Z.of_nat (length acc) + 1) by lia.
      rewrite Z.pow_add_r by lia. rewrite (Z.div_mod n 10) at 3 by lia. ring.
    + split; [apply Z.div_pos; lia|]. apply Z.div_lt_upper_bound; lia.
Qed.

Lemma dec_digits_fuel_range fuel n acc :
  0 <= n -> Forall (fun d => 0 <= d < 10) acc ->
  Forall (fun d => 0 <= d < 10) (dec_digits_fuel fuel n acc).
Proof.
  revert n acc. induction fuel as [|fuel IH]; intros n acc Hn Hacc; simpl; [done|].
  destruct (Z.ltb_spec n 10); [constructor; [lia|done]|].
  apply IH; [apply Z.div_pos; lia|]. constructor; [|done]. apply Z.mod_pos_bound. lia.
Qed.

Lemma dec_digits_fuel_length fuel n acc :
  (length (dec_digits_fuel fuel n acc) <= fuel + length acc)%nat.
Proof.
  revert n acc. induction fuel as [|fuel IH]; intros n acc; simpl; [lia|].
  destruct (n <? 10); simpl; [lia|]. etrans; [apply IH|]. simpl. lia.
Qed.

Lemma dec_digits_value n : 0 <= n -> digits_value (dec_digits n) = n.
Proof.
  intros Hn. unfold dec_digits. rewrite dec_digits_fuel_value.
  - simpl. unfold digits_value. simpl. lia.
  - split; [done|]. destruct (decide (n = 0)) as [->|].
    + simpl. lia.
    + rewrite Nat2Z.inj_succ, Z2Nat.id by apply Z.log2_nonneg.
      apply Z.log2_spec. lia.
Qed.

Lemma dec_digits_nonempty n : dec_digits n <> [].
Proof.
  unfold dec_digits. generalize (Z.to_nat (Z.log2 n)). intros k. simpl.
  destruct (n <? 10); [done|].
  assert (H : forall fuel m acc, acc <> [] -> dec_digits_fuel fuel m acc <> []).
  { induction fuel as [|fuel IH]; intros m acc Hacc; simpl; [done|].
    destruct (m <? 10); [done|]. by apply IH. }
  by apply H.
Qed.

Lemma int_digits_ascii zs prev ds :
  Forall (fun d => 0 <= d < 10) ds -> ds <> [] \/ prev = true ->
  int_digits (48 :: zs) prev (map (Z.add 48) ds) = Some ds.
Proof.
  intros Hds. revert prev. induction Hds as [|d ds Hd Hds IH]; intros prev Hne; simpl.
  { destruct prev; [done|]. by destruct Hne. }
  destruct (Z.eqb_spec (48 + d) 95); [lia|].
  destruct (Z.leb_spec 48 (48 + d)); [|lia]. destruct (Z.ltb_spec (48 + d) (48 + 10)); [|lia].
  simpl. rewrite IH by (by right). simpl. do 2 f_equal. lia.
Qed.

Lemma lstrip_head p c s : p c = false -> lstrip p (c :: s) = c :: s.
Proof. intros H. simpl. by rewrite H. Qed.

Lemma strip_id p (s : pystr) : Forall (fun c => p c = false) s -> strip p s = s.
Proof.
  intros H. assert (Hl : forall t, Forall (fun c => p c = false) t -> lstrip p t = t).
  { intros [|c t] Ht; [done|]. inversion Ht; subst. by apply lstrip_head. }
  unfold strip, rstrip. rewrite (Hl s) by done.
  rewrite Hl; [apply reverse_involutive|]. by apply Forall_reverse.
Qed.

Lemma str_of_int_chars p z :
  (forall c, 48 <= c < 58 \/ c = 45 -> p c = false) ->
  Forall (fun c => p c = false) (str_of_int z).
Proof.
  intros Hp. unfold str_of_int.
  assert (Forall (fun c => p c = false) (map (Z.add 48) (dec_digits (Z.abs z)))).
  { apply Forall_fmap. eapply Forall_impl; [apply dec_digits_fuel_range; [lia|constructor]|].
    intros d Hd. simpl in *. apply Hp. lia. }
  destruct (z <? 0); [constructor; [apply Hp; lia|done]|done].
Qed.

Lemma int_signed_str_of_int zs z :
  (length (dec_digits (Z.abs z)) <= INT_MAX_STR_DIGITS)%nat ->
  int_signed (48 :: zs) (str_of_int z) = Some z.
Proof.
  intros Hlen. unfold str_of_int.
  assert (Hr : Forall (fun d => 0 <= d < 10) (dec_digits (Z.abs z)))
    by (apply dec_digits_fuel_range; [lia|constructor]).
  assert (Hu : int_unsigned (48 :: zs) (map (Z.add 48) (dec_digits (Z.abs z))) = Some (Z.abs z)).
  { unfold int_unsigned. rewrite int_digits_ascii; [|done|left; apply dec_digits_nonempty].
    rewrite bool_decide_true by done. f_equal. apply dec_digits_value. lia. }
  destruct (Z.ltb_spec z 0).
  - simpl. rewrite Hu. simpl. f_equal. lia.
  - destruct (dec_digits (Z.abs z)) as [|d ds] eqn:E; [by destruct (dec_digits_nonempty (Z.abs z))|].
    inversion Hr; subst. unfold int_signed. simpl map in *.
    assert (48 + d = 48 \/ 48 < 48 + d < 58) as Hd by lia.
    rewrite Hu. replace (Z.abs z) with z by lia.
    repeat case_match; simplify_eq; try done; lia.
Qed.

Lemma strip_str_of_int z : strip (text_space (str_of_int z)) (str_of_int z) = str_of_int z.
Proof.
  apply strip_id, str_of_int_chars. intros c Hc. unfold text_space.
  apply orb_false_iff. split; [|destruct (existsb _ _); simpl; lia].
  unfold is_int_space. apply bool_decide_false. unfold int_spaces. rewrite !elem_of_cons. intros Hin.
  repeat (destruct Hin as [->|Hin]; [lia|]). set_solver.
Qed.

(** [int(str(n)) == n], for text and for bytes. *)
Lemma py_int_str_of_int z :
  (length (dec_digits (Z.abs z)) <= INT_MAX_STR_DIGITS)%nat ->
  py_int (str_of_int z) = Some z /\ py_int_bytes (str_of_int z) = Some z.
Proof.
  intros H. unfold py_int, py_int_bytes. rewrite strip_str_of_int, strip_id.
  - split; by apply int_signed_str_of_int.
  - apply str_of_int_chars. intros c Hc. unfold is_ascii_space. lia.
Qed.

Lemma dec_digits_length_bound n k : 0 <= n < 2 ^ Z.of_nat k -> (length (dec_digits n) <= S k)%nat.
Proof.
  intros Hn. unfold dec_digits. etrans; [apply dec_digits_fuel_length|]. simpl.
  destruct (decide (n = 0)) as [->|]; [simpl; lia|].
  assert (Z.log2 n < Z.of_nat k) by (apply Z.log2_lt_pow2; lia). lia.
Qed.

(** Every integer of at most 64 bits survives the trip through its text. *)
Lemma py_int_str_of_int64 z :
  Z.abs z <= 2 ^ 64 -> py_int (str_of_int z) = Some z /\ py_int_bytes (str_of_int z) = Some z.
Proof.
  intros H. apply py_int_str_of_int.
  etrans; [apply (dec_digits_length_bound _ 65); lia|]. unfold INT_MAX_STR_DIGITS. lia.
Qed.
