(* ===== verification/PyFloat.v ===== *)
(** * Python floats

    IEEE 754 binary64, as the Standard Library's [SpecFloat] specifies it (no
    primitive floats and no axioms): the comparisons, arithmetic and
    conversions the sources apply to scores and to clock readings. *)

From Stdlib Require Import SpecFloat.
From Stdlib Require Import SpecFloat String.
From S2P Require Import Prelude PyStr.
Local Close Scope string_scope.

Abbreviation float := spec_float.

Definition prec : Z := 53.
Definition emax : Z := 1024.

Definition fadd : float -> float -> float := SFadd prec emax.
Definition fsub : float -> float -> float := SFsub prec emax.
Definition fmul : float -> float -> float := SFmul prec emax.
Definition fdiv : float -> float -> float := SFdiv prec emax.
Definition float_of_Z (z : Z) : float := binary_normalize prec emax z 0 false.

Definition flt (a b : float) : bool := SFltb a b.
Definition fle (a b : float) : bool := SFleb a b.
Definition feq (a b : float) : bool := SFeqb a b.

Definition is_nan (a : float) : bool := match a with S754_nan => true | _ => false end.
Definition pos_inf : float := S754_infinity false.
Definition neg_inf : float := S754_infinity true.
Definition fzero : float := S754_zero false.

#[export] Instance float_eq_dec : EqDecision float.
Proof. solve_decision. Defined.

(** ** Conversions *)

(** [a / b] of two integers, [b > 0]: the quotient rounded once. *)
Definition int_truediv (a b : Z) : float :=
  match a, b with
  | Zpos p, Zpos q => fdiv (S754_finite false p 0) (S754_finite false q 0)
  | Zneg p, Zpos q => fdiv (S754_finite true p 0) (S754_finite false q 0)
  | _, _ => fzero
  end.

Definition with_sign (s : bool) (z : Z) : Z := if s then - z else z.

(** [int(x)]: truncation; [None] for an infinity or NaN, which raise. *)
Definition ftrunc (x : float) : option Z :=
  match x with
  | S754_zero _ => Some 0
  | S754_finite s m e =>
      Some (with_sign s (if 0 <=? e then Z.pos m * 2 ^ e else Z.pos m / 2 ^ (- e)))
  | _ => None
  end.

(** [round(x)]: to the nearest integer, ties to even. *)
Definition round_half_even (n d : Z) : Z :=
  let q := n / d in
  let r := n mod d in
  match 2 * r ?= d with
  | Lt => q
  | Gt => q + 1
  | Eq => if Z.even q then q else q + 1
  end.

Definition fround (x : float) : option Z :=
  match x with
  | S754_zero _ => Some 0
  | S754_finite s m e =>
      Some (with_sign s (if 0 <=? e then Z.pos m * 2 ^ e else round_half_even (Z.pos m) (2 ^ (- e))))
  | _ => None
  end.

(** [int(x // d)] for an integer [d > 0], the floor of the exact quotient. *)
Definition ffloordiv (x : float) (d : Z) : option Z :=
  match x with
  | S754_zero _ => Some 0
  | S754_finite s m e =>
      Some (if 0 <=? e then with_sign s (Z.pos m * 2 ^ e) / d
            else with_sign s (Z.pos m) / (2 ^ (- e) * d))
  | _ => None
  end.

(** [x.is_integer()]. *)
Definition fis_integer (x : float) : bool :=
  match x with
  | S754_zero _ => true
  | S754_finite _ m e => if 0 <=? e then true else Z.pos m mod 2 ^ (- e) =? 0
  | _ => false
  end.

(** ** Ordering

    Away from NaN the comparisons order floats by the text [fkey]: sign class,
    then exponent and mantissa (negated below zero).  The two zeros share one
    key, as they compare equal. *)
Definition fkey (x : float) : pystr :=
  match x with
  | S754_infinity true => [-2; 0; 0]
  | S754_finite true m e => [-1; - e; - Z.pos m]
  | S754_zero _ => [0; 0; 0]
  | S754_finite false m e => [1; e; Z.pos m]
  | S754_infinity false => [2; 0; 0]
  | S754_nan => [3; 0; 0]
  end.

Lemma Zcompare_opp a b : (- a ?= - b) = (b ?= a).
Proof. destruct (Z.compare_spec (- a) (- b)), (Z.compare_spec b a); try done; lia. Qed.

Lemma fcompare_key a b :
  is_nan a = false -> is_nan b = false -> SFcompare a b = Some (str_cmp (fkey a) (fkey b)).
Proof.
  destruct a as [sa|[]| |[] ma ea], b as [sb|[]| |[] mb eb]; simpl; intros Ha Hb; try done;
    f_equal.
  - rewrite Zcompare_opp, (Z.compare_antisym ea eb).
    destruct (ea ?= eb); simpl; try done.
    change (Z.neg ma ?= Z.neg mb) with (CompOpp (Pos.compare ma mb)).
    change (Pos.compare_cont Eq ma mb) with (Pos.compare ma mb).
    by destruct (Pos.compare ma mb).
  - destruct (ea ?= eb); simpl; try done.
    change (Pos.compare_cont Eq ma mb) with (Pos.compare ma mb).
    by destruct (Pos.compare ma mb).
Qed.

Lemma flt_key a b :
  is_nan a = false -> is_nan b = false -> flt a b = str_ltb (fkey a) (fkey b).
Proof. intros Ha Hb. unfold flt, SFltb. by rewrite fcompare_key. Qed.

Lemma fle_key a b :
  is_nan a = false -> is_nan b = false -> fle a b = str_leb (fkey a) (fkey b).
Proof.
  intros Ha Hb. unfold fle, SFleb, str_leb. rewrite fcompare_key by done.
  by destruct (str_cmp _ _).
Qed.

Lemma feq_key a b :
  is_nan a = false -> is_nan b = false -> feq a b = bool_decide (fkey a = fkey b).
Proof.
  intros Ha Hb. unfold feq, SFeqb. rewrite fcompare_key by done.
  destruct (str_cmp (fkey a) (fkey b)) eqn:E.
  - apply str_cmp_eq in E. by rewrite bool_decide_true.
  - rewrite bool_decide_false; [done|]. intros H%str_cmp_eq. congruence.
  - rewrite bool_decide_false; [done|]. intros H%str_cmp_eq. congruence.
Qed.

Lemma fkey_length a : length (fkey a) = 3%nat.
Proof. by destruct a as [|[]| |[]]. Qed.

Lemma str_cmp_app_eqlen a a' b b' :
  length a = length a' ->
  str_cmp (a ++ b) (a' ++ b') = match str_cmp a a' with Eq => str_cmp b b' | c => c end.
Proof.
  revert a'. induction a as [|x a IH]; intros [|y a'] H; simplify_eq/=; [done|].
  destruct (x ?= y); [by apply IH|done|done].
Qed.

(** * Floats as text

    Python's [float(text)] and [repr(x)], which command arguments and replies
    pass scores through, and the program's own [format_float]
    (protocol/resp.py).  Both directions work on exact integers: the decimal
    [m * 10^e] is rounded once, and [repr] searches for the shortest decimal
    that rounds to the float. *)

(** ** [float(text)] *)

(** The float nearest to [± m * 10^e].  Outside the two bounds on the decimal
    exponent the result is an infinity or a zero, whatever the digits. *)
Definition decimal_float (neg : bool) (m e : Z) : float :=
  match m with
  | Zpos p =>
      let top := e + Z.of_nat (length (dec_digits m)) in
      if 400 <? top then S754_infinity neg
      else if top <? -400 then S754_zero neg
      else if 0 <=? e then binary_normalize prec emax (with_sign neg (m * 10 ^ e)) 0 neg
      else fdiv (S754_finite neg p 0) (S754_finite false (Z.to_pos (10 ^ (- e))) 0)
  | _ => S754_zero neg
  end.

(** The text with decimal digits of any script as ASCII. *)
Definition ascii_digit (c : Z) : Z :=
  match digit_in decimal_zeros c with Some d => 48 + d | None => c end.

Definition is_digit (c : Z) : bool := (48 <=? c) && (c <=? 57).

(** Underscores may stand between two digits, and are dropped. *)
Fixpoint drop_underscores (prev : Z) (s : pystr) : option pystr :=
  match s with
  | [] => if prev =? 95 then None else Some []
  | c :: s' =>
      if c =? 95 then (if is_digit prev then drop_underscores c s' else None)
      else if (prev =? 95) && negb (is_digit c) then None
      else cons c <$> drop_underscores c s'
  end.

(** The longest run of digits at the front, and the rest. *)
Fixpoint span_digits (s : pystr) : list Z * pystr :=
  match s with
  | c :: s' => if is_digit c then let '(ds, r) := span_digits s' in ((c - 48) :: ds, r) else ([], s)
  | [] => ([], [])
  end.

Definition opt_sign (s : pystr) : bool * pystr :=
  match s with
  | 43 :: s' => (false, s')
  | 45 :: s' => (true, s')
  | _ => (false, s)
  end.

(** [e[sign]digits] to the end of the text. *)
Definition parse_exponent (s : pystr) : option Z :=
  match s with
  | [] => Some 0
  | c :: s' =>
      if (c =? 101) || (c =? 69) then
        let '(neg, r) := opt_sign s' in
        match span_digits r with
        | ((_ :: _) as ds, []) => Some (with_sign neg (digits_value ds))
        | _ => None
        end
      else None
  end.

(** [digits[.digits]] or [.digits]: the digits, and how many follow the point. *)
Definition parse_mantissa (s : pystr) : option (list Z * Z * pystr) :=
  let '(int_part, r) := span_digits s in
  let '(frac, r') := match r with 46 :: r' => span_digits r' | _ => ([], r) end in
  match int_part ++ frac with
  | [] => None
  | ds => Some (ds, Z.of_nat (length frac), r')
  end.

Definition parse_number (neg : bool) (s : pystr) : option float :=
  match parse_mantissa s with
  | Some (ds, frac, r) =>
      match parse_exponent r with
      | Some e => Some (decimal_float neg (digits_value ds) (e - frac))
      | None => None
      end
  | None => None
  end.

(** [float(text)]; [None] stands for [ValueError]. *)
Definition py_float (text : pystr) : option float :=
  s ← drop_underscores 0 (map ascii_digit (strip (text_space text) text));
  let '(neg, r) := opt_sign s in
  let low := str_lower r in
  if bool_decide (low = lit "inf") || bool_decide (low = lit "infinity")
  then Some (S754_infinity neg)
  else if bool_decide (low = lit "nan") then Some S754_nan
  else parse_number neg r.

(** ** [repr(x)] *)

(** [10^(k-1) <= num/den < 10^k]. *)
Definition decimal_exponent (num den : Z) : Z :=
  if den <=? num then Z.of_nat (length (dec_digits (num / den)))
  else 1 - Z.of_nat (length (dec_digits (den / num))).

Definition scaled (num den k : Z) : Z * Z :=
  if 0 <=? k then (num * 10 ^ k, den) else (num, den * 10 ^ (- k)).

(** The [n]-digit decimals on either side of [num/den], the nearer first. *)
Definition neighbours (num den k n : Z) : list Z :=
  let '(a, b) := scaled num den (n - k) in
  let q := a / b in
  if 2 * (a mod b) <=? b then [q; q + 1] else [q + 1; q].

(** The shortest decimal that rounds to [x], from [n] digits up. *)
Fixpoint shortest (x : float) (num den k n : Z) (fuel : nat) : option (Z * Z) :=
  match fuel with
  | O => None
  | S f =>
      match filter (fun q => decimal_float false q (k - n) = x) (neighbours num den k n) with
      | q :: _ => Some (q, k - n)
      | [] => shortest x num den k (n + 1) f
      end
  end.

(** Seventeen digits always suffice. *)
Definition MAX_REPR_DIGITS : nat := 17.

Fixpoint drop_trailing_zeros (fuel : nat) (m e : Z) : Z * Z :=
  match fuel with
  | S f => if m mod 10 =? 0 then drop_trailing_zeros f (m / 10) (e + 1) else (m, e)
  | O => (m, e)
  end.

Definition digit_text (ds : list Z) : pystr := map (Z.add 48) ds.
Definition zeros (n : Z) : pystr := replicate (Z.to_nat n) 48.

(** The layout of [repr]: [digits] stand for [0.digits * 10^decpt]. *)
Definition layout (ds : list Z) (decpt : Z) : pystr :=
  let n := Z.of_nat (length ds) in
  if (-4 <? decpt) && (decpt <=? 16) then
    if decpt <=? 0 then lit "0." ++ zeros (- decpt) ++ digit_text ds
    else if decpt <? n then
      digit_text (take (Z.to_nat decpt) ds) ++ lit "." ++ digit_text (drop (Z.to_nat decpt) ds)
    else digit_text ds ++ zeros (decpt - n) ++ lit ".0"
  else
    let ex := decpt - 1 in
    let abs := dec_digits (Z.abs ex) in
    digit_text (take 1 ds) ++
    (match drop 1 ds with [] => [] | r => lit "." ++ digit_text r end) ++
    lit "e" ++ (if ex <? 0 then lit "-" else lit "+") ++
    digit_text (match abs with [d] => [0; d] | _ => abs end).

Definition repr_positive (m : positive) (e : Z) : pystr :=
  let '(num, den) := if 0 <=? e then (Z.pos m * 2 ^ e, 1) else (Z.pos m, 2 ^ (- e)) in
  let k := decimal_exponent num den in
  let max := Z.of_nat MAX_REPR_DIGITS in
  let '(q, ex) := default (nth 0 (neighbours num den k max) 0, k - max)
                    (shortest (S754_finite false m e) num den k 1 MAX_REPR_DIGITS) in
  let '(q', ex') := drop_trailing_zeros MAX_REPR_DIGITS q ex in
  let ds := dec_digits q' in
  layout ds (ex' + Z.of_nat (length ds)).

Definition float_repr (x : float) : pystr :=
  match x with
  | S754_nan => lit "nan"
  | S754_infinity neg => if neg then lit "-inf" else lit "inf"
  | S754_zero neg => if neg then lit "-0.0" else lit "0.0"
  | S754_finite neg m e => (if neg then lit "-" else []) ++ repr_positive m e
  end.

(** ** [format_float] (resp.py) *)
Definition fabs (x : float) : float := SFabs x.
Definition ten17 : float := float_of_Z (10 ^ 17).

Definition format_float (value : float) : pystr :=
  if feq value pos_inf then lit "inf"
  else if feq value neg_inf then lit "-inf"
  else match ftrunc value with
       | Some n => if fis_integer value && flt (fabs value) ten17 then str_of_int n
                   else float_repr value
       | None => float_repr value
       end.
