(* ===== verification/PyFnmatch.v ===== *)
(** * Shell-style patterns

    Python's [fnmatch.fnmatchcase], which KEYS and CONFIG GET filter names
    with: [*], [?] and character classes, with the library's treatment of
    unclosed classes, reversed ranges and leading [!]. *)

From Stdlib Require Import String.
From S2P Require Import Prelude PyStr.
Local Close Scope string_scope.

(** One element of a translated pattern. *)
Inductive Glob :=
| GStar
| GAny
| GChar (c : Z)
| GClass (negated : bool) (ranges : list (Z * Z)).

(** ** Character classes *)

(** The text of a class, cut at the hyphens that make ranges: a hyphen counts
    from [skip] characters on. *)
Fixpoint class_chunks (fuel : nat) (skip : nat) (s : pystr) : list pystr :=
  match fuel with
  | O => [s]
  | S f =>
      match find_from 45 skip s with
      | Some k => take k s :: class_chunks f 2 (drop (S k) s)
      | None => [s]
      end
  end.

(** An empty last chunk gives its hyphen to the chunk before. *)
Fixpoint close_chunks (cs : list pystr) : list pystr :=
  match cs with
  | [c; []] => [c ++ [45]]
  | c :: cs' => c :: close_chunks cs'
  | [] => []
  end.

(** From the right, two chunks whose facing ends are a reversed range are joined
    without those ends. *)
Fixpoint join_reversed (cs : list pystr) : list pystr :=
  match cs with
  | c :: cs' =>
      match join_reversed cs' with
      | d :: ds =>
          match last c, head d with
          | Some a, Some b => if b <? a then (removelast c ++ tail d) :: ds else c :: d :: ds
          | _, _ => c :: d :: ds
          end
      | [] => [c]
      end
  | [] => []
  end.

(** The characters and ranges of the chunks; [from] is the left end of a range
    in progress. *)
Fixpoint chunk_ranges (from : option Z) (cs : list pystr) : list (Z * Z) :=
  match cs with
  | [] => []
  | c :: cs' =>
      let '(opening, body) :=
        match from, c with
        | Some a, b :: c' => ([(a, b)], c')
        | _, _ => ([], c)
        end in
      match cs' with
      | [] => opening ++ map (fun x => (x, x)) body
      | _ => opening ++ map (fun x => (x, x)) (removelast body) ++ chunk_ranges (last body) cs'
      end
  end.

Definition class_of (stuff : pystr) : Glob :=
  let skip := match stuff with 33 :: _ => 2%nat | _ => 1%nat end in
  let chunks :=
    if bool_decide (45 ∈ stuff)
    then join_reversed (close_chunks (class_chunks (length stuff) skip stuff)) else [stuff] in
  match chunks with
  | (33 :: c) :: cs => GClass true (chunk_ranges None (c :: cs))
  | cs => GClass false (chunk_ranges None cs)
  end.

(** The position of the [\]] that closes a class: not its first character, nor
    the one after a leading [!]. *)
Definition class_end (s : pystr) : option nat :=
  let j := match s with 33 :: 93 :: _ => 2%nat | 33 :: _ => 1%nat | 93 :: _ => 1%nat | _ => 0%nat end in
  find_from 93 j s.

(** ** Patterns *)
Fixpoint translate (fuel : nat) (pat : pystr) : list Glob :=
  match fuel, pat with
  | S f, c :: rest =>
      if c =? 42 then GStar :: translate f rest
      else if c =? 63 then GAny :: translate f rest
      else if c =? 91 then
        match class_end rest with
        | Some j => class_of (take j rest) :: translate f (drop (S j) rest)
        | None => GChar 91 :: translate f rest
        end
      else GChar c :: translate f rest
  | _, _ => []
  end.

Definition in_ranges (rs : list (Z * Z)) (c : Z) : bool :=
  existsb (fun '(a, b) => (a <=? c) && (c <=? b)) rs.

(** Whether the whole text matches: [*] tries every tail. *)
Fixpoint glob_match (g : list Glob) (s : pystr) : bool :=
  match g with
  | [] => match s with [] => true | _ => false end
  | GStar :: g' =>
      (fix tails (t : pystr) : bool :=
         glob_match g' t || match t with [] => false | _ :: t' => tails t' end) s
  | e :: g' =>
      match s with
      | [] => false
      | c :: s' =>
          (match e with
           | GAny | GStar => true
           | GChar x => c =? x
           | GClass negated rs => xorb negated (in_ranges rs c)
           end) && glob_match g' s'
      end
  end.

Definition fnmatchcase (name pat : pystr) : bool := glob_match (translate (length pat) pat) name.

(** ** What patterns match *)

(** [*] matches every name. *)
Lemma fnmatch_star name : fnmatchcase name (lit "*") = true.
Proof.
  unfold fnmatchcase. simpl. induction name as [|c name IH]; simpl; [done|]. by rewrite IH.
Qed.

Definition literal (c : Z) : Prop := c <> 42 /\ c <> 63 /\ c <> 91.

Lemma translate_literal fuel pat :
  Forall literal pat -> (length pat <= fuel)%nat -> translate fuel pat = GChar <$> pat.
Proof.
  intros H. revert fuel. induction H as [|c pat [Hs [Hq Hb]] H IH]; intros fuel Hf.
  - by destruct fuel.
  - destruct fuel as [|f]; simpl in *; [lia|].
    destruct (Z.eqb_spec c 42), (Z.eqb_spec c 63), (Z.eqb_spec c 91); try done.
    rewrite IH by lia. done.
Qed.

(** A pattern without [*], [?] and [\[] matches only itself. *)
Lemma fnmatch_literal name pat :
  Forall literal pat -> fnmatchcase name pat = bool_decide (name = pat).
Proof.
  intros H. unfold fnmatchcase. rewrite translate_literal by done. clear H.
  revert name. induction pat as [|c pat IH]; intros [|x name]; simpl; try done.
  rewrite IH. destruct (Z.eqb_spec x c) as [->|Hne]; simpl.
  - case_bool_decide as E; case_bool_decide as E'; naive_solver.
  - symmetry. apply bool_decide_false. congruence.
Qed.
