(* ===== verification/Codec.v ===== *)
(** * Bytes and text (core/codec.py)

    UTF-8 with the [surrogateescape] handler, at every boundary of the program:
    bytes that are not UTF-8 become lone surrogates and are restored on the way
    out.  Bytes are integers below 256. *)

From S2P Require Import Prelude PyStr.

Abbreviation bytes := (list Z).

Definition is_byte (b : Z) : Prop := 0 <= b < 256.

(** ** [to_bytes] *)

(** One code point.  A surrogate of the escape range gives its byte back; any
    other surrogate cannot be encoded ([UnicodeEncodeError], a [ValueError]). *)
Definition encode_char (c : Z) : option bytes :=
  if c <? 0x80 then Some [c]
  else if c <? 0x800 then Some [0xC0 + c / 64; 0x80 + c mod 64]
  else if (0xDC80 <=? c) && (c <=? 0xDCFF) then Some [c - 0xDC00]
  else if (0xD800 <=? c) && (c <=? 0xDFFF) then None
  else if c <? 0x10000 then Some [0xE0 + c / 4096; 0x80 + c / 64 mod 64; 0x80 + c mod 64]
  else Some [0xF0 + c / 262144; 0x80 + c / 4096 mod 64; 0x80 + c / 64 mod 64; 0x80 + c mod 64].

Fixpoint to_bytes (value : pystr) : option bytes :=
  match value with
  | [] => Some []
  | c :: rest =>
      match encode_char c, to_bytes rest with
      | Some b, Some bs => Some (b ++ bs)
      | _, _ => None
      end
  end.

(** ** [to_str] *)
Definition between (lo hi b : Z) : bool := (lo <=? b) && (b <=? hi).
Definition is_cont : Z -> bool := between 0x80 0xBF.

(** The code point of a well-formed sequence at the front, and its length. *)
Definition decode_char (data : bytes) : option (Z * nat) :=
  match data with
  | [] => None
  | a :: rest =>
      if between 0 0x7F a then Some (a, 1%nat)
      else if between 0xC2 0xDF a then
        match rest with
        | b :: _ => if is_cont b then Some ((a - 0xC0) * 64 + (b - 0x80), 2%nat) else None
        | _ => None
        end
      else if between 0xE0 0xEF a then
        match rest with
        | b :: c :: _ =>
            let lo := if a =? 0xE0 then 0xA0 else 0x80 in
            let hi := if a =? 0xED then 0x9F else 0xBF in
            if between lo hi b && is_cont c
            then Some ((a - 0xE0) * 4096 + (b - 0x80) * 64 + (c - 0x80), 3%nat) else None
        | _ => None
        end
      else if between 0xF0 0xF4 a then
        match rest with
        | b :: c :: d :: _ =>
            let lo := if a =? 0xF0 then 0x90 else 0x80 in
            let hi := if a =? 0xF4 then 0x8F else 0xBF in
            if between lo hi b && is_cont c && is_cont d
            then Some ((a - 0xF0) * 262144 + (b - 0x80) * 4096 + (c - 0x80) * 64 + (d - 0x80), 4%nat)
            else None
        | _ => None
        end
      else None
  end.

(** Every step consumes a byte, so the length of the data is fuel enough. *)
Fixpoint to_str_fuel (fuel : nat) (data : bytes) : pystr :=
  match fuel, data with
  | S f, a :: rest =>
      match decode_char data with
      | Some (c, n) => c :: to_str_fuel f (drop n data)
      | None => (0xDC00 + a) :: to_str_fuel f rest
      end
  | _, _ => []
  end.

Definition to_str (data : bytes) : pystr := to_str_fuel (length data) data.

(** ** Any byte sequence survives the round trip *)

Lemma between_spec lo hi b : between lo hi b = true <-> lo <= b <= hi.
Proof. unfold between. rewrite andb_true_iff, !Z.leb_le. done. Qed.

(** The tests of [encode_char], decided by [lia]. *)
Ltac encode_tests :=
  unfold encode_char;
  repeat match goal with
  | |- context [?a <? ?b] => destruct (Z.ltb_spec a b); try lia
  | |- context [?a <=? ?b] => destruct (Z.leb_spec a b); try lia
  end; simpl.

Lemma div_base x y n : 0 < n -> 0 <= y < n -> (x * n + y) / n = x.
Proof. intros Hn Hy. symmetry. apply (Z.div_unique_pos _ _ _ y); lia. Qed.

Lemma mod_base x y n : 0 < n -> 0 <= y < n -> (x * n + y) mod n = y.
Proof. intros Hn Hy. symmetry. apply (Z.mod_unique_pos _ _ x); lia. Qed.

Lemma encode_two a b :
  0xC2 <= a <= 0xDF -> 0x80 <= b <= 0xBF ->
  encode_char ((a - 0xC0) * 64 + (b - 0x80)) = Some [a; b].
Proof.
  intros Ha Hb. encode_tests. rewrite div_base, mod_base by lia. do 2 f_equal; [lia|f_equal; lia].
Qed.

Lemma encode_three a b c :
  0xE0 <= a <= 0xEF -> (if a =? 0xE0 then 0xA0 else 0x80) <= b ->
  b <= (if a =? 0xED then 0x9F else 0xBF) -> 0x80 <= c <= 0xBF ->
  encode_char ((a - 0xE0) * 4096 + (b - 0x80) * 64 + (c - 0x80)) = Some [a; b; c].
Proof.
  intros Ha Hlo Hhi Hc.
  assert (Hb : 0x80 <= b <= 0xBF) by (destruct (a =? 0xE0), (a =? 0xED); lia).
  set (v := (a - 0xE0) * 4096 + (b - 0x80) * 64 + (c - 0x80)).
  assert (E1 : v / 64 = (a - 0xE0) * 64 + (b - 0x80))
    by (subst v; replace 4096 with (64 * 64) by lia;
        rewrite Z.mul_assoc, <- Z.mul_add_distr_r, div_base; lia).
  assert (E2 : v / 4096 = a - 0xE0)
    by (subst v; rewrite <- Z.add_assoc, div_base; lia).
  assert (E3 : v mod 64 = c - 0x80)
    by (subst v; replace 4096 with (64 * 64) by lia;
        rewrite Z.mul_assoc, <- Z.mul_add_distr_r, mod_base; lia).
  assert (0x800 <= v < 0x10000 /\ ~ 0xD800 <= v <= 0xDFFF)
    by (subst v; destruct (Z.eqb_spec a 0xE0), (Z.eqb_spec a 0xED); lia).
  clearbody v. encode_tests; rewrite E1, E2, E3, mod_base by lia;
    (do 2 f_equal; [lia|f_equal; [lia|f_equal; lia]]).
Qed.

Lemma encode_four a b c d :
  0xF0 <= a <= 0xF4 -> (if a =? 0xF0 then 0x90 else 0x80) <= b ->
  b <= (if a =? 0xF4 then 0x8F else 0xBF) -> 0x80 <= c <= 0xBF -> 0x80 <= d <= 0xBF ->
  encode_char ((a - 0xF0) * 262144 + (b - 0x80) * 4096 + (c - 0x80) * 64 + (d - 0x80)) =
    Some [a; b; c; d].
Proof.
  intros Ha Hlo Hhi Hc Hd.
  assert (Hb : 0x80 <= b <= 0xBF) by (destruct (a =? 0xF0), (a =? 0xF4); lia).
  set (v := (a - 0xF0) * 262144 + (b - 0x80) * 4096 + (c - 0x80) * 64 + (d - 0x80)).
  assert (E1 : v / 64 = ((a - 0xF0) * 64 + (b - 0x80)) * 64 + (c - 0x80)).
  { replace v with ((((a - 0xF0) * 64 + (b - 0x80)) * 64 + (c - 0x80)) * 64 + (d - 0x80))
      by (subst v; lia). apply div_base; lia. }
  assert (E2 : v / 4096 = (a - 0xF0) * 64 + (b - 0x80)).
  { replace v with (((a - 0xF0) * 64 + (b - 0x80)) * 4096 + ((c - 0x80) * 64 + (d - 0x80)))
      by (subst v; lia). apply div_base; lia. }
  assert (E3 : v / 262144 = a - 0xF0)
    by (subst v; rewrite <- !Z.add_assoc, div_base; lia).
  assert (E4 : v mod 64 = d - 0x80).
  { replace v with ((((a - 0xF0) * 64 + (b - 0x80)) * 64 + (c - 0x80)) * 64 + (d - 0x80))
      by (subst v; lia). apply mod_base; lia. }
  assert (0x10000 <= v)
    by (subst v; destruct (Z.eqb_spec a 0xF0), (Z.eqb_spec a 0xF4); lia).
  clearbody v. encode_tests; rewrite E1, E2, E3, E4, !mod_base by lia;
    (do 2 f_equal; [lia|f_equal; [lia|f_equal; [lia|f_equal; lia]]]).
Qed.

Lemma decode_char_encode data c n :
  decode_char data = Some (c, n) ->
  (1 <= n <= length data)%nat /\ encode_char c = Some (take n data).
Proof.
  destruct data as [|a rest]; [done|]. simpl. unfold is_cont.
  destruct (between 0 0x7F a) eqn:E1.
  { intros [= -> <-]. apply between_spec in E1. simpl. split; [lia|].
    rewrite take_0. encode_tests. done. }
  destruct (between 0xC2 0xDF a) eqn:E2; [|destruct (between 0xE0 0xEF a) eqn:E3;
    [|destruct (between 0xF0 0xF4 a) eqn:E4; [|done]]].
  - destruct rest as [|b rest]; [done|]. case_match eqn:Eb; intros [= <- <-].
    apply between_spec in E2, Eb. split; [simpl; lia|]. by rewrite encode_two.
  - destruct rest as [|b [|d rest]]; [done..|]. case_match eqn:Eb; intros [= <- <-].
    apply andb_true_iff in Eb as [Eb Ed]. apply between_spec in E3, Eb, Ed.
    split; [simpl; lia|]. by rewrite encode_three by lia.
  - destruct rest as [|b [|d [|e rest]]]; [done..|]. case_match eqn:Eb; intros [= <- <-].
    apply andb_true_iff in Eb as [Eb Ee]. apply andb_true_iff in Eb as [Eb Ed].
    apply between_spec in E4, Eb, Ed, Ee. split; [simpl; lia|]. by rewrite encode_four by lia.
Qed.

Lemma decode_char_none a rest : decode_char (a :: rest) = None -> is_byte a -> 0x80 <= a < 0x100.
Proof.
  unfold is_byte. simpl. destruct (between 0 0x7F a) eqn:E; [done|]. intros _ Ha.
  unfold between in E. apply andb_false_iff in E as [E|E]; apply Z.leb_gt in E; lia.
Qed.

Lemma to_str_fuel_bytes fuel data :
  Forall is_byte data -> (length data <= fuel)%nat ->
  to_bytes (to_str_fuel fuel data) = Some data.
Proof.
  revert data. induction fuel as [|f IH]; intros data Hb Hf.
  { by destruct data; simpl in *; [|lia]. }
  destruct data as [|a rest]; [done|]. cbn [to_str_fuel].
  destruct (decode_char (a :: rest)) as [[c n]|] eqn:E.
  - apply decode_char_encode in E as [[Hn1 Hn2] Ec]. cbn [to_bytes].
    rewrite Ec, IH; [by rewrite take_drop|by apply Forall_drop|].
    rewrite length_drop. lia.
  - inversion Hb; subst. pose proof (decode_char_none _ _ E H1) as Ha. cbn [to_bytes].
    rewrite IH by (simpl in Hf; (done || lia)).
    assert (Hc : encode_char (0xDC00 + a) = Some [a]).
    { encode_tests. do 2 f_equal. lia. }
    rewrite Hc. done.
Qed.

(** Decoding then encoding gives the original bytes, whatever they are. *)
Lemma to_bytes_to_str data : Forall is_byte data -> to_bytes (to_str data) = Some data.
Proof. intros H. by apply to_str_fuel_bytes. Qed.

(** ** Encoding *)
Lemma to_bytes_app a b x y :
  to_bytes a = Some x -> to_bytes b = Some y -> to_bytes (a ++ b) = Some (x ++ y).
Proof.
  revert x. induction a as [|c a IH]; intros x Ha Hb; simpl in *; [by simplify_eq|].
  destruct (encode_char c) as [u|]; [|done]. destruct (to_bytes a) as [v|]; [|done].
  simplify_eq. rewrite (IH v) by done. by rewrite app_assoc.
Qed.

(** ASCII text is its own encoding, and decodes to itself. *)
Definition ascii (s : pystr) : Prop := Forall (fun c => 0 <= c < 128) s.

Lemma to_bytes_ascii s : ascii s -> to_bytes s = Some s.
Proof.
  induction 1 as [|c s Hc Hs IH]; simpl; [done|]. rewrite IH. encode_tests. done.
Qed.

Lemma to_str_ascii s : ascii s -> to_str s = s.
Proof.
  intros H. unfold to_str. assert (Hl : (length s <= length s)%nat) by done.
  revert Hl. generalize (length s) at 2 as n. intros n.
  revert n. induction H as [|c s Hc Hs IH]; intros n Hl; [by destruct n|].
  destruct n as [|n]; simpl in *; [lia|].
  assert (E : between 0 0x7F c = true) by (apply between_spec; lia).
  rewrite E. simpl. rewrite drop_0, (IH n) by lia. done.
Qed.

(** A code point that is neither a surrogate nor out of range. *)
Definition scalar (c : Z) : Prop := (0 <= c < 0xD800) \/ (0xE000 <= c < 0x110000).

Lemma between_true lo hi b : lo <= b <= hi -> between lo hi b = true.
Proof. apply between_spec. Qed.

Lemma between_false lo hi b : b < lo \/ hi < b -> between lo hi b = false.
Proof. intros H. apply not_true_iff_false. rewrite between_spec. lia. Qed.

(** The digits of a code point in base 64. *)
Lemma base64_two c : 0 <= c -> exists x y, c = x * 64 + y /\ 0 <= y < 64 /\ x = c / 64 /\ y = c mod 64.
Proof.
  intros Hc. exists (c / 64), (c mod 64). pose proof (Z.div_mod c 64).
  pose proof (Z.mod_pos_bound c 64). split_and!; try done; lia.
Qed.

Lemma base64_three c :
  0 <= c -> exists x y z, c = (x * 64 + y) * 64 + z /\ 0 <= y < 64 /\ 0 <= z < 64 /\
    x = c / 4096 /\ y = c / 64 mod 64 /\ z = c mod 64.
Proof.
  intros Hc. destruct (base64_two c Hc) as (u & z & Ec & Hz & Hu & Ez).
  assert (0 <= u) by (subst u; apply Z.div_pos; lia).
  destruct (base64_two u) as (x & y & Eu & Hy & Hx & Ey); [done|].
  exists x, y, z. split_and!; try lia; try congruence.
  rewrite Hx, Hu, Z.div_div by lia. done.
Qed.

Lemma base64_four c :
  0 <= c -> exists w x y z, c = ((w * 64 + x) * 64 + y) * 64 + z /\
    0 <= x < 64 /\ 0 <= y < 64 /\ 0 <= z < 64 /\
    w = c / 262144 /\ x = c / 4096 mod 64 /\ y = c / 64 mod 64 /\ z = c mod 64.
Proof.
  intros Hc. destruct (base64_three c Hc) as (u & y & z & Ec & Hy & Hz & Hu & Ey & Ez).
  assert (0 <= u) by (subst u; apply Z.div_pos; lia).
  destruct (base64_two u) as (w & x & Eu & Hx & Hw & Ex); [done|].
  exists w, x, y, z. split_and!; try lia; try congruence.
  rewrite Hw, Hu, Z.div_div by lia. done.
Qed.

Lemma encode_char_decode c rest :
  scalar c -> exists b, encode_char c = Some b /\ Forall is_byte b /\
    decode_char (b ++ rest) = Some (c, length b).
Proof.
  unfold scalar, is_byte, encode_char. intros Hc.
  destruct (Z.ltb_spec c 0x80).
  { eexists. split_and!; [done|repeat constructor; lia|].
    simpl. rewrite between_true by lia. done. }
  destruct (Z.ltb_spec c 0x800).
  { destruct (base64_two c) as (x & y & Ec & Hy & <- & <-); [lia|].
    eexists. split_and!; [done|repeat constructor; lia|].
    simpl. unfold is_cont. rewrite between_false, !between_true by lia. do 3 f_equal. lia. }
  replace ((0xDC80 <=? c) && (c <=? 0xDCFF)) with false by lia.
  replace ((0xD800 <=? c) && (c <=? 0xDFFF)) with false by lia.
  destruct (Z.ltb_spec c 0x10000).
  - destruct (base64_three c) as (x & y & z & Ec & Hy & Hz & <- & <- & <-); [lia|].
    eexists. split_and!; [done|repeat constructor; lia|].
    simpl. unfold is_cont. rewrite (between_false 0 0x7F), (between_false 0xC2 0xDF) by lia.
    rewrite !between_true; [do 3 f_equal; lia|..];
      try lia; destruct (Z.eqb_spec (0xE0 + x) 0xE0), (Z.eqb_spec (0xE0 + x) 0xED); lia.
  - destruct (base64_four c) as (w & x & y & z & Ec & Hx & Hy & Hz & <- & <- & <- & <-); [lia|].
    eexists. split_and!; [done|repeat constructor; lia|].
    simpl. unfold is_cont. rewrite (between_false 0 0x7F), (between_false 0xC2 0xDF),
      (between_false 0xE0 0xEF) by lia.
    rewrite !between_true; [do 3 f_equal; lia|..];
      try lia; destruct (Z.eqb_spec (0xF0 + w) 0xF0), (Z.eqb_spec (0xF0 + w) 0xF4); lia.
Qed.

(** Well-formed text is its bytes, decoded. *)
Lemma to_str_to_bytes s :
  Forall scalar s -> exists b, to_bytes s = Some b /\ Forall is_byte b /\ to_str b = s.
Proof.
  intros H. enough (exists b, to_bytes s = Some b /\ Forall is_byte b /\
                     forall fuel, (length b <= fuel)%nat -> to_str_fuel fuel b = s) as (b & ? & ? & Hf)
    by (exists b; split_and!; [done..|by apply Hf]).
  induction H as [|c s Hc Hs IH].
  { exists []. split_and!; [done..|]. by intros []. }
  destruct IH as (b & Eb & Hb & Hf).
  destruct (encode_char_decode c b Hc) as (u & Eu & Hu & Hd).
  exists (u ++ b). cbn [to_bytes]. rewrite Eu, Eb.
  split_and!; [done|by apply Forall_app|]. intros fuel Hl. rewrite length_app in Hl.
  assert (u <> []) by (destruct u; [by destruct b as [|? ?]; simpl in *; repeat case_match|done]).
  destruct u as [|a u]; [done|]. destruct fuel as [|f]; simpl in Hl; [lia|].
  rewrite <- app_comm_cons in Hd |- *. cbn [to_str_fuel]. rewrite Hd.
  f_equal. rewrite app_comm_cons, drop_app_length. apply Hf. lia.
Qed.

(** ** Decoded text

    Text that came in from bytes: what every argument read from a connection,
    the log or a snapshot is. *)
Definition decoded (s : pystr) : Prop := exists b, Forall is_byte b /\ to_str b = s.

Lemma decoded_bytes s : decoded s -> exists b, to_bytes s = Some b /\ Forall is_byte b /\ to_str b = s.
Proof. intros (b & Hb & <-). exists b. split_and!; [by apply to_bytes_to_str|done..]. Qed.

Lemma scalar_decoded s : Forall scalar s -> decoded s.
Proof. intros H. destruct (to_str_to_bytes s H) as (b & _ & ? & ?). by exists b. Qed.
