(* ===== verification/Errors.v ===== *)
(** * The exception hierarchy (core/exceptions.py)

    Every error of the program as a value: its class, message and RESP prefix,
    the constructors' defaults, and the error line's two directions,
    [to_resp] and [from_resp]. *)

From Stdlib Require Import String.
From S2P Require Import Prelude PyStr.

Inductive exn_class :=
| KVStoreError | CommandError | UnknownCommandError | WrongArityError
| InvalidArgumentError | WrongTypeError | OutOfMemoryError | KeyNotFoundError
| ProtocolError | PersistenceError | PersistenceWriteError | AOFCorruptedError
| SnapshotCorruptedError | ClusterError | NodeUnavailableError | ConnectFailedError
| CrossShardError | ReadOnlyReplicaError | TryAgainError | AskRedirectError
| NotEnoughReplicasError
(* Python's own, where the sources raise or catch them *)
| ValueError | KeyError | IndexError | LookupError | AssertionError | RuntimeError
| OSError | OverflowError | StructError | TypeError | TimeoutError | EOFError | AttributeError.

#[export] Instance exn_class_eq_dec : EqDecision exn_class.
Proof. solve_decision. Defined.

Record exn := mkExn { exn_cls : exn_class; exn_msg : pystr; exn_prefix : pystr }.

#[export] Instance exn_eq_dec : EqDecision exn.
Proof. solve_decision. Defined.

Definition class_name (c : exn_class) : pystr :=
  match c with
  | KVStoreError => lit "KVStoreError" | CommandError => lit "CommandError"
  | UnknownCommandError => lit "UnknownCommandError" | WrongArityError => lit "WrongArityError"
  | InvalidArgumentError => lit "InvalidArgumentError" | WrongTypeError => lit "WrongTypeError"
  | OutOfMemoryError => lit "OutOfMemoryError" | KeyNotFoundError => lit "KeyNotFoundError"
  | ProtocolError => lit "ProtocolError" | PersistenceError => lit "PersistenceError"
  | PersistenceWriteError => lit "PersistenceWriteError"
  | AOFCorruptedError => lit "AOFCorruptedError"
  | SnapshotCorruptedError => lit "SnapshotCorruptedError"
  | ClusterError => lit "ClusterError" | NodeUnavailableError => lit "NodeUnavailableError"
  | ConnectFailedError => lit "ConnectFailedError" | CrossShardError => lit "CrossShardError"
  | ReadOnlyReplicaError => lit "ReadOnlyReplicaError" | TryAgainError => lit "TryAgainError"
  | AskRedirectError => lit "AskRedirectError"
  | NotEnoughReplicasError => lit "NotEnoughReplicasError"
  | ValueError => lit "ValueError" | KeyError => lit "KeyError" | IndexError => lit "IndexError"
  | LookupError => lit "LookupError" | AssertionError => lit "AssertionError"
  | RuntimeError => lit "RuntimeError" | OSError => lit "OSError"
  | OverflowError => lit "OverflowError" | StructError => lit "error"
  | TypeError => lit "TypeError" | TimeoutError => lit "TimeoutError" | EOFError => lit "EOFError"
  | AttributeError => lit "AttributeError"
  end.

(** The base class each class names; [None] for Python's own and for the root. *)
Definition base_class (c : exn_class) : option exn_class :=
  match c with
  | KVStoreError => None
  | CommandError | KeyNotFoundError | ProtocolError | PersistenceError | ClusterError =>
      Some KVStoreError
  | UnknownCommandError | WrongArityError | InvalidArgumentError | WrongTypeError
  | OutOfMemoryError => Some CommandError
  | PersistenceWriteError | AOFCorruptedError | SnapshotCorruptedError => Some PersistenceError
  | NodeUnavailableError | CrossShardError | ReadOnlyReplicaError | TryAgainError
  | AskRedirectError | NotEnoughReplicasError => Some ClusterError
  | ConnectFailedError => Some NodeUnavailableError
  | _ => None
  end.

(** [isinstance(e, b)]: the hierarchy is at most four classes deep. *)
Fixpoint subclass_fuel (n : nat) (c b : exn_class) : bool :=
  bool_decide (c = b) ||
  match n, base_class c with
  | S n', Some c' => subclass_fuel n' c' b
  | _, _ => false
  end.
Definition is_subclass : exn_class -> exn_class -> bool := subclass_fuel 4.
Definition isinstance (e : exn) (b : exn_class) : bool := is_subclass (exn_cls e) b.

(** [code], the identifier of HTTP error bodies. *)
Definition code (c : exn_class) : pystr :=
  match c with
  | CommandError => lit "COMMAND_ERROR" | UnknownCommandError => lit "UNKNOWN_COMMAND"
  | WrongArityError => lit "WRONG_ARITY" | InvalidArgumentError => lit "INVALID_ARGUMENT"
  | WrongTypeError => lit "WRONG_TYPE" | OutOfMemoryError => lit "OUT_OF_MEMORY"
  | KeyNotFoundError => lit "KEY_NOT_FOUND" | ProtocolError => lit "PROTOCOL_ERROR"
  | PersistenceError => lit "PERSISTENCE_ERROR"
  | PersistenceWriteError => lit "PERSISTENCE_WRITE_ERROR"
  | AOFCorruptedError => lit "AOF_CORRUPTED" | SnapshotCorruptedError => lit "SNAPSHOT_CORRUPTED"
  | ClusterError => lit "CLUSTER_ERROR"
  | NodeUnavailableError | ConnectFailedError => lit "NODE_UNAVAILABLE"
  | CrossShardError => lit "CROSS_SHARD" | ReadOnlyReplicaError => lit "READ_ONLY_REPLICA"
  | TryAgainError => lit "TRY_AGAIN" | AskRedirectError => lit "ASK_REDIRECT"
  | NotEnoughReplicasError => lit "NOT_ENOUGH_REPLICAS"
  | _ => lit "INTERNAL_ERROR"
  end.

(** [resp_prefix], inherited where a class declares none. *)
Definition resp_prefix (c : exn_class) : pystr :=
  match c with
  | WrongTypeError => lit "WRONGTYPE" | OutOfMemoryError => lit "OOM"
  | PersistenceWriteError => lit "MISCONF"
  | NodeUnavailableError | ConnectFailedError => lit "CLUSTERDOWN"
  | CrossShardError => lit "CROSSSLOT" | ReadOnlyReplicaError => lit "READONLY"
  | TryAgainError => lit "TRYAGAIN" | AskRedirectError => lit "ASK"
  | NotEnoughReplicasError => lit "NOREPLICAS"
  | _ => lit "ERR"
  end.

(** [_by_prefix]: the classes that declare a prefix of their own. *)
Definition by_prefix : list (pystr * exn_class) :=
  [(lit "WRONGTYPE", WrongTypeError); (lit "OOM", OutOfMemoryError);
   (lit "MISCONF", PersistenceWriteError); (lit "CLUSTERDOWN", NodeUnavailableError);
   (lit "CROSSSLOT", CrossShardError); (lit "READONLY", ReadOnlyReplicaError);
   (lit "TRYAGAIN", TryAgainError); (lit "ASK", AskRedirectError);
   (lit "NOREPLICAS", NotEnoughReplicasError)].

Definition str_or (a b : pystr) : pystr := match a with [] => b | _ => a end.

Definition starts_with (p s : pystr) : bool := bool_decide (take (length p) s = p).

(** The message each class's [__init__] passes up. *)
Definition init_message (c : exn_class) (m : pystr) : pystr :=
  match c with
  | WrongTypeError => str_or m (lit "Operation against a key holding the wrong kind of value")
  | OutOfMemoryError => str_or m (lit "command not allowed when used memory > 'maxmemory'.")
  | ReadOnlyReplicaError => str_or m (lit "You can't write against a read only replica.")
  | NotEnoughReplicasError => str_or m (lit "Not enough good replicas to write.")
  | ProtocolError =>
      if starts_with (lit "Protocol error") m then m else lit "Protocol error: " ++ m
  | _ => m
  end.

Definition new_exn (c : exn_class) (message : pystr) (prefix : option pystr) : exn :=
  mkExn c (str_or (init_message c message) (class_name c))
        (match prefix with Some p => str_or p (resp_prefix c) | None => resp_prefix c end).

Definition err (c : exn_class) (message : String.string) : exn := new_exn c (lit message) None.

Definition to_resp (e : exn) : pystr := exn_prefix e ++ 32 :: exn_msg e.

(** [text.partition(" ")]: the text before and after the first space. *)
Fixpoint partition_space (s : pystr) : pystr * pystr :=
  match s with
  | [] => ([], [])
  | c :: s' => if c =? 32 then ([], s')
               else let '(a, b) := partition_space s' in (c :: a, b)
  end.

Section FromResp.
(** Unicode's case property beyond ASCII: [Some true] for an upper-case
    character, [Some false] for another cased one, [None] for an uncased one. *)
Variable unicode_case : Z -> option bool.

Definition char_case (c : Z) : option bool :=
  if c <? 128 then
    if is_ascii_upper c then Some true else if is_ascii_lower c then Some false else None
  else unicode_case c.

(** [s.isupper()]: some cased character, and every cased one is upper case. *)
Definition isupper (s : pystr) : bool :=
  existsb (fun c => match char_case c with Some true => true | _ => false end) s &&
  forallb (fun c => match char_case c with Some false => false | _ => true end) s.

Definition from_resp (text : pystr) : exn :=
  let '(prefix, message) := partition_space text in
  if negb (isupper prefix) then new_exn CommandError text None
  else new_exn (default CommandError (dict_get prefix by_prefix)) message (Some prefix).

Lemma partition_space_app p m :
  Forall (fun c => c <> 32) p -> partition_space (p ++ 32 :: m) = (p, m).
Proof.
  induction 1 as [|c p Hc Hp IH]; simpl; [done|].
  destruct (Z.eqb_spec c 32); [done|]. by rewrite IH.
Qed.

(** The class a client rebuilds from the prefix of class [c]. *)
Definition wire_class (c : exn_class) : exn_class :=
  default CommandError (dict_get (resp_prefix c) by_prefix).

Lemma resp_prefix_upper c : isupper (resp_prefix c) = true.
Proof. by destruct c. Qed.

Lemma resp_prefix_no_space c : Forall (fun x => x <> 32) (resp_prefix c).
Proof. destruct c; repeat (constructor; [done|]); constructor. Qed.

(** The error a client rebuilds from the line of an error of class [c]. *)
Lemma from_resp_to_resp c m :
  m <> [] ->
  from_resp (to_resp (mkExn c m (resp_prefix c))) = mkExn (wire_class c) m (resp_prefix c).
Proof.
  intros Hm. unfold from_resp, to_resp. cbn [exn_prefix exn_msg].
  rewrite partition_space_app by apply resp_prefix_no_space.
  rewrite resp_prefix_upper. cbn [negb]. fold (wire_class c). unfold new_exn.
  assert (Hw : init_message (wire_class c) m = m) by (by destruct m, c).
  rewrite Hw. destruct m as [|x m]; [done|]. f_equal. by destruct c.
Qed.
End FromResp.

Lemma class_name_nonempty c : class_name c <> [].
Proof. by destruct c. Qed.

Lemma new_exn_msg_nonempty c m p : exn_msg (new_exn c m p) <> [].
Proof.
  unfold new_exn. simpl. destruct (init_message c m); [apply class_name_nonempty | done].
Qed.
