(* ===== verification/Pack.v ===== *)
(** * Binary layouts

    The parts of Python's [struct] and [zlib] the file formats use:
    little-endian integers at a fixed width, binary64 numbers, and CRC-32.
    Packing a number that does not fit raises [struct.error]. *)

From Stdlib Require Import SpecFloat String.
From S2P Require Import Prelude PyStr PyFloat Errors Codec.
Local Close Scope string_scope.

(** ** Integers *)
Fixpoint le_bytes (n : nat) (z : Z) : bytes :=
  match n with
  | O => []
  | S n' => z mod 256 :: le_bytes n' (z / 256)
  end.

Fixpoint le_value (bs : bytes) : Z :=
  match bs with [] => 0 | b :: bs' => b + 256 * le_value bs' end.

Lemma le_bytes_length n z : length (le_bytes n z) = n.
Proof. revert z. induction n; intros z; simpl; auto. Qed.

Lemma le_bytes_byte n z : Forall is_byte (le_bytes n z).
Proof.
  revert z. induction n; intros z; simpl; constructor; [|done].
  unfold is_byte. apply Z.mod_pos_bound. lia.
Qed.

Lemma le_value_bytes n z : 0 <= z < 256 ^ Z.of_nat n -> le_value (le_bytes n z) = z.
Proof.
  revert z. induction n as [|n IH]; intros z Hz; simpl.
  { simpl in Hz. lia. }
  rewrite Nat2Z.inj_succ, Z.pow_succ_r in Hz by lia. rewrite IH.
  - pose proof (Z.div_mod z 256). lia.
  - split; [apply Z.div_pos; lia|]. apply Z.div_lt_upper_bound; lia.
Qed.

Lemma le_bytes_one z : 0 <= z < 256 -> le_bytes 1 z = [z].
Proof. intros H. simpl. by rewrite Z.mod_small. Qed.

Definition struct_error : exn := err StructError "argument out of range".

(** Unsigned ([B], [H], [I], [Q] for 1, 2, 4 and 8 bytes) and signed ([q]). *)
Definition pack_unsigned (n : nat) (z : Z) : result exn bytes :=
  if (0 <=? z) && (z <? 256 ^ Z.of_nat n) then Ok (le_bytes n z) else Raise struct_error.

Definition pack_i64 (z : Z) : result exn bytes :=
  if (- 2 ^ 63 <=? z) && (z <? 2 ^ 63) then Ok (le_bytes 8 (z mod 2 ^ 64)) else Raise struct_error.

Definition signed64 (v : Z) : Z := if v <? 2 ^ 63 then v else v - 2 ^ 64.

Lemma pack_unsigned_ok n z : 0 <= z < 256 ^ Z.of_nat n -> pack_unsigned n z = Ok (le_bytes n z).
Proof.
  intros H. unfold pack_unsigned. destruct (Z.leb_spec 0 z), (Z.ltb_spec z (256 ^ Z.of_nat n)); try lia.
  done.
Qed.

Lemma pack_i64_ok z : - 2 ^ 63 <= z < 2 ^ 63 -> pack_i64 z = Ok (le_bytes 8 (z mod 2 ^ 64)).
Proof.
  intros H. unfold pack_i64. destruct (Z.leb_spec (- 2 ^ 63) z), (Z.ltb_spec z (2 ^ 63)); try lia.
  done.
Qed.

Lemma signed64_mod z : - 2 ^ 63 <= z < 2 ^ 63 -> signed64 (le_value (le_bytes 8 (z mod 2 ^ 64))) = z.
Proof.
  intros H. rewrite le_value_bytes by (simpl; apply Z.mod_pos_bound; lia). unfold signed64.
  destruct (decide (0 <= z)).
  - rewrite Z.mod_small by lia. destruct (Z.ltb_spec z (2 ^ 63)); lia.
  - replace (z mod 2 ^ 64) with (z + 2 ^ 64)
      by (symmetry; rewrite <- (Z.mod_unique_pos z (2 ^ 64) (-1) (z + 2 ^ 64)); lia).
    destruct (Z.ltb_spec (z + 2 ^ 64) (2 ^ 63)); lia.
Qed.

(** ** Binary64 *)

(** The representations a Python float has. *)
Definition float_ok (x : float) : bool :=
  match x with
  | S754_finite _ m e =>
      ((2 ^ 52 <=? Z.pos m) && (Z.pos m <? 2 ^ 53) && (-1074 <=? e) && (e <=? 971))
      || ((Z.pos m <? 2 ^ 52) && (e =? -1074))
  | _ => true
  end.

Definition sign_bit (s : bool) : Z := if s then 2 ^ 63 else 0.

Definition float_bits (x : float) : Z :=
  match x with
  | S754_zero s => sign_bit s
  | S754_infinity s => sign_bit s + 2047 * 2 ^ 52
  | S754_nan => 2047 * 2 ^ 52 + 2 ^ 51
  | S754_finite s m e =>
      if 2 ^ 52 <=? Z.pos m then sign_bit s + (e + 1075) * 2 ^ 52 + (Z.pos m - 2 ^ 52)
      else sign_bit s + Z.pos m
  end.

Definition float_of_bits (v : Z) : float :=
  let s := 2 ^ 63 <=? v in
  let body := if s then v - 2 ^ 63 else v in
  let expo := body / 2 ^ 52 in
  let frac := body mod 2 ^ 52 in
  if expo =? 0 then match frac with Zpos m => S754_finite s m (-1074) | _ => S754_zero s end
  else if expo =? 2047 then (if frac =? 0 then S754_infinity s else S754_nan)
  else S754_finite s (Z.to_pos (2 ^ 52 + frac)) (expo - 1075).

Lemma float_of_bits_parts s ex fr :
  0 <= ex < 2048 -> 0 <= fr < 2 ^ 52 ->
  float_of_bits (sign_bit s + ex * 2 ^ 52 + fr) =
    if ex =? 0 then match fr with Zpos m => S754_finite s m (-1074) | _ => S754_zero s end
    else if ex =? 2047 then (if fr =? 0 then S754_infinity s else S754_nan)
    else S754_finite s (Z.to_pos (2 ^ 52 + fr)) (ex - 1075).
Proof.
  intros He Hf. unfold float_of_bits.
  assert (Es : (2 ^ 63 <=? sign_bit s + ex * 2 ^ 52 + fr) = s).
  { unfold sign_bit. destruct s; [apply Z.leb_le|apply Z.leb_gt]; lia. }
  rewrite Es. replace (if s then _ else _) with (ex * 2 ^ 52 + fr)
    by (unfold sign_bit; destruct s; lia).
  rewrite div_base, mod_base by lia. done.
Qed.

Lemma float_bits_round x : float_ok x = true -> float_of_bits (float_bits x) = x.
Proof.
  destruct x as [s|s| |s m e]; intros H; try (by destruct s); [done|].
  simpl float_bits. unfold float_ok in H.
  destruct (Z.leb_spec (2 ^ 52) (Z.pos m)) as [Hm|Hm].
  - assert (Z.pos m < 2 ^ 53 /\ -1074 <= e <= 971) as [Hm' He] by lia.
    rewrite float_of_bits_parts by lia.
    destruct (Z.eqb_spec (e + 1075) 0), (Z.eqb_spec (e + 1075) 2047); try lia.
    f_equal; [|lia]. replace (2 ^ 52 + (Z.pos m - 2 ^ 52)) with (Z.pos m) by lia. done.
  - assert (e = -1074) as -> by lia.
    rewrite <- (Z.add_0_r (sign_bit s)), <- (Z.mul_0_l (2 ^ 52)).
    rewrite float_of_bits_parts by lia. done.
Qed.

Lemma float_bits_range x : float_ok x = true -> 0 <= float_bits x < 256 ^ 8.
Proof.
  change (256 ^ 8) with (2 ^ 64). unfold float_ok, float_bits, sign_bit.
  destruct x as [[]|[]| |s m e]; intros H; try lia.
  destruct (Z.leb_spec (2 ^ 52) (Z.pos m)); destruct s; lia.
Qed.

Definition pack_f64 (x : float) : bytes := le_bytes 8 (float_bits x).

(** ** CRC-32 *)
Definition crc_bit (c : Z) : Z :=
  if Z.odd c then Z.lxor (Z.shiftr c 1) 0xEDB88320 else Z.shiftr c 1.

Definition crc_byte (c b : Z) : Z :=
  let x := Z.lxor c b in
  crc_bit (crc_bit (crc_bit (crc_bit (crc_bit (crc_bit (crc_bit (crc_bit x))))))).

(** [zlib.crc32(data, value)]. *)
Definition crc32 (data : bytes) (value : Z) : Z :=
  Z.lxor (fold_left crc_byte data (Z.lxor value 0xFFFFFFFF)) 0xFFFFFFFF.

(** A checksum may be taken piece by piece. *)
Lemma crc32_app a b v : crc32 b (crc32 a v) = crc32 (a ++ b) v.
Proof.
  unfold crc32. rewrite fold_left_app, Z.lxor_assoc, Z.lxor_nilpotent, Z.lxor_0_r. done.
Qed.

Lemma lxor_range n a b : 0 <= n -> 0 <= a < 2 ^ n -> 0 <= b < 2 ^ n -> 0 <= Z.lxor a b < 2 ^ n.
Proof.
  intros Hn Ha Hb. assert (0 <= Z.lxor a b) by (apply Z.lxor_nonneg; lia). split; [done|].
  destruct (decide (Z.lxor a b = 0)) as [->|]; [lia|].
  apply Z.log2_lt_pow2; [lia|]. eapply Z.le_lt_trans; [apply Z.log2_lxor; lia|].
  assert (forall z, 0 <= z < 2 ^ n -> Z.log2 z < n \/ n = 0) as Hlog.
  { intros z Hz. destruct (decide (n = 0)); [by right|]. left.
    destruct (decide (z = 0)) as [->|]; [simpl; lia|]. apply Z.log2_lt_pow2; lia. }
  destruct (Hlog a Ha), (Hlog b Hb); try lia; subst n; simpl in *;
    replace a with 0 in * by lia; replace b with 0 in * by lia; done.
Qed.

Lemma crc_bit_range c : 0 <= c < 2 ^ 32 -> 0 <= crc_bit c < 2 ^ 32.
Proof.
  intros H. assert (0 <= Z.shiftr c 1 < 2 ^ 32).
  { rewrite Z.shiftr_div_pow2 by lia. change (2 ^ 1) with 2.
    split; [apply Z.div_pos; lia|]. apply Z.div_lt_upper_bound; lia. }
  unfold crc_bit. destruct (Z.odd c); [|done]. apply lxor_range; lia.
Qed.

Lemma crc32_range data v :
  Forall is_byte data -> 0 <= v < 2 ^ 32 -> 0 <= crc32 data v < 2 ^ 32.
Proof.
  intros Hd Hv. unfold crc32. apply lxor_range; [lia| |lia].
  assert (Hx : 0 <= Z.lxor v 0xFFFFFFFF < 2 ^ 32) by (apply lxor_range; lia).
  revert Hx. generalize (Z.lxor v 0xFFFFFFFF).
  induction Hd as [|b data Hb Hd IH]; intros c Hc; simpl; [done|].
  apply IH. unfold crc_byte. do 8 apply crc_bit_range. unfold is_byte in Hb.
  apply lxor_range; lia.
Qed.
