(* ===== verification/Oracles.v ===== *)
(** * The clock and the random generator

    [time.time] and [random.Random] are read through a counter: reading number
    [n] of the clock is [clock_fn n], draw number [n] of the generator is given
    by the [rng_*] functions at [n].  Every run of the program is one choice of
    these functions; what Python documents of them is [oracles_ok]. *)

From S2P Require Import Prelude PyStr PyFloat.

Record Oracles := mkOracles {
  clock_fn : nat -> float;
  clock_pos : nat;
  rng_sample : nat -> nat -> nat -> list nat;  (* draw, population size, k: positions *)
  rng_random : nat -> float;
  rng_choice : nat -> nat -> nat;              (* draw, population size: position *)
  rng_pos : nat;
  level_random : nat -> float;                 (* the skip lists' own generator *)
  level_pos : nat
}.

Definition set_clock_pos (n : nat) (o : Oracles) : Oracles :=
  mkOracles (clock_fn o) n (rng_sample o) (rng_random o) (rng_choice o) (rng_pos o)
    (level_random o) (level_pos o).
Definition set_rng_pos (n : nat) (o : Oracles) : Oracles :=
  mkOracles (clock_fn o) (clock_pos o) (rng_sample o) (rng_random o) (rng_choice o) n
    (level_random o) (level_pos o).
Definition set_level_pos (n : nat) (o : Oracles) : Oracles :=
  mkOracles (clock_fn o) (clock_pos o) (rng_sample o) (rng_random o) (rng_choice o) (rng_pos o)
    (level_random o) n.

(** [clock()]. *)
Definition clock_now (o : Oracles) : float * Oracles :=
  (clock_fn o (clock_pos o), set_clock_pos (S (clock_pos o)) o).

(** The elements of [l] at the positions [ps]. *)
Definition pick {A} (l : list A) (ps : list nat) : list A := ps ≫= (fun i => option_list (l !! i)).

(** [rng.sample(l, k)], [k <= len(l)]. *)
Definition sample {A} (l : list A) (k : nat) (o : Oracles) : list A * Oracles :=
  (pick l (rng_sample o (rng_pos o) (length l) k), set_rng_pos (S (rng_pos o)) o).

(** [rng.random()]. *)
Definition random (o : Oracles) : float * Oracles :=
  (rng_random o (rng_pos o), set_rng_pos (S (rng_pos o)) o).

(** [rng.choice(l)], [l] not empty. *)
Definition choice {A} (l : list A) (o : Oracles) : option A * Oracles :=
  (l !! rng_choice o (rng_pos o) (length l), set_rng_pos (S (rng_pos o)) o).

(** [random.sample] returns [k] distinct positions of the population, and
    [random.choice] one of them. *)
Definition oracles_ok (o : Oracles) : Prop :=
  (forall p n k, (k <= n)%nat ->
     NoDup (rng_sample o p n k) /\ length (rng_sample o p n k) = k /\
     Forall (fun i => i < n)%nat (rng_sample o p n k)) /\
  (forall p n, (0 < n)%nat -> (rng_choice o p n < n)%nat).

(** Two oracle states of one run: they differ in how much was read. *)
Definition same_source (o o' : Oracles) : Prop :=
  clock_fn o' = clock_fn o /\ rng_sample o' = rng_sample o /\
  rng_random o' = rng_random o /\ rng_choice o' = rng_choice o /\
  level_random o' = level_random o.

Lemma same_source_ok o o' : same_source o o' -> oracles_ok o -> oracles_ok o'.
Proof. intros (_ & Hs & _ & Hc & _) [H1 H2]. split; intros; rewrite ?Hs, ?Hc; auto. Qed.

#[export] Instance same_source_preorder : PreOrder same_source.
Proof.
  split; [done|]. unfold same_source. intros x y z. intuition congruence.
Qed.

Lemma pick_lookup {A} (l : list A) ps :
  Forall (fun i => i < length l)%nat ps -> length (pick l ps) = length ps.
Proof.
  induction 1 as [|i ps Hi Hps IH]; [done|].
  change (pick l (i :: ps)) with (option_list (l !! i) ++ pick l ps).
  destruct (lookup_lt_is_Some_2 l i Hi) as [x ->]. simpl. by rewrite IH.
Qed.

Lemma elem_of_pick {A} (l : list A) ps x :
  x ∈ pick l ps <-> exists i, i ∈ ps /\ l !! i = Some x.
Proof.
  unfold pick. rewrite list_elem_of_bind. split.
  - intros (i & Hx & Hi). exists i. split; [done|].
    destruct (l !! i) as [y|]; simpl in Hx; [|set_solver].
    apply list_elem_of_singleton in Hx. by subst.
  - intros (i & Hi & Hx). exists i. split; [|done]. rewrite Hx. simpl. set_solver.
Qed.

Lemma pick_NoDup {A} (l : list A) ps : NoDup l -> NoDup ps -> NoDup (pick l ps).
Proof.
  intros Hl. induction 1 as [|i ps Hi Hps IH]; [constructor|].
  change (pick l (i :: ps)) with (option_list (l !! i) ++ pick l ps).
  destruct (l !! i) as [x|] eqn:E; simpl; [|done]. constructor; [|done].
  intros (j & Hj & Hx)%elem_of_pick. apply Hi.
  by rewrite (NoDup_lookup l i j x Hl E Hx).
Qed.

(** What a caller may rely on of [rng.sample]. *)
Lemma sample_spec {A} (l : list A) k o :
  oracles_ok o -> (k <= length l)%nat ->
  length (sample l k o).1 = k /\ (forall x, x ∈ (sample l k o).1 -> x ∈ l) /\
  (NoDup l -> NoDup (sample l k o).1) /\ same_source o (sample l k o).2.
Proof.
  intros [Hs _] Hk. destruct (Hs (rng_pos o) (length l) k Hk) as (Hnd & Hlen & Hall).
  unfold sample. simpl. split_and!.
  - by rewrite pick_lookup.
  - intros x (i & _ & Hi)%elem_of_pick. eapply list_elem_of_lookup_2; eauto.
  - intros Hl. by apply pick_NoDup.
  - done.
Qed.

(** A deterministic source, for concrete runs: the clock stands still at [t],
    samples are prefixes, [random] is 0 and every skip list node has one level. *)
Definition still (t : float) : Oracles :=
  mkOracles (fun _ => t) 0 (fun _ _ k => seq 0 k) (fun _ => fzero) (fun _ _ => 0%nat) 0
    (fun _ => float_of_Z 1) 0.

Lemma still_ok t : oracles_ok (still t).
Proof.
  split; simpl; [|done]. intros _ n k Hk. split_and!; [apply NoDup_seq | apply length_seq |].
  apply Forall_forall. intros i Hi. apply elem_of_seq in Hi. lia.
Qed.
