(* ===== verification/KeySet.v ===== *)
(** * SampleableKeySet (engine/keyset.py)

    A set as a dense array plus a key -> position map.  Removal swaps the last
    element into the hole; the theorems show that the array and the map never
    disagree and that the pair is a set. *)

From S2P Require Import Prelude PyStr PyFloat Oracles.

Record SampleableKeySet := mkKeySet { ks_items : list pystr; ks_index : list (pystr * nat) }.

Definition ks_empty : SampleableKeySet := mkKeySet [] [].

Definition ks_add (key : pystr) (s : SampleableKeySet) : SampleableKeySet :=
  if dict_mem key (ks_index s) then s
  else mkKeySet (ks_items s ++ [key]) (dict_set key (length (ks_items s)) (ks_index s)).

(** The pop of an empty array would raise; [ks_discard_wf] shows it is never
    reached, since a key with a position means a non-empty array. *)
Definition ks_discard (key : pystr) (s : SampleableKeySet) : SampleableKeySet :=
  match dict_get key (ks_index s) with
  | None => s
  | Some idx =>
      let index := dict_pop key (ks_index s) in
      match last (ks_items s) with
      | None => mkKeySet (ks_items s) index
      | Some lst =>
          let items := take (length (ks_items s) - 1) (ks_items s) in
          if bool_decide (idx < length items)%nat
          then mkKeySet (<[idx := lst]> items) (dict_set lst idx index)
          else mkKeySet items index
      end
  end.

Definition ks_sample (k : nat) (s : SampleableKeySet) (o : Oracles) : list pystr * Oracles :=
  sample (ks_items s) (k `min` length (ks_items s)) o.

Definition ks_contains (key : pystr) (s : SampleableKeySet) : bool := dict_mem key (ks_index s).
Definition ks_len (s : SampleableKeySet) : nat := length (ks_items s).

(** The map gives exactly the array's positions. *)
Record ks_wf (s : SampleableKeySet) : Prop := {
  ks_index_wf : dict_wf (ks_index s);
  ks_index_items : forall k i, dict_get k (ks_index s) = Some i <-> ks_items s !! i = Some k
}.

Lemma ks_empty_wf : ks_wf ks_empty.
Proof. split; [constructor|]. intros k i. simpl. by rewrite lookup_nil. Qed.

Lemma ks_NoDup s : ks_wf s -> NoDup (ks_items s).
Proof.
  intros [_ H]. apply NoDup_alt. intros i j x Hi Hj. apply H in Hi, Hj. congruence.
Qed.

Lemma ks_contains_spec s k : ks_wf s -> ks_contains k s = true <-> k ∈ ks_items s.
Proof.
  intros [_ H]. unfold ks_contains, dict_mem. rewrite list_elem_of_lookup.
  destruct (dict_get k (ks_index s)) as [i|] eqn:E.
  - split; [intros _; exists i; by apply H | done].
  - split; [done|]. intros [i Hi]. apply H in Hi. congruence.
Qed.

Lemma ks_get_None s k : ks_wf s -> dict_get k (ks_index s) = None <-> k ∉ ks_items s.
Proof.
  intros Hwf. rewrite <- ks_contains_spec by done. unfold ks_contains, dict_mem.
  by destruct (dict_get k (ks_index s)).
Qed.

Lemma ks_add_wf s k : ks_wf s -> ks_wf (ks_add k s).
Proof.
  intros Hwf. unfold ks_add. destruct (dict_mem k (ks_index s)) eqn:E; [done|].
  assert (Hn : k ∉ ks_items s).
  { rewrite <- ks_contains_spec by done. unfold ks_contains. by rewrite E. }
  destruct Hwf as [H1 H2]. split; simpl; [by apply dict_set_wf|]. intros k' i.
  rewrite dict_get_set. case_decide as Hk; [subst k'|].
  - split.
    + intros [= <-]. by rewrite list_lookup_middle.
    + rewrite lookup_app_Some. intros [Hi|[Hge Hi]].
      * by apply list_elem_of_lookup_2 in Hi.
      * apply list_lookup_singleton_Some in Hi as [Hi _]. f_equal. lia.
  - rewrite H2, lookup_app_Some. split; [by left|]. intros [Hi|[_ Hi]]; [done|].
    apply list_lookup_singleton_Some in Hi as [_ Hi]. congruence.
Qed.

Lemma ks_add_items s k x : ks_wf s -> x ∈ ks_items (ks_add k s) <-> x = k \/ x ∈ ks_items s.
Proof.
  intros Hwf. unfold ks_add. destruct (dict_mem k (ks_index s)) eqn:E; simpl; [|set_solver].
  apply (ks_contains_spec s k Hwf) in E. naive_solver.
Qed.

Lemma ks_add_len s k :
  ks_wf s -> ks_len (ks_add k s) = if decide (k ∈ ks_items s) then ks_len s else S (ks_len s).
Proof.
  intros Hwf. unfold ks_add, ks_len. destruct (dict_mem k (ks_index s)) eqn:E.
  - apply (ks_contains_spec s k Hwf) in E. by rewrite decide_True.
  - simpl. rewrite decide_False, length_app; [simpl; lia|].
    intros Hin%(ks_contains_spec s k Hwf). unfold ks_contains in Hin. congruence.
Qed.

Lemma ks_get_last s k idx :
  ks_wf s -> dict_get k (ks_index s) = Some idx ->
  exists init lst, ks_items s = init ++ [lst] /\ ks_items s !! idx = Some k.
Proof.
  intros [_ H] Hk. apply H in Hk.
  destruct (ks_items s) as [|lst init _] using rev_ind; [by rewrite lookup_nil in Hk|].
  by exists init, lst.
Qed.

(** A removal in the middle: the last element fills the hole. *)
Lemma ks_discard_middle s k idx init lst :
  dict_get k (ks_index s) = Some idx -> ks_items s = init ++ [lst] -> (idx < length init)%nat ->
  ks_discard k s = mkKeySet (<[idx := lst]> init) (dict_set lst idx (dict_pop k (ks_index s))).
Proof.
  intros Hk Hs Hlt. unfold ks_discard. rewrite Hk, Hs, last_snoc, length_app. simpl.
  rewrite take_app_le, take_ge by lia. by rewrite bool_decide_true.
Qed.

(** A removal of the last element. *)
Lemma ks_discard_end s k init :
  dict_get k (ks_index s) = Some (length init) -> ks_items s = init ++ [k] ->
  ks_discard k s = mkKeySet init (dict_pop k (ks_index s)).
Proof.
  intros Hk Hs. unfold ks_discard. rewrite Hk, Hs, last_snoc, length_app. simpl.
  rewrite take_app_le, take_ge by lia. rewrite bool_decide_false; [done|lia].
Qed.

(** The two shapes a removal of a present key has. *)
Lemma ks_discard_cases s k :
  ks_wf s -> k ∈ ks_items s ->
  (exists init, ks_items s = init ++ [k] /\
     ks_discard k s = mkKeySet init (dict_pop k (ks_index s))) \/
  (exists a b lst, ks_items s = a ++ k :: b ++ [lst] /\
     ks_discard k s = mkKeySet (a ++ lst :: b) (dict_set lst (length a) (dict_pop k (ks_index s)))).
Proof.
  intros Hwf Hin. destruct (dict_get k (ks_index s)) as [idx|] eqn:Hk;
    [|by apply (ks_get_None s k Hwf) in Hk].
  destruct (ks_get_last s k idx Hwf Hk) as (init & lst & Hs & Hidx).
  rewrite Hs in Hidx. apply lookup_app_Some in Hidx as [Hidx|[Hge Hidx]].
  - right. pose proof (lookup_lt_Some _ _ _ Hidx) as Hlt.
    destruct (list_elem_of_split_length _ _ _ Hidx) as (a & b & -> & ->).
    exists a, b, lst. rewrite (ks_discard_middle s k (length a) (a ++ k :: b) lst) by done.
    rewrite Hs. split; [by rewrite <- app_assoc|].
    by rewrite insert_app_r_alt, Nat.sub_diag by done.
  - left. apply list_lookup_singleton_Some in Hidx as [Hi <-]. exists init.
    split; [done|]. apply ks_discard_end; [|done]. rewrite Hk. f_equal. lia.
Qed.

Lemma ks_index_dom s k : ks_wf s -> k ∈ (ks_index s).*1 <-> k ∈ ks_items s.
Proof. intros Hwf. rewrite <- dict_mem_true. by apply ks_contains_spec. Qed.

Lemma ks_discard_wf s k : ks_wf s -> ks_wf (ks_discard k s).
Proof.
  intros Hwf. destruct (decide (k ∈ ks_items s)) as [Hin|Hn];
    [|unfold ks_discard; by rewrite (proj2 (ks_get_None s k Hwf) Hn)].
  pose proof (ks_NoDup s Hwf) as Hnd. pose proof (dict_pop_wf k _ (ks_index_wf _ Hwf)) as Hpop.
  destruct (ks_discard_cases s k Hwf Hin) as [(init & Hs & ->)|(a & b & lst & Hs & ->)];
    rewrite Hs in Hnd; destruct Hwf as [H1 H2]; split; simpl; auto using dict_set_wf.
  - intros k' i. rewrite dict_get_pop by done. apply NoDup_app in Hnd as (_ & Hnk & _).
    case_decide as Hk; [subst k'|].
    + split; [done|]. intros Hi%list_elem_of_lookup_2. by destruct (Hnk k Hi); left.
    + rewrite H2, Hs, lookup_app_Some. split; [|by left]. intros [Hi|[_ Hi]]; [done|].
      apply list_lookup_singleton_Some in Hi as [_ Hi]. congruence.
  - intros k' i. rewrite dict_get_set, dict_get_pop by done.
    assert (Hd : k <> lst /\ (lst ∉ a ++ b) /\ (k ∉ a ++ b)).
    { rewrite NoDup_app, NoDup_cons, NoDup_app in Hnd. set_solver. }
    destruct Hd as (Hkl & Hla & Hka). case_decide as Hk; [subst k'|case_decide as Hk'; [subst k'|]].
    + split; [intros [= <-]; by rewrite list_lookup_middle|].
      rewrite lookup_app_Some. intros [Hi|[Hge Hi]]; [set_solver by eauto using list_elem_of_lookup_2|].
      apply lookup_cons_Some in Hi as [[Hi _]|[_ Hi]]; [f_equal; lia|].
      set_solver by eauto using list_elem_of_lookup_2.
    + split; [done|]. rewrite lookup_app_Some, lookup_cons_Some.
      intros [Hi|[_ [[_ Hi]|[_ Hi]]]]; [|congruence|];
        set_solver by eauto using list_elem_of_lookup_2.
    + rewrite H2, Hs, !lookup_app_Some, !lookup_cons_Some, lookup_app_Some,
        list_lookup_singleton_Some. naive_solver.
Qed.

Lemma ks_discard_items s k x :
  ks_wf s -> x ∈ ks_items (ks_discard k s) <-> x <> k /\ x ∈ ks_items s.
Proof.
  intros Hwf. destruct (decide (k ∈ ks_items s)) as [Hin|Hn].
  - pose proof (ks_NoDup s Hwf) as Hnd.
    destruct (ks_discard_cases s k Hwf Hin) as [(init & Hs & ->)|(a & b & lst & Hs & ->)];
      rewrite Hs in *; simpl; rewrite ?NoDup_app, ?NoDup_cons, ?NoDup_app in Hnd; set_solver.
  - unfold ks_discard. rewrite (proj2 (ks_get_None s k Hwf) Hn). set_solver.
Qed.

Lemma ks_discard_perm s k : ks_wf s -> k ∈ ks_items s -> ks_items s ≡ₚ k :: ks_items (ks_discard k s).
Proof.
  intros Hwf Hin.
  destruct (ks_discard_cases s k Hwf Hin) as [(init & -> & ->)|(a & b & lst & -> & ->)]; simpl.
  - by rewrite Permutation_app_comm.
  - rewrite <- Permutation_middle. apply perm_skip.
    apply Permutation_app_head. symmetry. apply Permutation_cons_append.
Qed.

Lemma ks_discard_len s k :
  ks_wf s -> ks_len (ks_discard k s) = if decide (k ∈ ks_items s) then Nat.pred (ks_len s) else ks_len s.
Proof.
  intros Hwf. unfold ks_len. case_decide as Hin.
  - destruct (ks_discard_cases s k Hwf Hin) as [(init & Hs & ->)|(a & b & lst & Hs & ->)];
      rewrite Hs; simpl; rewrite !length_app; simpl; rewrite ?length_app; simpl; lia.
  - unfold ks_discard. by rewrite (proj2 (ks_get_None s k Hwf) Hin).
Qed.

(** What a caller may rely on of [ks_sample]. *)
Lemma ks_sample_spec k s o :
  ks_wf s -> oracles_ok o ->
  length (ks_sample k s o).1 = (k `min` ks_len s)%nat /\ NoDup (ks_sample k s o).1 /\
  (forall x, x ∈ (ks_sample k s o).1 -> x ∈ ks_items s) /\ same_source o (ks_sample k s o).2.
Proof.
  intros Hwf Ho. destruct (sample_spec (ks_items s) (k `min` ks_len s) o Ho) as (H1 & H2 & H3 & H4);
    [unfold ks_len; lia|]. split_and!; auto. by apply H3, ks_NoDup.
Qed.

Create HintDb keyset.
#[export] Hint Resolve ks_empty_wf ks_add_wf ks_discard_wf ks_NoDup : keyset.
