(* ===== verification/Containers.v ===== *)
(** * List, hash and set values (engine/datatypes/containers.py, sizing.py)

    Each container keeps [nbytes], a running memory estimate, next to its
    elements.  The invariant of each type is that [nbytes] equals the estimate
    recomputed from the elements; every operation keeps it. *)

From S2P Require Import Prelude PyStr PyFloat Oracles KeySet.

(** [sys.getsizeof] of a string, the one measure the estimates are built on. *)
Class Sizing := {
  str_size : pystr -> Z;
  str_size_nonneg : forall s, 0 <= str_size s
}.

(** CPython 3.11 on 64 bits: the header depends on the widest character. *)
Definition cpython_size (s : pystr) : Z :=
  let n := Z.of_nat (length s) in
  let w := fold_right Z.max 0 s in
  if w <? 0x80 then 49 + n else if w <? 0x100 then 73 + n
  else if w <? 0x10000 then 74 + 2 * n else 76 + 4 * n.

#[export] Instance cpython_sizing : Sizing.
Proof.
  refine {| str_size := cpython_size |}. intros s. unfold cpython_size.
  repeat case_match; lia.
Defined.

Definition ENTRY_OVERHEAD : Z := 120.
Definition LIST_ITEM_OVERHEAD : Z := 8.
Definition HASH_ITEM_OVERHEAD : Z := 50.
Definition SET_ITEM_OVERHEAD : Z := 60.
Definition ZSET_ITEM_OVERHEAD : Z := 200.
Definition EMPTY_CONTAINER : Z := 200.

(** [_clamp]: Redis range semantics, inclusive, negative from the end. *)
Definition clamp (start stop length : Z) : option (Z * Z) :=
  let start := if start <? 0 then Z.max 0 (length + start) else start in
  let stop := if stop <? 0 then stop + length else stop in
  let stop := Z.min stop (length - 1) in
  if (stop <? start) || (length <=? start) then None else Some (start, stop).

(** [islice(l, lo, hi)]. *)
Definition islice {A} (l : list A) (lo hi : Z) : list A := slice (Z.to_nat lo) (Z.to_nat hi) l.

Section Containers.
Context `{Sizing}.

(** ** ListValue *)
Record ListValue := mkList { lv_items : list pystr; lv_nbytes : Z }.

Definition lv_len (l : ListValue) : Z := Z.of_nat (length (lv_items l)).
Definition lv_item_size (value : pystr) : Z := str_size value + LIST_ITEM_OVERHEAD.

Definition lv_append_left (l : ListValue) (value : pystr) : ListValue :=
  mkList (value :: lv_items l) (lv_nbytes l + lv_item_size value).
Definition lv_append_right (l : ListValue) (value : pystr) : ListValue :=
  mkList (lv_items l ++ [value]) (lv_nbytes l + lv_item_size value).

Definition lv_push_left (values : list pystr) (l : ListValue) : ListValue :=
  fold_left lv_append_left values l.
Definition lv_push_right (values : list pystr) (l : ListValue) : ListValue :=
  fold_left lv_append_right values l.

Definition lv_new (items : list pystr) : ListValue :=
  lv_push_right items (mkList [] EMPTY_CONTAINER).

(** One round of [pop]: the value taken and the list left. *)
Definition lv_pop_one (left : bool) (l : ListValue) : option (pystr * ListValue) :=
  if left then
    match lv_items l with
    | [] => None
    | v :: rest => Some (v, mkList rest (lv_nbytes l - lv_item_size v))
    end
  else
    match last (lv_items l) with
    | None => None
    | Some v => Some (v, mkList (take (length (lv_items l) - 1) (lv_items l))
                                (lv_nbytes l - lv_item_size v))
    end.

Fixpoint lv_pop_n (n : nat) (left : bool) (l : ListValue) : list pystr * ListValue :=
  match n with
  | O => ([], l)
  | S n' => match lv_pop_one left l with
            | None => ([], l)
            | Some (v, l') => let '(popped, l'') := lv_pop_n n' left l' in (v :: popped, l'')
            end
  end.

Definition lv_pop (count : Z) (left : bool) (l : ListValue) : list pystr * ListValue :=
  lv_pop_n (Z.to_nat (Z.min count (lv_len l))) left l.

Definition lv_normalize (index : Z) (l : ListValue) : option nat :=
  let index := if index <? 0 then index + lv_len l else index in
  if (0 <=? index) && (index <? lv_len l) then Some (Z.to_nat index) else None.

Definition lv_get (index : Z) (l : ListValue) : option pystr :=
  match lv_normalize index l with
  | None => None
  | Some pos => lv_items l !! pos
  end.

Definition lv_set (index : Z) (value : pystr) (l : ListValue) : bool * ListValue :=
  match lv_normalize index l with
  | None => (false, l)
  | Some pos =>
      let old := default [] (lv_items l !! pos) in
      (true, mkList (<[pos := value]> (lv_items l)) (lv_nbytes l + (str_size value - str_size old)))
  end.

Definition lv_range (start stop : Z) (l : ListValue) : list pystr :=
  match clamp start stop (lv_len l) with
  | None => []
  | Some (lo, hi) =>
      let length := lv_len l in
      if length - 1 - hi <? lo
      then reverse (islice (reverse (lv_items l)) (length - 1 - hi) (length - lo))
      else islice (lv_items l) lo (hi + 1)
  end.

Definition lv_trim (start stop : Z) (l : ListValue) : ListValue := lv_new (lv_range start stop l).

(** The loop of [remove] over the items, in the order they are visited. *)
Fixpoint lv_remove_loop (count : Z) (value : pystr) (items : list pystr) (removed : Z)
  : list pystr * Z :=
  match items with
  | [] => ([], removed)
  | item :: rest =>
      if bool_decide (item = value) && ((count =? 0) || (removed <? Z.abs count))
      then lv_remove_loop count value rest (removed + 1)
      else let '(kept, r) := lv_remove_loop count value rest removed in (item :: kept, r)
  end.

Definition lv_remove (count : Z) (value : pystr) (l : ListValue) : Z * ListValue :=
  let items := if count <? 0 then reverse (lv_items l) else lv_items l in
  let '(kept, removed) := lv_remove_loop count value items 0 in
  if removed =? 0 then (removed, l)
  else (removed, mkList (if count <? 0 then reverse kept else kept)
                        (lv_nbytes l - removed * lv_item_size value)).

(** ** HashValue *)
Record HashValue := mkHash { hv_fields : list (pystr * pystr); hv_nbytes : Z }.

Definition hv_new : HashValue := mkHash [] EMPTY_CONTAINER.
Definition hv_len (h : HashValue) : Z := Z.of_nat (length (hv_fields h)).
Definition hv_contains (field : pystr) (h : HashValue) : bool := dict_mem field (hv_fields h).
Definition hv_get (field : pystr) (h : HashValue) : option pystr := dict_get field (hv_fields h).
Definition hv_item_size (field value : pystr) : Z :=
  str_size field + str_size value + HASH_ITEM_OVERHEAD.

Definition hv_set (field value : pystr) (h : HashValue) : bool * HashValue :=
  let fields := dict_set field value (hv_fields h) in
  match dict_get field (hv_fields h) with
  | None => (true, mkHash fields (hv_nbytes h + hv_item_size field value))
  | Some old => (false, mkHash fields (hv_nbytes h + (str_size value - str_size old)))
  end.

Definition hv_delete (field : pystr) (h : HashValue) : bool * HashValue :=
  match dict_get field (hv_fields h) with
  | None => (false, h)
  | Some old => (true, mkHash (dict_pop field (hv_fields h)) (hv_nbytes h - hv_item_size field old))
  end.

(** ** SetValue *)
Record SetValue := mkSet { sv_members : SampleableKeySet; sv_nbytes : Z }.

Definition sv_new : SetValue := mkSet ks_empty EMPTY_CONTAINER.
Definition sv_len (s : SetValue) : Z := Z.of_nat (ks_len (sv_members s)).
Definition sv_contains (member : pystr) (s : SetValue) : bool := ks_contains member (sv_members s).
Definition sv_iter (s : SetValue) : list pystr := ks_items (sv_members s).
Definition sv_item_size (member : pystr) : Z := str_size member + SET_ITEM_OVERHEAD.

Definition sv_add (member : pystr) (s : SetValue) : bool * SetValue :=
  if ks_contains member (sv_members s) then (false, s)
  else (true, mkSet (ks_add member (sv_members s)) (sv_nbytes s + sv_item_size member)).

Definition sv_remove (member : pystr) (s : SetValue) : bool * SetValue :=
  if negb (ks_contains member (sv_members s)) then (false, s)
  else (true, mkSet (ks_discard member (sv_members s)) (sv_nbytes s - sv_item_size member)).

Definition sv_sample (count : nat) (s : SetValue) (o : Oracles) : list pystr * Oracles :=
  ks_sample count (sv_members s) o.
End Containers.

(** ** Invariants *)
Section ContainerInvariants.
Context `{Sizing}.

Definition lv_wf (l : ListValue) : Prop :=
  lv_nbytes l = EMPTY_CONTAINER + sumZ lv_item_size (lv_items l).

Record hv_wf (h : HashValue) : Prop := {
  hv_fields_wf : dict_wf (hv_fields h);
  hv_nbytes_ok : hv_nbytes h = EMPTY_CONTAINER + dict_sum hv_item_size (hv_fields h)
}.

Record sv_wf (s : SetValue) : Prop := {
  sv_members_wf : ks_wf (sv_members s);
  sv_nbytes_ok : sv_nbytes s = EMPTY_CONTAINER + sumZ sv_item_size (sv_iter s)
}.

(** ** Lists: each operation's contents and accounting *)
Lemma lv_push_left_items vs l : lv_items (lv_push_left vs l) = reverse vs ++ lv_items l.
Proof.
  unfold lv_push_left. revert l. induction vs as [|v vs IH]; intros l; [done|].
  simpl. rewrite IH, reverse_cons. simpl. by rewrite <- app_assoc.
Qed.

Lemma lv_push_right_items vs l : lv_items (lv_push_right vs l) = lv_items l ++ vs.
Proof.
  unfold lv_push_right. revert l. induction vs as [|v vs IH]; intros l; simpl.
  - by rewrite app_nil_r.
  - rewrite IH. simpl. by rewrite <- app_assoc.
Qed.

Lemma lv_push_left_wf vs l : lv_wf l -> lv_wf (lv_push_left vs l).
Proof.
  unfold lv_push_left. revert l. induction vs as [|v vs IH]; intros l Hl; [done|].
  apply IH. unfold lv_wf in *. simpl. rewrite Hl. lia.
Qed.

Lemma lv_push_right_wf vs l : lv_wf l -> lv_wf (lv_push_right vs l).
Proof.
  unfold lv_push_right. revert l. induction vs as [|v vs IH]; intros l Hl; [done|].
  apply IH. unfold lv_wf in *. simpl. rewrite Hl, sumZ_app. simpl. lia.
Qed.

Lemma lv_new_wf items : lv_wf (lv_new items).
Proof. by apply lv_push_right_wf. Qed.

Lemma lv_new_items items : lv_items (lv_new items) = items.
Proof. unfold lv_new. by rewrite lv_push_right_items. Qed.

Lemma lv_pop_one_right l v items :
  lv_items l = items ++ [v] ->
  lv_pop_one false l = Some (v, mkList items (lv_nbytes l - lv_item_size v)).
Proof.
  intros Hl. unfold lv_pop_one. rewrite Hl, last_snoc, length_app. simpl.
  by rewrite take_app_le, take_ge by lia.
Qed.

Lemma lv_pop_n_left n l :
  lv_wf l -> (n <= length (lv_items l))%nat ->
  (lv_pop_n n true l).1 = take n (lv_items l) /\
  lv_items (lv_pop_n n true l).2 = drop n (lv_items l) /\ lv_wf (lv_pop_n n true l).2.
Proof.
  revert l. induction n as [|n IH]; intros l Hl Hn; [done|].
  destruct l as [[|v items] nb]; simpl in Hn; [lia|]. simpl.
  destruct (IH (mkList items (nb - lv_item_size v))) as (H1 & H2 & H3); simpl;
    [unfold lv_wf in *; simpl in *; lia | lia |].
  destruct (lv_pop_n n true _) as [popped l'']. simpl in *. by rewrite H1.
Qed.

Lemma lv_pop_n_right n l :
  lv_wf l -> (n <= length (lv_items l))%nat ->
  (lv_pop_n n false l).1 = take n (reverse (lv_items l)) /\
  lv_items (lv_pop_n n false l).2 = take (length (lv_items l) - n) (lv_items l) /\
  lv_wf (lv_pop_n n false l).2.
Proof.
  revert l. induction n as [|n IH]; intros l Hl Hn.
  { split_and!; [done | simpl; by rewrite Nat.sub_0_r, take_ge by lia | done]. }
  destruct (lv_items l) as [|v items _] eqn:E using rev_ind; [simpl in Hn; lia|].
  rewrite length_app in Hn. simpl in Hn. cbn [lv_pop_n]. rewrite (lv_pop_one_right l v items) by done.
  destruct (IH (mkList items (lv_nbytes l - lv_item_size v))) as (H1 & H2 & H3); simpl.
  { unfold lv_wf in *. rewrite Hl, E, sumZ_app. simpl. lia. }
  { lia. }
  destruct (lv_pop_n n false _) as [popped l'']. simpl in *.
  rewrite H1, H2, reverse_snoc, length_app, take_app_le by (simpl; lia). simpl.
  replace (length items + 1 - S n)%nat with (length items - n)%nat by lia. done.
Qed.

Lemma lv_normalize_Some index l pos :
  lv_normalize index l = Some pos ->
  Z.of_nat pos = (if index <? 0 then index + lv_len l else index) /\ (pos < length (lv_items l))%nat.
Proof.
  unfold lv_normalize, lv_len. intros Hp.
  destruct (Z.ltb_spec index 0); case_match eqn:E; simplify_eq; lia.
Qed.

Lemma lv_set_wf index value l : lv_wf l -> lv_wf (lv_set index value l).2.
Proof.
  intros Hl. unfold lv_set. destruct (lv_normalize index l) as [pos|] eqn:E; [|done].
  apply lv_normalize_Some in E as [_ Hlt].
  destruct (lookup_lt_is_Some_2 _ _ Hlt) as [old Hold]. unfold lv_wf in *. simpl.
  rewrite (sumZ_insert _ _ _ _ _ Hold), Hold, Hl. unfold lv_item_size. simpl. lia.
Qed.

Lemma reverse_slice {A} (l : list A) lo hi :
  (lo <= hi <= length l)%nat ->
  reverse (slice (length l - hi) (length l - lo) (reverse l)) = slice lo hi l.
Proof.
  intros Hb. unfold slice.
  rewrite drop_reverse, take_reverse, reverse_involutive.
  rewrite length_take. replace (length l - (length l - hi))%nat with hi by lia.
  replace (hi `min` length l - (length l - lo - (length l - hi)))%nat with lo by lia.
  by rewrite skipn_firstn_comm.
Qed.

(** An index of a list of length [n] read the Redis way. *)
Definition norm_index (i n : Z) : Z := if i <? 0 then n + i else i.

Lemma clamp_Some start stop n lo hi :
  clamp start stop n = Some (lo, hi) ->
  0 <= lo <= hi /\ hi < n /\
  (forall i, 0 <= i < n -> norm_index start n <= i <= norm_index stop n <-> lo <= i <= hi).
Proof.
  unfold clamp, norm_index. intros Hc. destruct (Z.ltb_spec start 0), (Z.ltb_spec stop 0);
    case_match eqn:E; simplify_eq; (split_and!; try lia; intros; lia).
Qed.

Lemma clamp_None start stop n i :
  clamp start stop n = None -> 0 <= i < n ->
  ~ (norm_index start n <= i <= norm_index stop n).
Proof.
  unfold clamp, norm_index. intros Hc Hi.
  destruct (Z.ltb_spec start 0), (Z.ltb_spec stop 0); case_match eqn:E; simplify_eq; lia.
Qed.

(** Both walks of [range], from the head and from the tail, give the slice. *)
Lemma lv_range_slice start stop l :
  lv_range start stop l =
    match clamp start stop (lv_len l) with
    | None => []
    | Some (lo, hi) => islice (lv_items l) lo (hi + 1)
    end.
Proof.
  unfold lv_range. destruct (clamp start stop (lv_len l)) as [[lo hi]|] eqn:E; [|done].
  destruct (_ <? lo); [|done]. apply clamp_Some in E as (H1 & H2 & _).
  unfold islice, lv_len in *.
  replace (Z.to_nat (Z.of_nat (length (lv_items l)) - 1 - hi))
    with (length (lv_items l) - Z.to_nat (hi + 1))%nat by lia.
  replace (Z.to_nat (Z.of_nat (length (lv_items l)) - lo))
    with (length (lv_items l) - Z.to_nat lo)%nat by lia.
  apply reverse_slice. lia.
Qed.

(** The first [n] occurrences of [v] taken out. *)
Fixpoint remove_first (n : nat) (v : pystr) (l : list pystr) : list pystr :=
  match l with
  | [] => []
  | x :: l' => match n with
               | S n' => if decide (x = v) then remove_first n' v l' else x :: remove_first n v l'
               | O => l
               end
  end.

Lemma remove_first_0 v l : remove_first 0 v l = l.
Proof. by destruct l. Qed.

Lemma lv_remove_loop_all v items r :
  lv_remove_loop 0 v items r =
    (filter (fun x => x <> v) items,
     r + Z.of_nat (length items - length (filter (fun x => x <> v) items))%nat).
Proof.
  revert r. induction items as [|x items IH]; intros r; simpl; [f_equal; lia|].
  pose proof (length_filter (fun x => x <> v) items).
  rewrite filter_cons. case_bool_decide as Hx; simpl.
  - rewrite IH, decide_False by naive_solver. f_equal. lia.
  - rewrite IH, decide_True by done. simpl. f_equal; lia.
Qed.

Lemma remove_first_length n v l : (length (remove_first n v l) <= length l)%nat.
Proof.
  revert n. induction l as [|x l IH]; intros [|n]; simpl; try lia.
  destruct (decide (x = v)); simpl; [specialize (IH n); lia | specialize (IH (S n)); lia].
Qed.

Lemma remove_first_same n v l : length (remove_first n v l) = length l -> remove_first n v l = l.
Proof.
  revert n. induction l as [|x l IH]; intros [|n]; simpl; intros Hlen; try done.
  pose proof (remove_first_length n v l). destruct (decide (x = v)); simpl in *; [lia|].
  f_equal. apply IH. lia.
Qed.

Lemma lv_remove_loop_first count v items r :
  count <> 0 -> 0 <= r <= Z.abs count ->
  lv_remove_loop count v items r =
    (remove_first (Z.to_nat (Z.abs count - r)) v items,
     r + Z.of_nat (length items - length (remove_first (Z.to_nat (Z.abs count - r)) v items))%nat).
Proof.
  intros Hc. revert r. induction items as [|x items IH]; intros r Hr; simpl; [f_equal; lia|].
  destruct (Z.eqb_spec count 0); [done|]. simpl.
  destruct (Z.to_nat (Z.abs count - r)) as [|k] eqn:En.
  - destruct (Z.ltb_spec r (Z.abs count)); [lia|]. rewrite andb_false_r, IH, En by lia.
    rewrite remove_first_0. simpl. f_equal; lia.
  - destruct (Z.ltb_spec r (Z.abs count)); [|lia]. rewrite andb_true_r.
    case_bool_decide as Hx; [rewrite decide_True by done|rewrite decide_False by done].
    + rewrite IH by lia. replace (Z.to_nat (Z.abs count - (r + 1))) with k by lia.
      pose proof (remove_first_length k v items). f_equal. lia.
    + rewrite IH, En by lia. pose proof (remove_first_length (S k) v items).
      simpl. f_equal; lia.
Qed.

(** LREM's contract on the items. *)
Definition lrem_spec (count : Z) (v : pystr) (items : list pystr) : list pystr :=
  if count <? 0 then reverse (remove_first (Z.to_nat (- count)) v (reverse items))
  else if count =? 0 then filter (fun x => x <> v) items
  else remove_first (Z.to_nat count) v items.

Lemma remove_first_sum f n v l :
  sumZ f (remove_first n v l) =
    sumZ f l - Z.of_nat (length l - length (remove_first n v l))%nat * f v.
Proof.
  revert n. induction l as [|x l IH]; intros [|n]; simpl; rewrite ?Nat.sub_diag; try lia.
  pose proof (remove_first_length n v l). pose proof (remove_first_length (S n) v l).
  destruct (decide (x = v)) as [->|]; simpl; rewrite IH; [|lia].
  replace (Z.of_nat (S (length l) - length (remove_first n v l))%nat)
    with (Z.of_nat (length l - length (remove_first n v l))%nat + 1) by lia. lia.
Qed.

Lemma filter_ne_remove_first v l :
  filter (fun x => x <> v) l = remove_first (length l) v l.
Proof.
  assert (Hg : forall n, (length l <= n)%nat -> filter (fun x => x <> v) l = remove_first n v l);
    [|by apply Hg].
  induction l as [|x l IH]; intros n Hn; [done|]. rewrite filter_cons. simpl in *.
  destruct n as [|n]; [lia|]. destruct (decide (x = v)) as [->|].
  - rewrite decide_False by naive_solver. apply IH. lia.
  - rewrite decide_True by done. f_equal. apply IH. lia.
Qed.

(** The number of occurrences a call takes out at most. *)
Definition lrem_count (count : Z) (items : list pystr) : nat :=
  if count =? 0 then length items else Z.to_nat (Z.abs count).

(** The direction a call walks in. *)
Definition lrem_dir (count : Z) (items : list pystr) : list pystr :=
  if count <? 0 then reverse items else items.

Lemma lrem_dir_length count items : length (lrem_dir count items) = length items.
Proof. unfold lrem_dir. destruct (count <? 0); [apply length_reverse | done]. Qed.

Lemma lrem_dir_sum f count items : sumZ f (lrem_dir count items) = sumZ f items.
Proof. unfold lrem_dir. destruct (count <? 0); [apply sumZ_reverse | done]. Qed.

Lemma lv_remove_loop_spec count v items :
  lv_remove_loop count v items 0 =
    (remove_first (lrem_count count items) v items,
     Z.of_nat (length items - length (remove_first (lrem_count count items) v items))%nat).
Proof.
  unfold lrem_count. destruct (Z.eqb_spec count 0) as [->|Hne].
  - by rewrite lv_remove_loop_all, !filter_ne_remove_first.
  - rewrite lv_remove_loop_first by lia. by rewrite Z.sub_0_r, Z.add_0_l.
Qed.

Lemma lrem_spec_alt count v items :
  lrem_spec count v items =
    lrem_dir count (remove_first (lrem_count count items) v (lrem_dir count items)).
Proof.
  unfold lrem_spec, lrem_dir, lrem_count. destruct (Z.ltb_spec count 0).
  - destruct (Z.eqb_spec count 0); [lia|]. by replace (Z.abs count) with (- count) by lia.
  - destruct (Z.eqb_spec count 0); [apply filter_ne_remove_first|].
    by replace (Z.abs count) with count by lia.
Qed.

Lemma lv_remove_spec count v l :
  lv_wf l ->
  lv_items (lv_remove count v l).2 = lrem_spec count v (lv_items l) /\
  (lv_remove count v l).1 = lv_len l - lv_len (lv_remove count v l).2 /\
  lv_wf (lv_remove count v l).2.
Proof.
  intros Hl. unfold lv_remove. fold (lrem_dir count (lv_items l)).
  rewrite lv_remove_loop_spec, lrem_spec_alt.
  replace (lrem_count count (lrem_dir count (lv_items l))) with (lrem_count count (lv_items l))
    by (unfold lrem_count; by rewrite lrem_dir_length).
  set (n := lrem_count count (lv_items l)). set (d := lrem_dir count (lv_items l)).
  assert (Hd : length d = length (lv_items l)) by apply lrem_dir_length.
  pose proof (remove_first_length n v d) as Hk.
  pose proof (remove_first_sum lv_item_size n v d) as Hsum.
  unfold d in Hsum at 2. rewrite lrem_dir_sum in Hsum.
  destruct (Z.eqb_spec (Z.of_nat (length d - length (remove_first n v d))%nat) 0) as [H0|H0]; simpl.
  - assert (Hsame : remove_first n v d = d) by (apply remove_first_same; lia).
    rewrite Hsame. unfold d, lrem_dir, lv_len.
    split_and!; [destruct (count <? 0); [by rewrite reverse_involutive|done] | lia | done].
  - fold (lrem_dir count (remove_first n v d)). unfold lv_len, lv_wf in *. simpl.
    rewrite lrem_dir_length, lrem_dir_sum. split_and!; [done | lia | rewrite Hsum, Hl; lia].
Qed.

(** ** Hashes *)
Lemma hv_new_wf : hv_wf hv_new.
Proof. split; [constructor | done]. Qed.

Lemma hv_set_wf f v h : hv_wf h -> hv_wf (hv_set f v h).2.
Proof.
  intros [H1 H2]. unfold hv_set.
  destruct (dict_get f (hv_fields h)) as [old|] eqn:E; split; simpl; auto using dict_set_wf;
    rewrite dict_sum_set, E, H2; unfold hv_item_size; lia.
Qed.

Lemma hv_set_get f v h f' :
  hv_get f' (hv_set f v h).2 = if decide (f' = f) then Some v else hv_get f' h.
Proof.
  unfold hv_set, hv_get. destruct (dict_get f (hv_fields h)); simpl; apply dict_get_set.
Qed.

Lemma hv_delete_wf f h : hv_wf h -> hv_wf (hv_delete f h).2.
Proof.
  intros [H1 H2]. unfold hv_delete.
  destruct (dict_get f (hv_fields h)) as [old|] eqn:E; [|done]; split; simpl;
    auto using dict_pop_wf. rewrite dict_sum_pop, E, H2. lia.
Qed.

Lemma hv_delete_get f h f' :
  hv_wf h -> hv_get f' (hv_delete f h).2 = if decide (f' = f) then None else hv_get f' h.
Proof.
  intros [H1 _]. unfold hv_delete, hv_get. destruct (dict_get f (hv_fields h)) eqn:E; simpl.
  - by rewrite dict_get_pop.
  - case_decide; [by subst | done].
Qed.

(** ** Sets *)
Lemma sv_new_wf : sv_wf sv_new.
Proof. split; [apply ks_empty_wf | done]. Qed.

Lemma sv_add_wf m s : sv_wf s -> sv_wf (sv_add m s).2.
Proof.
  intros [H1 H2]. unfold sv_add. destruct (ks_contains m (sv_members s)) eqn:E; [done|].
  split; simpl; [by apply ks_add_wf|]. unfold sv_iter in *. simpl. unfold ks_add.
  unfold ks_contains in E. rewrite E. simpl. rewrite sumZ_app, H2. simpl. lia.
Qed.

Lemma sv_remove_wf m s : sv_wf s -> sv_wf (sv_remove m s).2.
Proof.
  intros [H1 H2]. unfold sv_remove. destruct (ks_contains m (sv_members s)) eqn:E; [|done].
  simpl. apply ks_contains_spec in E; [|done]. split; simpl; [by apply ks_discard_wf|].
  unfold sv_iter in *. rewrite (sumZ_perm _ _ _ (ks_discard_perm _ _ H1 E)) in H2.
  simpl in *. lia.
Qed.

Lemma sv_contains_spec m s : sv_wf s -> sv_contains m s = true <-> m ∈ sv_iter s.
Proof. intros [H1 _]. by apply ks_contains_spec. Qed.

Lemma sv_add_iter m s x : sv_wf s -> x ∈ sv_iter (sv_add m s).2 <-> x = m \/ x ∈ sv_iter s.
Proof.
  intros [H1 _]. unfold sv_add, sv_iter. destruct (ks_contains m (sv_members s)) eqn:E; simpl.
  - apply ks_contains_spec in E; [|done]. naive_solver.
  - by apply ks_add_items.
Qed.

Lemma sv_remove_iter m s x : sv_wf s -> x ∈ sv_iter (sv_remove m s).2 <-> x <> m /\ x ∈ sv_iter s.
Proof.
  intros [H1 _]. unfold sv_remove, sv_iter. destruct (ks_contains m (sv_members s)) eqn:E; simpl.
  - by apply ks_discard_items.
  - assert (m ∉ ks_items (sv_members s)); [|naive_solver].
    rewrite <- ks_contains_spec by done. by rewrite E.
Qed.
End ContainerInvariants.

Create HintDb values.
#[export] Hint Resolve lv_push_left_wf lv_push_right_wf lv_new_wf lv_set_wf
  hv_new_wf hv_set_wf hv_delete_wf sv_new_wf sv_add_wf sv_remove_wf : values.
