(* ===== verification/SkipListProofs.v ===== *)
(** * The skip list against the ordered list of its nodes

    [rep sl l] says that the pointer structure [sl] represents the node list
    [l]: at every level the forward pointers skip exactly the nodes too short
    for it, every span counts what its pointer skips, and the keys ascend.
    Every operation of the skip list is then an operation on [l]. *)

From S2P Require Import Prelude PyStr PyFloat Oracles SkipList.

(** The (score, member) order as one text order. *)
Definition zkey (s : float) (m : pystr) : pystr := fkey s ++ m.

Lemma before_key s m n :
  is_nan s = false -> is_nan (n_score n) = false ->
  before s m n = str_ltb (zkey (n_score n) (n_member n)) (zkey s m).
Proof.
  intros Hs Hn. unfold before, zkey, str_ltb. rewrite flt_key, feq_key by done.
  rewrite str_cmp_app_eqlen by (by rewrite !fkey_length). unfold str_ltb.
  destruct (str_cmp (fkey (n_score n)) (fkey s)) eqn:E.
  - apply str_cmp_eq in E. by rewrite bool_decide_true.
  - done.
  - rewrite bool_decide_false; [done|]. intros H%str_cmp_eq. congruence.
Qed.

(** ** A heap as four observations *)
Definition shape_of (n : Node) : pystr * float * nat * nat :=
  (n_member n, n_score n, length (n_forward n), length (n_span n)).
Definition shape (h : gmap nat Node) (x : nat) : option (pystr * float * nat * nat) :=
  shape_of <$> h !! x.
Definition get_back (h : gmap nat Node) (x : nat) : option nat := n ← h !! x; n_backward n.

Definition key (h : gmap nat Node) (x : nat) : pystr :=
  match h !! x with Some n => zkey (n_score n) (n_member n) | None => [] end.

(** A node with a cell at level [i]. *)
Definition has_cell (h : gmap nat Node) (x i : nat) : Prop :=
  exists m s k, shape h x = Some (m, s, k, k) /\ (i < k)%nat.

Definition same_shape (h h' : gmap nat Node) : Prop := forall x, shape h' x = shape h x.

Lemma same_shape_height h h' x : same_shape h h' -> height h' x = height h x.
Proof.
  intros H. specialize (H x). unfold shape, height in *.
  destruct (h !! x), (h' !! x); simplify_eq/=; congruence.
Qed.

Lemma same_shape_key h h' x : same_shape h h' -> key h' x = key h x.
Proof.
  intros H. specialize (H x). unfold shape, key in *.
  destruct (h !! x), (h' !! x); simplify_eq/=; congruence.
Qed.

Lemma same_shape_cell h h' x i : same_shape h h' -> has_cell h x i -> has_cell h' x i.
Proof. intros H (m & s & k & Hs & Hi). exists m, s, k. by rewrite H. Qed.

Lemma same_shape_trans h1 h2 h3 : same_shape h1 h2 -> same_shape h2 h3 -> same_shape h1 h3.
Proof. intros H1 H2 x. by rewrite H2, H1. Qed.

Lemma shape_set_fwd x i v h : same_shape h (set_fwd x i v h).
Proof.
  intros y. unfold shape, set_fwd. rewrite lookup_alter. case_decide; [subst|done].
  destruct (h !! y); simpl; [|done]. unfold shape_of. simpl. by rewrite length_insert.
Qed.

Lemma shape_set_span x i v h : same_shape h (set_span x i v h).
Proof.
  intros y. unfold shape, set_span. rewrite lookup_alter. case_decide; [subst|done].
  destruct (h !! y); simpl; [|done]. unfold shape_of. simpl. by rewrite length_insert.
Qed.

Lemma shape_set_backward x v h : same_shape h (set_backward x v h).
Proof.
  intros y. unfold shape, set_backward. rewrite lookup_alter. case_decide; [subst|done].
  by destruct (h !! y).
Qed.

Lemma get_fwd_set_fwd x i v h y j :
  has_cell h x i ->
  get_fwd (set_fwd x i v h) y j = if decide (y = x /\ j = i) then v else get_fwd h y j.
Proof.
  intros (m & s & k & Hs & Hi). unfold shape, get_fwd, set_fwd in *. rewrite lookup_alter.
  destruct (h !! x) as [n|] eqn:E; [|done]. injection Hs as <- <- Hk1 Hk2.
  destruct (decide (x = y)) as [<-|]; [|rewrite decide_False by naive_solver; done].
  rewrite E. simpl. destruct (decide (j = i)) as [->|].
  - rewrite decide_True by done. by rewrite list_lookup_insert_eq by lia.
  - rewrite decide_False by naive_solver. by rewrite list_lookup_insert_ne.
Qed.

Lemma get_span_set_span x i v h y j :
  has_cell h x i ->
  get_span (set_span x i v h) y j = if decide (y = x /\ j = i) then v else get_span h y j.
Proof.
  intros (m & s & k & Hs & Hi). unfold shape, get_span, set_span in *. rewrite lookup_alter.
  destruct (h !! x) as [n|] eqn:E; [|done]. injection Hs as <- <- Hk1 Hk2.
  destruct (decide (x = y)) as [<-|]; [|rewrite decide_False by naive_solver; done].
  rewrite E. simpl. destruct (decide (j = i)) as [->|].
  - rewrite decide_True by done. by rewrite list_lookup_insert_eq by lia.
  - rewrite decide_False by naive_solver. by rewrite list_lookup_insert_ne.
Qed.

Lemma get_fwd_set_span x i v h y j : get_fwd (set_span x i v h) y j = get_fwd h y j.
Proof.
  unfold get_fwd, set_span. rewrite lookup_alter. case_decide; [subst|done].
  by destruct (h !! y).
Qed.

Lemma get_span_set_fwd x i v h y j : get_span (set_fwd x i v h) y j = get_span h y j.
Proof.
  unfold get_span, set_fwd. rewrite lookup_alter. case_decide; [subst|done].
  by destruct (h !! y).
Qed.

Lemma get_fwd_set_backward x v h y j : get_fwd (set_backward x v h) y j = get_fwd h y j.
Proof.
  unfold get_fwd, set_backward. rewrite lookup_alter. case_decide; [subst|done].
  by destruct (h !! y).
Qed.

Lemma get_span_set_backward x v h y j : get_span (set_backward x v h) y j = get_span h y j.
Proof.
  unfold get_span, set_backward. rewrite lookup_alter. case_decide; [subst|done].
  by destruct (h !! y).
Qed.

Lemma get_back_set_fwd x i v h y : get_back (set_fwd x i v h) y = get_back h y.
Proof.
  unfold get_back, set_fwd. rewrite lookup_alter. case_decide; [subst|done].
  by destruct (h !! y).
Qed.

Lemma get_back_set_span x i v h y : get_back (set_span x i v h) y = get_back h y.
Proof.
  unfold get_back, set_span. rewrite lookup_alter. case_decide; [subst|done].
  by destruct (h !! y).
Qed.

Lemma get_back_set_backward x v h y :
  is_Some (h !! x) ->
  get_back (set_backward x v h) y = if decide (y = x) then v else get_back h y.
Proof.
  intros [n Hn]. unfold get_back, set_backward. rewrite lookup_alter.
  destruct (decide (x = y)) as [<-|].
  - rewrite decide_True by done. by rewrite Hn.
  - by rewrite decide_False by done.
Qed.

Create HintDb shape.
#[export] Hint Resolve shape_set_fwd shape_set_span shape_set_backward same_shape_cell : shape.

(** ** Links: what the pointer over a suffix is *)
Definition tall (h : gmap nat Node) (i x : nat) : bool := bool_decide (i < height h x)%nat.

(** The first tall node of [s] and how far it is; the length if there is none. *)
Fixpoint link (t : nat -> bool) (s : list nat) : option nat * Z :=
  match s with
  | [] => (None, 0)
  | x :: s' => if t x then (Some x, 1) else ((link t s').1, (link t s').2 + 1)
  end.

Lemma link_skip t m s :
  Forall (fun x => t x = false) m ->
  link t (m ++ s) = ((link t s).1, (link t s).2 + Z.of_nat (length m)).
Proof.
  induction 1 as [|x m Hx Hm IH]; simpl.
  - destruct (link t s). simpl. f_equal. lia.
  - rewrite Hx, IH. simpl. f_equal. lia.
Qed.

Lemma link_found t m y s :
  Forall (fun x => t x = false) m -> t y = true ->
  link t (m ++ y :: s) = (Some y, Z.of_nat (length m) + 1).
Proof. intros Hm Hy. rewrite link_skip by done. simpl. rewrite Hy. simpl. f_equal. lia. Qed.

Lemma tall_split (t : nat -> bool) s :
  Forall (fun x => t x = false) s \/
  exists m y s', s = m ++ y :: s' /\ Forall (fun x => t x = false) m /\ t y = true.
Proof.
  induction s as [|x s IH]; [by left|]. destruct (t x) eqn:Hx.
  - right. by exists [], x, s.
  - destruct IH as [IH|(m & y & s' & -> & Hm & Hy)]; [left; by constructor|].
    right. exists (x :: m), y, s'. split_and!; [done|by constructor|done].
Qed.

Lemma link_none t s : Forall (fun x => t x = false) s -> link t s = (None, Z.of_nat (length s)).
Proof. intros H. rewrite <- (app_nil_r s) at 1. by rewrite link_skip. Qed.

Lemma link_None_short t s : (link t s).1 = None -> Forall (fun x => t x = false) s.
Proof.
  destruct (tall_split t s) as [H|(m & y & s' & -> & Hm & Hy)]; [done|].
  by rewrite link_found.
Qed.

Lemma link_ext t t' s : (forall x, x ∈ s -> t x = t' x) -> link t s = link t' s.
Proof.
  induction s as [|x s IH]; intros H; simpl; [done|].
  rewrite (H x) by left. rewrite IH; [done|]. intros; apply H; by right.
Qed.

(** ** The representation *)

(** The node a search stands on after passing the nodes [u]. *)
Definition cur (u : list nat) : nat := default header (last u).

(** [cur u] takes part in level [i]. *)
Definition on_level (h : gmap nat Node) (i : nat) (u : list nat) : Prop :=
  u = [] \/ (i < height h (cur u))%nat.

Definition key_lt (h : gmap nat Node) (x y : nat) : Prop := str_cmp (key h x) (key h y) = Lt.

(** The part of the representation the searches rely on. *)
Record linked (h : gmap nat Node) (lvl : nat) (l : list nat) : Prop := {
  lk_nodup : NoDup (header :: l);
  lk_header : exists m s, shape h header = Some (m, s, MAX_LEVEL, MAX_LEVEL);
  lk_node : forall x, x ∈ l -> exists m s k,
      shape h x = Some (m, s, k, k) /\ (1 <= k <= lvl)%nat /\ is_nan s = false;
  lk_level : (1 <= lvl <= MAX_LEVEL)%nat;
  lk_link : forall i u v, (i < lvl)%nat -> l = u ++ v -> on_level h i u ->
      get_fwd h (cur u) i = (link (tall h i) v).1 /\
      get_span h (cur u) i = (link (tall h i) v).2
}.

Record rep (sl : SkipList) (l : list nat) : Prop := {
  rep_linked : linked (heap sl) (sl_level sl) l;
  rep_top : forall i, (sl_level sl <= i)%nat -> get_fwd (heap sl) header i = None;
  rep_fresh : forall x, (next_id sl <= x)%nat -> heap sl !! x = None;
  rep_back : forall u x v, l = u ++ x :: v -> get_back (heap sl) x = last u;
  rep_tail : sl_tail sl = last l;
  rep_length : sl_length sl = Z.of_nat (length l);
  rep_sorted : StronglySorted (key_lt (heap sl)) l
}.

Lemma shape_height h x m s k j : shape h x = Some (m, s, k, j) -> height h x = k.
Proof. unfold shape, height. destruct (h !! x); [|done]. by intros [= _ _ <- _]. Qed.

Lemma linked_lookup h lvl l x :
  linked h lvl l -> x ∈ l ->
  exists n, h !! x = Some n /\ is_nan (n_score n) = false /\ (1 <= height h x <= lvl)%nat.
Proof.
  intros Hl Hx. destruct (lk_node _ _ _ Hl x Hx) as (m & s & k & Hs & Hk & Hn).
  rewrite (shape_height _ _ _ _ _ _ Hs). unfold shape in Hs.
  destruct (h !! x) as [n|]; [|done]. exists n. by injection Hs as <- <- _ _.
Qed.

Lemma cur_snoc u x : cur (u ++ [x]) = x.
Proof. unfold cur. by rewrite last_snoc. Qed.

Lemma cur_cell h lvl l i u v :
  linked h lvl l -> l = u ++ v -> on_level h i u -> (i < MAX_LEVEL)%nat -> has_cell h (cur u) i.
Proof.
  intros Hl -> [->|Hi] HM.
  - destruct (lk_header _ _ _ Hl) as (m & s & Hs). by exists m, s, MAX_LEVEL.
  - destruct u as [|x u _] using rev_ind.
    + destruct (lk_header _ _ _ Hl) as (m & s & Hs). by exists m, s, MAX_LEVEL.
    + rewrite cur_snoc in *. destruct (lk_node _ _ _ Hl x) as (m & s & k & Hs & Hk & _); [set_solver|].
      exists m, s, k. by rewrite (shape_height _ _ _ _ _ _ Hs) in Hi.
Qed.

(** ** Searching

    [go_prefix A B]: the nodes that pass [go] are exactly those of [A]. *)
Definition go_prefix (h : gmap nat Node) (go : Z -> Node -> bool) (A B : list nat) : Prop :=
  forall u y v n, A ++ B = u ++ y :: v -> h !! y = Some n ->
    go (Z.of_nat (length u) + 1) n = bool_decide (length u < length A)%nat.

(** Where a search at level [i] stands when it stops: on the last node of [A]
    tall enough, or the header. *)
Definition stops (h : gmap nat Node) (A : list nat) (i x : nat) (r : Z) : Prop :=
  exists u w, A = u ++ w /\ x = cur u /\ r = Z.of_nat (length u) /\ on_level h i u /\
    Forall (fun y => tall h i y = false) w.

Lemma walk_stops h lvl go A B i fuel u w :
  linked h lvl (A ++ B) -> go_prefix h go A B -> (i < lvl)%nat ->
  A = u ++ w -> on_level h i u -> (length w < fuel)%nat ->
  let '(x, r) := walk fuel h go i (cur u) (Z.of_nat (length u)) in stops h A i x r.
Proof.
  intros Hl Hgo Hi. revert u w. induction fuel as [|fuel IH]; intros u w HA Hu Hf; [lia|].
  simpl. destruct (lk_link _ _ _ Hl i u (w ++ B) Hi) as [-> ->];
    [by rewrite HA, <- app_assoc | done |].
  destruct (tall_split (tall h i) w) as [Hw|(m & y & w' & -> & Hm & Hy)].
  - (* nothing tall is left in [A]: whatever follows does not pass *)
    assert (Hstop : stops h A i (cur u) (Z.of_nat (length u))) by (by exists u, w).
    rewrite link_skip by done. simpl.
    destruct (tall_split (tall h i) B) as [HB|(m & y & B' & HB & Hm & Hy)].
    + by rewrite link_none.
    + rewrite HB, link_found by done. simpl.
      destruct (h !! y) as [n|] eqn:Hn; [|done].
      replace (Z.of_nat (length u) + (Z.of_nat (length m) + 1 + Z.of_nat (length w)))
        with (Z.of_nat (length (u ++ w ++ m)) + 1) by (rewrite !length_app; lia).
      rewrite (Hgo (u ++ w ++ m) y B' n); [|by rewrite HA, HB, <- !app_assoc|done].
      rewrite bool_decide_false; [done|]. rewrite HA, !length_app. lia.
  - (* the next tall node of [A] passes *)
    rewrite <- app_assoc, <- app_comm_cons, link_found by done. simpl.
    assert (HA' : A = (u ++ m ++ [y]) ++ w') by (by rewrite HA, <- !app_assoc).
    destruct (linked_lookup _ _ _ y Hl) as (n & Hn & _); [rewrite HA'; set_solver|].
    rewrite Hn. replace (Z.of_nat (length u) + (Z.of_nat (length m) + 1))
      with (Z.of_nat (length (u ++ m)) + 1) by (rewrite length_app; lia).
    rewrite (Hgo (u ++ m) y (w' ++ B) n); [|by rewrite HA, <- !app_assoc|done].
    rewrite bool_decide_true by (rewrite HA, !length_app; simpl; lia).
    rewrite length_app in Hf. simpl in Hf.
    specialize (IH (u ++ m ++ [y]) w' HA').
    rewrite app_assoc, cur_snoc, length_app in IH. simpl in IH.
    replace (Z.of_nat (length (u ++ m)) + 1) with (Z.of_nat (length (u ++ m) + 1)) by lia.
    apply IH; [|lia]. right. rewrite cur_snoc. by apply bool_decide_eq_true in Hy.
Qed.

Lemma descend_length fuel h go n x r : length (descend fuel h go n x r) = n.
Proof.
  revert x r. induction n as [|n IH]; intros x r; simpl; [done|].
  destruct (walk fuel h go n x r) as [x' r']. rewrite length_app, IH. simpl. lia.
Qed.

Lemma stops_lower h A i j x r :
  (j <= i)%nat -> stops h A i x r -> exists u w, A = u ++ w /\ x = cur u /\ r = Z.of_nat (length u) /\ on_level h j u.
Proof.
  intros Hj (u & w & HA & Hx & Hr & Hu & _). exists u, w. split_and!; auto.
  destruct Hu as [->|Hu]; [by left|right; lia].
Qed.

Lemma descend_stops h lvl go A B fuel n u w :
  linked h lvl (A ++ B) -> go_prefix h go A B -> (n <= lvl)%nat -> (length A < fuel)%nat ->
  A = u ++ w -> (forall i, (i < n)%nat -> on_level h i u) ->
  forall i, (i < n)%nat ->
    let path := descend fuel h go n (cur u) (Z.of_nat (length u)) in
    stops h A i (update_at path i) (rank_at path i).
Proof.
  intros Hl Hgo Hn Hf. revert u w. induction n as [|n IH]; intros u w HA Hu i Hi; [lia|].
  assert (Hfw : (length w < fuel)%nat) by (rewrite HA, length_app in Hf; lia).
  simpl. pose proof (walk_stops h lvl go A B n fuel u w Hl Hgo Hn HA (Hu n ltac:(lia)) Hfw) as Hw.
  destruct (walk fuel h go n (cur u) (Z.of_nat (length u))) as [x r].
  unfold update_at, rank_at. destruct (decide (i = n)) as [->|Hne].
  - rewrite lookup_app_r, descend_length, Nat.sub_diag by (by rewrite descend_length). done.
  - rewrite lookup_app_l by (rewrite descend_length; lia).
    destruct (stops_lower h A n 0 x r ltac:(lia) Hw) as (u' & w' & HA' & -> & -> & _).
    apply (IH ltac:(lia) u' w' HA'); [|lia]. intros j Hj.
    destruct Hw as (u2 & w2 & HA2 & Hx & Hr & Hu2 & _).
    assert (u' = u2) as ->.
    { rewrite HA' in HA2. apply app_inj_1 in HA2 as [-> _]; [done|lia]. }
    destruct Hu2 as [->|Hu2]; [by left|right; lia].
Qed.

Lemma cur_lookup u v : (header :: u ++ v) !! length u = Some (cur u).
Proof.
  destruct u as [|x u _] using rev_ind; [done|]. rewrite cur_snoc, length_app. simpl.
  rewrite Nat.add_1_r. simpl. rewrite <- app_assoc. by apply list_lookup_middle.
Qed.

(** A node determines the prefix it ends. *)
Lemma cur_inj l u v u' v' :
  NoDup (header :: l) -> l = u ++ v -> l = u' ++ v' -> cur u = cur u' -> u = u' /\ v = v'.
Proof.
  intros Hnd Hl Hl' Hc.
  assert (Hlen : length u = length u').
  { pose proof (cur_lookup u v) as H1. pose proof (cur_lookup u' v') as H2.
    rewrite <- Hl in H1. rewrite <- Hl', <- Hc in H2. by eapply NoDup_lookup. }
  rewrite Hl in Hl'. by apply app_inj_1.
Qed.

Lemma search_stops sl l A B go :
  rep sl l -> l = A ++ B -> go_prefix (heap sl) go A B ->
  forall i, stops (heap sl) A i (update_at (search sl go) i) (rank_at (search sl go) i).
Proof.
  intros Hr Hl Hgo i. pose proof (rep_linked _ _ Hr) as Hlk. rewrite Hl in Hlk.
  destruct (decide (i < sl_level sl)%nat) as [Hi|Hi].
  - apply (descend_stops (heap sl) (sl_level sl) go A B (fuel_of sl) (sl_level sl) [] A);
      [done|done|lia| |done|by left|done].
    unfold fuel_of. rewrite (rep_length _ _ Hr), Hl, length_app. lia.
  - unfold update_at, rank_at, search. rewrite lookup_ge_None_2 by (rewrite descend_length; lia).
    exists [], A. split_and!; [done|done|done|by left|]. apply Forall_forall. intros x Hx.
    destruct (linked_lookup _ _ _ x Hlk) as (n & _ & _ & Hh); [set_solver|].
    apply bool_decide_false. lia.
Qed.

(** At level 0 a search has passed all of [A]. *)
Lemma stops_0 h lvl A B x r :
  linked h lvl (A ++ B) -> stops h A 0 x r -> x = cur A /\ r = Z.of_nat (length A).
Proof.
  intros Hl (u & w & -> & -> & -> & _ & Hw). destruct w as [|y w]; [by rewrite app_nil_r|].
  inversion Hw as [|? ? Hy]; subst. apply bool_decide_eq_false in Hy.
  destruct (linked_lookup _ _ _ y Hl) as (n & _ & _ & Hh); [set_solver|]. lia.
Qed.

Lemma stops_at h A B i x r u w :
  NoDup (header :: A ++ B) -> stops h A i x r -> A = u ++ w -> on_level h i u ->
  Forall (fun y => tall h i y = false) w -> x = cur u /\ r = Z.of_nat (length u).
Proof.
  intros Hnd (u' & w' & HA & -> & -> & Hu' & Hw') HA2 Hu Hw.
  rewrite Forall_forall in Hw, Hw'.
  assert (Hlt : forall a b c d, A = a ++ b -> A = c ++ d -> (length a < length c)%nat ->
            on_level h i c -> (forall y, y ∈ b -> tall h i y = false) -> False).
  { intros a b c d E1 E2 Hlen Hc Hb. destruct c as [|y c _] using rev_ind; [simpl in Hlen; lia|].
    destruct Hc as [Hc|Hc]; [by destruct c|]. rewrite cur_snoc in Hc.
    rewrite length_app in Hlen. simpl in Hlen.
    assert (Hy : y ∈ b).
    { apply list_elem_of_lookup. exists (length c - length a)%nat.
      rewrite <- lookup_app_r, <- E1, E2 by lia. rewrite <- app_assoc.
      by apply list_lookup_middle. }
    specialize (Hb y Hy). apply bool_decide_eq_false in Hb. lia. }
  assert (length u = length u') as Hlen.
  { destruct (Nat.lt_trichotomy (length u) (length u')) as [H|[H|H]]; [|done|].
    - destruct (Hlt u w u' w'); auto.
    - destruct (Hlt u' w' u w); auto. }
  rewrite HA in HA2. apply app_inj_1 in HA2 as [-> _]; done.
Qed.

Lemma stops_cell h lvl l A B i x r :
  linked h lvl l -> l = A ++ B -> stops h A i x r -> (i < MAX_LEVEL)%nat -> has_cell h x i.
Proof.
  intros Hl -> (u & w & -> & -> & _ & Hu & _) Hi. rewrite <- app_assoc in Hl.
  by eapply cur_cell.
Qed.

(** ** The cells an insertion writes *)
Lemma splice_cells node path h i (prev := update_at path i)
    (d := rank_at path 0 - rank_at path i) :
  has_cell h node i -> has_cell h prev i -> prev <> node ->
  same_shape h (splice node path h i) /\
  (forall y, get_back (splice node path h i) y = get_back h y) /\
  (forall y j, get_fwd (splice node path h i) y j =
     if decide (j = i) then
       if decide (y = node) then get_fwd h prev i
       else if decide (y = prev) then Some node else get_fwd h y j
     else get_fwd h y j) /\
  (forall y j, get_span (splice node path h i) y j =
     if decide (j = i) then
       if decide (y = node) then get_span h prev i - d
       else if decide (y = prev) then d + 1 else get_span h y j
     else get_span h y j).
Proof.
  intros Hn Hp Hne. unfold splice. fold prev d.
  set (h1 := set_fwd node i _ h). set (h2 := set_fwd prev i _ h1).
  assert (S1 : same_shape h h1) by apply shape_set_fwd.
  assert (S2 : same_shape h h2) by (eapply same_shape_trans; [done|apply shape_set_fwd]).
  set (h3 := set_span node i _ h2).
  assert (S3 : same_shape h h3) by (eapply same_shape_trans; [done|apply shape_set_span]).
  split_and!.
  - eapply same_shape_trans; [done|apply shape_set_span].
  - intros y. unfold h3, h2, h1. by rewrite !get_back_set_span, !get_back_set_fwd.
  - intros y j. rewrite get_fwd_set_span. unfold h3. rewrite get_fwd_set_span.
    unfold h2. rewrite get_fwd_set_fwd by eauto with shape.
    unfold h1. rewrite get_fwd_set_fwd by done.
    destruct (decide (j = i)) as [->|]; repeat case_decide; naive_solver.
  - intros y j. rewrite get_span_set_span by eauto with shape.
    unfold h3. rewrite get_span_set_span by eauto with shape.
    unfold h2, h1. rewrite !get_span_set_fwd.
    destruct (decide (j = i)) as [->|]; repeat case_decide; naive_solver.
Qed.

Lemma splice_fold node path h n :
  (forall i, (i < n)%nat -> has_cell h node i /\ has_cell h (update_at path i) i /\ update_at path i <> node) ->
  let h' := fold_left (splice node path) (seq 0 n) h in
  same_shape h h' /\
  (forall y, get_back h' y = get_back h y) /\
  (forall y j, get_fwd h' y j =
     if decide (j < n)%nat then
       if decide (y = node) then get_fwd h (update_at path j) j
       else if decide (y = update_at path j) then Some node else get_fwd h y j
     else get_fwd h y j) /\
  (forall y j, get_span h' y j =
     if decide (j < n)%nat then
       if decide (y = node) then get_span h (update_at path j) j - (rank_at path 0 - rank_at path j)
       else if decide (y = update_at path j) then rank_at path 0 - rank_at path j + 1
       else get_span h y j
     else get_span h y j).
Proof.
  induction n as [|n IH]; intros Hc; [done|].
  rewrite seq_S, fold_left_app. cbn [fold_left Nat.add].
  destruct IH as (S1 & B1 & F1 & P1); [intros; apply Hc; lia|].
  set (h1 := fold_left _ (seq 0 n) h) in *. destruct (Hc n) as (C1 & C2 & C3); [lia|].
  destruct (splice_cells node path h1 n) as (S2 & B2 & F2 & P2); eauto with shape.
  split_and!.
  - by eapply same_shape_trans.
  - intros y. by rewrite B2.
  - intros y j. rewrite F2, !F1, (decide_False (P := (n < n)%nat)) by lia.
    destruct (decide (j = n)) as [->|].
    + rewrite (decide_True (P := (n < S n)%nat)), (decide_False (P := (n < n)%nat)) by lia. done.
    + destruct (decide (j < n)%nat), (decide (j < S n)%nat); done || lia.
  - intros y j. rewrite P2, !P1, (decide_False (P := (n < n)%nat)) by lia.
    destruct (decide (j = n)) as [->|].
    + rewrite (decide_True (P := (n < S n)%nat)), (decide_False (P := (n < n)%nat)) by lia. done.
    + destruct (decide (j < n)%nat), (decide (j < S n)%nat); done || lia.
Qed.

Lemma widen_fold path h a n :
  (forall i, (a <= i < a + n)%nat -> has_cell h (update_at path i) i) ->
  let h' := fold_left (widen path) (seq a n) h in
  same_shape h h' /\ (forall y, get_back h' y = get_back h y) /\
  (forall y j, get_fwd h' y j = get_fwd h y j) /\
  (forall y j, get_span h' y j =
     if decide ((a <= j < a + n)%nat /\ y = update_at path j) then get_span h y j + 1 else get_span h y j).
Proof.
  induction n as [|n IH]; intros Hc.
  { split_and!; try done. intros. rewrite decide_False; [done|lia]. }
  rewrite seq_S, fold_left_app. cbn [fold_left].
  destruct IH as (S1 & B1 & F1 & P1); [intros; apply Hc; lia|].
  set (h1 := fold_left _ (seq a n) h) in *.
  assert (C : has_cell h1 (update_at path (a + n)) (a + n)) by (eapply same_shape_cell; [done|apply Hc; lia]).
  unfold widen. split_and!.
  - eapply same_shape_trans; [done|apply shape_set_span].
  - intros y. by rewrite get_back_set_span.
  - intros y j. by rewrite get_fwd_set_span.
  - intros y j. rewrite get_span_set_span, !P1 by done.
    destruct (decide (j = a + n)%nat) as [->|].
    + rewrite (decide_False (P := ((a <= a + n < a + n)%nat /\ y = _))) by lia.
      rewrite (decide_False (P := ((a <= a + n < a + n)%nat /\ update_at path (a+n) = _))) by lia.
      repeat case_decide; naive_solver lia.
    + repeat case_decide; naive_solver lia.
Qed.

(** Membership in a list built with [++] and [::]. *)
Ltac in_list :=
  repeat first [ assumption | apply elem_of_app; left; solve [in_list] | apply elem_of_app; right; solve [in_list]
               | apply list_elem_of_here | apply list_elem_of_further ].

(** ** Insertion keeps the links *)
Section InsertLinked.
Context (h h' : gmap nat Node) (lvl nl node : nat) (A B : list nat) (m : pystr) (s : float).
Context (path : list (nat * Z)).
Let prev := update_at path.
Let d j := rank_at path 0 - rank_at path j.
Hypothesis Hl : linked h lvl (A ++ B).
Hypothesis Hstop : forall i, stops h A i (prev i) (rank_at path i).
Hypothesis Hnode : node <> header /\ node ∉ A ++ B.
Hypothesis Hnl : (1 <= nl <= lvl)%nat.
Hypothesis Hnan : is_nan s = false.
Hypothesis Hshape : forall y, shape h' y = if decide (y = node) then Some (m, s, nl, nl) else shape h y.
Hypothesis Hf : forall y j, y <> node ->
  get_fwd h' y j = if decide ((j < nl)%nat /\ y = prev j) then Some node else get_fwd h y j.
Hypothesis Hfn : forall j, (j < nl)%nat -> get_fwd h' node j = get_fwd h (prev j) j.
Hypothesis Hs : forall y j, (j < lvl)%nat -> y <> node ->
  get_span h' y j = if decide (y = prev j) then
                      if decide (j < nl)%nat then d j + 1 else get_span h y j + 1
                    else get_span h y j.
Hypothesis Hsn : forall j, (j < nl)%nat -> get_span h' node j = get_span h (prev j) j - d j.

Lemma ins_height y : height h' y = if decide (y = node) then nl else height h y.
Proof.
  specialize (Hshape y). unfold shape, height in *. case_decide.
  - destruct (h' !! y); [|done]. by injection Hshape as _ _ <- _.
  - destruct (h' !! y), (h !! y); simplify_eq/=; congruence.
Qed.

Lemma ins_tall i y : y ∈ A ++ B -> tall h' i y = tall h i y.
Proof.
  intros Hy. unfold tall. rewrite ins_height, decide_False; [done|].
  intros ->. by destruct Hnode.
Qed.

Lemma ins_tall_node i : tall h' i node = bool_decide (i < nl)%nat.
Proof. unfold tall. by rewrite ins_height, decide_True. Qed.

Lemma ins_rank0 : rank_at path 0 = Z.of_nat (length A).
Proof. by destruct (stops_0 h lvl A B _ _ Hl (Hstop 0)). Qed.

Lemma ins_on_level i u v :
  A ++ B = u ++ v -> on_level h' i u -> on_level h i u /\ cur u <> node.
Proof.
  intros HAB Hu. destruct u as [|x u _] using rev_ind.
  - split; [by left|]. destruct Hnode. by apply not_eq_sym.
  - assert (Hx : x <> node) by (intros ->; destruct Hnode as [_ []]; rewrite HAB; in_list).
    destruct Hu as [Hu|Hu]; [by destruct u|]. rewrite cur_snoc in Hu.
    rewrite ins_height, decide_False in Hu by done.
    split; [right|]; by rewrite cur_snoc.
Qed.

(** A pointer that starts before the new node. *)
Lemma ins_link_before i u w :
  (i < lvl)%nat -> A = u ++ w -> on_level h' i u ->
  get_fwd h' (cur u) i = (link (tall h' i) (w ++ node :: B)).1 /\
  get_span h' (cur u) i = (link (tall h' i) (w ++ node :: B)).2.
Proof.
  intros Hi HA Hu'. destruct (ins_on_level i u (w ++ B)) as [Hu Hne]; [by rewrite HA, app_assoc|done|].
  destruct (lk_link _ _ _ Hl i u (w ++ B) Hi) as [F1 S1]; [by rewrite HA, app_assoc|done|].
  pose proof (lk_nodup _ _ _ Hl) as Hnd.
  assert (Hw' : forall y, y ∈ w -> tall h' i y = tall h i y)
    by (intros y Hy; apply ins_tall; rewrite HA; in_list).
  assert (HB : link (tall h' i) B = link (tall h i) B)
    by (apply link_ext; intros y Hy; apply ins_tall; in_list).
  rewrite Hf, Hs by done. destruct (tall_split (tall h i) w) as [Hw|(m1 & y & w' & -> & Hm & Hy)].
  - destruct (stops_at h A B i _ _ u w Hnd (Hstop i) HA Hu Hw) as [Hp Hr]. fold prev in Hp.
    rewrite (decide_True (P := cur u = prev i)) by done.
    rewrite link_skip in F1, S1 by done. simpl in F1, S1.
    assert (Hwt : Forall (fun y => tall h' i y = false) w).
    { rewrite Forall_forall in *. intros y Hy. rewrite Hw' by done. by apply Hw. }
    rewrite link_skip by done. simpl. rewrite ins_tall_node.
    destruct (decide (i < nl)%nat) as [Hin|Hin].
    + rewrite decide_True, bool_decide_true by done. simpl. split; [done|].
      unfold d. rewrite ins_rank0, Hr, HA, length_app. lia.
    + rewrite decide_False, bool_decide_false by (tauto || lia). simpl.
      rewrite HB, F1, S1. split; [done|lia].
  - assert (cur u <> prev i) as Hcp.
    { intros Heq. destruct (Hstop i) as (u2 & w2 & HA2 & Hx & _ & _ & Hw2).
      fold (prev i) in Hx. rewrite Hx in Heq.
      destruct (cur_inj (A ++ B) u ((m1 ++ y :: w') ++ B) u2 (w2 ++ B)) as [-> Hww]; try done.
      { by rewrite HA, <- app_assoc. } { by rewrite HA2, <- app_assoc. }
      apply app_inv_tail in Hww. subst w2. rewrite Forall_app, Forall_cons in Hw2.
      destruct Hw2 as (_ & Hy2 & _). congruence. }
    rewrite !decide_False by tauto. rewrite F1, S1, <- !app_assoc, <- !app_comm_cons.
    rewrite !link_found; try done.
    + rewrite Forall_forall in *. intros z Hz. rewrite Hw' by in_list. by apply Hm.
    + rewrite Hw' by in_list. done.
Qed.

(** The pointers of the new node. *)
Lemma ins_link_node i :
  (i < nl)%nat ->
  get_fwd h' node i = (link (tall h' i) B).1 /\ get_span h' node i = (link (tall h' i) B).2.
Proof.
  intros Hi. rewrite Hfn, Hsn by done.
  destruct (Hstop i) as (u & w & HA & Hx & Hr & Hu & Hw). fold (prev i) in Hx.
  destruct (lk_link _ _ _ Hl i u (w ++ B)) as [F1 S1]; [lia|by rewrite HA, <- app_assoc|done|].
  rewrite Hx, F1, S1, link_skip by done. simpl.
  assert (link (tall h' i) B = link (tall h i) B) as ->
    by (apply link_ext; intros y Hy; apply ins_tall; in_list).
  split; [done|]. unfold d. rewrite ins_rank0, Hr, HA, length_app. lia.
Qed.

(** A pointer that starts after the new node. *)
Lemma ins_link_after i u v :
  (i < lvl)%nat -> B = u ++ v -> u <> [] -> on_level h' i (A ++ node :: u) ->
  get_fwd h' (cur (A ++ node :: u)) i = (link (tall h' i) v).1 /\
  get_span h' (cur (A ++ node :: u)) i = (link (tall h' i) v).2.
Proof.
  intros Hi HB Hne Hu. destruct u as [|x u _] using rev_ind; [done|].
  assert (Hcur : cur (A ++ node :: u ++ [x]) = cur (A ++ u ++ [x])).
  { rewrite app_comm_cons, !app_assoc, !cur_snoc. done. }
  assert (Hol : on_level h' i (A ++ u ++ [x])).
  { right. destruct Hu as [Hu|Hu]; [by destruct A|]. by rewrite Hcur in Hu. }
  rewrite Hcur. destruct (ins_on_level i (A ++ u ++ [x]) v) as [Hol' Hn];
    [by rewrite HB, <- !app_assoc|done|].
  destruct (lk_link _ _ _ Hl i (A ++ u ++ [x]) v Hi) as [F1 S1]; [by rewrite HB, <- !app_assoc|done|].
  assert (Hcp : cur (A ++ u ++ [x]) <> prev i).
  { intros Heq. destruct (Hstop i) as (u2 & w2 & HA2 & Hx & _). fold (prev i) in Hx.
    rewrite Hx in Heq. destruct (cur_inj (A ++ B) (A ++ u ++ [x]) v u2 (w2 ++ B)) as [E _]; try done.
    - apply (lk_nodup _ _ _ Hl).
    - by rewrite HB, <- !app_assoc.
    - by rewrite HA2, <- app_assoc.
    - apply (f_equal length) in E. rewrite HA2, !length_app in E. simpl in E. lia. }
  rewrite Hf, Hs, !decide_False, F1, S1 by tauto.
  assert (link (tall h' i) v = link (tall h i) v) as ->; [|done].
  apply link_ext. intros y Hy. apply ins_tall. rewrite HB. in_list.
Qed.

Lemma ins_linked : linked h' lvl (A ++ node :: B).
Proof.
  pose proof (lk_nodup _ _ _ Hl) as Hnd. destruct Hnode as [Hnh Hn].
  split.
  - apply NoDup_cons in Hnd as [Hh Hnd]. rewrite not_elem_of_app in Hh, Hn.
    apply NoDup_cons. split.
    + rewrite not_elem_of_app, not_elem_of_cons. split_and!; try tauto. by apply not_eq_sym.
    + apply NoDup_app in Hnd as (H1 & H2 & H3). apply NoDup_app. split_and!; [done| |].
      * intros x Hx. rewrite not_elem_of_cons. split; [|by apply H2]. intros ->. tauto.
      * apply NoDup_cons. tauto.
  - destruct (lk_header _ _ _ Hl) as (m0 & s0 & H). exists m0, s0.
    rewrite Hshape, decide_False by (by apply not_eq_sym). done.
  - intros x Hx. destruct (decide (x = node)) as [->|Hxn].
    + exists m, s, nl. by rewrite Hshape, decide_True.
    + rewrite Hshape, decide_False by done. apply (lk_node _ _ _ Hl).
      rewrite elem_of_app, elem_of_cons in Hx. rewrite elem_of_app. tauto.
  - apply (lk_level _ _ _ Hl).
  - intros i u v Hi Huv Hu.
    destruct (app_eq_inv _ _ _ _ Huv) as [(w & HA & Hv)|(w & Hw & Hv)].
    + rewrite Hv. by apply ins_link_before.
    + destruct w as [|x w]; [|injection Hv as <- HB; destruct w as [|y w]].
      * rewrite app_nil_r in Hw. simpl in Hv. rewrite <- Hv.
        apply (ins_link_before i u []); [done|by rewrite app_nil_r|done].
      * simpl in HB. rewrite Hw, cur_snoc, <- HB in *. apply ins_link_node.
        destruct Hu as [Hu|Hu]; [by destruct A|].
        rewrite cur_snoc, ins_height, decide_True in Hu by done. done.
      * rewrite Hw in *. by apply ins_link_after.
Qed.
End InsertLinked.

(** ** Raising the level *)
Lemma set_span_fold x v h a n :
  (forall i, (a <= i < a + n)%nat -> has_cell h x i) ->
  let h' := fold_left (fun h i => set_span x i v h) (seq a n) h in
  same_shape h h' /\ (forall y, get_back h' y = get_back h y) /\
  (forall y j, get_fwd h' y j = get_fwd h y j) /\
  (forall y j, get_span h' y j = if decide (y = x /\ (a <= j < a + n)%nat) then v else get_span h y j).
Proof.
  induction n as [|n IH]; intros Hc.
  { split_and!; try done. intros. rewrite decide_False; [done|lia]. }
  rewrite seq_S, fold_left_app. cbn [fold_left].
  destruct IH as (S1 & B1 & F1 & P1); [intros; apply Hc; lia|].
  set (h1 := fold_left _ (seq a n) h) in *.
  assert (C : has_cell h1 x (a + n)) by (eapply same_shape_cell; [done|apply Hc; lia]).
  split_and!.
  - eapply same_shape_trans; [done|apply shape_set_span].
  - intros y. by rewrite get_back_set_span.
  - intros y j. by rewrite get_fwd_set_span.
  - intros y j. rewrite get_span_set_span, P1 by done. repeat case_decide; naive_solver lia.
Qed.

Lemma same_shape_tall h h' i x : same_shape h h' -> tall h' i x = tall h i x.
Proof. intros H. unfold tall. by rewrite (same_shape_height _ _ x H). Qed.

Lemma same_shape_on_level h h' i u : same_shape h h' -> on_level h' i u <-> on_level h i u.
Proof. intros H. unfold on_level. by rewrite (same_shape_height _ _ (cur u) H). Qed.

Lemma sorted_ext (R R' : nat -> nat -> Prop) l :
  (forall x y, x ∈ l -> y ∈ l -> R x y -> R' x y) -> StronglySorted R l -> StronglySorted R' l.
Proof.
  intros HR. induction 1 as [|x l Hs IH Hx]; [constructor|]. constructor.
  - apply IH. intros; apply HR; by try right.
  - rewrite Forall_forall in *. intros y Hy. apply HR; [left|by right|by apply Hx].
Qed.

Lemma linked_raise h h' lvl lvl' l :
  linked h lvl l -> same_shape h h' -> (lvl <= lvl' <= MAX_LEVEL)%nat ->
  (forall y i, (i < lvl)%nat -> get_fwd h' y i = get_fwd h y i /\ get_span h' y i = get_span h y i) ->
  (forall i, (lvl <= i < lvl')%nat ->
     get_fwd h' header i = None /\ get_span h' header i = Z.of_nat (length l)) ->
  linked h' lvl' l.
Proof.
  intros Hl Hss Hlvl Heq Hnew. split.
  - apply (lk_nodup _ _ _ Hl).
  - destruct (lk_header _ _ _ Hl) as (m & s & H). exists m, s. by rewrite Hss.
  - intros x Hx. destruct (lk_node _ _ _ Hl x Hx) as (m & s & k & Hs & Hk & Hn).
    exists m, s, k. rewrite Hss. split_and!; [done|lia|lia|done].
  - pose proof (lk_level _ _ _ Hl). lia.
  - intros i u v Hi Huv Hu. rewrite same_shape_on_level in Hu by done.
    rewrite (link_ext _ (tall h i)) by (intros; by apply same_shape_tall).
    destruct (decide (i < lvl)%nat) as [Hi'|Hi'].
    + destruct (Heq (cur u) i Hi') as [-> ->]. by apply (lk_link _ _ _ Hl).
    + assert (Hshort : forall x, x ∈ l -> tall h i x = false).
      { intros x Hx. destruct (linked_lookup _ _ _ x Hl Hx) as (n & _ & _ & Hh).
        apply bool_decide_false. lia. }
      destruct u as [|x u _] using rev_ind.
      * simpl in Huv. subst v. rewrite link_none by (by apply Forall_forall). apply Hnew. lia.
      * exfalso. destruct Hu as [Hu|Hu]; [by destruct u|]. rewrite cur_snoc in Hu.
        specialize (Hshort x). unfold tall in Hshort. rewrite bool_decide_true in Hshort by done.
        discriminate Hshort. rewrite Huv. in_list.
Qed.

Lemma raise_level_rep lvl sl l :
  rep sl l -> (lvl <= MAX_LEVEL)%nat ->
  let sl' := raise_level lvl sl in
  rep sl' l /\ same_shape (heap sl) (heap sl') /\ next_id sl' = next_id sl /\
  (lvl <= sl_level sl')%nat.
Proof.
  intros Hr HM. unfold raise_level. case_bool_decide as Hlvl; [|by split_and!; [| |done|lia]].
  pose proof (rep_linked _ _ Hr) as Hl.
  destruct (set_span_fold header (sl_length sl) (heap sl) (sl_level sl) (lvl - sl_level sl))
    as (S1 & B1 & F1 & P1).
  { intros i Hi. eapply (cur_cell _ _ _ i [] l); eauto; [by left|lia]. }
  set (h' := fold_left _ _ _) in *. simpl. split_and!; [|done|done|lia]. split; simpl.
  - eapply linked_raise; [done|done|lia| |].
    + intros y i Hi. rewrite F1, P1, decide_False by lia. done.
    + intros i Hi. rewrite F1, P1, decide_True by (split; [done|lia]).
      split; [apply (rep_top _ _ Hr); lia|apply (rep_length _ _ Hr)].
  - intros i Hi. rewrite F1. apply (rep_top _ _ Hr). lia.
  - intros x Hx. specialize (S1 x). unfold shape in S1.
    rewrite (rep_fresh _ _ Hr x Hx) in S1. by destruct (h' !! x).
  - intros u x v Hu. rewrite B1. by eapply rep_back.
  - apply (rep_tail _ _ Hr).
  - apply (rep_length _ _ Hr).
  - eapply sorted_ext, (rep_sorted _ _ Hr). intros x y _ _. unfold key_lt.
    by rewrite !(same_shape_key _ _ _ S1).
Qed.

(** ** Insertion *)
Lemma ins_back (h h' : gmap nat Node) node A B :
  NoDup (A ++ node :: B) ->
  (forall u x v, A ++ B = u ++ x :: v -> get_back h x = last u) ->
  (forall y, get_back h' y = if decide (y = node) then last A
                             else if decide (head B = Some y) then Some node else get_back h y) ->
  forall u x v, A ++ node :: B = u ++ x :: v -> get_back h' x = last u.
Proof.
  intros Hnd Hb Hb' u x v Heq. rewrite Hb'.
  destruct (app_eq_inv _ _ _ _ Heq) as [(k & -> & Hk)|(k & -> & Hk)].
  - destruct k as [|y k]; injection Hk as -> ->.
    { by rewrite decide_True, app_nil_r. }
    rewrite <- app_assoc in Hnd. apply NoDup_app in Hnd as (_ & _ & Hnd). simpl in Hnd.
    apply NoDup_cons in Hnd as [Hy Hnd]. rewrite decide_False, decide_False.
    + apply (Hb u y (k ++ B)). by rewrite <- app_assoc.
    + intros Hh. destruct B as [|b B]; [done|]. injection Hh as ->. apply Hy. in_list.
    + intros ->. apply Hy. in_list.
  - destruct k as [|y k]; injection Hk as -> HB.
    { by rewrite decide_True, app_nil_r. }
    apply NoDup_app in Hnd as (_ & _ & Hnd). rewrite HB in Hnd.
    rewrite decide_False.
    2: { intros ->. apply NoDup_cons in Hnd as [Hn _]. apply Hn. in_list. }
    destruct k as [|z k].
    + rewrite HB, decide_True by done. by rewrite last_snoc.
    + rewrite decide_False.
      * rewrite (Hb (A ++ z :: k) x v) by (by rewrite HB, <- app_assoc).
        rewrite !last_app, !last_cons. by destruct (last k).
      * rewrite HB. intros [= ->]. apply NoDup_cons in Hnd as [_ Hnd]. simpl in Hnd.
        apply NoDup_cons in Hnd as [Hn _]. apply Hn. in_list.
Qed.

Lemma link_0 h lvl l u v :
  linked h lvl l -> l = u ++ v -> (link (tall h 0) v).1 = head v.
Proof.
  intros Hl ->. destruct v as [|x v]; [done|]. simpl.
  destruct (linked_lookup _ _ _ x Hl) as (n & _ & _ & Hh); [in_list|].
  unfold tall. by rewrite bool_decide_true by lia.
Qed.

Lemma sorted_insert (R : nat -> nat -> Prop) A x B :
  StronglySorted R (A ++ B) -> (forall y, y ∈ A -> R y x) -> (forall y, y ∈ B -> R x y) ->
  StronglySorted R (A ++ x :: B).
Proof.
  intros Hs HA HB. induction A as [|a A IH]; simpl in *.
  - constructor; [done|]. by apply Forall_forall.
  - inversion Hs as [|? ? Hs' Ha]; subst. constructor.
    + apply IH; [done|]. intros y Hy. apply HA. by right.
    + rewrite Forall_app, Forall_cons in *. split_and!; try tauto. apply HA. left.
Qed.

(** The heap after the splices, before the backward pointers. *)
Section InsertHeap.
Context (h : gmap nat Node) (lvl nl node : nat) (A B : list nat) (m : pystr) (s : float).
Context (path : list (nat * Z)).
Hypothesis Hl : linked h lvl (A ++ B).
Hypothesis Hstop : forall i, stops h A i (update_at path i) (rank_at path i).
Hypothesis Hfresh : h !! node = None.
Hypothesis Hnl : (1 <= nl <= lvl)%nat.
Hypothesis Hnan : is_nan s = false.
Let h1 := <[node := new_node nl m s]> h.
Let h2 := fold_left (splice node path) (seq 0 nl) h1.
Let h3 := fold_left (widen path) (seq nl (lvl - nl)) h2.

Lemma insh_notin : node <> header /\ node ∉ A ++ B.
Proof.
  split.
  - intros ->. destruct (lk_header _ _ _ Hl) as (m0 & s0 & H). unfold shape in H. by rewrite Hfresh in H.
  - intros Hin. destruct (linked_lookup _ _ _ _ Hl Hin) as (n & Hn & _). by rewrite Hfresh in Hn.
Qed.

Lemma insh_prev i : (i < lvl)%nat -> has_cell h (update_at path i) i /\ update_at path i <> node.
Proof.
  intros Hi. pose proof (lk_level _ _ _ Hl).
  assert (Hc : has_cell h (update_at path i) i) by (eapply stops_cell; eauto; lia).
  split; [done|]. intros Heq. rewrite Heq in Hc. destruct Hc as (? & ? & ? & Hc & _).
  unfold shape in Hc. by rewrite Hfresh in Hc.
Qed.

Lemma insh_other y : y <> node -> h1 !! y = h !! y.
Proof. intros. unfold h1. by rewrite lookup_insert_ne. Qed.

Lemma insh_cell1 i : (i < lvl)%nat -> has_cell h1 (update_at path i) i.
Proof.
  intros Hi. destruct (insh_prev i Hi) as [Hc Hne]. unfold has_cell, shape in *.
  by rewrite insh_other.
Qed.

Lemma insh_splice_ok i : (i < nl)%nat ->
  has_cell h1 node i /\ has_cell h1 (update_at path i) i /\ update_at path i <> node.
Proof.
  intros Hi. split_and!.
  - exists m, s, nl. unfold shape, h1. rewrite lookup_insert. rewrite decide_True by done. simpl.
    unfold shape_of. simpl. by rewrite !length_replicate.
  - apply insh_cell1. lia.
  - apply insh_prev. lia.
Qed.

Lemma insh_h1 y j : y <> node -> get_fwd h1 y j = get_fwd h y j /\ get_span h1 y j = get_span h y j.
Proof. intros. unfold get_fwd, get_span. by rewrite insh_other. Qed.

Lemma insh_cells :
  same_shape h1 h3 /\ (forall y, get_back h3 y = get_back h1 y) /\
  (forall y j, y <> node ->
     get_fwd h3 y j = if decide ((j < nl)%nat /\ y = update_at path j) then Some node else get_fwd h y j) /\
  (forall j, (j < nl)%nat -> get_fwd h3 node j = get_fwd h (update_at path j) j) /\
  (forall y j, (j < lvl)%nat -> y <> node ->
     get_span h3 y j = if decide (y = update_at path j) then
                         if decide (j < nl)%nat then rank_at path 0 - rank_at path j + 1
                         else get_span h y j + 1
                       else get_span h y j) /\
  (forall j, (j < nl)%nat ->
     get_span h3 node j = get_span h (update_at path j) j - (rank_at path 0 - rank_at path j)).
Proof.
  destruct (splice_fold node path h1 nl insh_splice_ok) as (S2 & B2 & F2 & P2). fold h2 in S2, B2, F2, P2.
  destruct (widen_fold path h2 nl (lvl - nl)) as (S3 & B3 & F3 & P3).
  { intros i Hi. eapply same_shape_cell; [done|]. apply insh_cell1. lia. }
  fold h3 in S3, B3, F3, P3.
  assert (Hp : forall j, (j < nl)%nat -> update_at path j <> node) by (intros j Hj; apply insh_prev; lia).
  split_and!.
  - by eapply same_shape_trans.
  - intros y. by rewrite B3, B2.
  - intros y j Hy. rewrite F3, F2. destruct (insh_h1 y j Hy) as [-> _].
    rewrite (decide_False (P := y = node)) by done. repeat case_decide; tauto.
  - intros j Hj. rewrite F3, F2, !decide_True by done. by apply insh_h1, Hp.
  - intros y j Hj Hy. rewrite P3, P2. destruct (insh_h1 y j Hy) as [_ ->].
    rewrite (decide_False (P := y = node)) by done.
    repeat case_decide; try tauto || lia.
  - intros j Hj. rewrite P3, P2, decide_False by lia. rewrite !decide_True by done.
    destruct (insh_h1 (update_at path j) j) as [_ ->]; [by apply Hp|done].
Qed.

Lemma insh_shape y : shape h3 y = if decide (y = node) then Some (m, s, nl, nl) else shape h y.
Proof.
  destruct insh_cells as (S & _). rewrite S. unfold shape. case_decide as Hy.
  - rewrite Hy. unfold h1. rewrite lookup_insert, decide_True by done. simpl.
    unfold shape_of. simpl. by rewrite !length_replicate.
  - by rewrite insh_other.
Qed.

Lemma insh_linked : linked h3 lvl (A ++ node :: B).
Proof.
  destruct insh_cells as (_ & _ & F & Fn & P & Pn). apply (ins_linked h h3 lvl nl node A B m s path); auto.
  - apply insh_notin.
  - apply insh_shape.
Qed.

Lemma insh_back y : get_back h3 y = if decide (y = node) then None else get_back h y.
Proof.
  destruct insh_cells as (_ & -> & _). unfold get_back. case_decide as Hy.
  - rewrite Hy. unfold h1. by rewrite lookup_insert, decide_True.
  - by rewrite insh_other.
Qed.
End InsertHeap.

Lemma linked_same h h' lvl l :
  linked h lvl l -> same_shape h h' ->
  (forall y i, get_fwd h' y i = get_fwd h y i) -> (forall y i, get_span h' y i = get_span h y i) ->
  linked h' lvl l.
Proof.
  intros Hl Hs Hf Hp. pose proof (lk_level _ _ _ Hl). eapply linked_raise; [done|done|lia|by auto|lia].
Qed.

Lemma link_back_spec node path h nid tl lvl len A B sl' :
  linked h lvl (A ++ node :: B) -> update_at path 0 = cur A -> tl = last (A ++ B) ->
  sl' = link_back node path (mkSkipList h nid tl lvl len) ->
  same_shape h (heap sl') /\ next_id sl' = nid /\ sl_level sl' = lvl /\ sl_length sl' = len + 1 /\
  sl_tail sl' = last (A ++ node :: B) /\
  (forall y i, get_fwd (heap sl') y i = get_fwd h y i) /\
  (forall y i, get_span (heap sl') y i = get_span h y i) /\
  (forall y, get_back (heap sl') y = if decide (y = node) then last A
             else if decide (head B = Some y) then Some node else get_back h y).
Proof.
  intros Hl Hprev -> ->. unfold link_back. simpl. rewrite Hprev.
  pose proof (lk_nodup _ _ _ Hl) as Hnd. apply NoDup_cons in Hnd as [Hh Hnd].
  assert (Hback : (if bool_decide (cur A = header) then None else Some (cur A)) = last A).
  { destruct A as [|a A _] using rev_ind; [done|]. rewrite cur_snoc, last_snoc.
    rewrite bool_decide_false; [done|]. intros ->. apply Hh. in_list. }
  rewrite Hback, get_fwd_set_backward.
  assert (get_fwd h node 0 = head B) as ->.
  { destruct (lk_link _ _ _ Hl 0%nat (A ++ [node]) B) as [F _].
    - pose proof (lk_level _ _ _ Hl). lia.
    - by rewrite <- app_assoc.
    - right. rewrite cur_snoc. destruct (linked_lookup _ _ _ node Hl) as (n & _ & _ & Hn); [in_list|lia].
    - rewrite cur_snoc in F. rewrite F. eapply (link_0 h lvl _ (A ++ [node])); [done|].
      by rewrite <- app_assoc. }
  assert (Hc : is_Some (h !! node)) by (destruct (linked_lookup _ _ _ node Hl) as (n & ? & _); [in_list|by eexists]).
  destruct B as [|b B]; simpl.
  - split_and!; try done; try (intros; by rewrite ?get_fwd_set_backward, ?get_span_set_backward).
    + apply shape_set_backward.
    + by rewrite last_snoc.
    + intros y. rewrite get_back_set_backward by done. by repeat case_decide.
  - assert (Hcb : is_Some (set_backward node (last A) h !! b)).
    { destruct (linked_lookup _ _ _ b Hl) as (n & Hn & _); [in_list|].
      unfold set_backward. apply lookup_alter_is_Some. by eexists. }
    split_and!; try done; try (intros; by rewrite ?get_fwd_set_backward, ?get_span_set_backward).
    + eapply same_shape_trans; apply shape_set_backward.
    + rewrite !last_app, !last_cons. by destruct (last B).
    + intros y. rewrite !get_back_set_backward by done.
      apply NoDup_app in Hnd as (_ & _ & Hnd). apply NoDup_cons in Hnd as [Hn _].
      rewrite not_elem_of_cons in Hn. repeat case_decide; simplify_eq/=; tauto || congruence.
Qed.

(** A representation in front of and behind a key. *)
Definition splits (h : gmap nat Node) (k : pystr) (A B : list nat) : Prop :=
  Forall (fun x => str_cmp (key h x) k = Lt) A /\ Forall (fun x => str_cmp (key h x) k <> Lt) B.

Lemma go_prefix_intro h lvl go (P : nat -> Prop) A B :
  linked h lvl (A ++ B) ->
  (forall x n r, x ∈ A ++ B -> h !! x = Some n -> go r n = true <-> P x) ->
  Forall P A -> Forall (fun x => ~ P x) B -> go_prefix h go A B.
Proof.
  intros Hl Hgo HA HB u y v n Huv Hn.
  assert (Hy : y ∈ A ++ B) by (rewrite Huv; in_list).
  specialize (Hgo y n (Z.of_nat (length u) + 1) Hy Hn).
  rewrite Forall_forall in HA, HB.
  destruct (app_eq_inv _ _ _ _ Huv) as [(k & -> & Hk)|(k & -> & Hk)].
  - destruct k as [|z k]; simpl in Hk.
    + rewrite bool_decide_false by (rewrite length_app; simpl; lia).
      apply not_true_is_false. rewrite Hgo. apply HB. rewrite <- Hk. left.
    + injection Hk as -> ->. rewrite bool_decide_true by (rewrite length_app; simpl; lia).
      apply Hgo, HA. in_list.
  - rewrite bool_decide_false by (rewrite length_app; lia).
    apply not_true_is_false. rewrite Hgo. apply HB. rewrite Hk. in_list.
Qed.

Lemma before_prefix h lvl s m A B :
  linked h lvl (A ++ B) -> is_nan s = false -> splits h (zkey s m) A B ->
  go_prefix h (fun _ => before s m) A B.
Proof.
  intros Hl Hs [HA HB]. eapply (go_prefix_intro h lvl _ (fun x => str_cmp (key h x) (zkey s m) = Lt)); try done.
  intros x n r Hx Hn. destruct (linked_lookup _ _ _ x Hl Hx) as (n' & Hn' & Hnan & _).
  simplify_eq. rewrite before_key by done. unfold key, str_ltb. rewrite Hn.
  by destruct (str_cmp _ _).
Qed.

Lemma stops_same_shape h h' A i x r : same_shape h h' -> stops h A i x r -> stops h' A i x r.
Proof.
  intros Hs (u & w & HA & Hx & Hr & Hu & Hw). exists u, w. split_and!; try done.
  - by apply (same_shape_on_level h).
  - eapply Forall_impl; [exact Hw|]. intros y Hy. by rewrite (same_shape_tall h).
Qed.

Lemma shape_key h x m s k j : shape h x = Some (m, s, k, j) -> key h x = zkey s m.
Proof. unfold shape, key. destruct (h !! x); [|done]. by intros [= <- <- _ _]. Qed.

Lemma shape_None h x : shape h x = None <-> h !! x = None.
Proof. unfold shape. by destruct (h !! x). Qed.

Lemma shape_same_key h h' x : shape h' x = shape h x -> key h' x = key h x.
Proof. unfold shape, key. destruct (h !! x), (h' !! x); try done. by intros [= -> -> _ _]. Qed.

(** The new node linked into a list whose level is already high enough. *)
Lemma sl_link_rep sr A B lvl s m path
    (node := next_id sr)
    (h1 := <[node := new_node lvl m s]> (heap sr))
    (h3 := fold_left (widen path) (seq lvl (sl_level sr - lvl)) (fold_left (splice node path) (seq 0 lvl) h1))
    (sl' := link_back node path (mkSkipList h3 (S node) (sl_tail sr) (sl_level sr) (sl_length sr))) :
  rep sr (A ++ B) -> is_nan s = false -> (1 <= lvl <= sl_level sr)%nat ->
  (forall i, stops (heap sr) A i (update_at path i) (rank_at path i)) ->
  Forall (fun x => str_cmp (key (heap sr) x) (zkey s m) = Lt) A ->
  Forall (fun x => str_cmp (zkey s m) (key (heap sr) x) = Lt) B ->
  rep sl' (A ++ node :: B) /\
  (forall y, shape (heap sl') y = if decide (y = node) then Some (m, s, lvl, lvl) else shape (heap sr) y).
Proof.
  intros Hr Hnan Hnl Hst HA HB. pose proof (rep_linked _ _ Hr) as Hl.
  assert (Hfresh : heap sr !! node = None) by (apply (rep_fresh _ _ Hr); unfold node; lia).
  pose proof (insh_linked (heap sr) (sl_level sr) lvl node A B m s path Hl Hst Hfresh Hnl Hnan) as Hl3.
  pose proof (insh_shape (heap sr) (sl_level sr) lvl node A B m s path Hl Hst Hfresh Hnl) as Hs3.
  pose proof (insh_back (heap sr) (sl_level sr) lvl node A B m s path Hl Hst Hfresh Hnl) as Hb3.
  pose proof (insh_cells (heap sr) (sl_level sr) lvl node A B m s path Hl Hst Hfresh Hnl) as (_ & _ & F3 & _).
  assert (node <> header /\ node ∉ A ++ B) as [Hnh Hnin] by (eapply insh_notin; eauto).
  fold h1 h3 in Hl3, Hs3, Hb3, F3. clearbody h3.
  destruct (link_back_spec node path h3 (S node) (sl_tail sr) (sl_level sr) (sl_length sr) A B sl')
    as (S4 & I4 & L4 & N4 & T4 & F4 & P4 & B4);
    [done|by destruct (stops_0 _ _ _ _ _ _ Hl (Hst 0%nat))|apply (rep_tail _ _ Hr)|reflexivity|].
  clearbody sl'.
  assert (Hs4 : forall y, shape (heap sl') y = if decide (y = node) then Some (m, s, lvl, lvl) else shape (heap sr) y)
    by (intros y; by rewrite S4, Hs3).
  split; [|done]. split.
  - rewrite L4. by eapply linked_same.
  - intros i Hi. rewrite L4 in Hi. rewrite F4, F3 by (by apply not_eq_sym). rewrite decide_False by lia.
    apply (rep_top _ _ Hr). lia.
  - intros x Hx. apply shape_None. rewrite Hs4, decide_False by lia.
    apply shape_None, (rep_fresh _ _ Hr). unfold node in *. lia.
  - eapply (ins_back (heap sr)); [|apply (rep_back _ _ Hr)|].
    + pose proof (lk_nodup _ _ _ Hl3) as Hnd. by apply NoDup_cons in Hnd as [_ Hnd].
    + intros y. rewrite B4, Hb3. by repeat case_decide.
  - done.
  - rewrite N4, (rep_length _ _ Hr), !length_app. simpl. lia.
  - assert (Hk : forall y, y ∈ A ++ B -> key (heap sl') y = key (heap sr) y).
    { intros y Hy. apply shape_same_key. rewrite Hs4, decide_False; [done|]. by intros ->. }
    assert (Hkn : key (heap sl') node = zkey s m)
      by (eapply shape_key; by rewrite Hs4, decide_True).
    rewrite Forall_forall in HA, HB. apply sorted_insert.
    + eapply sorted_ext, (rep_sorted _ _ Hr). intros x y Hx Hy. unfold key_lt. by rewrite !Hk.
    + intros y Hy. unfold key_lt. rewrite Hkn, Hk by in_list. by apply HA.
    + intros y Hy. unfold key_lt. rewrite Hkn, Hk by in_list. by apply HB.
Qed.

(** Inserting puts the node at its place in the order and keeps everything else. *)
Lemma sl_insert_at_rep sl A B lvl s m :
  rep sl (A ++ B) -> is_nan s = false -> (1 <= lvl <= MAX_LEVEL)%nat ->
  splits (heap sl) (zkey s m) A B -> Forall (fun x => key (heap sl) x <> zkey s m) B ->
  let sl' := sl_insert_at lvl s m sl in
  rep sl' (A ++ next_id sl :: B) /\
  (forall y, shape (heap sl') y =
     if decide (y = next_id sl) then Some (m, s, lvl, lvl) else shape (heap sl) y).
Proof.
  intros Hr Hnan Hlvl Hsp Hne. cbv zeta. unfold sl_insert_at.
  pose proof (search_stops sl _ A B _ Hr eq_refl (before_prefix _ _ _ _ _ _ (rep_linked _ _ Hr) Hnan Hsp)) as Hst.
  destruct (raise_level_rep lvl sl _ Hr) as (Hr' & Hss & Hid & Hle); [lia|].
  destruct (sl_link_rep (raise_level lvl sl) A B lvl s m (search sl (fun _ => before s m)))
    as [Hrep Hshape]; try done.
  - lia.
  - intros i. by eapply stops_same_shape.
  - destruct Hsp as [HA _]. eapply Forall_impl; [exact HA|]. intros x Hx.
    by rewrite (same_shape_key _ _ _ Hss).
  - destruct Hsp as [_ HB]. rewrite Forall_forall in *. intros x Hx.
    rewrite (same_shape_key _ _ _ Hss), str_cmp_antisym.
    specialize (HB x Hx). specialize (Hne x Hx).
    destruct (str_cmp _ _) eqn:E; [|done|done]. by apply str_cmp_eq in E.
  - rewrite Hid in *. split; [done|]. intros y. rewrite Hshape. case_decide; [done|]. apply Hss.
Qed.
