(* ===== verification/SkipListDelete.v ===== *)
(** Deletion from the skip list (datatypes/skiplist.py, [SkipList.delete] and
    [_unlink]): the node is unlinked from every level it takes part in, spans
    over it shrink by one, the backward pointer and the tail are repaired, and
    empty top levels are dropped. *)
From S2P Require Import Prelude PyStr PyFloat Oracles SkipList SkipListProofs.

Section Unsplice.
Context (x : nat) (path : list (nat * Z)) (h : gmap nat Node).

Lemma unsplice_cells i g :
  has_cell g (update_at path i) i -> update_at path i <> x ->
  let g' := unsplice x path g i in
  same_shape g g' /\ (forall y, get_back g' y = get_back g y) /\
  (forall y j, get_fwd g' y j =
     if decide (j = i /\ y = update_at path i /\ get_fwd g (update_at path i) i = Some x)
     then get_fwd g x i else get_fwd g y j) /\
  (forall y j, get_span g' y j =
     if decide (j = i /\ y = update_at path i) then
       if decide (get_fwd g (update_at path i) i = Some x)
       then get_span g y j + (get_span g x i - 1) else get_span g y j - 1
     else get_span g y j).
Proof.
  intros Hc Hne. unfold unsplice. case_bool_decide as Hx; cbv zeta.
  - assert (Hc' : has_cell (set_span (update_at path i) i
        (get_span g (update_at path i) i + (get_span g x i - 1)) g) (update_at path i) i)
      by (eapply same_shape_cell; [apply shape_set_span|done]).
    split_and!.
    + eapply same_shape_trans; [apply shape_set_span|apply shape_set_fwd].
    + intros y. by rewrite get_back_set_fwd, get_back_set_span.
    + intros y j. rewrite get_fwd_set_fwd, !get_fwd_set_span by done. repeat case_decide; tauto.
    + intros y j. rewrite get_span_set_fwd, get_span_set_span by done.
      destruct (decide (y = update_at path i)) as [->|]; [|repeat case_decide; tauto].
      destruct (decide (j = i)) as [->|]; [|repeat case_decide; tauto].
      by rewrite !decide_True by done.
  - split_and!.
    + apply shape_set_span.
    + intros y. by rewrite get_back_set_span.
    + intros y j. rewrite get_fwd_set_span. by rewrite decide_False by tauto.
    + intros y j. rewrite get_span_set_span by done.
      destruct (decide (y = update_at path i)) as [->|]; [|repeat case_decide; tauto].
      destruct (decide (j = i)) as [->|]; [|repeat case_decide; tauto].
      by rewrite !decide_True, decide_False by done.
Qed.

Lemma unsplice_fold n :
  (forall i, (i < n)%nat -> has_cell h (update_at path i) i /\ update_at path i <> x) ->
  let h' := fold_left (unsplice x path) (seq 0 n) h in
  same_shape h h' /\ (forall y, get_back h' y = get_back h y) /\
  (forall y j, get_fwd h' y j =
     if decide ((j < n)%nat /\ y = update_at path j /\ get_fwd h (update_at path j) j = Some x)
     then get_fwd h x j else get_fwd h y j) /\
  (forall y j, get_span h' y j =
     if decide ((j < n)%nat /\ y = update_at path j) then
       if decide (get_fwd h (update_at path j) j = Some x)
       then get_span h y j + (get_span h x j - 1) else get_span h y j - 1
     else get_span h y j).
Proof.
  induction n as [|n IH]; intros Hc.
  { split_and!; try done; intros; by rewrite decide_False by lia. }
  rewrite seq_S, fold_left_app. cbn [fold_left Nat.add].
  destruct IH as (S1 & B1 & F1 & P1); [intros; apply Hc; lia|].
  set (h1 := fold_left _ (seq 0 n) h) in *. destruct (Hc n) as [C1 C2]; [lia|].
  destruct (unsplice_cells n h1) as (S2 & B2 & F2 & P2); [by eapply same_shape_cell|done|].
  split_and!.
  - by eapply same_shape_trans.
  - intros y. by rewrite B2.
  - intros y j. rewrite F2, !F1. rewrite (decide_False (P := (n < n)%nat /\ update_at path n = _ /\ _)) by lia.
    rewrite (decide_False (P := (n < n)%nat /\ x = _ /\ _)) by lia.
    destruct (decide (j = n)) as [->|]; repeat case_decide; solve [done | naive_solver lia].
  - intros y j. rewrite P2, !P1, !F1.
    rewrite (decide_False (P := (n < n)%nat /\ update_at path n = _ /\ _)) by lia.
    rewrite (decide_False (P := (n < n)%nat /\ x = _)) by lia.
    destruct (decide (j = n)) as [->|].
    + rewrite (decide_False (P := (n < n)%nat /\ y = _)) by lia. repeat case_decide; solve [done | naive_solver lia].
    + rewrite (decide_False (P := j = n /\ _)) by tauto. repeat case_decide; solve [done | naive_solver lia].
Qed.
End Unsplice.

(** ** The links without the node *)
Section DeleteLinked.
Context (h h' : gmap nat Node) (lvl x : nat) (A B : list nat) (path : list (nat * Z)).
Let prev := update_at path.
Hypothesis Hl : linked h lvl (A ++ x :: B).
Hypothesis Hstop : forall i, stops h A i (prev i) (rank_at path i).
Hypothesis Hshape : same_shape h h'.
Hypothesis Hf : forall y j, (j < lvl)%nat -> get_fwd h' y j =
  if decide (y = prev j /\ get_fwd h (prev j) j = Some x) then get_fwd h x j else get_fwd h y j.
Hypothesis Hs : forall y j, (j < lvl)%nat -> get_span h' y j =
  if decide (y = prev j) then
    if decide (get_fwd h (prev j) j = Some x)
    then get_span h y j + (get_span h x j - 1) else get_span h y j - 1
  else get_span h y j.

Lemma del_x_notin : (x ∉ B) /\ NoDup (header :: A ++ B).
Proof.
  pose proof (lk_nodup _ _ _ Hl) as Hnd. split.
  - apply NoDup_cons in Hnd as [_ Hnd]. apply NoDup_app in Hnd as (_ & _ & Hnd).
    by apply NoDup_cons in Hnd as [? _].
  - eapply sublist_NoDup; [exact Hnd|]. apply sublist_skip, sublist_app; [done|by apply sublist_cons].
Qed.

Lemma del_link_x i : (i < lvl)%nat -> tall h i x = true ->
  get_fwd h x i = (link (tall h i) B).1 /\ get_span h x i = (link (tall h i) B).2.
Proof.
  intros Hi Ht. destruct (lk_link _ _ _ Hl i (A ++ [x]) B Hi) as [F S].
  - by rewrite <- app_assoc.
  - right. rewrite cur_snoc. by apply bool_decide_eq_true in Ht.
  - rewrite cur_snoc in *. done.
Qed.

Lemma del_fwd_x i s : link (tall h i) B = s -> s.1 <> Some x.
Proof.
  intros <-. destruct del_x_notin as [Hx _].
  destruct (tall_split (tall h i) B) as [HB|(m & y & s' & HB & Hm & Hy)].
  - by rewrite link_none.
  - rewrite HB, link_found by done. simpl. intros [= ->]. apply Hx. rewrite HB. in_list.
Qed.

Lemma del_link_before i u w :
  (i < lvl)%nat -> A = u ++ w -> on_level h i u ->
  get_fwd h' (cur u) i = (link (tall h i) (w ++ B)).1 /\
  get_span h' (cur u) i = (link (tall h i) (w ++ B)).2.
Proof.
  intros Hi HA Hu. pose proof (lk_nodup _ _ _ Hl) as Hnd.
  destruct (lk_link _ _ _ Hl i u (w ++ x :: B) Hi) as [F1 S1]; [by rewrite HA, <- app_assoc|done|].
  rewrite Hf, Hs by done. destruct (tall_split (tall h i) w) as [Hw|(m1 & y & w' & Hw & Hm & Hy)].
  - destruct (stops_at h A (x :: B) i _ _ u w Hnd (Hstop i) HA Hu Hw) as [Hp _]. fold prev in Hp.
    rewrite Hp, F1, S1. rewrite !link_skip by done. cbn [link fst snd].
    destruct (tall h i x) eqn:Ht; cbn [fst snd].
    + rewrite !decide_True by done. destruct (del_link_x i Hi Ht) as [-> ->]. split; [done|lia].
    + pose proof (del_fwd_x i _ eq_refl). rewrite decide_False by tauto.
      rewrite decide_True, decide_False by done. split; [done|lia].
  - assert (cur u <> prev i) as Hcp.
    { intros Heq. destruct (Hstop i) as (u2 & w2 & HA2 & Hx & _ & _ & Hw2).
      fold (prev i) in Hx. rewrite Hx in Heq.
      destruct (cur_inj (A ++ x :: B) u (w ++ x :: B) u2 (w2 ++ x :: B)) as [-> Hww]; try done.
      { by rewrite HA, <- app_assoc. } { by rewrite HA2, <- app_assoc. }
      apply app_inv_tail in Hww. rewrite <- Hww, Hw, Forall_app, Forall_cons in Hw2.
      destruct Hw2 as (_ & Hy2 & _). congruence. }
    rewrite !decide_False by tauto. rewrite F1, S1, Hw, <- !app_assoc, <- !app_comm_cons.
    by rewrite !link_found.
Qed.

Lemma del_link_after i u v :
  (i < lvl)%nat -> B = u ++ v -> u <> [] -> on_level h i (A ++ u) ->
  get_fwd h' (cur (A ++ u)) i = (link (tall h i) v).1 /\
  get_span h' (cur (A ++ u)) i = (link (tall h i) v).2.
Proof.
  intros Hi HB Hne Hu. destruct u as [|z u _] using rev_ind; [done|].
  assert (Hcur : cur (A ++ u ++ [z]) = cur (A ++ x :: u ++ [z])).
  { rewrite app_comm_cons, !app_assoc, !cur_snoc. done. }
  assert (Hol : on_level h i (A ++ x :: u ++ [z])).
  { right. destruct Hu as [Hu|Hu]; [by destruct A, u|]. by rewrite <- Hcur. }
  destruct (lk_link _ _ _ Hl i (A ++ x :: u ++ [z]) v Hi) as [F1 S1];
    [rewrite HB; by simplify_list_eq|done|].
  assert (Hcp : cur (A ++ x :: u ++ [z]) <> prev i).
  { intros Heq. destruct (Hstop i) as (u2 & w2 & HA2 & Hx & _). fold (prev i) in Hx.
    rewrite Hx in Heq.
    destruct (cur_inj (A ++ x :: B) (A ++ x :: u ++ [z]) v u2 (w2 ++ x :: B)) as [E _]; try done.
    - apply (lk_nodup _ _ _ Hl).
    - rewrite HB; by simplify_list_eq.
    - by rewrite HA2, <- app_assoc.
    - apply (f_equal length) in E. rewrite HA2, !length_app in E. simpl in E. lia. }
  rewrite Hcur, Hf, Hs, !decide_False, F1, S1 by tauto. done.
Qed.

Lemma del_linked : linked h' lvl (A ++ B).
Proof.
  split.
  - apply del_x_notin.
  - destruct (lk_header _ _ _ Hl) as (m0 & s0 & H). exists m0, s0. by rewrite Hshape.
  - intros y Hy. rewrite Hshape. apply (lk_node _ _ _ Hl).
    rewrite elem_of_app, elem_of_cons. rewrite elem_of_app in Hy. tauto.
  - apply (lk_level _ _ _ Hl).
  - intros i u v Hi Huv Hu. rewrite (same_shape_on_level h) in Hu by done.
    rewrite (link_ext _ (tall h i)) by (intros; by apply same_shape_tall).
    destruct (app_eq_inv _ _ _ _ Huv) as [(w & HA & Hv)|(w & Hw & Hv)].
    + rewrite Hv. by apply del_link_before.
    + destruct (decide (w = [])) as [->|Hne].
      * rewrite app_nil_r in Hw. simpl in Hv. rewrite <- Hv.
        apply (del_link_before i u []); [done|by rewrite app_nil_r|done].
      * rewrite Hw in *. by apply del_link_after.
Qed.
End DeleteLinked.

Lemma del_back (h h' : gmap nat Node) x A B :
  NoDup (A ++ x :: B) ->
  (forall u y v, A ++ x :: B = u ++ y :: v -> get_back h y = last u) ->
  (forall y, get_back h' y = if decide (head B = Some y) then last A else get_back h y) ->
  forall u y v, A ++ B = u ++ y :: v -> get_back h' y = last u.
Proof.
  intros Hnd Hb Hb' u y v Heq. rewrite Hb'.
  destruct (app_eq_inv _ _ _ _ Heq) as [(k & -> & Hk)|(k & -> & Hk)].
  - destruct k as [|z k]; simpl in Hk.
    + rewrite <- Hk, app_nil_r. by rewrite decide_True.
    + injection Hk as -> ->. rewrite decide_False.
      * apply (Hb u z (k ++ x :: B)). by rewrite <- app_assoc.
      * intros Hh. destruct B as [|b B]; [done|]. injection Hh as ->.
        apply NoDup_app in Hnd as (_ & Hd & _). apply (Hd z); in_list.
  - destruct k as [|z k].
    + simpl in Hk. rewrite Hk, app_nil_r. by rewrite decide_True.
    + rewrite decide_False.
      * rewrite (Hb (A ++ x :: z :: k) y v) by (rewrite Hk; by simplify_list_eq).
        rewrite !last_app, !last_cons. by destruct (last k).
      * rewrite Hk. intros [= ->]. rewrite Hk in Hnd. apply NoDup_app in Hnd as (_ & _ & Hnd).
        apply NoDup_cons in Hnd as [_ Hnd]. simpl in Hnd. apply NoDup_cons in Hnd as [Hn _].
        apply Hn. in_list.
Qed.

(** ** Dropping empty levels *)
Lemma lower_level_spec h lvl :
  (1 <= lvl)%nat ->
  (1 <= lower_level h lvl <= lvl)%nat /\
  forall i, (lower_level h lvl <= i < lvl)%nat -> get_fwd h header i = None.
Proof.
  induction lvl as [|[|lvl] IH]; intros Hlvl; [lia|simpl; split; lia|].
  change (lower_level h (S (S lvl))) with
    (match get_fwd h header (S lvl) with None => lower_level h (S lvl) | _ => S (S lvl) end).
  destruct (get_fwd h header (S lvl)) eqn:E; [split; lia|].
  destruct IH as [H1 H2]; [lia|]. split; [lia|]. intros i Hi.
  destruct (decide (i = S lvl)) as [->|]; [done|]. apply H2. lia.
Qed.

Lemma linked_lower h lvl l :
  linked h lvl l -> linked h (lower_level h lvl) l.
Proof.
  intros Hl. pose proof (lk_level _ _ _ Hl) as Hlvl.
  destruct (lower_level_spec h lvl) as [H1 H2]; [lia|].
  split; try apply Hl.
  - intros x Hx. destruct (lk_node _ _ _ Hl x Hx) as (m & s & k & Hs & Hk & Hn).
    exists m, s, k. split_and!; try done; try lia.
    destruct (decide (k <= lower_level h lvl)%nat) as [|Hgt]; [done|]. exfalso.
    destruct (lk_link _ _ _ Hl (lower_level h lvl) [] l) as [F _]; [lia|done|by left|].
    change (cur []) with header in F. rewrite H2 in F by lia. symmetry in F.
    apply link_None_short in F. rewrite Forall_forall in F. specialize (F x Hx).
    apply bool_decide_eq_false in F. rewrite (shape_height _ _ _ _ _ _ Hs) in F. lia.
  - lia.
  - intros i u v Hi. apply (lk_link _ _ _ Hl). lia.
Qed.

(** ** Unlinking a node *)

(** The backward pointer, the tail, the level and the length, once the levels
    no longer mention the node. *)
Lemma unlink_finish sl A x B h1
    (h2 := match head B with Some after => set_backward after (last A) h1 | None => h1 end)
    (sl' := mkSkipList h2 (next_id sl) (last (A ++ B)) (lower_level h2 (sl_level sl)) (sl_length sl - 1)) :
  rep sl (A ++ x :: B) -> linked h1 (sl_level sl) (A ++ B) -> same_shape (heap sl) h1 ->
  (forall y, get_back h1 y = get_back (heap sl) y) ->
  (forall i, (sl_level sl <= i)%nat -> get_fwd h1 header i = None) ->
  rep sl' (A ++ B) /\ same_shape (heap sl) (heap sl').
Proof.
  intros Hr Hl1 S1 B1 T1.
  pose proof (lk_nodup _ _ _ (rep_linked _ _ Hr)) as Hnd. apply NoDup_cons in Hnd as [_ Hnd].
  assert (Hss : same_shape h1 h2) by (unfold h2; destruct (head B); [apply shape_set_backward|done]).
  assert (Hf : forall y i, get_fwd h2 y i = get_fwd h1 y i)
    by (intros; unfold h2; destruct (head B); [apply get_fwd_set_backward|done]).
  assert (Hp : forall y i, get_span h2 y i = get_span h1 y i)
    by (intros; unfold h2; destruct (head B); [apply get_span_set_backward|done]).
  assert (Hb : forall y, get_back h2 y = if decide (head B = Some y) then last A else get_back (heap sl) y).
  { intros y. rewrite <- B1. unfold h2. destruct B as [|b B]; simpl; [done|].
    destruct (linked_lookup _ _ _ b Hl1) as (n & Hn & _); [in_list|].
    rewrite get_back_set_backward by (by eexists). repeat case_decide; congruence. }
  assert (Hl2 : linked h2 (sl_level sl) (A ++ B)) by (by eapply linked_same).
  pose proof (lk_level _ _ _ Hl2) as Hlvl.
  destruct (lower_level_spec h2 (sl_level sl)) as [L1 L2]; [lia|].
  assert (Hs : same_shape (heap sl) h2) by (by eapply same_shape_trans).
  split; [|done]. split; simpl.
  - by apply linked_lower.
  - intros i Hi. destruct (decide (i < sl_level sl)%nat); [apply L2; lia|].
    rewrite Hf. apply T1. lia.
  - intros y Hy. apply shape_None. rewrite Hs. by apply shape_None, (rep_fresh _ _ Hr).
  - eapply (del_back (heap sl) h2 x A B); [done|apply (rep_back _ _ Hr)|done].
  - done.
  - rewrite (rep_length _ _ Hr), !length_app. simpl. lia.
  - pose proof (rep_sorted _ _ Hr) as Hsort.
    assert (Hsub : StronglySorted (key_lt (heap sl)) (A ++ B)).
    { apply StronglySorted_app. apply StronglySorted_app in Hsort as (H1 & H2 & H3).
      inversion H3; subst. split_and!; try done. intros a b Ha Hb'. apply H1; [done|in_list]. }
    eapply sorted_ext, Hsub. intros a b _ _. unfold key_lt. by rewrite !(same_shape_key _ _ _ Hs).
Qed.

Lemma stops_not_node h lvl A x B path i :
  linked h lvl (A ++ x :: B) -> stops h A i (update_at path i) (rank_at path i) ->
  update_at path i <> x.
Proof.
  intros Hl (u & w & HA & Hx & _) Heq. rewrite Heq in Hx.
  pose proof (lk_nodup _ _ _ Hl) as Hnd. apply NoDup_cons in Hnd as [Hh Hnd].
  destruct u as [|z u _] using rev_ind.
  - apply Hh. unfold cur in Hx. simpl in Hx. rewrite <- Hx. in_list.
  - rewrite cur_snoc in Hx. rewrite <- Hx in HA. apply NoDup_app in Hnd as (_ & Hd & _).
    apply (Hd x); [rewrite HA; in_list|in_list].
Qed.

Lemma sl_unlink_rep sl A x B path :
  rep sl (A ++ x :: B) ->
  (forall i, stops (heap sl) A i (update_at path i) (rank_at path i)) ->
  let sl' := sl_unlink x path sl in
  rep sl' (A ++ B) /\ same_shape (heap sl) (heap sl').
Proof.
  intros Hr Hst. pose proof (rep_linked _ _ Hr) as Hl. pose proof (lk_level _ _ _ Hl) as Hlvl.
  destruct (unsplice_fold x path (heap sl) (sl_level sl)) as (S1 & B1 & F1 & P1).
  { intros i Hi. split; [eapply stops_cell; eauto; lia|by eapply stops_not_node]. }
  cbv zeta. unfold sl_unlink. set (h1 := fold_left _ _ _) in *. clearbody h1.
  assert (Hl1 : linked h1 (sl_level sl) (A ++ B)).
  { eapply (del_linked (heap sl) h1 _ x A B path); eauto.
    - intros y j Hj. rewrite F1. repeat case_decide; tauto.
    - intros y j Hj. rewrite P1. repeat case_decide; tauto. }
  change (n ← h1 !! x; n_backward n) with (get_back h1 x).
  assert (get_back h1 x = last A) as -> by (rewrite B1; by eapply rep_back).
  assert (get_fwd h1 x 0 = head B) as ->.
  { rewrite F1, decide_False by (intros (_ & E & _); by apply (stops_not_node _ _ _ _ _ _ _ Hl (Hst 0%nat))).
    destruct (linked_lookup _ _ _ x Hl) as (n & _ & _ & Hn); [in_list|].
    destruct (del_link_x (heap sl) (sl_level sl) x A B Hl 0) as [-> _];
      [lia|apply bool_decide_eq_true; lia|].
    eapply (link_0 _ _ _ (A ++ [x])); [done|by rewrite <- app_assoc]. }
  destruct (unlink_finish sl A x B h1) as [R S]; auto.
  { intros i Hi. rewrite F1, decide_False by lia. by apply (rep_top _ _ Hr). }
  destruct B as [|b B]; simpl in *.
  - by rewrite app_nil_r in *.
  - assert (sl_tail sl = last (A ++ b :: B)) as ->; [|done].
    rewrite (rep_tail _ _ Hr), !last_app, !last_cons. by destruct (last B).
Qed.

(** ** Deleting by score and member *)
Lemma zkey_inj s m s' m' : zkey s m = zkey s' m' <-> fkey s = fkey s' /\ m = m'.
Proof.
  unfold zkey. split; [|by intros [-> ->]]. intros H. by apply app_inj_1 in H; [|rewrite !fkey_length].
Qed.

(** A sorted list splits at any key. *)
Lemma sorted_splits h k l :
  StronglySorted (key_lt h) l -> exists A B, l = A ++ B /\ splits h k A B.
Proof.
  induction 1 as [|x l Hs IH Hx]; [by exists [], []|].
  destruct (decide (str_cmp (key h x) k = Lt)) as [Hlt|Hge].
  - destruct IH as (A & B & -> & HA & HB). exists (x :: A), B. split; [done|split; [by constructor|done]].
  - exists [], (x :: l). split; [done|split; [constructor|]]. constructor; [done|].
    eapply Forall_impl; [exact Hx|]. intros y Hy Hlt. apply Hge. by eapply str_cmp_trans.
Qed.

(** The node in front of which a search for (s, m) stops. *)
Lemma search_head sl A B s m :
  rep sl (A ++ B) -> is_nan s = false -> splits (heap sl) (zkey s m) A B ->
  get_fwd (heap sl) (update_at (search sl (fun _ => before s m)) 0) 0 = head B.
Proof.
  intros Hr Hnan Hsp. pose proof (rep_linked _ _ Hr) as Hl.
  pose proof (search_stops sl _ A B _ Hr eq_refl (before_prefix _ _ _ _ _ _ Hl Hnan Hsp) 0%nat) as Hst.
  destruct (stops_0 _ _ _ _ _ _ Hl Hst) as [-> _].
  pose proof (lk_level _ _ _ Hl). destruct (lk_link _ _ _ Hl 0%nat A B) as [-> _]; [lia|done| |].
  - destruct A as [|a A _] using rev_ind; [by left|right]. rewrite cur_snoc.
    destruct (linked_lookup _ _ _ a Hl) as (n & _ & _ & Hn); [in_list|lia].
  - by eapply link_0.
Qed.

(** The (score, member) test of [delete] and [rank] is equality of keys. *)
Lemma node_matches h x n s m :
  h !! x = Some n -> is_nan s = false -> is_nan (n_score n) = false ->
  (feq (n_score n) s = true /\ n_member n = m) <-> key h x = zkey s m.
Proof.
  intros Hn Hs Hns. unfold key. rewrite Hn, zkey_inj, feq_key by done.
  by rewrite bool_decide_eq_true.
Qed.

Lemma sl_delete_hit sl A x B s m :
  rep sl (A ++ x :: B) -> is_nan s = false -> key (heap sl) x = zkey s m ->
  exists sl', sl_delete s m sl = (true, sl') /\ rep sl' (A ++ B) /\ same_shape (heap sl) (heap sl').
Proof.
  intros Hr Hnan Hx. pose proof (rep_linked _ _ Hr) as Hl.
  assert (Hsp : splits (heap sl) (zkey s m) A (x :: B)).
  { pose proof (rep_sorted _ _ Hr) as Hs. apply StronglySorted_app in Hs as (H1 & _ & H2).
    unfold key_lt in *. split.
    - apply Forall_forall. intros y Hy. rewrite <- Hx. apply H1; [done|in_list].
    - constructor; [by rewrite Hx, str_cmp_refl|]. inversion H2 as [|? ? _ H3]; subst.
      eapply Forall_impl; [exact H3|]. intros y Hy. rewrite <- Hx, str_cmp_antisym, Hy. done. }
  destruct (linked_lookup _ _ _ x Hl) as (n & Hn & Hnn & _); [in_list|].
  apply (node_matches _ _ _ _ _ Hn Hnan Hnn) in Hx as [Hf Hm].
  unfold sl_delete. rewrite (search_head sl A (x :: B)) by done. cbn [head]. rewrite Hn, Hf.
  rewrite bool_decide_true by done. cbn [negb orb]. eexists. split; [done|].
  apply sl_unlink_rep; [done|]. eapply search_stops; [done|done|]. by eapply before_prefix.
Qed.

Lemma sl_delete_miss sl l s m :
  rep sl l -> is_nan s = false -> (forall x, x ∈ l -> key (heap sl) x <> zkey s m) ->
  sl_delete s m sl = (false, sl).
Proof.
  intros Hr Hnan Hno. pose proof (rep_linked _ _ Hr) as Hl.
  destruct (sorted_splits (heap sl) (zkey s m) l (rep_sorted _ _ Hr)) as (A & B & -> & Hsp).
  unfold sl_delete. rewrite (search_head sl A B) by done.
  destruct B as [|x B]; [done|]. cbn [head].
  destruct (linked_lookup _ _ _ x Hl) as (n & Hn & Hnn & _); [in_list|]. rewrite Hn.
  specialize (Hno x). rewrite <- (node_matches _ _ n) in Hno by done.
  destruct (feq (n_score n) s); cbn [negb orb]; [|done].
  case_bool_decide; [|done]. exfalso. apply Hno; [in_list|done].
Qed.
