(* ===== verification/SkipListQuery.v ===== *)
(** The queries of the skip list (datatypes/skiplist.py): rank, element by
    rank, first and last element of a score range, and iteration in both
    directions, each against the list the structure represents. *)
From S2P Require Import Prelude PyStr PyFloat Oracles SkipList SkipListProofs SkipListDelete.

Definition member_of (h : gmap nat Node) (x : nat) : pystr := default [] (n_member <$> h !! x).
Definition score_of (h : gmap nat Node) (x : nat) : float := default fzero (n_score <$> h !! x).

Lemma key_member_score h lvl l x :
  linked h lvl l -> x ∈ l -> key h x = zkey (score_of h x) (member_of h x).
Proof.
  intros Hl Hx. destruct (linked_lookup _ _ _ x Hl Hx) as (n & Hn & _).
  unfold key, score_of, member_of. by rewrite Hn.
Qed.

Lemma score_not_nan h lvl l x : linked h lvl l -> x ∈ l -> is_nan (score_of h x) = false.
Proof.
  intros Hl Hx. destruct (linked_lookup _ _ _ x Hl Hx) as (n & Hn & Hnan & _).
  unfold score_of. by rewrite Hn.
Qed.

(** ** Searching level by level *)
Lemma descend_from h lvl go A B fuel i u w :
  linked h lvl (A ++ B) -> go_prefix h go A B -> (i < lvl)%nat -> (length A < fuel)%nat ->
  A = u ++ w -> (forall j, (j <= i)%nat -> on_level h j u) ->
  exists u' w', walk fuel h go i (cur u) (Z.of_nat (length u)) = (cur u', Z.of_nat (length u')) /\
    A = u' ++ w' /\ (forall j, (j <= i)%nat -> on_level h j u') /\ Forall (fun y => tall h i y = false) w'.
Proof.
  intros Hl Hgo Hi Hf HA Hu.
  pose proof (walk_stops h lvl go A B i fuel u w Hl Hgo Hi HA (Hu i ltac:(lia))) as Hw.
  destruct (walk fuel h go i (cur u) (Z.of_nat (length u))) as [x r].
  destruct Hw as (u' & w' & HA' & -> & -> & Hu' & Hw'); [rewrite HA, length_app in Hf; lia|].
  exists u', w'. split_and!; try done. intros j Hj. destruct Hu' as [->|Hu']; [by left|right; lia].
Qed.

Lemma all_passed h lvl A B u w :
  linked h lvl (A ++ B) -> A = u ++ w -> Forall (fun y => tall h 0 y = false) w -> w = [].
Proof.
  intros Hl -> Hw. destruct w as [|y w]; [done|]. apply Forall_cons in Hw as [Hy _].
  apply bool_decide_eq_false in Hy.
  destruct (linked_lookup _ _ _ y Hl) as (n & _ & _ & Hh); [in_list|lia].
Qed.

Lemma fuel_enough sl A B : rep sl (A ++ B) -> (length A < fuel_of sl)%nat.
Proof. intros Hr. unfold fuel_of. rewrite (rep_length _ _ Hr), length_app. lia. Qed.

(** ** Rank *)
Section Rank.
Context (sl : SkipList) (A B : list nat) (go : Z -> Node -> bool) (m : pystr).
Hypothesis Hr : rep sl (A ++ B).
Hypothesis Hgo : go_prefix (heap sl) go A B.

Lemma rank_loop_hit A' x n u w :
  A = A' ++ [x] -> member_of (heap sl) x = m -> (forall y, y ∈ A' -> member_of (heap sl) y <> m) ->
  (1 <= n <= sl_level sl)%nat -> A = u ++ w -> (forall j, (j < n)%nat -> on_level (heap sl) j u) ->
  rank_loop sl go m n (cur u) (Z.of_nat (length u)) = Z.of_nat (length A).
Proof.
  intros HA Hx Hy. pose proof (rep_linked _ _ Hr) as Hl. revert u w.
  induction n as [|n IH]; intros u w Hn Huw Hu; [lia|]. cbn [rank_loop].
  destruct (descend_from (heap sl) (sl_level sl) go A B (fuel_of sl) n u w)
    as (u' & w' & -> & Huw' & Hu' & Hw'); try done; [lia|by eapply fuel_enough|intros; apply Hu; lia|].
  destruct (decide (w' = [])) as [->|Hne].
  - rewrite app_nil_r in Huw'. subst u'. rewrite HA, cur_snoc.
    destruct (linked_lookup _ _ _ x Hl) as (nd & Hnd & _); [rewrite HA; in_list|].
    unfold member_of in Hx. rewrite Hnd in *. simpl in Hx.
    rewrite bool_decide_false, bool_decide_true; [done|by rewrite <- Hx|].
    intros ->. pose proof (lk_nodup _ _ _ Hl) as Hd. apply NoDup_cons in Hd as [Hd _].
    apply Hd. rewrite HA. in_list.
  - destruct n as [|n]; [by eapply all_passed in Hw'|].
    assert (Hcond : negb (bool_decide (cur u' = header)) &&
              bool_decide (n_member <$> heap sl !! cur u' = Some m) = false).
    { destruct u' as [|y u' _] using rev_ind; [done|]. rewrite cur_snoc.
      apply andb_false_iff. right. apply bool_decide_false. intros Heq.
      apply (Hy y); [|unfold member_of; by rewrite Heq].
      destruct w' as [|z w' _] using rev_ind; [done|].
      rewrite HA, !app_assoc in Huw'. apply app_inj_tail in Huw' as [-> _]. in_list. }
    rewrite Hcond. eapply IH; [lia|done|]. intros j Hj. apply Hu'. lia.
Qed.

Lemma rank_loop_miss n u w :
  (forall y, y ∈ A -> member_of (heap sl) y <> m) ->
  (n <= sl_level sl)%nat -> A = u ++ w -> (forall j, (j < n)%nat -> on_level (heap sl) j u) ->
  rank_loop sl go m n (cur u) (Z.of_nat (length u)) = 0.
Proof.
  intros Hy. pose proof (rep_linked _ _ Hr) as Hl. revert u w.
  induction n as [|n IH]; intros u w Hn Huw Hu; [done|]. cbn [rank_loop].
  destruct (descend_from (heap sl) (sl_level sl) go A B (fuel_of sl) n u w)
    as (u' & w' & -> & Huw' & Hu' & Hw'); try done; [by eapply fuel_enough|intros; apply Hu; lia|].
  assert (Hcond : negb (bool_decide (cur u' = header)) &&
            bool_decide (n_member <$> heap sl !! cur u' = Some m) = false).
  { destruct u' as [|y u' _] using rev_ind; [done|]. rewrite cur_snoc.
    apply andb_false_iff. right. apply bool_decide_false. intros Heq.
    apply (Hy y); [rewrite Huw'; in_list|]. unfold member_of. by rewrite Heq. }
  rewrite Hcond. eapply IH; [lia|done|]. intros j Hj. apply Hu'. lia.
Qed.
End Rank.

Lemma not_after_key s m n :
  is_nan s = false -> is_nan (n_score n) = false ->
  flt (n_score n) s || (feq (n_score n) s && str_leb (n_member n) m) =
  str_leb (zkey (n_score n) (n_member n)) (zkey s m).
Proof.
  intros Hs Hn. unfold zkey, str_leb. rewrite flt_key, feq_key by done.
  rewrite str_cmp_app_eqlen by (by rewrite !fkey_length). unfold str_ltb.
  destruct (str_cmp (fkey (n_score n)) (fkey s)) eqn:E.
  - apply str_cmp_eq in E. by rewrite bool_decide_true.
  - done.
  - rewrite bool_decide_false; [done|]. intros H%str_cmp_eq. congruence.
Qed.

Lemma not_after_prefix h lvl s m A B :
  linked h lvl (A ++ B) -> is_nan s = false ->
  Forall (fun x => str_cmp (key h x) (zkey s m) <> Gt) A ->
  Forall (fun x => str_cmp (key h x) (zkey s m) = Gt) B ->
  go_prefix h (fun _ n => flt (n_score n) s || (feq (n_score n) s && str_leb (n_member n) m)) A B.
Proof.
  intros Hl Hs HA HB.
  eapply (go_prefix_intro h lvl _ (fun x => str_cmp (key h x) (zkey s m) <> Gt)); try done.
  - intros x n r Hx Hn. destruct (linked_lookup _ _ _ x Hl Hx) as (n' & Hn' & Hnan & _).
    simplify_eq. rewrite not_after_key by done. unfold key, str_leb. rewrite Hn.
    by destruct (str_cmp _ _).
  - eapply Forall_impl; [exact HB|]. intros x Hx Hn. by rewrite Hx in Hn.
Qed.

Lemma sl_rank_hit sl A x B s m :
  rep sl (A ++ x :: B) -> is_nan s = false -> key (heap sl) x = zkey s m ->
  (forall y, y ∈ A -> member_of (heap sl) y <> m) ->
  sl_rank s m sl = Z.of_nat (length A) + 1.
Proof.
  intros Hr Hs Hx Hm. pose proof (rep_linked _ _ Hr) as Hl.
  assert (Hxm : member_of (heap sl) x = m).
  { rewrite (key_member_score _ _ _ x Hl) in Hx by in_list. by apply zkey_inj in Hx as [_ ?]. }
  unfold sl_rank. rewrite (rank_loop_hit sl (A ++ [x]) B _ m) with (A' := A) (x := x) (u := []) (w := A ++ [x]);
    [rewrite length_app; simpl; lia|by rewrite <- app_assoc| |done|done|done| |done|by left].
  - eapply not_after_prefix; [by rewrite <- app_assoc|done| |].
    + pose proof (rep_sorted _ _ Hr) as Hso. apply StronglySorted_app in Hso as (H1 & _ & _).
      rewrite Forall_app, Forall_singleton. split; [|by rewrite Hx, str_cmp_refl].
      apply Forall_forall. intros y Hy. rewrite <- Hx. unfold key_lt in H1. rewrite H1; [done|done|in_list].
    + pose proof (rep_sorted _ _ Hr) as Hso. apply StronglySorted_app in Hso as (_ & _ & H2).
      inversion H2 as [|? ? _ H3]; subst. eapply Forall_impl; [exact H3|]. intros y Hy.
      by rewrite <- Hx, str_cmp_antisym, Hy.
  - pose proof (lk_level _ _ _ Hl). lia.
Qed.

Lemma sl_rank_miss sl l s m :
  rep sl l -> is_nan s = false -> (forall y, y ∈ l -> member_of (heap sl) y <> m) ->
  sl_rank s m sl = 0.
Proof.
  intros Hr Hs Hm. pose proof (rep_linked _ _ Hr) as Hl.
  destruct (sorted_prefix (key_lt (heap sl)) (fun x => str_cmp (key (heap sl) x) (zkey s m) <> Gt) l)
    as (A & B & -> & HA & HB); [apply (rep_sorted _ _ Hr)| |].
  { intros x y _ _ Hxy Hy Hx. apply Hy. unfold key_lt in Hxy.
    rewrite str_cmp_antisym in Hx |- *. rewrite str_cmp_antisym in Hxy.
    destruct (str_cmp (zkey s m) (key (heap sl) x)) eqn:E1; try done.
    destruct (str_cmp (key (heap sl) y) (key (heap sl) x)) eqn:E2; try done.
    rewrite (str_cmp_trans (zkey s m) (key (heap sl) x) (key (heap sl) y)); [done|done|].
    by rewrite str_cmp_antisym, E2. }
  unfold sl_rank. rewrite (rank_loop_miss sl A B _ m) with (u := []) (w := A);
    [done|done| | |lia|done|by left].
  - eapply not_after_prefix; [done|done|done|]. eapply Forall_impl; [exact HB|].
    intros x Hx. simpl in Hx. destruct (str_cmp _ _); try done; exfalso; by apply Hx.
  - intros y Hy. apply Hm. in_list.
Qed.

(** ** Element by rank *)
Lemma rank_prefix h A B :
  go_prefix h (fun t _ => t <=? Z.of_nat (length A)) A B.
Proof. intros u y v n _ _. case_bool_decide; [apply Z.leb_le|apply Z.leb_gt]; lia. Qed.

Lemma by_rank_loop_spec sl A B n u w :
  rep sl (A ++ B) -> (1 <= n <= sl_level sl)%nat -> A = u ++ w ->
  (forall j, (j < n)%nat -> on_level (heap sl) j u) ->
  by_rank_loop sl (Z.of_nat (length A)) n (cur u) (Z.of_nat (length u)) = Some (cur A).
Proof.
  intros Hr. pose proof (rep_linked _ _ Hr) as Hl. revert u w.
  induction n as [|n IH]; intros u w Hn Huw Hu; [lia|]. cbn [by_rank_loop].
  edestruct (descend_from (heap sl) (sl_level sl) (fun t _ => t <=? Z.of_nat (length A)) A B (fuel_of sl) n u w)
    as (u' & w' & -> & Huw' & Hu' & Hw');
    [done|apply rank_prefix|lia|by eapply fuel_enough|done|intros; apply Hu; lia|].
  destruct (decide (w' = [])) as [->|Hne].
  - rewrite app_nil_r in Huw'. rewrite Huw'. by rewrite Z.eqb_refl.
  - destruct n as [|n]; [by eapply all_passed in Hw'|].
    destruct (Z.eqb_spec (Z.of_nat (length u')) (Z.of_nat (length A))) as [E|_].
    + rewrite Huw', length_app in E. destruct w'; simpl in E; [done|lia].
    + eapply IH; [lia|done|]. intros j Hj. apply Hu'. lia.
Qed.

Lemma by_rank_loop_none sl l rank n u w :
  rep sl l -> Z.of_nat (length l) < rank -> (n <= sl_level sl)%nat -> l = u ++ w ->
  (forall j, (j < n)%nat -> on_level (heap sl) j u) ->
  by_rank_loop sl rank n (cur u) (Z.of_nat (length u)) = None.
Proof.
  intros Hr Hlen. pose proof (rep_linked _ _ Hr) as Hl. rewrite <- (app_nil_r l) in Hr, Hl. revert u w.
  induction n as [|n IH]; intros u w Hn Huw Hu; [done|]. cbn [by_rank_loop].
  edestruct (descend_from (heap sl) (sl_level sl) (fun t _ => t <=? rank) l [] (fuel_of sl) n u w)
    as (u' & w' & -> & Huw' & Hu' & Hw'); [done| |lia|by eapply fuel_enough|done|intros; apply Hu; lia|].
  - intros a y v nd Ha _. rewrite app_nil_r in Ha. apply (f_equal length) in Ha.
    rewrite length_app in Ha. simpl in Ha. rewrite bool_decide_true by lia. apply Z.leb_le. lia.
  - destruct (Z.eqb_spec (Z.of_nat (length u')) rank) as [E|_].
    + rewrite Huw', length_app in Hlen. lia.
    + eapply IH; [lia|done|]. intros j Hj. apply Hu'. lia.
Qed.

Lemma sl_by_rank_spec sl l rank :
  rep sl l -> 1 <= rank -> sl_by_rank rank sl = l !! Z.to_nat (rank - 1).
Proof.
  intros Hr Hrank. unfold sl_by_rank. pose proof (lk_level _ _ _ (rep_linked _ _ Hr)) as Hlvl.
  destruct (Z_le_gt_dec rank (Z.of_nat (length l))) as [Hle|Hgt].
  - destruct (split_at l (Z.to_nat (rank - 1))) as (A & x & B & -> & HA & Hx); [lia|].
    rewrite Hx. change (A ++ x :: B) with (A ++ [x] ++ B) in Hr. rewrite app_assoc in Hr.
    assert (Hlen : rank = Z.of_nat (length (A ++ [x]))) by (rewrite length_app; simpl; lia).
    rewrite Hlen. transitivity (Some (cur (A ++ [x]))); [|by rewrite cur_snoc].
    apply (by_rank_loop_spec sl (A ++ [x]) B (sl_level sl) [] (A ++ [x])); [done|lia|done|by left].
  - rewrite lookup_ge_None_2 by lia.
    apply (by_rank_loop_none sl l rank (sl_level sl) [] l); [done|lia|lia|done|by left].
Qed.

(** ** Iteration *)
Lemma rep_fwd0 sl u v :
  rep sl (u ++ v) -> get_fwd (heap sl) (cur u) 0 = head v.
Proof.
  intros Hr. pose proof (rep_linked _ _ Hr) as Hl. pose proof (lk_level _ _ _ Hl).
  destruct (lk_link _ _ _ Hl 0%nat u v) as [-> _]; [lia|done| |by eapply link_0].
  destruct u as [|a u _] using rev_ind; [by left|right]. rewrite cur_snoc.
  destruct (linked_lookup _ _ _ a Hl) as (n & _ & _ & Hn); [in_list|lia].
Qed.

Lemma chain_fwd sl u v n :
  rep sl (u ++ v) -> chain (heap sl) false n (head v) = take n v.
Proof.
  revert u v. induction n as [|n IH]; intros u v Hr; [by destruct v|].
  destruct v as [|x v]; [done|]. cbn [chain head take]. f_equal.
  assert (Hr' : rep sl ((u ++ [x]) ++ v)) by (by rewrite <- app_assoc).
  pose proof (rep_fwd0 _ _ _ Hr') as Hf. rewrite cur_snoc in Hf. rewrite Hf. by eapply IH.
Qed.

Lemma chain_back sl u v n :
  rep sl (u ++ v) -> chain (heap sl) true n (last u) = take n (reverse u).
Proof.
  revert u v. induction n as [|n IH]; intros u v Hr; [by destruct (last u)|].
  destruct u as [|x u _] using rev_ind; [done|].
  rewrite last_snoc, reverse_app. cbn [chain take reverse rev_append app]. f_equal.
  rewrite <- app_assoc in Hr. pose proof (rep_back _ _ Hr u x v eq_refl) as Hb.
  unfold get_back in Hb. rewrite Hb. by eapply IH.
Qed.

Lemma sl_iter_spec sl l : rep sl l -> sl_iter sl = l.
Proof.
  intros Hr. unfold sl_iter. change header with (cur []). rewrite (rep_fwd0 sl [] l) by done.
  rewrite (chain_fwd sl [] l) by done. apply take_ge. rewrite (rep_length _ _ Hr). lia.
Qed.

(** ** Score ranges *)
Section Range.
Context (lo hi : float) (lo_ex hi_ex : bool).
Hypothesis Hlo : is_nan lo = false.
Hypothesis Hhi : is_nan hi = false.

(** A score inside the range. *)
Definition in_range (s : float) : bool := gte_min s lo lo_ex && lte_max s hi hi_ex.

(** The order of the nodes is the order of their scores. *)
Lemma key_lt_score h lvl l x y :
  linked h lvl l -> x ∈ l -> y ∈ l -> key_lt h x y ->
  str_cmp (fkey (score_of h x)) (fkey (score_of h y)) <> Gt.
Proof.
  intros Hl Hx Hy. unfold key_lt. rewrite !(key_member_score _ _ _ _ Hl) by done.
  unfold zkey. rewrite str_cmp_app_eqlen by (by rewrite !fkey_length).
  by destruct (str_cmp (fkey _) (fkey _)).
Qed.

Lemma str_cmp_le_trans a b c : str_cmp a b <> Gt -> str_cmp b c <> Gt -> str_cmp a c <> Gt.
Proof.
  destruct (str_cmp a b) eqn:E1; [apply str_cmp_eq in E1 as ->; done| |done]. intros _.
  destruct (str_cmp b c) eqn:E2; [apply str_cmp_eq in E2 as ->; by rewrite E1| |done]. intros _.
  by rewrite (str_cmp_trans _ _ _ E1 E2).
Qed.

Lemma gte_min_mono s s' :
  is_nan s = false -> is_nan s' = false -> str_cmp (fkey s) (fkey s') <> Gt ->
  gte_min s lo lo_ex = true -> gte_min s' lo lo_ex = true.
Proof.
  intros Hs Hs' Hle. unfold gte_min. destruct lo_ex.
  - rewrite !flt_key by done. unfold str_ltb.
    destruct (str_cmp (fkey lo) (fkey s)) eqn:E1; try done. intros _.
    destruct (str_cmp (fkey s) (fkey s')) eqn:E2; [|by rewrite (str_cmp_trans _ _ _ E1 E2)|done].
    apply str_cmp_eq in E2 as <-. by rewrite E1.
  - rewrite !fle_key by done. unfold str_leb. intros H.
    destruct (str_cmp (fkey lo) (fkey s')) eqn:E; try done. exfalso.
    apply (str_cmp_le_trans (fkey lo) (fkey s) (fkey s')); [by intros E'; rewrite E' in H|done|done].
Qed.

Lemma lte_max_mono s s' :
  is_nan s = false -> is_nan s' = false -> str_cmp (fkey s) (fkey s') <> Gt ->
  lte_max s' hi hi_ex = true -> lte_max s hi hi_ex = true.
Proof.
  intros Hs Hs' Hle. unfold lte_max. destruct hi_ex.
  - rewrite !flt_key by done. unfold str_ltb.
    destruct (str_cmp (fkey s') (fkey hi)) eqn:E1; try done. intros _.
    destruct (str_cmp (fkey s) (fkey s')) eqn:E2; [|by rewrite (str_cmp_trans _ _ _ E2 E1)|done].
    apply str_cmp_eq in E2 as ->. by rewrite E1.
  - rewrite !fle_key by done. unfold str_leb. intros H.
    destruct (str_cmp (fkey s) (fkey hi)) eqn:E; try done. exfalso.
    apply (str_cmp_le_trans (fkey s) (fkey s') (fkey hi)); [done|by intros E'; rewrite E' in H|done].
Qed.

Lemma gte_min_key s :
  is_nan s = false -> gte_min s lo lo_ex = true ->
  str_cmp (fkey lo) (fkey s) <> Gt /\ (lo_ex = true -> str_cmp (fkey lo) (fkey s) = Lt).
Proof.
  intros Hs. unfold gte_min. destruct lo_ex; rewrite ?flt_key, ?fle_key by done;
    unfold str_ltb, str_leb; by destruct (str_cmp _ _).
Qed.

Lemma lte_max_key s :
  is_nan s = false -> lte_max s hi hi_ex = true ->
  str_cmp (fkey s) (fkey hi) <> Gt /\ (hi_ex = true -> str_cmp (fkey s) (fkey hi) = Lt).
Proof.
  intros Hs. unfold lte_max. destruct hi_ex; rewrite ?flt_key, ?fle_key by done;
    unfold str_ltb, str_leb; by destruct (str_cmp _ _).
Qed.

(** An empty interval contains no score. *)
Lemma empty_range s :
  is_nan s = false -> flt hi lo || (feq lo hi && (lo_ex || hi_ex)) = true -> in_range s = false.
Proof.
  intros Hs Hc. apply not_true_is_false. unfold in_range. rewrite andb_true_iff. intros [Hg Hl].
  apply gte_min_key in Hg as [G1 G2]; [|done]. apply lte_max_key in Hl as [L1 L2]; [|done].
  rewrite flt_key, feq_key in Hc by done. apply orb_true_iff in Hc as [Hc|Hc].
  - pose proof (str_cmp_le_trans _ _ _ G1 L1) as H. unfold str_ltb in Hc.
    rewrite str_cmp_antisym in Hc. by destruct (str_cmp (fkey lo) (fkey hi)).
  - apply andb_true_iff in Hc as [Heq Hex]. apply bool_decide_eq_true in Heq.
    apply orb_true_iff in Hex. rewrite <- Heq in *. rewrite str_cmp_antisym in L1, L2.
    destruct (str_cmp (fkey lo) (fkey s)); simpl in *; naive_solver.
Qed.

Abbreviation sc sl := (score_of (heap sl)).
Abbreviation hits sl l := (filter (fun x => in_range (sc sl x) = true) l).

Lemma rep_score_mono sl l x y :
  rep sl l -> x ∈ l -> y ∈ l -> key_lt (heap sl) x y ->
  is_nan (sc sl x) = false /\ is_nan (sc sl y) = false /\ str_cmp (fkey (sc sl x)) (fkey (sc sl y)) <> Gt.
Proof.
  intros Hr Hx Hy Hk. pose proof (rep_linked _ _ Hr) as Hl.
  split_and!; [by eapply score_not_nan|by eapply score_not_nan|by eapply key_lt_score].
Qed.

(** The quick test is right to give up. *)
Lemma no_overlap sl l :
  rep sl l -> range_may_overlap lo hi lo_ex hi_ex sl = false -> hits sl l = [].
Proof.
  intros Hr Ho. pose proof (rep_linked _ _ Hr) as Hl. apply filter_none. intros x Hx Hin.
  pose proof (score_not_nan _ _ _ x Hl Hx) as Hnx.
  unfold range_may_overlap in Ho. destruct (flt hi lo || _) eqn:He.
  { by rewrite (empty_range _ Hnx He) in Hin. }
  change header with (cur []) in Ho. rewrite (rep_fwd0 sl [] l Hr), (rep_tail _ _ Hr) in Ho.
  unfold in_range in Hin. apply andb_true_iff in Hin as [Hg Hle].
  destruct l as [|f l]; [by apply not_elem_of_nil in Hx|]. cbn [head] in Ho.
  destruct (last (f :: l)) as [z|] eqn:Hz; [|by apply last_None in Hz].
  assert (Hzin : z ∈ f :: l) by (by apply last_Some_elem_of).
  destruct (linked_lookup _ _ _ f Hl) as (nf & Hnf & _); [left|].
  destruct (linked_lookup _ _ _ z Hl Hzin) as (nz & Hnz & _).
  simpl in Ho. rewrite Hnf, Hnz in Ho.
  replace (n_score nf) with (sc sl f) in Ho by (unfold score_of; by rewrite Hnf).
  replace (n_score nz) with (sc sl z) in Ho by (unfold score_of; by rewrite Hnz).
  apply andb_false_iff in Ho as [Ho|Ho]; apply not_true_iff_false in Ho; apply Ho.
  - destruct (decide (x = z)) as [<-|Hne]; [done|].
    destruct (rep_score_mono sl (f :: l) x z) as (? & ? & ?); try done; [|by apply (gte_min_mono (sc sl x))].
    by eapply sorted_before_last; [apply (rep_sorted _ _ Hr)| | |].
  - destruct (decide (x = f)) as [<-|Hne]; [done|].
    destruct (rep_score_mono sl (f :: l) f x) as (? & ? & ?); try done; [left| |by apply (lte_max_mono _ (sc sl x))].
    pose proof (rep_sorted _ _ Hr) as Hs. inversion Hs as [|? ? _ Hf]; subst.
    rewrite Forall_forall in Hf. apply Hf. by apply elem_of_cons in Hx as [->|].
Qed.

Lemma rep_mono_split sl l (P : nat -> bool) :
  rep sl l ->
  (forall x y, x ∈ l -> y ∈ l -> key_lt (heap sl) x y -> P y = true -> P x = true) ->
  exists A B, l = A ++ B /\ Forall (fun x => P x = true) A /\ Forall (fun x => P x = false) B.
Proof.
  intros Hr HP. destruct (sorted_prefix (key_lt (heap sl)) (fun x => P x = true) l)
    as (A & B & -> & HA & HB); [apply (rep_sorted _ _ Hr)|done|].
  exists A, B. split_and!; [done|done|]. eapply Forall_impl; [exact HB|]. intros x. apply not_true_is_false.
Qed.

Lemma range_prefix sl A B (go : float -> bool) :
  rep sl (A ++ B) -> Forall (fun x => go (sc sl x) = true) A -> Forall (fun x => go (sc sl x) = false) B ->
  go_prefix (heap sl) (fun _ n => go (n_score n)) A B.
Proof.
  intros Hr HA HB. eapply (go_prefix_intro _ _ _ (fun x => go (sc sl x) = true) A B (rep_linked _ _ Hr)).
  - intros x n r Hx Hn. unfold score_of. by rewrite Hn.
  - done.
  - eapply Forall_impl; [exact HB|]. intros x Hx Ht. by rewrite Hx in Ht.
Qed.

Lemma filter_app_r {T} (P : T -> Prop) `{!forall x, Decision (P x)} (A B : list T) :
  (forall x, x ∈ A -> ~ P x) -> filter P (A ++ B) = filter P B.
Proof. intros H'. by rewrite filter_app, (filter_none P A). Qed.

Lemma filter_app_l {T} (P : T -> Prop) `{!forall x, Decision (P x)} (A B : list T) :
  (forall x, x ∈ B -> ~ P x) -> filter P (A ++ B) = filter P A.
Proof. intros H'. by rewrite filter_app, (filter_none P B), app_nil_r. Qed.

(** The first node in the range, if the range holds any. *)
Lemma first_in_range_spec sl l :
  rep sl l -> first_in_range lo hi lo_ex hi_ex sl = head (hits sl l).
Proof.
  intros Hr. pose proof (rep_linked _ _ Hr) as Hl. unfold first_in_range.
  destruct (range_may_overlap lo hi lo_ex hi_ex sl) eqn:Ho; cbn [negb];
    [|by rewrite no_overlap].
  destruct (rep_mono_split sl l (fun x => negb (gte_min (sc sl x) lo lo_ex)) Hr)
    as (A & B & -> & HA & HB).
  { intros x y Hx Hy Hk. destruct (rep_score_mono _ _ _ _ Hr Hx Hy Hk) as (? & ? & ?).
    rewrite !negb_true_iff, <- !not_true_iff_false. intros Hn Hp. by apply Hn, (gte_min_mono (sc sl x)). }
  pose proof (search_stops sl _ A B _ Hr eq_refl
    (range_prefix sl A B (fun s => negb (gte_min s lo lo_ex)) Hr HA HB) 0%nat) as Hst.
  destruct (stops_0 _ _ _ _ _ _ Hl Hst) as [-> _]. rewrite (rep_fwd0 sl A B Hr).
  rewrite Forall_forall in HA, HB. rewrite filter_app_r.
  2: { intros x Hx Hin. specialize (HA x Hx). unfold in_range in Hin.
       apply andb_true_iff in Hin as [Hin _]. simpl in HA. by rewrite Hin in HA. }
  destruct B as [|b B]; [done|]. cbn [head].
  destruct (linked_lookup _ _ _ b Hl) as (n & Hn & _); [in_list|]. rewrite Hn.
  replace (n_score n) with (sc sl b) by (unfold score_of; by rewrite Hn).
  assert (Hg : gte_min (sc sl b) lo lo_ex = true) by (apply negb_false_iff, HB; left).
  destruct (lte_max (sc sl b) hi hi_ex) eqn:Hle.
  - rewrite filter_cons_True; [done|]. unfold in_range. by rewrite Hg, Hle.
  - rewrite filter_none; [done|]. intros x Hx Hin. apply andb_true_iff in Hin as [_ Hin].
    apply not_true_iff_false in Hle. apply Hle.
    apply elem_of_cons in Hx as [->|Hx]; [done|].
    destruct (rep_score_mono sl (A ++ b :: B) b x Hr) as (? & ? & ?); [in_list|in_list| |].
    + pose proof (rep_sorted _ _ Hr) as Hs. apply StronglySorted_app in Hs as (_ & _ & Hs).
      inversion Hs as [|? ? _ Hf]; subst. rewrite Forall_forall in Hf. by apply Hf.
    + by apply (lte_max_mono _ (sc sl x)).
Qed.

(** The last node in the range, if the range holds any. *)
Lemma last_in_range_spec sl l :
  rep sl l -> last_in_range lo hi lo_ex hi_ex sl = last (hits sl l).
Proof.
  intros Hr. pose proof (rep_linked _ _ Hr) as Hl. unfold last_in_range.
  destruct (range_may_overlap lo hi lo_ex hi_ex sl) eqn:Ho; cbn [negb];
    [|by rewrite no_overlap].
  destruct (rep_mono_split sl l (fun x => lte_max (sc sl x) hi hi_ex) Hr)
    as (A & B & -> & HA & HB).
  { intros x y Hx Hy Hk. destruct (rep_score_mono _ _ _ _ Hr Hx Hy Hk) as (? & ? & ?).
    by apply lte_max_mono. }
  pose proof (search_stops sl _ A B _ Hr eq_refl
    (range_prefix sl A B (fun s => lte_max s hi hi_ex) Hr HA HB) 0%nat) as Hst.
  destruct (stops_0 _ _ _ _ _ _ Hl Hst) as [-> _].
  rewrite Forall_forall in HA, HB. rewrite filter_app_l.
  2: { intros x Hx Hin. specialize (HB x Hx). apply andb_true_iff in Hin as [_ Hin]. simpl in HB.
       by rewrite Hin in HB. }
  destruct A as [|z A _] using rev_ind; [done|]. rewrite cur_snoc.
  assert (Hzl : z ∈ (A ++ [z]) ++ B) by in_list.
  rewrite bool_decide_false.
  2: { intros ->. pose proof (lk_nodup _ _ _ Hl) as Hd. by apply NoDup_cons in Hd as [[] _]. }
  destruct (linked_lookup _ _ _ z Hl Hzl) as (n & Hn & _). rewrite Hn.
  replace (n_score n) with (sc sl z) by (unfold score_of; by rewrite Hn).
  assert (Hle : lte_max (sc sl z) hi hi_ex = true) by (apply HA; in_list).
  destruct (gte_min (sc sl z) lo lo_ex) eqn:Hg.
  - rewrite filter_app, filter_cons_True; [by rewrite filter_nil, last_snoc|]. unfold in_range. by rewrite Hg, Hle.
  - rewrite filter_none; [done|]. intros x Hx Hin. apply andb_true_iff in Hin as [Hin _].
    apply not_true_iff_false in Hg. apply Hg.
    destruct (decide (x = z)) as [<-|Hne]; [done|].
    destruct (rep_score_mono sl ((A ++ [z]) ++ B) x z Hr) as (? & ? & ?); [in_list|in_list| |].
    + pose proof (rep_sorted _ _ Hr) as Hs. apply StronglySorted_app in Hs as (_ & Hs & _).
      eapply sorted_before_last; [exact Hs|by rewrite last_snoc|done|done].
    + by apply (gte_min_mono (sc sl x)).
Qed.
End Range.

(** ** The empty list and the drawn level *)
Lemma sl_new_rep : rep sl_new [].
Proof.
  split.
  - split; [apply NoDup_singleton| | |unfold MAX_LEVEL; simpl; lia|].
    + eexists _, _. vm_compute. reflexivity.
    + intros x Hx. by apply not_elem_of_nil in Hx.
    + intros i u v Hi Huv _. symmetry in Huv. apply app_nil in Huv as [-> ->].
      simpl in Hi. assert (i = 0%nat) as -> by lia. by vm_compute.
  - intros i Hi. unfold get_fwd, sl_new. cbn [heap]. rewrite lookup_singleton_eq.
    unfold new_node. cbn [mbind option_bind n_forward].
    destruct (replicate MAX_LEVEL (None : option nat) !! i) eqn:E; [|done].
    by apply lookup_replicate in E as [-> _].
  - intros x Hx. apply lookup_singleton_ne. simpl in Hx. unfold header. lia.
  - intros u x v Hu. by destruct u.
  - done.
  - done.
  - constructor.
Qed.

Lemma random_level_fuel_bounds f lvl o :
  (lvl <= (random_level_fuel f lvl o).1 <= lvl + f)%nat.
Proof.
  revert lvl o. induction f as [|f IH]; intros lvl o; cbn [random_level_fuel]; [simpl; lia|].
  destruct (flt _ _); [|simpl; lia].
  specialize (IH (S lvl) (set_level_pos (S (level_pos o)) o)). lia.
Qed.

Lemma random_level_bounds o : (1 <= (random_level o).1 <= MAX_LEVEL)%nat.
Proof.
  pose proof (random_level_fuel_bounds (MAX_LEVEL - 1) 1 o). unfold random_level, MAX_LEVEL in *. lia.
Qed.
