(* ===== verification/ZSet.v ===== *)
(** * Sorted sets (engine/datatypes/zset.py)

    A [SortedSet] is a dict from member to score next to a skip list of the
    same pairs in (score, member) order.  [zs_items] is the content in order.
    The invariant [zs_wf] says that the skip list represents exactly the pairs
    of the dict and that [nbytes] is the estimate of the members; every query
    is then a list function of [zs_items]. *)

From S2P Require Import Prelude PyStr PyFloat Oracles Containers SkipList SkipListProofs SkipListDelete.
From S2P Require Import SkipListQuery.

Section ZSet.
Context `{Sizing}.

Record SortedSet := mkZset { zs_scores : list (pystr * float); zs_list : SkipList; zs_nbytes : Z }.

Definition zs_new : SortedSet := mkZset [] sl_new EMPTY_CONTAINER.
Definition zs_len (z : SortedSet) : Z := Z.of_nat (length (zs_scores z)).
Definition zs_contains (member : pystr) (z : SortedSet) : bool := dict_mem member (zs_scores z).
Definition zs_score (member : pystr) (z : SortedSet) : option float := dict_get member (zs_scores z).
Definition zs_item_size (member : pystr) : Z := str_size member + ZSET_ITEM_OVERHEAD.

(** ** Mutation *)
Definition zs_add (member : pystr) (score : float) (z : SortedSet) (o : Oracles)
  : (bool * SortedSet) * Oracles :=
  match dict_get member (zs_scores z) with
  | None =>
      let '(l, o) := sl_insert score member (zs_list z) o in
      ((true, mkZset (dict_set member score (zs_scores z)) l (zs_nbytes z + zs_item_size member)), o)
  | Some old =>
      if negb (feq old score) then
        let l := (sl_delete old member (zs_list z)).2 in
        let '(l, o) := sl_insert score member l o in
        ((false, mkZset (dict_set member score (zs_scores z)) l (zs_nbytes z)), o)
      else ((false, z), o)
  end.

(** [incr]: [None] is the NaN error, raised before anything changes. *)
Definition zs_incr (member : pystr) (delta : float) (z : SortedSet) (o : Oracles)
  : (option float * SortedSet) * Oracles :=
  let new := fadd (default fzero (dict_get member (zs_scores z))) delta in
  if is_nan new then ((None, z), o)
  else let '((_, z), o) := zs_add member new z o in ((Some new, z), o).

Definition zs_remove (member : pystr) (z : SortedSet) : bool * SortedSet :=
  match dict_get member (zs_scores z) with
  | None => (false, z)
  | Some score =>
      (true, mkZset (dict_pop member (zs_scores z)) (sl_delete score member (zs_list z)).2
               (zs_nbytes z - zs_item_size member))
  end.

(** ** Queries *)
Definition item (h : gmap nat Node) (x : nat) : pystr * float := (member_of h x, score_of h x).

(** [rank]: 0-based, from the other end when reversed. *)
Definition zs_rank (member : pystr) (reverse : bool) (z : SortedSet) : option Z :=
  match dict_get member (zs_scores z) with
  | None => None
  | Some score =>
      let rank := sl_rank score member (zs_list z) - 1 in
      Some (if reverse then zs_len z - 1 - rank else rank)
  end.

(** [_walk]. *)
Definition zs_walk (z : SortedSet) (node : option nat) (count : Z) (backward : bool) : list (pystr * float) :=
  item (heap (zs_list z)) <$> chain (heap (zs_list z)) backward (Z.to_nat count) node.

Definition zs_range_by_rank (start stop : Z) (reverse : bool) (z : SortedSet) : list (pystr * float) :=
  let length := zs_len z in
  let start := if start <? 0 then Z.max 0 (length + start) else start in
  let stop := if stop <? 0 then stop + length else stop in
  let stop := Z.min stop (length - 1) in
  if (stop <? start) || (length <=? start) then []
  else
    let count := stop - start + 1 in
    if reverse then zs_walk z (sl_by_rank (length - start) (zs_list z)) count true
    else zs_walk z (sl_by_rank (start + 1) (zs_list z)) count false.

Definition node_next (h : gmap nat Node) (backward : bool) (x : nat) : option nat :=
  if backward then n ← h !! x; n_backward n else get_fwd h x 0.

(** The two loops of [range_by_score]: skip [offset] nodes, then collect. *)
Fixpoint skip_loop (fuel : nat) (h : gmap nat Node) (backward : bool) (node : option nat) (offset : Z)
  : option nat :=
  match fuel, node with
  | S f, Some x => if 0 <? offset then skip_loop f h backward (node_next h backward x) (offset - 1)
                   else node
  | _, _ => node
  end.

Fixpoint collect_loop (fuel : nat) (h : gmap nat Node) (backward : bool) (ok : float -> bool)
    (node : option nat) (count : Z) : list (pystr * float) :=
  match fuel, node with
  | S f, Some x =>
      if count =? 0 then []
      else if negb (ok (score_of h x)) then []
      else item h x :: collect_loop f h backward ok (node_next h backward x) (count - 1)
  | _, _ => []
  end.

Definition zs_range_by_score (lo hi : float) (lo_ex hi_ex reverse : bool) (offset count : Z)
    (z : SortedSet) : list (pystr * float) :=
  let l := zs_list z in
  let fuel := S (length (zs_scores z)) in
  let node := if reverse then last_in_range lo hi lo_ex hi_ex l
              else first_in_range lo hi lo_ex hi_ex l in
  collect_loop fuel (heap l) reverse (in_range lo hi lo_ex hi_ex)
    (skip_loop fuel (heap l) reverse node offset) count.

Definition zs_count_in_range (lo hi : float) (lo_ex hi_ex : bool) (z : SortedSet) : Z :=
  let l := zs_list z in
  match first_in_range lo hi lo_ex hi_ex l, last_in_range lo hi lo_ex hi_ex l with
  | Some f, Some g =>
      sl_rank (score_of (heap l) g) (member_of (heap l) g) l -
      sl_rank (score_of (heap l) f) (member_of (heap l) f) l + 1
  | _, _ => 0
  end.

(** [pop]: the loop runs while [count > 0] and the set is not empty. *)
Fixpoint zs_pop_n (n : nat) (from_max : bool) (z : SortedSet) : list (pystr * float) * SortedSet :=
  match n with
  | O => ([], z)
  | S n' =>
      match zs_scores z with
      | [] => ([], z)
      | _ :: _ =>
          let l := zs_list z in
          match (if from_max then sl_tail l else get_fwd (heap l) header 0) with
          | None => ([], z)
          | Some node =>
              let popped := item (heap l) node in
              let '(rest, z') := zs_pop_n n' from_max (zs_remove popped.1 z).2 in
              (popped :: rest, z')
          end
      end
  end.
Definition zs_pop (count : Z) (from_max : bool) (z : SortedSet) := zs_pop_n (Z.to_nat count) from_max z.

(** [items]: all pairs in ascending order. *)
Definition zs_items (z : SortedSet) : list (pystr * float) :=
  item (heap (zs_list z)) <$> sl_iter (zs_list z).

(** ** The invariant *)
Record zs_wf (z : SortedSet) : Prop := {
  zw_dict : dict_wf (zs_scores z);
  zw_rep : exists l, rep (zs_list z) l /\ (item (heap (zs_list z)) <$> l) ≡ₚ zs_scores z;
  zw_bytes : zs_nbytes z = EMPTY_CONTAINER + sumZ (fun p => zs_item_size p.1) (zs_scores z)
}.

Lemma zs_wf_items z :
  zs_wf z -> exists l, rep (zs_list z) l /\ zs_items z = (item (heap (zs_list z)) <$> l) /\
    zs_items z ≡ₚ zs_scores z.
Proof.
  intros Hz. destruct (zw_rep _ Hz) as (l & Hr & Hp). exists l. unfold zs_items.
  by rewrite (sl_iter_spec _ _ Hr).
Qed.

Lemma zs_items_perm z : zs_wf z -> zs_items z ≡ₚ zs_scores z.
Proof. intros Hz. by destruct (zs_wf_items z Hz) as (l & _ & _ & ?). Qed.

Lemma zs_items_nodup z : zs_wf z -> NoDup (zs_items z).*1.
Proof. intros Hz. rewrite (zs_items_perm z Hz). apply (zw_dict _ Hz). Qed.

Lemma zs_score_elem z m s : zs_wf z -> zs_score m z = Some s <-> (m, s) ∈ zs_items z.
Proof.
  intros Hz. rewrite (zs_items_perm z Hz). split; [apply dict_get_Some_elem|].
  apply dict_get_elem, (zw_dict _ Hz).
Qed.

Lemma zs_len_items z : zs_wf z -> zs_len z = Z.of_nat (length (zs_items z)).
Proof. intros Hz. unfold zs_len. by rewrite (zs_items_perm z Hz). Qed.
End ZSet.

(** Correctness of the sorted set: every operation keeps [zs_wf], and every
    query is the corresponding function of the ordered content [zs_items]. *)

Section ZSetProofs.
Context `{Sizing}.

(** ** Dicts up to order *)
Lemma dict_set_perm {V} k (v : V) (d : list (pystr * V)) :
  dict_set k v d ≡ₚ (k, v) :: dict_pop k d.
Proof.
  induction d as [|[k' v'] d IH]; simpl; [done|].
  destruct (decide (k = k')) as [->|Hne]; simplify_eq/=; [done|].
  rewrite IH. apply perm_swap.
Qed.

(** ** Nodes and pairs *)
Lemma same_shape_item h h' x : shape h' x = shape h x -> item h' x = item h x.
Proof.
  unfold shape, item, member_of, score_of. destruct (h !! x), (h' !! x); try done.
  intros [= E1 E2 _ _]. simpl. congruence.
Qed.

Lemma shape_item h x m s k j : shape h x = Some (m, s, k, j) -> item h x = (m, s).
Proof.
  unfold shape, item, member_of, score_of. destruct (h !! x); [|done].
  intros [= E1 E2 _ _]. simpl. congruence.
Qed.

Lemma items_same h h' (l : list nat) :
  (forall x, x ∈ l -> shape h' x = shape h x) -> (item h' <$> l) = (item h <$> l).
Proof.
  intros Hs. apply list_fmap_ext. intros i x Hx. apply same_shape_item, Hs.
  by eapply list_elem_of_lookup_2.
Qed.

Lemma key_item h lvl l x : linked h lvl l -> x ∈ l -> key h x = zkey (item h x).2 (item h x).1.
Proof. intros. by eapply key_member_score. Qed.

(** ** Changing the skip list *)
Lemma sl_insert_spec sl l s m o :
  rep sl l -> is_nan s = false -> m ∉ (item (heap sl) <$> l).*1 ->
  exists l' sl' o', sl_insert s m sl o = (sl', o') /\ rep sl' l' /\
    (item (heap sl') <$> l') ≡ₚ (m, s) :: (item (heap sl) <$> l).
Proof.
  intros Hr Hs Hm. pose proof (rep_linked _ _ Hr) as Hl. unfold sl_insert.
  pose proof (random_level_bounds o) as Hb. destruct (random_level o) as [lvl o']. simpl in Hb.
  destruct (sorted_splits (heap sl) (zkey s m) l (rep_sorted _ _ Hr)) as (A & B & -> & Hsp).
  destruct (sl_insert_at_rep sl A B lvl s m) as [Hr' Hsh]; try done.
  { apply Forall_forall. intros x Hx Heq. rewrite (key_item _ _ _ x Hl) in Heq by in_list.
    apply zkey_inj in Heq as [_ Heq]. apply Hm. rewrite <- Heq, <- list_fmap_compose.
    apply (list_elem_of_fmap_2 (fst ∘ item (heap sl))). in_list. }
  eexists _, _, o'. split; [done|]. split; [exact Hr'|].
  assert (Hfresh : next_id sl ∉ A ++ B).
  { intros Hin. destruct (linked_lookup _ _ _ _ Hl Hin) as (n & Hn & _).
    by rewrite (rep_fresh _ _ Hr) in Hn. }
  rewrite <- Permutation_middle, fmap_cons.
  rewrite (shape_item _ (next_id sl) m s lvl lvl) by (by rewrite Hsh, decide_True).
  rewrite (items_same (heap sl)); [done|]. intros x Hx.
  rewrite Hsh, decide_False; [done|]. by intros ->.
Qed.

Lemma sl_delete_spec sl l s m d :
  rep sl l -> (item (heap sl) <$> l) ≡ₚ (m, s) :: d ->
  exists sl' l', sl_delete s m sl = (true, sl') /\ rep sl' l' /\ (item (heap sl') <$> l') ≡ₚ d.
Proof.
  intros Hr Hp. pose proof (rep_linked _ _ Hr) as Hl.
  assert (Hin : (m, s) ∈ item (heap sl) <$> l) by (rewrite Hp; left).
  apply list_elem_of_fmap in Hin as (x & Hx & Hin).
  assert (Hs : is_nan s = false).
  { pose proof (score_not_nan _ _ _ x Hl Hin). unfold item in Hx. by simplify_eq. }
  apply list_elem_of_split in Hin as (A & B & ->).
  destruct (sl_delete_hit sl A x B s m) as (sl' & Hd & Hr' & Hsh); try done.
  { rewrite (key_item _ _ _ x Hl) by in_list. by rewrite <- Hx. }
  exists sl', (A ++ B). split; [done|]. split; [done|].
  rewrite (items_same (heap sl)) by (intros; apply Hsh).
  rewrite <- Permutation_middle, fmap_cons, <- Hx in Hp. by apply Permutation_cons_inv in Hp.
Qed.

(** ** Every operation keeps the invariant *)
Lemma zs_new_wf : zs_wf zs_new.
Proof. split; [constructor|by exists []; split; [apply sl_new_rep|]|done]. Qed.

Lemma zs_add_wf m s z o : zs_wf z -> is_nan s = false -> zs_wf (zs_add m s z o).1.2.
Proof.
  intros Hz Hs. destruct (zw_rep _ Hz) as (l & Hr & Hp). pose proof (zw_bytes _ Hz) as Hb.
  unfold zs_add. destruct (dict_get m (zs_scores z)) as [old|] eqn:Hm.
  - destruct (feq old s); cbn [negb]; [done|].
    pose proof (dict_pop_perm _ _ _ Hm) as Hpop.
    destruct (sl_delete_spec (zs_list z) l old m (dict_pop m (zs_scores z)) Hr) as (l1 & L1 & -> & Hr1 & Hp1);
      [by rewrite Hp|]. cbn [snd].
    destruct (sl_insert_spec l1 L1 s m o Hr1 Hs) as (L2 & l2 & o2 & -> & Hr2 & Hp2).
    { rewrite Hp1. rewrite dict_keys_pop by apply (zw_dict _ Hz). tauto. }
    split; cbn [fst snd zs_scores zs_list zs_nbytes].
    + apply dict_set_wf, (zw_dict _ Hz).
    + exists L2. split; [done|]. by rewrite Hp2, Hp1, dict_set_perm.
    + rewrite Hb, (sumZ_perm _ _ _ (dict_set_perm m s _)), (sumZ_perm _ _ _ Hpop). done.
  - destruct (sl_insert_spec (zs_list z) l s m o Hr Hs) as (L2 & l2 & o2 & -> & Hr2 & Hp2).
    { rewrite Hp. by apply dict_get_None. }
    apply dict_get_None in Hm.
    split; cbn [fst snd zs_scores zs_list zs_nbytes].
    + apply dict_set_wf, (zw_dict _ Hz).
    + exists L2. split; [done|]. by rewrite Hp2, Hp, dict_set_perm, dict_pop_notin.
    + rewrite Hb, dict_set_new by done. rewrite sumZ_app. simpl. lia.
Qed.

Lemma random_level_source o : same_source o (random_level o).2.
Proof.
  assert (Hf : forall f n o, same_source o (random_level_fuel f n o).2); [|apply Hf]. clear o.
  induction f as [|f IH]; intros n o; [done|]. cbn [random_level_fuel].
  destruct (flt _ _); [|done]. etrans; [|apply IH]. done.
Qed.

Lemma zs_add_source m s z o : same_source o (zs_add m s z o).2.
Proof.
  unfold zs_add, sl_insert. pose proof (random_level_source o) as Hs.
  destruct (random_level o) as [lvl o']. by destruct (dict_get _ _) as [old|]; [destruct (feq old s)|].
Qed.

Lemma zs_remove_wf m z : zs_wf z -> zs_wf (zs_remove m z).2.
Proof.
  intros Hz. destruct (zw_rep _ Hz) as (l & Hr & Hp). pose proof (zw_bytes _ Hz) as Hb.
  unfold zs_remove. destruct (dict_get m (zs_scores z)) as [s|] eqn:Hm; [|done].
  pose proof (dict_pop_perm _ _ _ Hm) as Hpop.
  destruct (sl_delete_spec (zs_list z) l s m (dict_pop m (zs_scores z)) Hr) as (l1 & L1 & -> & Hr1 & Hp1);
    [by rewrite Hp|]. cbn [snd].
  split; cbn [zs_scores zs_list zs_nbytes].
  - apply dict_pop_wf, (zw_dict _ Hz).
  - by exists L1.
  - rewrite Hb, (sumZ_perm _ _ _ Hpop). simpl. lia.
Qed.

Lemma zs_incr_wf m d z o : zs_wf z -> zs_wf (zs_incr m d z o).1.2.
Proof.
  intros Hz. unfold zs_incr. destruct (is_nan _) eqn:Hn; [done|].
  pose proof (zs_add_wf m _ z o Hz Hn) as Ha.
  by destruct (zs_add m _ z o) as [[b z'] o'].
Qed.

(** ** What mutation does to the scores *)
Lemma zs_add_score m s z o m' :
  zs_wf z -> zs_score m' (zs_add m s z o).1.2 =
    if decide (m' = m) then
      match zs_score m z with
      | Some old => if feq old s then Some old else Some s
      | None => Some s
      end
    else zs_score m' z.
Proof.
  intros Hz. unfold zs_add, zs_score. destruct (dict_get m (zs_scores z)) as [old|] eqn:Hm.
  - destruct (feq old s); cbn [negb].
    + simpl. case_decide; congruence.
    + destruct (sl_insert _ _ _ _) as [l o']. simpl. rewrite dict_get_set. repeat case_decide; congruence.
  - destruct (sl_insert _ _ _ _) as [l o']. simpl. rewrite dict_get_set. repeat case_decide; congruence.
Qed.

Lemma zs_remove_score m z m' :
  zs_wf z -> zs_score m' (zs_remove m z).2 = if decide (m' = m) then None else zs_score m' z.
Proof.
  intros Hz. unfold zs_remove, zs_score. destruct (dict_get m (zs_scores z)) as [s|] eqn:Hm; simpl.
  - rewrite dict_get_pop by apply (zw_dict _ Hz). repeat case_decide; congruence.
  - case_decide; congruence.
Qed.

(** ** The order *)
Definition pair_lt (p q : pystr * float) : Prop := str_cmp (zkey p.2 p.1) (zkey q.2 q.1) = Lt.

#[local] Instance pair_lt_antisym : AntiSymm (=) pair_lt.
Proof. intros p q Hpq Hqp. unfold pair_lt in *. by rewrite str_cmp_antisym, Hqp in Hpq. Qed.

Lemma sorted_fmap {T U} (R : T -> T -> Prop) (R' : U -> U -> Prop) (f : T -> U) (l : list T) :
  (forall x y, x ∈ l -> y ∈ l -> R x y -> R' (f x) (f y)) -> StronglySorted R l ->
  StronglySorted R' (f <$> l).
Proof.
  intros HR. induction 1 as [|x l Hs IH Hx]; [constructor|]. rewrite fmap_cons. constructor.
  - apply IH. intros; apply HR; by try right.
  - rewrite Forall_forall in Hx. apply Forall_forall. intros y Hy. apply list_elem_of_fmap in Hy as (y' & -> & Hy).
    apply HR; [left|by right|by apply Hx].
Qed.

Lemma zs_items_sorted z : zs_wf z -> StronglySorted pair_lt (zs_items z).
Proof.
  intros Hz. destruct (zs_wf_items z Hz) as (l & Hr & -> & _).
  eapply sorted_fmap, (rep_sorted _ _ Hr). intros x y Hx Hy. unfold key_lt, pair_lt.
  by rewrite !(key_item _ _ _ _ (rep_linked _ _ Hr)).
Qed.

(** The order and the pairs determine the list. *)
Lemma sorted_pairs_unique l1 l2 :
  StronglySorted pair_lt l1 -> StronglySorted pair_lt l2 -> l1 ≡ₚ l2 -> l1 = l2.
Proof. intros. by apply (StronglySorted_unique pair_lt). Qed.

Lemma sorted_filter {T} (R : T -> T -> Prop) (P : T -> Prop) `{!forall x, Decision (P x)} (l : list T) :
  StronglySorted R l -> StronglySorted R (filter P l).
Proof.
  induction 1 as [|x l Hs IH Hx]; [constructor|]. rewrite filter_cons. case_decide; [|done].
  constructor; [done|]. rewrite Forall_forall in *. intros y Hy. apply list_elem_of_filter in Hy as [_ Hy].
  by apply Hx.
Qed.

Lemma dict_pop_filter {V} k (d : list (pystr * V)) :
  dict_wf d -> dict_pop k d = filter (fun p => p.1 <> k) d.
Proof.
  unfold dict_wf. induction d as [|[k' v'] d IH]; simpl; intros Hnd; [done|].
  apply NoDup_cons in Hnd as [Hn Hnd]. rewrite filter_cons. simpl.
  destruct (decide (k = k')) as [->|Hne].
  - rewrite decide_False by tauto. symmetry. apply filter_all. intros [a b] Hab. simpl. intros ->.
    apply Hn. by apply (list_elem_of_fmap_2' fst _ (k', b)).
  - rewrite decide_True by congruence. by rewrite IH.
Qed.

Lemma zs_remove_items m z :
  zs_wf z -> zs_items (zs_remove m z).2 = filter (fun p => p.1 <> m) (zs_items z).
Proof.
  intros Hz. pose proof (zs_remove_wf m z Hz) as Hz'.
  apply sorted_pairs_unique.
  - by apply zs_items_sorted.
  - by apply sorted_filter, zs_items_sorted.
  - rewrite (zs_items_perm _ Hz'), (zs_items_perm _ Hz), <- dict_pop_filter by apply (zw_dict _ Hz).
    unfold zs_remove. destruct (dict_get m (zs_scores z)) eqn:Hm; simpl; [done|].
    apply dict_get_None in Hm. by rewrite dict_pop_notin.
Qed.

(** ** Ranks *)
Lemma zs_node_at z l i m s :
  zs_wf z -> rep (zs_list z) l -> zs_items z = (item (heap (zs_list z)) <$> l) ->
  zs_items z !! i = Some (m, s) ->
  exists A x B, l = A ++ x :: B /\ length A = i /\ item (heap (zs_list z)) x = (m, s) /\
    forall y, y ∈ A -> member_of (heap (zs_list z)) y <> m.
Proof.
  intros Hz Hr Hit Hi. pose proof (zs_items_nodup z Hz) as Hnd. rewrite Hit in Hi, Hnd.
  rewrite list_lookup_fmap, fmap_Some in Hi. destruct Hi as (x & Hx & Hitem).
  destruct (split_at l i) as (A & x' & B & -> & HA & Hx'); [by eapply lookup_lt_Some|].
  rewrite Hx in Hx'. injection Hx' as <-. exists A, x, B. split_and!; try done. intros y Hy Heq.
  rewrite fmap_app, fmap_cons, fmap_app in Hnd. apply NoDup_app in Hnd as (_ & Hd & _).
  apply (Hd m).
  - apply list_elem_of_fmap. exists (item (heap (zs_list z)) y). split; [by rewrite <- Heq|].
    by apply list_elem_of_fmap_2.
  - rewrite <- Hitem. simpl. left.
Qed.

Lemma sl_rank_item z i m s :
  zs_wf z -> zs_items z !! i = Some (m, s) -> sl_rank s m (zs_list z) = Z.of_nat i + 1.
Proof.
  intros Hz Hi. destruct (zs_wf_items z Hz) as (l & Hr & Hit & _).
  destruct (zs_node_at z l i m s Hz Hr Hit Hi) as (A & x & B & -> & <- & Hx & Hy).
  pose proof (rep_linked _ _ Hr) as Hl. apply (sl_rank_hit _ A x B); try done.
  - pose proof (score_not_nan _ _ _ x Hl ltac:(in_list)) as Hn. unfold item in Hx. by simplify_eq.
  - by rewrite (key_item _ _ _ x Hl ltac:(in_list)), Hx.
Qed.

Lemma zs_rank_spec z i m s rev :
  zs_wf z -> zs_items z !! i = Some (m, s) ->
  zs_rank m rev z = Some (if rev then zs_len z - 1 - Z.of_nat i else Z.of_nat i).
Proof.
  intros Hz Hi. unfold zs_rank. fold (zs_score m z).
  assert (zs_score m z = Some s) as -> by (apply zs_score_elem; [done|by eapply list_elem_of_lookup_2]).
  rewrite (sl_rank_item z i m s Hz Hi). destruct rev; f_equal; lia.
Qed.

(** ** Ranges by rank *)
Lemma head_drop {T} (l : list T) n : head (drop n l) = l !! n.
Proof. revert n. induction l as [|x l IH]; intros [|n]; simpl; done. Qed.

Lemma fmap_islice {T U} (f : T -> U) (l : list T) lo hi :
  f <$> islice l lo hi = islice (f <$> l) lo hi.
Proof. unfold islice, slice. by rewrite fmap_take, fmap_drop. Qed.

Lemma zs_range_by_rank_spec start stop rev z :
  zs_wf z ->
  zs_range_by_rank start stop rev z =
    match clamp start stop (zs_len z) with
    | None => []
    | Some (lo, hi) => islice (if rev then reverse (zs_items z) else zs_items z) lo (hi + 1)
    end.
Proof.
  intros Hz. destruct (zs_wf_items z Hz) as (l & Hr & Hit & _).
  pose proof (zs_len_items z Hz) as Hlen. rewrite Hit, length_fmap in Hlen.
  unfold zs_range_by_rank, clamp.
  set (st := if start <? 0 then _ else _). set (sp := Z.min _ _).
  destruct ((sp <? st) || (zs_len z <=? st)) eqn:Hc; [done|].
  apply orb_false_iff in Hc as [H1%Z.ltb_ge H2%Z.leb_gt].
  assert (H0 : 0 <= st) by (unfold st; destruct (Z.ltb_spec start 0); lia).
  assert (Hsp : sp <= zs_len z - 1) by (unfold sp; lia). clearbody st sp.
  rewrite Hit. unfold zs_walk. destruct rev.
  - rewrite <- fmap_reverse, <- fmap_islice. f_equal. unfold islice, slice.
    rewrite (sl_by_rank_spec _ l) by (done || lia).
    assert (Hk : l !! Z.to_nat (zs_len z - st - 1) = last (take (Z.to_nat (zs_len z - st)) l)).
    { rewrite last_lookup, length_take, lookup_take_lt by lia. f_equal. lia. }
    rewrite Hk, (chain_back _ _ (drop (Z.to_nat (zs_len z - st)) l)) by (by rewrite take_drop).
    rewrite drop_reverse. f_equal; [lia|]. f_equal. f_equal. lia.
  - rewrite <- fmap_islice. f_equal. unfold islice, slice.
    rewrite (sl_by_rank_spec _ l) by (done || lia). rewrite <- head_drop.
    rewrite (chain_fwd _ (take (Z.to_nat (st + 1 - 1)) l)) by (by rewrite take_drop).
    f_equal; [lia|]. f_equal. lia.
Qed.

(** ** Ranges by score *)

(** The nodes met when following [forward] or [backward] from the first of [w]. *)
Fixpoint runs (h : gmap nat Node) (backward : bool) (w : list nat) : Prop :=
  match w with
  | [] => True
  | x :: w' => node_next h backward x = head w' /\ runs h backward w'
  end.

Lemma runs_fwd sl u v : rep sl (u ++ v) -> runs (heap sl) false v.
Proof.
  revert u. induction v as [|x v IH]; intros u Hr; [done|].
  assert (Hr' : rep sl ((u ++ [x]) ++ v)) by (by rewrite <- app_assoc).
  split; [|by eapply IH]. pose proof (rep_fwd0 _ _ _ Hr') as Hf. by rewrite cur_snoc in Hf.
Qed.

Lemma runs_back sl u v : rep sl (u ++ v) -> runs (heap sl) true (reverse u).
Proof.
  revert v. induction u as [|x u IH] using rev_ind; intros v Hr; [done|].
  rewrite <- app_assoc in Hr. rewrite reverse_snoc. split; [|by eapply IH].
  pose proof (rep_back _ _ Hr u x v eq_refl) as Hb. unfold get_back in Hb. simpl. rewrite Hb.
  destruct u as [|y u _] using rev_ind; [done|]. by rewrite last_snoc, reverse_snoc.
Qed.

Lemma skip_loop_spec h back w fuel offset :
  runs h back w -> (length w < fuel)%nat ->
  skip_loop fuel h back (head w) offset = head (drop (Z.to_nat offset) w) /\
  runs h back (drop (Z.to_nat offset) w).
Proof.
  revert fuel offset. induction w as [|x w IH]; intros fuel offset Hw Hf.
  - rewrite drop_nil. destruct fuel; done.
  - destruct fuel as [|fuel]; [simpl in Hf; lia|]. cbn [skip_loop head].
    destruct (Z.ltb_spec 0 offset) as [Ho|Ho].
    + destruct Hw as [-> Hw]. simpl in Hf. destruct (IH fuel (offset - 1) Hw ltac:(lia)) as [-> Hr].
      replace (Z.to_nat offset) with (S (Z.to_nat (offset - 1))) by lia. done.
    + replace (Z.to_nat offset) with 0%nat by lia. done.
Qed.

(** [count] elements, all of them if it is negative. *)
Definition limit {T} (count : Z) (l : list T) : list T :=
  if count <? 0 then l else take (Z.to_nat count) l.

Lemma collect_loop_spec h back ok P Q fuel count :
  runs h back (P ++ Q) -> Forall (fun x => ok (score_of h x) = true) P ->
  Forall (fun x => ok (score_of h x) = false) Q -> (length P < fuel)%nat ->
  collect_loop fuel h back ok (head (P ++ Q)) count = item h <$> limit count P.
Proof.
  revert fuel count. induction P as [|x P IH]; intros fuel count Hw HP HQ Hf;
    (destruct fuel as [|fuel]; [simpl in Hf; lia|]).
  - unfold limit. rewrite take_nil. destruct Q as [|y Q]; cbn [app head collect_loop];
      [by destruct (count <? 0)|].
    apply Forall_cons in HQ as [-> _]. by destruct (count =? 0), (count <? 0).
  - apply Forall_cons in HP as [Hx HP]. destruct Hw as [Hn Hw]. simpl in Hf.
    cbn [app head collect_loop]. rewrite Hx. cbn [negb].
    destruct (Z.eqb_spec count 0) as [->|Hc]; [done|].
    rewrite Hn, IH by (done || lia). unfold limit.
    destruct (Z.ltb_spec count 0); destruct (Z.ltb_spec (count - 1) 0); try lia; [done|].
    replace (Z.to_nat count) with (S (Z.to_nat (count - 1))) by lia. done.
Qed.

(** The nodes in a score range are contiguous. *)
Lemma range_split sl l lo hi lo_ex hi_ex :
  rep sl l -> is_nan lo = false -> is_nan hi = false ->
  let ok x := in_range lo hi lo_ex hi_ex (score_of (heap sl) x) in
  exists A C D, l = A ++ C ++ D /\ Forall (fun x => ok x = false) A /\
    Forall (fun x => ok x = true) C /\ Forall (fun x => ok x = false) D.
Proof.
  intros Hr Hlo Hhi ok.
  destruct (rep_mono_split sl l (fun x => negb (gte_min (score_of (heap sl) x) lo lo_ex)) Hr)
    as (A & B & -> & HA & HB).
  { intros x y Hx Hy Hk. destruct (rep_score_mono _ _ _ _ Hr Hx Hy Hk) as (? & ? & ?).
    rewrite !negb_true_iff, <- !not_true_iff_false. intros Hn Hp. apply Hn.
    by apply (gte_min_mono lo lo_ex Hlo (score_of (heap sl) x)). }
  destruct (sorted_prefix (key_lt (heap sl)) (fun x => lte_max (score_of (heap sl) x) hi hi_ex = true) B)
    as (C & D & -> & HC & HD).
  { pose proof (rep_sorted _ _ Hr) as Hs. by apply StronglySorted_app in Hs as (_ & _ & Hs). }
  { intros x y Hx Hy Hk. destruct (rep_score_mono _ _ x y Hr) as (? & ? & ?); [in_list|in_list|done|].
    by apply lte_max_mono. }
  apply Forall_app in HB as [HB _].
  exists A, C, D. unfold ok, in_range. split_and!; [done| | |].
  - eapply Forall_impl; [exact HA|]. intros x Hx. apply negb_true_iff in Hx. by rewrite Hx.
  - rewrite Forall_forall in *. intros x Hx. specialize (HB x Hx). specialize (HC x Hx).
    apply negb_false_iff in HB. simpl in HC. by rewrite HB, HC.
  - eapply Forall_impl; [exact HD|]. intros x Hx. apply not_true_iff_false in Hx. rewrite Hx. apply andb_false_r.
Qed.

Lemma filter_fmap {T U} (f : T -> U) (P : U -> Prop) `{!forall x, Decision (P x)} (l : list T) :
  filter P (f <$> l) = f <$> filter (fun x => P (f x)) l.
Proof.
  induction l as [|x l IH]; [done|]. rewrite fmap_cons, !filter_cons.
  case_decide; [by rewrite fmap_cons, IH|done].
Qed.

(** The pairs in the range, in order. *)
Definition score_hits (lo hi : float) (lo_ex hi_ex : bool) (l : list (pystr * float)) :=
  filter (fun p => in_range lo hi lo_ex hi_ex p.2 = true) l.

Lemma hits_split h lo hi lo_ex hi_ex A C D :
  let ok x := in_range lo hi lo_ex hi_ex (score_of h x) in
  Forall (fun x => ok x = false) A -> Forall (fun x => ok x = true) C -> Forall (fun x => ok x = false) D ->
  filter (fun x => ok x = true) (A ++ C ++ D) = C /\
  score_hits lo hi lo_ex hi_ex (item h <$> A ++ C ++ D) = item h <$> C.
Proof.
  intros ok HA HC HD. rewrite Forall_forall in HA, HC, HD.
  assert (E : filter (fun x => ok x = true) (A ++ C ++ D) = C).
  { rewrite !filter_app, (filter_none _ A), (filter_none _ D), (filter_all _ C), app_nil_r; [done|done| |];
      intros x Hx Ht; [specialize (HD x Hx)|specialize (HA x Hx)]; simpl in *; congruence. }
  split; [done|]. rewrite <- E at 2. unfold score_hits. apply filter_fmap.
Qed.

Lemma range_walk h back ok P Q fuel offset count :
  runs h back (P ++ Q) -> (length (P ++ Q) < fuel)%nat ->
  Forall (fun x => ok (score_of h x) = true) P -> Forall (fun x => ok (score_of h x) = false) Q ->
  collect_loop fuel h back ok (skip_loop fuel h back (head P) offset) count =
    limit count (drop (Z.to_nat offset) (item h <$> P)).
Proof.
  intros Hw Hf HP HQ. rewrite <- fmap_drop.
  assert (Hlim : forall l : list nat, limit count (item h <$> l) = item h <$> limit count l)
    by (intros l; unfold limit; destruct (count <? 0); [done|by rewrite fmap_take]).
  rewrite Hlim. destruct P as [|x P].
  { destruct fuel as [|fuel]; [lia|]. cbn [head skip_loop collect_loop].
    rewrite drop_nil. unfold limit. rewrite take_nil. by destruct (count <? 0). }
  change (head (x :: P)) with (head ((x :: P) ++ Q)).
  destruct (skip_loop_spec h back ((x :: P) ++ Q) fuel offset Hw Hf) as [-> Hd].
  rewrite drop_app in *. apply collect_loop_spec; [done| | |].
  - by apply Forall_drop.
  - by apply Forall_drop.
  - rewrite length_app in Hf. rewrite length_drop. lia.
Qed.

Lemma zs_range_by_score_spec lo hi lo_ex hi_ex rev offset count z :
  zs_wf z -> is_nan lo = false -> is_nan hi = false ->
  zs_range_by_score lo hi lo_ex hi_ex rev offset count z =
    limit count (drop (Z.to_nat offset)
      (let hits := score_hits lo hi lo_ex hi_ex (zs_items z) in if rev then reverse hits else hits)).
Proof.
  intros Hz Hlo Hhi. destruct (zs_wf_items z Hz) as (l & Hr & Hit & Hperm).
  pose proof (zs_len_items z Hz) as Hlen. unfold zs_len in Hlen. rewrite Hit, length_fmap in Hlen.
  destruct (range_split (zs_list z) l lo hi lo_ex hi_ex Hr Hlo Hhi) as (A & C & D & -> & HA & HC & HD).
  destruct (hits_split (heap (zs_list z)) lo hi lo_ex hi_ex A C D HA HC HD) as [E1 E2].
  unfold zs_range_by_score. rewrite Hit, E2. cbv zeta. destruct rev.
  - rewrite (last_in_range_spec lo hi lo_ex hi_ex Hlo Hhi _ _ Hr), E1, <- fmap_reverse.
    assert (last C = head (reverse C)) as ->
      by (destruct C as [|c C _] using rev_ind; [done|by rewrite last_snoc, reverse_snoc]).
    apply (range_walk _ _ _ (reverse C) (reverse A)).
    + rewrite <- reverse_app. rewrite app_assoc in Hr. by eapply runs_back.
    + rewrite !length_app in Hlen. rewrite length_app, !length_reverse. lia.
    + by apply Forall_reverse.
    + by apply Forall_reverse.
  - rewrite (first_in_range_spec lo hi lo_ex hi_ex Hlo Hhi _ _ Hr), E1.
    apply (range_walk _ _ _ C D); [by eapply runs_fwd| |done|done].
    rewrite !length_app in Hlen. rewrite length_app. lia.
Qed.

(** Counting by ranks is counting the pairs. *)
Lemma zs_count_in_range_spec lo hi lo_ex hi_ex z :
  zs_wf z -> is_nan lo = false -> is_nan hi = false ->
  zs_count_in_range lo hi lo_ex hi_ex z =
    Z.of_nat (length (score_hits lo hi lo_ex hi_ex (zs_items z))).
Proof.
  intros Hz Hlo Hhi. destruct (zs_wf_items z Hz) as (l & Hr & Hit & Hperm).
  destruct (range_split (zs_list z) l lo hi lo_ex hi_ex Hr Hlo Hhi) as (A & C & D & -> & HA & HC & HD).
  destruct (hits_split (heap (zs_list z)) lo hi lo_ex hi_ex A C D HA HC HD) as [E1 E2].
  unfold zs_count_in_range. rewrite (first_in_range_spec lo hi lo_ex hi_ex Hlo Hhi _ _ Hr).
  rewrite (last_in_range_spec lo hi lo_ex hi_ex Hlo Hhi _ _ Hr), E1, Hit, E2, length_fmap.
  destruct C as [|c C _] using rev_ind; [done|]. rewrite last_snoc.
  destruct (head (C ++ [c])) as [f|] eqn:Hf; [|by destruct C].
  rewrite (sl_rank_item z (length A + length C) (member_of _ c) (score_of _ c) Hz).
  2: { rewrite Hit, list_lookup_fmap. rewrite app_assoc, lookup_app_l, app_assoc by (rewrite !length_app; simpl; lia).
       rewrite <- length_app. by rewrite list_lookup_middle. }
  rewrite (sl_rank_item z (length A) (member_of _ f) (score_of _ f) Hz).
  2: { rewrite Hit, list_lookup_fmap, lookup_app_r, Nat.sub_diag by lia.
       rewrite <- head_lookup, head_app, Hf. done. }
  rewrite length_app. simpl. lia.
Qed.

(** ** Popping *)
Lemma zs_ends z :
  zs_wf z ->
  (item (heap (zs_list z)) <$> get_fwd (heap (zs_list z)) header 0) = head (zs_items z) /\
  (item (heap (zs_list z)) <$> sl_tail (zs_list z)) = last (zs_items z).
Proof.
  intros Hz. destruct (zs_wf_items z Hz) as (l & Hr & -> & _).
  rewrite (rep_tail _ _ Hr), fmap_last. change header with (cur []). rewrite (rep_fwd0 _ [] l Hr).
  by destruct l.
Qed.

Lemma zs_items_nil z : zs_wf z -> zs_items z = [] <-> zs_scores z = [].
Proof.
  intros Hz. pose proof (zs_items_perm z Hz) as Hp. split; intros E; rewrite E in Hp.
  - by apply Permutation_nil_l in Hp.
  - by apply Permutation_nil_r in Hp.
Qed.

(** The content read from the end that is popped. *)
Definition from_end (from_max : bool) (l : list (pystr * float)) : list (pystr * float) :=
  if from_max then reverse l else l.

Lemma from_end_remove from_max p l z :
  zs_wf z -> from_end from_max (zs_items z) = p :: l ->
  from_end from_max (zs_items (zs_remove p.1 z).2) = l.
Proof.
  intros Hz Hl. rewrite zs_remove_items by done. pose proof (zs_items_nodup z Hz) as Hnd.
  assert (Hf : from_end from_max (filter (fun q => q.1 <> p.1) (zs_items z)) =
               filter (fun q => q.1 <> p.1) (from_end from_max (zs_items z))).
  { destruct from_max; [|done]. unfold from_end. generalize (zs_items z) as w.
    induction w as [|x w IH]; [done|]. rewrite reverse_cons, filter_app, !filter_cons, filter_nil.
    case_decide; [by rewrite reverse_cons, IH|by rewrite app_nil_r, IH]. }
  assert (Hnd' : NoDup (p :: l).*1).
  { rewrite <- Hl. destruct from_max; [|done]. unfold from_end. by rewrite reverse_Permutation. }
  rewrite Hf, Hl, filter_cons_False by tauto. rewrite fmap_cons in Hnd'. apply NoDup_cons in Hnd' as [Hn _].
  apply filter_all. intros q Hq Heq. apply Hn. rewrite <- Heq. by apply list_elem_of_fmap_2.
Qed.

Lemma zs_pop_n_spec n from_max z :
  zs_wf z ->
  zs_wf (zs_pop_n n from_max z).2 /\
  (zs_pop_n n from_max z).1 = take n (from_end from_max (zs_items z)) /\
  from_end from_max (zs_items (zs_pop_n n from_max z).2) = drop n (from_end from_max (zs_items z)).
Proof.
  revert z. induction n as [|n IH]; intros z Hz; [done|]. cbn [zs_pop_n].
  destruct (zs_scores z) as [|sc0 scs] eqn:Hsc.
  { apply zs_items_nil in Hsc; [|done]. rewrite !Hsc. simpl. rewrite Hsc. by destruct from_max. }
  destruct (zs_ends z Hz) as [Hh Ht].
  assert (Hend : (item (heap (zs_list z)) <$>
     (if from_max then sl_tail (zs_list z) else get_fwd (heap (zs_list z)) header 0))
     = head (from_end from_max (zs_items z))).
  { destruct from_max; [|done]. rewrite Ht. unfold from_end.
    destruct (zs_items z) as [|x w _] using rev_ind; [done|]. by rewrite last_snoc, reverse_snoc. }
  destruct (from_end from_max (zs_items z)) as [|p l] eqn:Hl.
  { exfalso. assert (E : zs_items z = []).
    { destruct from_max; [|done]. unfold from_end in Hl. apply (f_equal reverse) in Hl.
      by rewrite reverse_involutive in Hl. }
    apply zs_items_nil in E; [|done]. by rewrite E in Hsc. }
  destruct (if from_max then _ else _) as [x|]; [|done]. simpl in Hend. injection Hend as Hx.
  rewrite Hx. pose proof (zs_remove_wf p.1 z Hz) as Hz'.
  destruct (IH _ Hz') as (I1 & I2 & I3). rewrite (from_end_remove _ _ _ _ Hz Hl) in I2, I3.
  destruct (zs_pop_n n from_max (zs_remove p.1 z).2) as [rest z'] eqn:E. simpl in *.
  by rewrite I2, I3.
Qed.
End ZSetProofs.
