(* ===== verification/Eviction.v ===== *)
(** * Eviction policies (engine/eviction/)

    [EvictionPolicy] is the abstract class of base.py; [PolicyLaws] is what
    the store relies on: a policy follows the set of keys it was told about,
    and a victim is one of them and not protected.  The four policies are the
    instances, and [Policy] is what [create_eviction_policy] returns. *)
From Stdlib Require Import String.
From S2P Require Import Prelude PyStr PyFloat Oracles KeySet.
Local Close Scope string_scope.

(** ** The interface *)
Class EvictionPolicy (P : Type) := {
  pol_name : P -> pystr;
  evicts : P -> bool;
  on_insert : pystr -> P -> Oracles -> P * Oracles;
  on_access : pystr -> P -> Oracles -> P * Oracles;
  on_remove : pystr -> P -> P;
  victim : list pystr -> P -> Oracles -> option pystr * Oracles;
  pol_clear : P -> P;
  pol_len : P -> Z
}.

Class PolicyLaws (P : Type) `{EvictionPolicy P} := {
  (** The policy knows exactly the keys [K]. *)
  tracks : P -> gset pystr -> Prop;
  on_insert_tracks p K k o :
    tracks p K -> k ∉ K ->
    tracks (on_insert k p o).1 ({[k]} ∪ K) /\ same_source o (on_insert k p o).2 /\
    evicts (on_insert k p o).1 = evicts p;
  on_access_tracks p K k o :
    tracks p K ->
    tracks (on_access k p o).1 K /\ same_source o (on_access k p o).2 /\
    evicts (on_access k p o).1 = evicts p;
  on_remove_tracks p K k :
    tracks p K -> k ∈ K -> tracks (on_remove k p) (K ∖ {[k]}) /\ evicts (on_remove k p) = evicts p;
  pol_clear_tracks p K : tracks p K -> tracks (pol_clear p) ∅ /\ evicts (pol_clear p) = evicts p;
  pol_len_tracks p K : tracks p K -> pol_len p = Z.of_nat (size K);
  victim_tracks p K protect o :
    tracks p K -> oracles_ok o ->
    same_source o (victim protect p o).2 /\
    match (victim protect p o).1 with
    | Some k => k ∈ K /\ k ∉ protect
    | None => evicts p = true -> forall k, k ∈ K -> k ∈ protect
    end
}.

Definition not_in (protect : list pystr) (k : pystr) : bool := bool_decide (k ∉ protect).

Lemma not_in_true protect k : not_in protect k = true <-> k ∉ protect.
Proof. apply bool_decide_eq_true. Qed.

(** The first key that is not protected. *)
Definition first_free (protect : list pystr) (l : list pystr) : option pystr :=
  head (filter (fun k => not_in protect k = true) l).

Lemma first_free_spec protect l :
  match first_free protect l with
  | Some k => k ∈ l /\ k ∉ protect
  | None => forall k, k ∈ l -> k ∈ protect
  end.
Proof.
  unfold first_free. destruct (filter _ l) as [|k r] eqn:E; simpl.
  - intros k Hk. destruct (decide (k ∈ protect)) as [|Hn]; [done|]. exfalso.
    apply (not_elem_of_nil k). rewrite <- E. apply list_elem_of_filter. by rewrite not_in_true.
  - assert (Hk : k ∈ k :: r) by left. rewrite <- E in Hk.
    apply list_elem_of_filter in Hk as [Hn Hk]. by rewrite not_in_true in Hn.
Qed.

(** ** LRU: an [OrderedDict], oldest key first *)
Record LRUPolicy := mkLRU { lru_order : list pystr }.

Definition move_to_end (key : pystr) (l : list pystr) : list pystr :=
  filter (fun k => k <> key) l ++ [key].

Definition lru_insert (key : pystr) (p : LRUPolicy) : LRUPolicy := mkLRU (move_to_end key (lru_order p)).
Definition lru_access (key : pystr) (p : LRUPolicy) : LRUPolicy :=
  if bool_decide (key ∈ lru_order p) then mkLRU (move_to_end key (lru_order p)) else p.
Definition lru_remove (key : pystr) (p : LRUPolicy) : LRUPolicy :=
  mkLRU (filter (fun k => k <> key) (lru_order p)).
Definition lru_victim (protect : list pystr) (p : LRUPolicy) : option pystr :=
  first_free protect (lru_order p).

#[export] Instance LRU : EvictionPolicy LRUPolicy := {|
  pol_name _ := lit "lru";
  evicts _ := true;
  on_insert k p o := (lru_insert k p, o);
  on_access k p o := (lru_access k p, o);
  on_remove := lru_remove;
  victim protect p o := (lru_victim protect p, o);
  pol_clear _ := mkLRU [];
  pol_len p := Z.of_nat (length (lru_order p))
|}.

Definition lru_tracks (p : LRUPolicy) (K : gset pystr) : Prop :=
  NoDup (lru_order p) /\ forall k, k ∈ lru_order p <-> k ∈ K.

Lemma move_to_end_elem key l k : k ∈ move_to_end key l <-> k = key \/ k ∈ l.
Proof.
  unfold move_to_end. rewrite elem_of_app, list_elem_of_filter, list_elem_of_singleton.
  destruct (decide (k = key)); naive_solver.
Qed.

Lemma move_to_end_NoDup key l : NoDup l -> NoDup (move_to_end key l).
Proof.
  intros Hl. apply NoDup_app. split_and!; [by apply NoDup_filter| |apply NoDup_singleton].
  intros x Hx%list_elem_of_filter. rewrite list_elem_of_singleton. naive_solver.
Qed.

Lemma NoDup_size (l : list pystr) (K : gset pystr) :
  NoDup l -> (forall k, k ∈ l <-> k ∈ K) -> length l = size K.
Proof.
  intros Hnd Hl. rewrite <- (size_list_to_set (C := gset pystr) l Hnd). f_equal.
  apply set_eq. intros k. by rewrite elem_of_list_to_set.
Qed.

#[export] Instance LRU_laws : PolicyLaws LRUPolicy.
Proof.
  refine {| tracks := lru_tracks |}; simpl; unfold lru_tracks.
  - intros p K k o [Hnd HK] Hk. split_and!; [by apply move_to_end_NoDup| |done|done].
    intros x. simpl. rewrite move_to_end_elem, HK. set_solver.
  - intros p K k o [Hnd HK]. unfold lru_access. case_bool_decide as Hin; [|done].
    split_and!; [by apply move_to_end_NoDup| |done|done].
    intros x. simpl. rewrite move_to_end_elem, HK. rewrite HK in Hin. naive_solver.
  - intros p K k [Hnd HK] Hk. split_and!; [by apply NoDup_filter| |done].
    intros x. simpl. rewrite list_elem_of_filter, HK. set_solver.
  - intros p K _. split_and!; [constructor|set_solver|done].
  - intros p K [Hnd HK]. f_equal. by apply NoDup_size.
  - intros p K protect o [Hnd HK] _. split; [done|]. unfold lru_victim.
    pose proof (first_free_spec protect (lru_order p)) as Hv.
    destruct (first_free _ _); [naive_solver|]. intros _ k Hk. apply Hv. by apply HK.
Defined.

(** ** Random eviction *)
Record RandomPolicy := mkRandom { rnd_keys : SampleableKeySet }.

Fixpoint rnd_tries (n : nat) (protect : list pystr) (s : SampleableKeySet) (o : Oracles)
  : option pystr * Oracles :=
  match n with
  | O => (first_free protect (ks_items s), o)
  | S n' =>
      let '(picked, o) := ks_sample 1 s o in
      match picked with
      | [] => (None, o)
      | k :: _ => if not_in protect k then (Some k, o) else rnd_tries n' protect s o
      end
  end.
Definition rnd_victim (protect : list pystr) (p : RandomPolicy) (o : Oracles) : option pystr * Oracles :=
  rnd_tries 8 protect (rnd_keys p) o.

#[export] Instance Random : EvictionPolicy RandomPolicy := {|
  pol_name _ := lit "random";
  evicts _ := true;
  on_insert k p o := (mkRandom (ks_add k (rnd_keys p)), o);
  on_access _ p o := (p, o);
  on_remove k p := mkRandom (ks_discard k (rnd_keys p));
  victim := rnd_victim;
  pol_clear _ := mkRandom ks_empty;
  pol_len p := Z.of_nat (ks_len (rnd_keys p))
|}.

Definition keys_track (s : SampleableKeySet) (K : gset pystr) : Prop :=
  ks_wf s /\ forall k, k ∈ ks_items s <-> k ∈ K.

Lemma keys_track_add s K k : keys_track s K -> keys_track (ks_add k s) ({[k]} ∪ K).
Proof.
  intros [Hwf HK]. split; [by apply ks_add_wf|]. intros x. rewrite ks_add_items by done. set_solver.
Qed.

Lemma keys_track_discard s K k : keys_track s K -> keys_track (ks_discard k s) (K ∖ {[k]}).
Proof.
  intros [Hwf HK]. split; [by apply ks_discard_wf|]. intros x. rewrite ks_discard_items by done. set_solver.
Qed.

Lemma keys_track_len s K : keys_track s K -> ks_len s = size K.
Proof. intros [Hwf HK]. apply NoDup_size; [by apply ks_NoDup|done]. Qed.

Lemma rnd_tries_spec n protect s K o :
  keys_track s K -> oracles_ok o ->
  same_source o (rnd_tries n protect s o).2 /\
  match (rnd_tries n protect s o).1 with
  | Some k => k ∈ K /\ k ∉ protect
  | None => forall k, k ∈ K -> k ∈ protect
  end.
Proof.
  intros [Hwf HK]. revert o. induction n as [|n IH]; intros o Ho; cbn [rnd_tries].
  - split; [done|]. pose proof (first_free_spec protect (ks_items s)) as Hv. simpl.
    destruct (first_free _ _); [naive_solver|]. intros k Hk. apply Hv. by apply HK.
  - destruct (ks_sample_spec 1 s o Hwf Ho) as (Hlen & _ & Hin & Hsrc).
    destruct (ks_sample 1 s o) as [picked o']. simpl in *.
    destruct picked as [|k r].
    + split; [done|]. intros k Hk. apply HK in Hk. simpl in Hlen. unfold ks_len in Hlen.
      destruct (ks_items s); [by apply not_elem_of_nil in Hk|simpl in Hlen; lia].
    + destruct (not_in protect k) eqn:Hn.
      * split; [done|]. apply not_in_true in Hn. split; [|done]. apply HK, Hin. left.
      * destruct (IH o') as [H1 H2]; [by eapply same_source_ok|]. split; [by etrans|done].
Qed.

#[export] Instance Random_laws : PolicyLaws RandomPolicy.
Proof.
  refine {| tracks p K := keys_track (rnd_keys p) K |}; simpl.
  - intros p K k o HK _. split_and!; [by apply keys_track_add|done|done].
  - intros p K k o HK. done.
  - intros p K k HK _. split; [by apply keys_track_discard|done].
  - intros p K _. split; [|done]. split; [apply ks_empty_wf|set_solver].
  - intros p K HK. by rewrite (keys_track_len _ _ HK).
  - intros p K protect o HK Ho. destruct (rnd_tries_spec 8 protect (rnd_keys p) K o HK Ho) as [H1 H2].
    split; [done|]. unfold rnd_victim. destruct (rnd_tries _ _ _ _).1; [done|]. intros _. done.
Defined.

(** ** No eviction: a counter *)
Record NoEvictionPolicy := mkNoEviction { noe_count : Z }.

#[export] Instance NoEviction : EvictionPolicy NoEvictionPolicy := {|
  pol_name _ := lit "noeviction";
  evicts _ := false;
  on_insert _ p o := (mkNoEviction (noe_count p + 1), o);
  on_access _ p o := (p, o);
  on_remove _ p := mkNoEviction (noe_count p - 1);
  victim _ p o := (None, o);
  pol_clear _ := mkNoEviction 0;
  pol_len p := noe_count p
|}.

#[export] Instance NoEviction_laws : PolicyLaws NoEvictionPolicy.
Proof.
  refine {| tracks p K := noe_count p = Z.of_nat (size K) |}; simpl.
  - intros p K k o HK Hk. split_and!; [|done|done].
    rewrite size_union by set_solver. rewrite size_singleton. lia.
  - done.
  - intros p K k HK Hk. split; [|done]. rewrite size_difference, size_singleton by set_solver.
    assert (0 < size K)%nat; [|lia]. destruct (decide (size K = 0%nat)) as [E|]; [|lia].
    apply size_empty_inv in E. set_solver.
  - done.
  - done.
  - done.
Defined.

(** ** LFU: 8-bit logarithmic counters with decay *)
Definition INIT_COUNTER : Z := 5.
Definition MAX_COUNTER : Z := 255.

Record LFUPolicy := mkLFU {
  lfu_samples : nat;
  lfu_log_factor : Z;
  lfu_decay_minutes : Z;
  lfu_keys : SampleableKeySet;
  lfu_meta : list (pystr * (Z * Z))  (* key -> (counter, minute of last decrement) *)
}.
Definition lfu_new : LFUPolicy := mkLFU 10 10 1 ks_empty [].

Definition lfu_with (keys : SampleableKeySet) (meta : list (pystr * (Z * Z))) (p : LFUPolicy) : LFUPolicy :=
  mkLFU (lfu_samples p) (lfu_log_factor p) (lfu_decay_minutes p) keys meta.

(** [_minutes]: [int(clock() // 60)]. *)
Definition lfu_minutes (o : Oracles) : Z * Oracles :=
  let '(t, o) := clock_now o in (default 0 (ffloordiv t 60), o).

(** [counter]: the stored counter less the decay for the idle minutes.  A key
    without metadata is a KeyError in Python; [lfu_tracks] excludes it. *)
Definition lfu_counter (key : pystr) (p : LFUPolicy) (o : Oracles) : Z * Oracles :=
  let '(counter, last) := default (0, 0) (dict_get key (lfu_meta p)) in
  if 0 <? lfu_decay_minutes p then
    let '(minute, o) := lfu_minutes o in
    (Z.max 0 (counter - (minute - last) / lfu_decay_minutes p), o)
  else (Z.max 0 counter, o).

Definition lfu_increment (counter : Z) (p : LFUPolicy) (o : Oracles) : Z * Oracles :=
  if MAX_COUNTER <=? counter then (MAX_COUNTER, o)
  else
    let base := Z.max 0 (counter - INIT_COUNTER) in
    let '(r, o) := random o in
    (if flt r (fdiv (float_of_Z 1) (float_of_Z (base * lfu_log_factor p + 1))) then counter + 1
     else counter, o).

Definition lfu_insert (key : pystr) (p : LFUPolicy) (o : Oracles) : LFUPolicy * Oracles :=
  let '(minute, o) := lfu_minutes o in
  (lfu_with (ks_add key (lfu_keys p)) (dict_set key (INIT_COUNTER, minute) (lfu_meta p)) p, o).

Definition lfu_access (key : pystr) (p : LFUPolicy) (o : Oracles) : LFUPolicy * Oracles :=
  if negb (dict_mem key (lfu_meta p)) then (p, o)
  else
    let '(c, o) := lfu_counter key p o in
    let '(c, o) := lfu_increment c p o in
    let '(minute, o) := lfu_minutes o in
    (lfu_with (lfu_keys p) (dict_set key (c, minute) (lfu_meta p)) p, o).

Definition lfu_remove (key : pystr) (p : LFUPolicy) : LFUPolicy :=
  match dict_get key (lfu_meta p) with
  | Some _ => lfu_with (ks_discard key (lfu_keys p)) (dict_pop key (lfu_meta p)) p
  | None => p
  end.

(** [min(candidates, key=self.counter)]: the clock is read for each candidate,
    the first of the smallest is returned. *)
Fixpoint lfu_min (best : pystr * Z) (l : list pystr) (p : LFUPolicy) (o : Oracles) : pystr * Oracles :=
  match l with
  | [] => (best.1, o)
  | k :: l' =>
      let '(c, o) := lfu_counter k p o in
      lfu_min (if c <? best.2 then (k, c) else best) l' p o
  end.

Definition lfu_victim (protect : list pystr) (p : LFUPolicy) (o : Oracles) : option pystr * Oracles :=
  let '(picked, o) := ks_sample (lfu_samples p) (lfu_keys p) o in
  let candidates := filter (fun k => not_in protect k = true) picked in
  let candidates := match candidates with
                    | [] => filter (fun k => not_in protect k = true) (ks_items (lfu_keys p))
                    | _ => candidates
                    end in
  match candidates with
  | [] => (None, o)
  | k :: rest =>
      let '(c, o) := lfu_counter k p o in
      let '(v, o) := lfu_min (k, c) rest p o in (Some v, o)
  end.

#[export] Instance LFU : EvictionPolicy LFUPolicy := {|
  pol_name _ := lit "lfu";
  evicts _ := true;
  on_insert := lfu_insert;
  on_access := lfu_access;
  on_remove := lfu_remove;
  victim := lfu_victim;
  pol_clear p := lfu_with ks_empty [] p;
  pol_len p := Z.of_nat (length (lfu_meta p))
|}.

(** The counters and the sampling set hold the same keys, and every counter
    is an 8-bit number. *)
Definition lfu_tracks (p : LFUPolicy) (K : gset pystr) : Prop :=
  keys_track (lfu_keys p) K /\ dict_wf (lfu_meta p) /\ (forall k, k ∈ (lfu_meta p).*1 <-> k ∈ K) /\
  Forall (fun e => 0 <= e.2.1 <= MAX_COUNTER) (lfu_meta p).

Lemma lfu_minutes_source o : same_source o (lfu_minutes o).2.
Proof. done. Qed.

Lemma lfu_counter_source k p o : same_source o (lfu_counter k p o).2.
Proof. unfold lfu_counter. destruct (default _ _) as [c l]. by destruct (0 <? _). Qed.

Lemma lfu_counter_nonneg k p o : 0 <= (lfu_counter k p o).1.
Proof. unfold lfu_counter. destruct (default _ _) as [c l]. destruct (0 <? _); simpl; lia. Qed.

Lemma lfu_increment_spec c p o :
  0 <= c -> 0 <= (lfu_increment c p o).1 <= MAX_COUNTER /\ same_source o (lfu_increment c p o).2.
Proof.
  intros Hc. unfold lfu_increment, MAX_COUNTER. destruct (Z.leb_spec 255 c); [split; [simpl; lia|done]|].
  simpl. destruct (flt _ _); (split; [lia|done]).
Qed.

Lemma dict_set_Forall {V} (Q : pystr * V -> Prop) k v (d : list (pystr * V)) :
  Forall Q d -> Q (k, v) -> Forall Q (dict_set k v d).
Proof.
  intros Hd Hv. induction Hd as [|[k' v'] d Hx Hd IH]; simpl; [by constructor|].
  destruct (decide (k = k')) as [<-|]; by constructor.
Qed.

Lemma lfu_set_tracks p K k e keys :
  lfu_tracks p K -> keys_track keys ({[k]} ∪ K) -> 0 <= e.1 <= MAX_COUNTER ->
  lfu_tracks (lfu_with keys (dict_set k e (lfu_meta p)) p) ({[k]} ∪ K).
Proof.
  intros (Hk & Hwf & Hm & Hb) Hkeys He. split_and!; [done|by apply dict_set_wf| |].
  - intros x. simpl. rewrite dict_keys_set, Hm. set_solver.
  - by apply dict_set_Forall.
Qed.

Lemma lfu_access_tracks p K k o :
  lfu_tracks p K -> lfu_tracks (lfu_access k p o).1 K /\ same_source o (lfu_access k p o).2.
Proof.
  intros Ht. unfold lfu_access. destruct (dict_mem k (lfu_meta p)) eqn:Hm; cbn [negb]; [|done].
  pose proof (lfu_counter_source k p o) as S1. pose proof (lfu_counter_nonneg k p o) as N1.
  destruct (lfu_counter k p o) as [c1 o1]. simpl in S1, N1.
  destruct (lfu_increment_spec c1 p o1 N1) as [N2 S2].
  destruct (lfu_increment c1 p o1) as [c2 o2]. simpl in S2, N2.
  pose proof (lfu_minutes_source o2) as S3. destruct (lfu_minutes o2) as [m o3]. simpl in S3.
  split; [|simpl; by etrans; [|etrans]].
  apply dict_mem_true in Hm. destruct Ht as (Hk & Hwf & Hkm & Hb). apply Hkm in Hm.
  assert (E : {[k]} ∪ K = K) by set_solver.
  rewrite <- E. apply lfu_set_tracks; [done|by rewrite E|done].
Qed.

Lemma lfu_min_spec best l p o :
  (lfu_min best l p o).1 ∈ best.1 :: l /\ same_source o (lfu_min best l p o).2.
Proof.
  revert best o. induction l as [|k l IH]; intros best o; cbn [lfu_min]; [split; [left|done]|].
  pose proof (lfu_counter_source k p o) as S1. destruct (lfu_counter k p o) as [c o1]. simpl in S1.
  destruct (IH (if c <? best.2 then (k, c) else best) o1) as [I1 I2]. split; [|by etrans].
  destruct (c <? best.2); simpl in I1; set_solver.
Qed.

Lemma lfu_victim_spec p K protect o :
  lfu_tracks p K -> oracles_ok o ->
  same_source o (lfu_victim protect p o).2 /\
  match (lfu_victim protect p o).1 with
  | Some k => k ∈ K /\ k ∉ protect
  | None => forall k, k ∈ K -> k ∈ protect
  end.
Proof.
  intros ([Hwf HK] & _) Ho. unfold lfu_victim.
  destruct (ks_sample_spec (lfu_samples p) (lfu_keys p) o Hwf Ho) as (_ & _ & Hin & S1).
  destruct (ks_sample (lfu_samples p) (lfu_keys p) o) as [picked o1]. simpl in Hin, S1.
  set (cands := match filter _ picked with [] => _ | _ => _ end).
  assert (Hc : forall k, k ∈ cands -> k ∈ K /\ k ∉ protect).
  { intros k Hk. unfold cands in Hk. rewrite <- not_in_true, <- HK.
    destruct (filter (fun k => not_in protect k = true) picked) as [|q r] eqn:E.
    - by apply list_elem_of_filter in Hk as [? ?].
    - rewrite <- E in Hk. apply list_elem_of_filter in Hk as [? Hk]. auto. }
  assert (Hn : cands = [] -> forall k, k ∈ K -> k ∈ protect).
  { intros E k Hk. pose proof (first_free_spec protect (ks_items (lfu_keys p))) as Hv.
    unfold first_free in Hv. unfold cands in E. destruct (filter _ picked); [|done].
    rewrite E in Hv. apply Hv. by apply HK. }
  clearbody cands. destruct cands as [|k rest]; [split; [done|exact (Hn eq_refl)]|].
  pose proof (lfu_counter_source k p o1) as S2. destruct (lfu_counter k p o1) as [c o2]. simpl in S2.
  destruct (lfu_min_spec (k, c) rest p o2) as [I1 I2].
  destruct (lfu_min (k, c) rest p o2) as [v o3]. simpl in *.
  split; [by etrans; [|etrans]|]. by apply Hc.
Qed.

#[export] Instance LFU_laws : PolicyLaws LFUPolicy.
Proof.
  refine {| tracks := lfu_tracks |}; simpl.
  - intros p K k o Ht Hk. split_and!; [|done|done]. unfold lfu_insert.
    destruct (lfu_minutes o) as [m o']. apply lfu_set_tracks; [done| |simpl; unfold INIT_COUNTER, MAX_COUNTER; lia].
    apply keys_track_add, Ht.
  - intros p K k o Ht. destruct (lfu_access_tracks p K k o Ht). done.
  - intros p K k Ht Hk. split; [|done]. pose proof Ht as (Hkeys & Hwf & Hm & Hb). unfold lfu_remove.
    destruct (dict_get k (lfu_meta p)) as [e|] eqn:E.
    + split_and!; [by apply keys_track_discard|by apply dict_pop_wf| |].
      * intros x. simpl. rewrite dict_keys_pop, Hm by done. set_solver.
      * rewrite Forall_forall in Hb |- *. intros q Hq. apply Hb.
        eapply elem_of_submseteq; [exact Hq|]. apply sublist_submseteq, dict_pop_sublist.
    + apply dict_get_None in E. by apply Hm in Hk.
  - intros p K _. split; [|done]. split_and!; [split; [apply ks_empty_wf|set_solver]|constructor|set_solver|constructor].
  - intros p K (_ & Hwf & Hm & _). f_equal. rewrite <- (length_fmap fst). by apply NoDup_size.
  - intros p K protect o Ht Ho. destruct (lfu_victim_spec p K protect o Ht Ho) as [H1 H2].
    split; [done|]. destruct (lfu_victim protect p o).1; [done|]. intros _. done.
Defined.

(** ** [create_eviction_policy] *)
Inductive Policy :=
| PLru (p : LRUPolicy)
| PLfu (p : LFUPolicy)
| PRandom (p : RandomPolicy)
| PNoEviction (p : NoEvictionPolicy).

Definition create_eviction_policy (name : pystr) : option Policy :=
  if bool_decide (name = lit "lru") then Some (PLru (mkLRU []))
  else if bool_decide (name = lit "lfu") then Some (PLfu lfu_new)
  else if bool_decide (name = lit "random") then Some (PRandom (mkRandom ks_empty))
  else if bool_decide (name = lit "noeviction") then Some (PNoEviction (mkNoEviction 0))
  else None.

Definition on_fst {A B C} (f : A -> B) (p : A * C) : B * C := (f p.1, p.2).

#[export] Instance AnyPolicy : EvictionPolicy Policy := {|
  pol_name p := match p with PLru q => pol_name q | PLfu q => pol_name q
                | PRandom q => pol_name q | PNoEviction q => pol_name q end;
  evicts p := match p with PLru q => evicts q | PLfu q => evicts q
              | PRandom q => evicts q | PNoEviction q => evicts q end;
  on_insert k p o := match p with
    | PLru q => on_fst PLru (on_insert k q o)
    | PLfu q => on_fst PLfu (on_insert k q o)
    | PRandom q => on_fst PRandom (on_insert k q o)
    | PNoEviction q => on_fst PNoEviction (on_insert k q o)
    end;
  on_access k p o := match p with
    | PLru q => on_fst PLru (on_access k q o)
    | PLfu q => on_fst PLfu (on_access k q o)
    | PRandom q => on_fst PRandom (on_access k q o)
    | PNoEviction q => on_fst PNoEviction (on_access k q o)
    end;
  on_remove k p := match p with
    | PLru q => PLru (on_remove k q)
    | PLfu q => PLfu (on_remove k q)
    | PRandom q => PRandom (on_remove k q)
    | PNoEviction q => PNoEviction (on_remove k q)
    end;
  victim protect p o := match p with
    | PLru q => victim protect q o
    | PLfu q => victim protect q o
    | PRandom q => victim protect q o
    | PNoEviction q => victim protect q o
    end;
  pol_clear p := match p with
    | PLru q => PLru (pol_clear q)
    | PLfu q => PLfu (pol_clear q)
    | PRandom q => PRandom (pol_clear q)
    | PNoEviction q => PNoEviction (pol_clear q)
    end;
  pol_len p := match p with PLru q => pol_len q | PLfu q => pol_len q
               | PRandom q => pol_len q | PNoEviction q => pol_len q end
|}.

Definition any_tracks (p : Policy) (K : gset pystr) : Prop :=
  match p with PLru q => tracks q K | PLfu q => tracks q K
  | PRandom q => tracks q K | PNoEviction q => tracks q K end.

#[export] Instance AnyPolicy_laws : PolicyLaws Policy.
Proof.
  refine {| tracks := any_tracks |}.
  - intros [q|q|q|q] K k o Ht Hk; by apply (on_insert_tracks q K k o).
  - intros [q|q|q|q] K k o Ht; by apply (on_access_tracks q K k o).
  - intros [q|q|q|q] K k Ht Hk; by apply (on_remove_tracks q K k).
  - intros [q|q|q|q] K Ht; by apply (pol_clear_tracks q K).
  - intros [q|q|q|q] K Ht; by apply (pol_len_tracks q K).
  - intros [q|q|q|q] K protect o Ht Ho; by apply (victim_tracks q K protect o).
Defined.

Lemma create_tracks name p : create_eviction_policy name = Some p -> tracks p (∅ : gset pystr).
Proof.
  unfold create_eviction_policy. intros Hc.
  repeat case_bool_decide; simplify_eq; simpl; unfold lru_tracks, lfu_tracks, keys_track; simpl;
    split_and?; try apply ks_empty_wf; try constructor; set_solver.
Qed.
