(* ===== verification/TypesSpec.v ===== *)
(** * What the data types guarantee

    Sorted sets, lists, sampleable sets and the least-recently-used policy
    against reference definitions: the sorted listing, plain list functions,
    sets, and a table of the time of the last use of every key. *)

From Stdlib Require Import String.
From S2P Require Import Prelude PyStr PyFloat Oracles KeySet Containers.
From S2P Require Import SkipList SkipListProofs SkipListQuery ZSet Eviction.
Local Close Scope string_scope.

(** ** Sorted sets *)
Section SortedSets.
Context `{Sizing}.

(** By score, then by member. *)
Definition ordered (p q : pystr * float) : Prop :=
  flt p.2 q.2 = true \/ (feq p.2 q.2 = true /\ str_ltb p.1 q.1 = true).

Lemma pair_lt_ordered p q : is_nan p.2 = false -> is_nan q.2 = false -> pair_lt p q -> ordered p q.
Proof.
  unfold pair_lt, ordered, zkey. intros Hp Hq. rewrite str_cmp_app_eqlen by (by rewrite !fkey_length).
  rewrite flt_key, feq_key by done. unfold str_ltb. destruct (str_cmp (fkey p.2) (fkey q.2)) eqn:Hc; intros Hlt.
  - right. rewrite Hlt. apply str_cmp_eq in Hc. by rewrite bool_decide_true.
  - by left.
  - done.
Qed.

Lemma zs_scores_not_nan z m s : zs_wf z -> (m, s) ∈ zs_items z -> is_nan s = false.
Proof.
  intros Hz Hs. destruct (zs_wf_items z Hz) as (l & Hr & Hi & _). rewrite Hi in Hs.
  apply list_elem_of_fmap in Hs as (x & [= -> ->] & Hx). by eapply score_not_nan; [apply (rep_linked _ _ Hr)|].
Qed.

Lemma sorted_ordered l :
  Forall (fun p => is_nan p.2 = false) l -> StronglySorted pair_lt l -> StronglySorted ordered l.
Proof.
  intros Hn Hs. induction Hs as [|p l Hs IH Hp]; [constructor|]. inversion_clear Hn as [|? ? Hn1 Hn2].
  constructor; [by apply IH|]. rewrite Forall_forall in Hp, Hn2 |- *.
  intros q Hq. apply pair_lt_ordered; auto.
Qed.


(** C26. ZADD's and ZREM's effect on a sorted set: the invariant is kept, the
    member's score is the new one (or gone), every other member keeps its
    score, and the result tells whether the member was new (or was there). *)
Theorem sorted_set_updates z m s o (Hz : zs_wf z) (Hs : is_nan s = false) :
  let added := (zs_add m s z o).1 in let removed := zs_remove m z in
  zs_wf added.2 /\ added.1 = negb (zs_contains m z) /\
  (exists s', zs_score m added.2 = Some s' /\ (s' = s \/ feq s' s = true)) /\
  zs_wf removed.2 /\ removed.1 = zs_contains m z /\ zs_score m removed.2 = None /\
  (forall m', m' <> m -> zs_score m' added.2 = zs_score m' z /\ zs_score m' removed.2 = zs_score m' z).
Proof.
  cbv zeta. split_and!.
  - by apply zs_add_wf.
  - unfold zs_add, zs_contains, dict_mem. destruct (dict_get m (zs_scores z)) as [old|].
    + destruct (feq old s); [done|]. simpl. by destruct (sl_insert _ _ _ _).
    + by destruct (sl_insert _ _ _ _).
  - rewrite zs_add_score, decide_True by done. destruct (zs_score m z) as [old|]; [|by exists s; auto].
    destruct (feq old s) eqn:E; [exists old|exists s]; auto.
  - by apply zs_remove_wf.
  - unfold zs_remove, zs_contains, dict_mem. by destruct (dict_get m (zs_scores z)).
  - by rewrite zs_remove_score, decide_True.
  - intros m' Hm. by rewrite zs_add_score, zs_remove_score, !decide_False.
Qed.

Lemma filter_reverse {T} (P : T -> Prop) `{!forall x, Decision (P x)} (l : list T) :
  filter P (reverse l) = reverse (filter P l).
Proof.
  induction l as [|x l IH]; [done|]. rewrite reverse_cons, filter_app, IH, !filter_cons, filter_nil.
  case_decide; [by rewrite reverse_cons|by rewrite app_nil_r].
Qed.

(** C27. The queries of a sorted set, all computed from skip-list spans and
    links, are the list functions of its sorted listing: rank is the position
    from either end, a range by rank is a slice, a range by score is the
    filtered listing cut by LIMIT, and a count is the size of that filter. *)
Theorem sorted_set_queries z m start stop lo hi lo_ex hi_ex (rev : bool) offset count
    (Hz : zs_wf z) (Hlo : is_nan lo = false) (Hhi : is_nan hi = false) :
  let listing := if rev then reverse (zs_items z) else zs_items z in
  let hits := filter (fun p : pystr * float => in_range lo hi lo_ex hi_ex p.2 = true) listing in
  match zs_rank m rev z with
  | Some r => 0 <= r /\ exists s, listing !! Z.to_nat r = Some (m, s)
  | None => m ∉ listing.*1
  end /\
  zs_range_by_rank start stop rev z =
    match clamp start stop (zs_len z) with
    | None => []
    | Some (first, last) => islice listing first (last + 1)
    end /\
  zs_range_by_score lo hi lo_ex hi_ex rev offset count z = limit count (drop (Z.to_nat offset) hits) /\
  zs_count_in_range lo hi lo_ex hi_ex z = Z.of_nat (length hits).
Proof.
  cbv zeta. destruct (zs_wf_items z Hz) as (l & _ & _ & Hperm). split_and!.
  - destruct (zs_score m z) as [s|] eqn:Hm.
    + pose proof Hm as Hin. apply zs_score_elem in Hin; [|done].
      apply list_elem_of_lookup in Hin as (i & Hi). rewrite (zs_rank_spec z i m s rev Hz Hi).
      pose proof (lookup_lt_Some _ _ _ Hi) as Hlt. unfold zs_len. pose proof (Permutation_length Hperm) as Hlen. destruct rev.
      * split; [lia|]. exists s. rewrite reverse_lookup by lia. rewrite <- Hi. by replace (_ - S _)%nat with i by lia.
      * split; [lia|]. exists s. by rewrite Nat2Z.id.
    + unfold zs_rank. unfold zs_score in Hm. rewrite Hm. apply dict_get_None in Hm.
      rewrite <- Hperm in Hm. destruct rev; [by rewrite fmap_reverse, elem_of_reverse|done].
  - by apply zs_range_by_rank_spec.
  - rewrite zs_range_by_score_spec by done. unfold score_hits. destruct rev; [|done].
    by rewrite filter_reverse.
  - rewrite zs_count_in_range_spec by done. unfold score_hits. destruct rev; [|done].
    by rewrite filter_reverse, length_reverse.
Qed.

(** Popping takes the requested number of pairs (or all there are) from
    the low or the high end, in that order, and leaves exactly the rest. *)
Lemma sorted_set_pop z n from_max (Hz : zs_wf z) :
  let '(popped, z') := zs_pop n from_max z in
  zs_wf z' /\ from_end from_max (zs_items z) = popped ++ from_end from_max (zs_items z') /\
  Z.of_nat (length popped) = Z.min (Z.max 0 n) (zs_len z).
Proof.
  destruct (zs_pop_n_spec (Z.to_nat n) from_max z Hz) as (Hw & Hp & Hr). unfold zs_pop.
  destruct (zs_pop_n _ _ _) as [popped z'] eqn:E. simpl in *. split_and!; [done| |].
  - by rewrite Hp, Hr, take_drop.
  - rewrite Hp, length_take. destruct (zs_wf_items z Hz) as (l & _ & _ & Hperm). unfold zs_len.
    rewrite <- Hperm. unfold from_end. destruct from_max; rewrite ?length_reverse; lia.
Qed.
End SortedSets.

(** ** Lists *)
Section Lists.
Context `{Sizing}.

(** The elements at the positions [first..last], counting from [i]. *)
Fixpoint positions {T} (first last i : Z) (l : list T) : list T :=
  match l with
  | [] => []
  | x :: l' => (if (first <=? i) && (i <=? last) then [x] else []) ++ positions first last (i + 1) l'
  end.

Lemma positions_app {T} (a b : list T) first last i :
  positions first last i (a ++ b) = positions first last i a ++ positions first last (i + Z.of_nat (length a)) b.
Proof.
  revert i. induction a as [|x a IH]; intros i; simpl.
  - by rewrite Z.add_0_r.
  - rewrite IH, <- app_assoc. do 3 f_equal. lia.
Qed.

Lemma positions_all {T} (l : list T) first last i :
  (forall j, i <= j < i + Z.of_nat (length l) -> first <= j <= last) -> positions first last i l = l.
Proof.
  revert i. induction l as [|x l IH]; intros i Hj; [done|]. simpl in *.
  rewrite IH by (intros; apply Hj; lia). pose proof (Hj i ltac:(lia)).
  by replace ((first <=? i) && (i <=? last)) with true by lia.
Qed.

Lemma positions_none {T} (l : list T) first last i :
  (forall j, i <= j < i + Z.of_nat (length l) -> ~ (first <= j <= last)) -> positions first last i l = [].
Proof.
  revert i. induction l as [|x l IH]; intros i Hj; [done|]. simpl in *.
  rewrite IH by (intros; apply Hj; lia). pose proof (Hj i ltac:(lia)).
  by replace ((first <=? i) && (i <=? last)) with false by lia.
Qed.

Lemma clamp_positions {T} (l : list T) start stop :
  let n := Z.of_nat (length l) in
  match clamp start stop n with None => [] | Some (lo, hi) => islice l lo (hi + 1) end =
  positions (norm_index start n) (norm_index stop n) 0 l.
Proof.
  cbv zeta. destruct (clamp _ _ _) as [[lo hi]|] eqn:E.
  - apply clamp_Some in E as (H1 & H2 & H3). unfold islice, slice.
    rewrite <- skipn_firstn_comm. set (m := take (Z.to_nat (hi + 1)) l).
    transitivity (positions (norm_index start (Z.of_nat (length l))) (norm_index stop (Z.of_nat (length l))) 0
                    (take (Z.to_nat lo) m ++ drop (Z.to_nat lo) m ++ drop (Z.to_nat (hi + 1)) l));
      [|unfold m; by rewrite app_assoc, !take_drop].
    assert (Hm : Z.of_nat (length m) = hi + 1) by (unfold m; rewrite length_take; lia).
    rewrite !positions_app, (positions_none (take _ m)), (positions_none (drop _ l)), app_nil_r;
      [symmetry; apply positions_all|..];
      rewrite ?length_take, ?length_drop; intros j Hj; (apply H3 || rewrite H3); lia.
  - symmetry. apply positions_none. intros j Hj. by apply clamp_None.
Qed.

(** A list value behaves as the Python list of its items: LRANGE returns
    and LTRIM keeps exactly the positions between the two indices, negative
    ones counted from the tail, LREM drops the first, last or all occurrences
    and reports how many, and popping takes a prefix or a reversed suffix;
    the byte estimate follows. *)
Lemma list_value_operations l start stop count v n (Hl : lv_wf l) (Hn : 0 <= n) :
  let items := lv_items l in
  let kept := positions (norm_index start (lv_len l)) (norm_index stop (lv_len l)) 0 items in
  lv_range start stop l = kept /\
  lv_items (lv_trim start stop l) = kept /\ lv_wf (lv_trim start stop l) /\
  lv_items (lv_remove count v l).2 = lrem_spec count v items /\ lv_wf (lv_remove count v l).2 /\
  (lv_remove count v l).1 = lv_len l - lv_len (lv_remove count v l).2 /\
  items = (lv_pop n true l).1 ++ lv_items (lv_pop n true l).2 /\
  items = lv_items (lv_pop n false l).2 ++ reverse (lv_pop n false l).1 /\
  (forall left, Z.of_nat (length (lv_pop n left l).1) = Z.min n (lv_len l) /\ lv_wf (lv_pop n left l).2).
Proof.
  cbv zeta. destruct (lv_remove_spec count v l Hl) as (R1 & R2 & R3).
  assert (Hp : (Z.to_nat (Z.min n (lv_len l)) <= length (lv_items l))%nat) by (unfold lv_len; lia).
  destruct (lv_pop_n_left _ l Hl Hp) as (P1 & P2 & P3).
  destruct (lv_pop_n_right _ l Hl Hp) as (Q1 & Q2 & Q3).
  assert (Hr : lv_range start stop l = positions (norm_index start (lv_len l)) (norm_index stop (lv_len l)) 0 (lv_items l)).
  { rewrite lv_range_slice. apply clamp_positions. }
  unfold lv_trim, lv_pop. rewrite lv_new_items, P1, P2, Q1, Q2.
  split_and!; try done; [apply lv_new_wf|by rewrite take_drop| |].
  - by rewrite take_reverse, reverse_involutive, take_drop.
  - intros []; (split; [|done]); rewrite ?P1, ?Q1, length_take, ?length_reverse; unfold lv_len; lia.
Qed.
End Lists.

(** ** Sampleable sets *)

(** The array-and-index set behind SRANDMEMBER, random eviction and
    expiry sampling is a set: adding and discarding (which moves the last
    element into the hole) act as set insertion and removal, and a sample has
    as many distinct members as asked for, or as there are. *)
Lemma keyset_operations s k n o (Hs : ks_wf s) (Ho : oracles_ok o) :
  ks_wf (ks_add k s) /\ ks_wf (ks_discard k s) /\ NoDup (ks_items s) /\
  (forall x, ks_contains x (ks_add k s) = bool_decide (x = k) || ks_contains x s) /\
  (forall x, ks_contains x (ks_discard k s) = negb (bool_decide (x = k)) && ks_contains x s) /\
  ks_len (ks_discard k (ks_add k s)) = ks_len (ks_discard k s) /\
  NoDup (ks_sample n s o).1 /\ length (ks_sample n s o).1 = (n `min` ks_len s)%nat /\
  (forall x, x ∈ (ks_sample n s o).1 -> ks_contains x s = true).
Proof.
  destruct (ks_sample_spec n s o Hs Ho) as (S1 & S2 & S3 & _).
  pose proof (ks_add_wf s k Hs) as Ha. pose proof (ks_discard_wf s k Hs) as Hd.
  split_and!; [done|done|by apply ks_NoDup| | | |done|done|].
  - intros x. apply eq_true_iff_eq. rewrite orb_true_iff, bool_decide_eq_true, !ks_contains_spec by done.
    by apply ks_add_items.
  - intros x. apply eq_true_iff_eq.
    rewrite andb_true_iff, negb_true_iff, bool_decide_eq_false, !ks_contains_spec by done.
    by apply ks_discard_items.
  - rewrite !ks_discard_len, ks_add_len by done. pose proof (ks_add_items s k k Hs).
    repeat case_decide; naive_solver.
  - intros x Hx. apply ks_contains_spec; auto.
Qed.

(** ** The least recently used key *)
Inductive KeyEvent := Inserted (k : pystr) | Accessed (k : pystr) | Removed (k : pystr).

(** What the store tells the policy, and the reference: the time of the last
    use of every key held, where an access to a key not held is no use. *)
Definition lru_event (p : LRUPolicy) (e : KeyEvent) : LRUPolicy :=
  match e with
  | Inserted k => lru_insert k p
  | Accessed k => lru_access k p
  | Removed k => lru_remove k p
  end.

Definition clock_event (c : nat * gmap pystr nat) (e : KeyEvent) : nat * gmap pystr nat :=
  (S c.1, match e with
          | Inserted k => <[k := c.1]> c.2
          | Accessed k => match c.2 !! k with Some _ => <[k := c.1]> c.2 | None => c.2 end
          | Removed k => delete k c.2
          end).

Definition lru_run (events : list KeyEvent) : LRUPolicy := fold_left lru_event events (mkLRU []).
Definition last_used (events : list KeyEvent) : gmap pystr nat :=
  (fold_left clock_event events (O, ∅)).2.

Definition used_before (t : gmap pystr nat) (a b : pystr) : Prop :=
  exists i j, t !! a = Some i /\ t !! b = Some j /\ (i < j)%nat.

Record lru_agrees (p : LRUPolicy) (c : nat * gmap pystr nat) : Prop := {
  agree_sorted : StronglySorted (used_before c.2) (lru_order p);
  agree_dom : forall k, k ∈ lru_order p <-> is_Some (c.2 !! k);
  agree_past : forall k i, c.2 !! k = Some i -> (i < c.1)%nat
}.

Lemma sorted_weaken {T} (R R' : T -> T -> Prop) (l : list T) :
  (forall x y, x ∈ l -> y ∈ l -> R x y -> R' x y) -> StronglySorted R l -> StronglySorted R' l.
Proof.
  intros HR Hs. induction Hs as [|x l Hs IH Hx]; constructor.
  - apply IH. intros y z Hy Hz. apply HR; by right.
  - rewrite Forall_forall in Hx |- *. intros y Hy. apply HR; [left|by right|auto].
Qed.

Lemma sorted_snoc {T} (R : T -> T -> Prop) (l : list T) x :
  StronglySorted R l -> (forall y, y ∈ l -> R y x) -> StronglySorted R (l ++ [x]).
Proof.
  intros Hs Hx. induction Hs as [|y l Hs IH Hy]; simpl; [repeat constructor|]. constructor.
  - apply IH. intros z Hz. apply Hx. by right.
  - apply Forall_app. split; [done|]. constructor; [apply Hx; left|constructor].
Qed.

Lemma agrees_use p c k :
  lru_agrees p c -> lru_agrees (mkLRU (move_to_end k (lru_order p))) (S c.1, <[k := c.1]> c.2).
Proof.
  intros [Hs Hd Hp]. split; simpl.
  - apply sorted_snoc.
    + eapply sorted_weaken; [|by apply sorted_filter]. intros x y [Hx _]%list_elem_of_filter [Hy _]%list_elem_of_filter.
      intros (i & j & ? & ? & ?). exists i, j. by rewrite !lookup_insert_ne by congruence.
    + intros y [Hy Hin]%list_elem_of_filter. apply Hd in Hin as [i Hi]. exists i, c.1.
      rewrite lookup_insert_eq, lookup_insert_ne by congruence. eauto.
  - intros x. rewrite move_to_end_elem, Hd, lookup_insert_is_Some. destruct (decide (k = x)); naive_solver.
  - intros x i. rewrite lookup_insert_Some. intros [[_ <-]|[_ Hi]]; [lia|]. apply Hp in Hi. lia.
Qed.

Lemma agrees_event p c e : lru_agrees p c -> lru_agrees (lru_event p e) (clock_event c e).
Proof.
  intros Ha. destruct e as [k|k|k]; simpl.
  - by apply agrees_use.
  - unfold lru_access, clock_event. case_bool_decide as Hin.
    + pose proof Hin as Hk. apply (agree_dom _ _ Ha) in Hk as [i Hi]. rewrite Hi. by apply agrees_use.
    + destruct (c.2 !! k) eqn:E; [destruct Hin; apply (agree_dom _ _ Ha); eauto|].
      destruct Ha as [Hs Hd Hp]. split; simpl; [done|done|]. intros x i Hi%Hp. lia.
  - destruct Ha as [Hs Hd Hp]. split; simpl.
    + eapply sorted_weaken; [|by apply sorted_filter]. intros x y [Hx _]%list_elem_of_filter [Hy _]%list_elem_of_filter.
      intros (i & j & ? & ? & ?). exists i, j. by rewrite !lookup_delete_ne by congruence.
    + intros x. rewrite list_elem_of_filter, Hd, lookup_delete_is_Some. naive_solver.
    + intros x i [_ Hi]%lookup_delete_Some. apply Hp in Hi. lia.
Qed.

Lemma run_agrees events : lru_agrees (lru_run events) (fold_left clock_event events (O, ∅)).
Proof.
  unfold lru_run. assert (H0 : lru_agrees (mkLRU []) (O, ∅)).
  { split; simpl; [constructor| |]; intros k; rewrite ?lookup_empty; [|done]. split; [by intros ?%not_elem_of_nil|].
    by intros [? ?]. }
  revert H0. generalize (mkLRU []) (O, (∅ : gmap pystr nat)).
  induction events as [|e es IH]; intros p c Ha; simpl; [done|]. by apply IH, agrees_event.
Qed.

(** C28. After any sequence of insertions, accesses and removals the LRU
    policy's victim is the unprotected key whose last use is the longest ago,
    by the reference clock, and there is none only when every key held is
    protected. *)
Theorem lru_victim_is_oldest events protect :
  match lru_victim protect (lru_run events) with
  | Some v => v ∉ protect /\ exists t, last_used events !! v = Some t /\
      forall k t', last_used events !! k = Some t' -> k ∉ protect -> k = v \/ (t < t')%nat
  | None => forall k t, last_used events !! k = Some t -> k ∈ protect
  end.
Proof.
  destruct (run_agrees events) as [Hs Hd _]. unfold lru_victim, last_used.
  set (T := (fold_left clock_event events (O, ∅)).2) in *. clearbody T.
  pose proof (first_free_spec protect (lru_order (lru_run events))) as Hv. unfold first_free in *.
  pose proof (sorted_filter _ (fun k => not_in protect k = true) _ Hs) as Hf.
  assert (Hin : forall k t, T !! k = Some t -> k ∉ protect ->
    k ∈ filter (fun k => not_in protect k = true) (lru_order (lru_run events))).
  { intros k t Ht Hk. apply list_elem_of_filter. rewrite not_in_true, Hd. eauto. }
  destruct (filter _ _) as [|v r]; simpl in *.
  - intros k t Ht. apply Hv, Hd. eauto.
  - destruct Hv as [Hv1 Hv2]. split; [done|]. apply Hd in Hv1 as [t Ht]. exists t. split; [done|].
    intros k t' Ht' Hk. apply StronglySorted_inv in Hf as [_ Hf]. rewrite Forall_forall in Hf.
    pose proof (Hin k t' Ht' Hk) as [->|Hr]%elem_of_cons; [by left|right].
    destruct (Hf k Hr) as (i & j & ? & ? & ?). by simplify_eq.
Qed.

(** ** Instances *)
Definition demo_zset : SortedSet :=
  let '((_, z), o) := zs_add (lit "b") (float_of_Z 1) zs_new (still fzero) in
  let '((_, z), o) := zs_add (lit "a") (float_of_Z 1) z o in
  let '((_, z), _) := zs_add (lit "c") (float_of_Z (-2)) z o in z.

Lemma demo_zset_wf : zs_wf demo_zset.
Proof.
  unfold demo_zset.
  pose proof (zs_add_wf (lit "b") (float_of_Z 1) zs_new (still fzero) zs_new_wf eq_refl) as H1.
  destruct (zs_add _ _ _ _) as [[? z1] o1]. simpl in H1.
  pose proof (zs_add_wf (lit "a") (float_of_Z 1) z1 o1 H1 eq_refl) as H2.
  destruct (zs_add _ _ _ _) as [[? z2] o2]. simpl in H2.
  pose proof (zs_add_wf (lit "c") (float_of_Z (-2)) z2 o2 H2 eq_refl) as H3.
  by destruct (zs_add _ _ _ _) as [[? z3] o3].
Qed.


Lemma sorted_set_updates_witness :
  zs_wf (zs_add (lit "a") (float_of_Z 7) demo_zset (still fzero)).1.2 /\
  zs_score (lit "a") (zs_remove (lit "a") demo_zset).2 = None.
Proof.
  pose proof (sorted_set_updates demo_zset (lit "a") (float_of_Z 7) (still fzero) demo_zset_wf eq_refl)
    as (H1 & _ & _ & _ & _ & H2 & _).
  split; [exact H1|exact H2].
Defined.

Lemma sorted_set_queries_witness :
  zs_rank (lit "a") true demo_zset = Some 1 /\
  zs_count_in_range (float_of_Z 0) (float_of_Z 1) false true demo_zset = 0.
Proof.
  pose proof (sorted_set_queries demo_zset (lit "a") 0 (-1) (float_of_Z 0) (float_of_Z 1) false true true 0 (-1)
    demo_zset_wf eq_refl eq_refl) as (_ & _ & _ & H).
  split; [by vm_compute|]. etransitivity; [exact H|]. by vm_compute.
Defined.

Lemma sorted_set_pop_witness :
  (zs_pop 2 true demo_zset).1.*1 = [lit "b"; lit "a"] /\ zs_wf (zs_pop 2 true demo_zset).2.
Proof.
  pose proof (sorted_set_pop demo_zset 2 true demo_zset_wf) as H.
  split; [by vm_compute|]. destruct (zs_pop 2 true demo_zset). apply H.
Defined.

Definition demo_list : ListValue := lv_new [lit "x"; lit "y"; lit "x"; lit "z"].

Lemma list_value_operations_witness :
  lv_range 1 (-2) demo_list = [lit "y"; lit "x"] /\
  lv_items (lv_remove (-1) (lit "x") demo_list).2 = [lit "x"; lit "y"; lit "z"].
Proof.
  pose proof (list_value_operations demo_list 1 (-2) (-1) (lit "x") 1 (lv_new_wf _) ltac:(lia))
    as (H1 & _ & _ & H2 & _).
  split; [rewrite H1|rewrite H2]; by vm_compute.
Defined.

Lemma keyset_operations_witness :
  let s := ks_add (lit "b") (ks_add (lit "a") ks_empty) in
  ks_wf (ks_discard (lit "a") s) /\ length (ks_sample 5 s (still fzero)).1 = 2%nat.
Proof.
  pose proof (keyset_operations (ks_add (lit "b") (ks_add (lit "a") ks_empty)) (lit "a") 5 (still fzero)
    (ks_add_wf _ _ (ks_add_wf _ _ ks_empty_wf)) (still_ok _)) as (_ & H1 & _ & _ & _ & _ & _ & H2 & _).
  split; [exact H1|exact H2].
Defined.
