(* ===== verification/Store.v ===== *)
(** * The keyspace (engine/store.py, engine/entry.py, engine/datatypes/__init__.py)

    [Store] holds typed entries, the set of keys with a TTL, the memory
    account, the eviction policy and the running incremental snapshot.  The
    methods are effects on a [World]: the store, the state [E] its two
    callbacks act on, and the clock and generators. *)
From Stdlib Require Import String.
From S2P Require Import Prelude PyStr PyFloat Errors Oracles KeySet Containers.
From S2P Require Import SkipList SkipListProofs SkipListQuery ZSet Eviction.
Local Close Scope string_scope.

Section Values.
Context `{Sizing}.

(** ** Values *)
Inductive Value :=
| VStr (s : pystr)
| VList (l : ListValue)
| VHash (h : HashValue)
| VSet (s : SetValue)
| VZset (z : SortedSet).

Inductive Kind := KList | KHash | KSet | KZset.

Definition type_name (v : Value) : pystr :=
  match v with
  | VStr _ => lit "string" | VList _ => lit "list" | VHash _ => lit "hash"
  | VSet _ => lit "set" | VZset _ => lit "zset"
  end.

Definition value_size (v : Value) : Z :=
  match v with
  | VStr s => str_size s | VList l => lv_nbytes l | VHash h => hv_nbytes h
  | VSet s => sv_nbytes s | VZset z => zs_nbytes z
  end.

(** [kind()]: a new empty collection. *)
Definition new_value (k : Kind) : Value :=
  match k with
  | KList => VList (lv_new []) | KHash => VHash hv_new | KSet => VSet sv_new | KZset => VZset zs_new
  end.

(** [isinstance(value, kind)]. *)
Definition has_kind (k : Kind) (v : Value) : bool :=
  match k, v with
  | KList, VList _ | KHash, VHash _ | KSet, VSet _ | KZset, VZset _ => true
  | _, _ => false
  end.

(** [not isinstance(value, str) and len(value) == 0]. *)
Definition is_empty_value (v : Value) : bool :=
  match v with
  | VStr _ => false
  | VList l => lv_len l =? 0 | VHash h => hv_len h =? 0
  | VSet s => sv_len s =? 0 | VZset z => zs_len z =? 0
  end.

(** ** Entries *)
Record Entry := mkEntry {
  e_value : Value;
  e_expires : option float;
  e_size : Z;
  e_copied : Z
}.
Definition new_entry (v : Value) (expires_at : option float) : Entry := mkEntry v expires_at 0 0.

Definition is_expired (now : float) (e : Entry) : bool :=
  match e_expires e with Some t => fle t now | None => false end.

Definition entry_size (key : pystr) (v : Value) : Z := str_size key + ENTRY_OVERHEAD + value_size v.

Definition with_value (v : Value) (e : Entry) : Entry := mkEntry v (e_expires e) (e_size e) (e_copied e).
Definition with_expires (t : option float) (e : Entry) : Entry := mkEntry (e_value e) t (e_size e) (e_copied e).
Definition with_size (n : Z) (e : Entry) : Entry := mkEntry (e_value e) (e_expires e) n (e_copied e).
Definition with_copied (n : Z) (e : Entry) : Entry := mkEntry (e_value e) (e_expires e) (e_size e) n.

(** ** Snapshot records: key, type and plain content, deadline *)
Inductive Payload :=
| RString (s : pystr)
| RList (items : list pystr)
| RHash (items : list (pystr * pystr))
| RSet (items : list pystr)
| RZset (items : list (pystr * float)).

Record SnapshotRecord := mkRecord {
  sr_key : pystr;
  sr_payload : Payload;
  sr_expires : option float
}.

Definition payload_of (v : Value) : Payload :=
  match v with
  | VStr s => RString s
  | VList l => RList (lv_items l)
  | VHash h => RHash (hv_fields h)
  | VSet s => RSet (sv_iter s)
  | VZset z => RZset (zs_items z)
  end.

(** [_record]. *)
Definition record_of (key : pystr) (e : Entry) : SnapshotRecord :=
  mkRecord key (payload_of (e_value e)) (e_expires e).

(** The values [load_record] rebuilds. *)
Definition hash_of (items : list (pystr * pystr)) : HashValue :=
  fold_left (fun h p => (hv_set p.1 p.2 h).2) items hv_new.
Definition set_of (items : list pystr) : SetValue :=
  fold_left (fun s m => (sv_add m s).2) items sv_new.
Definition zset_of (items : list (pystr * float)) (o : Oracles) : SortedSet * Oracles :=
  fold_left (fun zo p => let '((_, z), o) := zs_add p.1 p.2 zo.1 zo.2 in (z, o)) items (zs_new, o).

Definition value_of (p : Payload) (o : Oracles) : Value * Oracles :=
  match p with
  | RString s => (VStr s, o)
  | RList items => (VList (lv_new items), o)
  | RHash items => (VHash (hash_of items), o)
  | RSet items => (VSet (set_of items), o)
  | RZset items => let '(z, o) := zset_of items o in (VZset z, o)
  end.
End Values.

(** ** The store *)
Record SnapshotJob (D : Type) := mkJob {
  j_keys : list pystr;
  j_pos : nat;
  j_epoch : Z;
  j_started : float;
  j_records : list SnapshotRecord;
  j_on_done : option D
}.
Arguments mkJob {D}. Arguments j_keys {D}. Arguments j_pos {D}. Arguments j_epoch {D}.
Arguments j_started {D}. Arguments j_records {D}. Arguments j_on_done {D}.

Record Store (P D : Type) := mkStore {
  max_keys : Z;
  maxmemory : Z;
  eviction_enabled : bool;
  expiry_enabled : bool;
  expiry_deletes : bool;
  used_memory : Z;
  expired_keys : Z;
  evicted_keys : Z;
  keyspace_hits : Z;
  keyspace_misses : Z;
  st_eviction : P;
  st_data : list (pystr * Entry);
  st_volatile : SampleableKeySet;
  st_epoch : Z;
  st_job : option (SnapshotJob D)
}.
Arguments mkStore {P D}.
Arguments max_keys {P D}. Arguments maxmemory {P D}. Arguments eviction_enabled {P D}.
Arguments expiry_enabled {P D}. Arguments expiry_deletes {P D}. Arguments used_memory {P D}.
Arguments expired_keys {P D}. Arguments evicted_keys {P D}. Arguments keyspace_hits {P D}.
Arguments keyspace_misses {P D}. Arguments st_eviction {P D}. Arguments st_data {P D}.
Arguments st_volatile {P D}. Arguments st_epoch {P D}. Arguments st_job {P D}.

(** [Store.__init__]; negative limits are a ValueError. *)
Definition store_init {P D} (eviction : P) (mk mm : Z) : option (Store P D) :=
  if (mk <? 0) || (mm <? 0) then None
  else Some (mkStore mk mm true true true 0 0 0 0 0 eviction [] ks_empty 0 None).

Record World (P D E : Type) := mkWorld { w_store : Store P D; w_env : E; w_orc : Oracles }.
Arguments mkWorld {P D E}. Arguments w_store {P D E}. Arguments w_env {P D E}. Arguments w_orc {P D E}.

(** The two callbacks, [on_expire] and a snapshot's [on_done]; they may raise. *)
Class Hooks (D E : Type) := {
  hook_expire : option (pystr -> M exn E unit);
  hook_done : D -> list SnapshotRecord -> M exn E unit
}.

Section Setters.
Context {P D : Type}.
Implicit Type s : Store P D.

Definition set_flags (evict expire deletes : bool) s : Store P D :=
  mkStore (max_keys s) (maxmemory s) evict expire deletes (used_memory s) (expired_keys s)
    (evicted_keys s) (keyspace_hits s) (keyspace_misses s) (st_eviction s) (st_data s)
    (st_volatile s) (st_epoch s) (st_job s).
Definition set_stats (expired evicted hits misses : Z) s : Store P D :=
  mkStore (max_keys s) (maxmemory s) (eviction_enabled s) (expiry_enabled s) (expiry_deletes s)
    (used_memory s) expired evicted hits misses (st_eviction s) (st_data s) (st_volatile s)
    (st_epoch s) (st_job s).
Definition set_used (n : Z) s : Store P D :=
  mkStore (max_keys s) (maxmemory s) (eviction_enabled s) (expiry_enabled s) (expiry_deletes s)
    n (expired_keys s) (evicted_keys s) (keyspace_hits s) (keyspace_misses s) (st_eviction s)
    (st_data s) (st_volatile s) (st_epoch s) (st_job s).
Definition set_eviction (p : P) s : Store P D :=
  mkStore (max_keys s) (maxmemory s) (eviction_enabled s) (expiry_enabled s) (expiry_deletes s)
    (used_memory s) (expired_keys s) (evicted_keys s) (keyspace_hits s) (keyspace_misses s) p
    (st_data s) (st_volatile s) (st_epoch s) (st_job s).
Definition set_data (d : list (pystr * Entry)) s : Store P D :=
  mkStore (max_keys s) (maxmemory s) (eviction_enabled s) (expiry_enabled s) (expiry_deletes s)
    (used_memory s) (expired_keys s) (evicted_keys s) (keyspace_hits s) (keyspace_misses s)
    (st_eviction s) d (st_volatile s) (st_epoch s) (st_job s).
Definition set_volatile (v : SampleableKeySet) s : Store P D :=
  mkStore (max_keys s) (maxmemory s) (eviction_enabled s) (expiry_enabled s) (expiry_deletes s)
    (used_memory s) (expired_keys s) (evicted_keys s) (keyspace_hits s) (keyspace_misses s)
    (st_eviction s) (st_data s) v (st_epoch s) (st_job s).
Definition set_job (epoch : Z) (job : option (SnapshotJob D)) s : Store P D :=
  mkStore (max_keys s) (maxmemory s) (eviction_enabled s) (expiry_enabled s) (expiry_deletes s)
    (used_memory s) (expired_keys s) (evicted_keys s) (keyspace_hits s) (keyspace_misses s)
    (st_eviction s) (st_data s) (st_volatile s) epoch job.

(** [self._data[key] = entry]. *)
Definition put_entry (key : pystr) (e : Entry) s : Store P D := set_data (dict_set key e (st_data s)) s.
Definition add_used (n : Z) s : Store P D := set_used (used_memory s + n) s.
End Setters.

(** ** The methods *)
Section Methods.
Context `{Sizing} {P : Type} `{EvictionPolicy P} {D E : Type} `{Hooks D E}.
Abbreviation SM := (M exn (World P D E)).

Definition gets {A} (f : Store P D -> A) : SM A := readM (fun w => f (w_store w)).
Definition upd (f : Store P D -> Store P D) : SM unit :=
  modifyM (fun w => mkWorld (f (w_store w)) (w_env w) (w_orc w)).
(** A callback acts on the state around the store. *)
Definition env_do {A} (c : M exn E A) : SM A :=
  fun w => let '(r, e) := c (w_env w) in (r, mkWorld (w_store w) e (w_orc w)).

(** An operation on the clock and the generators. *)
Definition ask {A} (f : Oracles -> A * Oracles) : SM A :=
  fun w => let '(a, o) := f (w_orc w) in (Ok a, mkWorld (w_store w) (w_env w) o).
Definition now : SM float := ask clock_now.

(** A call of the eviction policy. *)
Definition policy (f : P -> Oracles -> P * Oracles) : SM unit :=
  fun w => let '(p, o) := f (st_eviction (w_store w)) (w_orc w) in
           (Ok tt, mkWorld (set_eviction p (w_store w)) (w_env w) o).

Definition store_len (s : Store P D) : Z := Z.of_nat (length (st_data s)).
Definition volatile_count (s : Store P D) : Z := Z.of_nat (ks_len (st_volatile s)).

(** *** Snapshot jobs *)

(** [SnapshotJob.take]. *)
Definition take_entry (key : pystr) (e : Entry) (job : SnapshotJob D) (s : Store P D) : Store P D :=
  let e' := with_copied (j_epoch job) e in
  let records := if negb (is_expired (j_started job) e') then j_records job ++ [record_of key e']
                 else j_records job in
  set_job (st_epoch s)
    (Some (mkJob (j_keys job) (j_pos job) (j_epoch job) (j_started job) records (j_on_done job)))
    (put_entry key e' s).

(** Copy [key] unless it already belongs to the running job's epoch. *)
Definition take_key (key : pystr) (s : Store P D) : Store P D :=
  match st_job s with
  | None => s
  | Some job =>
      match dict_get key (st_data s) with
      | Some e => if negb (e_copied e =? j_epoch job) then take_entry key e job s else s
      | None => s
      end
  end.

(** [snapshot_barrier]. *)
Definition snapshot_barrier (key : pystr) : SM unit := upd (take_key key).

Definition job_remaining (job : SnapshotJob D) : nat := length (j_keys job) - j_pos job.
Definition job_done (job : SnapshotJob D) : bool := (length (j_keys job) <=? j_pos job)%nat.

(** [SnapshotJob.step] of the running job: copy a slice; the one that reaches
    the end clears [snapshot_job] and hands the records to [on_done]. *)
Definition job_step (max : nat) : SM bool :=
  s <- gets id;;
  match st_job s with
  | None => ret true
  | Some job =>
      let stop := ((j_pos job + max) `min` length (j_keys job))%nat in
      upd (fun s => fold_left (fun s k => take_key k s) (slice (j_pos job) stop (j_keys job)) s);;
      s <- gets id;;
      match st_job s with
      | None => ret true
      | Some job =>
          let job := mkJob (j_keys job) stop (j_epoch job) (j_started job) (j_records job) (j_on_done job) in
          if job_done job then
            upd (set_job (st_epoch s) None);;
            match j_on_done job with
            | Some callback => env_do (hook_done callback (j_records job));; ret true
            | None => ret true
            end
          else upd (set_job (st_epoch s) (Some job));; ret false
      end
  end.

(** *** Helpers *)

(** [_remove]; popping a missing key is a KeyError. *)
Definition remove (key : pystr) : SM unit :=
  snapshot_barrier key;;
  s <- gets id;;
  match dict_get key (st_data s) with
  | None => raise (new_exn KeyError key None)
  | Some e =>
      upd (fun s => set_data (dict_pop key (st_data s)) s);;
      upd (add_used (- e_size e));;
      upd (fun s => set_volatile (ks_discard key (st_volatile s)) s);;
      policy (fun p o => (on_remove key p, o))
  end.

Definition bump_expired (n : Z) : SM unit :=
  upd (fun s => set_stats (expired_keys s + n) (evicted_keys s) (keyspace_hits s) (keyspace_misses s) s).

(** [_expire]. *)
Definition expire (key : pystr) : SM unit :=
  remove key;;
  bump_expired 1;;
  match hook_expire with
  | Some f => env_do (f key)
  | None => ret tt
  end.

(** [_insert]. *)
Definition insert (key : pystr) (e : Entry) : SM unit :=
  s <- gets id;;
  let e := with_copied (st_epoch s) e in
  let e := with_size (entry_size key (e_value e)) e in
  upd (add_used (e_size e));;
  upd (put_entry key e);;
  policy (on_insert key).

(** [_lookup]: the live entry, deleted lazily if its deadline has passed. *)
Definition lookup (key : pystr) : SM (option Entry) :=
  s <- gets id;;
  match dict_get key (st_data s) with
  | None => ret None
  | Some e =>
      if expiry_enabled s then
        t <- now;;
        if is_expired t e then
          (if expiry_deletes s then expire key else ret tt);;
          ret None
        else ret (Some e)
      else ret (Some e)
  end.

(** *** Reads *)
Definition get (key : pystr) : SM (option Entry) :=
  r <- lookup key;;
  match r with
  | None =>
      upd (fun s => set_stats (expired_keys s) (evicted_keys s) (keyspace_hits s) (keyspace_misses s + 1) s);;
      ret None
  | Some e =>
      upd (fun s => set_stats (expired_keys s) (evicted_keys s) (keyspace_hits s + 1) (keyspace_misses s) s);;
      policy (on_access key);;
      ret (Some e)
  end.

Definition peek (key : pystr) : SM (option Entry) := lookup key.

Definition wrong_type {A} : SM A := raise (new_exn WrongTypeError [] None).

Definition read_str (key : pystr) : SM (option pystr) :=
  r <- get key;;
  match r with
  | None => ret None
  | Some e => match e_value e with VStr s => ret (Some s) | _ => wrong_type end
  end.

Definition read (key : pystr) (kind : Kind) : SM (option Value) :=
  r <- get key;;
  match r with
  | None => ret None
  | Some e => if has_kind kind (e_value e) then ret (Some (e_value e)) else wrong_type
  end.

Definition write_target (key : pystr) (kind : Kind) : SM Value :=
  r <- lookup key;;
  match r with
  | Some e =>
      if has_kind kind (e_value e) then policy (on_access key);; ret (e_value e) else wrong_type
  | None => insert key (new_entry (new_value kind) None);; ret (new_value kind)
  end.

(** The collection object at [key] changed in place: the entry now holds [v],
    its accounted size is not touched until [refresh]. *)
Definition mutate (key : pystr) (v : Value) : SM unit :=
  upd (fun s => match dict_get key (st_data s) with
                | Some e => put_entry key (with_value v e) s
                | None => s
                end).

Definition iter_keys : SM (list pystr) :=
  s <- gets id;;
  filterM_list (fun key => r <- lookup key;; ret (match r with Some _ => true | None => false end)) (dict_keys (st_data s)).

(** *** Writes *)
Definition set (key : pystr) (value : Value) (keep_ttl : bool) : SM unit :=
  old <- (if keep_ttl then lookup key else gets (fun s => dict_get key (st_data s)));;
  match old with
  | None => insert key (new_entry value None)
  | Some old =>
      upd (add_used (- e_size old));;
      s <- gets id;;
      let e := new_entry value (if keep_ttl then e_expires old else None) in
      let e := with_copied (st_epoch s) e in
      (match e_expires e with
       | None => upd (fun s => set_volatile (ks_discard key (st_volatile s)) s)
       | Some _ => ret tt
       end);;
      let e := with_size (entry_size key value) e in
      upd (add_used (e_size e));;
      upd (put_entry key e);;
      policy (on_access key)
  end.

Definition delete (key : pystr) : SM bool :=
  r <- lookup key;;
  match r with
  | None => ret false
  | Some _ => remove key;; ret true
  end.

Definition set_expiry (key : pystr) (expires_at : float) : SM bool :=
  r <- lookup key;;
  match r with
  | None => ret false
  | Some e =>
      upd (put_entry key (with_expires (Some expires_at) e));;
      upd (fun s => set_volatile (ks_add key (st_volatile s)) s);;
      ret true
  end.

Definition persist (key : pystr) : SM bool :=
  r <- lookup key;;
  match r with
  | None => ret false
  | Some e =>
      match e_expires e with
      | None => ret false
      | Some _ =>
          upd (put_entry key (with_expires None e));;
          upd (fun s => set_volatile (ks_discard key (st_volatile s)) s);;
          ret true
      end
  end.

Definition refresh (key : pystr) : SM unit :=
  s <- gets id;;
  match dict_get key (st_data s) with
  | None => ret tt
  | Some e =>
      if is_empty_value (e_value e) then remove key
      else
        let size := entry_size key (e_value e) in
        upd (add_used (size - e_size e));;
        upd (put_entry key (with_size size e))
  end.

Definition clear : SM unit :=
  s <- gets id;;
  (match st_job s with
   | Some job => job_step (job_remaining job);; ret tt
   | None => ret tt
   end);;
  upd (set_data []);;
  upd (set_volatile ks_empty);;
  upd (fun s => set_eviction (pol_clear (st_eviction s)) s);;
  upd (set_used 0).

(** *** Limits *)
Definition over_limit (extra : Z) (s : Store P D) : bool :=
  (negb (max_keys s =? 0) && (max_keys s <? store_len s + extra)) ||
  (negb (maxmemory s =? 0) && (maxmemory s <? used_memory s)).

Definition ask_victim (protect : list pystr) : SM (option pystr) :=
  s <- gets id;; ask (victim protect (st_eviction s)).

Fixpoint evict_loop (fuel : nat) (protect : list pystr) : SM (list pystr) :=
  s <- gets id;;
  if negb (over_limit 0 s) then ret []
  else
    match fuel with
    | O => ret []
    | S f =>
        v <- ask_victim protect;;
        match v with
        | None => ret []
        | Some v =>
            remove v;;
            upd (fun s => set_stats (expired_keys s) (evicted_keys s + 1) (keyspace_hits s) (keyspace_misses s) s);;
            rest <- evict_loop f protect;;
            ret (v :: rest)
        end
    end.

(** Each round removes a key: one round per key is enough. *)
Definition evict_if_needed (protect : list pystr) : SM (list pystr) :=
  s <- gets id;;
  if negb (eviction_enabled s) || negb (evicts (st_eviction s)) then ret []
  else evict_loop (S (length (st_data s))) protect.

(** *** Expiration *)
Definition MAX_EXPIRY_ROUNDS : nat := 16.

(** [self._data[key].is_expired(now)]; a missing key is a KeyError. *)
Definition data_expired (t : float) (key : pystr) : SM bool :=
  s <- gets id;;
  match dict_get key (st_data s) with
  | Some e => ret (is_expired t e)
  | None => raise (new_exn KeyError key None)
  end.

Fixpoint expire_sample (t : float) (keys : list pystr) : SM Z :=
  match keys with
  | [] => ret 0
  | key :: rest =>
      b <- data_expired t key;;
      (if b : bool then expire key else ret tt);;
      n <- expire_sample t rest;;
      ret (n + if b then 1 else 0)
  end.

Fixpoint expire_rounds (n sample_size : nat) (t : float) : SM Z :=
  match n with
  | O => ret 0
  | S n' =>
      s <- gets id;;
      picked <- ask (ks_sample sample_size (st_volatile s));;
      match picked with
      | [] => ret 0
      | _ =>
          expired <- expire_sample t picked;;
          if expired * 4 <=? Z.of_nat (length picked) then ret expired
          else total <- expire_rounds n' sample_size t;; ret (expired + total)
      end
  end.

Definition expire_cycle (sample_size : nat) : SM Z :=
  s <- gets id;;
  if negb (expiry_deletes s) then ret 0
  else t <- now;; expire_rounds MAX_EXPIRY_ROUNDS sample_size t.

Definition purge_expired : SM Z :=
  t <- now;;
  s <- gets id;;
  stale <- filterM_list (data_expired t) (ks_items (st_volatile s));;
  forM_list remove stale;;
  bump_expired (Z.of_nat (length stale));;
  ret (Z.of_nat (length stale)).

(** *** Snapshots *)
Definition snapshot_at (t : float) (d : list (pystr * Entry)) : list SnapshotRecord :=
  (fun p => record_of p.1 p.2) <$> filter (fun p => is_expired t p.2 = false) d.

Definition snapshot : SM (list SnapshotRecord) :=
  t <- now;; gets (fun s => snapshot_at t (st_data s)).

Definition record (key : pystr) : SM (option SnapshotRecord) :=
  r <- lookup key;; ret (record_of key <$> r).

Definition begin_snapshot (on_done : option D) : SM unit :=
  s <- gets id;;
  match st_job s with
  | Some _ => raise (err RuntimeError "a snapshot is already being taken")
  | None =>
      let epoch := st_epoch s + 1 in
      upd (set_job epoch None);;
      t <- now;;
      upd (set_job epoch (Some (mkJob (dict_keys (st_data s)) 0 epoch t [] on_done)))
  end.

Definition abandon_snapshot : SM bool :=
  s <- gets id;;
  match st_job s with
  | None => ret false
  | Some _ => upd (set_job (st_epoch s) None);; ret true
  end.

Definition load_record (r : SnapshotRecord) : SM unit :=
  v <- ask (value_of (sr_payload r));;
  set (sr_key r) v false;;
  match sr_expires r with
  | Some t => set_expiry (sr_key r) t;; ret tt
  | None => ret tt
  end.
End Methods.
