(* ===== verification/Frames.v ===== *)
(** * Facts about the engine's state that the keyspace's methods carry along

    A rider relates the state around the store to the snapshots: how many have
    been started (the epoch), and who receives the one in progress, if any.  If the callbacks keep it, so does every
    method of the store: the methods touch that state through the callbacks
    only, and a job ends by handing its records over. *)

From S2P Require Import Prelude PyStr PyFloat Errors Oracles KeySet Containers ZSet Eviction Store.

Class Rider {D E : Type} `{Hooks D E} (R : Z -> option (option D) -> E -> Prop) := {
  rider_expire f k n o : hook_expire = Some f -> keeps (R n o) (f k);
  rider_done d records n e : R n (Some (Some d)) e -> R n None (hook_done d records e).2;
  rider_dropped n e : R n (Some None) e -> R n None e
}.

(** No method but [begin_snapshot] changes the epoch. *)
Definition epoch_is {D E : Type} (ep : Z) (n : Z) (_ : option (option D)) (_ : E) : Prop := n = ep.
#[export] Instance epoch_rider {D E : Type} `{Hooks D E} ep : Rider (epoch_is (D := D) (E := E) ep).
Proof. split; [|done..]. intros f k n o _ e He. exact He. Qed.

Section Riders.
Context `{Sizing} {P : Type} `{EvictionPolicy P} {D E : Type} `{Hooks D E}.
Context (R : Z -> option (option D) -> E -> Prop) `{!Rider R}.
Abbreviation W := (World P D E).
Implicit Types s : Store P D.

(** Who receives the running snapshot. *)
Definition receiver (s : Store P D) : option (option D) := j_on_done <$> st_job s.
Definition rides (w : W) : Prop := R (st_epoch (w_store w)) (receiver (w_store w)) (w_env w).

Lemma rides_upd f :
  (forall s, st_epoch (f s) = st_epoch s) -> (forall s, receiver (f s) = receiver s) -> keeps rides (upd f).
Proof. intros He Hf w Hw. unfold rides. simpl. by rewrite He, Hf. Qed.

Lemma rides_ask {A} (f : Oracles -> A * Oracles) : keeps rides (ask f).
Proof. intros w Hw. unfold ask. by destruct (f (w_orc w)). Qed.

Lemma rides_policy f : keeps rides (policy f).
Proof. intros w Hw. unfold policy. by destruct (f (st_eviction (w_store w)) (w_orc w)). Qed.

Lemma rides_env {A} (c : M exn E A) : (forall n o, keeps (R n o) c) -> keeps rides (env_do c).
Proof.
  intros Hc w Hw. unfold env_do, rides in *. specialize (Hc _ _ _ Hw). by destruct (c (w_env w)).
Qed.

Lemma rides_gets {A} (f : Store P D -> A) : keeps rides (gets f).
Proof. apply keeps_read. Qed.

Lemma receiver_take k s : receiver (take_key k s) = receiver s.
Proof.
  unfold take_key, receiver. destruct (st_job s) as [job|] eqn:Hj; [|by rewrite Hj].
  destruct (dict_get k (st_data s)) as [e|]; [|by rewrite Hj]. case_match; [done|by rewrite Hj].
Qed.

Lemma epoch_take k s : st_epoch (take_key k s) = st_epoch s.
Proof.
  unfold take_key. destruct (st_job s) as [job|]; [|done].
  destruct (dict_get k (st_data s)) as [e|]; [|done]. by case_match.
Qed.

Lemma epoch_takes l s : st_epoch (fold_left (fun s k => take_key k s) l s) = st_epoch s.
Proof. revert s. induction l as [|k l IH]; intros s; simpl; [done|]. by rewrite IH, epoch_take. Qed.

Lemma receiver_takes l s : receiver (fold_left (fun s k => take_key k s) l s) = receiver s.
Proof. revert s. induction l as [|k l IH]; intros s; simpl; [done|]. by rewrite IH, receiver_take. Qed.

Lemma rides_barrier k : keeps rides (snapshot_barrier k).
Proof. apply rides_upd; [apply epoch_take|apply receiver_take]. Qed.

Lemma rides_mutate k v : keeps rides (mutate k v).
Proof. apply rides_upd; intros s; by destruct (dict_get k (st_data s)). Qed.

Lemma rides_job_step n : keeps rides (job_step n).
Proof.
  intros w Hw. unfold job_step, bindM, gets, readM, upd, modifyM. cbn [id fst snd w_store w_env w_orc].
  destruct (st_job (w_store w)) as [job|] eqn:Hj; [|done]. cbn [w_store w_env w_orc].
  set (stop := ((j_pos job + n) `min` length (j_keys job))%nat).
  pose proof (receiver_takes (slice (j_pos job) stop (j_keys job)) (w_store w)) as Hr.
  pose proof (epoch_takes (slice (j_pos job) stop (j_keys job)) (w_store w)) as He.
  set (s1 := fold_left _ _ (w_store w)) in *. unfold rides, receiver in *.
  destruct (st_job s1) as [job1|]; [|by rewrite Hj in Hr].
  rewrite Hj in Hr, Hw. cbn in Hr, Hw. injection Hr as Hr. rewrite <- Hr, <- He in Hw.
  case_match; cbn; [|done].
  unfold env_do. destruct (j_on_done job1) as [d|]; cbn; [|by apply rider_dropped].
  pose proof (rider_done d (j_records job1) _ (w_env w) Hw) as Hd.
  by destruct (hook_done d (j_records job1) (w_env w)) as [[]].
Qed.
End Riders.

Lemma env_epoch {P D E A} (c : M exn E A) ep : keeps (rides (P := P) (D := D) (epoch_is ep)) (env_do c).
Proof. apply rides_env. intros n o e He. exact He. Qed.

Create HintDb rides.
#[export] Hint Resolve rides_ask rides_policy rides_gets rides_barrier rides_mutate rides_job_step
  keeps_ret keeps_raise keeps_read epoch_rider : rides.

Ltac ride :=
  repeat lazymatch goal with
  | |- keeps _ (bindM _ _) => apply keeps_bind; [|intros ?]
  | |- keeps _ (match ?x with _ => _ end) => destruct x eqn:?
  | |- keeps _ (upd _) => by apply rides_upd
  | |- keeps _ (ask _) => apply rides_ask
  | |- keeps _ (gets _) => apply rides_gets
  | |- keeps _ (readM _) => apply keeps_read
  | |- keeps _ _ => solve [eauto with rides]
  end.

Section Methods.
Context `{Sizing} {P : Type} `{EvictionPolicy P} {D E : Type} `{Hooks D E}.
Context (R : Z -> option (option D) -> E -> Prop) `{!Rider R}.
Abbreviation rides := (Frames.rides (P := P) R).

Lemma rides_now : keeps rides now.
Proof. apply rides_ask. Qed.
Hint Resolve rides_now : rides.
Lemma rides_bump n : keeps rides (bump_expired n).
Proof. by apply rides_upd. Qed.
Lemma rides_remove k : keeps rides (remove k).
Proof. unfold remove. ride. Qed.
Hint Resolve rides_bump rides_remove : rides.
Lemma rides_expire k : keeps rides (expire k).
Proof.
  unfold expire. ride. apply rides_env. intros ? ?. by apply rider_expire.
Qed.
Hint Resolve rides_expire : rides.
Lemma rides_insert k e : keeps rides (insert k e).
Proof. unfold insert. ride. Qed.
Lemma rides_lookup k : keeps rides (lookup k).
Proof. unfold lookup. ride. Qed.
Hint Resolve rides_insert rides_lookup : rides.
Lemma rides_get k : keeps rides (get k).
Proof. unfold get. ride. Qed.
Lemma rides_peek k : keeps rides (peek k).
Proof. apply rides_lookup. Qed.
Hint Resolve rides_get rides_peek : rides.
Lemma rides_read_str k : keeps rides (read_str k).
Proof. unfold read_str, wrong_type. ride. Qed.
Lemma rides_read k kd : keeps rides (read k kd).
Proof. unfold read, wrong_type. ride. Qed.
Lemma rides_write_target k kd : keeps rides (write_target k kd).
Proof. unfold write_target, wrong_type. ride. Qed.
Lemma rides_iter_keys : keeps rides iter_keys.
Proof. unfold iter_keys. ride. apply keeps_filterM. intros. ride. Qed.
Lemma rides_set k v keep : keeps rides (set k v keep).
Proof. unfold set. ride. Qed.
Lemma rides_delete k : keeps rides (delete k).
Proof. unfold delete. ride. Qed.
Lemma rides_set_expiry k t : keeps rides (set_expiry k t).
Proof. unfold set_expiry. ride. Qed.
Lemma rides_persist k : keeps rides (persist k).
Proof. unfold persist. ride. Qed.
Lemma rides_refresh k : keeps rides (refresh k).
Proof. unfold refresh. ride. Qed.
Lemma rides_clear : keeps rides clear.
Proof. unfold clear. ride. Qed.
Lemma rides_evict_loop n protect : keeps rides (evict_loop n protect).
Proof. induction n as [|n IH]; simpl; unfold ask_victim; ride. Qed.
Hint Resolve rides_evict_loop : rides.
Lemma rides_evict protect : keeps rides (evict_if_needed protect).
Proof. unfold evict_if_needed. ride. Qed.
Lemma rides_data_expired t k : keeps rides (data_expired t k).
Proof. unfold data_expired. ride. Qed.
Hint Resolve rides_data_expired : rides.
Lemma rides_expire_sample t l : keeps rides (expire_sample t l).
Proof. induction l as [|k l IH]; simpl; ride. Qed.
Hint Resolve rides_expire_sample : rides.
Lemma rides_expire_rounds n k t : keeps rides (expire_rounds n k t).
Proof. induction n as [|n IH]; simpl; ride. Qed.
Hint Resolve rides_expire_rounds : rides.
Lemma rides_expire_cycle n : keeps rides (expire_cycle n).
Proof. unfold expire_cycle. ride. Qed.
Lemma rides_purge : keeps rides purge_expired.
Proof.
  unfold purge_expired. ride.
  - apply keeps_filterM. intros. apply rides_data_expired.
  - apply keeps_forM. intros. apply rides_remove.
Qed.
Lemma rides_snapshot : keeps rides snapshot.
Proof. unfold snapshot. ride. Qed.
Lemma rides_record k : keeps rides (record k).
Proof. unfold record. ride. Qed.
Lemma rides_load_record r : keeps rides (load_record r).
Proof.
  unfold load_record. ride; [apply rides_set|]. apply rides_set_expiry.
Qed.
End Methods.
#[export] Hint Resolve rides_now rides_bump rides_remove rides_expire rides_insert rides_lookup rides_get
  rides_peek rides_read_str rides_read rides_write_target rides_iter_keys rides_set rides_delete
  rides_set_expiry rides_persist rides_refresh rides_clear rides_evict rides_expire_cycle rides_purge
  rides_snapshot rides_record rides_load_record : rides.

(** * What a method of the keyspace may change

    [frame dirty d0]: of the keys outside [dirty], each is as it was in [d0]
    (content and deadline) or gone.  A method that writes only keys of [dirty]
    keeps it; reading another key can at most delete it, when its deadline has
    passed. *)

Section Frames.
Context `{Sizing} {P : Type} `{EvictionPolicy P} {D E : Type} `{Hooks D E}.
Abbreviation W := (World P D E).
Implicit Types s : Store P D.
Context (dirty : list pystr) (d0 : list (pystr * Entry)).

(** Content and deadline of the entry at [k]. *)
Definition seen (k : pystr) (d : list (pystr * Entry)) : option SnapshotRecord :=
  record_of k <$> dict_get k d.

Definition frame_of (d : list (pystr * Entry)) : Prop :=
  dict_wf d /\ forall k, k ∉ dirty -> dict_get k d = None \/ seen k d = seen k d0.

Definition frame (w : W) : Prop := frame_of (st_data (w_store w)).

Lemma frame_upd f : (forall s, frame_of (st_data s) -> frame_of (st_data (f s))) -> keeps frame (upd f).
Proof. intros Hf w Hw. by apply Hf. Qed.

Lemma frame_upd_same f : (forall s, st_data (f s) = st_data s) -> keeps frame (upd f).
Proof. intros Hf. apply frame_upd. intros s. by rewrite Hf. Qed.

Lemma frame_ask {A} (f : Oracles -> A * Oracles) : keeps frame (ask f).
Proof. intros w Hw. unfold ask. by destruct (f (w_orc w)). Qed.

Lemma frame_policy f : keeps frame (policy f).
Proof. intros w Hw. unfold policy. by destruct (f (st_eviction (w_store w)) (w_orc w)). Qed.

Lemma frame_env {A} (c : M exn E A) : keeps frame (env_do c).
Proof. intros w Hw. unfold env_do. by destruct (c (w_env w)). Qed.

Lemma frame_gets {A} (f : Store P D -> A) : keeps frame (gets f).
Proof. apply keeps_read. Qed.

Lemma frame_set k e d : k ∈ dirty -> frame_of d -> frame_of (dict_set k e d).
Proof.
  intros Hk [Hwf Hd]. split; [by apply dict_set_wf|]. intros x Hx. unfold seen. rewrite dict_get_set.
  rewrite decide_False by (by intros ->). by apply Hd.
Qed.

Lemma frame_replace k e e' d :
  dict_get k d = Some e -> record_of k e' = record_of k e -> frame_of d -> frame_of (dict_set k e' d).
Proof.
  intros Hk He [Hwf Hd]. split; [by apply dict_set_wf|]. intros x Hx. unfold seen. rewrite dict_get_set.
  case_decide as Hxk; [|by apply Hd]. subst x. right. destruct (Hd k Hx) as [?|Hs]; [congruence|].
  unfold seen in Hs. rewrite Hk in Hs. simpl in *. by rewrite He.
Qed.

Lemma frame_pop k d : frame_of d -> frame_of (dict_pop k d).
Proof.
  intros [Hwf Hd]. split; [by apply dict_pop_wf|]. intros x Hx. unfold seen. rewrite !dict_get_pop by done.
  case_decide; [by left|]. by apply Hd.
Qed.

Lemma frame_take k s : frame_of (st_data s) -> frame_of (st_data (take_key k s)).
Proof.
  intros Hd. unfold take_key. destruct (st_job s) as [job|]; [|done].
  destruct (dict_get k (st_data s)) as [e|] eqn:Hk; [|done]. case_match; [|done]. by eapply frame_replace.
Qed.

Lemma frame_takes l s : frame_of (st_data s) -> frame_of (st_data (fold_left (fun s k => take_key k s) l s)).
Proof. revert s. induction l as [|k l IH]; intros s Hs; simpl; [done|]. by apply IH, frame_take. Qed.

Lemma frame_barrier k : keeps frame (snapshot_barrier k).
Proof. apply frame_upd. intros s. apply frame_take. Qed.

Lemma frame_put k e : k ∈ dirty -> keeps frame (upd (put_entry k e)).
Proof. intros Hk. apply frame_upd. intros s Hs. by apply frame_set. Qed.

Lemma frame_mutate k v : k ∈ dirty -> keeps frame (mutate k v).
Proof.
  intros Hk. apply frame_upd. intros s Hs. destruct (dict_get k (st_data s)); [|done]. by apply frame_set.
Qed.

Lemma frame_drop k : keeps frame (upd (fun s => set_data (dict_pop k (st_data s)) s)).
Proof. apply frame_upd. intros s. apply frame_pop. Qed.

Lemma frame_empty : keeps frame (upd (set_data [])).
Proof. apply frame_upd. intros s _. split; [constructor|]. by left. Qed.

Lemma frame_job_step n : keeps frame (job_step n).
Proof.
  unfold job_step. apply keeps_bind; [apply frame_gets|intros s]. destruct (st_job s) as [job|]; [|apply keeps_ret].
  apply keeps_bind; [apply frame_upd; intros; by apply frame_takes|intros _].
  apply keeps_bind; [apply frame_gets|intros s']. destruct (st_job s') as [job'|]; [|apply keeps_ret].
  cbv zeta. case_match.
  - apply keeps_bind; [by apply frame_upd_same|intros _]. case_match; [|apply keeps_ret].
    apply keeps_bind; [apply frame_env|intros _; apply keeps_ret].
  - apply keeps_bind; [by apply frame_upd_same|intros _; apply keeps_ret].
Qed.
End Frames.

Create HintDb frames.
#[export] Hint Resolve frame_ask frame_policy frame_env frame_gets frame_barrier frame_put frame_mutate
  frame_drop frame_empty frame_job_step keeps_ret keeps_raise keeps_read : frames.

Ltac stay :=
  repeat lazymatch goal with
  | |- keeps _ (bindM _ _) => apply keeps_bind; [|intros ?]
  | |- keeps _ (match ?x with _ => _ end) => destruct x eqn:?
  | |- keeps _ (upd (fun s => set_data (dict_pop _ (st_data s)) s)) => apply frame_drop
  | |- keeps _ (upd (put_entry _ _)) => by apply frame_put
  | |- keeps _ (upd (set_data [])) => apply frame_empty
  | |- keeps _ (upd _) => by apply frame_upd_same
  | |- keeps _ (ask _) => apply frame_ask
  | |- keeps _ (gets _) => apply frame_gets
  | |- keeps _ (readM _) => apply keeps_read
  | |- keeps _ _ => solve [eauto with frames]
  end.

Section Methods.
Context `{Sizing} {P : Type} `{EvictionPolicy P} {D E : Type} `{Hooks D E}.
Context (dirty : list pystr) (d0 : list (pystr * Entry)).
Abbreviation frame := (Frames.frame (P := P) (D := D) (E := E) dirty d0).

Lemma frame_now : keeps frame now.
Proof. apply frame_ask. Qed.
Hint Resolve frame_now : frames.
Lemma frame_bump n : keeps frame (bump_expired n).
Proof. by apply frame_upd_same. Qed.
Lemma frame_remove k : keeps frame (remove k).
Proof. unfold remove. stay. Qed.
Hint Resolve frame_bump frame_remove : frames.
Lemma frame_expire k : keeps frame (expire k).
Proof. unfold expire. stay. Qed.
Hint Resolve frame_expire : frames.
Lemma frame_insert k e : k ∈ dirty -> keeps frame (insert k e).
Proof. intros Hk. unfold insert. stay. Qed.
Lemma frame_lookup k : keeps frame (lookup k).
Proof. unfold lookup. stay. Qed.
Hint Resolve frame_insert frame_lookup : frames.
Lemma frame_get k : keeps frame (get k).
Proof. unfold get. stay. Qed.
Lemma frame_peek k : keeps frame (peek k).
Proof. apply frame_lookup. Qed.
Hint Resolve frame_get frame_peek : frames.
Lemma frame_read_str k : keeps frame (read_str k).
Proof. unfold read_str, wrong_type. stay. Qed.
Lemma frame_read k kd : keeps frame (read k kd).
Proof. unfold read, wrong_type. stay. Qed.
Lemma frame_write_target k kd : k ∈ dirty -> keeps frame (write_target k kd).
Proof. intros Hk. unfold write_target, wrong_type. stay. Qed.
Lemma frame_iter_keys : keeps frame iter_keys.
Proof. unfold iter_keys. stay. apply keeps_filterM. intros. stay. Qed.
Lemma frame_store_set k v keep : k ∈ dirty -> keeps frame (set k v keep).
Proof. intros Hk. unfold set. stay. Qed.
Lemma frame_delete k : keeps frame (delete k).
Proof. unfold delete. stay. Qed.
Lemma frame_set_expiry k t : k ∈ dirty -> keeps frame (set_expiry k t).
Proof. intros Hk. unfold set_expiry. stay. Qed.
Lemma frame_persist k : k ∈ dirty -> keeps frame (persist k).
Proof. intros Hk. unfold persist. stay. Qed.
Lemma frame_refresh k : k ∈ dirty -> keeps frame (refresh k).
Proof. intros Hk. unfold refresh. stay. Qed.
Lemma frame_clear : keeps frame clear.
Proof. unfold clear. stay. Qed.
Lemma frame_evict_loop n protect : keeps frame (evict_loop n protect).
Proof. induction n as [|n IH]; simpl; unfold ask_victim; stay. Qed.
Hint Resolve frame_evict_loop : frames.
Lemma frame_evict protect : keeps frame (evict_if_needed protect).
Proof. unfold evict_if_needed. stay. Qed.
Lemma frame_snapshot : keeps frame snapshot.
Proof. unfold snapshot. stay. Qed.
Lemma frame_record k : keeps frame (record k).
Proof. unfold record. stay. Qed.
Lemma frame_begin d : keeps frame (begin_snapshot d).
Proof. unfold begin_snapshot. stay. Qed.
End Methods.
#[export] Hint Resolve frame_now frame_bump frame_remove frame_expire frame_insert frame_lookup frame_get
  frame_peek frame_read_str frame_read frame_write_target frame_iter_keys frame_store_set frame_delete
  frame_set_expiry frame_persist frame_refresh frame_clear frame_evict frame_snapshot frame_record
  frame_begin : frames.
