(* ===== verification/StoreInv.v ===== *)
(** * The invariants of the keyspace

    The four invariants the [Store] class documents, and that its methods keep
    them: every key is tracked by the eviction policy, [_volatile] is exactly
    the keys with a TTL, [used_memory] is the sum of the entries' sizes, and no
    collection is stored empty.  A command may leave the keys it changes in
    place ([dirty]) unaccounted until the engine refreshes them.

    The fifth part, [job_ok], is copy-on-write: while an incremental snapshot
    runs, what it has copied and what is still to copy make up the keyspace as
    it was when the snapshot began (the ghost [J]). *)
From S2P Require Import Prelude PyStr PyFloat Errors Oracles KeySet Containers.
From S2P Require Import SkipList SkipListProofs SkipListQuery ZSet Eviction Store.

Record Ghost := mkGhost { g_data : list (pystr * Entry); g_time : float }.

Section StoreInv.
Context `{Sizing} {P : Type} `{PolicyLaws P} {D E : Type} `{Hooks D E}.
Abbreviation W := (World P D E).
Abbreviation SM := (M exn W).
Implicit Types (s : Store P D) (w : W).

Definition value_wf (v : Value) : Prop :=
  match v with
  | VStr _ => True
  | VList l => lv_wf l
  | VHash h => hv_wf h
  | VSet s => sv_wf s
  | VZset z => zs_wf z
  end.

(** The entry's size is the estimate of its value, which is not empty. *)
Definition accounted (k : pystr) (e : Entry) : Prop :=
  e_size e = entry_size k (e_value e) /\ is_empty_value (e_value e) = false.

Definition key_set (d : list (pystr * Entry)) : gset pystr := list_to_set (dict_keys d).

(** *** The running snapshot *)

(** The keyspace when the snapshot began, and the time then. *)
Context {J : Ghost}.

(** The entry at [k] still has to be copied. *)
Definition pending (k : pystr) (job : SnapshotJob D) (s : Store P D) : Prop :=
  exists e, dict_get k (st_data s) = Some e /\ e_copied e <> j_epoch job.

Record job_inv (s : Store P D) (job : SnapshotJob D) : Prop := {
  ji_epoch : j_epoch job = st_epoch s;
  ji_started : j_started job = g_time J;
  ji_data : dict_wf (g_data J);
  ji_keys : j_keys job = dict_keys (g_data J);
  ji_nodup : NoDup (sr_key <$> j_records job);
  (** what was copied is as it was *)
  ji_records : forall r, r ∈ j_records job -> exists e0,
    dict_get (sr_key r) (g_data J) = Some e0 /\ record_of (sr_key r) e0 = r /\
    is_expired (g_time J) e0 = false;
  (** what is still to copy has not changed, and lies ahead *)
  ji_pending : forall k e, dict_get k (st_data s) = Some e -> e_copied e <> j_epoch job ->
    k ∈ drop (j_pos job) (j_keys job) /\ (k ∉ sr_key <$> j_records job) /\
    exists e0, dict_get k (g_data J) = Some e0 /\ record_of k e0 = record_of k e;
  (** nothing was lost *)
  ji_all : forall k e0, dict_get k (g_data J) = Some e0 -> is_expired (g_time J) e0 = false ->
    k ∈ sr_key <$> j_records job \/ pending k job s
}.

Definition job_ok (s : Store P D) : Prop :=
  (forall k e, dict_get k (st_data s) = Some e -> e_copied e <= st_epoch s) /\
  match st_job s with Some job => job_inv s job | None => True end.

(** [k] may change: the running snapshot does not need it any more. *)
Definition settled (k : pystr) (s : Store P D) : Prop :=
  match st_job s with
  | Some job => forall e, dict_get k (st_data s) = Some e -> e_copied e = j_epoch job
  | None => True
  end.

Record store_inv (dirty : list pystr) (s : Store P D) : Prop := {
  si_dict : dict_wf (st_data s);
  si_tracks : tracks (st_eviction s) (key_set (st_data s));
  si_vol_wf : ks_wf (st_volatile s);
  si_vol : forall k, k ∈ ks_items (st_volatile s) <->
    exists e, dict_get k (st_data s) = Some e /\ e_expires e <> None;
  si_used : used_memory s = dict_sum (fun _ e => e_size e) (st_data s);
  si_values : forall k e, dict_get k (st_data s) = Some e -> value_wf (e_value e);
  si_acc : forall k e, dict_get k (st_data s) = Some e -> k ∉ dirty -> accounted k e;
  si_job : job_ok s;
  si_settled : forall k, k ∈ dirty -> settled k s
}.

Definition winv (dirty : list pystr) (w : W) : Prop := store_inv dirty (w_store w) /\ oracles_ok (w_orc w).

(** A key that is there is found: expiry is off, or it deletes what it hides. *)
Definition flags_ok (s : Store P D) : Prop := expiry_enabled s = true -> expiry_deletes s = true.

(** The limits and switches, which no method of the keyspace changes. *)
Definition same_flags (s s' : Store P D) : Prop :=
  eviction_enabled s' = eviction_enabled s /\ expiry_enabled s' = expiry_enabled s /\
  expiry_deletes s' = expiry_deletes s /\ max_keys s' = max_keys s /\ maxmemory s' = maxmemory s /\
  evicts (st_eviction s') = evicts (st_eviction s).

#[export] Instance same_flags_preorder : PreOrder same_flags.
Proof. split; [done|]. unfold same_flags. intros x y z. intuition congruence. Qed.

Lemma key_set_elem k d : k ∈ key_set d <-> k ∈ d.*1.
Proof. unfold key_set, dict_keys. by rewrite elem_of_list_to_set. Qed.

Lemma key_set_get k d : k ∈ key_set d <-> is_Some (dict_get k d).
Proof. by rewrite key_set_elem, dict_get_is_Some. Qed.

Lemma key_set_replace k e d : is_Some (dict_get k d) -> key_set (dict_set k e d) = key_set d.
Proof.
  intros Hk. apply set_eq. intros x. rewrite !key_set_elem, dict_keys_set.
  apply dict_get_is_Some in Hk. naive_solver.
Qed.

(** ** Changes of one entry *)

(** What may happen to an entry while a snapshot runs. *)
Definition may_touch (k : pystr) (e e' : Entry) (s : Store P D) : Prop :=
  (e_copied e' = e_copied e /\ record_of k e' = record_of k e) \/
  (settled k s /\ (e_copied e' = e_copied e \/ e_copied e' = st_epoch s)).

Lemma job_inv_replace s s' job k e e' :
  job_inv s job -> dict_get k (st_data s) = Some e -> may_touch k e e' s -> st_job s = Some job ->
  st_data s' = dict_set k e' (st_data s) -> st_epoch s' = st_epoch s -> job_inv s' job.
Proof.
  intros Hj Hk Ht Hjob Hd He. pose proof (ji_epoch _ _ Hj) as Hep.
  assert (Hpend : e_copied e' <> j_epoch job -> e_copied e = e_copied e' /\ record_of k e' = record_of k e).
  { intros Hn. destruct Ht as [[? ?]|[Hset Hc]]; [done|]. unfold settled in Hset. rewrite Hjob in Hset.
    specialize (Hset e Hk). destruct Hc; congruence. }
  destruct Hj. split; try done.
  - congruence.
  - intros x ex. rewrite Hd, dict_get_set. case_decide as Hx; [|apply ji_pending0].
    intros [= <-] Hn. subst x. destruct (Hpend Hn) as [Hc ->]. apply ji_pending0; [done|congruence].
  - intros x e0 Hx Hl. destruct (ji_all0 x e0 Hx Hl) as [|(ex & Hex & Hcx)]; [by left|].
    destruct (decide (x = k)) as [->|Hne].
    + rewrite Hk in Hex. injection Hex as <-. right. exists e'. rewrite Hd, dict_get_set, decide_True by done.
      split; [done|]. destruct Ht as [[? ?]|[Hset _]]; [congruence|].
      unfold settled in Hset. rewrite Hjob in Hset. by specialize (Hset e Hk).
    + right. exists ex. by rewrite Hd, dict_get_set, decide_False.
Qed.

Lemma job_ok_replace s s' k e e' :
  job_ok s -> dict_get k (st_data s) = Some e -> may_touch k e e' s ->
  st_data s' = dict_set k e' (st_data s) -> st_epoch s' = st_epoch s -> st_job s' = st_job s -> job_ok s'.
Proof.
  intros [Hle Hj] Hk Ht Hd He Hjob. split.
  - intros x ex. rewrite Hd, dict_get_set, He. case_decide; [|apply Hle]. intros [= <-].
    specialize (Hle k e Hk). destruct Ht as [[-> _]|[_ [->| ->]]]; lia.
  - rewrite Hjob. destruct (st_job s) as [job|] eqn:Ej; [|done]. by eapply job_inv_replace.
Qed.

Lemma settled_replace s s' k e e' x :
  job_ok s -> dict_get k (st_data s) = Some e -> may_touch k e e' s ->
  st_data s' = dict_set k e' (st_data s) -> st_job s' = st_job s ->
  settled x s -> settled x s'.
Proof.
  intros [_ Hj] Hk Ht Hd Hjob. unfold settled. rewrite Hjob, Hd.
  destruct (st_job s) as [job|] eqn:Ej; [|done]. intros Hx ex. rewrite dict_get_set.
  case_decide as Hxk; [|apply Hx]. intros [= <-]. subst x. specialize (Hx e Hk).
  pose proof (ji_epoch _ _ Hj). destruct Ht as [[-> _]|[_ [->| ->]]]; congruence.
Qed.

Lemma store_inv_replace dirty s s' k e e' :
  store_inv dirty s -> dict_get k (st_data s) = Some e ->
  st_data s' = dict_set k e' (st_data s) ->
  st_epoch s' = st_epoch s -> st_job s' = st_job s -> may_touch k e e' s ->
  tracks (st_eviction s') (key_set (st_data s)) ->
  used_memory s' = used_memory s - e_size e + e_size e' ->
  ks_wf (st_volatile s') ->
  (forall x, x ∈ ks_items (st_volatile s') <->
     if decide (x = k) then e_expires e' <> None else x ∈ ks_items (st_volatile s)) ->
  value_wf (e_value e') -> (k ∉ dirty -> accounted k e') ->
  store_inv dirty s'.
Proof.
  intros Hi Hk Hd Hep Hjob Htouch Ht Hu Hw Hv Hval Hacc. split.
  - rewrite Hd. by apply dict_set_wf, (si_dict _ _ Hi).
  - rewrite Hd, key_set_replace by eauto. done.
  - done.
  - intros x. rewrite Hv, Hd. setoid_rewrite dict_get_set. destruct (decide (x = k)) as [->|].
    + naive_solver.
    + apply (si_vol _ _ Hi).
  - rewrite Hu, Hd, dict_sum_set, Hk, (si_used _ _ Hi) by apply (si_dict _ _ Hi). lia.
  - intros x ex. rewrite Hd, dict_get_set. case_decide; [by intros [= <-]|]. apply (si_values _ _ Hi).
  - intros x ex. rewrite Hd, dict_get_set. case_decide; [intros [= <-]; subst; done|]. apply (si_acc _ _ Hi).
  - eapply job_ok_replace; eauto. apply (si_job _ _ Hi).
  - intros x Hx. eapply settled_replace; eauto; [apply (si_job _ _ Hi)|by apply (si_settled _ _ Hi)].
Qed.

Lemma job_ok_insert s s' k e' :
  job_ok s -> dict_get k (st_data s) = None -> e_copied e' = st_epoch s ->
  st_data s' = dict_set k e' (st_data s) -> st_epoch s' = st_epoch s -> st_job s' = st_job s -> job_ok s'.
Proof.
  intros [Hle Hj] Hk Hc Hd He Hjob. split.
  - intros x ex. rewrite Hd, dict_get_set, He. case_decide; [|apply Hle]. intros [= <-]. lia.
  - rewrite Hjob. destruct (st_job s) as [job|] eqn:Ej; [|done]. pose proof (ji_epoch _ _ Hj) as Hep.
    destruct Hj. split; try done.
    + congruence.
    + intros x ex. rewrite Hd, dict_get_set. case_decide; [|apply ji_pending0]. intros [= <-] Hn. congruence.
    + intros x e0 Hx Hl. destruct (ji_all0 x e0 Hx Hl) as [|(ex & Hex & Hcx)]; [by left|].
      right. exists ex. rewrite Hd, dict_get_set, decide_False; [done|]. congruence.
Qed.

Lemma settled_insert s s' k e' x :
  job_ok s -> e_copied e' = st_epoch s -> st_data s' = dict_set k e' (st_data s) -> st_job s' = st_job s ->
  settled x s -> settled x s'.
Proof.
  intros [_ Hj] Hc Hd Hjob. unfold settled. rewrite Hjob, Hd. destruct (st_job s) as [job|] eqn:Ej; [|done].
  intros Hx ex. rewrite dict_get_set. case_decide; [|apply Hx]. intros [= <-].
  by rewrite (ji_epoch _ _ Hj).
Qed.

Lemma store_inv_insert dirty s s' k e' :
  store_inv dirty s -> dict_get k (st_data s) = None ->
  st_data s' = dict_set k e' (st_data s) ->
  st_epoch s' = st_epoch s -> st_job s' = st_job s -> e_copied e' = st_epoch s ->
  tracks (st_eviction s') ({[k]} ∪ key_set (st_data s)) ->
  used_memory s' = used_memory s + e_size e' ->
  st_volatile s' = st_volatile s -> e_expires e' = None ->
  value_wf (e_value e') -> (k ∉ dirty -> accounted k e') ->
  store_inv dirty s'.
Proof.
  intros Hi Hk Hd Hep Hjob Hc Ht Hu Hv He Hval Hacc. split.
  - rewrite Hd. by apply dict_set_wf, (si_dict _ _ Hi).
  - rewrite Hd. replace (key_set (dict_set k e' (st_data s))) with ({[k]} ∪ key_set (st_data s)); [done|].
    apply set_eq. intros x. rewrite elem_of_union, elem_of_singleton, !key_set_elem, dict_keys_set. tauto.
  - rewrite Hv. apply (si_vol_wf _ _ Hi).
  - intros x. rewrite Hv, Hd, (si_vol _ _ Hi). setoid_rewrite dict_get_set.
    destruct (decide (x = k)) as [->|]; [|done]. rewrite Hk. naive_solver.
  - rewrite Hu, Hd, dict_sum_set, Hk, (si_used _ _ Hi) by apply (si_dict _ _ Hi). lia.
  - intros x ex. rewrite Hd, dict_get_set. case_decide; [by intros [= <-]|]. apply (si_values _ _ Hi).
  - intros x ex. rewrite Hd, dict_get_set. case_decide; [intros [= <-]; subst; done|]. apply (si_acc _ _ Hi).
  - eapply job_ok_insert; eauto. apply (si_job _ _ Hi).
  - intros x Hx. eapply settled_insert; eauto; [apply (si_job _ _ Hi)|by apply (si_settled _ _ Hi)].
Qed.

Lemma job_ok_pop s s' k :
  dict_wf (st_data s) -> job_ok s -> settled k s ->
  st_data s' = dict_pop k (st_data s) -> st_epoch s' = st_epoch s -> st_job s' = st_job s -> job_ok s'.
Proof.
  intros Hwf [Hle Hj] Hset Hd He Hjob. split.
  - intros x ex. rewrite Hd, dict_get_pop, He by done. case_decide; [done|]. apply Hle.
  - rewrite Hjob. unfold settled in Hset. destruct (st_job s) as [job|]; [|done].
    destruct Hj. split; try done.
    + congruence.
    + intros x ex. rewrite Hd, dict_get_pop by done. case_decide; [done|]. apply ji_pending0.
    + intros x e0 Hx Hl. destruct (ji_all0 x e0 Hx Hl) as [|(ex & Hex & Hcx)]; [by left|].
      right. exists ex. rewrite Hd, dict_get_pop, decide_False by (done || naive_solver). done.
Qed.

Lemma store_inv_pop dirty s s' k e :
  store_inv dirty s -> dict_get k (st_data s) = Some e ->
  st_data s' = dict_pop k (st_data s) ->
  st_epoch s' = st_epoch s -> st_job s' = st_job s -> settled k s ->
  tracks (st_eviction s') (key_set (st_data s) ∖ {[k]}) ->
  used_memory s' = used_memory s - e_size e ->
  st_volatile s' = ks_discard k (st_volatile s) ->
  store_inv dirty s'.
Proof.
  intros Hi Hk Hd Hep Hjob Hset Ht Hu Hv. pose proof (si_dict _ _ Hi) as Hwf. split.
  - rewrite Hd. by apply dict_pop_wf.
  - rewrite Hd. replace (key_set (dict_pop k (st_data s))) with (key_set (st_data s) ∖ {[k]}); [done|].
    apply set_eq. intros x. rewrite elem_of_difference, elem_of_singleton, !key_set_elem, dict_keys_pop by done. tauto.
  - rewrite Hv. apply ks_discard_wf, (si_vol_wf _ _ Hi).
  - intros x. rewrite Hv, Hd, ks_discard_items, (si_vol _ _ Hi) by apply (si_vol_wf _ _ Hi).
    setoid_rewrite dict_get_pop; [|done]. destruct (decide (x = k)) as [->|]; naive_solver.
  - rewrite Hu, Hd, (si_used _ _ Hi). pose proof (dict_sum_pop (fun _ e => e_size e) k (st_data s)) as Hs.
    rewrite Hk in Hs. rewrite Hs. lia.
  - intros x ex. rewrite Hd, dict_get_pop by done. case_decide; [done|]. apply (si_values _ _ Hi).
  - intros x ex. rewrite Hd, dict_get_pop by done. case_decide; [done|]. apply (si_acc _ _ Hi).
  - eapply job_ok_pop; eauto. apply (si_job _ _ Hi).
  - intros x Hx. pose proof (si_settled _ _ Hi x Hx) as Hs. unfold settled in *. rewrite Hjob, Hd.
    destruct (st_job s); [|done]. intros ex. rewrite dict_get_pop by done. case_decide; [done|]. apply Hs.
Qed.

(** ** The methods

    [inv dirty s0]: the invariant holds and the switches are those of [s0]. *)
Definition inv (dirty : list pystr) (s0 : Store P D) (w : W) : Prop :=
  winv dirty w /\ same_flags s0 (w_store w).

Definition entry_at (k : pystr) (w : W) : option Entry := dict_get k (st_data (w_store w)).

Lemma inv_start dirty w : winv dirty w -> inv dirty (w_store w) w.
Proof. by split. Qed.

Lemma job_ok_same s s' :
  job_ok s -> st_data s' = st_data s -> st_epoch s' = st_epoch s -> st_job s' = st_job s -> job_ok s'.
Proof.
  intros [Hle Hj] Hd He Hjob. split; [intros k e; rewrite Hd, He; apply Hle|].
  rewrite Hjob. destruct (st_job s) as [job|]; [|done].
  destruct Hj. split; rewrite ?Hd, ?He; try done. unfold pending. by rewrite Hd.
Qed.

(** A step that changes nothing the invariant speaks of. *)
Lemma inv_other dirty s0 w s' env o :
  inv dirty s0 w -> st_data s' = st_data (w_store w) -> st_eviction s' = st_eviction (w_store w) ->
  st_volatile s' = st_volatile (w_store w) -> used_memory s' = used_memory (w_store w) ->
  st_epoch s' = st_epoch (w_store w) -> st_job s' = st_job (w_store w) ->
  same_flags (w_store w) s' -> same_source (w_orc w) o -> inv dirty s0 (mkWorld s' env o).
Proof.
  intros [[Hi Ho] Hf] Hd He Hv Hu Hep Hjob Hf' Hs. split; [split|]; simpl.
  - pose proof (job_ok_same (w_store w) s' (si_job _ _ Hi) Hd Hep Hjob).
    destruct Hi. split; rewrite ?Hd, ?He, ?Hv, ?Hu; try done.
    intros k Hk. specialize (si_settled0 k Hk). unfold settled in *. by rewrite Hjob, Hd.
  - by eapply same_source_ok.
  - by etrans.
Qed.

Lemma keeps_upd_other dirty s0 (f : Store P D -> Store P D) :
  (forall s, st_data (f s) = st_data s /\ st_eviction (f s) = st_eviction s /\
             st_volatile (f s) = st_volatile s /\ used_memory (f s) = used_memory s /\
             st_epoch (f s) = st_epoch s /\ st_job (f s) = st_job s /\ same_flags s (f s)) ->
  keeps (inv dirty s0) (upd (E := E) f).
Proof. intros Hf w Hw. destruct (Hf (w_store w)) as (? & ? & ? & ? & ? & ? & ?). by eapply inv_other. Qed.

Lemma keeps_env {A} dirty s0 (c : M exn E A) : keeps (inv dirty s0) (env_do (P := P) (D := D) c).
Proof. intros w Hw. unfold env_do. destruct (c (w_env w)) as [r e]. by eapply inv_other. Qed.

(** What the [on_expire] callback may raise. *)
Definition hook_raises (x : exn) : Prop :=
  exists f k env, hook_expire = Some f /\ (f k env).1 = Raise x.

Lemma keeps_ask {A} dirty s0 (f : Oracles -> A * Oracles) :
  (forall o, oracles_ok o -> same_source o (f o).2) -> keeps (inv dirty s0) (ask (P := P) (D := D) (E := E) f).
Proof.
  intros Hf w Hw. unfold ask. specialize (Hf (w_orc w) (proj2 (proj1 Hw))).
  destruct (f (w_orc w)) as [a o]. by eapply inv_other.
Qed.

Lemma keeps_now dirty s0 : keeps (inv dirty s0) (now (P := P) (D := D) (E := E)).
Proof. by apply keeps_ask. Qed.

Lemma keeps_gets {A} dirty s0 (f : Store P D -> A) : keeps (inv dirty s0) (gets (E := E) f).
Proof. apply keeps_read. Qed.

Lemma keeps_access dirty s0 k : keeps (inv dirty s0) (policy (D := D) (E := E) (on_access k)).
Proof.
  intros w [[Hi Ho] Hf]. unfold policy.
  destruct (on_access_tracks _ _ k (w_orc w) (si_tracks _ _ Hi)) as (Ht & Hs & He).
  destruct (on_access k _ _) as [p o]. split; [split|]; simpl in *.
  - pose proof (si_job _ _ Hi) as Hj. destruct Hi. split; try done. by eapply job_ok_same.
  - by eapply same_source_ok.
  - etrans; [done|]. by unfold same_flags.
Qed.

(** *** Copying for a snapshot *)
Lemma take_key_data k s x :
  dict_get x (st_data (take_key k s)) =
    match st_job s with
    | None => dict_get x (st_data s)
    | Some job =>
        if decide (x = k) then
          e ← dict_get x (st_data s);
          Some (if negb (e_copied e =? j_epoch job) then with_copied (j_epoch job) e else e)
        else dict_get x (st_data s)
    end.
Proof.
  unfold take_key. destruct (st_job s) as [job|]; [|done].
  destruct (decide (x = k)) as [->|Hne].
  - destruct (dict_get k (st_data s)) as [e|] eqn:E1; [|done]. simpl.
    destruct (e_copied e =? j_epoch job); simpl; [done|]. by rewrite dict_get_set, decide_True.
  - destruct (dict_get k (st_data s)) as [e|] eqn:E1; [|done].
    destruct (e_copied e =? j_epoch job); simpl; [done|]. by rewrite dict_get_set, decide_False.
Qed.

Lemma record_copied k n e : record_of k (with_copied n e) = record_of k e.
Proof. done. Qed.

Lemma record_expired k e e' t : record_of k e = record_of k e' -> is_expired t e = is_expired t e'.
Proof. intros [= _ He]. unfold is_expired. by rewrite He. Qed.

Lemma take_entry_job s job k e :
  job_ok s -> st_job s = Some job -> dict_get k (st_data s) = Some e -> e_copied e <> j_epoch job ->
  job_ok (take_entry k e job s).
Proof.
  intros [Hle Hj] Hjob Hk Hc. rewrite Hjob in Hj. pose proof (ji_epoch _ _ Hj) as Hep.
  destruct (ji_pending _ _ Hj k e Hk Hc) as (Hdrop & Hnr & e0 & He0 & Hrec).
  pose proof (record_expired k e0 e (g_time J) Hrec) as Hexp0.
  split; simpl.
  { intros x ex. rewrite dict_get_set. case_decide; [|apply Hle]. intros [= <-]. simpl. lia. }
  assert (Hexp : is_expired (j_started job) (with_copied (j_epoch job) e) = is_expired (g_time J) e0)
    by (rewrite (ji_started _ _ Hj), Hexp0; done).
  rewrite Hexp. destruct Hj. split; simpl; try done.
  - destruct (is_expired (g_time J) e0); simpl; [done|]. rewrite fmap_app. apply NoDup_app.
    conj; [done| |apply NoDup_singleton]. intros x Hx Hin. apply list_elem_of_singleton in Hin. by subst.
  - intros r. destruct (is_expired (g_time J) e0) eqn:Ex; simpl; [apply ji_records0|].
    rewrite elem_of_app, list_elem_of_singleton. intros [Hin| ->]; [by apply ji_records0|].
    exists e0. simpl. conj; [done| |done]. by rewrite record_copied.
  - intros x ex. rewrite dict_get_set. case_decide as Hx; [by intros [= <-]|]. intros Hex Hn.
    destruct (ji_pending0 x ex Hex Hn) as (H1' & H2' & H3'). conj; try done.
    destruct (is_expired (g_time J) e0); simpl; [done|]. rewrite fmap_app, not_elem_of_app. split; [done|].
    simpl. by rewrite list_elem_of_singleton.
  - intros x ex0 Hx Hl. destruct (decide (x = k)) as [->|Hne].
    + left. rewrite He0 in Hx. injection Hx as <-. rewrite Hl. simpl. rewrite fmap_app, elem_of_app.
      right. simpl. by apply list_elem_of_singleton.
    + destruct (ji_all0 x ex0 Hx Hl) as [Hin|(ex & Hex & Hcx)].
      * left. destruct (is_expired (g_time J) e0); simpl; [done|]. rewrite fmap_app, elem_of_app. by left.
      * right. exists ex. simpl. by rewrite dict_get_set, decide_False.
Qed.

Lemma take_entry_settled s job k e x :
  st_job s = Some job -> settled x s \/ x = k -> settled x (take_entry k e job s).
Proof.
  intros Hjob Hx. unfold settled in *. rewrite Hjob in Hx. simpl. intros ex. rewrite dict_get_set.
  case_decide; [by intros [= <-]|]. destruct Hx; [auto|done].
Qed.

Lemma take_key_settled k s x : settled x s -> settled x (take_key k s).
Proof.
  intros Hx. unfold take_key. destruct (st_job s) as [job|] eqn:Ej; [|done].
  destruct (dict_get k (st_data s)); [|done]. destruct (negb _); [|done].
  apply take_entry_settled; [done|by left].
Qed.

Lemma take_key_inv dirty s k :
  store_inv dirty s ->
  store_inv dirty (take_key k s) /\ same_flags s (take_key k s) /\ settled k (take_key k s) /\
  st_epoch (take_key k s) = st_epoch s.
Proof.
  intros Hi. unfold take_key, settled. destruct (st_job s) as [job|] eqn:Hjob; [|by rewrite Hjob].
  destruct (dict_get k (st_data s)) as [e|] eqn:Hk; [|conj; try done; rewrite Hjob, Hk; done].
  destruct (Z.eqb_spec (e_copied e) (j_epoch job)) as [Hc|Hc]; cbn [negb].
  { conj; try done. rewrite Hjob, Hk. by intros ? [= <-]. }
  conj; try done.
  2: { pose proof (take_entry_settled s job k e k Hjob (or_intror eq_refl)) as Hset.
       unfold settled in Hset. simpl in Hset. simpl. exact Hset. }
  pose proof (take_entry_job s job k e (si_job _ _ Hi) Hjob Hk Hc) as Hj.
  pose proof (fun x Hx => take_entry_settled s job k e x Hjob (or_introl (si_settled _ _ Hi x Hx))) as Hset.
  set (s' := take_entry k e job s) in *.
  assert (Hd : forall x, dict_get x (st_data s') = if decide (x = k) then Some (with_copied (j_epoch job) e)
                                                   else dict_get x (st_data s)) by (intros; apply dict_get_set).
  split; try done.
  - apply dict_set_wf, (si_dict _ _ Hi).
  - simpl. rewrite key_set_replace by eauto. apply (si_tracks _ _ Hi).
  - apply (si_vol_wf _ _ Hi).
  - intros x. simpl. rewrite (si_vol _ _ Hi). setoid_rewrite dict_get_set. case_decide; [|done]. subst.
    rewrite Hk. naive_solver.
  - simpl. rewrite dict_sum_set, Hk, (si_used _ _ Hi). simpl. lia.
  - intros x ex. rewrite Hd. case_decide; [|apply (si_values _ _ Hi)]. intros [= <-]. by apply (si_values _ _ Hi k e).
  - intros x ex. rewrite Hd. case_decide; [|apply (si_acc _ _ Hi)]. intros [= <-] Hn. subst. by apply (si_acc _ _ Hi k e).
Qed.

Lemma keeps_barrier dirty s0 k : keeps (inv dirty s0) (snapshot_barrier (E := E) k).
Proof.
  intros w [[Hi Ho] Hf]. destruct (take_key_inv dirty (w_store w) k Hi) as (Hi' & Hf' & _).
  split; [by split|]. by etrans.
Qed.

Lemma take_key_some k s e :
  dict_get k (st_data s) = Some e ->
  exists e', dict_get k (st_data (take_key k s)) = Some e' /\
    e_value e' = e_value e /\ e_expires e' = e_expires e /\ e_size e' = e_size e.
Proof.
  intros Hk. rewrite take_key_data. destruct (st_job s) as [job|]; [|by eauto].
  rewrite decide_True, Hk by done. simpl. eexists. split; [done|]. by destruct (negb _).
Qed.

(** *** Removal *)
Lemma remove_spec dirty s0 k w e :
  inv dirty s0 w -> entry_at k w = Some e ->
  exists w', remove k w = (Ok tt, w') /\ inv dirty s0 w' /\ w_env w' = w_env w /\ w_orc w' = w_orc w /\
    (forall x, entry_at x w' = if decide (x = k) then None else entry_at x w) /\
    st_data (w_store w') = dict_pop k (st_data (take_key k (w_store w))) /\
    used_memory (w_store w') = used_memory (w_store w) - e_size e.
Proof.
  intros [[Hi Ho] Hf] Hk. unfold remove, snapshot_barrier, gets, upd, policy, bindM, readM, modifyM.
  cbn [w_store w_env w_orc id].
  destruct (take_key_inv dirty (w_store w) k Hi) as (Hi1 & Hf1 & Hset & _).
  destruct (take_key_some k (w_store w) e Hk) as (e1 & Hk1 & _ & _ & Hsz).
  assert (Hu1 : used_memory (take_key k (w_store w)) = used_memory (w_store w)).
  { unfold take_key, take_entry. repeat case_match; done. }
  assert (Hd1 : forall x, x <> k -> dict_get x (st_data (take_key k (w_store w))) = entry_at x w).
  { intros x Hx. rewrite take_key_data. case_match; [by rewrite decide_False|done]. }
  set (s1 := take_key k (w_store w)) in *. clearbody s1. rewrite Hk1. cbn [w_store w_env w_orc].
  eexists. split; [reflexivity|].
  destruct (on_remove_tracks _ _ k (si_tracks _ _ Hi1)) as [Ht He]; [apply key_set_get; eauto|].
  split_and!; try done; simpl.
  - split; [split; [|done]|].
    + eapply (store_inv_pop dirty s1 _ k e1); done.
    + etrans; [done|]. etrans; [done|]. by unfold same_flags.
  - intros x. unfold entry_at. simpl. rewrite dict_get_pop by apply (si_dict _ _ Hi1).
    case_decide; [done|]. by apply Hd1.
  - lia.
Qed.

Lemma keeps_remove dirty s0 k : keeps (inv dirty s0) (remove k).
Proof.
  intros w Hw. destruct (entry_at k w) as [e|] eqn:Hk.
  - by destruct (remove_spec dirty s0 k w e Hw Hk) as (w' & -> & Hw' & _).
  - unfold remove, snapshot_barrier, gets, upd, bindM, readM, modifyM. cbn [w_store id].
    assert (dict_get k (st_data (take_key k (w_store w))) = None) as ->.
    { rewrite take_key_data. unfold entry_at in Hk. case_match; [|done]. by rewrite decide_True, Hk. }
    by apply (keeps_barrier dirty s0 k w).
Qed.

(** *** Expiry *)
Lemma keeps_bump_expired dirty s0 n : keeps (inv dirty s0) (bump_expired (E := E) n).
Proof. by apply keeps_upd_other. Qed.

Lemma expire_spec dirty s0 k w e :
  inv dirty s0 w -> entry_at k w = Some e ->
  exists r w', expire k w = (r, w') /\ inv dirty s0 w' /\ w_orc w' = w_orc w /\
    (forall x, entry_at x w' = if decide (x = k) then None else entry_at x w) /\
    (forall x, r = Raise x -> hook_raises x) /\
    match hook_expire with Some f => f k (w_env w) | None => (Ok tt, w_env w) end = (r, w_env w').
Proof.
  intros Hw Hk. destruct (remove_spec dirty s0 k w e Hw Hk) as (w1 & E1 & Hw1 & Henv & Ho & Hd & _).
  unfold expire, bindM. rewrite E1. unfold bump_expired, upd, modifyM, env_do. cbn [w_env]. rewrite Henv.
  unfold hook_raises. destruct hook_expire as [f|]; cbn [w_env w_store w_orc];
    [destruct (f k (w_env w)) as [r env] eqn:Ef|]; eexists _, _; (split; [reflexivity|]); conj; try done; try (by eapply inv_other).
  intros x ->. exists f, k, (w_env w). by rewrite Ef.
Qed.

Lemma keeps_expire dirty s0 k : keeps (inv dirty s0) (expire k).
Proof.
  unfold expire. apply keeps_bind; [apply keeps_remove|intros _].
  apply keeps_bind; [apply keeps_bump_expired|intros _].
  destruct hook_expire; [apply keeps_env|apply keeps_ret].
Qed.

(** *** Lookup *)
Lemma lookup_spec dirty s0 k w :
  inv dirty s0 w ->
  exists r w', lookup k w = (r, w') /\ inv dirty s0 w' /\
    (forall x, x <> k -> entry_at x w' = entry_at x w) /\
    match r with
    | Ok (Some e) => entry_at k w = Some e /\ entry_at k w' = Some e
    | Ok None => flags_ok s0 -> entry_at k w' = None
    | Raise x => hook_raises x
    end.
Proof.
  intros Hw. unfold lookup, gets, bindM, readM. cbn [id]. fold (entry_at k w).
  destruct (entry_at k w) as [e|] eqn:Hk; [|by returns w].
  destruct (expiry_enabled (w_store w)) eqn:He; [|by returns w].
  pose proof (keeps_now dirty s0 w Hw) as Hn.
  unfold now, ask in *. destruct (clock_now (w_orc w)) as [t o]. simpl in Hn.
  set (w1 := mkWorld (w_store w) (w_env w) o) in *.
  destruct (is_expired t e); [|by returns w1].
  destruct (expiry_deletes (w_store w)) eqn:Hx.
  - destruct (expire_spec dirty s0 k w1 e Hn Hk) as (r & w2 & -> & Hw2 & _ & Hd & Hr & _).
    destruct r as [[]|x]; eexists _, w2; (split; [reflexivity|]); conj; try done.
    + intros x Hne. by rewrite Hd, decide_False.
    + intros _. by rewrite Hd, decide_True.
    + intros y Hne. by rewrite Hd, decide_False.
    + by apply Hr.
  - exists (Ok None), w1. conj; try done. intros Hfl. exfalso.
    destruct Hw as [_ (_ & F1 & F2 & _)]. unfold flags_ok in Hfl. rewrite <- F1, <- F2 in Hfl.
    rewrite He, Hx in Hfl. by specialize (Hfl eq_refl).
Qed.

Lemma keeps_lookup dirty s0 k : keeps (inv dirty s0) (lookup k).
Proof. intros w Hw. by destruct (lookup_spec dirty s0 k w Hw) as (r & w' & -> & Hw' & _). Qed.

(** *** Insertion *)
Lemma insert_spec dirty s0 k v w :
  inv dirty s0 w -> entry_at k w = None -> value_wf v ->
  (k ∉ dirty -> is_empty_value v = false) ->
  exists w', insert k (new_entry v None) w = (Ok tt, w') /\ inv dirty s0 w' /\ w_env w' = w_env w /\
    (forall x, x <> k -> entry_at x w' = entry_at x w) /\
    entry_at k w' = Some (mkEntry v None (entry_size k v) (st_epoch (w_store w))).
Proof.
  intros [[Hi Ho] Hf] Hk Hv Hne.
  unfold insert, gets, upd, policy, bindM, readM, modifyM. cbn [id]. simpl.
  destruct (on_insert_tracks _ _ k (w_orc w) (si_tracks _ _ Hi)) as (Ht & Hs & He).
  { rewrite key_set_get. intros [e He]. unfold entry_at in Hk. congruence. }
  destruct (on_insert k _ _) as [p o]. simpl in *. eexists. split; [reflexivity|].
  conj; simpl; try done.
  - split; [split|]; simpl.
    + eapply (store_inv_insert dirty (w_store w)); try done.
      intros Hn. split; [done|]. by apply Hne.
    + by eapply same_source_ok.
    + etrans; [done|]. by unfold same_flags.
  - intros x Hx. unfold entry_at. simpl. by rewrite dict_get_set, decide_False.
  - unfold entry_at. simpl. by rewrite dict_get_set, decide_True.
Qed.

Lemma new_value_wf kd : value_wf (new_value kd).
Proof. destruct kd; simpl; [apply lv_new_wf|apply hv_new_wf|apply sv_new_wf|apply zs_new_wf]. Qed.

(** *** Reads *)
Lemma get_spec dirty s0 k w :
  inv dirty s0 w ->
  exists r w', get k w = (r, w') /\ inv dirty s0 w' /\
    (forall x, x <> k -> entry_at x w' = entry_at x w) /\
    match r with
    | Ok (Some e) => entry_at k w = Some e /\ entry_at k w' = Some e
    | Ok None => flags_ok s0 -> entry_at k w' = None
    | Raise x => hook_raises x
    end.
Proof.
  intros Hw. destruct (lookup_spec dirty s0 k w Hw) as (r & w1 & E1 & Hw1 & Hx & Hr).
  unfold get, bindM. rewrite E1. destruct r as [[e|]|x]; [| |by returns w1].
  - unfold upd, modifyM. set (w2 := mkWorld _ _ _).
    assert (Hw2 : inv dirty s0 w2) by (by eapply inv_other).
    pose proof (keeps_access dirty s0 k w2 Hw2) as Hw3. unfold policy in *.
    destruct (on_access k _ _) as [p o]. eexists _, _. split; [reflexivity|]. conj; first [done | exact Hx | apply Hr].
  - unfold upd, modifyM, ret. eexists _, _. split; [reflexivity|].
    conj; [by eapply inv_other|exact Hx|done].
Qed.

Lemma keeps_get_entry dirty s0 k : keeps (inv dirty s0) (get k).
Proof. intros w Hw. by destruct (get_spec dirty s0 k w Hw) as (r & w' & -> & Hw' & _). Qed.

Lemma keeps_peek dirty s0 k : keeps (inv dirty s0) (peek k).
Proof. apply keeps_lookup. Qed.

Lemma keeps_read_str dirty s0 k : keeps (inv dirty s0) (read_str k).
Proof.
  apply keeps_bind; [apply keeps_get_entry|]. intros [e|]; [|apply keeps_ret].
  destruct (e_value e); apply keeps_ret || apply keeps_raise.
Qed.

(** [read] returns the value stored at the key. *)
Lemma read_spec dirty s0 k kd w :
  inv dirty s0 w ->
  exists r w', read k kd w = (r, w') /\ inv dirty s0 w' /\
    (forall x, x <> k -> entry_at x w' = entry_at x w) /\
    match r with
    | Ok (Some v) => has_kind kd v = true /\ exists e, entry_at k w' = Some e /\ entry_at k w = Some e /\ e_value e = v
    | Ok None => flags_ok s0 -> entry_at k w' = None
    | Raise x => x = new_exn WrongTypeError [] None \/ hook_raises x
    end.
Proof.
  intros Hw. destruct (get_spec dirty s0 k w Hw) as (r & w1 & E1 & Hw1 & Hx & Hr).
  unfold read, bindM. rewrite E1. destruct r as [[e|]|x]; [|by returns w1|returns w1; auto].
  destruct Hr as [Hr0 Hr1].
  destruct (has_kind kd (e_value e)) eqn:Hk; eexists _, w1; (split; [reflexivity|]); conj; try done.
  - by exists e.
  - by left.
Qed.

Lemma keeps_read_value dirty s0 k kd : keeps (inv dirty s0) (read k kd).
Proof. intros w Hw. by destruct (read_spec dirty s0 k kd w Hw) as (r & w' & -> & Hw' & _). Qed.

(** *** Writes *)
Lemma has_kind_new kd : has_kind kd (new_value kd) = true.
Proof. by destruct kd. Qed.

Lemma inv_value dirty s0 w k e : inv dirty s0 w -> entry_at k w = Some e -> value_wf (e_value e).
Proof. intros [[Hi _] _]. apply (si_values _ _ Hi). Qed.

Lemma access_spec dirty s0 k w :
  inv dirty s0 w ->
  exists w', policy (on_access k) w = (Ok tt, w') /\ inv dirty s0 w' /\ w_env w' = w_env w /\
    forall x, entry_at x w' = entry_at x w.
Proof.
  intros Hw. pose proof (keeps_access dirty s0 k w Hw) as Hw'. unfold policy in *.
  destruct (on_access k _ _) as [p o]. eexists. split; [reflexivity|]. conj; done.
Qed.

Lemma write_target_spec dirty s0 k kd w :
  inv dirty s0 w -> flags_ok s0 -> k ∈ dirty ->
  exists r w', write_target k kd w = (r, w') /\ inv dirty s0 w' /\
    (forall x, x <> k -> entry_at x w' = entry_at x w) /\
    match r with
    | Ok v => has_kind kd v = true /\ value_wf v /\
        exists e, entry_at k w' = Some e /\ e_value e = v /\ (entry_at k w = Some e \/ v = new_value kd)
    | Raise x => x = new_exn WrongTypeError [] None \/ hook_raises x
    end.
Proof.
  intros Hw Hfl Hdirty. destruct (lookup_spec dirty s0 k w Hw) as (r & w1 & E1 & Hw1 & Hx & Hr).
  unfold write_target, bindM. rewrite E1. destruct r as [[e|]|x]; [| |returns w1; auto].
  - destruct Hr as [Hr0 Hr1]. destruct (has_kind kd (e_value e)) eqn:Hk.
    + destruct (access_spec dirty s0 k w1 Hw1) as (w2 & -> & Hw2 & _ & Hd).
      eexists _, w2. split; [reflexivity|]. conj; try done.
      * intros x Hne. by rewrite Hd, Hx.
      * by apply (inv_value dirty s0 w1 k).
      * exists e. rewrite Hd. auto.
    + returns w1; auto.
  - destruct (insert_spec dirty s0 k (new_value kd) w1 Hw1 (Hr Hfl) (new_value_wf kd)) as (w2 & -> & Hw2 & _ & Hd & Hk);
      [done|]. eexists _, w2. split; [reflexivity|]. conj; try done.
    + intros x Hne. by rewrite Hd, Hx.
    + apply has_kind_new.
    + apply new_value_wf.
    + eexists. split; [exact Hk|]. auto.
Qed.

Lemma mutate_spec dirty s0 k v w e :
  inv dirty s0 w -> k ∈ dirty -> value_wf v -> entry_at k w = Some e ->
  exists w', mutate k v w = (Ok tt, w') /\ inv dirty s0 w' /\ w_env w' = w_env w /\ w_orc w' = w_orc w /\
    (forall x, x <> k -> entry_at x w' = entry_at x w) /\ entry_at k w' = Some (with_value v e).
Proof.
  intros [[Hi Ho] Hf] Hd Hv Hk. unfold mutate, upd, modifyM. unfold entry_at in *. rewrite Hk.
  eexists. split; [reflexivity|]. conj; try done; simpl.
  - split; [split; [|done]|by etrans; [|by unfold same_flags]]. simpl.
    eapply (store_inv_replace dirty (w_store w) _ k e (with_value v e)); try done.
    + right. split; [by apply (si_settled _ _ Hi)|by left].
    + apply (si_tracks _ _ Hi).
    + simpl. lia.
    + apply (si_vol_wf _ _ Hi).
    + intros x. simpl. case_decide; [|done]. subst. rewrite (si_vol _ _ Hi), Hk. naive_solver.
  - intros x Hx. by rewrite dict_get_set, decide_False.
  - by rewrite dict_get_set, decide_True.
Qed.

Lemma keeps_mutate dirty s0 k v : k ∈ dirty -> value_wf v -> keeps (inv dirty s0) (mutate (E := E) k v).
Proof.
  intros Hd Hv w Hw. destruct (entry_at k w) as [e|] eqn:Hk.
  - by destruct (mutate_spec dirty s0 k v w e Hw Hd Hv Hk) as (w' & -> & Hw' & _).
  - unfold mutate, upd, modifyM. unfold entry_at in Hk. rewrite Hk. by eapply inv_other.
Qed.

Lemma volatile_set dirty s k e t x :
  store_inv dirty s -> dict_get k (st_data s) = Some e ->
  x ∈ ks_items (match t with Some _ => ks_add k (st_volatile s) | None => ks_discard k (st_volatile s) end) <->
  if decide (x = k) then (t : option float) <> None else x ∈ ks_items (st_volatile s).
Proof.
  intros Hi Hk. pose proof (si_vol_wf _ _ Hi) as Hwf. destruct t.
  - rewrite ks_add_items by done. case_decide; naive_solver.
  - rewrite ks_discard_items by done. case_decide; naive_solver.
Qed.

Lemma set_over_spec dirty s0 k v t old w :
  inv dirty s0 w -> entry_at k w = Some old -> value_wf v -> k ∈ dirty ->
  t = e_expires old \/ t = None ->
  let e := mkEntry v t (entry_size k v) (st_epoch (w_store w)) in
  let s := put_entry k e (add_used (e_size e) (set_volatile
             (match t with Some _ => st_volatile (w_store w) | None => ks_discard k (st_volatile (w_store w)) end)
             (add_used (- e_size old) (w_store w)))) in
  inv dirty s0 (mkWorld s (w_env w) (w_orc w)).
Proof.
  intros [[Hi Ho] Hf] Hk Hv Hne Ht e s. pose proof (si_vol_wf _ _ Hi) as Hwf.
  split; [split; [|done]|by etrans; [|by unfold same_flags]]. simpl.
  eapply (store_inv_replace dirty (w_store w) _ k old e); try done.
  - right. split; [by apply (si_settled _ _ Hi)|by right].
  - apply (si_tracks _ _ Hi).
  - simpl. destruct t; simpl; by auto with keyset.
  - intros x. simpl. destruct t as [t|]; simpl.
    + case_decide; [|done]. subst x. rewrite (si_vol _ _ Hi). unfold entry_at in Hk. rewrite Hk.
      destruct Ht as [Ht|Ht]; [|done]. split; [done|intros _; exists old; split; [done|congruence]].
    + rewrite ks_discard_items by done. case_decide; naive_solver.
Qed.

(** The entry [set] replaces, and what [KEEPTTL] finds of it. *)
Lemma set_old_spec dirty s0 k (keep : bool) w :
  inv dirty s0 w -> flags_ok s0 ->
  exists r w1, (if keep then lookup k else gets (fun s => dict_get k (st_data s))) w = (r, w1) /\
    inv dirty s0 w1 /\ (forall x, x <> k -> entry_at x w1 = entry_at x w) /\
    match r with
    | Ok old => entry_at k w1 = old /\ (forall e, old = Some e -> entry_at k w = Some e)
    | Raise x => hook_raises x
    end.
Proof.
  intros Hw Hfl. destruct keep; [|by eexists _, w; split; [reflexivity|conj]].
  destruct (lookup_spec dirty s0 k w Hw) as (r & w1 & E1 & Hw1 & Hx & Hr).
  exists r, w1. conj; try done. destruct r as [[e|]|x]; [|by split; [apply Hr|]|done].
  destruct Hr. split; [done|]. by intros e' [= <-].
Qed.

Definition set_result (k : pystr) (v : Value) (keep : bool) (w : W) (e : Entry) : Prop :=
  e_value e = v /\ e_size e = entry_size k v /\
  (e_expires e = None \/ keep = true /\ exists e0, entry_at k w = Some e0 /\ e_expires e = e_expires e0).

Lemma set_spec dirty s0 k v keep w :
  inv dirty s0 w -> flags_ok s0 -> value_wf v -> k ∈ dirty ->
  exists r w', set k v keep w = (r, w') /\ inv dirty s0 w' /\
    (forall x, x <> k -> entry_at x w' = entry_at x w) /\
    match r with
    | Ok _ => exists e, entry_at k w' = Some e /\ set_result k v keep w e
    | Raise x => keep = true /\ hook_raises x
    end.
Proof.
  intros Hw Hfl Hv Hne.
  destruct (set_old_spec dirty s0 k keep w Hw Hfl) as (old & w1 & E1 & Hw1 & Hx & Hold).
  unfold set, bindM. rewrite E1. destruct old as [old|x].
  2: { returns w1; try done. by destruct keep. }
  destruct Hold as [Hk1 Hold]. destruct old as [old|].
  - set (t := if keep then e_expires old else None).
    set (e := mkEntry v t (entry_size k v) (st_epoch (w_store w1))).
    pose proof (set_over_spec dirty s0 k v t old w1 Hw1 Hk1 Hv Hne ltac:(unfold t; destruct keep; auto)) as Hs.
    assert (Hfin : forall w2, inv dirty s0 w2 ->
      (forall x, entry_at x w2 = if decide (x = k) then Some e else entry_at x w1) ->
      exists r w', policy (on_access k) w2 = (r, w') /\ inv dirty s0 w' /\
        (forall x, x <> k -> entry_at x w' = entry_at x w) /\
        match r with
        | Ok _ => exists e, entry_at k w' = Some e /\ set_result k v keep w e
        | Raise x => keep = true /\ hook_raises x
        end).
    { intros w2 Hw2 Hd2. destruct (access_spec dirty s0 k w2 Hw2) as (w3 & -> & Hw3 & _ & Hd3).
      returns w3; try done.
      - intros x Hxk. by rewrite Hd3, Hd2, decide_False, Hx.
      - exists e. rewrite Hd3, Hd2, decide_True by done. unfold set_result. conj; try done. unfold e, t. simpl.
        destruct keep; [right|by left]. split; [done|]. exists old. split; [by apply Hold|done]. }
    unfold gets, readM, upd, modifyM. simpl. fold t.
    destruct t as [t0|]; simpl; (apply Hfin; [exact Hs|]); intros x; unfold entry_at; simpl; apply dict_get_set.
  - destruct (insert_spec dirty s0 k v w1 Hw1 Hk1 Hv (fun Hn => False_ind _ (Hn Hne))) as (w2 & -> & Hw2 & _ & Hd & Hk).
    returns w2; [done| |].
    + intros x Hne'. by rewrite Hd, Hx.
    + eexists. split; [exact Hk|]. unfold set_result. simpl. auto.
Qed.
End StoreInv.
