(* ===== verification/StoreOps.v ===== *)
(** The remaining methods of the keyspace keep its invariants: deletion, TTLs,
    [refresh], [clear], eviction, the expiry cycle, snapshots and loading. *)
From S2P Require Import Prelude PyStr PyFloat Errors Oracles KeySet Containers.
From S2P Require Import SkipList SkipListProofs SkipListQuery ZSet Eviction Store StoreInv.

Section StoreOps.
Context `{Sizing} {P : Type} `{PolicyLaws P} {D E : Type} `{Hooks D E}.
Abbreviation W := (World P D E).
Abbreviation SM := (M exn W).
Implicit Types (s : Store P D) (w : W).
Context {J : Ghost}.
Abbreviation inv := (StoreInv.inv (P := P) (D := D) (E := E) (J := J)).
Abbreviation store_inv := (StoreInv.store_inv (P := P) (D := D) (J := J)).

Lemma delete_spec dirty s0 k w :
  inv dirty s0 w ->
  exists r w', delete k w = (r, w') /\ inv dirty s0 w' /\
    (forall x, x <> k -> entry_at x w' = entry_at x w) /\
    match r with
    | Ok b => (flags_ok s0 -> entry_at k w' = None) /\ (b = true -> entry_at k w <> None)
    | Raise x => hook_raises x
    end.
Proof.
  intros Hw. destruct (lookup_spec dirty s0 k w Hw) as (r & w1 & E1 & Hw1 & Hx & Hr).
  unfold delete, bindM. rewrite E1. destruct r as [[e|]|x]; [|by returns w1..].
  destruct Hr as [Hr0 Hr1].
  destruct (remove_spec dirty s0 k w1 e Hw1 Hr1) as (w2 & -> & Hw2 & _ & _ & Hd & _).
  eexists _, w2. split; [reflexivity|]. conj; [done| | |].
  - intros x Hne. by rewrite Hd, decide_False, Hx.
  - intros _. by rewrite Hd, decide_True.
  - by rewrite Hr0.
Qed.

Lemma keeps_delete dirty s0 k : keeps (inv dirty s0) (delete k).
Proof. intros w Hw. by destruct (delete_spec dirty s0 k w Hw) as (r & w' & -> & Hw' & _). Qed.

(** The deadline of an entry and the membership of its key in [_volatile]
    change together. *)
Lemma put_expires_inv dirty s0 k t e w :
  inv dirty s0 w -> entry_at k w = Some e -> k ∈ dirty ->
  inv dirty s0 (mkWorld (set_volatile
    (match t with Some _ => ks_add k (st_volatile (w_store w)) | None => ks_discard k (st_volatile (w_store w)) end)
    (put_entry k (with_expires t e) (w_store w))) (w_env w) (w_orc w)).
Proof.
  intros [[Hi Ho] Hf] Hk Hdk. split; [split; [|done]|by etrans; [|by unfold same_flags]]. simpl.
  eapply (store_inv_replace dirty (w_store w) _ k e (with_expires t e)); try done.
  - right. split; [by apply (si_settled _ _ Hi)|by left].
  - apply (si_tracks _ _ Hi).
  - simpl. lia.
  - simpl. pose proof (si_vol_wf _ _ Hi). destruct t; auto with keyset.
  - intros x. by apply (volatile_set dirty (w_store w) k e t x Hi Hk).
  - simpl. by eapply (si_values _ _ Hi).
Qed.

Lemma set_expiry_spec dirty s0 k t w :
  inv dirty s0 w -> k ∈ dirty ->
  exists r w', set_expiry k t w = (r, w') /\ inv dirty s0 w' /\
    (forall x, x <> k -> entry_at x w' = entry_at x w) /\
    match r with
    | Ok true => exists e, entry_at k w = Some e /\ entry_at k w' = Some (with_expires (Some t) e)
    | Ok false => flags_ok s0 -> entry_at k w' = None
    | Raise x => hook_raises x
    end.
Proof.
  intros Hw Hdk. destruct (lookup_spec dirty s0 k w Hw) as (r & w1 & E1 & Hw1 & Hx & Hr).
  unfold set_expiry, bindM. rewrite E1. destruct r as [[e|]|x]; [|by returns w1..].
  destruct Hr as [Hr0 Hr1]. unfold upd, modifyM.
  eexists _, _. split; [reflexivity|]. conj.
  - exact (put_expires_inv dirty s0 k (Some t) e w1 Hw1 Hr1 Hdk).
  - intros x Hne. unfold entry_at. simpl. rewrite dict_get_set, decide_False by done. by apply Hx.
  - exists e. unfold entry_at in *. simpl. by rewrite dict_get_set, decide_True.
Qed.

Lemma keeps_set_expiry dirty s0 k t : k ∈ dirty -> keeps (inv dirty s0) (set_expiry k t).
Proof. intros Hdk w Hw. by destruct (set_expiry_spec dirty s0 k t w Hw Hdk) as (r & w' & -> & Hw' & _). Qed.

Lemma persist_spec dirty s0 k w :
  inv dirty s0 w -> k ∈ dirty ->
  exists r w', persist k w = (r, w') /\ inv dirty s0 w' /\
    (forall x, x <> k -> entry_at x w' = entry_at x w) /\
    match r with
    | Ok b => (forall e, entry_at k w' = Some e -> flags_ok s0 -> e_expires e = None) /\
        (b = true -> exists e, entry_at k w = Some e /\ entry_at k w' = Some (with_expires None e))
    | Raise x => hook_raises x
    end.
Proof.
  intros Hw Hdk. destruct (lookup_spec dirty s0 k w Hw) as (r & w1 & E1 & Hw1 & Hx & Hr).
  unfold persist, bindM. rewrite E1. destruct r as [[e|]|x]; [| |by returns w1].
  2: { returns w1; try done. intros e He Hfl. rewrite (Hr Hfl) in He. done. }
  destruct Hr as [Hr0 Hr1]. destruct (e_expires e) as [t|] eqn:He.
  2: { returns w1; try done. intros e' He' _. rewrite Hr1 in He'. by injection He' as <-. }
  unfold upd, modifyM. eexists _, _. split; [reflexivity|]. conj.
  - exact (put_expires_inv dirty s0 k None e w1 Hw1 Hr1 Hdk).
  - intros x Hne. unfold entry_at. simpl. rewrite dict_get_set, decide_False by done. by apply Hx.
  - intros e'. unfold entry_at. simpl. rewrite dict_get_set, decide_True by done. by intros [= <-].
  - intros _. exists e. unfold entry_at in *. simpl. by rewrite dict_get_set, decide_True.
Qed.

Lemma keeps_persist dirty s0 k : k ∈ dirty -> keeps (inv dirty s0) (persist k).
Proof. intros Hdk w Hw. by destruct (persist_spec dirty s0 k w Hw Hdk) as (r & w' & -> & Hw' & _). Qed.

(** *** [refresh] settles one dirty key *)
Lemma inv_clean k dirty s0 w :
  inv (k :: dirty) s0 w -> (forall e, entry_at k w = Some e -> accounted k e) -> inv dirty s0 w.
Proof.
  intros [[Hi Ho] Hf] Hk. split; [split; [|done]|done]. destruct Hi. split; try done.
  - intros x e Hx Hn. destruct (decide (x = k)) as [->|Hne]; [by apply Hk|].
    apply si_acc; [done|]. by rewrite not_elem_of_cons.
  - intros x Hx. apply si_settled. by right.
Qed.

Lemma refresh_spec dirty s0 k w :
  inv (k :: dirty) s0 w ->
  exists w', refresh k w = (Ok tt, w') /\ inv dirty s0 w' /\
    (forall x, x <> k -> entry_at x w' = entry_at x w) /\
    entry_at k w' = (e ← entry_at k w;
      if is_empty_value (e_value e) then None else Some (with_size (entry_size k (e_value e)) e)).
Proof.
  intros Hw. unfold refresh, gets, readM, bindM. cbn [id]. fold (entry_at k w).
  destruct (entry_at k w) as [e|] eqn:Hk.
  2: { exists w. conj; try done. eapply inv_clean; [done|]. by rewrite Hk. }
  simpl. destruct (is_empty_value (e_value e)) eqn:He.
  - destruct (remove_spec _ s0 k w e Hw Hk) as (w' & -> & Hw' & _ & _ & Hd & _).
    exists w'. conj; try done.
    + eapply inv_clean; [done|]. rewrite Hd, decide_True by done. done.
    + intros x Hx. by rewrite Hd, decide_False.
    + by rewrite Hd, decide_True.
  - unfold upd, modifyM. eexists. split; [reflexivity|]. conj.
    + apply (inv_clean k).
      2: { intros e'. unfold entry_at. simpl. rewrite dict_get_set, decide_True by done. by intros [= <-]. }
      destruct Hw as [[Hi Ho] Hf]. split; [split; [|done]|by etrans; [|by unfold same_flags]]. simpl.
      eapply (store_inv_replace _ (w_store w) _ k e (with_size (entry_size k (e_value e)) e)); try done.
      * by left.
      * apply (si_tracks _ _ Hi).
      * simpl. lia.
      * apply (si_vol_wf _ _ Hi).
      * intros x. simpl. case_decide; [|done]. subst. rewrite (si_vol _ _ Hi). unfold entry_at in Hk.
        rewrite Hk. naive_solver.
      * simpl. by eapply (si_values _ _ Hi).
    + intros x Hx. unfold entry_at. simpl. by rewrite dict_get_set, decide_False.
    + unfold entry_at. simpl. by rewrite dict_get_set, decide_True.
Qed.

Lemma refresh_all dirty s0 w :
  inv dirty s0 w -> exists w', forM_list refresh dirty w = (Ok tt, w') /\ inv [] s0 w'.
Proof.
  revert w. induction dirty as [|k dirty IH]; intros w Hw; [by exists w|].
  cbn [forM_list]. unfold bindM.
  destruct (refresh_spec dirty s0 k w Hw) as (w1 & -> & Hw1 & _). by apply IH.
Qed.

(** *** Snapshots and [clear] *)
Lemma take_keys_inv dirty s l :
  store_inv dirty s ->
  let s' := fold_left (fun s k => take_key k s) l s in
  store_inv dirty s' /\ same_flags s s' /\ st_epoch s' = st_epoch s /\
  (forall k, k ∈ l \/ settled k s -> settled k s') /\
  match st_job s with
  | None => s' = s
  | Some job => exists records, st_job s' =
      Some (mkJob (j_keys job) (j_pos job) (j_epoch job) (j_started job) records (j_on_done job))
  end.
Proof.
  revert s. induction l as [|k l IH]; intros s Hi; cbn [fold_left].
  { conj; try done.
    - intros k [Hk|Hk]; [by apply not_elem_of_nil in Hk|done].
    - destruct (st_job s) as [job|]; [|done]. exists (j_records job). by destruct job. }
  destruct (take_key_inv dirty s k Hi) as (Ha & Hb & Hc & Hd). destruct (IH _ Ha) as (He & Hf & Hg & Hh & Hjob).
  conj; [done|by etrans|by rewrite Hg| |].
  - intros x Hx. apply Hh. destruct (decide (x = k)) as [->|Hne]; [by right|].
    destruct Hx as [[]%elem_of_cons|Hx]; [done|by left|right]. by apply take_key_settled.
  - unfold take_key in *. destruct (st_job s) as [job|] eqn:Ej.
    + destruct (dict_get k (st_data s)); [|by rewrite Ej in Hjob]. destruct (negb _); [|by rewrite Ej in Hjob]. done.
    + rewrite Ej in Hjob. done.
Qed.

(** When the last key has been passed, the records are the keyspace as it was. *)
Lemma job_complete s job :
  job_inv (J := J) s job -> (length (j_keys job) <= j_pos job)%nat ->
  j_records job ≡ₚ snapshot_at (g_time J) (g_data J).
Proof.
  intros Hj Hpos.
  assert (Hno : forall k, ~ pending k job s).
  { intros k (e & He & Hc). destruct (ji_pending _ _ Hj k e He Hc) as [Hin _].
    rewrite drop_ge in Hin by done. by apply not_elem_of_nil in Hin. }
  assert (Hkeys : sr_key <$> snapshot_at (g_time J) (g_data J) `sublist_of` dict_keys (g_data J)).
  { unfold snapshot_at, dict_keys. rewrite <- list_fmap_compose. apply fmap_sublist, sublist_filter. }
  apply NoDup_Permutation.
  - by eapply NoDup_fmap_1, (ji_nodup _ _ Hj).
  - eapply (NoDup_fmap_1 sr_key), sublist_NoDup; [apply (ji_data _ _ Hj)|exact Hkeys].
  - intros r. unfold snapshot_at. rewrite list_elem_of_fmap. split.
    + intros Hr. destruct (ji_records _ _ Hj r Hr) as (e0 & He & Hrec & Hl). exists (sr_key r, e0).
      split; [simpl; by rewrite Hrec|]. apply list_elem_of_filter. split; [done|]. by apply dict_get_Some_elem.
    + intros ([k e0] & -> & Hin). apply list_elem_of_filter in Hin as [Hl Hin]. simpl in *.
      apply dict_get_elem in Hin; [|apply (ji_data _ _ Hj)].
      destruct (ji_all _ _ Hj k e0 Hin Hl) as [Hk|Hk]; [|by apply Hno in Hk].
      apply list_elem_of_fmap in Hk as (r & Hkr & Hr).
      destruct (ji_records _ _ Hj r Hr) as (e1 & He1 & Hrec & _). rewrite <- Hkr in *.
      rewrite Hin in He1. injection He1 as <-. by rewrite Hrec.
Qed.

(** The slice is copied, so what is still pending lies behind it. *)
Lemma advance_job dirty s job n
    (stop := ((j_pos job + n) `min` length (j_keys job))%nat)
    (s1 := fold_left (fun s k => take_key k s) (slice (j_pos job) stop (j_keys job)) s) :
  store_inv dirty s -> st_job s = Some job ->
  exists records, st_job s1 = Some (mkJob (j_keys job) (j_pos job) (j_epoch job) (j_started job) records (j_on_done job)) /\
    job_inv (J := J) s1 (mkJob (j_keys job) stop (j_epoch job) (j_started job) records (j_on_done job)).
Proof.
  intros Hi Hjob. destruct (take_keys_inv dirty s (slice (j_pos job) stop (j_keys job)) Hi)
    as (Hi1 & _ & _ & Hset & Hj1). fold s1 in Hi1, Hset, Hj1. rewrite Hjob in Hj1.
  destruct Hj1 as (records & Hj1). exists records. split; [done|].
  pose proof (proj2 (si_job _ _ Hi1)) as Hji. rewrite Hj1 in Hji.
  assert (Hpend : forall k e, dict_get k (st_data s1) = Some e -> e_copied e <> j_epoch job ->
    k ∈ drop (j_pos job) (j_keys job) -> k ∈ drop stop (j_keys job)).
  { intros k e He Hc Hin. rewrite <- (take_drop (stop - j_pos job) (drop (j_pos job) (j_keys job))), drop_drop in Hin.
    apply elem_of_app in Hin as [Hin|Hin].
    - exfalso. apply Hc. specialize (Hset k (or_introl Hin)). unfold settled in Hset. rewrite Hj1 in Hset.
      by apply Hset.
    - destruct (decide (j_pos job <= stop)%nat) as [Hle|Hgt].
      + by replace (j_pos job + (stop - j_pos job))%nat with stop in Hin by lia.
      + rewrite drop_ge in Hin; [by apply not_elem_of_nil in Hin|]. unfold stop in *. lia. }
  destruct Hji. split; try done. intros k e He Hc. simpl in *.
  destruct (ji_pending k e He Hc) as (Ha & Hb & Hd). conj; try done. by eapply Hpend.
Qed.

(** [on_done] has received the keyspace as it was when the snapshot began. *)
Definition handed_over (job : SnapshotJob D) (records : list SnapshotRecord) (r : result exn bool) (env env' : E) : Prop :=
  records ≡ₚ snapshot_at (g_time J) (g_data J) /\
  match j_on_done job with Some d => hook_done d records env | None => (Ok tt, env) end =
    (match r with Ok _ => Ok tt | Raise x => Raise x end, env').

(** A step either advances, or finishes: then no snapshot runs any more. *)
Lemma job_step_spec dirty s0 n w job :
  inv dirty s0 w -> st_job (w_store w) = Some job ->
  exists r w', job_step n w = (r, w') /\ inv dirty s0 w' /\
    match r with
    | Ok false => w_env w' = w_env w /\ exists job', st_job (w_store w') = Some job' /\
        j_on_done job' = j_on_done job /\ j_keys job' = j_keys job /\
        j_pos job' = ((j_pos job + n) `min` length (j_keys job))%nat /\ (j_pos job' < length (j_keys job))%nat
    | _ => st_job (w_store w') = None /\ exists records, handed_over job records r (w_env w) (w_env w')
    end.
Proof.
  intros [[Hi Ho] Hf] Hjob. unfold job_step, bindM, gets, readM, upd, modifyM. cbn [id w_store w_env w_orc].
  rewrite Hjob. cbn [w_store w_env w_orc].
  destruct (advance_job dirty (w_store w) job n Hi Hjob) as (records & Hj1 & Hji).
  destruct (take_keys_inv dirty (w_store w)
    (slice (j_pos job) ((j_pos job + n) `min` length (j_keys job)) (j_keys job)) Hi) as (Hi1 & Hf1 & _ & _ & _).
  set (s1 := fold_left _ _ _) in *. clearbody s1. rewrite Hj1. cbn [j_keys j_pos j_epoch j_started j_records j_on_done].
  set (stop := (_ `min` _)%nat) in *. set (job2 := mkJob _ stop _ _ _ _) in *.
  assert (Hinv : forall oj, oj = None \/ oj = Some job2 ->
    forall env, inv dirty s0 (mkWorld (set_job (st_epoch s1) oj s1) env (w_orc w))).
  { intros oj Hoj env. split; [split; [|done]|by do 2 (etrans; [done|])]. destruct Hi1. split; try done.
    - split; [apply si_job|]. simpl. destruct Hoj as [->| ->]; [done|]. destruct Hji. by split.
    - intros k Hk. specialize (si_settled k Hk). unfold settled in *. simpl. rewrite Hj1 in si_settled.
      by destruct Hoj as [->| ->]. }
  destruct (job_done job2) eqn:Hdone.
  - unfold job_done in Hdone. apply Nat.leb_le in Hdone. pose proof (job_complete s1 job2 Hji Hdone) as Hperm.
    unfold handed_over. cbn [j_on_done j_records job2]. destruct (j_on_done job) as [d|].
    + unfold env_do. cbn [w_env w_store w_orc]. destruct (hook_done d records (w_env w)) as [[[]|x] env] eqn:Ed;
        (eexists _, _; split; [reflexivity|]; split; [by apply Hinv; left|]); (split; [done|]);
        by exists records.
    + eexists _, _. split; [reflexivity|]. split; [by apply Hinv; left|]. split; [done|]. by exists records.
  - eexists _, _. split; [reflexivity|]. split; [by apply Hinv; right|]. split; [done|].
    exists job2. unfold job_done in Hdone. apply Nat.leb_gt in Hdone. by conj.
Qed.

Lemma keeps_job_step dirty s0 n : keeps (inv dirty s0) (job_step n).
Proof.
  intros w Hw. destruct (st_job (w_store w)) as [job|] eqn:Hj.
  - by destruct (job_step_spec dirty s0 n w job Hw Hj) as (b & w' & -> & Hw' & _).
  - unfold job_step, bindM, gets, readM. cbn [id]. by rewrite Hj.
Qed.

Lemma keeps_abandon dirty s0 : keeps (inv dirty s0) (abandon_snapshot (E := E)).
Proof.
  intros w Hw. unfold abandon_snapshot, bindM, gets, readM, upd, modifyM. cbn [id].
  destruct (st_job (w_store w)) as [job|]; [|done]. destruct Hw as [[Hi Ho] Hf].
  split; [split; [|done]|by etrans; [|by unfold same_flags]]. destruct Hi. split; try done.
  split; [apply si_job|done].
Qed.

Lemma job_finish_spec dirty s0 w :
  inv dirty s0 w ->
  exists r w', (match st_job (w_store w) with
      | Some job => bindM (job_step (job_remaining job)) (fun _ => ret tt) | None => ret tt end) w = (r, w') /\
    inv dirty s0 w' /\ st_job (w_store w') = None /\
    match st_job (w_store w) with
    | None => r = Ok tt /\ w_env w' = w_env w
    | Some job => exists records,
        handed_over job records (match r with Ok _ => Ok true | Raise x => Raise x end) (w_env w) (w_env w')
    end.
Proof.
  intros Hw. destruct (st_job (w_store w)) as [job|] eqn:Hjob; [|by exists (Ok tt), w]. unfold bindM.
  destruct (job_step_spec dirty s0 (job_remaining job) w job Hw Hjob) as (r & w1 & E1 & Hw1 & Hb).
  rewrite E1. destruct r as [[]|x]; [| |by destruct Hb; returns w1].
  - destruct Hb. by returns w1.
  - exfalso. clear Hb. revert E1. destruct Hw as [[Hi _] _].
    unfold job_step, bindM, gets, readM, upd, modifyM. cbn [id w_store]. rewrite Hjob. cbn [w_store].
    destruct (advance_job dirty (w_store w) job (job_remaining job) Hi Hjob) as (records & -> & _).
    cbn [j_keys j_pos j_epoch j_started j_records j_on_done]. unfold job_done, job_remaining.
    cbn [j_keys j_pos]. rewrite (proj2 (Nat.leb_le _ _)) by lia.
    destruct (j_on_done job) as [d|]; [|done]. unfold env_do. cbn [w_env]. by destruct (hook_done d records _) as [[]].
Qed.

(** [clear] finishes the running snapshot first; if its callback raises, the
    keyspace is not cleared. *)
Lemma clear_spec dirty s0 w :
  inv dirty s0 w ->
  exists r w', clear w = (r, w') /\ st_job (w_store w') = None /\
    match r with
    | Ok _ => inv [] s0 w' /\ st_data (w_store w') = []
    | Raise x => inv dirty s0 w'
    end /\
    match st_job (w_store w) with
    | None => r = Ok tt /\ w_env w' = w_env w
    | Some job => exists records,
        handed_over job records (match r with Ok _ => Ok true | Raise x => Raise x end) (w_env w) (w_env w')
    end.
Proof.
  intros Hw. unfold clear, bindM, gets, readM. cbn [id].
  destruct (job_finish_spec dirty s0 w Hw) as (r & w1 & E1 & Hw1 & Hjn & Hdone).
  unfold bindM in E1. rewrite E1. destruct r as [[]|x]; [|by returns w1]. unfold upd, modifyM.
  eexists _, _. split; [reflexivity|]. destruct Hw1 as [[Hi Ho] Hf].
  destruct (pol_clear_tracks _ _ (si_tracks _ _ Hi)) as [Ht He]. conj; try done.
  split; [split; [|done]|]; simpl.
  - split; simpl; try done.
    + constructor.
    + apply ks_empty_wf.
    + intros k. split; [by intros ?%not_elem_of_nil|naive_solver].
    + split; [done|]. simpl. by rewrite Hjn.
    + intros k Hk. by apply not_elem_of_nil in Hk.
  - etrans; [done|]. by unfold same_flags.
Qed.

Lemma keeps_clear dirty s0 : keeps (inv dirty s0) (clear (E := E)).
Proof.
  intros w Hw. destruct (clear_spec dirty s0 w Hw) as ([[]|x] & w' & -> & Hjn & Hr & _); [|done].
  destruct Hr as [[[Hi Ho] Hf] Hd].
  split; [split; [|done]|done]. destruct Hi. split; try done; simpl in *.
  - by rewrite Hd.
  - intros k _. unfold settled. by rewrite Hjn.
Qed.

(** *** Eviction *)
Lemma keeps_victim dirty s0 protect : keeps (inv dirty s0) (ask_victim (D := D) (E := E) protect).
Proof.
  intros w Hw. unfold ask_victim, gets, readM, bindM. cbn [id]. unfold ask.
  destruct Hw as [[Hi Ho] Hf].
  destruct (victim_tracks _ _ protect (w_orc w) (si_tracks _ _ Hi) Ho) as [Hs _].
  destruct (victim protect _ _) as [v o]. eapply inv_other; done.
Qed.

Lemma dict_length_take k s : length (st_data (take_key k s)) = length (st_data s).
Proof.
  unfold take_key. destruct (st_job s) as [job|]; [|done].
  destruct (dict_get k (st_data s)) as [e|] eqn:Hk; [|done].
  destruct (negb (e_copied e =? j_epoch job)); [|done]. simpl. rewrite dict_length_set. rewrite decide_True; [done|]. apply dict_get_is_Some. eauto.
Qed.

(** The loop ends below the limits, or with nothing left to evict. *)
Lemma evict_loop_spec dirty s0 protect fuel w :
  inv dirty s0 w -> (length (st_data (w_store w)) < fuel)%nat ->
  exists l w', evict_loop fuel protect w = (Ok l, w') /\ inv dirty s0 w' /\
    (forall k, k ∈ protect -> entry_at k w' = entry_at k w) /\
    (forall k, entry_at k w' = if decide (k ∈ l) then None else entry_at k w) /\
    w_env w' = w_env w /\
    (over_limit 0 (w_store w') = false \/ evicts (st_eviction (w_store w')) = false \/
     forall k, is_Some (entry_at k w') -> k ∈ protect).
Proof.
  revert w. induction fuel as [|fuel IH]; intros w Hw Hf; [lia|].
  cbn [evict_loop]. unfold gets, readM, bindM. cbn [id].
  destruct (over_limit 0 (w_store w)) eqn:Ho; cbn [negb].
  2: { returns w; auto. }
  pose proof (keeps_victim dirty s0 protect w Hw) as Hw1.
  unfold ask_victim, gets, readM, bindM in *. cbn [id] in *. unfold ask in *.
  destruct (victim_tracks _ _ protect (w_orc w) (si_tracks _ _ (proj1 (proj1 Hw))) (proj2 (proj1 Hw))) as [_ Hv].
  destruct (victim protect (st_eviction (w_store w)) (w_orc w)) as [v o]. simpl in Hw1, Hv.
  set (w1 := mkWorld (w_store w) (w_env w) o) in *.
  destruct v as [v|].
  2: { returns w1; try done. right. destruct (evicts (st_eviction (w_store w))) eqn:Hev; [right|by left].
       intros k Hk. apply Hv; [done|]. by apply key_set_get. }
  destruct Hv as [Hv Hnp]. apply key_set_get in Hv as [e He].
  destruct (remove_spec dirty s0 v w1 e Hw1 He) as (w2 & -> & Hw2 & Henv & _ & Hd & Hdata & _).
  unfold upd, modifyM. set (w3 := mkWorld _ _ _).
  assert (Hw3 : inv dirty s0 w3) by (by eapply inv_other).
  destruct (IH w3 Hw3) as (l & w4 & -> & Hw4 & Hp & Hr & He4 & Hend).
  { unfold w3. change (w_store w1) with (w_store w) in Hdata. simpl. rewrite Hdata.
    pose proof (dict_length_pop v (st_data (take_key v (w_store w)))) as Hl.
    rewrite dict_length_take in Hl. enough (v ∈ (st_data (take_key v (w_store w))).*1) by (specialize (Hl ltac:(done)); lia).
    apply dict_get_is_Some. destruct (take_key_some v (w_store w) e He) as (e' & -> & _). eauto. }
  returns w4; try done.
  - intros k Hk. rewrite Hp by done. change (entry_at k w3) with (entry_at k w2). rewrite Hd, decide_False; [done|].
    intros ->. done.
  - intros k. rewrite Hr. change (entry_at k w3) with (entry_at k w2). rewrite Hd.
    destruct (decide (k ∈ l)), (decide (k ∈ v :: l)) as [Hin|Hin], (decide (k = v)); try done;
      rewrite elem_of_cons in Hin; naive_solver.
  - by rewrite He4.
Qed.

Lemma evict_if_needed_spec dirty s0 protect w :
  inv dirty s0 w ->
  exists l w', evict_if_needed protect w = (Ok l, w') /\ inv dirty s0 w' /\
    (forall k, k ∈ protect -> entry_at k w' = entry_at k w) /\
    (forall k, entry_at k w' = if decide (k ∈ l) then None else entry_at k w) /\
    w_env w' = w_env w /\
    (eviction_enabled s0 = true -> evicts (st_eviction s0) = true ->
     over_limit 0 (w_store w') = false \/ forall k, is_Some (entry_at k w') -> k ∈ protect).
Proof.
  intros Hw. unfold evict_if_needed, gets, readM, bindM. cbn [id].
  pose proof (proj2 Hw) as (F1 & _ & _ & _ & _ & F2).
  destruct (negb (eviction_enabled (w_store w)) || _) eqn:Hoff.
  { returns w; try done. intros Ha Hb. rewrite F1, F2, Ha, Hb in Hoff. done. }
  destruct (evict_loop_spec dirty s0 protect (S (length (st_data (w_store w)))) w Hw ltac:(lia))
    as (l & w' & E1 & Hw' & Hp & Hr & He & Hend).
  exists l, w'. conj; try done. intros _ Hb. pose proof (proj2 Hw') as (_ & _ & _ & _ & _ & F3).
  rewrite F3, Hb in Hend. naive_solver.
Qed.

Lemma keeps_evict dirty s0 protect : keeps (inv dirty s0) (evict_if_needed protect).
Proof. intros w Hw. by destruct (evict_if_needed_spec dirty s0 protect w Hw) as (r & w' & -> & Hw' & _). Qed.

(** *** Active expiry *)
Lemma keeps_data_expired dirty s0 t k : keeps (inv dirty s0) (data_expired (E := E) t k).
Proof.
  apply keeps_bind; [apply keeps_gets|]. intros s. destruct (dict_get k (st_data s)); [apply keeps_ret|apply keeps_raise].
Qed.

Lemma keeps_expire_sample dirty s0 t l : keeps (inv dirty s0) (expire_sample t l).
Proof.
  induction l as [|k l IH]; [apply keeps_ret|]. cbn [expire_sample].
  apply keeps_bind; [apply keeps_data_expired|intros b].
  apply keeps_bind; [destruct b; [apply keeps_expire|apply keeps_ret]|intros _].
  apply keeps_bind; [apply IH|intros; apply keeps_ret].
Qed.

Definition dead (t : float) (r : option Entry) : bool :=
  match r with Some e => is_expired t e | None => false end.

(** A cycle over distinct keys of [_volatile] never meets a missing key. *)
Lemma expire_sample_ok dirty s0 t l w :
  inv dirty s0 w -> NoDup l -> (forall k, k ∈ l -> is_Some (entry_at k w)) ->
  exists r w', expire_sample t l w = (r, w') /\ inv dirty s0 w' /\
    match r with
    | Ok n => 0 <= n <= Z.of_nat (length l) /\
        forall k, entry_at k w' = if decide (k ∈ l /\ dead t (entry_at k w) = true)
                                  then None else entry_at k w
    | Raise x => hook_raises x
    end.
Proof.
  revert w. induction l as [|k l IH]; intros w Hw Hnd Hin.
  { exists (Ok 0), w. conj; done. }
  apply NoDup_cons in Hnd as [Hk Hnd]. destruct (Hin k) as [e He]; [left|].
  cbn [expire_sample]. unfold data_expired, gets, readM, bindM. cbn [id]. fold (entry_at k w). rewrite He.
  assert (Hstep : exists r w1, (if is_expired t e then expire k else ret tt) w = (r, w1) /\ inv dirty s0 w1 /\
    (forall x, r = Raise x -> hook_raises x) /\
    forall x, entry_at x w1 = if decide (x = k /\ is_expired t e = true) then None else entry_at x w).
  { destruct (is_expired t e).
    - destruct (expire_spec dirty s0 k w e Hw He) as (r & w1 & E1 & Hw1 & _ & Hd & Hr & _). exists r, w1. conj; try done.
      intros x. rewrite Hd. repeat case_decide; tauto.
    - exists (Ok tt), w. conj; try done. intros x. rewrite decide_False by naive_solver. done. }
  destruct Hstep as (r & w1 & E1 & Hw1 & Hr & Hd1). unfold bindM, ret in *. rewrite E1.
  destruct r as [[]|x]; [|returns w1; try done; by apply Hr].
  destruct (IH w1 Hw1 Hnd) as (r & w2 & -> & Hw2 & Hn).
  { intros x Hx. rewrite Hd1, decide_False; [apply Hin; by right|]. intros [-> _]. done. }
  destruct r as [n|x]; [|by returns w2]. destruct Hn as [Hn Hd2].
  eexists _, w2. split; [reflexivity|]. conj; [done|destruct (is_expired t e); lia|destruct (is_expired t e); simpl; lia|].
  intros x. rewrite Hd2, Hd1. destruct (decide (x = k)) as [->|Hne].
  - rewrite (decide_False (P := k ∈ l /\ _)) by tauto. rewrite He. simpl.
    destruct (is_expired t e); repeat case_decide; rewrite ?elem_of_cons in *; tauto.
  - rewrite (decide_False (P := x = k /\ _)) by tauto.
    repeat case_decide; rewrite ?elem_of_cons in *; tauto.
Qed.

(** What a method reads of the store satisfies the invariant. *)
Lemma keeps_with {A} dirty s0 (k : Store P D -> SM A) :
  (forall s, store_inv dirty s -> same_flags s0 s -> keeps (inv dirty s0) (k s)) ->
  keeps (inv dirty s0) (bindM (gets id) k).
Proof. intros Hk w Hw. unfold gets, readM, bindM. cbn [id]. apply Hk; [apply Hw|apply Hw|done]. Qed.

Lemma keeps_expire_rounds dirty s0 n k t : keeps (inv dirty s0) (expire_rounds n k t).
Proof.
  induction n as [|n IH]; [apply keeps_ret|]. cbn [expire_rounds]. apply keeps_with. intros s Hs _.
  apply keeps_bind.
  { apply keeps_ask. intros o Ho. by apply ks_sample_spec; [apply (si_vol_wf _ _ Hs)|]. }
  intros [|x l]; [apply keeps_ret|]. apply keeps_bind; [apply keeps_expire_sample|intros m].
  destruct (_ <=? _); [apply keeps_ret|]. apply keeps_bind; [apply IH|intros; apply keeps_ret].
Qed.

Lemma keeps_expire_cycle dirty s0 n : keeps (inv dirty s0) (expire_cycle n).
Proof.
  apply keeps_with. intros s _ _. destruct (negb _); [apply keeps_ret|].
  apply keeps_bind; [apply keeps_now|intros t; apply keeps_expire_rounds].
Qed.

Lemma keeps_purge dirty s0 : keeps (inv dirty s0) purge_expired.
Proof.
  apply keeps_bind; [apply keeps_now|intros t]. apply keeps_with. intros s _ _.
  apply keeps_bind; [apply keeps_filterM; intros; apply keeps_data_expired|intros stale].
  apply keeps_bind; [apply keeps_forM; intros; apply keeps_remove|intros _].
  apply keeps_bind; [apply keeps_bump_expired|intros; apply keeps_ret].
Qed.

Lemma keeps_iter_keys dirty s0 : keeps (inv dirty s0) iter_keys.
Proof.
  apply keeps_with. intros s _ _. apply keeps_filterM. intros k _.
  apply keeps_bind; [apply keeps_lookup|intros r; apply keeps_ret].
Qed.

Lemma keeps_snapshot dirty s0 : keeps (inv dirty s0) snapshot.
Proof. apply keeps_bind; [apply keeps_now|intros; apply keeps_gets]. Qed.

Lemma keeps_record dirty s0 k : keeps (inv dirty s0) (record k).
Proof. apply keeps_bind; [apply keeps_lookup|intros; apply keeps_ret]. Qed.

Lemma keeps_set dirty s0 k v keep :
  flags_ok s0 -> value_wf v -> k ∈ dirty ->
  keeps (inv dirty s0) (set k v keep).
Proof. intros Hf Hv Hn w Hw. by destruct (set_spec dirty s0 k v keep w Hw Hf Hv Hn) as (r & w' & -> & Hw' & _). Qed.

(** *** Loading a record *)
Lemma hash_of_wf items : hv_wf (hash_of items).
Proof.
  unfold hash_of. generalize hv_new, hv_new_wf. induction items as [|p items IH]; intros h Hh; [done|].
  cbn [fold_left]. apply IH. by apply hv_set_wf.
Qed.

Lemma set_of_wf items : sv_wf (set_of items).
Proof.
  unfold set_of. generalize sv_new, sv_new_wf. induction items as [|m items IH]; intros s Hs; [done|].
  cbn [fold_left]. apply IH. by apply sv_add_wf.
Qed.

Lemma zset_of_wf items o :
  Forall (fun p => is_nan p.2 = false) items -> oracles_ok o ->
  zs_wf (zset_of items o).1 /\ same_source o (zset_of items o).2.
Proof.
  unfold zset_of. intros Hn Ho.
  enough (Hgen : forall zo : SortedSet * Oracles, zs_wf zo.1 -> same_source o zo.2 ->
    let r := fold_left (fun zo p => let '((_, z), o) := zs_add p.1 p.2 zo.1 zo.2 in (z, o)) items zo in
    zs_wf r.1 /\ same_source o r.2) by (apply Hgen; [apply zs_new_wf|done]).
  induction Hn as [|p items Hp Hn IH]; intros [z o1] Hz Hs; [done|]. cbn [fold_left fst snd] in *.
  pose proof (zs_add_wf p.1 p.2 z o1 Hz Hp) as Hz'.
  pose proof (zs_add_source p.1 p.2 z o1) as Hs'.
  destruct (zs_add p.1 p.2 z o1) as [[b z'] o2]. apply IH; [done|]. simpl. by etrans.
Qed.

(** A record as [_record] and the snapshot reader produce them. *)
Definition payload_ok (p : Payload) : Prop :=
  match p with
  | RString _ => True
  | RList items => items <> []
  | RHash items => items <> [] /\ dict_wf items
  | RSet items => items <> [] /\ NoDup items
  | RZset items => items <> [] /\ StronglySorted pair_lt items /\ dict_wf items /\
      Forall (fun p => is_nan p.2 = false) items
  end.

Lemma app_fresh {A B} (l l' : list (A * B)) x :
  NoDup (l ++ x :: l').*1 -> x.1 ∉ l.*1.
Proof.
  rewrite fmap_app, fmap_cons. intros Hnd. apply NoDup_app in Hnd as (_ & Hd & _).
  intros Hin. apply (Hd _ Hin). left.
Qed.

Lemma hash_of_fields items : dict_wf items -> hv_fields (hash_of items) = items.
Proof.
  intros Hnd. unfold hash_of.
  enough (Hgen : forall h, dict_wf (hv_fields h ++ items) ->
    hv_fields (fold_left (fun h p => (hv_set p.1 p.2 h).2) items h) = hv_fields h ++ items) by (by apply Hgen).
  clear Hnd. induction items as [|p items IH]; intros h Hh; [by rewrite app_nil_r|]. cbn [fold_left].
  assert (Hf : hv_fields (hv_set p.1 p.2 h).2 = hv_fields h ++ [p]).
  { apply app_fresh in Hh. unfold hv_set. rewrite (proj2 (dict_get_None _ _) Hh). simpl.
    rewrite dict_set_new by done. by destruct p. }
  rewrite IH; rewrite Hf, <- app_assoc; done.
Qed.

Lemma set_of_items items : NoDup items -> sv_iter (set_of items) = items.
Proof.
  intros Hnd. unfold set_of.
  enough (Hgen : forall s : SetValue, sv_wf s -> NoDup (sv_iter s ++ items) ->
    sv_iter (fold_left (fun a m => (sv_add m a).2) items s) = sv_iter s ++ items)
    by (by apply Hgen; [apply sv_new_wf|]).
  clear Hnd. induction items as [|m items IH]; intros s Hs Hh; [by rewrite app_nil_r|]. cbn [fold_left].
  assert (Hf : sv_iter (sv_add m s).2 = sv_iter s ++ [m]).
  { assert (Hm : m ∉ sv_iter s).
    { apply NoDup_app in Hh as (_ & Hd & _). intros Hin. apply (Hd _ Hin). left. }
    rewrite <- sv_contains_spec in Hm by done. apply not_true_iff_false in Hm.
    unfold sv_add, sv_contains, sv_iter in *. rewrite Hm. simpl. unfold ks_add, ks_contains in *. by rewrite Hm. }
  rewrite IH; [by rewrite Hf, <- app_assoc|by apply sv_add_wf|by rewrite Hf, <- app_assoc].
Qed.

Lemma zset_of_scores items o :
  dict_wf items -> zs_scores (zset_of items o).1 = items.
Proof.
  intros Hnd. unfold zset_of.
  enough (Hgen : forall zo : SortedSet * Oracles, dict_wf (zs_scores zo.1 ++ items) ->
    zs_scores (fold_left (fun zo p => let '((_, z), o) := zs_add p.1 p.2 zo.1 zo.2 in (z, o)) items zo).1
      = zs_scores zo.1 ++ items) by (by apply Hgen).
  clear Hnd. induction items as [|p items IH]; intros [z o1] Hh; [by rewrite app_nil_r|].
  cbn [fold_left fst snd] in *. apply app_fresh in Hh as Hp. unfold zs_add.
  rewrite (proj2 (dict_get_None _ _) Hp). destruct (sl_insert _ _ _ _) as [l o2]. rewrite IH; simpl.
  - rewrite dict_set_new, <- app_assoc by done. by destruct p.
  - rewrite dict_set_new, <- app_assoc by done. by destruct p.
Qed.

Lemma zset_of_items items o :
  StronglySorted pair_lt items -> dict_wf items -> Forall (fun p => is_nan p.2 = false) items ->
  oracles_ok o -> zs_items (zset_of items o).1 = items.
Proof.
  intros Hs Hd Hn Ho. destruct (zset_of_wf items o Hn Ho) as [Hz _].
  apply sorted_pairs_unique; [by apply zs_items_sorted|done|].
  rewrite (zs_items_perm _ Hz). by rewrite zset_of_scores.
Qed.

(** What is loaded from a record is what was recorded. *)
Lemma value_of_payload p o :
  payload_ok p -> oracles_ok o ->
  payload_of (value_of p o).1 = p /\ value_wf (value_of p o).1 /\
  is_empty_value (value_of p o).1 = false /\ same_source o (value_of p o).2.
Proof.
  intros Hp Ho. destruct p as [s|items|items|items|items]; simpl in *.
  - done.
  - conj; [by rewrite lv_new_items|apply lv_new_wf| |done].
    unfold lv_len. rewrite lv_new_items. by destruct items.
  - destruct Hp as [Hne Hd]. conj; [by rewrite hash_of_fields|apply hash_of_wf| |done].
    unfold hv_len. rewrite hash_of_fields by done. by destruct items.
  - destruct Hp as [Hne Hd]. conj; [by rewrite set_of_items|apply set_of_wf| |done].
    unfold sv_len, ks_len. fold (sv_iter (set_of items)). rewrite set_of_items by done. by destruct items.
  - destruct Hp as (Hne & Hs & Hd & Hn). destruct (zset_of_wf items o Hn Ho) as [Hz Hsrc].
    pose proof (zset_of_items items o Hs Hd Hn Ho) as Hi. pose proof (zset_of_scores items o Hd) as Hsc.
    destruct (zset_of items o) as [z o']. simpl in *. conj; [by rewrite Hi|done| |done].
    unfold zs_len. rewrite Hsc. by destruct items.
Qed.

Lemma zs_items_not_nan z : zs_wf z -> Forall (fun p => is_nan p.2 = false) (zs_items z).
Proof.
  intros Hz. destruct (zs_wf_items z Hz) as (l & Hr & -> & _). apply Forall_forall. intros p Hp.
  apply list_elem_of_fmap in Hp as (x & -> & Hx). simpl. by eapply score_not_nan; [apply (rep_linked _ _ Hr)|].
Qed.

Lemma payload_of_ok v : value_wf v -> is_empty_value v = false -> payload_ok (payload_of v).
Proof.
  destruct v as [s|l|h|s|z]; simpl; intros Hv He; try done.
  - unfold lv_len in He. by destruct (lv_items l).
  - destruct Hv as [Hd _]. split; [|done]. unfold hv_len in He. by destruct (hv_fields h).
  - destruct Hv as [Hd _]. split; [|by apply ks_NoDup]. unfold sv_len, ks_len in He. unfold sv_iter.
    by destruct (ks_items (sv_members s)).
  - conj; [|by apply zs_items_sorted|by apply zs_items_nodup|by apply zs_items_not_nan].
    intros Hz. apply zs_items_nil in Hz; [|done]. unfold zs_len in He. by rewrite Hz in He.
Qed.

Lemma lookup_hit dirty s0 k w e :
  inv dirty s0 w -> entry_at k w = Some e -> expiry_enabled s0 = false \/ e_expires e = None ->
  exists w', lookup k w = (Ok (Some e), w') /\ inv dirty s0 w' /\ w_store w' = w_store w /\ w_env w' = w_env w.
Proof.
  intros Hw Hk Hlive. unfold lookup, gets, readM, bindM. cbn [id]. fold (entry_at k w). rewrite Hk.
  pose proof (proj2 Hw) as (_ & Fe & _). destruct (expiry_enabled (w_store w)); [|by exists w].
  destruct Hlive as [Hl|Hl]; [by rewrite Hl in Fe|].
  pose proof (keeps_now dirty s0 w Hw) as Hw1. unfold now, ask in *.
  destruct (clock_now (w_orc w)) as [t o]. unfold is_expired. rewrite Hl. by eexists.
Qed.

Lemma load_record_spec dirty s0 r w :
  inv dirty s0 w -> flags_ok s0 -> payload_ok (sr_payload r) -> sr_key r ∈ dirty ->
  exists w' e, load_record r w = (Ok tt, w') /\ inv dirty s0 w' /\
    (forall x, x <> sr_key r -> entry_at x w' = entry_at x w) /\
    entry_at (sr_key r) w' = Some e /\ record_of (sr_key r) e = r /\ accounted (sr_key r) e.
Proof.
  intros Hw Hfl Hp Hdk. unfold load_record, bindM, ask.
  destruct (value_of_payload (sr_payload r) (w_orc w) Hp (proj2 (proj1 Hw))) as (Hpay & Hwf & Hne & Hsrc).
  destruct (value_of (sr_payload r) (w_orc w)) as [v o]. simpl in Hpay, Hwf, Hne, Hsrc.
  set (w1 := mkWorld (w_store w) (w_env w) o).
  assert (Hw1 : inv dirty s0 w1) by (by eapply inv_other).
  destruct (set_spec dirty s0 (sr_key r) v false w1 Hw1 Hfl Hwf Hdk)
    as (r0 & w2 & -> & Hw2 & Hx & Hr0).
  destruct r0 as [[]|]; [|by destruct Hr0]. destruct Hr0 as (e & He & Hv & Hsz & Hexp).
  assert (Hno : e_expires e = None) by (by destruct Hexp as [|[? _]]).
  destruct r as [k p t]. simpl in *. destruct t as [t|].
  - destruct (lookup_hit dirty s0 k w2 e Hw2 He (or_intror Hno)) as (w3 & E3 & Hw3 & Hst & _).
    unfold set_expiry, bindM. rewrite E3. unfold upd, modifyM.
    assert (He3 : entry_at k w3 = Some e) by (unfold entry_at; by rewrite Hst).
    eexists _, (with_expires (Some t) e). split; [reflexivity|]. conj.
    + exact (put_expires_inv dirty s0 k (Some t) e w3 Hw3 He3 Hdk).
    + intros x Hne'. unfold entry_at. simpl. rewrite dict_get_set, decide_False, Hst by done. by apply Hx.
    + unfold entry_at. simpl. by rewrite dict_get_set, decide_True.
    + unfold record_of. simpl. by rewrite Hv, Hpay.
    + split; simpl; by rewrite ?Hsz, Hv.
  - exists w2, e. conj; try done; [unfold record_of; by rewrite Hv, Hpay, Hno|].
    split; by rewrite ?Hsz, Hv.
Qed.

Lemma inv_add k dirty s0 w : inv dirty s0 w -> settled k (w_store w) -> inv (k :: dirty) s0 w.
Proof.
  intros [[Hi Ho] Hf] Hk. split; [split; [|done]|done]. destruct Hi. split; try done.
  - intros x e Hx Hn. apply si_acc; [done|]. rewrite not_elem_of_cons in Hn. tauto.
  - intros x Hx. apply elem_of_cons in Hx as [->|Hx]; [done|by apply si_settled].
Qed.

(** Loading a record into a settled place. *)
Lemma load_record_clean s0 r w :
  inv [] s0 w -> flags_ok s0 -> payload_ok (sr_payload r) -> settled (sr_key r) (w_store w) ->
  exists w' e, load_record r w = (Ok tt, w') /\ inv [] s0 w' /\
    (forall x, x <> sr_key r -> entry_at x w' = entry_at x w) /\
    entry_at (sr_key r) w' = Some e /\ record_of (sr_key r) e = r.
Proof.
  intros Hw Hfl Hp Hset.
  destruct (load_record_spec [sr_key r] s0 r w (inv_add _ _ _ _ Hw Hset) Hfl Hp ltac:(left))
    as (w' & e & E1 & Hw' & Hx & He & Hrec & Hacc).
  exists w', e. conj; try done. eapply inv_clean; [exact Hw'|]. intros e'. rewrite He. by intros [= <-].
Qed.

(** ** Beginning a snapshot: everything is pending *)
Lemma begin_spec s0 d w :
  inv [] s0 w -> st_job (w_store w) = None ->
  exists t w', begin_snapshot d w = (Ok tt, w') /\
    StoreInv.inv (J := mkGhost (st_data (w_store w)) t) [] s0 w' /\
    st_data (w_store w') = st_data (w_store w) /\ st_epoch (w_store w') = st_epoch (w_store w) + 1 /\
    w_env w' = w_env w /\
    exists job, st_job (w_store w') = Some job /\ j_on_done job = d /\ j_pos job = 0%nat /\
      j_keys job = dict_keys (st_data (w_store w)).
Proof.
  intros [[Hi Ho] Hf] Hjob. unfold begin_snapshot, bindM, gets, readM, upd, modifyM, now, ask. cbn [id].
  rewrite Hjob. cbn [w_store w_env w_orc]. destruct (clock_now (w_orc w)) as [t o] eqn:Hc.
  exists t. eexists. split; [reflexivity|]. cbn [w_store w_env w_orc].
  assert (Hs : same_source (w_orc w) o) by (unfold clock_now in Hc; by simplify_eq).
  destruct (si_job _ _ Hi) as [Hle _]. conj; try done.
  2: { eexists. split; [reflexivity|]. done. }
  split; [split; [|by eapply same_source_ok]|by etrans; [|by unfold same_flags]].
  destruct Hi. split; try done; [|intros k Hk; by apply not_elem_of_nil in Hk]. split; simpl.
  - intros k e He. specialize (Hle k e He). lia.
  - split; simpl; try done.
    + constructor.
    + intros r Hr. by apply not_elem_of_nil in Hr.
    + intros k e He _. conj; [|apply not_elem_of_nil|by exists e].
      rewrite drop_0. unfold dict_keys. apply dict_get_is_Some. eauto.
    + intros k e He _. right. exists e. split; [done|]. specialize (Hle k e He). simpl. lia.
Qed.
End StoreOps.
