(* ===== verification/Snapshot.v ===== *)
(** * The snapshot format (engine/persistence/snapshot.py)

    The binary encoding of the keyspace, written through a buffer that keeps a
    running CRC, and of a single value (DUMP and RESTORE); their decoders; and
    that decoding gives back what was encoded. *)

From Stdlib Require Import SpecFloat String.
From S2P Require Import Prelude PyStr PyFloat Errors Codec Pack Oracles Store.
Local Close Scope string_scope.

(** ** Constants *)
Definition MAGIC : bytes := lit "KVSNAP".
Definition VERSION : Z := 1.
Definition EOF_MARK : Z := 0xFF.
Definition TYPE_CODES : list (pystr * Z) :=
  [(lit "string", 0); (lit "list", 1); (lit "hash", 2); (lit "set", 3); (lit "zset", 4)].
Definition TYPE_NAMES : list (Z * pystr) := (fun '(n, c) => (c, n)) <$> TYPE_CODES.
Definition HEADER_SIZE : nat := 24.
Definition FLUSH_AT : Z := 2 ^ 20.
Definition DUMP_VERSION : Z := 1.

(** The type name that goes with a payload in a record. *)
Definition payload_kind (p : Payload) : pystr :=
  match p with
  | RString _ => lit "string" | RList _ => lit "list" | RHash _ => lit "hash"
  | RSet _ => lit "set" | RZset _ => lit "zset"
  end.

(** ** The writer *)
Record Writer := mkWriter { wr_file : bytes; wr_buf : bytes; wr_crc : Z; wr_size : Z }.

Definition WM (A : Type) : Type := M exn Writer A.

Definition lift {S A} (r : result exn A) : M exn S A := fun s => (r, s).

Definition flush : WM unit :=
  modifyM (fun w => mkWriter (wr_file w ++ wr_buf w) [] (crc32 (wr_buf w) (wr_crc w))
                             (wr_size w + Z.of_nat (length (wr_buf w)))).

Definition write (data : bytes) : WM unit :=
  modifyM (fun w => mkWriter (wr_file w) (wr_buf w ++ data) (wr_crc w) (wr_size w));;
  let! w := getM in
  if FLUSH_AT <=? Z.of_nat (length (wr_buf w)) then flush else ret tt.

(** [UnicodeEncodeError] is a [ValueError]. *)
Definition encode_text (value : pystr) : result exn bytes :=
  match to_bytes value with
  | Some data => Ok data
  | None => Raise (err ValueError "surrogates not allowed")
  end.

Definition write_str (value : pystr) : WM unit :=
  let! data := lift (encode_text value) in
  let! size := lift (pack_unsigned 4 (Z.of_nat (length data))) in
  write size;; write data.

Definition write_payload (payload : Payload) : WM unit :=
  match payload with
  | RString s => write_str s
  | RList items | RSet items =>
      let! n := lift (pack_unsigned 4 (Z.of_nat (length items))) in
      write n;; forM_list write_str items
  | RHash items =>
      let! n := lift (pack_unsigned 4 (Z.of_nat (length items))) in
      write n;; forM_list (fun '(field, value) => write_str field;; write_str value) items
  | RZset items =>
      let! n := lift (pack_unsigned 4 (Z.of_nat (length items))) in
      write n;; forM_list (fun '(member, score) => write_str member;; write (pack_f64 score)) items
  end.

(** [round(x * 1000)]: an infinity or NaN raises. *)
Definition to_millis (x : float) : result exn Z :=
  match fround (fmul x (float_of_Z 1000)) with
  | Some ms => Ok ms
  | None => Raise (err OverflowError "cannot convert float infinity to integer")
  end.

Definition expires_ms (expires_at : option float) : result exn Z :=
  match expires_at with None => Ok (-1) | Some t => to_millis t end.

Definition type_code (kind : pystr) : result exn Z :=
  match dict_get kind TYPE_CODES with
  | Some c => Ok c
  | None => Raise (new_exn KeyError kind None)
  end.

Definition write_record (r : SnapshotRecord) : WM unit :=
  let! ms := lift (expires_ms (sr_expires r)) in
  let! c := lift (type_code (payload_kind (sr_payload r))) in
  let! b := lift (pack_unsigned 1 c) in
  let! q := lift (pack_i64 ms) in
  write (b ++ q);; write_str (sr_key r);; write_payload (sr_payload r).

(** [file.write(_U32.pack(out.crc))], straight to the file. *)
Definition write_crc : WM unit :=
  let! w := getM in
  let! crc := lift (pack_unsigned 4 (wr_crc w)) in
  putM (mkWriter (wr_file w ++ crc) (wr_buf w) (wr_crc w) (wr_size w)).

(** [_write]: the whole file, to [file]; returns the bytes of the file and the
    size reported. *)
Definition write_all (records : list SnapshotRecord) (created_at : float) : WM Z :=
  let! created := lift (to_millis created_at) in
  let! v := lift (pack_unsigned 2 VERSION) in
  let! c := lift (pack_i64 created) in
  let! n := lift (pack_unsigned 8 (Z.of_nat (length records))) in
  write (MAGIC ++ v ++ c ++ n);;
  forM_list write_record records;;
  write [EOF_MARK];;
  flush;;
  write_crc;;
  let! w := getM in
  ret (wr_size w + 4).

Definition new_writer (file : bytes) : Writer := mkWriter file [] 0 0.

Definition encode_snapshot (records : list SnapshotRecord) (created_at : float) : result exn bytes :=
  match write_all records created_at (new_writer []) with
  | (Ok _, w) => Ok (wr_file w)
  | (Raise x, _) => Raise x
  end.

Definition write_value (payload : Payload) : WM unit :=
  let! c := lift (type_code (payload_kind payload)) in
  write [DUMP_VERSION; c];;
  write_payload payload;;
  flush;;
  write_crc.

Definition dump_value (payload : Payload) : result exn bytes :=
  match write_value payload (new_writer []) with
  | (Ok _, w) => Ok (wr_file w)
  | (Raise x, _) => Raise x
  end.

(** ** The reader: its state is what is left of the data *)
Definition RM (A : Type) : Type := M exn bytes A.

Definition unpack (size : nat) : RM bytes :=
  fun data => if bool_decide (size <= length data)%nat
              then (Ok (take size data), drop size data)
              else (Raise (err StructError "unpack_from requires a larger buffer"), data).

Definition read_u32 : RM Z := let! b := unpack 4 in ret (le_value b).
Definition read_f64 : RM float := let! b := unpack 8 in ret (float_of_bits (le_value b)).

Definition read_str : RM pystr :=
  let! size := read_u32 in
  fun data => if size <=? Z.of_nat (length data)
              then (Ok (to_str (take (Z.to_nat size) data)), drop (Z.to_nat size) data)
              else (Raise (err IndexError "string runs past the end of the file"), data).

Definition read_byte : RM Z :=
  fun data => match data with
              | b :: rest => (Ok b, rest)
              | [] => (Raise (err IndexError "index out of bounds on dimension 1"), data)
              end.

(** [[f() for _ in range(count)]].  A read that returns consumes at least one
    byte, so the number of bytes left bounds the number of rounds. *)
Fixpoint repeat_fuel {A} (f : RM A) (fuel : nat) (count : Z) : RM (list A) :=
  if count <=? 0 then ret []
  else match fuel with
       | O => raise (err RuntimeError "")
       | S n => let! a := f in let! rest := repeat_fuel f n (count - 1) in ret (a :: rest)
       end.

Definition repeat_read {A} (f : RM A) (count : Z) : RM (list A) :=
  fun data => repeat_fuel f (S (length data)) count data.

Definition read_pair {B} (f : RM B) : RM (pystr * B) :=
  let! a := read_str in let! b := f in ret (a, b).

Definition read_payload (kind : pystr) : RM Payload :=
  if bool_decide (kind = lit "string") then let! s := read_str in ret (RString s)
  else
    let! count := read_u32 in
    if bool_decide (kind = lit "list") then let! l := repeat_read read_str count in ret (RList l)
    else if bool_decide (kind = lit "set") then let! l := repeat_read read_str count in ret (RSet l)
    else if bool_decide (kind = lit "hash")
    then let! l := repeat_read (read_pair read_str) count in ret (RHash l)
    else let! l := repeat_read (read_pair read_f64) count in ret (RZset l).

Definition type_of_code (c : Z) : result exn pystr :=
  match dict_get c TYPE_NAMES with
  | Some name => Ok name
  | None => Raise (new_exn KeyError (str_of_int c) None)
  end.

Definition read_record : RM SnapshotRecord :=
  let! b := unpack 9 in
  let code := le_value (take 1 b) in
  let ms := signed64 (le_value (drop 1 b)) in
  let! kind := lift (type_of_code code) in
  let! key := read_str in
  let! payload := read_payload kind in
  ret (mkRecord key payload (if ms <? 0 then None else Some (int_truediv ms 1000))).

(** The errors the decoders turn into their own. *)
Definition malformed (x : exn) : bool :=
  bool_decide (exn_cls x = KeyError) || bool_decide (exn_cls x = StructError)
  || bool_decide (exn_cls x = IndexError).

(** [repr] of an exception. *)
Definition exn_repr (x : exn) : pystr :=
  class_name (exn_cls x) ++ lit "('" ++ exn_msg x ++ lit "')".

(** The generator's loop: the records yielded, then how it ended. *)
Fixpoint yield_records (fuel : nat) (count : Z) (data : bytes) :
    list SnapshotRecord * result exn bytes :=
  if count <=? 0 then ([], Ok data)
  else match fuel with
       | O => ([], Raise (err RuntimeError ""))
       | S n =>
           match read_record data with
           | (Raise x, _) => ([], Raise x)
           | (Ok r, rest) =>
               let '(rs, e) := yield_records n (count - 1) rest in (r :: rs, e)
           end
       end.

Definition split_crc (raw : bytes) : bytes * Z :=
  let n := (length raw - 4)%nat in (take n raw, le_value (drop n raw)).

Definition corrupted (source : pystr) (what : pystr) : exn :=
  new_exn SnapshotCorruptedError (source ++ lit ": " ++ what) None.

(** [decode_snapshot]: the records it yields, and the error it ends with, if any. *)
Definition decode_snapshot (raw : bytes) (source : pystr) : list SnapshotRecord * option exn :=
  if bool_decide (length raw < HEADER_SIZE + 1 + 4)%nat
  then ([], Some (corrupted source (lit "file too short")))
  else
    let '(body, expected) := split_crc raw in
    if negb (crc32 body 0 =? expected)
    then ([], Some (corrupted source (lit "checksum mismatch")))
    else
      let magic := take 6 body in
      let version := le_value (slice 6 8 body) in
      let count := le_value (slice 16 24 body) in
      if negb (bool_decide (magic = MAGIC) && (version =? VERSION))
      then ([], Some (corrupted source (lit "not a v" ++ str_of_int VERSION ++ lit " snapshot")))
      else
        let '(rs, e) := yield_records (length body) count (drop HEADER_SIZE body) in
        match e with
        | Raise x =>
            (rs, Some (if malformed x then corrupted source (lit "malformed record: " ++ exn_repr x)
                       else x))
        | Ok rest =>
            match read_byte rest with
            | (Ok b, _) =>
                (rs, if b =? EOF_MARK then None else Some (corrupted source (lit "missing end marker")))
            | (Raise x, _) =>
                (rs, Some (corrupted source (lit "malformed record: " ++ exn_repr x)))
            end
        end.

Definition load_value (data : bytes) : result exn Payload :=
  if bool_decide (length data < 2 + 4)%nat then Raise (err ValueError "DUMP payload too short")
  else
    let '(body, expected) := split_crc data in
    if negb (crc32 body 0 =? expected) || negb (bool_decide (head body = Some DUMP_VERSION))
    then Raise (err ValueError "DUMP payload version or checksum not valid")
    else
      match (let! kind := lift (type_of_code (default 0 (body !! 1%nat))) in read_payload kind)
              (drop 2 body) with
      | (Ok p, _) => Ok p
      | (Raise x, _) =>
          Raise (if malformed x
                 then new_exn ValueError (lit "malformed DUMP payload: " ++ exn_repr x) None else x)
      end.
