(* ===== verification/SnapshotProofs.v ===== *)
(** * Snapshots decode to what was encoded

    The buffered writer is compared with a plain description of the format
    ([payload_bytes], [record_bytes]); the reader is shown to invert it. *)

From Stdlib Require Import SpecFloat String.
From S2P Require Import Prelude PyStr PyFloat Errors Codec Pack Oracles Store Snapshot.
Local Close Scope string_scope.

#[local] Opaque le_bytes.

(** ** The format *)
Definition text_bytes (s : pystr) : bytes :=
  let b := default [] (to_bytes s) in le_bytes 4 (Z.of_nat (length b)) ++ b.

Definition payload_bytes (p : Payload) : bytes :=
  match p with
  | RString s => text_bytes s
  | RList l | RSet l => le_bytes 4 (Z.of_nat (length l)) ++ (l ≫= text_bytes)
  | RHash l => le_bytes 4 (Z.of_nat (length l)) ++
               (l ≫= fun '(f, v) => text_bytes f ++ text_bytes v)
  | RZset l => le_bytes 4 (Z.of_nat (length l)) ++
               (l ≫= fun '(m, s) => text_bytes m ++ pack_f64 s)
  end.

Definition ok_or {A} (d : A) (r : result exn A) : A := match r with Ok a => a | Raise _ => d end.

Definition kind_code (p : Payload) : Z :=
  match p with RString _ => 0 | RList _ => 1 | RHash _ => 2 | RSet _ => 3 | RZset _ => 4 end.

Definition record_bytes (r : SnapshotRecord) : bytes :=
  kind_code (sr_payload r) :: le_bytes 8 (ok_or 0 (expires_ms (sr_expires r)) mod 2 ^ 64) ++
  text_bytes (sr_key r) ++ payload_bytes (sr_payload r).

(** ** What fits in it *)

(** Text that came from bytes, shorter than 4 GiB. *)
Definition text_fits (s : pystr) : Prop :=
  exists b, to_bytes s = Some b /\ Forall is_byte b /\ to_str b = s /\ Z.of_nat (length b) < 2 ^ 32.

Definition count_fits {A} (l : list A) : Prop := Z.of_nat (length l) < 2 ^ 32.

Definition payload_fits (p : Payload) : Prop :=
  match p with
  | RString s => text_fits s
  | RList l | RSet l => count_fits l /\ Forall text_fits l
  | RHash l => count_fits l /\ Forall (fun '(f, v) => text_fits f /\ text_fits v) l
  | RZset l => count_fits l /\ Forall (fun '(m, s) => text_fits m /\ float_ok s = true) l
  end.

(** A deadline that is a whole number of milliseconds, on which the two
    conversions agree. *)
Definition deadline_fits (e : option float) : Prop :=
  match e with
  | None => True
  | Some t => exists ms, to_millis t = Ok ms /\ 0 <= ms < 2 ^ 63 /\ int_truediv ms 1000 = t
  end.

Definition record_fits (r : SnapshotRecord) : Prop :=
  text_fits (sr_key r) /\ payload_fits (sr_payload r) /\ deadline_fits (sr_expires r).

(** ** The writer *)

(** [data] has been written since the writer was made over [file]. *)
Definition wrote (file data : bytes) (w : Writer) : Prop :=
  exists flushed, wr_file w = file ++ flushed /\ data = flushed ++ wr_buf w /\
    wr_crc w = crc32 flushed 0 /\ wr_size w = Z.of_nat (length flushed).

Definition emits (c : WM unit) (out : bytes) : Prop :=
  forall file data w, wrote file data w ->
    exists w', c w = (Ok tt, w') /\ wrote file (data ++ out) w'.

Lemma wrote_new file : wrote file [] (new_writer file).
Proof. exists []. simpl. rewrite app_nil_r. done. Qed.

Lemma flush_spec file data w :
  wrote file data w ->
  exists w', flush w = (Ok tt, w') /\ wrote file data w' /\ wr_buf w' = [] /\
    wr_file w' = file ++ data /\ wr_crc w' = crc32 data 0 /\ wr_size w' = Z.of_nat (length data).
Proof.
  intros (fl & Hf & Hd & Hc & Hs). eexists. split; [done|]. simpl.
  assert (E1 : wr_file w ++ wr_buf w = file ++ data) by (by rewrite Hf, Hd, app_assoc).
  assert (E2 : crc32 (wr_buf w) (wr_crc w) = crc32 data 0) by (by rewrite Hc, Hd, crc32_app).
  assert (E3 : wr_size w + Z.of_nat (length (wr_buf w)) = Z.of_nat (length data))
    by (rewrite Hs, Hd, length_app; lia).
  split_and!; try done. exists data. simpl. rewrite app_nil_r. done.
Qed.

Lemma emits_write data : emits (write data) data.
Proof.
  intros file old w (fl & Hf & Hd & Hc & Hs). unfold write, bindM, modifyM, getM.
  set (w1 := mkWriter _ _ _ _).
  assert (Hw : wrote file (old ++ data) w1).
  { exists fl. simpl. rewrite Hd, app_assoc. done. }
  destruct (FLUSH_AT <=? _); [|by exists w1].
  destruct (flush_spec _ _ _ Hw) as (w2 & E & ? & _). by exists w2.
Qed.

Lemma emits_seq c d a b : emits c a -> emits d b -> emits (c;; d) (a ++ b).
Proof.
  intros Hc Hd file data w Hw. destruct (Hc _ _ _ Hw) as (w1 & E1 & H1).
  destruct (Hd _ _ _ H1) as (w2 & E2 & H2). exists w2.
  unfold bindM. rewrite E1, E2, app_assoc. done.
Qed.

Lemma emits_lift {A} (r : result exn A) k a out :
  r = Ok a -> emits (k a) out -> emits (bindM (lift r) k) out.
Proof. intros -> Hk file data w Hw. unfold bindM, lift. by apply Hk. Qed.

Lemma emits_for {A} (f : A -> WM unit) (g : A -> bytes) l :
  Forall (fun a => emits (f a) (g a)) l -> emits (forM_list f l) (l ≫= g).
Proof.
  induction 1 as [|a l Ha Hl IH]; simpl.
  - intros file data w Hw. exists w. rewrite app_nil_r. done.
  - refine (emits_seq _ _ _ _ _ _); done.
Qed.

Lemma emits_str s : text_fits s -> emits (write_str s) (text_bytes s).
Proof.
  intros (b & Hb & _ & _ & Hl). unfold write_str, text_bytes. rewrite Hb. cbn [default from_option id].
  eapply emits_lift; [unfold encode_text; by rewrite Hb|].
  eapply emits_lift; [apply pack_unsigned_ok; change (256 ^ Z.of_nat 4) with (2 ^ 32); lia|].
  refine (emits_seq _ _ _ _ _ _); apply emits_write.
Qed.

Lemma emits_counted {A} (f : A -> WM unit) g (l : list A) :
  count_fits l -> Forall (fun a => emits (f a) (g a)) l ->
  emits (let! n := lift (pack_unsigned 4 (Z.of_nat (length l))) in write n;; forM_list f l)
        (le_bytes 4 (Z.of_nat (length l)) ++ (l ≫= g)).
Proof.
  intros Hn Hl. unfold count_fits in Hn.
  eapply emits_lift; [apply pack_unsigned_ok; change (256 ^ Z.of_nat 4) with (2 ^ 32); lia|].
  refine (emits_seq _ _ _ _ _ _); [apply emits_write|by apply emits_for].
Qed.

Lemma emits_payload p : payload_fits p -> emits (write_payload p) (payload_bytes p).
Proof.
  destruct p as [s|l|l|l|l]; simpl; [apply emits_str|..];
    intros [Hn Hl]; apply emits_counted; try done; eapply Forall_impl; try exact Hl; simpl.
  - apply emits_str.
  - intros [f v] [Hf Hv]. refine (emits_seq _ _ _ _ _ _); by apply emits_str.
  - apply emits_str.
  - intros [m s] [Hm _]. refine (emits_seq _ _ _ _ _ _); [by apply emits_str|apply emits_write].
Qed.

Lemma type_code_kind p : type_code (payload_kind p) = Ok (kind_code p).
Proof. by destruct p. Qed.

Lemma kind_code_range p : 0 <= kind_code p < 256.
Proof. destruct p; simpl; lia. Qed.

Lemma deadline_fits_ms e :
  deadline_fits e -> exists ms, expires_ms e = Ok ms /\ - 2 ^ 63 <= ms < 2 ^ 63 /\
    (if ms <? 0 then None else Some (int_truediv ms 1000)) = e.
Proof.
  destruct e as [t|]; simpl.
  - intros (ms & E & Hms & Ht). exists ms. split_and!; [done|lia..|].
    destruct (Z.ltb_spec ms 0); [lia|]. by rewrite Ht.
  - intros _. by exists (-1).
Qed.

Lemma emits_record r : record_fits r -> emits (write_record r) (record_bytes r).
Proof.
  intros (Hk & Hp & He). destruct (deadline_fits_ms _ He) as (ms & Ems & Hms & _).
  unfold write_record, record_bytes. rewrite Ems, type_code_kind. cbn [ok_or].
  eapply emits_lift; [done|]. eapply emits_lift; [done|].
  eapply emits_lift; [apply pack_unsigned_ok; apply kind_code_range|].
  eapply emits_lift; [by apply pack_i64_ok|].
  pose proof (kind_code_range (sr_payload r)) as Hc.
  rewrite le_bytes_one by done. change (?c :: ?l ++ ?m) with (([c] ++ l) ++ m).
  refine (emits_seq _ _ _ _ _ _); [apply emits_write|].
  refine (emits_seq _ _ _ _ _ _); [by apply emits_str|by apply emits_payload].
Qed.

(** ** The reader *)

(** Reading [inp] gives [a], whatever follows. *)
Definition reads {A} (c : RM A) (inp : bytes) (a : A) : Prop :=
  forall rest, c (inp ++ rest) = (Ok a, rest).

Lemma reads_ret {A} (a : A) : reads (ret a) [] a.
Proof. by intros rest. Qed.

Lemma reads_bind {A B} (c : RM A) (k : A -> RM B) i j a b :
  reads c i a -> reads (k a) j b -> reads (bindM c k) (i ++ j) b.
Proof. intros Hc Hk rest. unfold bindM. rewrite <- app_assoc, Hc. apply Hk. Qed.

Lemma reads_map {A B} (c : RM A) (f : A -> B) i a :
  reads c i a -> reads (let! x := c in ret (f x)) i (f a).
Proof. intros Hc rest. unfold bindM. by rewrite Hc. Qed.

Lemma reads_unpack b : reads (unpack (length b)) b b.
Proof.
  intros rest. unfold unpack. rewrite bool_decide_true by (rewrite length_app; lia).
  by rewrite take_app_length, drop_app_length.
Qed.

Lemma reads_u32 n : 0 <= n < 2 ^ 32 -> reads read_u32 (le_bytes 4 n) n.
Proof.
  intros Hn. unfold read_u32.
  rewrite <- (le_value_bytes 4 n) at 2 by (change (256 ^ Z.of_nat 4) with (2 ^ 32); lia).
  apply reads_map. rewrite <- (le_bytes_length 4 n) at 1. apply reads_unpack.
Qed.

Lemma reads_f64 x : float_ok x = true -> reads read_f64 (pack_f64 x) x.
Proof.
  intros Hx. unfold read_f64, pack_f64. rewrite <- (float_bits_round x Hx) at 2.
  rewrite <- (le_value_bytes 8 (float_bits x)) at 2 by by apply float_bits_range.
  apply (reads_map _ (fun b => float_of_bits (le_value b))).
  rewrite <- (le_bytes_length 8 (float_bits x)) at 1. apply reads_unpack.
Qed.

Lemma reads_str s : text_fits s -> reads read_str (text_bytes s) s.
Proof.
  intros (b & Hb & _ & Hs & Hl) rest. unfold text_bytes. rewrite Hb. cbn [default from_option id].
  unfold read_str, bindM. rewrite <- app_assoc, (reads_u32 (Z.of_nat (length b))) by lia.
  rewrite length_app. destruct (Z.leb_spec (Z.of_nat (length b)) (Z.of_nat (length b + length rest)));
    [|lia].
  rewrite Nat2Z.id, take_app_length, drop_app_length, Hs. done.
Qed.

Lemma text_bytes_length s : (4 <= length (text_bytes s))%nat.
Proof. unfold text_bytes. rewrite length_app, le_bytes_length. lia. Qed.

Lemma repeat_fuel_reads {A} (f : RM A) (g : A -> bytes) l fuel rest :
  Forall (fun a => reads f (g a) a) l -> (length l <= fuel)%nat ->
  repeat_fuel f fuel (Z.of_nat (length l)) ((l ≫= g) ++ rest) = (Ok l, rest).
Proof.
  intros H. revert fuel. induction H as [|a l Ha Hl IH]; intros fuel Hf.
  { by destruct fuel. }
  destruct fuel as [|fuel]; [simpl in Hf; lia|].
  cbn [repeat_fuel length]. destruct (Z.leb_spec (Z.of_nat (S (length l))) 0); [lia|].
  unfold bindM. cbn [mbind list_bind]. rewrite <- app_assoc, Ha.
  replace (Z.of_nat (S (length l)) - 1) with (Z.of_nat (length l)) by lia.
  rewrite IH by (simpl in Hf; lia). done.
Qed.

Lemma bind_length {A} (g : A -> bytes) l :
  (forall a, 1 <= length (g a))%nat -> (length l <= length (l ≫= g))%nat.
Proof.
  intros Hg. induction l as [|a l IH]; [simpl; lia|].
  rewrite bind_cons, length_app. specialize (Hg a). simpl length at 1. lia.
Qed.

Lemma reads_counted {A} (f : RM A) (g : A -> bytes) l :
  count_fits l -> (forall a, 1 <= length (g a))%nat -> Forall (fun a => reads f (g a) a) l ->
  reads (let! count := read_u32 in repeat_read f count)
        (le_bytes 4 (Z.of_nat (length l)) ++ (l ≫= g)) l.
Proof.
  intros Hn Hg Hl. unfold count_fits in Hn. eapply reads_bind; [apply reads_u32; lia|].
  intros rest. unfold repeat_read. apply repeat_fuel_reads; [done|].
  rewrite length_app. pose proof (bind_length g l Hg). lia.
Qed.

Lemma bindM_assoc {X S A B C} (c : M X S A) (f : A -> M X S B) (g : B -> M X S C) s :
  bindM c (fun a => bindM (f a) g) s = bindM (bindM c f) g s.
Proof. unfold bindM. by destruct (c s) as [[]]. Qed.

Lemma reads_collection {A} (f : RM A) (g : A -> bytes) (k : list A -> Payload) l :
  count_fits l -> (forall a, 1 <= length (g a))%nat -> Forall (fun a => reads f (g a) a) l ->
  reads (let! count := read_u32 in let! x := repeat_read f count in ret (k x))
        (le_bytes 4 (Z.of_nat (length l)) ++ (l ≫= g)) (k l).
Proof.
  intros Hn Hg Hl rest. rewrite bindM_assoc.
  by apply (reads_map _ k), reads_counted.
Qed.

Lemma reads_payload p :
  payload_fits p -> reads (read_payload (payload_kind p)) (payload_bytes p) p.
Proof.
  destruct p as [s|l|l|l|l]; simpl payload_fits; simpl payload_bytes;
    [intros H; by apply (reads_map read_str RString), reads_str|..];
    intros [Hn Hl]; unfold read_payload; simpl.
  - apply (reads_collection read_str _ RList); [done|intros a; pose proof (text_bytes_length a); lia|].
    eapply Forall_impl; [exact Hl|apply reads_str].
  - apply (reads_collection (read_pair read_str) _ RHash); [done| |].
    + intros [f v]. pose proof (text_bytes_length f). rewrite length_app. lia.
    + eapply Forall_impl; [exact Hl|]. intros [f v] [Hf Hv].
      eapply reads_bind; [by apply reads_str|]. by apply (reads_map _ (pair f)), reads_str.
  - apply (reads_collection read_str _ RSet); [done|intros a; pose proof (text_bytes_length a); lia|].
    eapply Forall_impl; [exact Hl|apply reads_str].
  - apply (reads_collection (read_pair read_f64) _ RZset); [done| |].
    + intros [m s]. pose proof (text_bytes_length m). rewrite length_app. lia.
    + eapply Forall_impl; [exact Hl|]. intros [m s] [Hm Hs].
      eapply reads_bind; [by apply reads_str|]. by apply (reads_map _ (pair m)), reads_f64.
Qed.

Lemma type_of_code_kind p : type_of_code (kind_code p) = Ok (payload_kind p).
Proof. by destruct p. Qed.

(** ** Single values: DUMP and RESTORE *)

Lemma le_bytes4_split (body : bytes) crc :
  0 <= crc < 2 ^ 32 -> split_crc (body ++ le_bytes 4 crc) = (body, crc).
Proof.
  intros Hc. unfold split_crc. rewrite length_app, le_bytes_length.
  replace (length body + 4 - 4)%nat with (length body) by lia.
  rewrite take_app_length, drop_app_length, le_value_bytes; [done|].
  change (256 ^ Z.of_nat 4) with (2 ^ 32). lia.
Qed.

Lemma text_bytes_byte s : text_fits s -> Forall is_byte (text_bytes s).
Proof.
  intros (b & Hb & Hbs & _). unfold text_bytes. rewrite Hb. apply Forall_app.
  split; [apply le_bytes_byte|done].
Qed.

Lemma bind_byte {A} (g : A -> bytes) (l : list A) :
  Forall (fun a => Forall is_byte (g a)) l -> Forall is_byte (l ≫= g).
Proof.
  induction 1 as [|a l Ha Hl IH]; [constructor|]. rewrite bind_cons. by apply Forall_app.
Qed.

Lemma payload_bytes_byte p : payload_fits p -> Forall is_byte (payload_bytes p).
Proof.
  destruct p as [s|l|l|l|l]; simpl; [apply text_bytes_byte|..];
    intros [_ Hl]; apply Forall_app; (split; [apply le_bytes_byte|]);
    apply bind_byte; eapply Forall_impl; try exact Hl; simpl.
  - apply text_bytes_byte.
  - intros [f v] [Hf Hv]. apply Forall_app. split; by apply text_bytes_byte.
  - apply text_bytes_byte.
  - intros [m s] [Hm _]. apply Forall_app. split; [by apply text_bytes_byte|apply le_bytes_byte].
Qed.

(** Flush, and the checksum after what was written. *)
Lemma finish_file data file w :
  wrote file data w -> Forall is_byte data ->
  exists w', (flush;; write_crc) w = (Ok tt, w') /\
    wr_file w' = file ++ data ++ le_bytes 4 (crc32 data 0).
Proof.
  intros Hw Hb. destruct (flush_spec _ _ _ Hw) as (w1 & E & _ & Hbuf & Hf & Hc & Hs).
  unfold bindM at 1. rewrite E. unfold write_crc, bindM, getM, lift, putM.
  rewrite Hc, pack_unsigned_ok.
  - eexists. split; [done|]. simpl. by rewrite Hf, app_assoc.
  - change (256 ^ Z.of_nat 4) with (2 ^ 32). apply crc32_range; [done|lia].
Qed.

Definition value_bytes (p : Payload) : bytes := [DUMP_VERSION; kind_code p] ++ payload_bytes p.

Lemma value_bytes_byte p : payload_fits p -> Forall is_byte (value_bytes p).
Proof.
  intros Hp. unfold value_bytes. apply Forall_app. split; [|by apply payload_bytes_byte].
  apply Forall_cons. split; [unfold is_byte, DUMP_VERSION; lia|].
  apply Forall_singleton, kind_code_range.
Qed.

Lemma dump_value_bytes p :
  payload_fits p ->
  dump_value p = Ok (value_bytes p ++ le_bytes 4 (crc32 (value_bytes p) 0)).
Proof.
  intros Hp. unfold dump_value, write_value. rewrite type_code_kind.
  unfold bindM at 1, lift at 1.
  pose proof (emits_seq _ _ _ _ (emits_write [DUMP_VERSION; kind_code p]) (emits_payload p Hp)
                [] [] _ (wrote_new [])) as (w & E & Hw).
  destruct (finish_file _ _ _ Hw (value_bytes_byte p Hp)) as (w' & E' & Hf).
  rewrite bindM_assoc. unfold bindM at 1. rewrite E, E', Hf. done.
Qed.

Lemma load_value_bytes p :
  payload_fits p -> load_value (value_bytes p ++ le_bytes 4 (crc32 (value_bytes p) 0)) = Ok p.
Proof.
  intros Hp. pose proof (crc32_range _ 0 (value_bytes_byte p Hp) ltac:(lia)) as Hc.
  unfold load_value. rewrite bool_decide_false
    by (rewrite length_app, le_bytes_length; unfold value_bytes; simpl; lia).
  rewrite le_bytes4_split by done. rewrite Z.eqb_refl. simpl.
  unfold bindM, lift. rewrite type_of_code_kind.
  rewrite drop_0, <- (app_nil_r (payload_bytes p)), (reads_payload p Hp []). done.
Qed.

(** ** Whole snapshots *)
Definition header_bytes (n : nat) (created : Z) : bytes :=
  MAGIC ++ le_bytes 2 VERSION ++ le_bytes 8 (created mod 2 ^ 64) ++ le_bytes 8 (Z.of_nat n).

Definition snapshot_bytes (records : list SnapshotRecord) (created : Z) : bytes :=
  header_bytes (length records) created ++ (records ≫= record_bytes) ++ [EOF_MARK].

Lemma snapshot_bytes_min records created : (25 <= length (snapshot_bytes records created))%nat.
Proof.
  unfold snapshot_bytes. rewrite !length_app. unfold header_bytes.
  rewrite !length_app, !le_bytes_length. simpl. lia.
Qed.

Lemma record_bytes_byte r : record_fits r -> Forall is_byte (record_bytes r).
Proof.
  intros (Hk & Hp & _). unfold record_bytes. constructor; [apply kind_code_range|].
  apply Forall_app. split; [apply le_bytes_byte|].
  apply Forall_app. split; [by apply text_bytes_byte|by apply payload_bytes_byte].
Qed.

Lemma header_byte n created : Forall is_byte (header_bytes n created).
Proof.
  unfold header_bytes. rewrite !Forall_app. split_and!; try apply le_bytes_byte.
  unfold MAGIC, is_byte. simpl. repeat constructor; lia.
Qed.

Lemma snapshot_bytes_byte records created :
  Forall record_fits records -> Forall is_byte (snapshot_bytes records created).
Proof.
  intros H. unfold snapshot_bytes. rewrite !Forall_app. split_and!.
  - apply header_byte.
  - apply bind_byte. eapply Forall_impl; [exact H|apply record_bytes_byte].
  - repeat constructor; unfold EOF_MARK; lia.
Qed.

Lemma encode_snapshot_bytes records created_at created :
  Forall record_fits records -> Z.of_nat (length records) < 2 ^ 64 ->
  to_millis created_at = Ok created -> - 2 ^ 63 <= created < 2 ^ 63 ->
  encode_snapshot records created_at =
    Ok (snapshot_bytes records created ++ le_bytes 4 (crc32 (snapshot_bytes records created) 0)).
Proof.
  intros Hr Hn Ec Hc. unfold encode_snapshot, write_all. rewrite Ec.
  unfold bindM at 1, lift at 1. rewrite pack_unsigned_ok by (unfold VERSION; simpl; lia).
  unfold bindM at 1, lift at 1. rewrite pack_i64_ok by done. unfold bindM at 1, lift at 1.
  rewrite pack_unsigned_ok by (change (256 ^ Z.of_nat 8) with (2 ^ 64); lia).
  unfold bindM at 1, lift at 1.
  assert (Hfor : emits (forM_list write_record records) (records ≫= record_bytes)).
  { apply emits_for. eapply Forall_impl; [exact Hr|apply emits_record]. }
  pose proof (emits_seq _ _ _ _ (emits_write (header_bytes (length records) created))
    (emits_seq _ _ _ _ Hfor (emits_write [EOF_MARK])) [] [] _ (wrote_new [])) as (w & E & Hw).
  destruct (finish_file _ _ _ Hw (snapshot_bytes_byte _ created Hr)) as (w' & E' & Hf).
  unfold bindM at 1 2 in E. unfold bindM at 1 2 3.
  change (MAGIC ++ _) with (header_bytes (length records) created).
  destruct (write (header_bytes _ _) (new_writer [])) as [[[]|] w1]; [|done].
  destruct (forM_list write_record records w1) as [[[]|] w2]; [|done].
  rewrite E, bindM_assoc. unfold bindM at 1. rewrite E'. simpl. by rewrite Hf.
Qed.

Lemma reads_record r : record_fits r -> reads read_record (record_bytes r) r.
Proof.
  intros (Hk & Hp & He). destruct (deadline_fits_ms _ He) as (ms & Ems & Hms & Hback).
  unfold record_bytes. rewrite Ems. cbn [ok_or].
  set (b := kind_code (sr_payload r) :: le_bytes 8 (ms mod 2 ^ 64)).
  change (?c :: ?l ++ ?m) with ((c :: l) ++ m). fold b. unfold read_record.
  assert (Hb : reads (unpack 9) b b).
  { replace 9%nat with (length b) by (subst b; simpl; by rewrite le_bytes_length).
    apply reads_unpack. }
  eapply reads_bind; [exact Hb|]. subst b. simpl take. simpl drop. rewrite drop_0, take_0, signed64_mod by done.
  assert (E1 : le_value [kind_code (sr_payload r)] = kind_code (sr_payload r)) by (simpl; lia).
  rewrite E1, type_of_code_kind. unfold lift. intros rest. unfold bindM at 1.
  revert rest. eapply reads_bind; [by apply reads_str|].
  rewrite <- (app_nil_r (payload_bytes _)).
  eapply reads_bind; [by apply reads_payload|]. rewrite Hback. intros rest. by destruct r.
Qed.

Lemma yield_records_spec records fuel rest :
  Forall record_fits records -> (length records <= fuel)%nat ->
  yield_records fuel (Z.of_nat (length records)) ((records ≫= record_bytes) ++ rest) =
    (records, Ok rest).
Proof.
  intros H. revert fuel. induction H as [|r records Hr H IH]; intros fuel Hf; [by destruct fuel|].
  destruct fuel as [|fuel]; [simpl in Hf; lia|]. cbn [yield_records length].
  destruct (Z.leb_spec (Z.of_nat (S (length records))) 0); [lia|].
  rewrite bind_cons, <- app_assoc, (reads_record r Hr).
  replace (Z.of_nat (S (length records)) - 1) with (Z.of_nat (length records)) by lia.
  rewrite IH by (simpl in Hf; lia). done.
Qed.

Lemma header_fields n created body :
  let h := header_bytes n created in
  take 6 (h ++ body) = MAGIC /\ slice 6 8 (h ++ body) = le_bytes 2 VERSION /\
  slice 16 24 (h ++ body) = le_bytes 8 (Z.of_nat n) /\ drop HEADER_SIZE (h ++ body) = body /\
  length h = HEADER_SIZE.
Proof.
  unfold header_bytes, slice, HEADER_SIZE. simpl.
  pose proof (le_bytes_length 2 VERSION) as H2.
  pose proof (le_bytes_length 8 (created mod 2 ^ 64)) as H8.
  pose proof (le_bytes_length 8 (Z.of_nat n)) as H8'. revert H2 H8 H8'.
  generalize (le_bytes 2 VERSION), (le_bytes 8 (created mod 2 ^ 64)), (le_bytes 8 (Z.of_nat n)).
  intros a b c Ha Hb Hc.
  do 2 (destruct a as [|? a]; simplify_eq/=). destruct a; simplify_eq/=.
  do 8 (destruct b as [|? b]; simplify_eq/=). destruct b; simplify_eq/=.
  do 8 (destruct c as [|? c]; simplify_eq/=). destruct c; simplify_eq/=.
  by rewrite !drop_0.
Qed.

Lemma record_bytes_length r : (1 <= length (record_bytes r))%nat.
Proof. unfold record_bytes. simpl. lia. Qed.

Lemma decode_snapshot_bytes records created source :
  Forall record_fits records -> Z.of_nat (length records) < 2 ^ 64 ->
  let body := snapshot_bytes records created in
  decode_snapshot (body ++ le_bytes 4 (crc32 body 0)) source = (records, None).
Proof.
  intros Hr Hn body. pose proof (snapshot_bytes_byte _ created Hr) as Hb. fold body in Hb.
  pose proof (crc32_range _ 0 Hb ltac:(lia)) as Hc. unfold decode_snapshot.
  destruct (header_fields (length records) created ((records ≫= record_bytes) ++ [EOF_MARK]))
    as (E1 & E2 & E3 & E4 & E5).
  change (header_bytes _ _ ++ _) with body in E1, E2, E3, E4.
  pose proof (bind_length record_bytes records record_bytes_length) as Hlen.
  assert (Hbl : length body = (24 + (length (records ≫= record_bytes) + 1))%nat)
    by (unfold body, snapshot_bytes; rewrite !length_app, E5; done).
  rewrite bool_decide_false by (rewrite length_app, le_bytes_length, Hbl; unfold HEADER_SIZE; lia).
  rewrite le_bytes4_split, Z.eqb_refl by done. cbn [negb].
  rewrite E1, E2, E3, E4, bool_decide_true by done.
  rewrite !le_value_bytes by (simpl; unfold VERSION; lia). cbn [negb andb].
  rewrite Z.eqb_refl. cbn [negb]. rewrite yield_records_spec by (done || lia). done.
Qed.
