(* ===== verification/Registry.v ===== *)
(** * The command table and argument parsing (engine/commands/registry.py)

    Arguments as the Python values callers pass, replies as the values handlers
    return, the helpers that parse arguments, the description of a command
    ([CommandSpec]) and what a handler may use of the engine
    ([CommandContext]). *)

From Stdlib Require Import SpecFloat String.
From S2P Require Import Prelude PyStr PyFloat Errors Codec Oracles Store.
Local Close Scope string_scope.

(** ** Arguments and replies *)

(** An argument is a [str] from a connection or the log; the engine's callers
    may also pass numbers.  [AOther] is any other object, with its [str()]. *)
Inductive PyArg :=
| AStr (s : pystr)
| AInt (z : Z)
| AFloat (f : float)
| ABool (b : bool)
| AOther (text : pystr).

#[export] Instance PyArg_eq_dec : EqDecision PyArg.
Proof. solve_decision. Defined.

(** [str(arg)]. *)
Definition str_of_arg (a : PyArg) : pystr :=
  match a with
  | AStr s => s
  | AInt z => str_of_int z
  | AFloat f => float_repr f
  | ABool b => if b then lit "True" else lit "False"
  | AOther text => text
  end.

Inductive Reply :=
| RNone
| RStatus (s : pystr)
| RText (s : pystr)
| RInt (z : Z)
| RArg (a : PyArg)
| RArray (l : list Reply).

Definition OK : Reply := RStatus (lit "OK").
Definition PONG : Reply := RStatus (lit "PONG").

Definition opt_text (o : option pystr) : Reply :=
  match o with Some s => RText s | None => RNone end.
Definition texts (l : list pystr) : Reply := RArray (RText <$> l).
Definition bool_int (b : bool) : Reply := RInt (if b then 1 else 0).

(** ** Flags and key positions *)
Inductive Flag := WRITE | DENYOOM | READONLY | STATELESS | ADMIN.

#[export] Instance Flag_eq_dec : EqDecision Flag.
Proof. solve_decision. Defined.

Definition flag_name (f : Flag) : pystr :=
  match f with
  | WRITE => lit "write" | DENYOOM => lit "denyoom" | READONLY => lit "readonly"
  | STATELESS => lit "stateless" | ADMIN => lit "admin"
  end.

Record KeySpec := mkKeySpec { ks_first : Z; ks_last : Z; ks_step : Z }.
Definition SINGLE_KEY : KeySpec := mkKeySpec 0 0 1.
Definition ALL_KEYS : KeySpec := mkKeySpec 0 (-1) 1.
Definition EVERY_OTHER_KEY : KeySpec := mkKeySpec 0 (-1) 2.

(** [l[::step]] for [step >= 1]. *)
Fixpoint every {A} (step skip : nat) (l : list A) : list A :=
  match l with
  | [] => []
  | a :: l' => match skip with
               | O => a :: every step (step - 1) l'
               | S n => every step n l'
               end
  end.

(** ** Argument parsing *)
Definition INT64_MIN : Z := - 2 ^ 63.
Definition INT64_MAX : Z := 2 ^ 63 - 1.
Definition in_int64 (z : Z) : bool := (INT64_MIN <=? z) && (z <=? INT64_MAX).

Definition invalid (message : String.string) : exn := err InvalidArgumentError message.
Definition syntax_error : exn := invalid "syntax error".

Section Parsing.
Context {S : Type}.
Abbreviation PM := (M exn S).

Definition key_arg (arg : PyArg) : PM pystr :=
  match arg with AStr s => ret s | _ => raise (invalid "key must be a string") end.

Definition str_arg (arg : PyArg) : PM pystr :=
  match arg with AStr s => ret s | _ => raise (invalid "value must be a string") end.

Definition int_value (arg : PyArg) : option Z :=
  match arg with
  | AInt z => Some z
  | AStr s => py_int s
  | _ => None
  end.

Definition int_arg (arg : PyArg) : PM Z :=
  match int_value arg with
  | Some z => if in_int64 z then ret z
              else raise (invalid "value is not an integer or out of range")
  | None => raise (invalid "value is not an integer or out of range")
  end.

(** [float(z)] of an integer too large for a float is an [OverflowError], which
    [float_arg] does not catch. *)
Definition float_of_int (z : Z) : result exn float :=
  match float_of_Z z with
  | S754_infinity _ => Raise (err OverflowError "int too large to convert to float")
  | f => Ok f
  end.

Definition float_arg (arg : PyArg) : PM float :=
  let checked f := if is_nan f then raise (invalid "value is not a valid float") else ret f in
  match arg with
  | AStr s => checked (default S754_nan (py_float s))
  | AFloat f => checked f
  | AInt z => match float_of_int z with Ok f => checked f | Raise x => raise x end
  | ABool _ | AOther _ => raise (invalid "value is not a valid float")
  end.

Definition score_bound (arg : PyArg) : PM (float * bool) :=
  let text := str_of_arg arg in
  let '(exclusive, number) := match text with 40 :: t => (true, t) | _ => (false, text) end in
  match py_float number with
  | Some value => if is_nan value then raise (invalid "min or max is not a float")
                  else ret (value, exclusive)
  | None => raise (invalid "min or max is not a float")
  end.

Definition check_int64 (value : Z) : PM Z :=
  if in_int64 value then ret value
  else raise (invalid "increment or decrement would overflow").
End Parsing.

Definition upper (arg : PyArg) : pystr := match arg with AStr s => str_upper s | _ => [] end.

(** [args[i]]: a position the command's arity guarantees. *)
Definition arg (i : nat) (args : list PyArg) : PyArg := nth i args (AOther []).

(** ** What a handler may use: the engine behind [CommandContext]

    [store] and [now] are the store's own; the other members act on the
    engine's state [E] around the store, or on both. *)
Inductive InfoValue := IBool (b : bool) | INone | IText (s : pystr).

Class CommandContext (P D E : Type) := {
  cx_time_ns : E -> Z;  (* [time.time_ns()], which TIME reports *)
  cx_loading : E -> bool;
  cx_propagate : list PyArg -> M exn E unit;
  cx_start_rewrite : M exn (World P D E) unit;
  cx_save : M exn (World P D E) unit;
  cx_last_save_time : E -> Z;
  cx_config_values : World P D E -> list (pystr * pystr);
  cx_info_sections : World P D E -> list (pystr * list (pystr * InfoValue))
}.

(** ** Command descriptions *)
Definition Handler (P D E : Type) : Type := list PyArg -> M exn (World P D E) Reply.

Record CommandSpec (P D E : Type) := mkSpec {
  cs_name : pystr;
  cs_handler : Handler P D E;
  cs_min_args : nat;
  cs_max_args : option nat;
  cs_flags : list Flag;
  cs_key_spec : option KeySpec
}.
Arguments mkSpec {P D E}. Arguments cs_name {P D E}. Arguments cs_handler {P D E}.
Arguments cs_min_args {P D E}. Arguments cs_max_args {P D E}. Arguments cs_flags {P D E}.
Arguments cs_key_spec {P D E}.

Section Spec.
Context {P D E : Type}.
Implicit Types (spec : CommandSpec P D E) (args : list PyArg).

(** The decorator [command]: what is not a write is read-only. *)
Definition command (name : String.string) (min_args : nat) (max_args : option nat)
    (flags : list Flag) (keys : option KeySpec) (handler : Handler P D E) : CommandSpec P D E :=
  mkSpec (lit name) handler min_args max_args
    (if bool_decide (WRITE ∈ flags) then flags else flags ++ [READONLY]) keys.

Definition is_write spec : bool := bool_decide (WRITE ∈ cs_flags spec).

Definition arity spec : Z :=
  let n := Z.of_nat (cs_min_args spec) + 1 in
  match cs_max_args spec with
  | Some m => if (m =? cs_min_args spec)%nat then n else - n
  | None => - n
  end.

Definition arity_ok spec args : bool :=
  (cs_min_args spec <=? length args)%nat &&
  match cs_max_args spec with Some m => (length args <=? m)%nat | None => true end.

Definition wrong_arity (name : pystr) : exn :=
  new_exn WrongArityError
    (lit "wrong number of arguments for '" ++ str_lower name ++ lit "' command") None.

Definition check_arity {S} spec args : M exn S unit :=
  if arity_ok spec args then ret tt else raise (wrong_arity (cs_name spec)).

Definition spec_keys spec args : list PyArg :=
  match cs_key_spec spec with
  | None => []
  | Some ks =>
      let last := if ks_last ks =? -1 then Z.of_nat (length args) - 1 else ks_last ks in
      every (Z.to_nat (ks_step ks)) 0 (slice (Z.to_nat (ks_first ks)) (Z.to_nat (last + 1)) args)
  end.

(** [[k for k in spec.keys(args) if isinstance(k, str)]]. *)
Definition key_names (l : list PyArg) : list pystr :=
  omap (fun a => match a with AStr s => Some s | _ => None end) l.

Definition keys_of spec args : list pystr := key_names (spec_keys spec args).
End Spec.

(** ** What handlers share *)
Definition found {A} (o : option A) : bool := match o with Some _ => true | None => false end.

Section Shared.
Context {P D E : Type} `{CommandContext P D E}.
Abbreviation SM := (M exn (World P D E)).

Definition propagate (args : list PyArg) : SM unit := env_do (cx_propagate args).
Definition loading : SM bool := readM (fun w => cx_loading (w_env w)).

(** [int(seconds * 1000)]; an infinity or NaN raises. *)
Definition to_ms (seconds : float) : SM Z :=
  match ftrunc (fmul seconds (float_of_Z 1000)) with
  | Some ms => ret ms
  | None => raise (err OverflowError "cannot convert float infinity to integer")
  end.

(** [len(to_bytes(value))]. *)
Definition byte_length (value : pystr) : SM Z :=
  match to_bytes value with
  | Some b => ret (Z.of_nat (length b))
  | None => raise (err ValueError "surrogates not allowed")
  end.

(** The arguments two by two. *)
Fixpoint pairs_of {A B} (f : PyArg -> SM A) (g : PyArg -> SM B) (args : list PyArg) : SM (list (A * B)) :=
  match args with
  | a :: b :: rest =>
      let! x := f a in let! y := g b in let! l := pairs_of f g rest in ret ((x, y) :: l)
  | _ => ret []
  end.

End Shared.

(** ** Facts about parsing *)
Lemma in_int64_spec z : in_int64 z = true <-> INT64_MIN <= z <= INT64_MAX.
Proof. unfold in_int64. rewrite andb_true_iff, !Z.leb_le. done. Qed.

(** An integer of 64 bits is accepted as itself and as its decimal text. *)
Lemma int_arg_text {S} (s : S) z :
  in_int64 z = true -> int_arg (AStr (str_of_int z)) s = (Ok z, s).
Proof.
  intros Hz. unfold int_arg. simpl.
  rewrite (proj1 (py_int_str_of_int64 z ltac:(apply in_int64_spec in Hz;
    unfold INT64_MIN, INT64_MAX in Hz; lia))).
  by rewrite Hz.
Qed.

Lemma int_arg_range {S} (s s' : S) a z : int_arg a s = (Ok z, s') -> in_int64 z = true /\ s' = s.
Proof.
  unfold int_arg. destruct (int_value a) as [v|]; [|done].
  destruct (in_int64 v) eqn:E; [|done]. intros [= <- <-]. done.
Qed.

Lemma float_arg_not_nan {S} (s s' : S) a f : float_arg a s = (Ok f, s') -> is_nan f = false /\ s' = s.
Proof.
  unfold float_arg. destruct a; simpl; try done.
  - destruct (is_nan (default _ _)) eqn:E; [done|]. by intros [= <- <-].
  - destruct (float_of_int z) as [g|]; [|done]. destruct (is_nan g) eqn:E; [done|]. by intros [= <- <-].
  - destruct (is_nan f0) eqn:E; [done|]. by intros [= <- <-].
Qed.

Lemma score_bound_not_nan {S} (s s' : S) a f b :
  score_bound a s = (Ok (f, b), s') -> is_nan f = false /\ s' = s.
Proof.
  unfold score_bound. destruct (match str_of_arg a with 40 :: t => _ | _ => _ end) as [ex t].
  destruct (py_float t) as [v|]; [|done]. destruct (is_nan v) eqn:E; [done|]. by intros [= <- _ <-].
Qed.

(** The first argument of a single-key command is its key. *)
Lemma single_key_names {P D E} (spec : CommandSpec P D E) k args :
  cs_key_spec spec = Some SINGLE_KEY -> keys_of spec (AStr k :: args) = [k].
Proof. intros H. unfold keys_of, spec_keys. rewrite H. done. Qed.

Lemma all_keys_names {P D E} (spec : CommandSpec P D E) args :
  cs_key_spec spec = Some ALL_KEYS -> keys_of spec args = key_names args.
Proof.
  intros H. unfold keys_of, spec_keys. rewrite H. simpl. unfold slice. rewrite drop_0.
  replace (Z.of_nat (length args) - 1 + 1) with (Z.of_nat (length args)) by lia.
  rewrite Nat2Z.id, Nat.sub_0_r, firstn_all. f_equal. by induction args as [|a args IH]; simpl; f_equal.
Qed.
