(* ===== verification/CmdStrings.v ===== *)
(** * String commands (engine/commands/strings.py) *)

From Stdlib Require Import SpecFloat String.
From S2P Require Import Prelude PyStr PyFloat Errors Oracles Containers Eviction Store Registry.
Local Close Scope string_scope.

Section Strings.
Context `{Sizing} {P : Type} `{EvictionPolicy P} {D E : Type} `{Hooks D E} `{CommandContext P D E}.
Abbreviation SM := (M exn (World P D E)).

Definition get_cmd (args : list PyArg) : SM Reply :=
  let! key := key_arg (arg 0 args) in
  let! v := read_str key in
  ret (opt_text v).

(** *** SET *)
Record SetOptions := mkSetOptions {
  so_nx : bool; so_xx : bool; so_get : bool; so_keep_ttl : bool; so_expire_ms : option Z
}.
Definition no_options : SetOptions := mkSetOptions false false false false None.

Fixpoint set_options (args : list PyArg) (o : SetOptions) : SM SetOptions :=
  match args with
  | [] => ret o
  | a :: rest =>
      let option := upper a in
      if bool_decide (option = lit "NX") && negb (so_xx o) then
        set_options rest (mkSetOptions true (so_xx o) (so_get o) (so_keep_ttl o) (so_expire_ms o))
      else if bool_decide (option = lit "XX") && negb (so_nx o) then
        set_options rest (mkSetOptions (so_nx o) true (so_get o) (so_keep_ttl o) (so_expire_ms o))
      else if bool_decide (option = lit "GET") then
        set_options rest (mkSetOptions (so_nx o) (so_xx o) true (so_keep_ttl o) (so_expire_ms o))
      else if bool_decide (option = lit "KEEPTTL") && bool_decide (so_expire_ms o = None) then
        set_options rest (mkSetOptions (so_nx o) (so_xx o) (so_get o) true (so_expire_ms o))
      else if (bool_decide (option = lit "EX") || bool_decide (option = lit "PX"))
              && bool_decide (so_expire_ms o = None) && negb (so_keep_ttl o) then
        match rest with
        | amount_arg :: rest' =>
            let! amount := int_arg amount_arg in
            if amount <=? 0 then raise (invalid "invalid expire time in 'set' command")
            else set_options rest'
                   (mkSetOptions (so_nx o) (so_xx o) (so_get o) (so_keep_ttl o)
                      (Some (if bool_decide (option = lit "EX") then amount * 1000 else amount)))
        | [] => raise syntax_error
        end
      else raise syntax_error
  end.

Definition set_cmd (args : list PyArg) : SM Reply :=
  let! key := key_arg (arg 0 args) in
  let! value := str_arg (arg 1 args) in
  let! o := set_options (drop 2 args) no_options in
  let! old := (if so_get o then read_str key else ret None) in
  let! entry := peek key in
  let exists_ := found entry in
  let skipped := if so_get o then opt_text old else RNone in
  if (so_nx o && exists_) || (so_xx o && negb exists_) then ret skipped
  else
    set key (VStr value) (so_keep_ttl o);;
    propagate ([AStr (lit "SET"); AStr key; AStr value] ++
               if so_keep_ttl o then [AStr (lit "KEEPTTL")] else []);;
    (match so_expire_ms o with
     | Some expire_ms =>
         let! t := now in
         let! now_ms := to_ms t in
         let at_ms := now_ms + expire_ms in
         set_expiry key (int_truediv at_ms 1000);;
         propagate [AStr (lit "PEXPIREAT"); AStr key; AInt at_ms]
     | None => ret tt
     end);;
    ret (if so_get o then opt_text old else OK).

Definition setnx (args : list PyArg) : SM Reply :=
  let! r := set_cmd [arg 0 args; arg 1 args; AStr (lit "NX")] in
  ret (RInt (match r with RNone => 0 | _ => 1 end)).

Definition getdel (args : list PyArg) : SM Reply :=
  let! key := key_arg (arg 0 args) in
  let! value := read_str key in
  match value with
  | Some v => delete key;; propagate [AStr (lit "DEL"); AStr key];; ret (RText v)
  | None => ret RNone
  end.

Definition mget (args : list PyArg) : SM Reply :=
  let! values := mapM_list (fun a =>
      let! key := key_arg a in
      let! entry := get key in
      ret (match entry with
           | Some e => match e_value e with VStr s => RText s | _ => RNone end
           | None => RNone
           end)) args in
  ret (RArray values).

Definition mset (args : list PyArg) : SM Reply :=
  if Nat.odd (length args) then raise (wrong_arity (lit "MSET"))
  else
    let! pairs := pairs_of key_arg str_arg args in
    forM_list (fun '(key, value) => set key (VStr value) false) pairs;;
    propagate (AStr (lit "MSET") :: args);;
    ret OK.

(** *** Counters *)
Definition incr_by (key : pystr) (delta : Z) : SM Reply :=
  let! current := read_str key in
  let! number := match current with
                 | None => ret 0
                 | Some text => match py_int text with
                                | Some n => ret n
                                | None => raise (invalid "value is not an integer or out of range")
                                end
                 end in
  let! result := check_int64 (number + delta) in
  set key (VStr (str_of_int result)) true;;
  propagate [AStr (lit "INCRBY"); AStr key; AInt delta];;
  ret (RInt result).

Definition incr (args : list PyArg) : SM Reply :=
  let! key := key_arg (arg 0 args) in incr_by key 1.

Definition decr (args : list PyArg) : SM Reply :=
  let! key := key_arg (arg 0 args) in incr_by key (-1).

Definition incrby (args : list PyArg) : SM Reply :=
  let! key := key_arg (arg 0 args) in
  let! n := int_arg (arg 1 args) in incr_by key n.

Definition decrby (args : list PyArg) : SM Reply :=
  let! key := key_arg (arg 0 args) in
  let! n := int_arg (arg 1 args) in incr_by key (- n).

Definition incrbyfloat (args : list PyArg) : SM Reply :=
  let! key := key_arg (arg 0 args) in
  let! delta := float_arg (arg 1 args) in
  let! current := read_str key in
  let! number := match current with None => ret fzero | Some text => float_arg (AStr text) end in
  let result := fadd number delta in
  if feq result pos_inf || feq result neg_inf
  then raise (invalid "increment would produce NaN or Infinity")
  else
    let text := format_float result in
    set key (VStr text) true;;
    propagate [AStr (lit "SET"); AStr key; AStr text; AStr (lit "KEEPTTL")];;
    ret (RText text).

(** *** APPEND and STRLEN *)
Definition append (args : list PyArg) : SM Reply :=
  let! key := key_arg (arg 0 args) in
  let! suffix := str_arg (arg 1 args) in
  let! old := read_str key in
  let value := default [] old ++ suffix in
  set key (VStr value) true;;
  propagate [AStr (lit "APPEND"); AStr key; AStr suffix];;
  let! n := byte_length value in
  ret (RInt n).

Definition strlen (args : list PyArg) : SM Reply :=
  let! key := key_arg (arg 0 args) in
  let! value := read_str key in
  match value with
  | None => ret (RInt 0)
  | Some v => let! n := byte_length v in ret (RInt n)
  end.

(** *** The table of this module *)
Definition string_commands : list (CommandSpec P D E) :=
  [command "GET" 1 (Some 1%nat) [] (Some SINGLE_KEY) get_cmd;
   command "SET" 2 None [WRITE; DENYOOM] (Some SINGLE_KEY) set_cmd;
   command "SETNX" 2 (Some 2%nat) [WRITE; DENYOOM] (Some SINGLE_KEY) setnx;
   command "GETDEL" 1 (Some 1%nat) [WRITE] (Some SINGLE_KEY) getdel;
   command "MGET" 1 None [] (Some ALL_KEYS) mget;
   command "MSET" 2 None [WRITE; DENYOOM] (Some EVERY_OTHER_KEY) mset;
   command "INCR" 1 (Some 1%nat) [WRITE; DENYOOM] (Some SINGLE_KEY) incr;
   command "DECR" 1 (Some 1%nat) [WRITE; DENYOOM] (Some SINGLE_KEY) decr;
   command "INCRBY" 2 (Some 2%nat) [WRITE; DENYOOM] (Some SINGLE_KEY) incrby;
   command "DECRBY" 2 (Some 2%nat) [WRITE; DENYOOM] (Some SINGLE_KEY) decrby;
   command "INCRBYFLOAT" 2 (Some 2%nat) [WRITE; DENYOOM] (Some SINGLE_KEY) incrbyfloat;
   command "APPEND" 2 (Some 2%nat) [WRITE; DENYOOM] (Some SINGLE_KEY) append;
   command "STRLEN" 1 (Some 1%nat) [] (Some SINGLE_KEY) strlen].
End Strings.
