(* ===== verification/CmdKeys.v ===== *)
(** * Key commands (engine/commands/keyspace.py)

    Existence, deletion, types, expiration, and DUMP / RESTORE. *)

From Stdlib Require Import SpecFloat String.
From S2P Require Import Prelude PyStr PyFloat PyFnmatch Errors Codec Oracles Containers Eviction Store.
From S2P Require Import Snapshot Registry.
Local Close Scope string_scope.

Section Keys.
Context `{Sizing} {P : Type} `{EvictionPolicy P} {D E : Type} `{Hooks D E} `{CommandContext P D E}.
Abbreviation SM := (M exn (World P D E)).

Definition del_cmd (args : list PyArg) : SM Reply :=
  let! keys := mapM_list key_arg args in
  let! deleted := filterM_list delete keys in
  (match deleted with
   | [] => ret tt
   | _ => propagate (AStr (lit "DEL") :: (AStr <$> deleted))
   end);;
  ret (RInt (Z.of_nat (length deleted))).

Definition unlink (args : list PyArg) : SM Reply := del_cmd args.

Definition exists_cmd (args : list PyArg) : SM Reply :=
  let! keys := mapM_list key_arg args in
  let! present := filterM_list (fun key => let! e := peek key in ret (found e)) keys in
  ret (RInt (Z.of_nat (length present))).

Definition type_cmd (args : list PyArg) : SM Reply :=
  let! key := key_arg (arg 0 args) in
  let! entry := peek key in
  ret (RStatus (match entry with None => lit "none" | Some e => type_name (e_value e) end)).

Definition keys_cmd (args : list PyArg) : SM Reply :=
  let pattern := str_of_arg (arg 0 args) in
  let! keys := iter_keys in
  ret (texts (filter (fun key => fnmatchcase key pattern = true) keys)).

Definition dbsize (args : list PyArg) : SM Reply :=
  let! n := gets store_len in ret (RInt n).

(** [ctx.flush_all()] is [store.clear()]. *)
Definition flushall (args : list PyArg) : SM Reply :=
  let refused := match args with
                 | [] => false
                 | a :: _ => negb (bool_decide (upper a = lit "ASYNC") || bool_decide (upper a = lit "SYNC"))
                 end in
  if refused then raise syntax_error
  else clear;; propagate [AStr (lit "FLUSHALL")];; ret OK.

Definition flushdb (args : list PyArg) : SM Reply := flushall args.

(** *** Expiration *)
Definition expire_at_ms (key : pystr) (at_ms : Z) : SM Reply :=
  let! entry := peek key in
  if negb (found entry) then ret (RInt 0)
  else
    let! t := now in
    let! now_ms := to_ms t in
    let! ld := loading in
    if (at_ms <=? now_ms) && negb ld then
      delete key;;
      propagate [AStr (lit "DEL"); AStr key];;
      ret (RInt 1)
    else
      set_expiry key (int_truediv at_ms 1000);;
      propagate [AStr (lit "PEXPIREAT"); AStr key; AInt at_ms];;
      ret (RInt 1).

Definition expire_cmd (args : list PyArg) : SM Reply :=
  let! key := key_arg (arg 0 args) in
  let! t := now in let! now_ms := to_ms t in
  let! n := int_arg (arg 1 args) in
  expire_at_ms key (now_ms + n * 1000).

Definition pexpire (args : list PyArg) : SM Reply :=
  let! key := key_arg (arg 0 args) in
  let! t := now in let! now_ms := to_ms t in
  let! n := int_arg (arg 1 args) in
  expire_at_ms key (now_ms + n).

Definition expireat (args : list PyArg) : SM Reply :=
  let! key := key_arg (arg 0 args) in
  let! n := int_arg (arg 1 args) in
  expire_at_ms key (n * 1000).

Definition pexpireat (args : list PyArg) : SM Reply :=
  let! key := key_arg (arg 0 args) in
  let! n := int_arg (arg 1 args) in
  expire_at_ms key n.

Definition persist_cmd (args : list PyArg) : SM Reply :=
  let! key := key_arg (arg 0 args) in
  let! done_ := persist key in
  if negb done_ then ret (RInt 0)
  else propagate [AStr (lit "PERSIST"); AStr key];; ret (RInt 1).

(** PTTL's number, which TTL rounds to seconds. *)
Definition pttl_ms (args : list PyArg) : SM Z :=
  let! key := key_arg (arg 0 args) in
  let! entry := peek key in
  match entry with
  | None => ret (-2)
  | Some e =>
      match e_expires e with
      | None => ret (-1)
      | Some expires_at =>
          let! t := now in
          match fround (fmul (fsub expires_at t) (float_of_Z 1000)) with
          | Some ms => ret (Z.max 0 ms)
          | None => raise (err OverflowError "cannot convert float infinity to integer")
          end
      end
  end.

Definition pttl (args : list PyArg) : SM Reply := let! ms := pttl_ms args in ret (RInt ms).

Definition ttl (args : list PyArg) : SM Reply :=
  let! ms := pttl_ms args in
  ret (RInt (if ms <? 0 then ms else (ms + 500) / 1000)).

(** *** DUMP and RESTORE *)
Definition dump (args : list PyArg) : SM Reply :=
  let! key := key_arg (arg 0 args) in
  let! r := record key in
  match r with
  | None => ret RNone
  | Some r => let! data := lift (dump_value (sr_payload r)) in ret (RText (to_str data))
  end.

Definition deadline_ms (ttl : Z) (absolute : bool) (now_ms : Z) : option Z :=
  if ttl =? 0 then None else Some (if absolute then ttl else now_ms + ttl).

(** [load_value(to_bytes(str(raw)))]. *)
Definition decode_dump (raw : PyArg) : result exn Payload :=
  match encode_text (str_of_arg raw) with
  | Ok data => load_value data
  | Raise x => Raise x
  end.

Definition restore (args : list PyArg) : SM Reply :=
  let! key := key_arg (arg 0 args) in
  let! ttl := int_arg (arg 1 args) in
  let raw := arg 2 args in
  let options := upper <$> drop 3 args in
  if negb (forallb (fun o => bool_decide (o = lit "REPLACE") || bool_decide (o = lit "ABSTTL")) options)
     || (ttl <? 0)
  then raise syntax_error
  else
    let! busy := (if bool_decide (lit "REPLACE" ∈ options) then ret false
                  else let! e := peek key in ret (found e)) in
    if busy : bool
    then raise (new_exn CommandError (lit "Target key name already exists.") (Some (lit "BUSYKEY")))
    else
      match decode_dump raw with
      | Raise x =>
          if bool_decide (exn_cls x = ValueError) then raise (new_exn CommandError (exn_msg x) None)
          else raise x
      | Ok payload =>
          let! t := now in
          let! now_ms := to_ms t in
          let expires := deadline_ms ttl (bool_decide (lit "ABSTTL" ∈ options)) now_ms in
          let! past := match expires with
                       | None => ret false
                       | Some ms =>
                           let! t := now in let! n := to_ms t in let! ld := loading in
                           ret ((ms <=? n) && negb ld)
                       end in
          if past : bool then
            delete key;; propagate [AStr (lit "DEL"); AStr key];; ret OK
          else
            delete key;;
            load_record (mkRecord key payload ((fun ms => int_truediv ms 1000) <$> expires));;
            propagate [AStr (lit "RESTORE"); AStr key; AInt (default 0 expires); raw;
                       AStr (lit "REPLACE"); AStr (lit "ABSTTL")];;
            ret OK
      end.

(** *** The table of this module *)
Definition key_commands : list (CommandSpec P D E) :=
  [command "DEL" 1 None [WRITE] (Some ALL_KEYS) del_cmd;
   command "UNLINK" 1 None [WRITE] (Some ALL_KEYS) unlink;
   command "EXISTS" 1 None [] (Some ALL_KEYS) exists_cmd;
   command "TYPE" 1 (Some 1%nat) [] (Some SINGLE_KEY) type_cmd;
   command "KEYS" 1 (Some 1%nat) [] None keys_cmd;
   command "DBSIZE" 0 (Some 0%nat) [] None dbsize;
   command "FLUSHALL" 0 (Some 1%nat) [WRITE] None flushall;
   command "FLUSHDB" 0 (Some 1%nat) [WRITE] None flushdb;
   command "EXPIRE" 2 (Some 2%nat) [WRITE] (Some SINGLE_KEY) expire_cmd;
   command "PEXPIRE" 2 (Some 2%nat) [WRITE] (Some SINGLE_KEY) pexpire;
   command "EXPIREAT" 2 (Some 2%nat) [WRITE] (Some SINGLE_KEY) expireat;
   command "PEXPIREAT" 2 (Some 2%nat) [WRITE] (Some SINGLE_KEY) pexpireat;
   command "PERSIST" 1 (Some 1%nat) [WRITE] (Some SINGLE_KEY) persist_cmd;
   command "PTTL" 1 (Some 1%nat) [] (Some SINGLE_KEY) pttl;
   command "TTL" 1 (Some 1%nat) [] (Some SINGLE_KEY) ttl;
   command "DUMP" 1 (Some 1%nat) [] (Some SINGLE_KEY) dump;
   command "RESTORE" 3 (Some 5%nat) [WRITE; DENYOOM] (Some SINGLE_KEY) restore].
End Keys.
