(* ===== verification/CmdContainers.v ===== *)
(** * List, hash and set commands (engine/commands/lists.py, hashes.py, sets.py)

    First what they share: [store.read(key, ListValue)] and
    [store.write_target(key, ListValue)] with the collection itself as result,
    and Python's idioms on sequences.  Then the handlers of each module. *)

From Stdlib Require Import String.
From S2P Require Import Prelude PyStr PyFloat Errors Oracles KeySet Containers ZSet Eviction Store Registry.
Local Close Scope string_scope.

(** The collection of a value whose kind [read] has checked. *)
Definition as_list `{Sizing} (v : Value) : ListValue := match v with VList l => l | _ => lv_new [] end.
Definition as_hash `{Sizing} (v : Value) : HashValue := match v with VHash h => h | _ => hv_new end.
Definition as_set `{Sizing} (v : Value) : SetValue := match v with VSet s => s | _ => sv_new end.
Definition as_zset `{Sizing} (v : Value) : SortedSet := match v with VZset z => z | _ => zs_new end.

Section Access.
Context `{Sizing} {P : Type} `{EvictionPolicy P} {D E : Type} `{Hooks D E}.
Abbreviation SM := (M exn (World P D E)).

Definition read_list (key : pystr) : SM (option ListValue) :=
  let! v := read key KList in ret (as_list <$> v).
Definition read_hash (key : pystr) : SM (option HashValue) :=
  let! v := read key KHash in ret (as_hash <$> v).
Definition read_set (key : pystr) : SM (option SetValue) :=
  let! v := read key KSet in ret (as_set <$> v).
Definition read_zset (key : pystr) : SM (option SortedSet) :=
  let! v := read key KZset in ret (as_zset <$> v).

Definition target_list (key : pystr) : SM ListValue :=
  let! v := write_target key KList in ret (as_list v).
Definition target_hash (key : pystr) : SM HashValue :=
  let! v := write_target key KHash in ret (as_hash v).
Definition target_set (key : pystr) : SM SetValue :=
  let! v := write_target key KSet in ret (as_set v).
Definition target_zset (key : pystr) : SM SortedSet :=
  let! v := write_target key KZset in ret (as_zset v).
End Access.

(** [[x for x in l if target.op(x)]]: the operation changes the target and says
    whether it did. *)
Fixpoint select {A V} (op : A -> V -> bool * V) (l : list A) (v : V) : list A * V :=
  match l with
  | [] => ([], v)
  | x :: l' =>
      let '(b, v1) := op x v in
      let '(xs, v2) := select op l' v1 in
      (if b : bool then x :: xs else xs, v2)
  end.

Lemma select_wf {A V} (Q : V -> Prop) (op : A -> V -> bool * V) l v :
  (forall x u, Q u -> Q (op x u).2) -> Q v -> Q (select op l v).2.
Proof.
  intros Hop. revert v. induction l as [|x l IH]; intros v Hv; simpl; [done|].
  specialize (Hop x v Hv). destruct (op x v) as [b u]. specialize (IH u Hop).
  by destruct (select op l u) as [xs u'].
Qed.

(** * List commands (engine/commands/lists.py) *)

Section Lists.
Context `{Sizing} {P : Type} `{EvictionPolicy P} {D E : Type} `{Hooks D E} `{CommandContext P D E}.
Abbreviation SM := (M exn (World P D E)).

Definition push (left : bool) (args : list PyArg) : SM Reply :=
  let! key := key_arg (arg 0 args) in
  let! values := mapM_list str_arg (drop 1 args) in
  let! target := target_list key in
  let target := if left then lv_push_left values target else lv_push_right values target in
  mutate key (VList target);;
  propagate ([AStr (if left then lit "LPUSH" else lit "RPUSH"); AStr key] ++ (AStr <$> values));;
  ret (RInt (lv_len target)).

Definition lpush : list PyArg -> SM Reply := push true.
Definition rpush : list PyArg -> SM Reply := push false.

(** The optional count of LPOP and RPOP. *)
Definition pop_count (args : list PyArg) : SM (option Z) :=
  match args with
  | _ :: c :: _ =>
      let! count := int_arg c in
      if count <? 0 then raise (invalid "value is out of range, must be positive")
      else ret (Some count)
  | _ => ret None
  end.

Definition pop (left : bool) (args : list PyArg) : SM Reply :=
  let! key := key_arg (arg 0 args) in
  let! count := pop_count args in
  let! target := read_list key in
  match target with
  | None => ret RNone
  | Some target =>
      let '(popped, target) := lv_pop (default 1 count) left target in
      mutate key (VList target);;
      (match popped with
       | [] => ret tt
       | _ => propagate [AStr (if left then lit "LPOP" else lit "RPOP"); AStr key;
                         AInt (Z.of_nat (length popped))]
       end);;
      ret (match count with
           | None => opt_text (head popped)
           | Some _ => texts popped
           end)
  end.

Definition lpop : list PyArg -> SM Reply := pop true.
Definition rpop : list PyArg -> SM Reply := pop false.

Definition llen (args : list PyArg) : SM Reply :=
  let! key := key_arg (arg 0 args) in
  let! target := read_list key in
  ret (RInt (match target with None => 0 | Some l => lv_len l end)).

Definition lrange (args : list PyArg) : SM Reply :=
  let! key := key_arg (arg 0 args) in
  let! start := int_arg (arg 1 args) in
  let! stop := int_arg (arg 2 args) in
  let! target := read_list key in
  ret (texts (match target with None => [] | Some l => lv_range start stop l end)).

Definition lindex (args : list PyArg) : SM Reply :=
  let! key := key_arg (arg 0 args) in
  let! index := int_arg (arg 1 args) in
  let! target := read_list key in
  ret (match target with None => RNone | Some l => opt_text (lv_get index l) end).

Definition lset (args : list PyArg) : SM Reply :=
  let! key := key_arg (arg 0 args) in
  let! index := int_arg (arg 1 args) in
  let! value := str_arg (arg 2 args) in
  let! target := read_list key in
  match target with
  | None => raise (invalid "no such key")
  | Some l =>
      let '(done_, l') := lv_set index value l in
      mutate key (VList l');;
      if negb done_ then raise (invalid "index out of range")
      else propagate [AStr (lit "LSET"); AStr key; AInt index; AStr value];; ret OK
  end.

Definition ltrim (args : list PyArg) : SM Reply :=
  let! key := key_arg (arg 0 args) in
  let! start := int_arg (arg 1 args) in
  let! stop := int_arg (arg 2 args) in
  let! target := read_list key in
  match target with
  | None => ret OK
  | Some l =>
      let l' := lv_trim start stop l in
      mutate key (VList l');;
      (if lv_len l' =? lv_len l then ret tt
       else propagate [AStr (lit "LTRIM"); AStr key; AInt start; AInt stop]);;
      ret OK
  end.

Definition lrem (args : list PyArg) : SM Reply :=
  let! key := key_arg (arg 0 args) in
  let! count := int_arg (arg 1 args) in
  let! value := str_arg (arg 2 args) in
  let! target := read_list key in
  match target with
  | None => ret (RInt 0)
  | Some l =>
      let '(removed, l') := lv_remove count value l in
      mutate key (VList l');;
      (if removed =? 0 then ret tt
       else propagate [AStr (lit "LREM"); AStr key; AInt count; AStr value]);;
      ret (RInt removed)
  end.

(** *** The table of this module *)
Definition list_commands : list (CommandSpec P D E) :=
  [command "LPUSH" 2 None [WRITE; DENYOOM] (Some SINGLE_KEY) lpush;
   command "RPUSH" 2 None [WRITE; DENYOOM] (Some SINGLE_KEY) rpush;
   command "LPOP" 1 (Some 2%nat) [WRITE] (Some SINGLE_KEY) lpop;
   command "RPOP" 1 (Some 2%nat) [WRITE] (Some SINGLE_KEY) rpop;
   command "LLEN" 1 (Some 1%nat) [] (Some SINGLE_KEY) llen;
   command "LRANGE" 3 (Some 3%nat) [] (Some SINGLE_KEY) lrange;
   command "LINDEX" 2 (Some 2%nat) [] (Some SINGLE_KEY) lindex;
   command "LSET" 3 (Some 3%nat) [WRITE; DENYOOM] (Some SINGLE_KEY) lset;
   command "LTRIM" 3 (Some 3%nat) [WRITE] (Some SINGLE_KEY) ltrim;
   command "LREM" 3 (Some 3%nat) [WRITE] (Some SINGLE_KEY) lrem].
End Lists.

(** * Hash commands (engine/commands/hashes.py) *)

Section Hashes.
Context `{Sizing} {P : Type} `{EvictionPolicy P} {D E : Type} `{Hooks D E} `{CommandContext P D E}.
Abbreviation SM := (M exn (World P D E)).

(** [sum(target.set(field, value) for field, value in pairs)]. *)
Fixpoint set_fields (pairs : list (pystr * pystr)) (h : HashValue) : Z * HashValue :=
  match pairs with
  | [] => (0, h)
  | (field, value) :: rest =>
      let '(added, h1) := hv_set field value h in
      let '(n, h2) := set_fields rest h1 in
      ((if added then 1 else 0) + n, h2)
  end.

Definition hset (args : list PyArg) : SM Reply :=
  if Nat.even (length args) then raise (wrong_arity (lit "HSET"))
  else
    let! key := key_arg (arg 0 args) in
    let! pairs := pairs_of str_arg str_arg (drop 1 args) in
    let! target := target_hash key in
    let '(added, target) := set_fields pairs target in
    mutate key (VHash target);;
    propagate (AStr (lit "HSET") :: args);;
    ret (RInt added).

Definition hsetnx (args : list PyArg) : SM Reply :=
  let! key := key_arg (arg 0 args) in
  let! field := str_arg (arg 1 args) in
  let! value := str_arg (arg 2 args) in
  let! existing := read_hash key in
  if match existing with Some h => hv_contains field h | None => false end then ret (RInt 0)
  else
    let! target := target_hash key in
    mutate key (VHash (hv_set field value target).2);;
    propagate [AStr (lit "HSET"); AStr key; AStr field; AStr value];;
    ret (RInt 1).

Definition hget (args : list PyArg) : SM Reply :=
  let! key := key_arg (arg 0 args) in
  let! target := read_hash key in
  match target with
  | None => ret RNone
  | Some h => let! field := str_arg (arg 1 args) in ret (opt_text (hv_get field h))
  end.

Definition hmget (args : list PyArg) : SM Reply :=
  let! key := key_arg (arg 0 args) in
  let! target := read_hash key in
  let! fields := mapM_list str_arg (drop 1 args) in
  ret (RArray ((fun field => match target with
                             | None => RNone
                             | Some h => opt_text (hv_get field h)
                             end) <$> fields)).

Definition hdel (args : list PyArg) : SM Reply :=
  let! key := key_arg (arg 0 args) in
  let! fields := mapM_list str_arg (drop 1 args) in
  let! target := read_hash key in
  match target with
  | None => ret (RInt 0)
  | Some h =>
      let '(removed, h') := select hv_delete fields h in
      mutate key (VHash h');;
      (match removed with
       | [] => ret tt
       | _ => propagate ([AStr (lit "HDEL"); AStr key] ++ (AStr <$> removed))
       end);;
      ret (RInt (Z.of_nat (length removed)))
  end.

(** [target.items()], or nothing for a missing key. *)
Definition hash_items (args : list PyArg) : SM (list (pystr * pystr)) :=
  let! key := key_arg (arg 0 args) in
  let! target := read_hash key in
  ret (match target with None => [] | Some h => hv_fields h end).

Definition hgetall (args : list PyArg) : SM Reply :=
  let! items := hash_items args in ret (texts (items ≫= fun '(f, v) => [f; v])).

Definition hkeys (args : list PyArg) : SM Reply :=
  let! items := hash_items args in ret (texts items.*1).

Definition hvals (args : list PyArg) : SM Reply :=
  let! items := hash_items args in ret (texts items.*2).

Definition hlen (args : list PyArg) : SM Reply :=
  let! key := key_arg (arg 0 args) in
  let! target := read_hash key in
  ret (RInt (match target with None => 0 | Some h => hv_len h end)).

Definition hexists (args : list PyArg) : SM Reply :=
  let! key := key_arg (arg 0 args) in
  let! target := read_hash key in
  match target with
  | None => ret (RInt 0)
  | Some h => let! field := str_arg (arg 1 args) in ret (bool_int (hv_contains field h))
  end.

Definition hincrby (args : list PyArg) : SM Reply :=
  let! key := key_arg (arg 0 args) in
  let! field := str_arg (arg 1 args) in
  let! delta := int_arg (arg 2 args) in
  let! existing := read_hash key in
  let current := match existing with Some h => hv_get field h | None => None end in
  let! number := match current with
                 | None => ret 0
                 | Some text => match py_int text with
                                | Some n => ret n
                                | None => raise (invalid "hash value is not an integer")
                                end
                 end in
  let! result := check_int64 (number + delta) in
  let! target := target_hash key in
  mutate key (VHash (hv_set field (str_of_int result) target).2);;
  propagate [AStr (lit "HINCRBY"); AStr key; AStr field; AInt delta];;
  ret (RInt result).

(** *** The table of this module *)
Definition hash_commands : list (CommandSpec P D E) :=
  [command "HSET" 3 None [WRITE; DENYOOM] (Some SINGLE_KEY) hset;
   command "HSETNX" 3 (Some 3%nat) [WRITE; DENYOOM] (Some SINGLE_KEY) hsetnx;
   command "HGET" 2 (Some 2%nat) [] (Some SINGLE_KEY) hget;
   command "HMGET" 2 None [] (Some SINGLE_KEY) hmget;
   command "HDEL" 2 None [WRITE] (Some SINGLE_KEY) hdel;
   command "HGETALL" 1 (Some 1%nat) [] (Some SINGLE_KEY) hgetall;
   command "HKEYS" 1 (Some 1%nat) [] (Some SINGLE_KEY) hkeys;
   command "HVALS" 1 (Some 1%nat) [] (Some SINGLE_KEY) hvals;
   command "HLEN" 1 (Some 1%nat) [] (Some SINGLE_KEY) hlen;
   command "HEXISTS" 2 (Some 2%nat) [] (Some SINGLE_KEY) hexists;
   command "HINCRBY" 3 (Some 3%nat) [WRITE; DENYOOM] (Some SINGLE_KEY) hincrby].
End Hashes.

(** * Set commands (engine/commands/sets.py) *)

(** ** Python sets as lists without repetition

    [list(set(...))] gives the elements in an order Python does not specify;
    the definitions below fix one. *)
Definition py_union (l : list (list pystr)) : list pystr := remove_dups (mjoin l).
Definition py_intersection (first : list pystr) (rest : list (list pystr)) : list pystr :=
  filter (fun m => Forall (fun s => m ∈ s) rest) first.
Definition py_difference (first : list pystr) (rest : list (list pystr)) : list pystr :=
  filter (fun m => Forall (fun s => m ∉ s) rest) first.

(** [sorted(sets, key=len)], a stable sort. *)
Fixpoint insert_by_len (s : list pystr) (l : list (list pystr)) : list (list pystr) :=
  match l with
  | [] => [s]
  | t :: l' => if (length t <? length s)%nat then t :: insert_by_len s l' else s :: l
  end.
Definition sort_by_len (l : list (list pystr)) : list (list pystr) := foldr insert_by_len [] l.

Section Sets.
Context `{Sizing} {P : Type} `{EvictionPolicy P} {D E : Type} `{Hooks D E} `{CommandContext P D E}.
Abbreviation SM := (M exn (World P D E)).

Definition sadd (args : list PyArg) : SM Reply :=
  let! key := key_arg (arg 0 args) in
  let! members := mapM_list str_arg (drop 1 args) in
  let! target := target_set key in
  let '(added, target) := select sv_add members target in
  mutate key (VSet target);;
  (match added with
   | [] => ret tt
   | _ => propagate ([AStr (lit "SADD"); AStr key] ++ (AStr <$> added))
   end);;
  ret (RInt (Z.of_nat (length added))).

Definition srem (args : list PyArg) : SM Reply :=
  let! key := key_arg (arg 0 args) in
  let! members := mapM_list str_arg (drop 1 args) in
  let! target := read_set key in
  match target with
  | None => ret (RInt 0)
  | Some target =>
      let '(removed, target) := select sv_remove members target in
      mutate key (VSet target);;
      (match removed with
       | [] => ret tt
       | _ => propagate ([AStr (lit "SREM"); AStr key] ++ (AStr <$> removed))
       end);;
      ret (RInt (Z.of_nat (length removed)))
  end.

Definition smembers (args : list PyArg) : SM Reply :=
  let! key := key_arg (arg 0 args) in
  let! target := read_set key in
  ret (texts (match target with None => [] | Some s => sv_iter s end)).

Definition sismember (args : list PyArg) : SM Reply :=
  let! key := key_arg (arg 0 args) in
  let! target := read_set key in
  match target with
  | None => ret (RInt 0)
  | Some s => let! m := str_arg (arg 1 args) in ret (bool_int (sv_contains m s))
  end.

Definition scard (args : list PyArg) : SM Reply :=
  let! key := key_arg (arg 0 args) in
  let! target := read_set key in
  ret (RInt (match target with None => 0 | Some s => sv_len s end)).

Definition count_arg (args : list PyArg) : SM (option Z) :=
  match args with
  | _ :: c :: _ => let! n := int_arg c in ret (Some n)
  | _ => ret None
  end.

Definition missing (count : option Z) : Reply :=
  match count with None => RNone | Some _ => RArray [] end.

Definition spop (args : list PyArg) : SM Reply :=
  let! key := key_arg (arg 0 args) in
  let! count := count_arg args in
  if match count with Some n => n <? 0 | None => false end
  then raise (invalid "value is out of range, must be positive")
  else
    let! target := read_set key in
    match target with
    | None => ret (missing count)
    | Some s =>
        let! popped := ask (sv_sample (Z.to_nat (default 1 count)) s) in
        mutate key (VSet (select sv_remove popped s).2);;
        (match popped with
         | [] => ret tt
         | _ => propagate ([AStr (lit "SREM"); AStr key] ++ (AStr <$> popped))
         end);;
        ret (match count with
             | None => opt_text (head popped)
             | Some _ => texts popped
             end)
    end.

(** [rng.choice(members)]; no members is an IndexError. *)
Definition choose (members : list pystr) : SM Reply :=
  let! m := ask (choice members) in
  match m with
  | Some m => ret (RText m)
  | None => raise (err IndexError "Cannot choose from an empty sequence")
  end.

Definition srandmember (args : list PyArg) : SM Reply :=
  let! key := key_arg (arg 0 args) in
  let! count := count_arg args in
  let! target := read_set key in
  match target with
  | None => ret (missing count)
  | Some s =>
      match count with
      | None =>
          let! l := ask (sv_sample 1 s) in
          match l with
          | m :: _ => ret (RText m)
          | [] => raise (err IndexError "list index out of range")
          end
      | Some n =>
          if 0 <=? n then let! l := ask (sv_sample (Z.to_nat n) s) in ret (texts l)
          else
            let! l := mapM_list (fun _ => choose (sv_iter s)) (replicate (Z.to_nat (- n)) tt) in
            ret (RArray l)
      end
  end.

(** *** Set algebra *)
Definition read_sets (args : list PyArg) : SM (list (list pystr)) :=
  mapM_list (fun a =>
    let! key := key_arg a in
    let! target := read_set key in
    ret (match target with None => [] | Some s => sv_iter s end)) args.

Definition sinter (args : list PyArg) : SM Reply :=
  let! sets := read_sets args in
  ret (texts (match sort_by_len sets with
              | [] => []
              | first :: rest => py_intersection first rest
              end)).

Definition sunion (args : list PyArg) : SM Reply :=
  let! sets := read_sets args in ret (texts (py_union sets)).

Definition sdiff (args : list PyArg) : SM Reply :=
  let! sets := read_sets args in
  ret (texts (match sets with [] => [] | first :: rest => py_difference first rest end)).

(** *** The table of this module *)
Definition set_commands : list (CommandSpec P D E) :=
  [command "SADD" 2 None [WRITE; DENYOOM] (Some SINGLE_KEY) sadd;
   command "SREM" 2 None [WRITE] (Some SINGLE_KEY) srem;
   command "SMEMBERS" 1 (Some 1%nat) [] (Some SINGLE_KEY) smembers;
   command "SISMEMBER" 2 (Some 2%nat) [] (Some SINGLE_KEY) sismember;
   command "SCARD" 1 (Some 1%nat) [] (Some SINGLE_KEY) scard;
   command "SPOP" 1 (Some 2%nat) [WRITE] (Some SINGLE_KEY) spop;
   command "SRANDMEMBER" 1 (Some 2%nat) [] (Some SINGLE_KEY) srandmember;
   command "SINTER" 1 None [] (Some ALL_KEYS) sinter;
   command "SUNION" 1 None [] (Some ALL_KEYS) sunion;
   command "SDIFF" 1 None [] (Some ALL_KEYS) sdiff].
End Sets.
