(* ===== verification/CmdZsets.v ===== *)
(** * Sorted set commands (engine/commands/zsets.py) *)

From Stdlib Require Import SpecFloat String.
From S2P Require Import Prelude PyStr PyFloat Errors Oracles Containers ZSet Eviction Store.
From S2P Require Import Registry CmdContainers.
Local Close Scope string_scope.

(** [_flatten]: the members, with their scores if asked. *)
Definition flatten (nodes : list (pystr * float)) (with_scores : bool) : list pystr :=
  if with_scores then nodes ≫= (fun '(m, s) => [m; format_float s]) else nodes.*1.

Section Zsets.
Context `{Sizing} {P : Type} `{EvictionPolicy P} {D E : Type} `{Hooks D E} `{CommandContext P D E}.
Abbreviation SM := (M exn (World P D E)).

(** *** ZADD *)
Definition ZADD_OPTIONS : list pystr :=
  [lit "NX"; lit "XX"; lit "GT"; lit "LT"; lit "CH"; lit "INCR"].

(** The options at the front, and the rest. *)
Fixpoint zadd_options (args : list PyArg) : list pystr * list PyArg :=
  match args with
  | a :: rest =>
      if bool_decide (upper a ∈ ZADD_OPTIONS)
      then let '(os, r) := zadd_options rest in (upper a :: os, r)
      else ([], args)
  | [] => ([], [])
  end.

Definition has (o : String.string) (options : list pystr) : bool := bool_decide (lit o ∈ options).
Definition one_if (b : bool) : nat := if b then 1%nat else 0%nat.

Record ZaddTotals := mkTotals {
  zt_added : Z; zt_changed : Z; zt_effects : list PyArg; zt_result : option float
}.

(** One pair: whether and how it changes the set. *)
Definition zadd_one (key : pystr) (options : list pystr) (score : float) (member : pystr)
    (z : SortedSet) (t : ZaddTotals) : SM (SortedSet * ZaddTotals) :=
  let old := zs_score member z in
  let incr := has "INCR" options in
  let store new added changed :=
    let! r := ask (zs_add member new z) in
    mutate key (VZset r.2);;
    ret (r.2, mkTotals (zt_added t + added) (zt_changed t + changed)
                (zt_effects t ++ [AStr (format_float new); AStr member]) (Some new)) in
  match old with
  | None =>
      if has "XX" options then ret (z, t)
      else if is_nan score then raise (invalid "resulting score is not a number (NaN)")
      else store score 1 0
  | Some old =>
      if has "NX" options then ret (z, t)
      else
        let new := if incr then fadd old score else score in
        if is_nan new then raise (invalid "resulting score is not a number (NaN)")
        else if (has "GT" options && fle new old) || (has "LT" options && fle old new) then ret (z, t)
        else if negb (feq new old) then store new 0 1
        else ret (z, mkTotals (zt_added t) (zt_changed t) (zt_effects t) (Some new))
  end.

Fixpoint zadd_loop (key : pystr) (options : list pystr) (pairs : list (float * pystr))
    (z : SortedSet) (t : ZaddTotals) : SM ZaddTotals :=
  match pairs with
  | [] => ret t
  | (score, member) :: rest =>
      let! r := zadd_one key options score member z t in
      zadd_loop key options rest r.1 r.2
  end.

Definition zadd (args : list PyArg) : SM Reply :=
  let! key := key_arg (arg 0 args) in
  let '(options, rest) := zadd_options (drop 1 args) in
  let incr := has "INCR" options in
  if bool_decide (rest = []) || Nat.odd (length rest) then raise syntax_error
  else if has "NX" options && has "XX" options
  then raise (invalid "XX and NX options at the same time are not compatible")
  else if (1 <? one_if (has "GT" options) + one_if (has "LT" options) + one_if (has "NX" options))%nat
  then raise (invalid "GT, LT, and/or NX options at the same time are not compatible")
  else if incr && negb (length rest =? 2)%nat
  then raise (invalid "INCR option supports a single increment-element pair")
  else
    let! pairs := pairs_of float_arg str_arg rest in
    let! existing := read_zset key in
    if negb (found existing) && has "XX" options then ret (if incr then RNone else RInt 0)
    else
      let! target := match existing with Some z => ret z | None => target_zset key end in
      let! t := zadd_loop key options pairs target (mkTotals 0 0 [] None) in
      (match zt_effects t with
       | [] => ret tt
       | effects => propagate ([AStr (lit "ZADD"); AStr key] ++ effects)
       end);;
      ret (if incr then opt_text (format_float <$> zt_result t)
           else RInt (if has "CH" options then zt_added t + zt_changed t else zt_added t)).

Definition zincrby (args : list PyArg) : SM Reply :=
  let! key := key_arg (arg 0 args) in
  let! delta := float_arg (arg 1 args) in
  let! member := str_arg (arg 2 args) in
  read_zset key;;
  let! target := target_zset key in
  let! r := ask (zs_incr member delta target) in
  match r with
  | (None, _) => raise (invalid "resulting score is not a number (NaN)")
  | (Some score, z) =>
      mutate key (VZset z);;
      propagate [AStr (lit "ZADD"); AStr key; AStr (format_float score); AStr member];;
      ret (RText (format_float score))
  end.

Definition zrem (args : list PyArg) : SM Reply :=
  let! key := key_arg (arg 0 args) in
  let! members := mapM_list str_arg (drop 1 args) in
  let! target := read_zset key in
  match target with
  | None => ret (RInt 0)
  | Some z =>
      let '(removed, z') := select zs_remove members z in
      mutate key (VZset z');;
      (match removed with
       | [] => ret tt
       | _ => propagate ([AStr (lit "ZREM"); AStr key] ++ (AStr <$> removed))
       end);;
      ret (RInt (Z.of_nat (length removed)))
  end.

(** *** Reads *)
Definition zscore (args : list PyArg) : SM Reply :=
  let! key := key_arg (arg 0 args) in
  let! target := read_zset key in
  match target with
  | None => ret RNone
  | Some z => let! m := str_arg (arg 1 args) in ret (opt_text (format_float <$> zs_score m z))
  end.

Definition zcard (args : list PyArg) : SM Reply :=
  let! key := key_arg (arg 0 args) in
  let! target := read_zset key in
  ret (RInt (match target with None => 0 | Some z => zs_len z end)).

Definition zcount (args : list PyArg) : SM Reply :=
  let! lo := score_bound (arg 1 args) in
  let! hi := score_bound (arg 2 args) in
  let! key := key_arg (arg 0 args) in
  let! target := read_zset key in
  ret (RInt (match target with
             | None => 0
             | Some z => zs_count_in_range lo.1 hi.1 lo.2 hi.2 z
             end)).

Definition rank (reverse : bool) (args : list PyArg) : SM Reply :=
  let! key := key_arg (arg 0 args) in
  let! target := read_zset key in
  match target with
  | None => ret RNone
  | Some z =>
      let! m := str_arg (arg 1 args) in
      ret (match zs_rank m reverse z with Some n => RInt n | None => RNone end)
  end.

Definition zrank : list PyArg -> SM Reply := rank false.
Definition zrevrank : list PyArg -> SM Reply := rank true.

(** *** Ranges *)
Definition range (key : pystr) (start stop : PyArg) (by_score reverse : bool)
    (limit : option (Z * Z)) (with_scores : bool) : SM Reply :=
  if by_score then
    let! lo := score_bound (if reverse then stop else start) in
    let! hi := score_bound (if reverse then start else stop) in
    let '(offset, count) := default (0, -1) limit in
    if offset <? 0 then ret (texts [])
    else
      let! target := read_zset key in
      ret (texts (match target with
                  | None => []
                  | Some z => flatten (zs_range_by_score lo.1 hi.1 lo.2 hi.2 reverse offset count z)
                                with_scores
                  end))
  else if found limit then raise syntax_error
  else
    let! start_i := int_arg start in
    let! stop_i := int_arg stop in
    let! target := read_zset key in
    ret (texts (match target with
                | None => []
                | Some z => flatten (zs_range_by_rank start_i stop_i reverse z) with_scores
                end)).

Record RangeOptions := mkRangeOptions {
  ro_by_score : bool; ro_reverse : bool; ro_limit : option (Z * Z); ro_with_scores : bool
}.

Fixpoint parse_range_options (args : list PyArg) (o : RangeOptions) : SM RangeOptions :=
  match args with
  | [] => ret o
  | a :: rest =>
      if bool_decide (upper a = lit "BYSCORE") then
        parse_range_options rest (mkRangeOptions true (ro_reverse o) (ro_limit o) (ro_with_scores o))
      else if bool_decide (upper a = lit "REV") then
        parse_range_options rest (mkRangeOptions (ro_by_score o) true (ro_limit o) (ro_with_scores o))
      else if bool_decide (upper a = lit "WITHSCORES") then
        parse_range_options rest (mkRangeOptions (ro_by_score o) (ro_reverse o) (ro_limit o) true)
      else if bool_decide (upper a = lit "LIMIT") then
        match rest with
        | x :: y :: rest' =>
            let! offset := int_arg x in
            let! count := int_arg y in
            parse_range_options rest'
              (mkRangeOptions (ro_by_score o) (ro_reverse o) (Some (offset, count)) (ro_with_scores o))
        | _ => raise syntax_error
        end
      else raise syntax_error
  end.

Definition range_options (args : list PyArg) : SM RangeOptions :=
  parse_range_options (drop 3 args) (mkRangeOptions false false None false).

Definition zrange (args : list PyArg) : SM Reply :=
  let! o := range_options args in
  let! key := key_arg (arg 0 args) in
  range key (arg 1 args) (arg 2 args) (ro_by_score o) (ro_reverse o) (ro_limit o) (ro_with_scores o).

Definition zrevrange (args : list PyArg) : SM Reply :=
  let! o := range_options args in
  let! key := key_arg (arg 0 args) in
  range key (arg 1 args) (arg 2 args) false true None (ro_with_scores o).

Definition range_by_score (reverse : bool) (args : list PyArg) : SM Reply :=
  let! o := range_options args in
  if ro_by_score o || ro_reverse o then raise syntax_error
  else
    let! key := key_arg (arg 0 args) in
    range key (arg 1 args) (arg 2 args) true reverse (ro_limit o) (ro_with_scores o).

Definition zrangebyscore : list PyArg -> SM Reply := range_by_score false.
Definition zrevrangebyscore : list PyArg -> SM Reply := range_by_score true.

(** *** Pops *)
Definition zpop (from_max : bool) (args : list PyArg) : SM Reply :=
  let! key := key_arg (arg 0 args) in
  let! count := match args with _ :: c :: _ => int_arg c | _ => ret 1 end in
  if count <? 0 then raise (invalid "value is out of range, must be positive")
  else
    let! target := read_zset key in
    match target with
    | None => ret (texts [])
    | Some z =>
        let '(popped, z') := zs_pop count from_max z in
        mutate key (VZset z');;
        (match popped with
         | [] => ret tt
         | _ => propagate ([AStr (lit "ZREM"); AStr key] ++ (AStr <$> popped.*1))
         end);;
        ret (texts (flatten popped true))
    end.

Definition zpopmin : list PyArg -> SM Reply := zpop false.
Definition zpopmax : list PyArg -> SM Reply := zpop true.

(** *** The table of this module *)
Definition zset_commands : list (CommandSpec P D E) :=
  [command "ZADD" 3 None [WRITE; DENYOOM] (Some SINGLE_KEY) zadd;
   command "ZINCRBY" 3 (Some 3%nat) [WRITE; DENYOOM] (Some SINGLE_KEY) zincrby;
   command "ZREM" 2 None [WRITE] (Some SINGLE_KEY) zrem;
   command "ZSCORE" 2 (Some 2%nat) [] (Some SINGLE_KEY) zscore;
   command "ZCARD" 1 (Some 1%nat) [] (Some SINGLE_KEY) zcard;
   command "ZCOUNT" 3 (Some 3%nat) [] (Some SINGLE_KEY) zcount;
   command "ZRANK" 2 (Some 2%nat) [] (Some SINGLE_KEY) zrank;
   command "ZREVRANK" 2 (Some 2%nat) [] (Some SINGLE_KEY) zrevrank;
   command "ZRANGE" 3 None [] (Some SINGLE_KEY) zrange;
   command "ZREVRANGE" 3 (Some 4%nat) [] (Some SINGLE_KEY) zrevrange;
   command "ZRANGEBYSCORE" 3 None [] (Some SINGLE_KEY) zrangebyscore;
   command "ZREVRANGEBYSCORE" 3 None [] (Some SINGLE_KEY) zrevrangebyscore;
   command "ZPOPMIN" 1 (Some 2%nat) [WRITE] (Some SINGLE_KEY) zpopmin;
   command "ZPOPMAX" 1 (Some 2%nat) [WRITE] (Some SINGLE_KEY) zpopmax].
End Zsets.
