(* ===== verification/CmdServer.v ===== *)
(** * Connection and server commands (engine/commands/server.py), and the whole
      command table (engine/commands/__init__.py) *)

From Stdlib Require Import String.
From S2P Require Import Prelude PyStr PyFloat PyFnmatch Errors Oracles Containers Eviction Store Registry.
From S2P Require Import CmdStrings CmdKeys CmdContainers CmdZsets.
Local Close Scope string_scope.

(** [kvstore.__version__]. *)
Definition VERSION_TEXT : pystr := lit "0.6.0".

(** ["sep".join(l)]. *)
Fixpoint join (sep : pystr) (l : list pystr) : pystr :=
  match l with
  | [] => []
  | [x] => x
  | x :: l' => x ++ sep ++ join sep l'
  end.

(** [sorted(l)]. *)
Definition text_le (a b : pystr) : Prop := str_leb a b = true.
#[export] Instance text_le_dec : RelDecision text_le.
Proof. intros a b. unfold text_le. apply _. Defined.
Definition sort_texts (l : list pystr) : list pystr := merge_sort text_le l.

Definition info_value (v : InfoValue) : pystr :=
  match v with
  | IBool b => if b then lit "1" else lit "0"
  | INone => []
  | IText s => s
  end.

(** What COMMAND tells of a command. *)
Record CommandMeta := mkMeta {
  cm_name : pystr; cm_arity : Z; cm_flags : list Flag; cm_keys : option KeySpec
}.

Definition meta_of {P D E} (spec : CommandSpec P D E) : CommandMeta :=
  mkMeta (cs_name spec) (arity spec) (cs_flags spec) (cs_key_spec spec).

Definition command_info (m : CommandMeta) : Reply :=
  let '(first, last, step) :=
    match cm_keys m with
    | Some ks => (ks_first ks + 1, if ks_last ks <? 0 then ks_last ks else ks_last ks + 1, ks_step ks)
    | None => (0, 0, 0)
    end in
  RArray [RText (str_lower (cm_name m)); RInt (cm_arity m);
          RArray (RStatus <$> sort_texts (flag_name <$> cm_flags m));
          RInt first; RInt last; RInt step].

Section Server.
Context `{Sizing} {P : Type} `{EvictionPolicy P} {D E : Type} `{Hooks D E} `{CommandContext P D E}.
Abbreviation SM := (M exn (World P D E)).

Definition ping (args : list PyArg) : SM Reply :=
  ret (match args with a :: _ => RArg a | [] => PONG end).

Definition echo (args : list PyArg) : SM Reply := ret (RArg (arg 0 args)).

Definition time_cmd (args : list PyArg) : SM Reply :=
  let! now_us := readM (fun w => cx_time_ns (w_env w) / 1000) in
  ret (texts [str_of_int (now_us / 1000000); str_of_int (now_us mod 1000000)]).

Definition select_db (args : list PyArg) : SM Reply :=
  if bool_decide (str_of_arg (arg 0 args) = lit "0") then ret OK
  else raise (err CommandError "DB index is out of range").

Definition hello (args : list PyArg) : SM Reply :=
  if match args with a :: _ => negb (bool_decide (str_of_arg a = lit "2")) | [] => false end
  then raise (new_exn CommandError (lit "unsupported protocol version") (Some (lit "NOPROTO")))
  else ret (RArray [RText (lit "server"); RText (lit "kvstore"); RText (lit "version");
                    RText VERSION_TEXT; RText (lit "proto"); RInt 2; RText (lit "id"); RInt 1;
                    RText (lit "mode"); RText (lit "standalone"); RText (lit "role");
                    RText (lit "master"); RText (lit "modules"); RArray []]).

Definition unknown_subcommand (a : PyArg) : exn :=
  new_exn CommandError (lit "unknown subcommand '" ++ str_of_arg a ++ lit "'") None.

Definition client (args : list PyArg) : SM Reply :=
  let sub := upper (arg 0 args) in
  if bool_decide (sub = lit "SETINFO") || bool_decide (sub = lit "SETNAME") then ret OK
  else if bool_decide (sub = lit "GETNAME") then ret RNone
  else if bool_decide (sub = lit "ID") then ret (RInt 1)
  else raise (unknown_subcommand (arg 0 args)).

(** [table] is [COMMANDS]. *)
Definition find_meta (table : list CommandMeta) (name : pystr) : option CommandMeta :=
  find (fun m => bool_decide (cm_name m = name)) table.

Definition command_cmd (table : list CommandMeta) (args : list PyArg) : SM Reply :=
  let sub := match args with a :: _ => upper a | [] => [] end in
  let sorted := sort_texts (cm_name <$> table) in
  if bool_decide (sub = lit "COUNT") then ret (RInt (Z.of_nat (length table)))
  else if bool_decide (sub = lit "DOCS") then ret (RArray [])
  else if bool_decide (sub = lit "LIST") then ret (texts (str_lower <$> sorted))
  else if negb (bool_decide (sub = []) || bool_decide (sub = lit "INFO"))
  then raise (unknown_subcommand (arg 0 args))
  else
    let names := if bool_decide (sub = lit "INFO")
                 then (fun a => str_upper (str_of_arg a)) <$> drop 1 args else sorted in
    ret (RArray ((fun name => match find_meta table name with
                              | Some m => command_info m
                              | None => RNone
                              end) <$> names)).

Definition config (args : list PyArg) : SM Reply :=
  let sub := upper (arg 0 args) in
  if bool_decide (sub = lit "GET") && (2 <=? length args)%nat then
    let! values := readM cx_config_values in
    let patterns := (fun p => str_lower (str_of_arg p)) <$> drop 1 args in
    ret (texts (filter (fun '(name, _) => existsb (fnmatchcase name) patterns = true) values
                ≫= fun '(name, value) => [name; value]))
  else if bool_decide (sub = lit "RESETSTAT") then ret OK
  else raise (new_exn CommandError
                (lit "unsupported CONFIG subcommand '" ++ str_of_arg (arg 0 args) ++
                 lit "' (settings come from KV_* env)") None).

Definition ALL_SECTIONS : list pystr := [lit "all"; lit "everything"; lit "default"].

Definition info (args : list PyArg) : SM Reply :=
  let! sections := readM cx_info_sections in
  let wanted := filter (fun s => s ∉ ALL_SECTIONS) ((fun a => str_lower (str_of_arg a)) <$> args) in
  let shown := filter (fun '(name, _) => wanted = [] \/ name ∈ wanted) sections in
  let lines := shown ≫= fun '(name, fields) =>
    (lit "# " ++ capitalize name) ::
    ((fun '(field, value) => field ++ lit ":" ++ info_value value) <$> fields) ++ [[]] in
  ret (RText (join [13; 10] lines)).

Definition save (args : list PyArg) : SM Reply := cx_save;; ret OK.

Definition bgsave (args : list PyArg) : SM Reply :=
  if match args with a :: _ => negb (bool_decide (upper a = lit "SCHEDULE")) | [] => false end
  then raise syntax_error
  else cx_start_rewrite;; ret (RStatus (lit "Background saving started")).

Definition bgrewriteaof (args : list PyArg) : SM Reply :=
  cx_start_rewrite;; ret (RStatus (lit "Background append only file rewriting started")).

Definition lastsave (args : list PyArg) : SM Reply :=
  let! n := readM (fun w => cx_last_save_time (w_env w)) in ret (RInt n).

Definition server_commands (table : list CommandMeta) : list (CommandSpec P D E) :=
  [command "PING" 0 (Some 1%nat) [STATELESS] None ping;
   command "ECHO" 1 (Some 1%nat) [STATELESS] None echo;
   command "TIME" 0 (Some 0%nat) [STATELESS] None time_cmd;
   command "SELECT" 1 (Some 1%nat) [STATELESS] None select_db;
   command "HELLO" 0 None [STATELESS] None hello;
   command "CLIENT" 1 None [STATELESS] None client;
   command "COMMAND" 0 None [STATELESS] None (command_cmd table);
   command "CONFIG" 1 None [ADMIN] None config;
   command "INFO" 0 None [] None info;
   command "SAVE" 0 (Some 0%nat) [ADMIN] None save;
   command "BGSAVE" 0 (Some 1%nat) [ADMIN] None bgsave;
   command "BGREWRITEAOF" 0 (Some 0%nat) [ADMIN] None bgrewriteaof;
   command "LASTSAVE" 0 (Some 0%nat) [] None lastsave].

(** ** [COMMANDS]

    In the order the package imports its modules.  The table COMMAND reports is
    the one it is part of: its descriptions do not depend on the handlers. *)
Definition commands_with (table : list CommandMeta) : list (CommandSpec P D E) :=
  hash_commands ++ key_commands ++ list_commands ++ server_commands table ++ set_commands ++
  string_commands ++ zset_commands.

Definition command_table : list CommandMeta := meta_of <$> commands_with [].

Definition COMMANDS : list (CommandSpec P D E) := commands_with command_table.

(** [COMMANDS.get(name)]. *)
Definition find_command (name : pystr) : option (CommandSpec P D E) :=
  find (fun spec => bool_decide (cs_name spec = name)) COMMANDS.
End Server.
