(* ===== verification/CmdInv.v ===== *)
(** * Command handlers keep the invariants of the keyspace

    A write leaves unaccounted only the keys its description names, which the
    engine then refreshes; a read leaves nothing unaccounted.  The snapshot
    that may be running is an existential: SAVE and its kin start a new one.
    Handlers also carry along every rider the log's callback keeps. *)

From Stdlib Require Import SpecFloat String.
From S2P Require Import Prelude PyStr PyFloat Errors Codec Oracles KeySet Containers.
From S2P Require Import SkipList SkipListProofs SkipListQuery ZSet Eviction Store Frames StoreInv StoreOps.
From S2P Require Import Snapshot Registry CmdContainers CmdStrings CmdKeys CmdZsets CmdServer.
Local Close Scope string_scope.

(** ** Facts about containers the handlers use *)
Section Containers.
Context `{Sizing}.

Lemma lv_trim_wf start stop l : lv_wf (lv_trim start stop l).
Proof. apply lv_new_wf. Qed.

Lemma lv_pop_wf count left l : lv_wf l -> lv_wf (lv_pop count left l).2.
Proof.
  intros Hl. unfold lv_pop.
  assert (Hn : (Z.to_nat (Z.min count (lv_len l)) <= length (lv_items l))%nat) by (unfold lv_len; lia).
  destruct left; [apply (lv_pop_n_left _ l Hl Hn) | apply (lv_pop_n_right _ l Hl Hn)].
Qed.

Lemma lv_remove_wf count v l : lv_wf l -> lv_wf (lv_remove count v l).2.
Proof. intros Hl. apply (lv_remove_spec count v l Hl). Qed.

Lemma set_fields_wf pairs h : hv_wf h -> hv_wf (set_fields pairs h).2.
Proof.
  revert h. induction pairs as [|[f v] pairs IH]; intros h Hh; simpl; [done|].
  pose proof (hv_set_wf f v h Hh) as H1. destruct (hv_set f v h) as [b h1]. specialize (IH h1 H1).
  by destruct (set_fields pairs h1).
Qed.

Lemma zs_pop_wf count from_max z : zs_wf z -> zs_wf (zs_pop count from_max z).2.
Proof. intros Hz. by apply zs_pop_n_spec. Qed.

Lemma select_hv_delete_wf l h : hv_wf h -> hv_wf (select hv_delete l h).2.
Proof. apply select_wf. intros. by apply hv_delete_wf. Qed.
Lemma select_sv_add_wf l s : sv_wf s -> sv_wf (select sv_add l s).2.
Proof. apply select_wf. intros. by apply sv_add_wf. Qed.
Lemma select_sv_remove_wf l s : sv_wf s -> sv_wf (select sv_remove l s).2.
Proof. apply select_wf. intros. by apply sv_remove_wf. Qed.
Lemma select_zs_remove_wf l z : zs_wf z -> zs_wf (select zs_remove l z).2.
Proof. apply select_wf. intros. by apply zs_remove_wf. Qed.

(** A payload without NaN scores rebuilds a well-formed value. *)
Definition nan_free (p : Payload) : Prop :=
  match p with RZset items => Forall (fun p => is_nan p.2 = false) items | _ => True end.

Lemma value_of_wf p o :
  nan_free p -> oracles_ok o -> value_wf (value_of p o).1 /\ same_source o (value_of p o).2.
Proof.
  intros Hp Ho. destruct p as [s|items|items|items|items]; simpl in *; try done.
  - split; [apply lv_new_wf|done].
  - split; [apply hash_of_wf|done].
  - split; [apply set_of_wf|done].
  - pose proof (zset_of_wf items o Hp Ho). by destruct (zset_of items o).
Qed.
End Containers.

(** ** What a handler relies on

    [StoreAccess I dirty]: every step a handler takes keeps [I], provided the
    keys it writes are among [dirty]; what it reads is well-formed. *)
Class StoreAccess {P D E : Type} `{Sizing} `{EvictionPolicy P} `{Hooks D E} `{CommandContext P D E}
    (I : World P D E -> Prop) (dirty : list pystr) : Prop := {
  sa_propagate args : yields I (propagate args) (fun _ => True);
  sa_ask {A} (f : Oracles -> A * Oracles) (Q : A -> Prop) :
    (forall o, oracles_ok o -> same_source o (f o).2 /\ Q (f o).1) -> yields I (ask f) Q;
  sa_peek k : yields I (peek k) (fun _ => True);
  sa_get k : yields I (get k) (fun _ => True);
  sa_read_str k : yields I (Store.read_str k) (fun _ => True);
  sa_read k kd : yields I (Store.read k kd) (fun o => forall v, o = Some v -> has_kind kd v = true /\ value_wf v);
  sa_delete k : yields I (delete k) (fun _ => True);
  sa_record k : yields I (Store.record k) (fun _ => True);
  sa_iter_keys : yields I iter_keys (fun _ => True);
  sa_clear : yields I clear (fun _ => True);
  sa_write_target k kd :
    k ∈ dirty -> yields I (write_target k kd) (fun v => has_kind kd v = true /\ value_wf v);
  sa_set k v keep : value_wf v -> k ∈ dirty -> yields I (Store.set k v keep) (fun _ => True);
  sa_set_expiry k t : k ∈ dirty -> yields I (set_expiry k t) (fun _ => True);
  sa_persist k : k ∈ dirty -> yields I (persist k) (fun _ => True);
  sa_mutate k v : k ∈ dirty -> value_wf v -> yields I (mutate k v) (fun _ => True)
}.

Section Access.
Context `{Sizing} {P : Type} `{EvictionPolicy P} {D E : Type} `{Hooks D E} `{CommandContext P D E}.
Abbreviation W := (World P D E).
Abbreviation SM := (M exn W).
Context (I : W -> Prop) (dirty : list pystr) `{!StoreAccess I dirty}.

(** *** Parsing does not touch the store *)
Definition pure_step {A} (c : SM A) : Prop := forall w, (c w).2 = w.

Lemma yields_pure {A} (c : SM A) Q :
  pure_step c -> (forall w a w', c w = (Ok a, w') -> Q a) -> yields I c Q.
Proof.
  intros Hp HQ w Hw. rewrite (Hp w). split; [done|]. intros a Ha.
  apply (HQ w a (c w).2). by rewrite <- Ha, <- surjective_pairing.
Qed.

Lemma key_arg_yields a : yields I (key_arg a) (fun k => a = AStr k).
Proof. destruct a; try apply yields_raise. by apply yields_ret. Qed.
Lemma str_arg_yields a : yields I (str_arg a) (fun _ => True).
Proof. destruct a; try apply yields_raise. by apply yields_ret. Qed.
Lemma int_arg_yields a : yields I (int_arg a) (fun z => in_int64 z = true).
Proof.
  apply yields_pure.
  - intros w. unfold int_arg. destruct (int_value a) as [z|]; [|done]. by destruct (in_int64 z).
  - intros w z w' Hz. by destruct (int_arg_range _ _ _ _ Hz).
Qed.
Lemma float_arg_yields a : yields I (float_arg a) (fun f => is_nan f = false).
Proof.
  apply yields_pure.
  - intros w. unfold float_arg. destruct a; simpl; repeat case_match; done.
  - intros w f w' Hf. by destruct (float_arg_not_nan _ _ _ _ Hf).
Qed.
Lemma score_bound_yields a : yields I (score_bound a) (fun p => is_nan p.1 = false).
Proof.
  apply yields_pure.
  - intros w. unfold score_bound. repeat case_match; done.
  - intros w [f b] w' Hf. by destruct (score_bound_not_nan _ _ _ _ _ Hf).
Qed.
Lemma check_int64_yields z : yields I (check_int64 z) (fun z => in_int64 z = true).
Proof. unfold check_int64. destruct (in_int64 z) eqn:?; [by apply yields_ret | apply yields_raise]. Qed.
Lemma to_ms_yields f : yields I (to_ms f) (fun _ => True).
Proof. unfold to_ms. case_match; [by apply yields_ret | apply yields_raise]. Qed.
Lemma byte_length_yields v : yields I (byte_length v) (fun _ => True).
Proof. unfold byte_length. case_match; [by apply yields_ret | apply yields_raise]. Qed.
Lemma lift_yields {A} (r : result exn A) : yields I (lift r) (fun _ => True).
Proof. destruct r; [by apply yields_ret | apply yields_raise]. Qed.
Lemma readM_yields {A} (f : W -> A) : yields I (readM f : SM A) (fun _ => True).
Proof. apply yields_keeps, keeps_read. Qed.
Lemma gets_yields {A} (f : Store P D -> A) : yields I (gets f) (fun _ => True).
Proof. apply readM_yields. Qed.
Lemma now_yields : yields I now (fun _ => True).
Proof. apply sa_ask. by intros o Ho. Qed.

(** *** Collections *)
Lemma read_as {A} k kd (f : Value -> A) (Q : A -> Prop) :
  (forall v, has_kind kd v = true -> value_wf v -> Q (f v)) ->
  yields I (let! v := Store.read k kd in ret (f <$> v)) (fun o => forall a, o = Some a -> Q a).
Proof.
  intros HQ. eapply yields_bind; [apply sa_read|]. intros [v|] Hv; apply yields_ret; [|done].
  intros a [= <-]. destruct (Hv v eq_refl). auto.
Qed.

Lemma target_as {A} k kd (f : Value -> A) (Q : A -> Prop) :
  k ∈ dirty -> (forall v, has_kind kd v = true -> value_wf v -> Q (f v)) ->
  yields I (let! v := write_target k kd in ret (f v)) Q.
Proof.
  intros Hk HQ. eapply yields_bind; [by apply sa_write_target|].
  intros v [? ?]. apply yields_ret. auto.
Qed.

Ltac kinds := let v := fresh in intros v; by destruct v.

Lemma read_list_yields k : yields I (read_list k) (fun o => forall l, o = Some l -> lv_wf l).
Proof. apply read_as. kinds. Qed.
Lemma read_hash_yields k : yields I (read_hash k) (fun o => forall h, o = Some h -> hv_wf h).
Proof. apply read_as. kinds. Qed.
Lemma read_set_yields k : yields I (read_set k) (fun o => forall s, o = Some s -> sv_wf s).
Proof. apply read_as. kinds. Qed.
Lemma read_zset_yields k : yields I (read_zset k) (fun o => forall z, o = Some z -> zs_wf z).
Proof. apply read_as. kinds. Qed.
Lemma target_list_yields k : k ∈ dirty -> yields I (target_list k) lv_wf.
Proof. intros. apply target_as; [done..|kinds]. Qed.
Lemma target_hash_yields k : k ∈ dirty -> yields I (target_hash k) hv_wf.
Proof. intros. apply target_as; [done..|kinds]. Qed.
Lemma target_set_yields k : k ∈ dirty -> yields I (target_set k) sv_wf.
Proof. intros. apply target_as; [done..|kinds]. Qed.
Lemma target_zset_yields k : k ∈ dirty -> yields I (target_zset k) zs_wf.
Proof. intros. apply target_as; [done..|kinds]. Qed.

(** *** Generators *)
Lemma sv_sample_yields n s : sv_wf s -> yields I (ask (sv_sample n s)) (fun _ => True).
Proof.
  intros Hs. apply sa_ask. intros o Ho. split; [|done].
  by apply (ks_sample_spec n (sv_members s) o (sv_members_wf s Hs) Ho).
Qed.

Lemma zs_add_yields m s z :
  zs_wf z -> is_nan s = false -> yields I (ask (zs_add m s z)) (fun r => zs_wf r.2).
Proof. intros Hz Hs. apply sa_ask. intros o _. split; [apply zs_add_source|by apply zs_add_wf]. Qed.

Lemma zs_incr_yields m d z : zs_wf z -> yields I (ask (zs_incr m d z)) (fun r => zs_wf r.2).
Proof.
  intros Hz. apply sa_ask. intros o _. split; [|by apply zs_incr_wf].
  unfold zs_incr. destruct (is_nan _); [done|]. pose proof (zs_add_source m (fadd (default fzero (zs_score m z)) d) z o).
  unfold zs_score in *. by destruct (zs_add _ _ _ _) as [[b z'] o'].
Qed.

Lemma choose_yields l : yields I (choose l) (fun _ => True).
Proof.
  eapply yields_bind; [apply (sa_ask _ (fun _ => True)); done|].
  intros [m|] _; [by apply yields_ret | apply yields_raise].
Qed.

Lemma load_record_yields r :
  nan_free (sr_payload r) -> sr_key r ∈ dirty -> yields I (load_record r) (fun _ => True).
Proof.
  intros Hn Hk. unfold load_record. eapply yields_bind.
  - apply (sa_ask _ value_wf). intros o Ho. destruct (value_of_wf (sr_payload r) o Hn Ho). done.
  - intros v Hv. eapply yields_bind; [by apply sa_set|intros _ _].
    destruct (sr_expires r); [|by apply yields_ret].
    eapply yields_bind; [by apply sa_set_expiry|intros _ _]. by apply yields_ret.
Qed.

(** ** Lists of arguments *)
Lemma mapM_str_yields l : yields I (mapM_list str_arg l) (fun _ => True).
Proof.
  eapply yields_weaken; [|done]. apply (yields_mapM _ _ (fun _ _ => True)). intros a _. apply str_arg_yields.
Qed.

Lemma mapM_key_yields l : yields I (mapM_list key_arg l) (fun ks => l = AStr <$> ks).
Proof.
  eapply yields_weaken; [apply (yields_mapM _ _ (fun a k => a = AStr k))|].
  - intros a _. apply key_arg_yields.
  - intros ks Hks. induction Hks as [|a k l ks -> _ IH]; [done|]. by rewrite IH.
Qed.

Lemma pairs_of_yields {A B} (f : PyArg -> SM A) (g : PyArg -> SM B) (Q : PyArg -> A -> Prop) l :
  (forall a, yields I (f a) (Q a)) -> (forall b, yields I (g b) (fun _ => True)) ->
  yields I (pairs_of f g l) (fun ps => forall p, p ∈ ps -> exists a, a ∈ every 2 0 l /\ Q a p.1).
Proof.
  intros Hf Hg. revert l. fix IH 1. intros [|a [|b l]]; simpl.
  - apply yields_ret. set_solver.
  - apply yields_ret. set_solver.
  - eapply yields_bind; [apply Hf|intros x Hx]. eapply yields_bind; [apply Hg|intros y _].
    eapply yields_bind; [apply IH|intros ps Hps]. apply yields_ret. intros p Hp.
    apply elem_of_cons in Hp as [->|Hp]; [exists a; split; [left|done]|].
    destruct (Hps p Hp) as (c & Hc & HQ). exists c. split; [by right|done].
Qed.

Lemma pairs_str_yields l : yields I (pairs_of str_arg str_arg l) (fun _ => True).
Proof.
  eapply yields_weaken; [apply (pairs_of_yields _ _ (fun _ _ => True)); intros; apply str_arg_yields|done].
Qed.

Lemma pairs_float_yields l :
  yields I (pairs_of float_arg str_arg l) (Forall (fun p => is_nan p.1 = false)).
Proof.
  eapply yields_weaken; [apply (pairs_of_yields _ _ (fun _ f => is_nan f = false))|].
  - intros. apply float_arg_yields.
  - intros. apply str_arg_yields.
  - intros ps Hps. apply Forall_forall. intros p Hp. by destruct (Hps p Hp) as (? & _ & ?).
Qed.

Lemma value_wf_str s : value_wf (VStr s).
Proof. done. Qed.
Lemma value_wf_list l : lv_wf l -> value_wf (VList l).
Proof. done. Qed.
Lemma value_wf_hash h : hv_wf h -> value_wf (VHash h).
Proof. done. Qed.
Lemma value_wf_set s : sv_wf s -> value_wf (VSet s).
Proof. done. Qed.
Lemma value_wf_zset z : zs_wf z -> value_wf (VZset z).
Proof. done. Qed.
End Access.

Create HintDb yields.
#[export] Hint Resolve key_arg_yields str_arg_yields int_arg_yields float_arg_yields score_bound_yields
  check_int64_yields to_ms_yields byte_length_yields lift_yields readM_yields now_yields gets_yields
  sa_propagate sa_peek sa_get sa_read_str sa_delete sa_record sa_iter_keys sa_clear sa_set_expiry
  sa_persist sa_set sa_mutate load_record_yields read_list_yields read_hash_yields read_set_yields
  read_zset_yields target_list_yields target_hash_yields
  target_set_yields target_zset_yields sv_sample_yields zs_add_yields zs_incr_yields choose_yields
  mapM_str_yields mapM_key_yields pairs_str_yields pairs_float_yields : yields.
#[export] Hint Resolve value_wf_str value_wf_list value_wf_hash value_wf_set value_wf_zset
  lv_push_left_wf lv_push_right_wf lv_new_wf lv_trim_wf lv_pop_wf lv_remove_wf lv_set_wf hv_set_wf
  set_fields_wf zs_pop_wf select_hv_delete_wf select_sv_add_wf select_sv_remove_wf
  select_zs_remove_wf : yields.

(** Steps through a handler: binds, branches and the leaves above. *)
Ltac yield_leaf :=
  first [solve [eauto 6 with yields] | eapply yields_weaken; [solve [eauto 6 with yields]|done]].
Ltac yield_step :=
  lazymatch goal with
  | |- yields _ (ret _) _ => apply yields_ret
  | |- yields _ (raise _) _ => apply yields_raise
  | |- yields _ (bindM (match _ with _ => _ end) _) _ =>
      apply (yields_bind _ _ _ (fun _ => True)); [|intros ? _]
  | |- yields _ (bindM _ _) _ => eapply yields_bind; [yield_leaf|let Ha := fresh "Ha" in intros ? Ha; cbv beta in Ha]
  | |- yields _ (match ?x with (_, _) => _ end) _ => rewrite (surjective_pairing x); cbn beta iota
  | |- yields _ (match ?x with _ => _ end) _ => destruct x eqn:?
  | |- yields _ _ _ => yield_leaf
  end.
Ltac yield := repeat yield_step; try exact I.

(** ** The keyspace's invariant is such an [I] *)

(** A rider that logging a command keeps. *)
Class LogRider {P D E : Type} `{CommandContext P D E} (R : Z -> option (option D) -> E -> Prop) := {
  rider_propagate args n o : keeps (R n o) (cx_propagate args)
}.

Section Inv.
Context `{Sizing} {P : Type} `{PolicyLaws P} {D E : Type} `{Hooks D E} `{CommandContext P D E}.
Abbreviation W := (World P D E).
Abbreviation SM := (M exn W).
Context (R : Z -> option (option D) -> E -> Prop).
Abbreviation rides := (Frames.rides (P := P) R).
Abbreviation same_epoch ep := (Frames.rides (P := P) (D := D) (E := E) (epoch_is ep)).
Context (G : Z -> Ghost -> Prop) (dirty : list pystr) (s0 : Store P D).

(** The invariant, for a snapshot that is known to satisfy [G] in this epoch,
    and the rider. *)
Definition cinv (w : W) : Prop :=
  (exists J, G (st_epoch (w_store w)) J /\ StoreInv.inv (J := J) dirty s0 w) /\ rides w.

Lemma yields_cinv {A} (c : SM A) (Q : A -> Prop) :
  (forall J, yields (StoreInv.inv (J := J) dirty s0) c Q) -> (forall ep, keeps (same_epoch ep) c) ->
  keeps rides c -> yields cinv c Q.
Proof.
  intros Hc He Hr w [(J & HG & Hw) Hx]. destruct (Hc J w Hw). split; [|done].
  split; [|by apply Hr]. exists J. split; [|done]. by rewrite (He _ w eq_refl).
Qed.

Lemma keeps_cinv {A} (c : SM A) :
  (forall J, keeps (StoreInv.inv (J := J) dirty s0) c) -> (forall ep, keeps (same_epoch ep) c) ->
  keeps rides c -> keeps cinv c.
Proof. intros Hc He Hr. apply yields_keeps, yields_cinv; [intros J; apply yields_keeps, Hc|done..]. Qed.

Context `{!Rider R} `{!LogRider R} (Hflags : flags_ok s0).

Local Tactic Notation "by_keeps" uconstr(lem) :=
  apply yields_keeps, keeps_cinv; [intros; by apply lem|eauto with rides..].

#[export] Instance cinv_access : StoreAccess cinv dirty.
Proof.
  split; intros.
  - apply yields_keeps, keeps_cinv; [intros; apply keeps_env|intros; apply env_epoch|].
    apply rides_env. intros. apply rider_propagate.
  - rename select (forall o, oracles_ok o -> _) into Hf.
    apply yields_cinv; [|intros; apply rides_ask..]. intros J w Hw. split.
    + apply keeps_ask; [|done]. intros o Ho. by apply Hf.
    + unfold ask. destruct (Hf (w_orc w) (proj2 (proj1 Hw))) as [_ HQ].
      destruct (f (w_orc w)) as [a o]. by intros b [= <-].
  - by_keeps keeps_peek.
  - by_keeps keeps_get_entry.
  - by_keeps keeps_read_str.
  - apply yields_cinv; [|eauto with rides..]. intros J w Hw.
    destruct (read_spec dirty s0 k kd w Hw) as (r & w' & -> & Hw' & _ & Hr).
    split; [done|]. simpl. intros o -> v ->. destruct Hr as [Hk (e & He & _ & <-)].
    split; [done|]. by eapply inv_value.
  - by_keeps keeps_delete.
  - by_keeps keeps_record.
  - by_keeps keeps_iter_keys.
  - by_keeps keeps_clear.
  - apply yields_cinv; [|eauto with rides..]. intros J w Hw.
    destruct (write_target_spec dirty s0 k kd w Hw) as (r & w' & -> & Hw' & _ & Hr); [done..|].
    split; [done|]. simpl. intros v ->. naive_solver.
  - by_keeps keeps_set.
  - by_keeps keeps_set_expiry.
  - by_keeps keeps_persist.
  - by_keeps keeps_mutate.
Qed.
End Inv.

(** ** And so is what a command leaves alone *)
Section Framed.
Context `{Sizing} {P : Type} `{EvictionPolicy P} {D E : Type} `{Hooks D E} `{CommandContext P D E}.

Lemma yields_and {A} (I F : World P D E -> Prop) (c : M exn (World P D E) A) Q :
  yields I c Q -> keeps F c -> yields (fun w => I w /\ F w) c Q.
Proof. intros Hc Hf w [Hw Hx]. destruct (Hc w Hw). split; [split; [done|by apply Hf]|done]. Qed.

#[export] Instance framed_access (I : World P D E -> Prop) dirty d0 :
  StoreAccess I dirty -> StoreAccess (fun w => I w /\ frame dirty d0 w) dirty.
Proof.
  intros HI. split; intros; (apply yields_and; [|unfold propagate; eauto with frames]).
  - apply sa_propagate.
  - by apply sa_ask.
  - apply sa_peek.
  - apply sa_get.
  - apply sa_read_str.
  - apply sa_read.
  - apply sa_delete.
  - apply sa_record.
  - apply sa_iter_keys.
  - apply sa_clear.
  - by apply sa_write_target.
  - by apply sa_set.
  - by apply sa_set_expiry.
  - by apply sa_persist.
  - by apply sa_mutate.
Qed.
End Framed.
