(* ===== verification/CmdHandlers.v ===== *)
(** * Every command of the table keeps the invariants

    Handler by handler, then for the table: [commands_ok]. *)

From Stdlib Require Import SpecFloat String.
From S2P Require Import Prelude PyStr PyFloat Errors Codec Oracles KeySet Containers.
From S2P Require Import SkipList SkipListProofs SkipListQuery ZSet Eviction Store Frames StoreInv StoreOps.
From S2P Require Import Snapshot Registry CmdContainers CmdStrings CmdKeys CmdZsets CmdServer CmdInv.
Local Close Scope string_scope.
Section Handlers.
Context `{Sizing} {P : Type} `{EvictionPolicy P} {D E : Type} `{Hooks D E} `{CommandContext P D E}.
Abbreviation W := (World P D E).
Abbreviation SM := (M exn W).
Context (I : W -> Prop) (dirty : list pystr) `{!StoreAccess I dirty}.

(** The command's key is among those the engine refreshes. *)
Definition keyed (args : list PyArg) : Prop := forall k, arg 0 args = AStr k -> k ∈ dirty.
Lemma keyed_in args k : keyed args -> arg 0 args = AStr k -> k ∈ dirty.
Proof. auto. Qed.
#[local] Hint Resolve keyed_in : yields.

(** *** Strings *)
Lemma get_cmd_yields args : yields I (get_cmd args) (fun _ => True).
Proof. unfold get_cmd. yield. Qed.

Lemma set_options_yields args o : yields I (set_options args o) (fun _ => True).
Proof.
  revert args o. fix IH 1. intros [|a args] o; simpl; [by apply yields_ret|].
  do 4 (match goal with |- yields _ (if ?b then _ else _) _ => destruct b; [apply IH|] end).
  match goal with |- yields _ (if ?b then _ else _) _ => destruct b; [|apply yields_raise] end.
  destruct args as [|b args]; [apply yields_raise|].
  eapply yields_bind; [apply int_arg_yields|]. intros z _.
  destruct (z <=? 0); [apply yields_raise|apply IH].
Qed.
#[local] Hint Resolve set_options_yields : yields.

Lemma set_cmd_yields args : keyed args -> yields I (set_cmd args) (fun _ => True).
Proof. intros Hk. unfold set_cmd. yield. Qed.

Lemma setnx_yields args : keyed args -> yields I (setnx args) (fun _ => True).
Proof. intros Hk. eapply yields_bind; [by apply set_cmd_yields|]. intros r _. by apply yields_ret. Qed.

Lemma getdel_yields args : keyed args -> yields I (getdel args) (fun _ => True).
Proof. intros Hk. unfold getdel. yield. Qed.

Lemma mget_yields args : yields I (mget args) (fun _ => True).
Proof.
  eapply yields_bind; [apply (yields_mapM _ _ (fun _ _ => True))|].
  - intros a _. yield.
  - intros l _. by apply yields_ret.
Qed.

Lemma mset_yields args :
  (forall k, AStr k ∈ every 2 0 args -> k ∈ dirty) -> yields I (mset args) (fun _ => True).
Proof.
  intros Hk. unfold mset. destruct (Nat.odd (length args)); [apply yields_raise|].
  eapply yields_bind; [apply (pairs_of_yields _ _ _ _ (fun a k => a = AStr k)); intros; yield|].
  intros ps Hps. cbv beta in Hps. apply (yields_bind _ _ _ (fun _ => True)); [|intros _ _; yield].
  apply yields_keeps, keeps_forM. intros [k v] Hp. apply yields_keeps.
  destruct (Hps _ Hp) as (a & Ha & ->). eauto with yields.
Qed.

Lemma incr_by_yields k d : k ∈ dirty -> yields I (incr_by k d) (fun _ => True).
Proof. intros Hk. unfold incr_by. yield. Qed.
#[local] Hint Resolve incr_by_yields : yields.

Lemma incr_yields args : keyed args -> yields I (incr args) (fun _ => True).
Proof. intros Hk. unfold incr. yield. Qed.
Lemma decr_yields args : keyed args -> yields I (decr args) (fun _ => True).
Proof. intros Hk. unfold decr. yield. Qed.
Lemma incrby_yields args : keyed args -> yields I (incrby args) (fun _ => True).
Proof. intros Hk. unfold incrby. yield. Qed.
Lemma decrby_yields args : keyed args -> yields I (decrby args) (fun _ => True).
Proof. intros Hk. unfold decrby. yield. Qed.
Lemma incrbyfloat_yields args : keyed args -> yields I (incrbyfloat args) (fun _ => True).
Proof. intros Hk. unfold incrbyfloat. yield. Qed.
Lemma append_yields args : keyed args -> yields I (append args) (fun _ => True).
Proof. intros Hk. unfold append. yield. Qed.
Lemma strlen_yields args : yields I (strlen args) (fun _ => True).
Proof. unfold strlen. yield. Qed.

(** *** Lists *)
Lemma push_yields left args : keyed args -> yields I (push left args) (fun _ => True).
Proof. intros Hk. unfold push. destruct left; yield. Qed.
Lemma pop_count_yields args : yields I (pop_count args) (fun _ => True).
Proof. unfold pop_count. yield. Qed.
#[local] Hint Resolve pop_count_yields : yields.
Lemma pop_yields left args : keyed args -> yields I (pop left args) (fun _ => True).
Proof. intros Hk. unfold pop. yield. Qed.
Lemma llen_yields args : yields I (llen args) (fun _ => True).
Proof. unfold llen. yield. Qed.
Lemma lrange_yields args : yields I (lrange args) (fun _ => True).
Proof. unfold lrange. yield. Qed.
Lemma lindex_yields args : yields I (lindex args) (fun _ => True).
Proof. unfold lindex. yield. Qed.
Lemma lset_yields args : keyed args -> yields I (lset args) (fun _ => True).
Proof. intros Hk. unfold lset. yield. Qed.
Lemma ltrim_yields args : keyed args -> yields I (ltrim args) (fun _ => True).
Proof. intros Hk. unfold ltrim. yield. Qed.
Lemma lrem_yields args : keyed args -> yields I (lrem args) (fun _ => True).
Proof. intros Hk. unfold lrem. yield. Qed.

(** *** Hashes *)
Lemma hset_yields args : keyed args -> yields I (hset args) (fun _ => True).
Proof. intros Hk. unfold hset. yield. Qed.
Lemma hsetnx_yields args : keyed args -> yields I (hsetnx args) (fun _ => True).
Proof. intros Hk. unfold hsetnx. yield. Qed.
Lemma hget_yields args : yields I (hget args) (fun _ => True).
Proof. unfold hget. yield. Qed.
Lemma hmget_yields args : yields I (hmget args) (fun _ => True).
Proof. unfold hmget. yield. Qed.
Lemma hdel_yields args : keyed args -> yields I (hdel args) (fun _ => True).
Proof. intros Hk. unfold hdel. yield. Qed.
Lemma hash_items_yields args : yields I (hash_items args) (fun _ => True).
Proof. unfold hash_items. yield. Qed.
#[local] Hint Resolve hash_items_yields : yields.
Lemma hgetall_yields args : yields I (hgetall args) (fun _ => True).
Proof. unfold hgetall. yield. Qed.
Lemma hlen_yields args : yields I (hlen args) (fun _ => True).
Proof. unfold hlen. yield. Qed.
Lemma hexists_yields args : yields I (hexists args) (fun _ => True).
Proof. unfold hexists. yield. Qed.
Lemma hincrby_yields args : keyed args -> yields I (hincrby args) (fun _ => True).
Proof. intros Hk. unfold hincrby. yield. Qed.
Lemma hkeys_yields args : yields I (hkeys args) (fun _ => True).
Proof. unfold hkeys. yield. Qed.
Lemma hvals_yields args : yields I (hvals args) (fun _ => True).
Proof. unfold hvals. yield. Qed.

(** *** Keys *)
Lemma filterM_yields {A} (f : A -> SM bool) l :
  (forall a, yields I (f a) (fun _ => True)) -> yields I (filterM_list f l) (fun _ => True).
Proof. intros Hf. apply yields_keeps, keeps_filterM. intros a _. by apply yields_keeps. Qed.

Lemma del_cmd_yields args : yields I (del_cmd args) (fun _ => True).
Proof.
  unfold del_cmd. yield. eapply yields_bind; [by apply filterM_yields; eauto with yields|].
  intros l _. yield.
Qed.
Lemma exists_cmd_yields args : yields I (exists_cmd args) (fun _ => True).
Proof.
  unfold exists_cmd. yield. eapply yields_bind; [apply filterM_yields; intros; yield|].
  intros l _. yield.
Qed.
Lemma type_cmd_yields args : yields I (type_cmd args) (fun _ => True).
Proof. unfold type_cmd. yield. Qed.
Lemma keys_cmd_yields args : yields I (keys_cmd args) (fun _ => True).
Proof. unfold keys_cmd. yield. Qed.
Lemma dbsize_yields args : yields I (dbsize args) (fun _ => True).
Proof. unfold dbsize. yield. Qed.
Lemma flushall_yields args : yields I (flushall args) (fun _ => True).
Proof. unfold flushall. cbv zeta. destruct (match args with [] => _ | _ => _ end); yield. Qed.

Lemma loading_yields : yields I loading (fun _ => True).
Proof. apply readM_yields. Qed.
#[local] Hint Resolve loading_yields : yields.

Lemma expire_at_ms_yields k t : k ∈ dirty -> yields I (expire_at_ms k t) (fun _ => True).
Proof. intros Hk. unfold expire_at_ms. yield. Qed.
#[local] Hint Resolve expire_at_ms_yields : yields.
Lemma expire_cmd_yields args : keyed args -> yields I (expire_cmd args) (fun _ => True).
Proof. intros Hk. unfold expire_cmd. yield. Qed.
Lemma pexpire_yields args : keyed args -> yields I (pexpire args) (fun _ => True).
Proof. intros Hk. unfold pexpire. yield. Qed.
Lemma expireat_yields args : keyed args -> yields I (expireat args) (fun _ => True).
Proof. intros Hk. unfold expireat. yield. Qed.
Lemma pexpireat_yields args : keyed args -> yields I (pexpireat args) (fun _ => True).
Proof. intros Hk. unfold pexpireat. yield. Qed.
Lemma persist_cmd_yields args : keyed args -> yields I (persist_cmd args) (fun _ => True).
Proof. intros Hk. unfold persist_cmd. yield. Qed.
Lemma pttl_ms_yields args : yields I (pttl_ms args) (fun _ => True).
Proof. unfold pttl_ms. yield. Qed.
#[local] Hint Resolve pttl_ms_yields : yields.
Lemma pttl_yields args : yields I (pttl args) (fun _ => True).
Proof. unfold pttl. yield. Qed.
Lemma ttl_yields args : yields I (ttl args) (fun _ => True).
Proof. unfold ttl. yield. Qed.
Lemma dump_yields args : yields I (dump args) (fun _ => True).
Proof. unfold dump. yield. Qed.

(** The payload RESTORE is given carries no NaN score. *)
Definition clean_dump (args : list PyArg) : Prop :=
  forall p, decode_dump (arg 2 args) = Ok p -> nan_free p.

Lemma restore_yields args :
  keyed args -> clean_dump args -> yields I (restore args) (fun _ => True).
Proof.
  intros Hk Hc. unfold restore. yield_step. yield_step. cbv zeta.
  destruct (negb _ || _); [yield|]. yield_step; [destruct (bool_decide _); yield|].
  destruct a1; [yield|]. destruct (decode_dump (arg 2 args)) as [p|x] eqn:Hd; [|yield].
  pose proof (Hc p Hd) as Hn. yield.
Qed.

(** *** Sets *)
Lemma count_arg_yields args : yields I (count_arg args) (fun _ => True).
Proof. unfold count_arg. yield. Qed.
#[local] Hint Resolve count_arg_yields : yields.
Lemma sadd_yields args : keyed args -> yields I (sadd args) (fun _ => True).
Proof. intros Hk. unfold sadd. yield. Qed.
Lemma srem_yields args : keyed args -> yields I (srem args) (fun _ => True).
Proof. intros Hk. unfold srem. yield. Qed.
Lemma smembers_yields args : yields I (smembers args) (fun _ => True).
Proof. unfold smembers. yield. Qed.
Lemma sismember_yields args : yields I (sismember args) (fun _ => True).
Proof. unfold sismember. yield. Qed.
Lemma scard_yields args : yields I (scard args) (fun _ => True).
Proof. unfold scard. yield. Qed.
Lemma spop_yields args : keyed args -> yields I (spop args) (fun _ => True).
Proof. intros Hk. unfold spop. yield. Qed.
Lemma choices_yields {A} l (l' : list A) :
  yields I (mapM_list (fun _ => choose l) l') (fun _ => True).
Proof.
  eapply yields_weaken; [apply (yields_mapM _ _ (fun _ _ => True))|done]. intros a _. by eapply choose_yields.
Qed.
#[local] Hint Resolve choices_yields : yields.
Lemma srandmember_yields args : yields I (srandmember args) (fun _ => True).
Proof. unfold srandmember. yield. Qed.
Lemma read_sets_yields args : yields I (read_sets args) (fun _ => True).
Proof.
  eapply yields_weaken; [apply (yields_mapM _ _ (fun _ _ => True))|done]. intros a _. yield.
Qed.
#[local] Hint Resolve read_sets_yields : yields.
Lemma sinter_yields args : yields I (sinter args) (fun _ => True).
Proof. unfold sinter. yield. Qed.
Lemma sunion_yields args : yields I (sunion args) (fun _ => True).
Proof. unfold sunion. yield. Qed.
Lemma sdiff_yields args : yields I (sdiff args) (fun _ => True).
Proof. unfold sdiff. yield. Qed.

(** *** Sorted sets *)
Lemma zadd_one_yields k options s m z t :
  k ∈ dirty -> zs_wf z -> is_nan s = false ->
  yields I (zadd_one k options s m z t) (fun r => zs_wf r.1).
Proof. intros Hk Hz Hs. unfold zadd_one. cbv zeta. yield; done. Qed.

Lemma zadd_loop_yields k options pairs z t :
  k ∈ dirty -> zs_wf z -> Forall (fun p => is_nan p.1 = false) pairs ->
  yields I (zadd_loop k options pairs z t) (fun _ => True).
Proof.
  intros Hk Hz Hp. revert z t Hz. induction Hp as [|[s m] pairs Hs _ IH]; intros z t Hz; simpl; [yield|].
  eapply yields_bind; [by apply zadd_one_yields|]. intros r Hr. by apply IH.
Qed.
#[local] Hint Resolve zadd_loop_yields : yields.

Lemma zadd_yields args : keyed args -> yields I (zadd args) (fun _ => True).
Proof.
  intros Hk. unfold zadd. cbv zeta. yield_step. rewrite (surjective_pairing (zadd_options (drop 1 args))).
  cbv iota. do 4 (case_match; [apply yields_raise|]). yield_step. yield_step. case_match; [yield|].
  apply (yields_bind _ _ _ zs_wf); [yield; eauto|]. intros z Hz. yield.
Qed.
Lemma zincrby_yields args : keyed args -> yields I (zincrby args) (fun _ => True).
Proof. intros Hk. unfold zincrby. do 5 yield_step. yield_step. destruct a4 as [[s|] z]; yield. Qed.
Lemma zrem_yields args : keyed args -> yields I (zrem args) (fun _ => True).
Proof. intros Hk. unfold zrem. yield. Qed.
Lemma zscore_yields args : yields I (zscore args) (fun _ => True).
Proof. unfold zscore. yield. Qed.
Lemma zcard_yields args : yields I (zcard args) (fun _ => True).
Proof. unfold zcard. yield. Qed.
Lemma zcount_yields args : yields I (zcount args) (fun _ => True).
Proof. unfold zcount. yield. Qed.
Lemma rank_yields reverse args : yields I (rank reverse args) (fun _ => True).
Proof. unfold rank. yield. Qed.
Lemma range_yields k a b by_score rev limit ws : yields I (range k a b by_score rev limit ws) (fun _ => True).
Proof. unfold range. destruct by_score; yield. Qed.
#[local] Hint Resolve range_yields : yields.

Lemma parse_range_yields args o : yields I (parse_range_options args o) (fun _ => True).
Proof.
  revert args o. fix IH 1. intros [|a args] o; simpl; [by apply yields_ret|].
  do 3 (match goal with |- yields _ (if ?b then _ else _) _ => destruct b; [apply IH|] end).
  match goal with |- yields _ (if ?b then _ else _) _ => destruct b; [|apply yields_raise] end.
  destruct args as [|b [|c args]]; [apply yields_raise..|].
  do 2 (eapply yields_bind; [apply int_arg_yields|intros ? _]). apply IH.
Qed.
Lemma range_options_yields args : yields I (range_options args) (fun _ => True).
Proof. apply parse_range_yields. Qed.
#[local] Hint Resolve range_options_yields : yields.
Lemma zrange_yields args : yields I (zrange args) (fun _ => True).
Proof. unfold zrange. yield. Qed.
Lemma zrevrange_yields args : yields I (zrevrange args) (fun _ => True).
Proof. unfold zrevrange. yield. Qed.
Lemma range_by_score_yields rev args : yields I (range_by_score rev args) (fun _ => True).
Proof. unfold range_by_score. yield. Qed.
Lemma zpop_yields from_max args : keyed args -> yields I (zpop from_max args) (fun _ => True).
Proof. intros Hk. unfold zpop. yield. Qed.
End Handlers.

(** ** The table *)

Section Table.
Context `{Sizing} {P : Type} `{EvictionPolicy P} {D E : Type} `{Hooks D E} `{CommandContext P D E}.
Abbreviation Spec := (CommandSpec P D E).

(** The keys a command may leave unaccounted. *)
Definition touched (spec : Spec) (args : list PyArg) : list pystr :=
  if is_write spec then keys_of spec args else [].

(** The commands that start a rewrite, which the engine implements. *)
Definition rewrites_keep (I : World P D E -> Prop) : Prop := keeps I cx_start_rewrite /\ keeps I cx_save.

(** The handler keeps whatever the steps it is built from keep. *)
Definition handler_ok (spec : Spec) : Prop :=
  forall I args, StoreAccess I (touched spec args) ->
    (is_write spec = false -> rewrites_keep I) ->
    (cs_name spec = lit "RESTORE" -> clean_dump args) -> keeps I (cs_handler spec args).

Lemma single_keyed (spec : Spec) args :
  cs_key_spec spec = Some SINGLE_KEY -> keyed (keys_of spec args) args.
Proof.
  intros Hs k Hk. destruct args as [|a args]; [done|]. cbn in Hk. subst a.
  rewrite single_key_names by done. set_solver.
Qed.

Lemma every_other_keyed (spec : Spec) args k :
  cs_key_spec spec = Some EVERY_OTHER_KEY -> AStr k ∈ every 2 0 args -> k ∈ keys_of spec args.
Proof.
  intros Hs Hk. unfold keys_of, spec_keys. rewrite Hs. simpl. unfold slice. rewrite drop_0.
  replace (Z.of_nat (length args) - 1 + 1) with (Z.of_nat (length args)) by lia.
  rewrite Nat2Z.id, Nat.sub_0_r, firstn_all. apply list_elem_of_omap. by exists (AStr k).
Qed.

Lemma read_ok name n m flags ks h :
  WRITE ∉ flags ->
  (forall I args, StoreAccess I [] -> rewrites_keep I -> yields I (h args) (fun _ => True)) ->
  handler_ok (command name n m flags ks h).
Proof.
  intros Hw Hh I args. unfold touched, is_write, command. cbn [cs_flags cs_handler].
  rewrite (bool_decide_false (WRITE ∈ flags)) by done. rewrite bool_decide_false by set_solver.
  intros Ha Hr _. apply yields_keeps, Hh; auto.
Qed.

Lemma write_ok name n m flags ks h :
  WRITE ∈ flags ->
  (forall I args, let spec := command name n m flags ks h in StoreAccess I (keys_of spec args) ->
     (cs_name spec = lit "RESTORE" -> clean_dump args) -> yields I (h args) (fun _ => True)) ->
  handler_ok (command name n m flags ks h).
Proof.
  intros Hw Hh I args. unfold touched.
  replace (is_write (command name n m flags ks h)) with true.
  - intros Ha _ Hr. apply yields_keeps. by apply (Hh I args).
  - unfold is_write, command. cbn [cs_flags]. rewrite (bool_decide_true (WRITE ∈ flags)) by done.
    symmetry. by apply bool_decide_true.
Qed.

Lemma single_ok name n m flags h :
  WRITE ∈ flags ->
  (forall I dirty args, StoreAccess I dirty -> keyed dirty args -> yields I (h args) (fun _ => True)) ->
  handler_ok (command name n m flags (Some SINGLE_KEY) h).
Proof. intros Hw Hh. apply write_ok; [done|]. intros I args spec Ha _. by eapply Hh, single_keyed. Qed.

(** One command of the table, by its kind and its handler's lemma. *)
Ltac entry_ok tac :=
  first [apply read_ok; [set_solver|intros; by tac]
        |apply single_ok; [set_solver|intros; by tac]].

Lemma string_commands_ok : Forall handler_ok string_commands.
Proof.
  unfold string_commands. repeat apply Forall_cons_2; [..|apply Forall_nil_2].
  - entry_ok ltac:(eapply get_cmd_yields).
  - entry_ok ltac:(eapply set_cmd_yields).
  - entry_ok ltac:(eapply setnx_yields).
  - entry_ok ltac:(eapply getdel_yields).
  - entry_ok ltac:(eapply mget_yields).
  - apply write_ok; [set_solver|]. intros I args spec Ha _. eapply mset_yields; [done|].
    intros k. by apply every_other_keyed.
  - entry_ok ltac:(eapply incr_yields).
  - entry_ok ltac:(eapply decr_yields).
  - entry_ok ltac:(eapply incrby_yields).
  - entry_ok ltac:(eapply decrby_yields).
  - entry_ok ltac:(eapply incrbyfloat_yields).
  - entry_ok ltac:(eapply append_yields).
  - entry_ok ltac:(eapply strlen_yields).
Qed.

Lemma key_commands_ok : Forall handler_ok key_commands.
Proof.
  unfold key_commands. repeat apply Forall_cons_2; [..|apply Forall_nil_2].
  - apply write_ok; [set_solver|]. intros I args spec Ha _. by eapply del_cmd_yields.
  - apply write_ok; [set_solver|]. intros I args spec Ha _. by eapply del_cmd_yields.
  - entry_ok ltac:(eapply exists_cmd_yields).
  - entry_ok ltac:(eapply type_cmd_yields).
  - entry_ok ltac:(eapply keys_cmd_yields).
  - entry_ok ltac:(eapply dbsize_yields).
  - apply write_ok; [set_solver|]. intros I args spec Ha _. by eapply flushall_yields.
  - apply write_ok; [set_solver|]. intros I args spec Ha _. by eapply flushall_yields.
  - entry_ok ltac:(eapply expire_cmd_yields).
  - entry_ok ltac:(eapply pexpire_yields).
  - entry_ok ltac:(eapply expireat_yields).
  - entry_ok ltac:(eapply pexpireat_yields).
  - entry_ok ltac:(eapply persist_cmd_yields).
  - entry_ok ltac:(eapply pttl_yields).
  - entry_ok ltac:(eapply ttl_yields).
  - entry_ok ltac:(eapply dump_yields).
  - apply write_ok; [set_solver|]. intros I args spec Ha Hr.
    eapply restore_yields; [done|by apply single_keyed|by apply Hr].
Qed.

Lemma list_commands_ok : Forall handler_ok list_commands.
Proof.
  unfold list_commands. repeat apply Forall_cons_2; [..|apply Forall_nil_2].
  - entry_ok ltac:(eapply push_yields).
  - entry_ok ltac:(eapply push_yields).
  - entry_ok ltac:(eapply pop_yields).
  - entry_ok ltac:(eapply pop_yields).
  - entry_ok ltac:(eapply llen_yields).
  - entry_ok ltac:(eapply lrange_yields).
  - entry_ok ltac:(eapply lindex_yields).
  - entry_ok ltac:(eapply lset_yields).
  - entry_ok ltac:(eapply ltrim_yields).
  - entry_ok ltac:(eapply lrem_yields).
Qed.

Lemma hash_commands_ok : Forall handler_ok hash_commands.
Proof.
  unfold hash_commands. repeat apply Forall_cons_2; [..|apply Forall_nil_2].
  - entry_ok ltac:(eapply hset_yields).
  - entry_ok ltac:(eapply hsetnx_yields).
  - entry_ok ltac:(eapply hget_yields).
  - entry_ok ltac:(eapply hmget_yields).
  - entry_ok ltac:(eapply hdel_yields).
  - entry_ok ltac:(eapply hgetall_yields).
  - entry_ok ltac:(eapply hkeys_yields).
  - entry_ok ltac:(eapply hvals_yields).
  - entry_ok ltac:(eapply hlen_yields).
  - entry_ok ltac:(eapply hexists_yields).
  - entry_ok ltac:(eapply hincrby_yields).
Qed.

Lemma set_commands_ok : Forall handler_ok set_commands.
Proof.
  unfold set_commands. repeat apply Forall_cons_2; [..|apply Forall_nil_2].
  - entry_ok ltac:(eapply sadd_yields).
  - entry_ok ltac:(eapply srem_yields).
  - entry_ok ltac:(eapply smembers_yields).
  - entry_ok ltac:(eapply sismember_yields).
  - entry_ok ltac:(eapply scard_yields).
  - entry_ok ltac:(eapply spop_yields).
  - entry_ok ltac:(eapply srandmember_yields).
  - entry_ok ltac:(eapply sinter_yields).
  - entry_ok ltac:(eapply sunion_yields).
  - entry_ok ltac:(eapply sdiff_yields).
Qed.

Lemma zset_commands_ok : Forall handler_ok zset_commands.
Proof.
  unfold zset_commands. repeat apply Forall_cons_2; [..|apply Forall_nil_2].
  - entry_ok ltac:(eapply zadd_yields).
  - entry_ok ltac:(eapply zincrby_yields).
  - entry_ok ltac:(eapply zrem_yields).
  - entry_ok ltac:(eapply zscore_yields).
  - entry_ok ltac:(eapply zcard_yields).
  - entry_ok ltac:(eapply zcount_yields).
  - entry_ok ltac:(eapply rank_yields).
  - entry_ok ltac:(eapply rank_yields).
  - entry_ok ltac:(eapply zrange_yields).
  - entry_ok ltac:(eapply zrevrange_yields).
  - entry_ok ltac:(eapply range_by_score_yields).
  - entry_ok ltac:(eapply range_by_score_yields).
  - entry_ok ltac:(eapply zpop_yields).
  - entry_ok ltac:(eapply zpop_yields).
Qed.

(** The commands that are not the server's need nothing of the engine. *)
Lemma data_commands_ok :
  Forall handler_ok (hash_commands ++ key_commands ++ list_commands ++ set_commands ++
                     string_commands ++ zset_commands).
Proof.
  rewrite !Forall_app. conj; [apply hash_commands_ok|apply key_commands_ok|apply list_commands_ok
    |apply set_commands_ok|apply string_commands_ok|apply zset_commands_ok].
Qed.

Lemma server_commands_ok table : Forall handler_ok (server_commands table).
Proof.
  unfold server_commands. repeat apply Forall_cons_2; [..|apply Forall_nil_2]; apply read_ok; try set_solver.
  all: intros I args Ha [Hs1 Hs2].
  - unfold ping. yield.
  - unfold echo. yield.
  - unfold time_cmd. yield.
  - unfold select_db. yield.
  - unfold hello. yield.
  - unfold client. cbv zeta. yield.
  - unfold command_cmd. cbv zeta. yield.
  - unfold config. cbv zeta. yield.
  - unfold info. yield.
  - apply (yields_bind _ _ _ (fun _ => True)); [by apply yields_keeps|intros _ _; yield].
  - unfold bgsave. case_match; [yield|].
    apply (yields_bind _ _ _ (fun _ => True)); [by apply yields_keeps|intros _ _; yield].
  - apply (yields_bind _ _ _ (fun _ => True)); [by apply yields_keeps|intros _ _; yield].
  - unfold lastsave. yield.
Qed.

(** Whatever command the table holds for a name keeps the invariant. *)
Lemma find_command_ok name spec : find_command name = Some spec -> handler_ok spec.
Proof.
  intros Hf. unfold find_command in Hf. apply find_some in Hf as [Hin _]. apply list_elem_of_In in Hin.
  revert spec Hin. apply Forall_forall. unfold COMMANDS, commands_with. rewrite !Forall_app.
  pose proof data_commands_ok as Hd. rewrite !Forall_app in Hd. destruct Hd as (? & ? & ? & ? & ? & ?).
  conj; try done. apply server_commands_ok.
Qed.
End Table.
