(* ===== verification/Resp.v ===== *)
(** * RESP2 (protocol/resp.py)

    The encoders of replies and requests, the incremental request parser, and
    the reply parser.  Parsers keep the received bytes and a position, as in
    the source; what they have not read yet is [unread]. *)

From Stdlib Require Import String.
From S2P Require Import Prelude PyStr PyFloat Errors Codec Snapshot Registry.
Local Close Scope string_scope.

Definition CRLF : bytes := [13; 10].
Definition DEFAULT_MAX_BULK : Z := 64 * 1024 * 1024.
Definition MAX_INLINE : Z := 64 * 1024.
Definition MAX_ARRAY : Z := 1024 * 1024.

(** ** Encoding *)

(** A type byte, a number and the line end: [b"*%d\r\n"]. *)
Definition head_line (kind n : Z) : bytes := kind :: str_of_int n ++ CRLF.

Definition bulk (data : bytes) : bytes := head_line 36 (Z.of_nat (length data)) ++ data ++ CRLF.

Definition bulk_text (s : pystr) : result exn bytes :=
  match encode_text s with Ok data => Ok (bulk data) | Raise x => Raise x end.

Definition encode_arg (a : PyArg) : result exn bytes :=
  bulk_text (match a with AFloat f => format_float f | _ => str_of_arg a end).

(** The encodings of the elements, one after the other. *)
Fixpoint concat_ok {A} (f : A -> result exn bytes) (l : list A) : result exn bytes :=
  match l with
  | [] => Ok []
  | a :: l' =>
      match f a with
      | Ok x => match concat_ok f l' with Ok y => Ok (x ++ y) | Raise e => Raise e end
      | Raise e => Raise e
      end
  end.

Definition encode_command (args : list PyArg) : result exn bytes :=
  match concat_ok encode_arg args with
  | Ok body => Ok (head_line 42 (Z.of_nat (length args)) ++ body)
  | Raise x => Raise x
  end.

Definition no_line_break (c : Z) : Z := if (c =? 13) || (c =? 10) then 32 else c.

Definition encode_error (error : exn) : result exn bytes :=
  match encode_text (no_line_break <$> to_resp error) with
  | Ok data => Ok (45 :: data ++ CRLF)
  | Raise x => Raise x
  end.

Definition encode_reply_arg (a : PyArg) : result exn bytes :=
  match a with
  | AStr s => bulk_text s
  | AInt z => Ok (head_line 58 z)
  | ABool b => Ok (head_line 58 (if b then 1 else 0))
  | AFloat f => bulk_text (format_float f)
  | AOther _ => Raise (err TypeError "cannot encode object as RESP")
  end.

Fixpoint encode_reply (value : Reply) : result exn bytes :=
  match value with
  | RNone => Ok (head_line 36 (-1))
  | RStatus s =>
      match encode_text s with Ok data => Ok (43 :: data ++ CRLF) | Raise x => Raise x end
  | RText s => bulk_text s
  | RInt z => Ok (head_line 58 z)
  | RArg a => encode_reply_arg a
  | RArray l =>
      match (fix go (l : list Reply) : result exn bytes :=
               match l with
               | [] => Ok []
               | v :: l' =>
                   match encode_reply v with
                   | Ok x => match go l' with Ok y => Ok (x ++ y) | Raise e => Raise e end
                   | Raise e => Raise e
                   end
               end) l with
      | Ok body => Ok (head_line 42 (Z.of_nat (length l)) ++ body)
      | Raise e => Raise e
      end
  end.

(** ** Searching *)

(** [buf.find(CRLF)]. *)
Fixpoint find_crlf (s : bytes) : option nat :=
  match s with
  | a :: ((b :: _) as s') => if (a =? 13) && (b =? 10) then Some 0%nat else S <$> find_crlf s'
  | _ => None
  end.

Definition find_crlf_from (start : nat) (buf : bytes) : option nat :=
  Nat.add start <$> find_crlf (drop start buf).

(** [_parse_int(buf, start, end, error)]. *)
Definition parse_int {S} (buf : bytes) (start stop : nat) (error : String.string) : M exn S Z :=
  match py_int_bytes (slice start stop buf) with
  | Some n => ret n
  | None => raise (err ProtocolError error)
  end.

(** ** Requests *)
Record RequestParser := mkParser {
  rp_buf : bytes;
  rp_pos : nat;
  rp_max_bulk : Z;
  rp_pending : option (list pystr);
  rp_remaining : Z
}.
Definition new_parser (max_bulk : Z) : RequestParser := mkParser [] 0 max_bulk None 0.

Abbreviation PM := (M exn RequestParser).

Definition feed (data : bytes) (p : RequestParser) : RequestParser :=
  mkParser (rp_buf p ++ data) (rp_pos p) (rp_max_bulk p) (rp_pending p) (rp_remaining p).

Definition unread (p : RequestParser) : bytes := drop (rp_pos p) (rp_buf p).

Definition set_pos (pos : nat) (p : RequestParser) : RequestParser :=
  mkParser (rp_buf p) pos (rp_max_bulk p) (rp_pending p) (rp_remaining p).
Definition set_pending (pending : option (list pystr)) (remaining : Z) (p : RequestParser) :=
  mkParser (rp_buf p) (rp_pos p) (rp_max_bulk p) pending remaining.

Definition compact (p : RequestParser) : RequestParser :=
  if (rp_pos p =? length (rp_buf p))%nat
  then mkParser [] 0 (rp_max_bulk p) (rp_pending p) (rp_remaining p)
  else if 64 * 1024 <? Z.of_nat (rp_pos p)
  then mkParser (drop (rp_pos p) (rp_buf p)) 0 (rp_max_bulk p) (rp_pending p) (rp_remaining p)
  else p.

Definition check_line_length : PM unit :=
  let! p := getM in
  if MAX_INLINE <? Z.of_nat (length (rp_buf p)) - Z.of_nat (rp_pos p)
  then raise (err ProtocolError "too big request line") else ret tt.

(** [line.split()] on ASCII white space. *)
Fixpoint split_words (word : bytes) (s : bytes) : list bytes :=
  match s with
  | [] => match word with [] => [] | _ => [reverse word] end
  | c :: s' =>
      if is_ascii_space c
      then match word with [] => split_words [] s' | _ => reverse word :: split_words [] s' end
      else split_words (c :: word) s'
  end.

Definition parse_inline : PM (option (list pystr)) :=
  let! p := getM in
  match find_from 10 (rp_pos p) (rp_buf p) with
  | None => check_line_length;; ret None
  | Some eol =>
      let line := rstrip (Z.eqb 13) (slice (rp_pos p) eol (rp_buf p)) in
      putM (compact (set_pos (eol + 1) p));;
      ret (Some (to_str <$> split_words [] line))
  end.

(** One round of the loop: the next bulk string, or [None] to wait for more. *)
Definition next_bulk : PM (option unit) :=
  let! p := getM in
  let buf := rp_buf p in
  let pos := rp_pos p in
  match buf !! pos with
  | None => ret None
  | Some c =>
      if negb (c =? 36) then
        raise (new_exn ProtocolError (lit "expected '$', got '" ++ [c] ++ lit "'") None)
      else
        match find_crlf_from pos buf with
        | None => check_line_length;; ret None
        | Some eol =>
            let! size := parse_int buf (pos + 1) eol "invalid bulk length" in
            if (size <? 0) || (rp_max_bulk p <? size)
            then raise (err ProtocolError "invalid bulk length")
            else
              let start := (eol + 2)%nat in
              let stop := (start + Z.to_nat size)%nat in
              if bool_decide (length buf < stop + 2)%nat then ret None
              else if negb (bool_decide (slice stop (stop + 2) buf = CRLF))
              then raise (err ProtocolError "invalid bulk string terminator")
              else
                putM (set_pending (Some (default [] (rp_pending p) ++ [to_str (slice start stop buf)]))
                        (rp_remaining p - 1) (set_pos (stop + 2) p));;
                ret (Some tt)
        end
  end.

(** [while self._remaining]: a round that succeeds reads at least one byte. *)
Fixpoint bulk_loop (fuel : nat) : PM (option (list pystr)) :=
  let! p := getM in
  if rp_remaining p =? 0 then
    putM (compact (set_pending None (rp_remaining p) p));;
    ret (rp_pending p)
  else
    match fuel with
    | O => ret None
    | S f =>
        let! r := next_bulk in
        match r with
        | None => ret None
        | Some _ => bulk_loop f
        end
    end.

Definition read_bulks : PM (option (list pystr)) :=
  fun p => bulk_loop (S (length (rp_buf p))) p.

(** [None]: more data is needed; [Some []]: an empty line. *)
Definition next_command : PM (option (list pystr)) :=
  let! p := getM in
  let buf := rp_buf p in
  let pos := rp_pos p in
  match rp_pending p with
  | Some _ => read_bulks
  | None =>
      match buf !! pos with
      | None => putM (compact p);; ret None
      | Some c =>
          if negb (c =? 42) then parse_inline
          else
            match find_crlf_from pos buf with
            | None => check_line_length;; ret None
            | Some eol =>
                let! count := parse_int buf (pos + 1) eol "invalid multibulk length" in
                let p := set_pos (eol + 2) p in
                putM p;;
                if count <=? 0 then ret (Some [])
                else if MAX_ARRAY <? count then raise (err ProtocolError "invalid multibulk length")
                else putM (set_pending (Some []) count p);; read_bulks
            end
      end
  end.
