(* ===== verification/RespProofs.v ===== *)
(** * The request parser

    What [next_command] does depends only on what is unread ([next_view]);
    from that: a request parses to its arguments, whatever follows it, and a
    request that arrives in pieces parses as if it had arrived at once. *)

From Stdlib Require Import String.
From S2P Require Import Prelude PyStr PyFloat Codec Errors Snapshot Registry Resp.
Local Close Scope string_scope.

(** ** One bulk string, as a function of the unread bytes *)
Inductive Bulk := Wait | Bad (x : exn) | Got (s : pystr) (size : nat).

Definition too_long (u : bytes) : Bulk :=
  if MAX_INLINE <? Z.of_nat (length u) then Bad (err ProtocolError "too big request line") else Wait.

Definition bulk_of (max : Z) (u : bytes) : Bulk :=
  match u with
  | [] => Wait
  | c :: _ =>
      if negb (c =? 36) then Bad (new_exn ProtocolError (lit "expected '$', got '" ++ [c] ++ lit "'") None)
      else
        match find_crlf u with
        | None => too_long u
        | Some e =>
            match py_int_bytes (slice 1 e u) with
            | None => Bad (err ProtocolError "invalid bulk length")
            | Some size =>
                if (size <? 0) || (max <? size) then Bad (err ProtocolError "invalid bulk length")
                else
                  let stop := (e + 2 + Z.to_nat size)%nat in
                  if bool_decide (length u < stop + 2)%nat then Wait
                  else if negb (bool_decide (slice stop (stop + 2) u = CRLF))
                  then Bad (err ProtocolError "invalid bulk string terminator")
                  else Got (to_str (slice (e + 2) stop u)) (stop + 2)
            end
        end
  end.

(** ** The whole parser, likewise *)
Record View := mkView { v_unread : bytes; v_pending : option (list pystr); v_remaining : Z }.

Definition view (p : RequestParser) : View := mkView (unread p) (rp_pending p) (rp_remaining p).

Fixpoint loop_view (fuel : nat) (max : Z) (u : bytes) (pending : list pystr) (rem : Z) :
    result exn (option (list pystr)) * View :=
  if rem =? 0 then (Ok (Some pending), mkView u None rem)
  else
    match fuel with
    | O => (Ok None, mkView u (Some pending) rem)
    | S f =>
        match bulk_of max u with
        | Wait => (Ok None, mkView u (Some pending) rem)
        | Bad x => (Raise x, mkView u (Some pending) rem)
        | Got s n => loop_view f max (drop n u) (pending ++ [s]) (rem - 1)
        end
    end.

Definition bulks_view (max : Z) (u : bytes) (pending : list pystr) (rem : Z) :=
  loop_view (S (length u)) max u pending rem.

Definition stay (b : Bulk) (v : View) : result exn (option (list pystr)) * View :=
  (match b with Bad x => Raise x | _ => Ok None end, v).

Definition inline_view (v : View) : result exn (option (list pystr)) * View :=
  let u := v_unread v in
  match find_char 10 u with
  | None => stay (too_long u) v
  | Some e => (Ok (Some (to_str <$> split_words [] (rstrip (Z.eqb 13) (take e u)))),
               mkView (drop (e + 1) u) (v_pending v) (v_remaining v))
  end.

Definition next_view (max : Z) (v : View) : result exn (option (list pystr)) * View :=
  let u := v_unread v in
  match v_pending v with
  | Some pending => bulks_view max u pending (v_remaining v)
  | None =>
      match u with
      | [] => (Ok None, v)
      | c :: _ =>
          if negb (c =? 42) then inline_view v
          else
            match find_crlf u with
            | None => stay (too_long u) v
            | Some e =>
                match py_int_bytes (slice 1 e u) with
                | None => (Raise (err ProtocolError "invalid multibulk length"), v)
                | Some count =>
                    let u' := drop (e + 2) u in
                    if count <=? 0 then (Ok (Some []), mkView u' None (v_remaining v))
                    else if MAX_ARRAY <? count
                    then (Raise (err ProtocolError "invalid multibulk length"), mkView u' None (v_remaining v))
                    else bulks_view max u' [] count
                end
            end
      end
  end.

(** ** The parser computes its view *)
Lemma slice_drop {A} (l : list A) a b c : slice (a + b) (a + c) l = slice b c (drop a l).
Proof. unfold slice. rewrite drop_drop. f_equal. lia. Qed.

Lemma unread_lookup p : rp_buf p !! rp_pos p = head (unread p).
Proof.
  unfold unread. rewrite <- (Nat.add_0_r (rp_pos p)) at 1. rewrite <- lookup_drop.
  by destruct (drop (rp_pos p) (rp_buf p)).
Qed.

Definition placed (p : RequestParser) : Prop := (rp_pos p <= length (rp_buf p))%nat.

Lemma unread_length p : placed p -> length (rp_buf p) = (rp_pos p + length (unread p))%nat.
Proof. unfold placed, unread. rewrite length_drop. lia. Qed.

Lemma find_crlf_unread p :
  find_crlf_from (rp_pos p) (rp_buf p) = Nat.add (rp_pos p) <$> find_crlf (unread p).
Proof. done. Qed.

Lemma check_line_length_view {A} (a : A) p :
  placed p -> (check_line_length;; ret a) p =
    (match too_long (unread p) with Bad x => Raise x | _ => Ok a end, p).
Proof.
  intros Hp. unfold check_line_length, bindM, getM, too_long. rewrite (unread_length p Hp).
  replace (Z.of_nat (rp_pos p + length (unread p)) - Z.of_nat (rp_pos p))
    with (Z.of_nat (length (unread p))) by lia.
  by destruct (MAX_INLINE <? _).
Qed.

Lemma parse_int_ok {S A} buf lo hi error (k : Z -> M exn S A) s :
  (let! n := parse_int buf lo hi error in k n) s =
    match py_int_bytes (slice lo hi buf) with
    | Some n => k n s
    | None => (Raise (err ProtocolError error), s)
    end.
Proof. unfold bindM, parse_int. by destruct (py_int_bytes _). Qed.

Definition took (s : pystr) (n : nat) (p : RequestParser) : RequestParser :=
  set_pending (Some (default [] (rp_pending p) ++ [s])) (rp_remaining p - 1) (set_pos (rp_pos p + n) p).

Lemma next_bulk_view p :
  placed p -> next_bulk p =
    match bulk_of (rp_max_bulk p) (unread p) with
    | Wait => (Ok None, p)
    | Bad x => (Raise x, p)
    | Got s n => (Ok (Some tt), took s n p)
    end.
Proof.
  intros Hp. pose proof (unread_length p Hp) as Hlen. unfold next_bulk, bindM at 1, getM.
  rewrite unread_lookup. destruct (unread p) as [|c u] eqn:Hu; [done|]. cbn [head bulk_of].
  destruct (negb (c =? 36)); [done|]. rewrite find_crlf_unread, Hu.
  destruct (find_crlf (c :: u)) as [e|] eqn:Ee; cbn [fmap option_fmap option_map].
  2: { rewrite check_line_length_view, Hu by done. unfold too_long. by destruct (MAX_INLINE <? _). }
  rewrite parse_int_ok, slice_drop. fold (unread p). rewrite Hu.
  destruct (py_int_bytes (slice 1 e (c :: u))) as [size|]; [|done].
  destruct ((size <? 0) || (rp_max_bulk p <? size)); [done|].
  rewrite Hlen. replace (rp_pos p + e + 2 + Z.to_nat size + 2)%nat
    with (rp_pos p + (e + 2 + Z.to_nat size + 2))%nat by lia.
  rewrite (bool_decide_ext _ (length (c :: u) < e + 2 + Z.to_nat size + 2)%nat) by lia.
  destruct (bool_decide (length (c :: u) < _)%nat); [done|].
  replace (rp_pos p + e + 2 + Z.to_nat size)%nat with (rp_pos p + (e + 2 + Z.to_nat size))%nat by lia.
  replace (rp_pos p + e + 2)%nat with (rp_pos p + (e + 2))%nat by lia.
  rewrite !slice_drop. fold (unread p). rewrite Hu.
  destruct (negb _); [done|]. unfold took. done.
Qed.

Lemma compact_view p : placed p -> view (compact p) = view p /\ placed (compact p) /\
  rp_max_bulk (compact p) = rp_max_bulk p.
Proof.
  intros Hp. unfold compact, view, unread, placed in *. simpl.
  destruct (Nat.eqb_spec (rp_pos p) (length (rp_buf p))) as [->|]; simpl.
  { rewrite drop_all. conj; done || lia. }
  destruct (64 * 1024 <? _); simpl; [|done]. rewrite drop_0. conj; done || lia.
Qed.

Lemma bulk_of_got max u s n : bulk_of max u = Got s n -> (1 <= n <= length u)%nat.
Proof.
  destruct u as [|c u]; [done|]. cbn [bulk_of]. destruct (negb (c =? 36)); [done|].
  destruct (find_crlf (c :: u)) as [e|]; [|unfold too_long; by destruct (MAX_INLINE <? _)].
  destruct (py_int_bytes _) as [size|]; [|done]. destruct ((size <? 0) || _); [done|].
  case_bool_decide; [done|]. destruct (negb _); [done|]. intros [= _ <-]. lia.
Qed.

Lemma loop_view_fuel f f' max u pending rem :
  (length u < f)%nat -> (length u < f')%nat ->
  loop_view f max u pending rem = loop_view f' max u pending rem.
Proof.
  revert f' u pending rem. induction f as [|f IH]; intros f' u pending rem Hf Hf'; [lia|].
  destruct f' as [|f']; [lia|]. cbn [loop_view]. destruct (rem =? 0); [done|].
  destruct (bulk_of max u) as [|x|s n] eqn:E; [done..|]. apply bulk_of_got in E.
  apply IH; rewrite length_drop; lia.
Qed.

Lemma took_spec s n p :
  placed p -> (n <= length (unread p))%nat ->
  placed (took s n p) /\ unread (took s n p) = drop n (unread p) /\
  rp_max_bulk (took s n p) = rp_max_bulk p.
Proof.
  intros Hp Hn. pose proof (unread_length p Hp). unfold placed, unread, took in *. simpl.
  rewrite drop_drop. conj; done || lia.
Qed.

Lemma bulk_loop_view f p pending :
  placed p -> rp_pending p = Some pending ->
  exists r p', bulk_loop f p = (r, p') /\ placed p' /\ rp_max_bulk p' = rp_max_bulk p /\
    (r, view p') = loop_view f (rp_max_bulk p) (unread p) pending (rp_remaining p).
Proof.
  revert p pending. induction f as [|f IH]; intros p pending Hp Hpend; cbn [bulk_loop loop_view];
    unfold bindM at 1, getM.
  all: destruct (rp_remaining p =? 0) eqn:Er.
  1, 3: destruct (compact_view (set_pending None (rp_remaining p) p) Hp) as (Hv & Hpl & Hm);
        eexists _, _; (split; [reflexivity|]); rewrite Hv, Hpend; conj; done.
  { eexists _, p. split; [reflexivity|]. unfold view. rewrite Hpend. done. }
  unfold bindM at 1. rewrite next_bulk_view by done.
  destruct (bulk_of (rp_max_bulk p) (unread p)) as [|x|s n] eqn:E.
  1, 2: eexists _, p; (split; [reflexivity|]); unfold view; rewrite Hpend; conj; done.
  destruct (took_spec s n p Hp) as (Hpl & Hu & Hm); [apply bulk_of_got in E; lia|].
  destruct (IH (took s n p) (pending ++ [s]) Hpl) as (r & p' & E' & Hp' & Hm' & Hv);
    [unfold took; simpl; by rewrite Hpend|].
  exists r, p'. rewrite Hu, Hm in Hv. rewrite Hm in Hm'. by conj.
Qed.

Lemma read_bulks_view p pending :
  placed p -> rp_pending p = Some pending ->
  exists r p', read_bulks p = (r, p') /\ placed p' /\ rp_max_bulk p' = rp_max_bulk p /\
    (r, view p') = bulks_view (rp_max_bulk p) (unread p) pending (rp_remaining p).
Proof.
  intros Hp Hpend. destruct (bulk_loop_view (S (length (rp_buf p))) p pending Hp Hpend)
    as (r & p' & E & Hp' & Hm & Hv).
  exists r, p'. conj; try done. rewrite Hv. apply loop_view_fuel; [|lia].
  rewrite (unread_length p Hp). lia.
Qed.

Lemma find_char_bound c s e : find_char c s = Some e -> (e < length s)%nat.
Proof.
  revert e. induction s as [|x s IH]; intros e; simpl; [done|].
  destruct (x =? c); [intros [= <-]; lia|].
  destruct (find_char c s) as [n|]; [|done]. simpl. intros [= <-]. specialize (IH n eq_refl). lia.
Qed.

Lemma find_crlf_cons a b s :
  find_crlf (a :: b :: s) = if (a =? 13) && (b =? 10) then Some 0%nat else S <$> find_crlf (b :: s).
Proof. done. Qed.

Lemma find_crlf_bound s e : find_crlf s = Some e -> (e + 2 <= length s)%nat.
Proof.
  revert e. induction s as [|a s IH]; intros e; [done|]. destruct s as [|b s]; [done|].
  rewrite find_crlf_cons. destruct ((a =? 13) && (b =? 10)); [intros [= <-]; simpl; lia|].
  destruct (find_crlf (b :: s)) as [n|]; [|done]. simpl. intros [= <-].
  specialize (IH n eq_refl). simpl in IH. lia.
Qed.

Lemma set_pos_spec n p :
  placed p -> (n <= length (unread p))%nat ->
  placed (set_pos (rp_pos p + n) p) /\ unread (set_pos (rp_pos p + n) p) = drop n (unread p).
Proof.
  intros Hp Hn. pose proof (unread_length p Hp). unfold placed, unread, set_pos in *. simpl.
  rewrite drop_drop. split; [lia|done].
Qed.

Lemma parse_inline_view p :
  placed p ->
  exists r p', parse_inline p = (r, p') /\ placed p' /\ rp_max_bulk p' = rp_max_bulk p /\
    (r, view p') = inline_view (view p).
Proof.
  intros Hp. unfold parse_inline, bindM at 1, getM, inline_view, find_from. simpl v_unread.
  fold (unread p). destruct (find_char 10 (unread p)) as [e|] eqn:E; cbn [fmap option_fmap option_map].
  - apply find_char_bound in E. unfold bindM, putM, ret.
    destruct (set_pos_spec (e + 1) p Hp ltac:(lia)) as [Hp' Hu].
    rewrite <- (Nat.add_assoc (rp_pos p) e 1).
    destruct (compact_view _ Hp') as (Hv & Hpl & Hm).
    eexists _, _. split; [reflexivity|]. conj; [done|done|]. rewrite Hv. unfold view. rewrite Hu. simpl.
    assert (Hs : slice (rp_pos p) (rp_pos p + e) (rp_buf p) = take e (unread p))
      by (unfold slice, unread; f_equal; lia).
    by rewrite Hs.
  - rewrite check_line_length_view by done. by eexists _, p.
Qed.

Lemma next_command_view p :
  placed p ->
  exists r p', next_command p = (r, p') /\ placed p' /\ rp_max_bulk p' = rp_max_bulk p /\
    (r, view p') = next_view (rp_max_bulk p) (view p).
Proof.
  intros Hp. unfold next_command, bindM at 1, getM, next_view. cbn [v_unread v_pending v_remaining view].
  destruct (rp_pending p) as [pending|] eqn:Hpend; [by apply read_bulks_view|].
  rewrite unread_lookup. destruct (unread p) as [|c u] eqn:Hu; cbn [head].
  { destruct (compact_view p Hp) as (Hv & Hpl & Hm). eexists _, _. split; [reflexivity|].
    rewrite Hv. unfold view. rewrite Hu, Hpend. done. }
  destruct (negb (c =? 42)).
  { by apply parse_inline_view. }
  rewrite find_crlf_unread, <- Hu. destruct (find_crlf (unread p)) as [e|] eqn:Ee;
    cbn [fmap option_fmap option_map].
  2: { rewrite check_line_length_view by done. by eexists _, p. }
  rewrite parse_int_ok, slice_drop. fold (unread p). apply find_crlf_bound in Ee.
  destruct (py_int_bytes (slice 1 e (unread p))) as [count|].
  2: { eexists _, p. split; [reflexivity|]. unfold view. rewrite Hpend. done. }
  rewrite <- (Nat.add_assoc (rp_pos p) e 2). unfold bindM at 1, putM at 1.
  destruct (set_pos_spec (e + 2) p Hp ltac:(lia)) as [Hp' Hu'].
  destruct (count <=? 0); [|destruct (MAX_ARRAY <? count)].
  1, 2: eexists _, _; (split; [reflexivity|]); unfold view; rewrite Hu'; simpl; rewrite Hpend; conj; done.
  unfold bindM, putM. rewrite <- Hu'. by apply (read_bulks_view (set_pending (Some []) count (set_pos (rp_pos p + (e + 2)) p)) []).
Qed.

(** ** A request in pieces *)
Lemma find_crlf_app s t n : find_crlf s = Some n -> find_crlf (s ++ t) = Some n.
Proof.
  revert n. induction s as [|a s IH]; intros n; [done|]. destruct s as [|b s]; [done|].
  rewrite <- !app_comm_cons, !find_crlf_cons. destruct ((a =? 13) && (b =? 10)); [done|].
  destruct (find_crlf (b :: s)) as [k|] eqn:E; [|done]. rewrite app_comm_cons, (IH k eq_refl). done.
Qed.

Lemma slice_app {A} (s t : list A) lo hi : (hi <= length s)%nat -> slice lo hi (s ++ t) = slice lo hi s.
Proof.
  intros H. unfold slice. destruct (decide (lo <= length s)%nat).
  - rewrite drop_app_le by done. rewrite take_app_le; [done|]. rewrite length_drop. lia.
  - replace (hi - lo)%nat with 0%nat by lia. by rewrite !take_0.
Qed.

Lemma bulk_of_app max u s n d : bulk_of max u = Got s n -> bulk_of max (u ++ d) = Got s n.
Proof.
  destruct u as [|c u]; [done|]. cbn [bulk_of app]. rewrite app_comm_cons.
  destruct (negb (c =? 36)); [done|].
  destruct (find_crlf (c :: u)) as [e|] eqn:E; [|unfold too_long; by destruct (MAX_INLINE <? _)].
  rewrite (find_crlf_app _ _ _ E). apply find_crlf_bound in E. rewrite slice_app by lia.
  destruct (py_int_bytes _) as [size|]; [|done]. destruct ((size <? 0) || _); [done|].
  case_bool_decide as Hlen; [done|].
  rewrite (bool_decide_false (length ((c :: u) ++ d) < _)%nat) by (rewrite length_app; lia).
  rewrite !slice_app by lia. done.
Qed.

Lemma bulks_view_step max u s n d pending rem :
  bulk_of max u = Got s n -> rem <> 0 ->
  bulks_view max (u ++ d) pending rem = bulks_view max (drop n u ++ d) (pending ++ [s]) (rem - 1).
Proof.
  intros E Hr. unfold bulks_view at 1. cbn [loop_view].
  destruct (Z.eqb_spec rem 0); [done|]. rewrite (bulk_of_app _ _ _ _ d E).
  apply bulk_of_got in E. rewrite drop_app_le by lia.
  apply loop_view_fuel; rewrite !length_app, length_drop; lia.
Qed.

Definition feed_view (d : bytes) (v : View) : View :=
  mkView (v_unread v ++ d) (v_pending v) (v_remaining v).

Lemma loop_view_resume f max u pending rem v' d :
  loop_view f max u pending rem = (Ok None, v') ->
  bulks_view max (u ++ d) pending rem = next_view max (feed_view d v').
Proof.
  revert u pending rem. induction f as [|f IH]; intros u pending rem; cbn [loop_view];
    destruct (Z.eqb_spec rem 0) as [|Hr]; try done.
  { by intros [= <-]. }
  destruct (bulk_of max u) as [|x|s n] eqn:E; [by intros [= <-]|done|].
  intros Hv. rewrite (bulks_view_step max u s n d) by done. by apply IH.
Qed.

(** Parsing what has arrived and then the rest is parsing all of it. *)
Lemma next_view_resume max v v' d :
  next_view max v = (Ok None, v') -> next_view max (feed_view d v') = next_view max (feed_view d v).
Proof.
  destruct v as [u pend rem]. unfold next_view at 1. cbn [v_unread v_pending v_remaining].
  destruct pend as [pending|]; [intros H; symmetry; by eapply loop_view_resume|].
  destruct u as [|c u]; [by intros [= <-]|]. destruct (negb (c =? 42)) eqn:Ec.
  { unfold inline_view. cbn [v_unread v_pending v_remaining]. destruct (find_char 10 (c :: u)); [done|].
    unfold stay. destruct (too_long (c :: u)); intros [= <-]; done. }
  destruct (find_crlf (c :: u)) as [e|] eqn:Ee.
  2: { unfold stay. destruct (too_long (c :: u)); intros [= <-]; done. }
  destruct (py_int_bytes (slice 1 e (c :: u))) as [count|] eqn:En; [|done].
  destruct (count <=? 0) eqn:E0; [done|]. destruct (MAX_ARRAY <? count) eqn:E1; [done|].
  intros Hv. rewrite <- (loop_view_resume _ _ _ _ _ _ d Hv). unfold next_view, feed_view.
  cbn [v_unread v_pending v_remaining]. rewrite <- app_comm_cons, Ec, app_comm_cons.
  rewrite (find_crlf_app _ _ _ Ee). apply find_crlf_bound in Ee. rewrite slice_app, En, E0, E1 by lia.
  by rewrite drop_app_le by lia.
Qed.

Lemma feed_spec d p : placed p -> placed (feed d p) /\ view (feed d p) = feed_view d (view p) /\
  rp_max_bulk (feed d p) = rp_max_bulk p.
Proof.
  intros Hp. unfold placed, view, feed_view, unread, feed in *. simpl. rewrite length_app.
  rewrite drop_app_le by done. conj; done || lia.
Qed.

(** ** A request parses to its arguments *)
Lemma find_crlf_line s t : Forall (fun c => (c =? 13) = false) s -> find_crlf (s ++ CRLF ++ t) = Some (length s).
Proof.
  induction 1 as [|c s Hc Hs IH]; [done|]. rewrite <- app_comm_cons. destruct s as [|b s]; simpl app.
  - rewrite find_crlf_cons, Hc. done.
  - simpl app in IH. rewrite find_crlf_cons, Hc. simpl app. rewrite IH. done.
Qed.

Lemma str_of_int_line n : Forall (fun c => (c =? 13) = false) (str_of_int n).
Proof. apply (str_of_int_chars (fun c => c =? 13)). intros c Hc. lia. Qed.

Lemma head_line_parse kind n t :
  kind <> 13 -> Z.abs n <= 2 ^ 64 ->
  exists e, find_crlf (head_line kind n ++ t) = Some e /\
    py_int_bytes (slice 1 e (head_line kind n ++ t)) = Some n /\
    (e + 2)%nat = length (head_line kind n) /\ head_line kind n ++ t = kind :: str_of_int n ++ CRLF ++ t.
Proof.
  intros Hk Hn. exists (S (length (str_of_int n))).
  assert (E : head_line kind n ++ t = (kind :: str_of_int n) ++ CRLF ++ t)
    by (unfold head_line; simpl; by rewrite <- app_assoc).
  conj.
  - rewrite E, find_crlf_line; [done|]. constructor; [lia|]. apply str_of_int_line.
  - rewrite E. unfold slice. simpl. rewrite drop_0, Nat.sub_0_r, take_app_length.
    by apply py_int_str_of_int64.
  - unfold head_line. simpl. rewrite length_app. simpl. lia.
  - rewrite E. done.
Qed.

Lemma bulk_of_bulk max data t :
  Z.of_nat (length data) <= max -> Z.of_nat (length data) <= 2 ^ 64 ->
  bulk_of max (bulk data ++ t) = Got (to_str data) (length (bulk data)).
Proof.
  intros Hm Hn. unfold bulk. rewrite <- app_assoc.
  destruct (head_line_parse 36 (Z.of_nat (length data)) ((data ++ CRLF) ++ t) ltac:(lia) ltac:(lia))
    as (e & Ef & Ei & El & Eh). set (h := head_line 36 (Z.of_nat (length data))) in *.
  assert (Hgen : forall u, u = h ++ (data ++ CRLF) ++ t -> bulk_of max u = Got (to_str data) (length (h ++ data ++ CRLF))).
  2: { by apply Hgen. }
  intros u Hu. assert (Hc : head u = Some 36) by (by rewrite Hu, Eh).
  destruct u as [|c u]; [done|]. injection Hc as ->. cbn [bulk_of]. rewrite Hu, Ef, Ei.
  change (negb (36 =? 36)) with false. cbn iota.
  replace ((Z.of_nat (length data) <? 0) || (max <? Z.of_nat (length data))) with false by lia.
  rewrite Nat2Z.id, (bool_decide_false (_ < _)%nat)
    by (rewrite !length_app; change (length CRLF) with 2%nat; lia).
  rewrite El. set (stop := (length h + length data)%nat).
  assert (Es : slice stop (stop + 2) (h ++ (data ++ CRLF) ++ t) = CRLF).
  { subst stop. rewrite <- Nat.add_assoc, slice_drop, drop_app_length.
    rewrite <- app_assoc, <- (Nat.add_0_r (length data)) at 1. rewrite slice_drop, drop_app_length. done. }
  rewrite Es, bool_decide_true by done. cbn [negb]. f_equal.
  - subst stop. rewrite <- (Nat.add_0_r (length h)) at 1. rewrite slice_drop, drop_app_length.
    unfold slice. rewrite drop_0, Nat.sub_0_r, <- app_assoc, take_app_length. done.
  - subst stop. rewrite !length_app. change (length CRLF) with 2%nat. lia.
Qed.

(** The text of an argument on the wire, and what fits a request. *)
Definition arg_text (a : PyArg) : pystr :=
  match a with AFloat f => format_float f | _ => str_of_arg a end.

Definition arg_fits (max : Z) (a : PyArg) : Prop :=
  exists b, to_bytes (arg_text a) = Some b /\ to_str b = arg_text a /\
    Z.of_nat (length b) <= max /\ Z.of_nat (length b) <= 2 ^ 64.

Definition request_fits (max : Z) (args : list PyArg) : Prop :=
  args <> [] /\ Z.of_nat (length args) <= MAX_ARRAY /\ Forall (arg_fits max) args.

Lemma concat_args_ok max args :
  Forall (arg_fits max) args -> exists datas, concat_ok encode_arg args = Ok (datas ≫= bulk) /\
    Forall2 (fun a b => to_str b = arg_text a) args datas /\
    Forall (fun b => Z.of_nat (length b) <= max /\ Z.of_nat (length b) <= 2 ^ 64) datas.
Proof.
  induction 1 as [|a args (b & Hb & Hs & Hm) Hargs IH]; [by exists []|].
  destruct IH as (datas & E & Hf & Hd). exists (b :: datas).
  cbn [concat_ok]. unfold encode_arg at 1, bulk_text, encode_text. fold (arg_text a).
  rewrite Hb, E. conj; [done|by constructor|by constructor].
Qed.

Lemma loop_view_bulks max datas f t pending :
  Forall (fun b => Z.of_nat (length b) <= max /\ Z.of_nat (length b) <= 2 ^ 64) datas ->
  (length datas < f)%nat ->
  loop_view f max ((datas ≫= bulk) ++ t) pending (Z.of_nat (length datas)) =
    (Ok (Some (pending ++ (to_str <$> datas))), mkView t None 0).
Proof.
  intros H. revert f pending. induction H as [|b datas [Hb Hb'] H IH]; intros f pending Hf.
  { destruct f; simpl; by rewrite app_nil_r. }
  destruct f as [|f]; [lia|]. cbn [loop_view length].
  destruct (Z.eqb_spec (Z.of_nat (S (length datas))) 0); [lia|].
  rewrite bind_cons, <- app_assoc, bulk_of_bulk by done. rewrite drop_app_length.
  replace (Z.of_nat (S (length datas)) - 1) with (Z.of_nat (length datas)) by lia.
  rewrite IH by (simpl in Hf; lia). by rewrite <- app_assoc.
Qed.

Lemma bulk_length data : (1 <= length (bulk data))%nat.
Proof. unfold bulk, head_line. simpl. lia. Qed.

Lemma bulks_length (datas : list bytes) : (length datas <= length (datas ≫= bulk))%nat.
Proof.
  induction datas as [|b datas IH]; [simpl; lia|]. rewrite bind_cons, length_app.
  pose proof (bulk_length b). simpl length at 1. lia.
Qed.

(** [encode_command] and [next_command] are inverse, whatever follows. *)
Lemma request_roundtrip max args t :
  request_fits max args ->
  exists raw, encode_command args = Ok raw /\
    next_view max (mkView (raw ++ t) None 0) = (Ok (Some (arg_text <$> args)), mkView t None 0).
Proof.
  intros (Hne & Hc & Hargs). destruct (concat_args_ok max args Hargs) as (datas & E & Hf & Hd).
  pose proof (Forall2_length _ _ _ Hf) as Hlen. unfold encode_command. rewrite E. eexists. split; [done|].
  destruct (head_line_parse 42 (Z.of_nat (length args)) ((datas ≫= bulk) ++ t) ltac:(lia)
    ltac:(unfold MAX_ARRAY in Hc; lia)) as (e & Ef & Ei & El & Eh).
  rewrite <- app_assoc. unfold next_view. cbn [v_unread v_pending v_remaining].
  set (u := head_line 42 (Z.of_nat (length args)) ++ (datas ≫= bulk) ++ t) in *.
  assert (Ed : drop (e + 2) u = (datas ≫= bulk) ++ t) by (subst u; by rewrite El, drop_app_length).
  clearbody u. destruct u as [|c u]; [done|]. injection Eh as -> _.
  change (negb (42 =? 42)) with false. cbn iota. rewrite Ef, Ei, Ed.
  assert (1 <= length args)%nat by (destruct args; simpl; [done|lia]).
  destruct (Z.leb_spec (Z.of_nat (length args)) 0); [lia|].
  destruct (Z.ltb_spec MAX_ARRAY (Z.of_nat (length args))); [lia|].
  unfold bulks_view. rewrite Hlen, loop_view_bulks; [|done|pose proof (bulks_length datas); rewrite length_app; lia].
  simpl. do 3 f_equal. clear -Hf. induction Hf as [|a b args datas Hab Hf IH]; [done|].
  rewrite !fmap_cons, Hab. by f_equal.
Qed.

(** * A pipeline of requests arrives in any pieces

    A whole request parses to its arguments whatever follows it, and no strict
    prefix of it parses to anything or is refused: the parser waits.  So the
    commands found do not depend on how the stream was cut. *)

Lemma prefix_split {A} (a b u w : list A) :
  a ++ b = u ++ w ->
  (exists w', a = u ++ w' /\ w' <> []) \/ (exists u', u = a ++ u' /\ b = u' ++ w).
Proof.
  intros E. destruct (decide (length u < length a)%nat) as [Hlt|Hge].
  - left. exists (drop (length u) a). split.
    + rewrite <- (take_drop (length u) a) at 1. f_equal.
      rewrite <- (take_app_le a b) by lia. by rewrite E, take_app_length.
    + intros Hn. apply (f_equal length) in Hn. rewrite length_drop in Hn. simpl in Hn. lia.
  - right. exists (drop (length a) u). assert (Hu : take (length a) u = a).
    { rewrite <- (take_app_le u w) by lia. by rewrite <- E, take_app_length. }
    split; [by rewrite <- Hu at 1; rewrite take_drop|].
    rewrite <- (drop_app_length a b), E, drop_app_le by lia. done.
Qed.

Lemma prefix_cases {A} (a b u w : list A) :
  a ++ b = u ++ w -> w <> [] ->
  (exists w', a = u ++ w' /\ w' <> []) \/ (exists u', u = a ++ u' /\ b = u' ++ w).
Proof. intros E _. by apply prefix_split. Qed.

Lemma find_crlf_prefix s u w :
  Forall (fun c => (c =? 13) = false) s -> s ++ CRLF = u ++ w -> w <> [] -> find_crlf u = None.
Proof.
  intros Hs. revert u. induction Hs as [|c s Hc Hs IH]; intros u E Hw.
  - destruct u as [|a [|b u]]; [done..|]. unfold CRLF in E. destruct u as [|? u]; by simplify_list_eq.
  - destruct u as [|a u]; [done|]. simpl in E. injection E as -> E. destruct u as [|b u]; [done|].
    rewrite find_crlf_cons, Hc. cbn [andb]. by rewrite (IH (b :: u) E Hw).
Qed.


(** ** Frames of requests *)
Definition request_frame (max : Z) (raw : bytes) (args : list pystr) : Prop :=
  (forall t, next_view max (mkView (raw ++ t) None 0) = (Ok (Some args), mkView t None 0)) /\
  (forall u w, raw = u ++ w -> w <> [] -> exists v', next_view max (mkView u None 0) = (Ok None, v')).

Lemma short_wait u : Z.of_nat (length u) <= MAX_INLINE -> too_long u = Wait.
Proof. intros H. unfold too_long. destruct (Z.ltb_spec MAX_INLINE (Z.of_nat (length u))); [lia|done]. Qed.

Lemma head_line_short kind n : Z.abs n <= 2 ^ 64 -> (length (head_line kind n) <= 100)%nat.
Proof.
  intros Hn. unfold head_line. simpl. rewrite length_app. simpl. unfold str_of_int.
  pose proof (dec_digits_length_bound (Z.abs n) 65 ltac:(lia)) as Hd.
  destruct (n <? 0); simpl; rewrite length_map; lia.
Qed.

Lemma head_line_prefix kind n u w :
  kind <> 13 -> Z.abs n <= 2 ^ 64 -> head_line kind n = u ++ w -> w <> [] ->
  find_crlf u = None /\ too_long u = Wait.
Proof.
  intros Hk Hn E Hw. split.
  - apply (find_crlf_prefix (kind :: str_of_int n) u w); [|done|done].
    constructor; [lia|apply str_of_int_line].
  - apply short_wait. pose proof (head_line_short kind n Hn) as Hl. rewrite E, length_app in Hl.
    unfold MAX_INLINE. lia.
Qed.

Lemma bulk_of_prefix max data u w :
  Z.of_nat (length data) <= max -> Z.of_nat (length data) <= 2 ^ 64 ->
  bulk data = u ++ w -> w <> [] -> bulk_of max u = Wait.
Proof.
  intros Hm Hn E Hw. unfold bulk in E. set (n := Z.of_nat (length data)) in *.
  apply prefix_cases in E as [(w' & E & Hw')|(u' & -> & E)]; [| |done].
  - destruct (head_line_prefix 36 n u w' ltac:(lia) ltac:(lia) E Hw') as [H1 H2].
    destruct u as [|c u]; [done|]. unfold head_line in E. injection E as <- _. cbn [bulk_of].
    change (negb (36 =? 36)) with false. cbn iota. by rewrite H1.
  - destruct (head_line_parse 36 n u' ltac:(lia) ltac:(lia)) as (e & Ef & Ei & El & Eh).
    set (v := head_line 36 n ++ u') in *. assert (Hv : head v = Some 36) by (by rewrite Eh).
    assert (Hlen : length v = (length (head_line 36 n) + length u')%nat) by (unfold v; apply length_app).
    clearbody v. destruct v as [|c v]; [done|]. injection Hv as ->. cbn [bulk_of].
    change (negb (36 =? 36)) with false. cbn iota. rewrite Ef, Ei.
    replace ((n <? 0) || (max <? n)) with false by lia. rewrite bool_decide_true; [done|].
    apply (f_equal length) in E. rewrite !length_app in E. destruct w; [done|]. simpl in E. unfold n. lia.
Qed.

Lemma loop_view_prefix max datas f u w pending :
  Forall (fun b => Z.of_nat (length b) <= max /\ Z.of_nat (length b) <= 2 ^ 64) datas ->
  (datas ≫= bulk) = u ++ w -> w <> [] ->
  exists v', loop_view f max u pending (Z.of_nat (length datas)) = (Ok None, v').
Proof.
  intros H. revert f u pending. induction H as [|b datas [Hb Hb'] H IH]; intros f u pending E Hw.
  { symmetry in E. by apply app_eq_nil in E as [_ ->]. }
  destruct f as [|f]; cbn [loop_view length];
    (destruct (Z.eqb_spec (Z.of_nat (S (length datas))) 0); [lia|]); [by eexists|].
  rewrite bind_cons in E. apply prefix_cases in E as [(w' & E & Hw')|(u' & -> & E)]; [| |done].
  - rewrite (bulk_of_prefix max b u w') by done. by eexists.
  - rewrite bulk_of_bulk, drop_app_length by done.
    replace (Z.of_nat (S (length datas)) - 1) with (Z.of_nat (length datas)) by lia. by apply IH.
Qed.

Lemma request_framed max args :
  request_fits max args ->
  exists raw, encode_command args = Ok raw /\ request_frame max raw (arg_text <$> args) /\ raw <> [].
Proof.
  intros Hfit. destruct (request_roundtrip max args [] Hfit) as (raw & Hraw & _). exists raw.
  split; [done|]. split; [split|].
  - intros t. destruct (request_roundtrip max args t Hfit) as (raw' & Hraw' & Hv).
    rewrite Hraw in Hraw'. by injection Hraw' as <-.
  - intros u w E Hw. destruct Hfit as (Hne & Hc & Hargs).
    destruct (concat_args_ok max args Hargs) as (datas & Ed & Hf & Hd).
    unfold encode_command in Hraw. rewrite Ed in Hraw.
    assert (Hr : raw = head_line 42 (Z.of_nat (length args)) ++ (datas ≫= bulk)) by congruence. rewrite Hr in E.
    pose proof (Forall2_length _ _ _ Hf) as Hlen. set (n := Z.of_nat (length args)) in *.
    assert (Hn : 1 <= n <= MAX_ARRAY) by (destruct args; simpl in *; [done|lia]).
    unfold MAX_ARRAY in Hn. unfold next_view. cbn [v_unread v_pending v_remaining].
    apply prefix_cases in E as [(w' & E & Hw')|(u' & -> & E)]; [| |done].
    + destruct (head_line_prefix 42 n u w' ltac:(lia) ltac:(lia) E Hw') as [H1 H2].
      destruct u as [|c u]; [by eexists|]. unfold head_line in E. injection E as <- _.
      change (negb (42 =? 42)) with false. cbn iota. rewrite H1. unfold stay. rewrite H2. by eexists.
    + destruct (head_line_parse 42 n u' ltac:(lia) ltac:(lia)) as (e & Ef & Ei & El & Eh).
      assert (Hdr : drop (e + 2) (head_line 42 n ++ u') = u') by (by rewrite El, drop_app_length).
      set (v := head_line 42 n ++ u') in *. clearbody v. destruct v as [|c v]; [done|]. injection Eh as -> _.
      change (negb (42 =? 42)) with false. cbn iota. rewrite Ef, Ei, Hdr.
      destruct (Z.leb_spec n 0); [lia|]. destruct (Z.ltb_spec MAX_ARRAY n); [unfold MAX_ARRAY in *; lia|].
      unfold bulks_view. unfold n. rewrite Hlen. by apply (loop_view_prefix max datas _ u' w).
  - unfold encode_command in Hraw. destruct (concat_ok encode_arg args); [|done]. by injection Hraw as <-.
Qed.

(** ** The parser after part of a stream

    [p] behaves as a new parser that was given [u]. *)
Definition received (max : Z) (u : bytes) (p : RequestParser) : Prop :=
  placed p /\ rp_max_bulk p = max /\
  forall d, next_view max (feed_view d (view p)) = next_view max (mkView (u ++ d) None 0).

Lemma received_new max : received max [] (new_parser max).
Proof. split; [|split]; [unfold placed; simpl; lia|done|done]. Qed.

Lemma received_feed max u d p : received max u p -> received max (u ++ d) (feed d p).
Proof.
  intros (Hp & Hm & Hv). destruct (feed_spec d p Hp) as (Hp' & Hview & Hm'). split; [done|].
  split; [congruence|]. intros d'. rewrite Hview. unfold feed_view at 1. simpl.
  rewrite <- !app_assoc. apply (Hv (d ++ d')).
Qed.

Lemma feed_view_nil v : feed_view [] v = v.
Proof. destruct v. unfold feed_view. simpl. by rewrite app_nil_r. Qed.

Lemma received_next max u p :
  received max u p ->
  exists r p', next_command p = (r, p') /\ placed p' /\ rp_max_bulk p' = max /\
    (r, view p') = next_view max (mkView u None 0) /\ (r = Ok None -> received max u p').
Proof.
  intros (Hp & Hm & Hv). destruct (next_command_view p Hp) as (r & p' & E & Hp' & Hm' & Hr).
  exists r, p'. rewrite Hm in *. pose proof (Hv []) as H0. rewrite feed_view_nil, app_nil_r in H0.
  split; [done|]. split; [done|]. split; [done|]. split; [congruence|]. intros ->.
  split; [done|]. split; [done|]. intros d. symmetry in Hr. rewrite (next_view_resume max (view p) (view p') d Hr).
  apply Hv.
Qed.

Lemma received_frame max raw args t p :
  request_frame max raw args -> received max (raw ++ t) p ->
  exists p', next_command p = (Ok (Some args), p') /\ received max t p'.
Proof.
  intros [Hf _] Hp. destruct (received_next _ _ _ Hp) as (r & p' & E & Hp' & Hm' & Hr & _).
  rewrite Hf in Hr. apply pair_equal_spec in Hr as [-> Hv]. exists p'. split; [done|]. split; [done|]. split; [done|].
  intros d. by rewrite Hv.
Qed.

Lemma received_part max raw args u w p :
  request_frame max raw args -> raw = u ++ w -> w <> [] -> received max u p ->
  exists p', next_command p = (Ok None, p') /\ received max u p'.
Proof.
  intros [_ Hf] E Hw Hp. destruct (Hf u w E Hw) as (v' & Hv).
  destruct (received_next _ _ _ Hp) as (r & p' & En & _ & _ & Hr & Hk).
  rewrite Hv in Hr. apply pair_equal_spec in Hr as [-> _]. exists p'. auto.
Qed.

Lemma received_nothing max p : received max [] p -> exists p', next_command p = (Ok None, p') /\ received max [] p'.
Proof.
  intros Hp. destruct (received_next _ _ _ Hp) as (r & p' & En & _ & _ & Hr & Hk).
  apply pair_equal_spec in Hr as [-> _]. exists p'. auto.
Qed.
