(* ===== verification/TcpServer.v ===== *)
(** * The RESP server (protocol/tcp_server.py)

    One connection: the commands of every read are found ([drain]), run and
    answered ([serve_client]).  Many connections: one commit of the log for all
    that ran in the same iteration of the event loop ([GroupCommit]). *)

From Stdlib Require Import String.
From S2P Require Import Prelude PyStr PyFloat Codec Errors Snapshot Registry Resp RespProofs.
Local Close Scope string_scope.

(** ** [_drain] *)
Abbreviation PM := (M exn RequestParser).

(** The commands received, the reply that ends the batch, whether to close. *)
Record Batch := mkBatch { bt_commands : list (list pystr); bt_trailer : list bytes; bt_close : bool }.

(** Every command found takes at least a byte of the buffer. *)
Fixpoint drain_loop (fuel : nat) (commands : list (list pystr)) : PM Batch :=
  let! r := catchM (let! c := next_command in ret (inl c)) (fun x => isinstance x ProtocolError)
              (fun x => ret (inr x)) in
  match r with
  | inr x => let! raw := lift (encode_error x) in ret (mkBatch commands [raw] true)
  | inl None => ret (mkBatch commands [] false)
  | inl (Some command) =>
      match fuel with
      | O => ret (mkBatch commands [] false)
      | S f =>
          match command with
          | [] => drain_loop f commands
          | name :: _ =>
              if bool_decide (str_upper name = lit "QUIT")
              then let! raw := lift (encode_reply OK) in ret (mkBatch commands [raw] true)
              else drain_loop f (commands ++ [command])
          end
      end
  end.

Definition drain : PM Batch := fun p => drain_loop (length (rp_buf p)) [] p.

(** ** A connection *)
Inductive HandlerResult := HReply (v : Reply) | HTakeover.
Inductive Answer := Bytes (b : bytes) | Takeover.

(** How a connection ended: the client closed it; QUIT or a protocol error; a
    command took it over; the commit of its writes failed; any other error. *)
Inductive Ended := AtEof | Closed | TakenOver | Dropped | Crashed.

Section Server.
Context {S : Type} (handler : list pystr -> M exn S HandlerResult).
(** The context manager [batch], or joining and awaiting the group commit. *)
Context (enter_batch exit_batch : M exn S unit).

Definition respond (command : list pystr) : M exn S Answer :=
  catchM
    (let! r := handler command in
     match r with
     | HTakeover => ret Takeover
     | HReply v => let! raw := lift (encode_reply v) in ret (Bytes raw)
     end)
    (fun _ => true)
    (fun x =>
       let! raw := lift (encode_error (if isinstance x KVStoreError then x
                                       else err KVStoreError "internal error")) in
       ret (Bytes raw)).

Definition run_batch (commands : list (list pystr)) : M exn S (list Answer) :=
  enter_batch;; finallyM (mapM_list respond commands) exit_batch.

(** The replies before the first takeover, if there is one. *)
Fixpoint before_takeover (l : list Answer) : list bytes * bool :=
  match l with
  | [] => ([], false)
  | Takeover :: _ => ([], true)
  | Bytes b :: l' => let '(bs, t) := before_takeover l' in (b :: bs, t)
  end.

(** The loop of [_serve_client] over the reads; an empty read is the end. *)
Fixpoint serve_client (reads : list bytes) (p : RequestParser) (s : S) : list bytes * Ended * S :=
  match reads with
  | [] | [] :: _ => ([], AtEof, s)
  | data :: rest =>
      match drain (feed data p) with
      | (Raise x, _) => ([], if isinstance x KVStoreError then Dropped else Crashed, s)
      | (Ok batch, p) =>
          match (match bt_commands batch with [] => ret [] | commands => run_batch commands end) s with
          | (Raise x, s) => ([], if isinstance x KVStoreError then Dropped else Crashed, s)
          | (Ok answers, s) =>
              match before_takeover answers with
              | (replies, true) => (replies, TakenOver, s)
              | (replies, false) =>
                  if bt_close batch then (replies ++ bt_trailer batch, Closed, s)
                  else
                    let '(more, ended, s) := serve_client rest p s in
                    (replies ++ bt_trailer batch ++ more, ended, s)
              end
          end
      end
  end.
End Server.

(** ** [GroupCommit] *)

(** [g_waiting]: the connections that have run their batch and await the
    commit, with their replies; [g_sent]: the replies written, in order. *)
Record Group (S : Type) := mkGroup {
  g_state : S;
  g_open : bool;
  g_joined : nat;
  g_commits : Z;
  g_waiting : list (nat * list Answer);
  g_sent : list (nat * list Answer);
  g_dropped : list nat
}.
Arguments mkGroup {S}. Arguments g_state {S}. Arguments g_open {S}. Arguments g_joined {S}.
Arguments g_commits {S}. Arguments g_waiting {S}. Arguments g_sent {S}. Arguments g_dropped {S}.

Section GroupCommit.
Context {S : Type} (handler : list pystr -> M exn S HandlerResult) (begin commit : M exn S unit).

(** [join], then the connection's batch, in one go: nothing else runs between. *)
Definition join_batch (conn : nat) (commands : list (list pystr)) (g : Group S) : Group S :=
  match (if g_open g then ret tt else begin) (g_state g) with
  | (Raise _, s) => mkGroup s (g_open g) (g_joined g) (g_commits g) (g_waiting g) (g_sent g) (g_dropped g ++ [conn])
  | (Ok _, s) =>
      match mapM_list (respond handler) commands s with
      | (Ok replies, s) =>
          mkGroup s true (g_joined g + 1) (g_commits g) (g_waiting g ++ [(conn, replies)]) (g_sent g) (g_dropped g)
      | (Raise _, s) =>
          mkGroup s true (g_joined g + 1) (g_commits g) (g_waiting g) (g_sent g) (g_dropped g ++ [conn])
      end
  end.

(** [_flush], which the first to join scheduled. *)
Definition flush_group (g : Group S) : Group S :=
  match commit (g_state g) with
  | (Ok _, s) => mkGroup s false 0 (g_commits g + 1) [] (g_sent g ++ g_waiting g) (g_dropped g)
  | (Raise _, s) => mkGroup s false 0 (g_commits g + 1) [] (g_sent g) (g_dropped g ++ (g_waiting g).*1)
  end.

(** The event loop runs batches of any connections and the flush, once one is
    scheduled, in any order; [allowed] are the commands clients send and [other]
    is whatever else runs between them. *)
Inductive loop_step (allowed : list pystr -> Prop) (other : S -> S -> Prop) : Group S -> Group S -> Prop :=
| step_batch conn commands g : Forall allowed commands -> loop_step allowed other g (join_batch conn commands g)
| step_flush g : g_open g = true -> loop_step allowed other g (flush_group g)
| step_other g s :
    other (g_state g) s ->
    loop_step allowed other g (mkGroup s (g_open g) (g_joined g) (g_commits g) (g_waiting g) (g_sent g) (g_dropped g)).
End GroupCommit.

(** ** The fuel of [drain] *)

(** A parser in the middle of a request is waiting for at least one argument. *)
Definition parser_ok (p : RequestParser) : Prop :=
  placed p /\ (is_Some (rp_pending p) -> 0 < rp_remaining p).

Lemma loop_view_progress f max u pending rem a v :
  loop_view f max u pending rem = (Ok a, v) -> 0 <= rem ->
  (length (v_unread v) <= length u)%nat /\
  match a with
  | Some _ => v_pending v = None /\ (0 < rem -> (length (v_unread v) < length u)%nat)
  | None => is_Some (v_pending v) /\ 0 < v_remaining v
  end.
Proof.
  revert u pending rem. induction f as [|f IH]; intros u pending rem; cbn [loop_view];
    (destruct (Z.eqb_spec rem 0) as [Hz|Hz]; [intros [= <- <-] ?; simpl; split; [done|]; split; [done|lia]|]).
  { intros [= <- <-] ?. simpl. split; [done|]. split; [by eexists|lia]. }
  destruct (bulk_of max u) as [|x|s n] eqn:E; [|done|].
  - intros [= <- <-] ?. simpl. split; [done|]. split; [by eexists|lia].
  - intros H Hrem. apply bulk_of_got in E. apply IH in H as [H1 H2]; [|lia]. rewrite length_drop in *.
    split; [lia|]. destruct a; [|done]. destruct H2 as [H2 _]. split; [done|]. lia.
Qed.

Lemma next_view_progress max v a v' :
  next_view max v = (Ok a, v') -> (is_Some (v_pending v) -> 0 < v_remaining v) ->
  (is_Some (v_pending v') -> 0 < v_remaining v') /\
  match a with Some _ => (length (v_unread v') < length (v_unread v))%nat | None => True end.
Proof.
  destruct v as [u pend rem]. unfold next_view. cbn [v_unread v_pending v_remaining]. intros H Hrem.
  assert (Hloop : forall u' pending r, bulks_view max u' pending r = (Ok a, v') -> 0 < r -> (length u' <= length u)%nat ->
    (is_Some (v_pending v') -> 0 < v_remaining v') /\
    match a with Some _ => (length (v_unread v') < length u)%nat | None => True end).
  { intros u' pending r Hb Hr Hl. apply loop_view_progress in Hb as [H1 H2]; [|lia].
    destruct a; [destruct H2 as [-> H2]|by destruct H2]. split; [by intros [? ?]|]. specialize (H2 Hr). lia. }
  destruct pend as [pending|]; [eapply Hloop; [done|apply Hrem; by eexists|lia]|].
  destruct u as [|c u]; [by injection H as <- <-|]. destruct (negb (c =? 42)).
  { unfold inline_view in H. cbn [v_unread v_pending v_remaining] in H.
    destruct (find_char 10 (c :: u)) as [e|]; [injection H as <- <-|].
    - simpl. split; [by intros [? ?]|]. rewrite Nat.add_comm, length_drop. simpl. lia.
    - unfold stay, too_long in H. destruct (MAX_INLINE <? _); [done|]. by injection H as <- <-. }
  destruct (find_crlf (c :: u)) as [e|] eqn:Ee.
  2: { unfold stay, too_long in H. destruct (MAX_INLINE <? _); [done|]. by injection H as <- <-. }
  apply find_crlf_bound in Ee. destruct (py_int_bytes _) as [count|]; [|done].
  destruct (Z.leb_spec count 0).
  { injection H as <- <-. cbn [v_pending v_unread]. split; [by intros [? ?]|]. rewrite length_drop. lia. }
  destruct (MAX_ARRAY <? count); [done|]. eapply Hloop; [done|lia|]. rewrite length_drop. lia.
Qed.

Lemma next_command_progress p a p' :
  parser_ok p -> next_command p = (Ok a, p') ->
  parser_ok p' /\ match a with Some _ => (length (unread p') < length (unread p))%nat | None => True end.
Proof.
  intros [Hp Hr] E. destruct (next_command_view p Hp) as (r & q & E' & Hq & _ & Hv).
  rewrite E in E'. injection E' as <- <-. symmetry in Hv.
  destruct (next_view_progress _ _ _ _ Hv Hr) as [H1 H2]. by split.
Qed.

(** As many rounds as there are bytes left are enough. *)
Lemma drain_loop_fuel f g commands p :
  parser_ok p -> (length (unread p) <= f)%nat -> (length (unread p) <= g)%nat ->
  drain_loop f commands p = drain_loop g commands p.
Proof.
  revert g commands p. induction f as [|f IH]; intros [|g] commands p Hok Hf Hg; [done|..];
    cbn [drain_loop]; unfold bindM, catchM;
    (destruct (next_command p) as [[[command|]|x] p'] eqn:E; [|done|by destruct (isinstance x ProtocolError)]);
    destruct (next_command_progress p _ p' Hok E) as [Hok' Hlt]; simpl; [lia|lia|].
  destruct command as [|name args]; [apply IH; [done|lia|lia]|].
  case_bool_decide; [done|]. apply IH; [done|lia|lia].
Qed.

(** * What the server guarantees its clients

    The commands run are the requests sent, each once and in order, however
    the stream was cut; a reply is sent only after the commit that covers the
    writes before it. *)

(** A command that is neither empty nor QUIT. *)
Definition plain (command : list pystr) : Prop :=
  match command with [] => False | name :: _ => str_upper name <> lit "QUIT" end.

(** What is received of the next request is not the whole of it. *)
Definition residue (u : bytes) (raws : list bytes) : Prop :=
  match raws with [] => u = [] | raw :: _ => (length u < length raw)%nat end.

(** What a part of a stream of requests drains to. *)
Lemma drain_stream max raws cmds u w f commands p :
  Forall2 (request_frame max) raws cmds -> Forall (fun raw => raw <> []) raws -> Forall plain cmds ->
  received max u p -> parser_ok p -> mjoin raws = u ++ w -> (length u <= f)%nat ->
  exists k p' u', drain_loop f commands p = (Ok (mkBatch (commands ++ take k cmds) [] false), p') /\
    received max u' p' /\ parser_ok p' /\ mjoin (drop k raws) = u' ++ w /\ residue u' (drop k raws).
Proof.
  intros Hall Hne Hpl. revert u f commands p.
  assert (Hwait : forall f commands p p', next_command p = (Ok None, p') ->
    drain_loop f commands p = (Ok (mkBatch (commands ++ []) [] false), p')).
  { intros f commands p p' En. rewrite app_nil_r.
    destruct f; cbn [drain_loop]; unfold bindM, catchM; by rewrite En. }
  induction Hall as [|raw cmd raws cmds Hf Hall IH]; intros u f commands p Hp Hok E Hlen.
  - simpl in E. symmetry in E. apply app_eq_nil in E as [-> ->].
    destruct (received_nothing max p Hp) as (p' & En & Hp'). exists 0%nat, p', [].
    split; [by apply Hwait|]. split; [done|]. split; [|done]. by eapply next_command_progress.
  - inversion_clear Hne as [|? ? Hr Hne']. inversion_clear Hpl as [|? ? Hc Hpl'].
    change (mjoin (raw :: raws)) with (raw ++ mjoin raws) in E.
    destruct (prefix_split _ _ _ _ E) as [(w' & -> & Hw')|(u' & -> & E')].
    + destruct (received_part max _ cmd u w' p Hf eq_refl Hw' Hp) as (p' & En & Hp').
      exists 0%nat, p', u. split; [by apply Hwait|]. split; [done|].
      split; [by eapply next_command_progress|]. split; [done|]. simpl. rewrite length_app.
      destruct w'; [done|simpl; lia].
    + destruct (received_frame max raw cmd u' p Hf Hp) as (p' & En & Hp').
      destruct (next_command_progress p _ p' Hok En) as [Hok' _].
      rewrite length_app in Hlen. destruct raw as [|b raw]; [done|]. simpl in Hlen.
      destruct f as [|f]; [lia|]. destruct cmd as [|name args]; [done|]. simpl in Hc.
      destruct (IH Hne' Hpl' u' f (commands ++ [name :: args]) p' Hp' Hok' E' ltac:(lia))
        as (k & q & v & Ed & Hq & Hoq & Hv & Hres).
      exists (S k), q, v. split; [|done]. cbn [drain_loop]. unfold bindM at 1, catchM at 1, bindM at 1. rewrite En.
      simpl. rewrite bool_decide_false by done. rewrite Ed. do 3 f_equal. by rewrite <- app_assoc.
Qed.

Lemma feed_ok d p : parser_ok p -> parser_ok (feed d p).
Proof. intros [Hp Hr]. split; [by apply feed_spec|done]. Qed.

Section Connection.
Context {S : Type} (handler : list pystr -> M exn S HandlerResult) (enter_batch exit_batch : M exn S unit).

(** The commands of each read, run one group after the other. *)
Fixpoint run_groups (groups : list (list (list pystr))) (s : S) : list bytes * Ended * S :=
  match groups with
  | [] => ([], AtEof, s)
  | commands :: rest =>
      match (match commands with [] => ret [] | _ => run_batch handler enter_batch exit_batch commands end) s with
      | (Raise x, s) => ([], if isinstance x KVStoreError then Dropped else Crashed, s)
      | (Ok answers, s) =>
          match before_takeover answers with
          | (replies, true) => (replies, TakenOver, s)
          | (replies, false) =>
              let '(more, ended, s) := run_groups rest s in (replies ++ more, ended, s)
          end
      end
  end.

Lemma serve_stream max reads raws cmds u p s :
  Forall2 (request_frame max) raws cmds -> Forall (fun raw => raw <> []) raws -> Forall plain cmds ->
  Forall (fun data => data <> []) reads -> received max u p -> parser_ok p ->
  mjoin raws = u ++ mjoin reads -> residue u raws ->
  exists groups, mjoin groups = cmds /\ length groups = length reads /\
    serve_client handler enter_batch exit_batch reads p s = run_groups groups s.
Proof.
  intros Hall Hne Hpl Hrd. revert raws cmds Hall Hne Hpl u p s.
  induction Hrd as [|data reads Hd Hrd IH]; intros raws cmds Hall Hne Hpl u p s Hp Hok E Hres.
  - exists []. split; [|done]. destruct Hall as [|raw cmd raws cmds _ _]; [done|]. exfalso.
    apply (f_equal length) in E. change (mjoin (raw :: raws)) with (raw ++ mjoin raws) in E.
    rewrite !length_app in E. simpl in *. lia.
  - change (mjoin (data :: reads)) with (data ++ mjoin reads) in E. rewrite app_assoc in E.
    pose proof (received_feed max u data p Hp) as Hp1. pose proof (feed_ok data p Hok) as Hok1.
    destruct (drain_stream max raws cmds _ _ (length (u ++ data) + length (rp_buf (feed data p))) [] _ Hall Hne Hpl Hp1 Hok1 E
      ltac:(lia)) as (k & p' & u' & Ed & Hp' & Hok' & E' & Hres').
    assert (Hdr : drain (feed data p) = (Ok (mkBatch (take k cmds) [] false), p')).
    { unfold drain. etransitivity; [|exact Ed]. apply drain_loop_fuel; [done| |].
      - unfold unread. rewrite length_drop. lia.
      - unfold unread. rewrite length_drop. lia. }
    assert (Hsub : forall (Q : bytes -> Prop), Forall Q raws -> Forall Q (drop k raws)) by (intros; by apply Forall_drop).
    destruct (IH (drop k raws) (drop k cmds)) with (u := u') (p := p')
      (s := ((match take k cmds with [] => ret [] | c => run_batch handler enter_batch exit_batch c end) s).2)
      as (groups & Hg & Hlen & Hserve); [by apply Forall2_drop|auto|by apply Forall_drop|done|done|done|done|].
    exists (take k cmds :: groups). split; [|split; [simpl; by rewrite Hlen|]].
    + change (take k cmds ++ mjoin groups = cmds). by rewrite Hg, take_drop.
    + cbn [serve_client run_groups]. destruct data as [|b data]; [done|]. rewrite Hdr. cbn [bt_commands bt_close bt_trailer].
      assert (Hm : match take k cmds with [] => ret [] | c => run_batch handler enter_batch exit_batch c end =
        match take k cmds with [] => ret [] | _ => run_batch handler enter_batch exit_batch (take k cmds) end)
        by (by destruct (take k cmds)).
      rewrite <- Hm.
      destruct ((match take k cmds with [] => ret [] | c => run_batch handler enter_batch exit_batch c end) s)
        as [[answers|x] s1]; [|done].
      destruct (before_takeover answers) as [replies [|]]; [done|]. simpl in Hserve. rewrite Hserve.
      by destruct (run_groups groups s1) as [[more ended] s2].
Qed.
End Connection.

Lemma encode_stream max (requests : list (list PyArg)) stream :
  Forall (request_fits max) requests -> concat_ok encode_command requests = Ok stream ->
  exists raws : list bytes, stream = mjoin raws /\ Forall (fun raw => raw <> []) raws /\
    Forall2 (request_frame max) raws (map (fmap arg_text) requests).
Proof.
  intros Hall. revert stream. induction Hall as [|args requests Hr Hall IH]; intros stream E.
  - injection E as <-. by exists [].
  - cbn [concat_ok] in E. destruct (request_framed max args Hr) as (raw & Hraw & Hf & Hne). rewrite Hraw in E.
    destruct (concat_ok encode_command requests) as [rest|] eqn:Er; [|done]. injection E as <-.
    destruct (IH rest eq_refl) as (raws & -> & Hns & Hfs). exists (raw :: raws). split; [done|].
    split; by constructor.
Qed.

Lemma serve_new {S} (handler : list pystr -> M exn S HandlerResult) enter_batch exit_batch max reads raws cmds s :
  Forall2 (request_frame max) raws cmds -> Forall (fun raw => raw <> []) raws -> Forall plain cmds ->
  Forall (fun data => data <> []) reads -> mjoin reads = mjoin raws ->
  exists groups, mjoin groups = cmds /\ length groups = length reads /\
    serve_client handler enter_batch exit_batch reads (new_parser max) s =
    run_groups handler enter_batch exit_batch groups s.
Proof.
  intros Hfs Hne Hpl Hrd E.
  eapply (serve_stream handler enter_batch exit_batch max reads raws cmds []); try done.
  - apply received_new.
  - split; [unfold placed; simpl; lia|]. by intros [? ?].
  - destruct raws as [|raw raws]; [done|]. inversion_clear Hne as [|? ? Hr _]. simpl. destruct raw; [done|simpl; lia].
Qed.

(** C17. A pipeline of requests may reach the server cut into reads in any way,
    in the middle of a number or of a value: the commands run are exactly the
    requests that were encoded, each once and in order, each read running the
    ones it completes, and the connection is never refused. *)
Theorem pipeline_in_order {S} (handler : list pystr -> M exn S HandlerResult) enter_batch exit_batch max
    (requests : list (list PyArg)) stream reads s
    (Hfit : Forall (request_fits max) requests) (Hplain : Forall (fun args => plain (arg_text <$> args)) requests)
    (Henc : concat_ok encode_command requests = Ok stream)
    (Hreads : Forall (fun data => data <> []) reads) (Hcut : mjoin reads = stream) :
  exists groups : list (list (list pystr)), mjoin groups = (map (fmap arg_text) requests) /\ length groups = length reads /\
    serve_client handler enter_batch exit_batch reads (new_parser max) s =
    run_groups handler enter_batch exit_batch groups s.
Proof.
  destruct (encode_stream max requests stream Hfit Henc) as (raws & -> & Hne & Hfs).
  eapply serve_new; try done. by apply Forall_fmap.
Qed.

(** PING, ECHO hi and an unknown command, cut after the second byte and in the
    middle of the second request. *)
Definition demo_requests : list (list PyArg) :=
  [[AStr (lit "PING")]; [AStr (lit "ECHO"); AStr (lit "hi")]; [AStr (lit "NOPE"); AInt 42]].
Definition demo_stream : bytes :=
  match concat_ok encode_command demo_requests with Ok b => b | Raise _ => [] end.
Definition demo_handler (command : list pystr) : M exn Z HandlerResult :=
  fun n => match command with
           | [_; text] => (Ok (HReply (RText text)), n + 1)
           | _ => (Ok (HReply PONG), n + 1)
           end.

Definition demo_reads : list bytes := [take 2 demo_stream; take 25 (drop 2 demo_stream); drop 27 demo_stream].

Local Ltac fits := eexists; split; [vm_compute; reflexivity|]; split; [vm_compute; reflexivity|]; split; by vm_compute.

Lemma demo_requests_fit : Forall (request_fits DEFAULT_MAX_BULK) demo_requests.
Proof.
  repeat (apply Forall_cons; split); try (by apply Forall_nil); (split; [done|split; [by vm_compute|]]);
    repeat (apply Forall_cons; split); try (by apply Forall_nil); fits.
Qed.

Lemma demo_requests_plain : Forall (fun args => plain (arg_text <$> args)) demo_requests.
Proof. repeat constructor; by vm_compute. Qed.

Lemma pipeline_in_order_witness :
  exists groups : list (list (list pystr)),
    mjoin groups = [[lit "PING"]; [lit "ECHO"; lit "hi"]; [lit "NOPE"; lit "42"]] /\ length groups = 3%nat /\
    serve_client demo_handler (ret tt) (ret tt) demo_reads (new_parser DEFAULT_MAX_BULK) 0 =
    run_groups demo_handler (ret tt) (ret tt) groups 0.
Proof.
  apply (pipeline_in_order demo_handler (ret tt) (ret tt) DEFAULT_MAX_BULK demo_requests demo_stream demo_reads 0).
  - apply demo_requests_fit.
  - apply demo_requests_plain.
  - by vm_compute.
  - repeat constructor; by vm_compute.
  - by vm_compute.
Defined.
