(* ===== verification/Replies.v ===== *)
(** * The reply parser (protocol/resp.py, [ReplyParser])

    Replies as a client sees them, the incremental parser, and its view: what
    it does is a function of the bytes not read yet. *)

From Stdlib Require Import String.
From S2P Require Import Prelude PyStr PyFloat Errors Codec Snapshot Registry Resp RespProofs.
Local Close Scope string_scope.

Inductive PReply :=
| PNone
| PStatus (s : pystr)
| PText (s : pystr)
| PInt (z : Z)
| PError (e : exn)
| PArray (l : list PReply).

(** [repr(chr(c))] of a byte. *)
Definition hex_digit (d : Z) : Z := if d <? 10 then 48 + d else 87 + d.
Definition char_repr (c : Z) : pystr :=
  if c =? 39 then [34; 39; 34]
  else
    let body :=
      if c =? 92 then [92; 92]
      else if c =? 9 then lit "\t" else if c =? 10 then lit "\n" else if c =? 13 then lit "\r"
      else if (c <? 32) || ((127 <=? c) && (c <=? 160)) || (c =? 173)
      then lit "\x" ++ [hex_digit (c / 16); hex_digit (c mod 16)]
      else [c] in
    39 :: body ++ [39].

Section Parser.
(** The case of characters beyond ASCII ([str.isupper]). *)
Context (unicode_case : Z -> option bool).

(** [_parse]: the reply at [pos] and the position after it, or [None] for
    [NOT_READY]; [parse_items] is its loop over the elements of an array.
    Every call and every element lies further on in the buffer. *)
Fixpoint parse_reply (fuel : nat) (buf : bytes) (pos : nat) : result exn (option (PReply * nat)) :=
  match fuel with
  | O => Ok None
  | S f =>
      match find_crlf_from pos buf with
      | None => Ok None
      | Some eol =>
          let kind := default 0 (buf !! pos) in
          let line := slice (pos + 1) eol buf in
          let after := (eol + 2)%nat in
          if kind =? 43 then Ok (Some (PStatus (to_str line), after))
          else if kind =? 45 then Ok (Some (PError (from_resp unicode_case (to_str line)), after))
          else if kind =? 58 then
            match py_int_bytes line with
            | Some n => Ok (Some (PInt n, after))
            | None => Raise (err ProtocolError "invalid integer reply")
            end
          else if kind =? 36 then
            match py_int_bytes line with
            | None => Raise (err ProtocolError "invalid bulk length")
            | Some size =>
                if size <? 0 then Ok (Some (PNone, after))
                else
                  let stop := (after + Z.to_nat size)%nat in
                  if bool_decide (length buf < stop + 2)%nat then Ok None
                  else Ok (Some (PText (to_str (slice after stop buf)), (stop + 2)%nat))
            end
          else if kind =? 42 then
            match py_int_bytes line with
            | None => Raise (err ProtocolError "invalid multibulk length")
            | Some count =>
                if count <? 0 then Ok (Some (PNone, after))
                else
                  match parse_items f buf count after with
                  | Ok (Some (items, after)) => Ok (Some (PArray items, after))
                  | Ok None => Ok None
                  | Raise x => Raise x
                  end
            end
          else Raise (new_exn ProtocolError (lit "unexpected reply type byte " ++ char_repr kind) None)
      end
  end
with parse_items (fuel : nat) (buf : bytes) (count : Z) (after : nat) : result exn (option (list PReply * nat)) :=
  match fuel with
  | O => Ok None
  | S f =>
      if count <=? 0 then Ok (Some ([], after))
      else
        match parse_reply f buf after with
        | Ok (Some (item, after)) =>
            match parse_items f buf (count - 1) after with
            | Ok (Some (items, after)) => Ok (Some (item :: items, after))
            | Ok None => Ok None
            | Raise x => Raise x
            end
        | Ok None => Ok None
        | Raise x => Raise x
        end
  end.

Record ReplyParser := mkReplyParser { yp_buf : bytes; yp_pos : nat }.
Definition new_reply_parser : ReplyParser := mkReplyParser [] 0.

Definition feed_reply (data : bytes) (p : ReplyParser) : ReplyParser :=
  mkReplyParser (yp_buf p ++ data) (yp_pos p).

(** Enough fuel for a buffer: see [parse_fuel]. *)
Definition reply_fuel (buf : bytes) : nat := 2 * length buf + 3.

Definition next_reply : M exn ReplyParser (option PReply) :=
  let! p := getM in
  let! r := lift (parse_reply (reply_fuel (yp_buf p)) (yp_buf p) (yp_pos p)) in
  match r with
  | None => ret None
  | Some (value, pos) =>
      putM (if (pos =? length (yp_buf p))%nat then mkReplyParser [] 0
            else if 64 * 1024 <? Z.of_nat pos then mkReplyParser (drop pos (yp_buf p)) 0
            else mkReplyParser (yp_buf p) pos);;
      ret (Some value)
  end.

(** ** The parser as a function of what is not read yet *)
Fixpoint parse_at (fuel : nat) (u : bytes) : result exn (option (PReply * nat)) :=
  match fuel with
  | O => Ok None
  | S f =>
      match find_crlf u with
      | None => Ok None
      | Some e =>
          let kind := default 0 (head u) in
          let line := slice 1 e u in
          let after := (e + 2)%nat in
          if kind =? 43 then Ok (Some (PStatus (to_str line), after))
          else if kind =? 45 then Ok (Some (PError (from_resp unicode_case (to_str line)), after))
          else if kind =? 58 then
            match py_int_bytes line with
            | Some n => Ok (Some (PInt n, after))
            | None => Raise (err ProtocolError "invalid integer reply")
            end
          else if kind =? 36 then
            match py_int_bytes line with
            | None => Raise (err ProtocolError "invalid bulk length")
            | Some size =>
                if size <? 0 then Ok (Some (PNone, after))
                else
                  let stop := (after + Z.to_nat size)%nat in
                  if bool_decide (length u < stop + 2)%nat then Ok None
                  else Ok (Some (PText (to_str (slice after stop u)), (stop + 2)%nat))
            end
          else if kind =? 42 then
            match py_int_bytes line with
            | None => Raise (err ProtocolError "invalid multibulk length")
            | Some count =>
                if count <? 0 then Ok (Some (PNone, after))
                else
                  match items_at f (drop after u) count with
                  | Ok (Some (items, n)) => Ok (Some (PArray items, (after + n)%nat))
                  | Ok None => Ok None
                  | Raise x => Raise x
                  end
            end
          else Raise (new_exn ProtocolError (lit "unexpected reply type byte " ++ char_repr kind) None)
      end
  end
with items_at (fuel : nat) (u : bytes) (count : Z) : result exn (option (list PReply * nat)) :=
  match fuel with
  | O => Ok None
  | S f =>
      if count <=? 0 then Ok (Some ([], 0%nat))
      else
        match parse_at f u with
        | Ok (Some (item, n)) =>
            match items_at f (drop n u) (count - 1) with
            | Ok (Some (items, m)) => Ok (Some (item :: items, (n + m)%nat))
            | Ok None => Ok None
            | Raise x => Raise x
            end
        | Ok None => Ok None
        | Raise x => Raise x
        end
  end.

Definition shifted {A} (pos : nat) (r : result exn (option (A * nat))) : result exn (option (A * nat)) :=
  match r with
  | Ok (Some (a, n)) => Ok (Some (a, (pos + n)%nat))
  | Ok None => Ok None
  | Raise x => Raise x
  end.

Lemma lookup_head_drop {A} (l : list A) n : l !! n = head (drop n l).
Proof. symmetry. rewrite head_lookup, lookup_drop. f_equal. lia. Qed.

(** A reply takes at least a type byte and a line end. *)
Lemma parse_at_bound f :
  (forall u v n, parse_at f u = Ok (Some (v, n)) -> (3 <= n <= length u)%nat) /\
  (forall u count vs n, items_at f u count = Ok (Some (vs, n)) -> (n <= length u)%nat).
Proof.
  induction f as [|f [IHp IHi]]; [done|]. split.
  - intros u v n. cbn [parse_at]. destruct (find_crlf u) as [e|] eqn:Ee; [|done].
    assert (He : (1 <= e)%nat \/ head u = Some 13).
    { destruct u as [|a u]; [done|]. destruct e; [right|left; lia]. destruct u as [|b u]; [done|].
      rewrite find_crlf_cons in Ee. destruct (Z.eqb_spec a 13) as [->|]; [done|]. cbn [andb] in Ee.
      apply fmap_Some in Ee as (k & _ & ?). done. }
    apply find_crlf_bound in Ee. destruct He as [He| ->]; [|done].
    destruct (default 0 (head u) =? 43); [intros [= _ <-]; lia|].
    destruct (default 0 (head u) =? 45); [intros [= _ <-]; lia|].
    destruct (default 0 (head u) =? 58); [destruct (py_int_bytes _); intros [= _ <-]; lia|].
    destruct (default 0 (head u) =? 36).
    { destruct (py_int_bytes _) as [size|]; [|done]. destruct (size <? 0); [intros [= _ <-]; lia|].
      case_bool_decide; [done|]. intros [= _ <-]. lia. }
    destruct (default 0 (head u) =? 42); [|done].
    destruct (py_int_bytes _) as [count|]; [|done]. destruct (count <? 0); [intros [= _ <-]; lia|].
    destruct (items_at f (drop (e + 2) u) count) as [[[items m]|]|] eqn:E; [|done..].
    apply IHi in E. rewrite length_drop in E. intros [= _ <-]. lia.
  - intros u count vs n. cbn [items_at]. destruct (count <=? 0); [intros [= _ <-]; lia|].
    destruct (parse_at f u) as [[[item m]|]|] eqn:E; [|done..]. apply IHp in E.
    destruct (items_at f (drop m u) (count - 1)) as [[[items k]|]|] eqn:E2; [|done..].
    apply IHi in E2. rewrite length_drop in E2. intros [= _ <-]. lia.
Qed.

Lemma parse_reply_at f buf :
  (forall pos, (pos <= length buf)%nat -> parse_reply f buf pos = shifted pos (parse_at f (drop pos buf))) /\
  (forall count pos, (pos <= length buf)%nat ->
     parse_items f buf count pos = shifted pos (items_at f (drop pos buf) count)).
Proof.
  induction f as [|f [IHp IHi]]; [done|]. split.
  - intros pos Hpos. cbn [parse_reply parse_at]. unfold find_crlf_from.
    destruct (find_crlf (drop pos buf)) as [e|] eqn:Ee; [|done]. cbn [fmap option_fmap option_map].
    apply find_crlf_bound in Ee. rewrite length_drop in Ee.
    rewrite lookup_head_drop. replace (pos + e + 2)%nat with (pos + (e + 2))%nat by lia.
    rewrite !slice_drop. set (u := drop pos buf) in *. set (line := slice 1 e u).
    repeat (destruct (_ =? _)%Z; [try done|]); [| | |done].
    + by destruct (py_int_bytes line).
    + destruct (py_int_bytes line) as [size|]; [|done]. destruct (size <? 0); [done|].
      replace (pos + (e + 2) + Z.to_nat size)%nat with (pos + (e + 2 + Z.to_nat size))%nat by lia.
      rewrite slice_drop. fold u.
      rewrite (bool_decide_ext (length buf < pos + (e + 2 + Z.to_nat size) + 2)%nat
                 (length u < e + 2 + Z.to_nat size + 2)%nat) by (subst u; rewrite length_drop; lia).
      case_bool_decide; [done|]. cbn [shifted]. do 3 f_equal. lia.
    + destruct (py_int_bytes line) as [count|]; [|done]. destruct (count <? 0); [done|].
      rewrite IHi by lia. subst u. rewrite drop_drop.
      destruct (items_at f (drop (pos + (e + 2)) buf) count) as [[[items n]|]|]; [|done..].
      cbn [shifted]. do 3 f_equal. lia.
  - intros count pos Hpos. cbn [parse_items items_at]. destruct (count <=? 0).
    { cbn [shifted]. by rewrite Nat.add_0_r. }
    rewrite IHp by done. destruct (parse_at f (drop pos buf)) as [[[item n]|]|] eqn:E; [|done..]. cbn [shifted].
    apply parse_at_bound in E. rewrite length_drop in E. rewrite IHi, drop_drop by lia.
    destruct (items_at f (drop (pos + n) buf) (count - 1)) as [[[items m]|]|]; [|done..].
    cbn [shifted]. do 3 f_equal. lia.
Qed.

(** More fuel than twice the bytes makes no difference. *)
Lemma parse_fuel f :
  (forall u g, (2 * length u + 1 <= f)%nat -> (f <= g)%nat -> parse_at g u = parse_at f u) /\
  (forall u count g, (2 * length u + 2 <= f)%nat -> (f <= g)%nat -> items_at g u count = items_at f u count).
Proof.
  induction f as [|f [IHp IHi]]; [split; intros; lia|]. split.
  - intros u g Hf Hg. destruct g as [|g]; [lia|]. cbn [parse_at].
    destruct (find_crlf u) as [e|] eqn:Ee; [|done]. apply find_crlf_bound in Ee.
    repeat (destruct (default 0 (head u) =? _); [done|]).
    destruct (default 0 (head u) =? 42); [|done]. destruct (py_int_bytes _) as [count|]; [|done].
    destruct (count <? 0); [done|]. rewrite (IHi (drop (e + 2) u) _ g); [done|rewrite length_drop; lia|lia].
  - intros u count g Hf Hg. destruct g as [|g]; [lia|]. cbn [items_at]. destruct (count <=? 0); [done|].
    rewrite (IHp u g) by lia. destruct (parse_at f u) as [[[item n]|]|] eqn:E; [|done..].
    apply parse_at_bound in E. rewrite (IHi (drop n u) _ g); [done|rewrite length_drop; lia|lia].
Qed.

(** ** Frames

    [raw] is a whole reply [v]: with anything after it it parses to [v], and
    no strict prefix of it parses to anything. *)
Definition framed (raw : bytes) (v : PReply) : Prop :=
  (forall t f, (2 * length (raw ++ t) + 1 <= f)%nat -> parse_at f (raw ++ t) = Ok (Some (v, length raw))) /\
  (forall u w f, raw = u ++ w -> w <> [] -> (2 * length u + 1 <= f)%nat -> parse_at f u = Ok None).

(** A reply that is one line. *)
Lemma framed_line kind line v :
  kind <> 13 -> Forall (fun c => (c =? 13) = false) line ->
  (forall f t, parse_at (S f) ((kind :: line ++ CRLF) ++ t) = Ok (Some (v, (length line + 3)%nat))) ->
  framed (kind :: line ++ CRLF) v.
Proof.
  intros Hk Hl Hp. split.
  - intros t f Hf. destruct f as [|f]; [lia|]. rewrite Hp. do 3 f_equal. simpl. rewrite length_app. simpl. lia.
  - intros u w f E Hw _. destruct f as [|f]; [done|]. cbn [parse_at].
    rewrite (find_crlf_prefix (kind :: line) u w); [done|constructor; [lia|done]|done|done].
Qed.

Lemma line_at kind line t :
  kind <> 13 -> Forall (fun c => (c =? 13) = false) line ->
  find_crlf ((kind :: line ++ CRLF) ++ t) = Some (S (length line)) /\
  slice 1 (S (length line)) ((kind :: line ++ CRLF) ++ t) = line.
Proof.
  intros Hk Hl. replace ((kind :: line ++ CRLF) ++ t) with ((kind :: line) ++ CRLF ++ t)
    by (simpl; by rewrite <- app_assoc).
  split; [rewrite find_crlf_line; [done|constructor; [lia|done]]|].
  unfold slice. simpl. by rewrite drop_0, Nat.sub_0_r, take_app_length.
Qed.

Ltac one_line Hl :=
  apply framed_line; [lia|exact Hl|];
  intros f t; cbn [parse_at];
  match goal with |- context [find_crlf ((?k :: ?line ++ CRLF) ++ ?t)] =>
    destruct (line_at k line t ltac:(lia) Hl) as [-> ->] end;
  cbn [head app default from_option id Z.eqb Pos.eqb].

Lemma framed_status b : Forall (fun c => (c =? 13) = false) b -> framed (43 :: b ++ CRLF) (PStatus (to_str b)).
Proof. intros Hb. one_line Hb. do 3 f_equal. lia. Qed.

Lemma framed_error b :
  Forall (fun c => (c =? 13) = false) b -> framed (45 :: b ++ CRLF) (PError (from_resp unicode_case (to_str b))).
Proof. intros Hb. one_line Hb. do 3 f_equal. lia. Qed.

Lemma framed_int z : Z.abs z <= 2 ^ 64 -> framed (head_line 58 z) (PInt z).
Proof.
  intros Hz. unfold head_line. one_line (str_of_int_line z).
  rewrite (proj2 (py_int_str_of_int64 z Hz)). do 3 f_equal. lia.
Qed.

Lemma framed_none : framed (head_line 36 (-1)) PNone.
Proof.
  unfold head_line. one_line (str_of_int_line (-1)).
  rewrite (proj2 (py_int_str_of_int64 (-1) ltac:(lia))). do 3 f_equal.
Qed.

Lemma framed_bulk b : Z.of_nat (length b) <= 2 ^ 64 -> framed (bulk b) (PText (to_str b)).
Proof.
  intros Hb. unfold bulk. set (n := Z.of_nat (length b)). pose proof (str_of_int_line n) as Hl.
  pose proof (proj2 (py_int_str_of_int64 n ltac:(lia))) as Hn. split.
  - intros t f Hf. destruct f as [|f]; [lia|]. rewrite <- app_assoc. unfold head_line. cbn [parse_at].
    destruct (line_at 36 (str_of_int n) ((b ++ CRLF) ++ t) ltac:(lia) Hl) as [-> ->].
    cbn [head app default from_option id Z.eqb Pos.eqb]. rewrite Hn.
    destruct (Z.ltb_spec n 0); [lia|]. assert (Hz : Z.to_nat n = length b) by (unfold n; lia). rewrite !Hz.
    set (k := length (str_of_int n)).
    assert (Hk : length (36 :: str_of_int n ++ CRLF) = (S k + 2)%nat) by (simpl; rewrite length_app; simpl; lia).
    rewrite bool_decide_false by (rewrite app_comm_cons, !length_app, Hk; simpl; lia).
    rewrite app_comm_cons, <- Hk. do 3 f_equal.
    + rewrite <- (Nat.add_0_r (length (36 :: _))) at 1. rewrite slice_drop, drop_app_length.
      unfold slice. by rewrite drop_0, Nat.sub_0_r, <- app_assoc, take_app_length.
    + simpl. rewrite !length_app. simpl. lia.
  - intros u w f E Hw _. apply prefix_cases in E as [(w' & E & Hw')|(u' & -> & E)]; [| |done].
    + destruct f as [|f]; [done|]. cbn [parse_at].
      rewrite (find_crlf_prefix (36 :: str_of_int n) u w'); [done|constructor; [lia|done]|done|done].
    + destruct f as [|f]; [done|]. unfold head_line. cbn [parse_at].
      destruct (line_at 36 (str_of_int n) u' ltac:(lia) Hl) as [-> ->].
      cbn [head app default from_option id Z.eqb Pos.eqb]. rewrite Hn.
      destruct (Z.ltb_spec n 0); [lia|]. rewrite bool_decide_true; [done|].
      apply (f_equal length) in E. rewrite !length_app in E. destruct w; [done|]. simpl in E.
      simpl. rewrite !length_app. unfold n. simpl. lia.
Qed.

Lemma framed_items raws vs :
  Forall2 framed raws vs ->
  (forall t f, (2 * length (mjoin raws ++ t) + 2 <= f)%nat ->
     items_at f (mjoin raws ++ t) (Z.of_nat (length vs)) = Ok (Some (vs, length (mjoin raws)))) /\
  (forall u w f, mjoin raws = u ++ w -> w <> [] -> (2 * length u + 2 <= f)%nat ->
     items_at f u (Z.of_nat (length vs)) = Ok None).
Proof.
  induction 1 as [|raw v raws vs [Hp Hpre] Hall [IH1 IH2]].
  - split; [intros t f Hf; destruct f; [lia|done]|]. intros u w f E Hw. simpl in E.
    symmetry in E. by apply app_eq_nil in E as [_ ->].
  - change (mjoin (raw :: raws)) with (raw ++ mjoin raws). cbn [length].
    assert (Hn : forall f u, items_at (S f) u (Z.of_nat (S (length vs))) =
      match parse_at f u with
      | Ok (Some (item, n)) =>
          match items_at f (drop n u) (Z.of_nat (length vs)) with
          | Ok (Some (items, m)) => Ok (Some (item :: items, (n + m)%nat))
          | Ok None => Ok None
          | Raise x => Raise x
          end
      | Ok None => Ok None
      | Raise x => Raise x
      end).
    { intros f u. cbn [items_at]. destruct (Z.leb_spec (Z.of_nat (S (length vs))) 0); [lia|].
      by replace (Z.of_nat (S (length vs)) - 1) with (Z.of_nat (length vs)) by lia. }
    split.
    + intros t f Hf. destruct f as [|f]; [lia|]. rewrite Hn, <- app_assoc in *. rewrite length_app in Hf.
      rewrite Hp by (rewrite length_app; lia). rewrite drop_app_length.
      pose proof (Hp [] (2 * length raw + 1)%nat) as H3. rewrite app_nil_r in H3.
      apply parse_at_bound in H3; [|lia]. rewrite IH1 by lia. by rewrite length_app.
    + intros u w f E Hw Hf. destruct f as [|f]; [done|]. rewrite Hn.
      apply prefix_cases in E as [(w' & E & Hw')|(u' & -> & E)]; [rewrite (Hpre u w'); by (done || lia)| |done].
      rewrite length_app in Hf. rewrite Hp by (rewrite length_app; lia). rewrite drop_app_length.
      rewrite (IH2 u' w); [done|done|done|].
      pose proof (Hp [] (2 * length raw + 1)%nat) as H3. rewrite app_nil_r in H3.
      apply parse_at_bound in H3; [|lia]. lia.
Qed.

Lemma framed_array raws vs :
  Forall2 framed raws vs -> Z.of_nat (length vs) <= 2 ^ 64 ->
  framed (head_line 42 (Z.of_nat (length vs)) ++ mjoin raws) (PArray vs).
Proof.
  intros Hall Hb. set (n := Z.of_nat (length vs)) in *. pose proof (str_of_int_line n) as Hl.
  pose proof (proj2 (py_int_str_of_int64 n ltac:(lia))) as Hn. destruct (framed_items raws vs Hall) as [H1 H2].
  assert (Hk : length (head_line 42 n) = (S (length (str_of_int n)) + 2)%nat)
    by (unfold head_line; simpl; rewrite length_app; simpl; lia).
  assert (Hstep : forall f t, parse_at (S f) (head_line 42 n ++ t) =
    match items_at f t n with
    | Ok (Some (items, m)) => Ok (Some (PArray items, (length (head_line 42 n) + m)%nat))
    | Ok None => Ok None
    | Raise x => Raise x
    end).
  { intros f t. unfold head_line at 1. cbn [parse_at].
    destruct (line_at 42 (str_of_int n) t ltac:(lia) Hl) as [-> ->].
    cbn [head app default from_option id Z.eqb Pos.eqb]. rewrite Hn. destruct (Z.ltb_spec n 0); [lia|].
    change (42 :: (str_of_int n ++ CRLF) ++ t) with (head_line 42 n ++ t).
    by rewrite Hk, <- Hk, drop_app_length, Hk. }
  split.
  - intros t f Hf. destruct f as [|f]; [lia|]. rewrite <- app_assoc, Hstep in *. rewrite length_app in Hf.
    rewrite H1 by lia. by rewrite length_app.
  - intros u w f E Hw Hf. destruct f as [|f]; [lia|].
    apply prefix_cases in E as [(w' & E & Hw')|(u' & -> & E)]; [| |done].
    + cbn [parse_at].
      rewrite (find_crlf_prefix (42 :: str_of_int n) u w'); [done|constructor; [lia|done]|done|done].
    + rewrite Hstep. rewrite length_app in Hf. rewrite (H2 u' w); [done|done|done|lia].
Qed.

(** ** What [encode_reply] writes is a frame *)
Fixpoint reply_image (v : Reply) : PReply :=
  match v with
  | RNone => PNone
  | RStatus s => PStatus s
  | RText s => PText s
  | RInt z => PInt z
  | RArg (AStr s) => PText s
  | RArg (AInt z) => PInt z
  | RArg (ABool b) => PInt (if b then 1 else 0)
  | RArg (AFloat x) => PText (format_float x)
  | RArg (AOther _) => PNone
  | RArray l => PArray (map reply_image l)
  end.

Definition text_on_wire (s : pystr) : Prop :=
  exists b, to_bytes s = Some b /\ to_str b = s /\ Z.of_nat (length b) <= 2 ^ 64.
Definition line_on_wire (s : pystr) : Prop :=
  exists b, to_bytes s = Some b /\ to_str b = s /\ Forall (fun c => (c =? 13) = false) b.

Fixpoint reply_fits (v : Reply) : Prop :=
  match v with
  | RNone => True
  | RStatus s => line_on_wire s
  | RText s | RArg (AStr s) => text_on_wire s
  | RInt z | RArg (AInt z) => Z.abs z <= 2 ^ 64
  | RArg (ABool _) => True
  | RArg (AFloat x) => text_on_wire (format_float x)
  | RArg (AOther _) => False
  | RArray l =>
      Z.of_nat (length l) <= 2 ^ 64 /\
      (fix all (l : list Reply) : Prop := match l with [] => True | v :: l' => reply_fits v /\ all l' end) l
  end.

Lemma framed_text s : text_on_wire s -> exists raw, bulk_text s = Ok raw /\ framed raw (PText s).
Proof.
  intros (b & Hb & Hs & Hl). unfold bulk_text, encode_text. rewrite Hb. eexists. split; [done|].
  rewrite <- Hs. by apply framed_bulk.
Qed.

Lemma framed_reply v : reply_fits v -> exists raw, encode_reply v = Ok raw /\ framed raw (reply_image v).
Proof.
  revert v. fix IH 1. intros [|s|s|z|[s|z|x|b|t]|l] Hv; cbn [encode_reply reply_image encode_reply_arg];
    cbn [reply_fits] in Hv.
  - eexists. split; [done|apply framed_none].
  - destruct Hv as (b & Hb & Hs & Hl). unfold encode_text. rewrite Hb. eexists. split; [done|].
    rewrite <- Hs. by apply framed_status.
  - by apply framed_text.
  - eexists. split; [done|by apply framed_int].
  - by apply framed_text.
  - eexists. split; [done|by apply framed_int].
  - by apply framed_text.
  - eexists. split; [done|apply framed_int]. destruct b; lia.
  - done.
  - destruct Hv as [Hn Hall].
    assert (Hgo : exists raws,
      (fix go (l : list Reply) : result exn bytes :=
         match l with
         | [] => Ok []
         | v :: l' =>
             match encode_reply v with
             | Ok x => match go l' with Ok y => Ok (x ++ y) | Raise e => Raise e end
             | Raise e => Raise e
             end
         end) l = Ok (mjoin raws) /\ Forall2 framed raws (map reply_image l)).
    { clear Hn. induction l as [|v l IHl]; [by exists []|]. destruct Hall as [Hv Hall].
      destruct (IH v Hv) as (raw & Er & Hr). destruct (IHl Hall) as (raws & Es & Hs).
      exists (raw :: raws). rewrite Er, Es. split; [done|]. by constructor. }
    destruct Hgo as (raws & E & Hf). rewrite E. eexists. split; [done|].
    rewrite <- (length_map reply_image l). apply framed_array; [done|]. by rewrite length_map.
Qed.
End Parser.
