(* ===== verification/Client.v ===== *)
(** * The client (protocol/client.py)

    One connection carries any number of requests at once: the futures its
    callers wait on, in the order of the requests ([_Connection]), and what a
    call makes of them ([KVClient]).  The event loop delivers data, losses,
    timeouts and the scheduled flush in any order: a connection's life is a
    list of events. *)

From Stdlib Require Import String.
From S2P Require Import Prelude PyStr PyFloat Errors Codec Snapshot Registry Resp RespProofs.
From S2P Require Import Replies.
Local Close Scope string_scope.

Inductive Future := Pending | Result (v : PReply) | Failed (x : exn) | Cancelled.
Definition future_done (f : Future) : bool := match f with Pending => false | _ => true end.

(** [cn_transport] is what the transport was given to send, or [None] before
    the connection is made; [cn_aborted]: it was aborted.  The futures created
    are numbered from 0; [cn_waiting] holds numbers. *)
Record Connection := mkConnection {
  cn_transport : option (list bytes);
  cn_aborted : bool;
  cn_parser : ReplyParser;
  cn_waiting : list nat;
  cn_out : list bytes;
  cn_flush_scheduled : bool;
  cn_error : option exn;
  cn_futures : list Future
}.

Definition new_connection : Connection :=
  mkConnection None false new_reply_parser [] [] false None [].

Definition set_transport t c :=
  mkConnection t (cn_aborted c) (cn_parser c) (cn_waiting c) (cn_out c) (cn_flush_scheduled c) (cn_error c) (cn_futures c).
Definition set_aborted b c :=
  mkConnection (cn_transport c) b (cn_parser c) (cn_waiting c) (cn_out c) (cn_flush_scheduled c) (cn_error c) (cn_futures c).
Definition set_parser p c :=
  mkConnection (cn_transport c) (cn_aborted c) p (cn_waiting c) (cn_out c) (cn_flush_scheduled c) (cn_error c) (cn_futures c).
Definition set_waiting w c :=
  mkConnection (cn_transport c) (cn_aborted c) (cn_parser c) w (cn_out c) (cn_flush_scheduled c) (cn_error c) (cn_futures c).
Definition set_out o b c :=
  mkConnection (cn_transport c) (cn_aborted c) (cn_parser c) (cn_waiting c) o b (cn_error c) (cn_futures c).
Definition set_error x c :=
  mkConnection (cn_transport c) (cn_aborted c) (cn_parser c) (cn_waiting c) (cn_out c) (cn_flush_scheduled c) x (cn_futures c).
Definition set_futures l c :=
  mkConnection (cn_transport c) (cn_aborted c) (cn_parser c) (cn_waiting c) (cn_out c) (cn_flush_scheduled c) (cn_error c) l.

Abbreviation CM := (M exn Connection).

Definition closed (c : Connection) : bool := match cn_error c with None => false | Some _ => true end.

Definition connection_made (c : Connection) : Connection := set_transport (Some []) c.

(** [if not future.done(): future.set_result(...)], or [set_exception]. *)
Definition settle (k : nat) (f : Future) (c : Connection) : Connection :=
  match cn_futures c !! k with
  | Some Pending => set_futures (<[k := f]> (cn_futures c)) c
  | _ => c
  end.

(** The loop of [_fail] over the queue. *)
Fixpoint fail_waiting (exc : exn) (waiting : list nat) (c : Connection) : Connection :=
  match waiting with
  | [] => set_waiting [] c
  | k :: rest => fail_waiting exc rest (settle k (Failed exc) c)
  end.

Definition fail (exc : exn) (c : Connection) : Connection :=
  let c := match cn_error c with None => set_error (Some exc) c | Some _ => c end in
  fail_waiting exc (cn_waiting c) c.

Definition abort (exc : exn) (c : Connection) : Connection :=
  let c := fail exc c in
  match cn_transport c with Some _ => set_aborted true c | None => c end.

(** [ConnectionResetError], a class of [OSError]. *)
Definition connection_lost (exc : option exn) (c : Connection) : Connection :=
  fail (default (err OSError "connection closed by server") exc) c.

Definition submit (payload : bytes) (replies : nat) : CM (list nat) :=
  let! c := getM in
  match cn_error c with
  | Some x => raise x
  | None =>
      let futures := seq (length (cn_futures c)) replies in
      modifyM (fun c => set_futures (cn_futures c ++ replicate replies Pending) c);;
      modifyM (fun c => set_waiting (cn_waiting c ++ futures) c);;
      modifyM (fun c => set_out (cn_out c ++ [payload]) true c);;
      ret futures
  end.

Definition flush_out (c : Connection) : Connection :=
  let c := set_out (cn_out c) false c in
  let c := match cn_out c, cn_transport c, cn_error c with
           | _ :: _, Some written, None => set_transport (Some (written ++ [mjoin (cn_out c)])) c
           | _, _, _ => c
           end in
  set_out [] (cn_flush_scheduled c) c.

Section Client.
(** The case of characters beyond ASCII, for the class of an error reply. *)
Context (unicode_case : Z -> option bool).

(** [next_reply] on the connection's parser. *)
Definition parser_reply : CM (option PReply) := fun c =>
  match next_reply unicode_case (cn_parser c) with (r, p) => (r, set_parser p c) end.

(** The loop of [data_received]; a reply takes three bytes or more. *)
Fixpoint data_loop (fuel : nat) : CM unit :=
  match fuel with
  | O => ret tt
  | S f =>
      let! reply := parser_reply in
      match reply with
      | None => ret tt
      | Some reply =>
          let! waiting := readM cn_waiting in
          match waiting with
          | [] => raise (err ProtocolError "reply without a request")
          | future :: rest =>
              modifyM (set_waiting rest);;
              modifyM (settle future (Result reply));;
              data_loop f
          end
      end
  end.

Definition data_received (data : bytes) : CM unit :=
  modifyM (fun c => set_parser (feed_reply data (cn_parser c)) c);;
  let! p := readM cn_parser in
  catchM (data_loop (S (length (yp_buf p)))) (fun x => isinstance x ProtocolError)
         (fun x => modifyM (abort x)).

(** ** [KVClient.pipeline] and [execute] *)

(** [address], [_reason] and [_unavailable]. *)
Definition reason (address : pystr) (exc : exn) : pystr :=
  address ++ lit " unavailable: " ++
  (if isinstance exc TimeoutError then class_name TimeoutError else exn_msg exc).
Definition unavailable (address : pystr) (exc : exn) : exn :=
  new_exn NodeUnavailableError (reason address exc) None.

(** What [gather] has of its futures: every result, the first exception, or
    [None] while it waits. *)
Fixpoint gather (l : list Future) : option (result exn (list PReply)) :=
  match l with
  | [] => Some (Ok [])
  | f :: l' =>
      match f, gather l' with
      | Failed x, _ => Some (Raise x)
      | _, Some (Raise x) => Some (Raise x)
      | Result v, Some (Ok vs) => Some (Ok (v :: vs))
      | _, _ => None
      end
  end.

(** [except TimeoutError] and [except (OSError, EOFError, ProtocolError)]. *)
Definition transport_error (x : exn) : bool :=
  isinstance x TimeoutError || isinstance x OSError || isinstance x EOFError || isinstance x ProtocolError.

(** [pipeline] up to the wait: one payload, a future for each command. *)
Definition pipeline_send (address : pystr) (commands : list (list PyArg)) : CM (list nat) :=
  let! payload := lift (concat_ok encode_command commands) in
  catchM (submit payload (length commands)) transport_error
    (fun x =>
       (if isinstance x TimeoutError then modifyM (abort x) else ret tt);;
       raise (unavailable address x)).

(** The rest of it, once the futures are settled; a timeout that failed them
    has already aborted the connection. *)
Definition pipeline_result (address : pystr) (futures : list nat) (c : Connection) :
    option (result exn (list PReply)) :=
  match gather ((fun k => default Cancelled (cn_futures c !! k)) <$> futures) with
  | Some (Raise x) => Some (Raise (if transport_error x then unavailable address x else x))
  | r => r
  end.

(** The caller's deadline passed: [wait_for] cancels what is pending. *)
Definition cancel (c : Connection) (k : nat) : Connection := settle k Cancelled c.
Definition pipeline_timeout (address : pystr) (futures : list nat) (c : Connection) : exn * Connection :=
  let exc := mkExn TimeoutError [] [] in
  (unavailable address exc, abort exc (foldl cancel c futures)).

(** [execute]: an error reply is raised. *)
Definition execute_result (address : pystr) (futures : list nat) (c : Connection) : option (result exn PReply) :=
  match pipeline_result address futures c with
  | Some (Ok [PError e]) => Some (if isinstance e KVStoreError then Raise e else Ok (PError e))
  | Some (Ok [reply]) => Some (Ok reply)
  | Some (Ok _) => Some (Raise (err ValueError "not enough values to unpack"))
  | Some (Raise x) => Some (Raise x)
  | None => None
  end.

(** [KVClient.close], the connection's part. *)
Definition client_close (c : Connection) : Connection := abort (err OSError "client closed") c.

(** ** [KVClient]: the connection is opened when it is needed *)
Record KVClient := mkClient { kc_host : pystr; kc_port : Z; kc_conn : option Connection }.

Definition from_address (address : pystr) : result exn KVClient :=
  let '(host, _, port) := rpartition 58 address in
  match py_int port with
  | Some n => Ok (mkClient host n None)
  | None => Raise (err ValueError "invalid literal for int()")
  end.

Definition client_address (c : KVClient) : pystr := kc_host c ++ 58 :: str_of_int (kc_port c).

Definition connected (c : KVClient) : bool :=
  match kc_conn c with Some conn => negb (closed conn) | None => false end.

(** [_connection], one caller at a time; [attempt] is what came of
    [create_connection]. *)
Definition open_connection (attempt : result exn unit) : M exn KVClient unit :=
  let! c := getM in
  match attempt with
  | Ok _ => putM (mkClient (kc_host c) (kc_port c) (Some (connection_made new_connection)))
  | Raise x =>
      if isinstance x OSError || isinstance x TimeoutError
      then raise (new_exn ConnectFailedError (reason (client_address c) x) None) else raise x
  end.

Definition client_connection (attempt : result exn unit) : M exn KVClient unit :=
  let! c := getM in
  if connected c then ret tt else open_connection attempt.

(** A call on the connection the client has. *)
Definition on_connection {A} (m : CM A) : M exn KVClient A := fun c =>
  match kc_conn c with
  | Some conn => let '(r, conn') := m conn in (r, mkClient (kc_host c) (kc_port c) (Some conn'))
  | None => (Raise (err AttributeError "'NoneType' object has no attribute 'submit'"), c)
  end.

(** [KVClient.pipeline] up to the wait for the replies. *)
Definition client_pipeline (attempt : result exn unit) (commands : list (list PyArg)) : M exn KVClient (list nat) :=
  client_connection attempt;;
  let! c := getM in
  on_connection (pipeline_send (client_address c) commands).

Definition close_client (c : KVClient) : KVClient * option Connection :=
  (mkClient (kc_host c) (kc_port c) None, client_close <$> kc_conn c).

(** ** [KVClientPool]: the clients in turn; what they do is the network's *)
Record KVClientPool := mkPool { cp_address : pystr; cp_size : nat; cp_next : nat }.

Definition new_pool (address : pystr) (size : Z) : result exn KVClientPool :=
  if size <? 1 then Raise (err ValueError "pool size must be at least 1")
  else match from_address address with
       | Ok _ => Ok (mkPool address (Z.to_nat size) 0)
       | Raise x => Raise x
       end.

(** [next(self._next)]. *)
Definition pool_next (p : KVClientPool) : nat * KVClientPool :=
  (cp_next p, mkPool (cp_address p) (cp_size p) ((cp_next p + 1) mod cp_size p)).

(** ** The events of a connection's life *)
Inductive event :=
| Submit (commands : list (list PyArg))
| Flush
| Data (d : bytes)
| Lost (x : option exn)
| Timeout (futures : list nat)
| Close.

Definition handle (c : Connection) (e : event) : Connection :=
  match e with
  | Submit commands => (pipeline_send [] commands c).2
  | Flush => flush_out c
  | Data d => (data_received d c).2
  | Lost x => connection_lost x c
  | Timeout futures => (pipeline_timeout [] futures c).2
  | Close => client_close c
  end.

Definition event_data (e : event) : bytes := match e with Data d => d | _ => [] end.

(** The payloads a list of events queues before an error stops it. *)
Definition payload_of (c : Connection) (e : event) : bytes :=
  match e, cn_error c with
  | Submit commands, None => match concat_ok encode_command commands with Ok b => b | Raise _ => [] end
  | _, _ => []
  end.
End Client.
