(* ===== verification/ClientSpec.v ===== *)
(** * What the client guarantees its callers

    Replies are matched to requests in order, however the stream is cut and
    whatever timeouts, losses and closes come between. *)

From Stdlib Require Import String.
From S2P Require Import Prelude PyStr PyFloat Errors Codec Snapshot Registry Resp RespProofs.
From S2P Require Import TcpServer Replies Client.
Local Close Scope string_scope.

#[local] Instance pending_dec (o : option Future) : Decision (o = Some Pending).
Proof. destruct o as [[| | |]|]; (by left) || (by right). Defined.

Section Matching.
Context (unicode_case : Z -> option bool).

(** ** The parser after part of a stream of replies *)
Definition got (u : bytes) (p : ReplyParser) : Prop :=
  (yp_pos p <= length (yp_buf p))%nat /\ drop (yp_pos p) (yp_buf p) = u.

Lemma got_feed u d p : got u p -> got (u ++ d) (feed_reply d p).
Proof.
  intros [Hp <-]. split; simpl; [rewrite length_app; lia|]. by rewrite drop_app_le.
Qed.

Lemma got_length u p : got u p -> (length u <= length (yp_buf p))%nat.
Proof. intros [_ <-]. rewrite length_drop. lia. Qed.

Lemma got_parse u p :
  got u p -> parse_reply unicode_case (reply_fuel (yp_buf p)) (yp_buf p) (yp_pos p) =
             shifted (yp_pos p) (parse_at unicode_case (reply_fuel (yp_buf p)) u).
Proof. intros [Hp <-]. by apply (parse_reply_at unicode_case). Qed.

Lemma got_frame raw v t p :
  framed unicode_case raw v -> got (raw ++ t) p ->
  exists p', next_reply unicode_case p = (Ok (Some v), p') /\ got t p'.
Proof.
  intros [Hf _] Hg. pose proof (got_length _ _ Hg) as Hl. unfold next_reply, bindM at 1, getM, bindM at 1, lift.
  rewrite (got_parse _ _ Hg), Hf by (unfold reply_fuel; lia). cbn [shifted].
  eexists. split; [reflexivity|]. destruct Hg as [Hp Hd].
  assert (Hdrop : drop (yp_pos p + length raw) (yp_buf p) = t) by (by rewrite <- drop_drop, Hd, drop_app_length).
  assert (Hlen : (yp_pos p + length raw <= length (yp_buf p))%nat).
  { apply (f_equal length) in Hd. rewrite length_drop, length_app in Hd. lia. }
  destruct (Nat.eqb_spec (yp_pos p + length raw) (length (yp_buf p))) as [E|_].
  - split; [simpl; lia|]. by rewrite <- Hdrop, E, drop_all.
  - destruct (_ <? _); split; simpl; [lia|by rewrite drop_0|done|done].
Qed.

(** [u] is not a whole reply: what is left of a stream, or nothing. *)
Lemma got_wait u p :
  (forall f, (2 * length u + 1 <= f)%nat -> parse_at unicode_case f u = Ok None) -> got u p ->
  next_reply unicode_case p = (Ok None, p).
Proof.
  intros Hf Hg. pose proof (got_length _ _ Hg) as Hl. unfold next_reply, bindM at 1, getM, bindM at 1, lift.
  by rewrite (got_parse _ _ Hg), Hf by (unfold reply_fuel; lia).
Qed.

Lemma framed_length raw v : framed unicode_case raw v -> (3 <= length raw)%nat.
Proof.
  intros [Hf _]. pose proof (Hf [] (2 * length raw + 1)%nat) as H. rewrite app_nil_r in H.
  specialize (H ltac:(lia)). apply parse_at_bound in H. lia.
Qed.

(** ** The connection's invariant *)
Context (raws : list bytes) (vs : list PReply) (Hframes : Forall2 (framed unicode_case) raws vs).

(** The first [m] replies have been read. *)
Definition future_ok (m k : nat) (f : Future) : Prop :=
  match f with
  | Result v => (k < m)%nat /\ vs !! k = Some v
  | Pending => (m <= k)%nat
  | Cancelled => True
  | Failed _ => False
  end.

Definition live (m : nat) (u : bytes) (c : Connection) : Prop :=
  cn_error c = None /\ got u (cn_parser c) /\ (m <= length (cn_futures c))%nat /\
  cn_waiting c = seq m (length (cn_futures c) - m) /\
  forall k f, cn_futures c !! k = Some f -> future_ok m k f.

Definition stopped_future (k : nat) (f : Future) : Prop :=
  match f with Result v => vs !! k = Some v | Pending => False | _ => True end.

Definition dead (c : Connection) : Prop :=
  cn_error c <> None /\ cn_waiting c = [] /\ forall k f, cn_futures c !! k = Some f -> stopped_future k f.

Lemma settle_lookup k f c j :
  cn_futures (settle k f c) !! j =
  if decide (j = k /\ cn_futures c !! k = Some Pending) then Some f else cn_futures c !! j.
Proof.
  unfold settle. destruct (cn_futures c !! k) as [[| | |]|] eqn:E; case_decide as Hd; simpl; destruct_and?;
    subst; try done.
  - apply list_lookup_insert_eq. by eapply lookup_lt_Some.
  - apply list_lookup_insert_ne. intros ->. by apply Hd.
Qed.

Lemma settle_frame k f c :
  cn_error (settle k f c) = cn_error c /\ cn_parser (settle k f c) = cn_parser c /\
  cn_waiting (settle k f c) = cn_waiting c /\ cn_transport (settle k f c) = cn_transport c /\
  cn_out (settle k f c) = cn_out c /\ length (cn_futures (settle k f c)) = length (cn_futures c).
Proof.
  unfold settle. destruct (cn_futures c !! k) as [[| | |]|]; try done. simpl. by rewrite length_insert.
Qed.

Lemma settle_length k f c : length (cn_futures (settle k f c)) = length (cn_futures c).
Proof. apply settle_frame. Qed.

Lemma fail_waiting_spec x ws c :
  cn_error (fail_waiting x ws c) = cn_error c /\ cn_waiting (fail_waiting x ws c) = [] /\
  cn_transport (fail_waiting x ws c) = cn_transport c /\ cn_out (fail_waiting x ws c) = cn_out c /\
  forall k, cn_futures (fail_waiting x ws c) !! k =
    if decide (k ∈ ws /\ cn_futures c !! k = Some Pending) then Some (Failed x) else cn_futures c !! k.
Proof.
  revert c. induction ws as [|w ws IH]; intros c; cbn [fail_waiting].
  { by conj. }
  destruct (settle_frame w (Failed x) c) as (He & _ & _ & Ht & Ho & _).
  destruct (IH (settle w (Failed x) c)) as (He' & Hw' & Ht' & Ho' & Hf'). conj; try congruence.
  intros k. rewrite Hf', settle_lookup. destruct (decide (k = w /\ _)) as [[-> Hp]|Hn].
  - rewrite (decide_False (P := w ∈ ws /\ _)) by (by intros [_ ?]). rewrite decide_True; [done|]. split; [left|done].
  - destruct (decide (k ∈ ws /\ _)) as [[H1 H2]|H1].
    + rewrite decide_True; [done|]. split; [by right|done].
    + rewrite decide_False; [done|]. intros [[->|H]%elem_of_cons Hp]; [by apply Hn|by apply H1].
Qed.

(** Whatever ends a connection settles every future, none with a reply. *)
Lemma fail_dead x m u c : live m u c -> dead (fail x c).
Proof.
  intros (He & _ & Hm & Hw & Hf). unfold fail. rewrite He.
  destruct (fail_waiting_spec x (cn_waiting (set_error (Some x) c)) (set_error (Some x) c)) as (He' & Hw' & _ & _ & Hf').
  split; [by rewrite He'|]. split; [done|]. intros k f. rewrite Hf'. simpl. case_decide as Hd; [intros [= <-]; done|].
  intros Hk. specialize (Hf k f Hk). destruct f as [| v| |]; try done; [|by destruct Hf].
  exfalso. apply Hd. split; [|done]. rewrite Hw. apply elem_of_seq. apply lookup_lt_Some in Hk. simpl in Hf. lia.
Qed.

Lemma fail_dead_again x c : dead c -> dead (fail x c).
Proof.
  intros (He & Hw & Hf). unfold fail. destruct (cn_error c) as [y|] eqn:E; [|done]. rewrite Hw. simpl.
  split; [simpl; congruence|]. by split.
Qed.

Lemma abort_dead x c : dead (fail x c) -> dead (abort x c).
Proof. unfold abort. by destruct (cn_transport _). Qed.

(** ** The loop over the replies received *)
Lemma data_loop_wait f c :
  next_reply unicode_case (cn_parser c) = (Ok None, cn_parser c) -> data_loop unicode_case (S f) c = (Ok tt, c).
Proof. intros E. cbn [data_loop]. unfold bindM, parser_reply. rewrite E. by destruct c. Qed.

Lemma data_loop_next f c v p :
  next_reply unicode_case (cn_parser c) = (Ok (Some v), p) ->
  data_loop unicode_case (S f) c =
  match cn_waiting c with
  | [] => (Raise (err ProtocolError "reply without a request"), set_parser p c)
  | k :: rest => data_loop unicode_case f (settle k (Result v) (set_waiting rest (set_parser p c)))
  end.
Proof.
  intros E. cbn [data_loop]. unfold bindM at 1, parser_reply. rewrite E. unfold bindM at 1, readM.
  change (cn_waiting (set_parser p c)) with (cn_waiting c).
  destruct (cn_waiting c) as [|k rest] eqn:Ew; reflexivity.
Qed.

(** A reply read moves the connection one request on. *)
Lemma live_next m u u' p v k c :
  live m u c -> got u' p -> vs !! m = Some v -> (length (cn_futures c) - m)%nat = S k ->
  live (S m) u' (settle m (Result v) (set_waiting (seq (S m) k) (set_parser p c))).
Proof.
  intros (He & Hg & Hn & Hw & Hf) Hg' Hv Hk.
  set (c1 := set_waiting (seq (S m) k) (set_parser p c)).
  destruct (settle_frame m (Result v) c1) as (F1 & F2 & F3 & _ & _ & F6). unfold live. rewrite F1, F2, F3, F6.
  split; [done|]. split; [done|]. simpl. split; [lia|]. split; [f_equal; lia|].
  intros j g. rewrite settle_lookup. case_decide as Hd; [intros [= <-]; by destruct Hd as [-> _]; split; [lia|]|].
  intros Hj. simpl in Hj, Hd. specialize (Hf j g Hj). destruct g; simpl in *; [|destruct Hf; split; [lia|done]|done|done].
  destruct (decide (j = m)) as [->|]; [|lia]. by exfalso; apply Hd.
Qed.

Lemma data_loop_live fuel m u w c :
  live m u c -> mjoin (drop m raws) = u ++ w -> (length u < fuel)%nat -> (m <= length raws)%nat ->
  exists r c', data_loop unicode_case fuel c = (r, c') /\ length (cn_futures c') = length (cn_futures c) /\
    ((exists m' u', r = Ok tt /\ live m' u' c' /\ (m <= m' <= length raws)%nat /\
        mjoin (drop m' raws) = u' ++ w /\ residue u' (drop m' raws)) \/
     (exists u', r = Raise (err ProtocolError "reply without a request") /\ live (length (cn_futures c')) u' c' /\
        (length (cn_futures c') < length raws)%nat)).
Proof.
  revert m u c. induction fuel as [|f IH]; intros m u c Hlive E Hlen Hm; [lia|].
  pose proof Hlive as (He & Hg & Hn & Hw & Hf).
  destruct (drop m raws) as [|raw rest] eqn:Hdr.
  { simpl in E. symmetry in E. apply app_eq_nil in E as [-> ->].
    rewrite (data_loop_wait f c) by (apply (got_wait []); [intros [|?] ?; done|done]).
    eexists _, c. split; [reflexivity|]. split; [done|]. left. exists m, []. rewrite Hdr. done. }
  assert (Hraw : raws !! m = Some raw) by (rewrite <- (Nat.add_0_r m), <- lookup_drop, Hdr; done).
  destruct (Forall2_lookup_l _ _ _ _ _ Hframes Hraw) as (v & Hv & Hfr).
  change (mjoin (raw :: rest)) with (raw ++ mjoin rest) in E.
  destruct (prefix_split _ _ _ _ E) as [(w' & Hrw & Hw')|(u' & -> & E')].
  - rewrite (data_loop_wait f c); [|apply (got_wait u); [|done]; intros g Hgf; by eapply (proj2 Hfr)].
    eexists _, c. split; [reflexivity|]. split; [done|]. left. exists m, u. rewrite Hdr. conj; try done; try lia.
    simpl. rewrite Hrw, length_app. destruct w'; [done|simpl; lia].
  - destruct (got_frame raw v u' (cn_parser c) Hfr Hg) as (p' & Hnext & Hg').
    rewrite (data_loop_next f c v p' Hnext), Hw. pose proof (framed_length raw v Hfr) as H3. rewrite length_app in Hlen.
    destruct (length (cn_futures c) - m)%nat as [|k] eqn:Hk; cbn [seq].
    { eexists _, _. split; [reflexivity|]. split; [done|]. right. exists u'. split; [done|].
      replace (length (cn_futures _)) with m by (simpl; lia). split; [|by eapply lookup_lt_Some].
      unfold live. conj; try done. simpl. rewrite Hw. f_equal; lia. }
    pose proof (live_next m _ u' p' v k c Hlive Hg' Hv Hk) as Hlive'.
    destruct (IH (S m) u' _ Hlive') as (r & c' & Ed & Hfu & Hcase);
      [|lia|apply lookup_lt_Some in Hraw; lia|].
    { replace (S m) with (m + 1)%nat by lia. by rewrite <- drop_drop, Hdr. }
    exists r, c'. split; [done|]. split; [rewrite Hfu; exact (settle_length m (Result v) (set_waiting _ (set_parser p' c)))|].
    destruct Hcase as [(m' & u'' & Hr & Hl & Hb & Hrest)|Hcase]; [left|by right].
    exists m', u''. split; [done|]. split; [done|]. split; [lia|done].
Qed.

Lemma parser_reply_dead c : dead c -> dead (parser_reply unicode_case c).2.
Proof. unfold parser_reply. by destruct (next_reply _ _). Qed.

Lemma data_loop_dead fuel c : dead c -> dead (data_loop unicode_case fuel c).2.
Proof.
  destruct fuel as [|f]; [done|]. intros Hc. cbn [data_loop]. unfold bindM at 1.
  pose proof (parser_reply_dead c Hc) as Hd. destruct (parser_reply unicode_case c) as [[[v|]|x] c1]; try done.
  unfold bindM at 1, readM. simpl in Hd. destruct Hd as (He & Hw & Hf). rewrite Hw. done.
Qed.

(** ** Every event keeps the matching *)
Definition matching (data : bytes) (c : Connection) : Prop :=
  (exists m u, live m u c /\ (m <= length raws)%nat /\ data = mjoin (take m raws) ++ u /\ residue u (drop m raws)) \/
  dead c.

Lemma matching_fail data x c : matching data c -> dead (fail x c).
Proof. intros [(m & u & Hl & _)|Hd]; [by eapply fail_dead|by apply fail_dead_again]. Qed.

Lemma send_error address payload n c x :
  cn_error c = Some x ->
  (catchM (submit payload n) transport_error
     (fun x => (if isinstance x TimeoutError then modifyM (abort x) else ret tt);; raise (unavailable address x)) c).2 =
  if isinstance x TimeoutError then abort x c else c.
Proof.
  intros E. unfold catchM, submit, bindM at 1, getM. rewrite E. cbn [raise]. unfold raise at 1, transport_error.
  by destruct (isinstance x TimeoutError), (isinstance x OSError), (isinstance x EOFError), (isinstance x ProtocolError).
Qed.

Lemma matching_submit data address commands c : matching data c -> matching data (pipeline_send address commands c).2.
Proof.
  intros Hc. unfold pipeline_send, bindM at 1, lift. destruct (concat_ok _ _) as [payload|x]; [|done].
  destruct (cn_error c) as [x|] eqn:E.
  { rewrite (send_error _ _ _ _ x E). destruct Hc as [(m & u & (He & _) & _)|Hd]; [congruence|]. right.
    destruct (isinstance x TimeoutError); [by apply abort_dead, fail_dead_again|done]. }
  unfold catchM, submit, bindM at 1, getM. rewrite E.
  destruct Hc as [(m & u & Hl & Hm & Hdata)|[He _]]; [|done]. left. exists m, u. split; [|done].
  destruct Hl as (_ & Hg & Hn & Hw & Hf). unfold live. simpl. rewrite length_app, length_replicate. conj; try done; [lia| |].
  - rewrite Hw. replace (length (cn_futures c)) with (m + (length (cn_futures c) - m))%nat at 2 by lia.
    rewrite <- seq_app. f_equal. lia.
  - intros k f [Hk|[Hk Hrep]]%lookup_app_Some; [by apply Hf|]. apply lookup_replicate in Hrep as [-> _]. simpl. lia.
Qed.

Lemma live_cancel m u c k : live m u c -> live m u (cancel c k).
Proof.
  intros (He & Hg & Hn & Hw & Hf). unfold cancel.
  destruct (settle_frame k Cancelled c) as (F1 & F2 & F3 & _ & _ & F6). unfold live. rewrite F1, F2, F3, F6.
  conj; try done. intros j f. rewrite settle_lookup. case_decide; [by intros [= <-]|]. apply Hf.
Qed.

Lemma dead_cancel c k : dead c -> dead (cancel c k).
Proof.
  intros (He & Hw & Hf). unfold cancel. destruct (settle_frame k Cancelled c) as (F1 & _ & F3 & _).
  unfold dead. rewrite F1, F3. conj; try done. intros j f. rewrite settle_lookup. case_decide; [by intros [= <-]|]. apply Hf.
Qed.

Lemma matching_cancel data ks c : matching data c -> matching data (foldl cancel c ks).
Proof.
  revert c. induction ks as [|k ks IH]; intros c Hc; [done|]. simpl. apply IH.
  destruct Hc as [(m & u & Hl & Hr)|Hd]; [left; exists m, u; split; [by apply live_cancel|done]|right; by apply dead_cancel].
Qed.

Lemma matching_data data d w c :
  matching data c -> mjoin raws = (data ++ d) ++ w -> matching (data ++ d) (data_received unicode_case d c).2.
Proof.
  intros Hc E. set (c1 := set_parser (feed_reply d (cn_parser c)) c).
  assert (Heq : data_received unicode_case d c =
    catchM (data_loop unicode_case (S (length (yp_buf (cn_parser c1))))) (fun x => isinstance x ProtocolError)
      (fun x => modifyM (abort x)) c1) by done.
  rewrite Heq. unfold catchM. destruct Hc as [(m & u & Hl & Hm & -> & Hr)|Hd].
  - destruct Hl as (He & Hg & Hn & Hw & Hf). pose proof (got_feed u d _ Hg) as Hg1.
    assert (Hl1 : live m (u ++ d) c1) by done.
    assert (Es : mjoin (drop m raws) = (u ++ d) ++ w).
    { rewrite <- (take_drop m raws) in E at 1. rewrite join_app, <- !app_assoc in E.
      apply app_inv_head in E. by rewrite E, <- app_assoc. }
    pose proof (got_length _ _ Hg1) as Hlen.
    destruct (data_loop_live (S (length (yp_buf (cn_parser c1)))) m (u ++ d) w c1 Hl1 Es ltac:(simpl in *; lia) Hm)
      as (r & c' & -> & _ & [(m' & u' & -> & Hl' & Hb & Es' & Hr')|(u' & -> & Hl' & _)]).
    + left. exists m', u'. split; [done|]. split; [lia|]. split; [|done].
      apply (app_inv_tail w). rewrite <- E, <- (take_drop m' raws) at 1. by rewrite join_app, Es', app_assoc.
    + right. simpl. apply abort_dead. by eapply fail_dead.
  - assert (Hd1 : dead c1) by done. pose proof (data_loop_dead (S (length (yp_buf (cn_parser c1)))) c1 Hd1) as Hd2.
    destruct (data_loop _ _ _) as [[[]|x] c2]; right; simpl in *; [done|].
    destruct (isinstance x ProtocolError); [|done]. simpl. by apply abort_dead, fail_dead_again.
Qed.

Lemma matching_handle data e w c :
  matching data c -> mjoin raws = (data ++ event_data e) ++ w -> matching (data ++ event_data e) (handle unicode_case c e).
Proof.
  intros Hc E. destruct e as [commands| |d|x|ks|]; cbn [handle event_data] in *;
    try (rewrite app_nil_r in *).
  - by apply matching_submit.
  - destruct Hc as [(m & u & Hl & Hr)|Hd]; unfold flush_out; simpl;
      destruct (cn_out c), (cn_transport c), (cn_error c) eqn:Ee; (left; by exists m, u) || (right; by destruct c).
  - by eapply matching_data.
  - right. by eapply matching_fail.
  - right. simpl. eapply abort_dead, matching_fail. by apply matching_cancel.
  - right. by eapply abort_dead, matching_fail.
Qed.

Lemma matching_events events data w c :
  matching data c -> mjoin raws = (data ++ mjoin (event_data <$> events)) ++ w ->
  matching (data ++ mjoin (event_data <$> events)) (foldl (handle unicode_case) c events).
Proof.
  revert data c. induction events as [|e events IH]; intros data c Hc E.
  - by rewrite app_nil_r.
  - rewrite fmap_cons in E |- *. change (mjoin (event_data e :: ?l)) with (event_data e ++ mjoin l) in *.
    rewrite app_assoc in E |- *. apply IH; [|done]. eapply matching_handle; [done|]. rewrite <- app_assoc in E. exact E.
Qed.
End Matching.

(** ** What is written *)
Definition sent (payload : bytes) (c : Connection) : Prop :=
  exists written rest, cn_transport c = Some written /\ payload = mjoin written ++ rest /\
    (cn_error c = None -> rest = mjoin (cn_out c)).

(** Neither the transport nor the queue of payloads changes. *)
Definition same_wire (c c' : Connection) : Prop :=
  cn_transport c' = cn_transport c /\ cn_out c' = cn_out c /\ (cn_error c' = None -> cn_error c = None).

Lemma same_wire_refl c : same_wire c c.
Proof. done. Qed.

Lemma same_wire_trans c1 c2 c3 : same_wire c1 c2 -> same_wire c2 c3 -> same_wire c1 c3.
Proof. intros (? & ? & ?) (? & ? & ?). unfold same_wire. split; [congruence|]. split; [congruence|auto]. Qed.

Lemma same_wire_sent payload c c' : same_wire c c' -> sent payload c -> sent payload c'.
Proof.
  intros (Ht & Ho & He) (written & rest & H1 & H2 & H3). exists written, rest. rewrite Ht, Ho. auto.
Qed.

Lemma settle_wire k f c : same_wire c (settle k f c).
Proof. destruct (settle_frame k f c) as (He & _ & _ & Ht & Ho & _). split; [done|]. split; [done|congruence]. Qed.

Lemma fail_wire x c : same_wire c (fail x c).
Proof.
  unfold fail. set (c1 := match cn_error c with None => _ | Some _ => _ end).
  assert (H1 : same_wire c c1) by (unfold c1; destruct (cn_error c) eqn:E; [done|by destruct c]).
  destruct (fail_waiting_spec x (cn_waiting c1) c1) as (He & _ & Ht & Ho & _).
  eapply same_wire_trans; [exact H1|]. split; [done|]. split; [done|congruence].
Qed.

Lemma abort_wire x c : same_wire c (abort x c).
Proof.
  eapply same_wire_trans; [apply (fail_wire x)|]. unfold abort. by destruct (cn_transport (fail x c)) eqn:E.
Qed.

Lemma cancel_wire ks c : same_wire c (foldl cancel c ks).
Proof.
  revert c. induction ks as [|k ks IH]; intros c; [done|]. simpl. eapply same_wire_trans; [|apply IH]. apply settle_wire.
Qed.

Section Wire.
Context (unicode_case : Z -> option bool).

Lemma data_loop_wire fuel c : same_wire c (data_loop unicode_case fuel c).2.
Proof.
  revert c. induction fuel as [|f IH]; intros c; [done|].
  destruct (next_reply unicode_case (cn_parser c)) as [[[v|]|x] p] eqn:E.
  2, 3: cbn [data_loop]; unfold bindM, parser_reply; by rewrite E.
  rewrite (data_loop_next _ _ _ _ _ E). destruct (cn_waiting c) as [|k rest]; [done|].
  eapply same_wire_trans; [|apply IH]. eapply same_wire_trans; [|apply settle_wire]. done.
Qed.

Lemma data_received_wire d c : same_wire c (data_received unicode_case d c).2.
Proof.
  unfold data_received, bindM at 1, modifyM at 1, bindM at 1, readM, catchM.
  set (c1 := set_parser _ c). assert (H1 : same_wire c c1) by done.
  pose proof (data_loop_wire (S (length (yp_buf (cn_parser c1)))) c1) as H2.
  destruct (data_loop _ _ _) as [[[]|x] c2]; simpl in *; [by eapply same_wire_trans|].
  destruct (isinstance x ProtocolError); [|by eapply same_wire_trans].
  eapply same_wire_trans; [exact H1|]. eapply same_wire_trans; [exact H2|]. apply abort_wire.
Qed.

Lemma sent_handle payload c e : sent payload c -> sent (payload ++ payload_of c e) (handle unicode_case c e).
Proof.
  intros Hs. destruct e as [commands| |d|x|ks|]; cbn [handle payload_of]; try (rewrite app_nil_r).
  - unfold pipeline_send, bindM at 1, lift. destruct (concat_ok _ _) as [b|x].
    2: { destruct (cn_error c); by rewrite app_nil_r. }
    destruct (cn_error c) as [x|] eqn:E.
    { rewrite app_nil_r, (send_error _ _ _ _ x E). destruct (isinstance x TimeoutError); [|done].
      eapply same_wire_sent; [apply abort_wire|done]. }
    unfold catchM, submit, bindM at 1, getM. rewrite E.
    destruct Hs as (written & rest & H1 & -> & H3). exists written, (rest ++ b). simpl.
    split; [done|]. split; [by rewrite app_assoc|]. intros _. rewrite (H3 E), join_app. simpl. by rewrite app_nil_r.
  - destruct Hs as (written & rest & H1 & -> & H3). unfold flush_out. simpl. rewrite H1.
    destruct (cn_out c) as [|o out] eqn:Eo; [|destruct (cn_error c) eqn:Ee]; simpl.
    + exists written, rest. simpl. auto.
    + exists written, rest. simpl. split; [done|]. split; [done|congruence].
    + exists (written ++ [o ++ mjoin out]), []. split; [done|]. split; [|done].
      rewrite join_app, (H3 eq_refl). simpl. by rewrite !app_nil_r.
  - eapply same_wire_sent; [apply data_received_wire|done].
  - eapply same_wire_sent; [apply fail_wire|done].
  - eapply same_wire_sent; [|exact Hs]. eapply same_wire_trans; [apply (cancel_wire ks)|apply abort_wire].
  - eapply same_wire_sent; [apply abort_wire|done].
Qed.

(** The payloads queued, in the order of the calls. *)
Fixpoint queued (c : Connection) (events : list event) : bytes :=
  match events with [] => [] | e :: rest => payload_of c e ++ queued (handle unicode_case c e) rest end.

Lemma sent_events events payload c :
  sent payload c -> sent (payload ++ queued c events) (foldl (handle unicode_case) c events).
Proof.
  revert payload c. induction events as [|e events IH]; intros payload c Hs; simpl; [by rewrite app_nil_r|].
  rewrite app_assoc. by apply IH, sent_handle.
Qed.

(** ** Answers on the wire *)
Definition encode_answer (a : Reply + exn) : result exn bytes :=
  match a with inl v => encode_reply v | inr x => encode_error x end.
Definition answer_image (a : Reply + exn) : PReply :=
  match a with inl v => reply_image v | inr x => PError (from_resp unicode_case (no_line_break <$> to_resp x)) end.
Definition answer_fits (a : Reply + exn) : Prop :=
  match a with inl v => reply_fits v | inr x => line_on_wire (no_line_break <$> to_resp x) end.

Lemma answer_framed a :
  answer_fits a -> exists raw, encode_answer a = Ok raw /\ framed unicode_case raw (answer_image a).
Proof.
  destruct a as [v|x]; simpl; [apply framed_reply|]. intros (b & Hb & Hs & Hl). unfold encode_error, encode_text.
  rewrite Hb. eexists. split; [done|]. rewrite <- Hs. by apply framed_error.
Qed.

Lemma answers_framed answers stream :
  Forall answer_fits answers -> concat_ok encode_answer answers = Ok stream ->
  exists raws, stream = mjoin raws /\ Forall2 (framed unicode_case) raws (map answer_image answers).
Proof.
  intros Hall. revert stream. induction Hall as [|a answers Ha Hall IH]; intros stream E.
  - injection E as <-. by exists [].
  - cbn [concat_ok] in E. destruct (answer_framed a Ha) as (raw & Hraw & Hf). rewrite Hraw in E.
    destruct (concat_ok encode_answer answers) as [rest|] eqn:Er; [|done]. injection E as <-.
    destruct (IH rest eq_refl) as (raws & -> & Hfs). exists (raw :: raws). split; [done|]. by constructor.
Qed.
End Wire.

Lemma opened unicode_case raws vs :
  Forall2 (framed unicode_case) raws vs -> matching raws vs [] (connection_made new_connection).
Proof.
  intros Hfs. left. exists 0%nat, []. split; [|split; [lia|]]; [|split; [done|]].
  - unfold live, got. simpl. by conj; try lia.
  - destruct Hfs as [|raw v raws vs Hf _]; simpl; [done|]. apply framed_length in Hf. lia.
Qed.

Lemma no_rest m u (raws : list bytes) :
  mjoin raws = mjoin (take m raws) ++ u -> residue u (drop m raws) -> (length raws <= m)%nat.
Proof.
  intros E Hr. rewrite <- (take_drop m raws) in E at 1. rewrite join_app in E. apply app_inv_head in E.
  destruct (drop m raws) as [|raw rest] eqn:Ed.
  - apply (f_equal length) in Ed. rewrite length_drop in Ed. simpl in Ed. lia.
  - exfalso. change (mjoin (raw :: rest)) with (raw ++ mjoin rest) in E. simpl in Hr. rewrite <- E, length_app in Hr. lia.
Qed.

(** C16. Replies are matched to requests in order.  Whatever mix of calls,
    flushes, pieces of the reply stream, timeouts, losses and closes a
    connection sees: a future that has a result has the reply at its own
    position of the stream; when the connection has failed no caller is left
    waiting; while it has not, once the whole stream has arrived every reply
    has reached its future, unless its caller gave up; and what was written is
    the payloads in the order of the calls. *)
Theorem replies_matched unicode_case (answers : list (Reply + exn)) stream events
    (Hfit : Forall answer_fits answers) (Henc : concat_ok encode_answer answers = Ok stream)
    (Hdata : mjoin (event_data <$> events) `prefix_of` stream) :
  let c := foldl (handle unicode_case) (connection_made new_connection) events in
  (forall k v, cn_futures c !! k = Some (Result v) -> answer_image unicode_case <$> answers !! k = Some v) /\
  (closed c = true -> Forall (fun f => future_done f = true) (cn_futures c)) /\
  (closed c = false -> mjoin (event_data <$> events) = stream ->
   forall k a, answers !! k = Some a ->
   cn_futures c !! k = Some (Result (answer_image unicode_case a)) \/ cn_futures c !! k = Some Cancelled) /\
  (exists written, cn_transport c = Some written /\
     mjoin written `prefix_of` queued unicode_case (connection_made new_connection) events).
Proof.
  destruct (answers_framed unicode_case answers stream Hfit Henc) as (raws & -> & Hfs). destruct Hdata as [w Hw].
  pose proof (matching_events unicode_case raws _ Hfs events [] w _ (opened unicode_case raws _ Hfs) Hw) as Hm.
  assert (Hs : sent [] (connection_made new_connection)) by (by exists [], []).
  apply (sent_events unicode_case events) in Hs. simpl in Hm, Hs. intros c. fold c in Hm, Hs. conj.
  - intros k v Hk. destruct Hm as [(m & u & (_ & _ & _ & _ & Hf) & _)|(_ & _ & Hf)]; specialize (Hf k _ Hk);
      [destruct Hf as [_ Hf]|]; simpl in Hf; by rewrite list_lookup_fmap in Hf.
  - unfold closed. intros Hc. destruct Hm as [(m & u & (He & _) & _)|(_ & _ & Hf)]; [by rewrite He in Hc|].
    apply Forall_lookup. intros k f Hk. specialize (Hf k f Hk). by destruct f.
  - unfold closed. intros Hc Hall k a Ha. destruct Hm as [(m & u & Hl & Hm & Hd & Hr)|(He & _)].
    2: by destruct (cn_error c).
    rewrite Hall in Hd. pose proof (no_rest m u raws Hd Hr) as Hlen. destruct Hl as (_ & _ & Hn & _ & Hf).
    apply Forall2_length in Hfs. rewrite length_map in Hfs. pose proof (lookup_lt_Some _ _ _ Ha) as Hk.
    destruct (lookup_lt_is_Some_2 (cn_futures c) k ltac:(lia)) as [f Hk']. rewrite Hk'. specialize (Hf k f Hk').
    destruct f as [|v|x|]; simpl in Hf; [lia| |done|by right]. left. destruct Hf as [_ Hv].
    rewrite list_lookup_fmap, Ha in Hv. simpl in Hv. by injection Hv as ->.
  - destruct Hs as (written & rest & Ht & -> & _). exists written. split; [done|]. by exists rest.
Qed.

(** Two calls, a stream that is cut in the middle of the second reply, and a
    third reply nobody asked for: the connection is given up. *)
Definition demo_answers : list (Reply + exn) :=
  [inl (RStatus (lit "PONG")); inl (RArray [RText (lit "a"); RInt 7]); inr (err WrongTypeError "")].
Definition demo_replies : bytes := match concat_ok encode_answer demo_answers with Ok b => b | Raise _ => [] end.
Definition demo_events : list event :=
  [Submit [[AStr (lit "PING")]]; Flush; Submit [[AStr (lit "EXEC"); AInt 1]]; Data (take 9 demo_replies); Flush;
   Data (drop 9 demo_replies)].

Local Ltac on_wire := eexists; split; [vm_compute; reflexivity|]; split; [by vm_compute|].

Lemma demo_answers_fit : Forall answer_fits demo_answers.
Proof.
  repeat (apply Forall_cons; split); try (by apply Forall_nil).
  - on_wire. repeat constructor.
  - split; [by vm_compute|]. split; [on_wire; by vm_compute|]. by split.
  - on_wire. repeat constructor.
Qed.

Lemma replies_matched_witness :
  let c := foldl (handle (fun _ => None)) (connection_made new_connection) demo_events in
  cn_futures c = [Result (PStatus (lit "PONG")); Result (PArray [PText (lit "a"); PInt 7])] /\
  Forall (fun f => future_done f = true) (cn_futures c).
Proof.
  destruct (replies_matched (fun _ => None) demo_answers demo_replies demo_events demo_answers_fit) as (_ & H & _);
    [by vm_compute|exists []; by vm_compute|].
  split; [by vm_compute|]. apply H. by vm_compute.
Defined.
