(* ===== verification/EndToEnd.v ===== *)
(** * A client and a server

    The two ends of a connection together: what a call of the client returns
    is what the server's handler answered, command by command. *)

From Stdlib Require Import String.
From S2P Require Import Prelude PyStr PyFloat Errors Codec Snapshot Registry Resp RespProofs.
From S2P Require Import TcpServer Replies Client ClientSpec.
Local Close Scope string_scope.

(** ** The reference: the handler's answers, in order *)
Section Reference.
Context {S : Type} (handler : list pystr -> M exn S HandlerResult) (enter_batch exit_batch : M exn S unit).

Definition outcome (r : result exn HandlerResult) : Reply + exn :=
  match r with
  | Ok (HReply v) => inl v
  | Ok HTakeover => inl RNone
  | Raise x => inr (if isinstance x KVStoreError then x else err KVStoreError "internal error")
  end.

Fixpoint answer_all (commands : list (list pystr)) (s : S) : list (Reply + exn) * S :=
  match commands with
  | [] => ([], s)
  | command :: rest =>
      let '(r, s) := handler command s in
      let '(answers, s) := answer_all rest s in (outcome r :: answers, s)
  end.

Fixpoint answer_groups (groups : list (list (list pystr))) (s : S) : list (Reply + exn) * S :=
  match groups with
  | [] => ([], s)
  | [] :: rest => answer_groups rest s
  | commands :: rest =>
      let '(answers, s) := answer_all commands (enter_batch s).2 in
      let '(more, s) := answer_groups rest (exit_batch s).2 in (answers ++ more, s)
  end.

(** Every answer of the handler can be sent, and the batch is entered and
    left without an error. *)
Class Answering : Prop := {
  answering_fits : forall command s, answer_fits (outcome (handler command s).1);
  answering_stays : forall command s, (handler command s).1 <> Ok HTakeover;
  answering_enter : forall s, (enter_batch s).1 = Ok tt;
  answering_exit : forall s, (exit_batch s).1 = Ok tt
}.
Context `{!Answering}.

Lemma respond_answer command s :
  exists raw, respond handler command s = (Ok (Bytes raw), (handler command s).2) /\
    encode_answer (outcome (handler command s).1) = Ok raw.
Proof.
  pose proof (answering_fits command s) as Hfit. pose proof (answering_stays command s) as Hstay.
  destruct (answer_framed (fun _ => None) _ Hfit) as (raw & Hraw & _). exists raw.
  split; [|done]. unfold respond, catchM, bindM at 1, lift. destruct (handler command s) as [[[v|]|x] s']; [|done|].
  - simpl in Hraw |- *. unfold bindM. by rewrite Hraw.
  - simpl in Hraw |- *. unfold bindM. by rewrite Hraw.
Qed.

Lemma respond_all commands s :
  exists raws, mapM_list (respond handler) commands s = (Ok (Bytes <$> raws), (answer_all commands s).2) /\
    Forall2 (fun a raw => encode_answer a = Ok raw) (answer_all commands s).1 raws.
Proof.
  revert s. induction commands as [|command rest IH]; intros s; [by exists []|]. cbn [mapM_list answer_all].
  destruct (respond_answer command s) as (raw & Hr & Hraw). destruct (handler command s) as [r s1] eqn:Eh.
  destruct (IH s1) as (raws & Hrs & Hraws). exists (raw :: raws). unfold bindM at 1. rewrite Hr. unfold bindM at 1.
  simpl. rewrite Hrs. destruct (answer_all rest s1) as [answers s2]. split; [done|]. by constructor.
Qed.

Lemma before_takeover_bytes raws : before_takeover (Bytes <$> raws) = (raws, false).
Proof. induction raws as [|raw raws IH]; [done|]. rewrite fmap_cons. cbn [before_takeover]. by rewrite IH. Qed.

Lemma run_groups_answers groups s :
  exists raws, run_groups handler enter_batch exit_batch groups s = (raws, AtEof, (answer_groups groups s).2) /\
    Forall2 (fun a raw => encode_answer a = Ok raw) (answer_groups groups s).1 raws.
Proof.
  revert s. induction groups as [|[|command commands] groups IH]; intros s; [by exists []| |].
  - destruct (IH s) as (raws & Hr & Hraws). exists raws. cbn [run_groups answer_groups]. simpl. rewrite Hr.
    by destruct (answer_groups groups s).
  - cbn [run_groups answer_groups]. set (l := command :: commands). unfold run_batch, bindM at 1.
    pose proof (answering_enter s) as He. destruct (enter_batch s) as [r s1]. cbn [fst snd] in He |- *. subst r.
    destruct (respond_all l s1) as (raws & Hr & Hraws). unfold finallyM. rewrite Hr.
    destruct (answer_all l s1) as [answers s2]. simpl in *.
    pose proof (answering_exit s2) as Hx. destruct (exit_batch s2) as [r3 s3]. simpl in Hx |- *. rewrite Hx.
    rewrite before_takeover_bytes. destruct (IH s3) as (more & Hm & Hmore). rewrite Hm.
    destruct (answer_groups groups s3) as [rest s4]. exists (raws ++ more). split; [done|]. by apply Forall2_app.
Qed.

Lemma answer_groups_length groups s :
  length (answer_groups groups s).1 = length (mjoin groups) /\ Forall answer_fits (answer_groups groups s).1.
Proof.
  assert (Hall : forall commands s, length (answer_all commands s).1 = length commands /\
    Forall answer_fits (answer_all commands s).1).
  { induction commands as [|command rest IH]; intros s0; [done|]. cbn [answer_all].
    pose proof (answering_fits command s0). destruct (handler command s0) as [r s1]. destruct (IH s1).
    destruct (answer_all rest s1). simpl in *. split; [lia|by constructor]. }
  revert s. induction groups as [|[|command commands] groups IH]; intros s; [done|apply IH|].
  cbn [answer_groups]. destruct (Hall (command :: commands) (enter_batch s).2) as [H1 H2].
  destruct (answer_all (command :: commands) (enter_batch s).2) as [answers s2].
  destruct (IH (exit_batch s2).2) as [H3 H4]. destruct (answer_groups groups (exit_batch s2).2) as [more s3].
  simpl in *. rewrite !length_app. split; [lia|by apply Forall_app].
Qed.
End Reference.

(** ** The client's side, when nothing goes wrong *)
Definition uncancelled (c : Connection) : Prop := Forall (fun f => f <> Cancelled) (cn_futures c).

Lemma data_loop_uncancelled unicode_case fuel c : uncancelled c -> uncancelled (data_loop unicode_case fuel c).2.
Proof.
  revert c. induction fuel as [|f IH]; intros c Hc; [done|].
  destruct (next_reply unicode_case (cn_parser c)) as [[[v|]|x] p] eqn:E.
  2, 3: cbn [data_loop]; unfold bindM, parser_reply; by rewrite E.
  rewrite (data_loop_next _ _ _ _ _ E). destruct (cn_waiting c) as [|k rest]; [done|]. apply IH.
  unfold uncancelled, settle. simpl. destruct (cn_futures c !! k) as [[| | |]|]; try done. simpl.
  by apply Forall_insert.
Qed.

Section Pieces.
Context (unicode_case : Z -> option bool) (raws : list bytes) (vs : list PReply).
Context (Hframes : Forall2 (framed unicode_case) raws vs).

Lemma data_received_live m u d w c :
  live vs m u c -> uncancelled c -> (m <= length raws <= length (cn_futures c))%nat ->
  mjoin (drop m raws) = (u ++ d) ++ w ->
  exists c' m' u', data_received unicode_case d c = (Ok tt, c') /\ live vs m' u' c' /\ uncancelled c' /\
    (m' <= length raws)%nat /\ length (cn_futures c') = length (cn_futures c) /\
    mjoin (drop m' raws) = u' ++ w /\ residue u' (drop m' raws).
Proof.
  intros Hl Hu Hm E. set (c1 := set_parser (feed_reply d (cn_parser c)) c).
  assert (Hl1 : live vs m (u ++ d) c1) by (destruct Hl as (? & ? & ?); split; [done|]; split; [by apply got_feed|done]).
  pose proof (got_length _ _ (proj1 (proj2 Hl1))) as Hlen. set (fuel := S (length (yp_buf (cn_parser c1)))).
  assert (Heq : data_received unicode_case d c =
    catchM (data_loop unicode_case fuel) (fun x => isinstance x ProtocolError) (fun x => modifyM (abort x)) c1) by done.
  rewrite Heq. unfold catchM. pose proof (data_loop_uncancelled unicode_case fuel c1 Hu) as Hu'.
  destruct (data_loop_live unicode_case raws vs Hframes fuel m (u ++ d) w c1 Hl1 E ltac:(unfold fuel; lia) ltac:(lia))
    as (r & c' & Ed & Hn & [(m' & u' & -> & Hl' & Hb & E' & Hr)|(u' & -> & _ & Hlt)]); rewrite Ed in *.
  - exists c', m', u'. conj; try done. lia.
  - exfalso. change (cn_futures c1) with (cn_futures c) in Hn. lia.
Qed.

Lemma pieces_live pieces m u c :
  live vs m u c -> uncancelled c -> (m <= length raws <= length (cn_futures c))%nat ->
  mjoin (drop m raws) = u ++ mjoin pieces -> residue u (drop m raws) ->
  exists c' u', foldl (handle unicode_case) c (Data <$> pieces) = c' /\ live vs (length raws) u' c' /\ uncancelled c' /\
    length (cn_futures c') = length (cn_futures c).
Proof.
  revert m u c. induction pieces as [|d pieces IH]; intros m u c Hl Hu Hm E Hr.
  - exists c, u. replace (length raws) with m; [done|].
    enough (length raws <= m)%nat by lia. apply (no_rest m u); [|done].
    rewrite <- (take_drop m raws) at 1. rewrite join_app, E. simpl. by rewrite app_nil_r.
  - change (mjoin (d :: pieces)) with (d ++ mjoin pieces) in E. rewrite app_assoc in E.
    destruct (data_received_live m u d _ c Hl Hu Hm E) as (c1 & m' & u' & Ed & Hl' & Hu' & Hm' & Hn & E' & Hr').
    destruct (IH m' u' c1 Hl' Hu' ltac:(lia) E' Hr') as (c' & u'' & Ef & Hl2 & Hu2 & Hn2).
    exists c', u''. rewrite fmap_cons. cbn [foldl handle]. rewrite Ed. conj; try done. lia.
Qed.
End Pieces.

Lemma gather_results vs fs : fs = Result <$> vs -> gather fs = Some (Ok vs).
Proof. intros ->. induction vs as [|v vs IH]; [done|]. rewrite fmap_cons. cbn [gather]. by rewrite IH. Qed.

Lemma results_of_live vs u c :
  live vs (length vs) u c -> uncancelled c -> length (cn_futures c) = length vs ->
  (fun k => default Cancelled (cn_futures c !! k)) <$> seq 0 (length vs) = Result <$> vs.
Proof.
  intros (_ & _ & _ & _ & Hf) Hu Hn. apply list_eq. intros k. rewrite !list_lookup_fmap.
  destruct (vs !! k) as [v|] eqn:Hv.
  - pose proof (lookup_lt_Some _ _ _ Hv) as Hk. rewrite lookup_seq_lt by done. simpl.
    destruct (lookup_lt_is_Some_2 (cn_futures c) k ltac:(lia)) as [f Hk']. rewrite Hk'. specialize (Hf k f Hk'). simpl.
    unfold uncancelled in Hu. rewrite Forall_lookup in Hu. specialize (Hu k f Hk').
    destruct f as [|v'|x|]; simpl in Hf; [lia| |done|done]. destruct Hf as [_ Hf]. congruence.
  - apply lookup_ge_None in Hv. by rewrite (proj2 (lookup_ge_None (seq 0 (length vs)) k)) by (rewrite length_seq; lia).
Qed.

Lemma concat_encoded (answers : list (Reply + exn)) raws :
  Forall2 (fun a raw => encode_answer a = Ok raw) answers raws -> concat_ok encode_answer answers = Ok (mjoin raws).
Proof. induction 1 as [|a raw answers raws Ha _ IH]; [done|]. cbn [concat_ok]. by rewrite Ha, IH. Qed.

(** A call of the client on a new connection, the reply stream in pieces. *)
Definition call (requests : list (list PyArg)) (pieces : list bytes) : list event :=
  Submit requests :: Flush :: (Data <$> pieces).

(** The connection after the call has been sent. *)
Lemma submitted_live requests payload vs unicode_case :
  concat_ok encode_command requests = Ok payload ->
  let c := foldl (handle unicode_case) (connection_made new_connection) [Submit requests; Flush] in
  cn_transport c = Some [payload] /\ live vs 0 [] c /\ uncancelled c /\ length (cn_futures c) = length requests.
Proof.
  intros E. cbn [foldl handle]. unfold pipeline_send, bindM at 1, lift. rewrite E.
  unfold catchM, submit, bindM at 1, getM. simpl. unfold live, uncancelled. simpl. rewrite !length_replicate, app_nil_r, Nat.sub_0_r.
  unfold got. simpl. conj; try done; try lia; [|by apply Forall_replicate].
  intros k f Hk. apply lookup_replicate in Hk as [-> _]. simpl. lia.
Qed.

Lemma pieces_wire unicode_case pieces c : same_wire c (foldl (handle unicode_case) c (Data <$> pieces)).
Proof.
  revert c. induction pieces as [|d pieces IH]; intros c; [done|]. rewrite fmap_cons. cbn [foldl handle].
  eapply same_wire_trans; [apply data_received_wire|apply IH].
Qed.

Lemma submitted unicode_case address requests payload (answers : list (Reply + exn)) raws pieces :
  concat_ok encode_command requests = Ok payload -> length answers = length requests ->
  Forall answer_fits answers -> Forall2 (fun a raw => encode_answer a = Ok raw) answers raws -> mjoin pieces = mjoin raws ->
  let c := foldl (handle unicode_case) (connection_made new_connection) (call requests pieces) in
  cn_transport c = Some [payload] /\
  pipeline_result address (seq 0 (length requests)) c = Some (Ok (map (answer_image unicode_case) answers)).
Proof.
  intros Henc Hlen Hfit Hraws Hp. set (vs := map (answer_image unicode_case) answers).
  assert (Hframes : Forall2 (framed unicode_case) raws vs).
  { unfold vs. clear Hlen Hp vs. induction Hraws as [|a raw answers raws Ha _ IH]; [done|].
    inversion_clear Hfit as [|? ? Hf Hfit']. destruct (answer_framed unicode_case a Hf) as (raw' & Hr & Hfr).
    simpl. constructor; [congruence|auto]. }
  pose proof (Forall2_length _ _ _ Hraws) as Hn.
  destruct (submitted_live requests payload vs unicode_case Henc) as (Ht & Hl & Hu & Hf).
  change (call requests pieces) with ([Submit requests; Flush] ++ (Data <$> pieces)). rewrite foldl_app.
  set (c0 := foldl _ _ [Submit requests; Flush]) in *.
  destruct (pieces_live unicode_case raws vs Hframes pieces 0 [] c0 Hl Hu) as (c' & u' & Ec & Hl' & Hu' & Hf');
    [lia|done|by destruct Hframes as [|? ? ? ? H%framed_length]; simpl; [|lia]|].
  pose proof (pieces_wire unicode_case pieces c0) as (Hw & _). rewrite Ec in Hw |- *. intros c. subst c.
  split; [congruence|]. unfold pipeline_result.
  assert (Hvs : length vs = length requests) by (unfold vs; by rewrite length_map).
  rewrite <- Hvs, (gather_results vs); [done|]. apply (results_of_live vs u'); [|done|lia].
  replace (length vs) with (length raws) by lia. done.
Qed.


(** A handler that counts its commands and knows only PING. *)
Definition ping_handler (command : list pystr) : M exn Z HandlerResult :=
  fun n => match command with
           | [name] => if bool_decide (name = lit "PING") then (Ok (HReply (RStatus (lit "PONG"))), n + 1)
                       else (Raise (err UnknownCommandError "unknown command"), n + 1)
           | _ => (Raise (err ValueError "not a command"), n + 1)
           end.

Local Ltac on_line := eexists; split; [vm_compute; reflexivity|]; split; [by vm_compute|repeat constructor].

#[local] Instance ping_answering : Answering ping_handler (ret tt) (ret tt).
Proof.
  split; [| |done|done]; intros [|name [|arg args]] s; simpl; try on_line; try done;
    case_bool_decide; try done; on_line.
Qed.

