(* ===== verification/Json.v ===== *)
(** * JSON

    What the sources use of Python's [json]: [loads] of text and of bytes, with
    the grammar of its scanner, and [dumps].  The texts of its errors, which
    name positions, are left out: a failure is [None] and stands for a
    [ValueError]. *)

From Stdlib Require Import SpecFloat String.
From S2P Require Import Prelude PyStr PyFloat Codec.
Local Close Scope string_scope.

Inductive Json :=
| JNull
| JBool (b : bool)
| JInt (z : Z)
| JFloat (x : float)
| JString (s : pystr)
| JArray (l : list Json)
| JObject (d : list (pystr * Json)).

(** ** Strings *)
Definition hex_value (c : Z) : option Z :=
  if is_digit c then Some (c - 48)
  else if (97 <=? c) && (c <=? 102) then Some (c - 87)
  else if (65 <=? c) && (c <=? 70) then Some (c - 55)
  else None.

Definition hex4 (a b c d : Z) : option Z :=
  match hex_value a, hex_value b, hex_value c, hex_value d with
  | Some a, Some b, Some c, Some d => Some (((a * 16 + b) * 16 + c) * 16 + d)
  | _, _, _, _ => None
  end.

Definition high_surrogate : Z -> bool := between 0xD800 0xDBFF.
Definition low_surrogate : Z -> bool := between 0xDC00 0xDFFF.
Definition join_surrogates (u v : Z) : Z := 0x10000 + (u - 0xD800) * 1024 + (v - 0xDC00).

Definition unescape (c : Z) : option Z :=
  if (c =? 34) || (c =? 92) || (c =? 47) then Some c
  else if c =? 98 then Some 8 else if c =? 102 then Some 12 else if c =? 110 then Some 10
  else if c =? 114 then Some 13 else if c =? 116 then Some 9 else None.

(** After the opening quote: the text, and what follows the closing one. *)
Fixpoint scan_string (s : pystr) : option (pystr * pystr) :=
  match s with
  | [] => None
  | 34 :: r => Some ([], r)
  | 92 :: 117 :: a :: b :: c :: d :: r =>
      match hex4 a b c d with
      | None => None
      | Some u =>
          let lone := '(t, r) ← scan_string r; Some (u :: t, r) in
          match r with
          | 92 :: 117 :: a' :: b' :: c' :: d' :: r' =>
              if high_surrogate u then
                match hex4 a' b' c' d' with
                | None => None
                | Some v => if low_surrogate v
                            then '(t, r) ← scan_string r'; Some (join_surrogates u v :: t, r)
                            else lone
                end
              else lone
          | _ => lone
          end
      end
  | 92 :: c :: r => e ← unescape c; '(t, r) ← scan_string r; Some (e :: t, r)
  | c :: r => if (c <=? 31) || (c =? 92) then None else '(t, r) ← scan_string r; Some (c :: t, r)
  end.

(** ** Numbers *)
Definition scan_int (s : pystr) : option (list Z * pystr) :=
  match s with
  | [] => None
  | c :: r => if c =? 48 then Some ([0], r) else if is_digit c then Some (span_digits s) else None
  end.

Definition scan_frac (s : pystr) : option (list Z * pystr) :=
  match s with
  | 46 :: r => match span_digits r with ((_ :: _) as ds, r) => Some (ds, r) | _ => None end
  | _ => None
  end.

Definition scan_exp (s : pystr) : option (Z * pystr) :=
  match s with
  | c :: r =>
      if (c =? 101) || (c =? 69) then
        let '(neg, r) := opt_sign r in
        match span_digits r with
        | ((_ :: _) as ds, r) => Some (with_sign neg (digits_value ds), r)
        | _ => None
        end
      else None
  | [] => None
  end.

Definition scan_number (s : pystr) : option (Json * pystr) :=
  let '(neg, r) := match s with 45 :: r => (true, r) | _ => (false, s) end in
  match scan_int r with
  | None => None
  | Some (ds, r) =>
      match scan_frac r, scan_exp r with
      | None, None =>
          if bool_decide (length ds <= INT_MAX_STR_DIGITS)%nat
          then Some (JInt (with_sign neg (digits_value ds)), r) else None
      | None, Some (e, r) => Some (JFloat (decimal_float neg (digits_value ds) e), r)
      | Some (frac, r), _ =>
          let '(e, r) := default (0, r) (scan_exp r) in
          Some (JFloat (decimal_float neg (digits_value (ds ++ frac)) (e - Z.of_nat (length frac))), r)
      end
  end.

(** ** Values *)
Definition is_json_space (c : Z) : bool := (c =? 32) || (c =? 9) || (c =? 10) || (c =? 13).
Definition skip_ws : pystr -> pystr := lstrip is_json_space.

(** [s] without the literal [word] at its front. *)
Definition after_word (word : pystr) (s : pystr) : option pystr :=
  if bool_decide (take (length word) s = word) then Some (drop (length word) s) else None.

Definition constants : list (pystr * Json) :=
  [(lit "null", JNull); (lit "true", JBool true); (lit "false", JBool false); (lit "NaN", JFloat S754_nan);
   (lit "Infinity", JFloat (S754_infinity false)); (lit "-Infinity", JFloat (S754_infinity true))].

Fixpoint scan_constant (l : list (pystr * Json)) (s : pystr) : option (Json * pystr) :=
  match l with
  | [] => None
  | (word, v) :: l' =>
      match after_word word s with Some r => Some (v, r) | None => scan_constant l' s end
  end.

(** [dict(pairs)]: the last value of a key, at its first place. *)
Definition of_pairs (ps : list (pystr * Json)) : list (pystr * Json) :=
  fold_left (fun d '(k, v) => dict_set k v d) ps [].

(** [scan_once] at the start of a value; [scan_items] and [scan_pairs] at the
    start of an element, to the closing bracket.  Every call is further on in
    the text than the one before the last. *)
Fixpoint scan_once (fuel : nat) (s : pystr) : option (Json * pystr) :=
  match fuel with
  | O => None
  | S f =>
      match s with
      | 34 :: r => '(t, r) ← scan_string r; Some (JString t, r)
      | 123 :: r =>
          match skip_ws r with
          | 125 :: r => Some (JObject [], r)
          | r => '(ps, r) ← scan_pairs f r; Some (JObject (of_pairs ps), r)
          end
      | 91 :: r =>
          match skip_ws r with
          | 93 :: r => Some (JArray [], r)
          | r => '(vs, r) ← scan_items f r; Some (JArray vs, r)
          end
      | _ => match scan_constant constants s with Some v => Some v | None => scan_number s end
      end
  end
with scan_items (fuel : nat) (s : pystr) : option (list Json * pystr) :=
  match fuel with
  | O => None
  | S f =>
      '(v, r) ← scan_once f s;
      match skip_ws r with
      | 93 :: r => Some ([v], r)
      | 44 :: r => '(vs, r) ← scan_items f (skip_ws r); Some (v :: vs, r)
      | _ => None
      end
  end
with scan_pairs (fuel : nat) (s : pystr) : option (list (pystr * Json) * pystr) :=
  match fuel with
  | O => None
  | S f =>
      match s with
      | 34 :: r =>
          '(k, r) ← scan_string r;
          match skip_ws r with
          | 58 :: r =>
              '(v, r) ← scan_once f (skip_ws r);
              match skip_ws r with
              | 125 :: r => Some ([(k, v)], r)
              | 44 :: r => '(ps, r) ← scan_pairs f (skip_ws r); Some ((k, v) :: ps, r)
              | _ => None
              end
          | _ => None
          end
      | _ => None
      end
  end.

(** [json.loads(text)]. *)
Definition loads (s : pystr) : option Json :=
  match scan_once (2 * length s + 1) (skip_ws s) with
  | Some (v, r) => match skip_ws r with [] => Some v | _ => None end
  | None => None
  end.

(** ** [json.loads] of bytes: the encoding is detected *)

(** UTF-8 with the [surrogatepass] handler. *)
Fixpoint utf8_pass (fuel : nat) (data : bytes) : option pystr :=
  match fuel, data with
  | _, [] => Some []
  | O, _ => None
  | S f, _ =>
      match decode_char data, data with
      | Some (c, n), _ => cons c <$> utf8_pass f (drop n data)
      | None, 0xED :: b :: c :: rest =>
          if between 0xA0 0xBF b && is_cont c
          then cons (0xD000 + (b - 0x80) * 64 + (c - 0x80)) <$> utf8_pass f rest else None
      | None, _ => None
      end
  end.

Fixpoint utf16_units (big : bool) (data : bytes) : option (list Z) :=
  match data with
  | [] => Some []
  | [_] => None
  | a :: b :: rest => cons (if big then a * 256 + b else b * 256 + a) <$> utf16_units big rest
  end.

Fixpoint utf16_join (units : list Z) : pystr :=
  match units with
  | u :: (v :: rest) as tail =>
      if high_surrogate u && low_surrogate v then join_surrogates u v :: utf16_join rest
      else u :: utf16_join tail
  | _ => units
  end.

Fixpoint utf32_units (big : bool) (data : bytes) : option pystr :=
  match data with
  | [] => Some []
  | a :: b :: c :: d :: rest =>
      let u := if big then ((a * 256 + b) * 256 + c) * 256 + d else ((d * 256 + c) * 256 + b) * 256 + a in
      if u <=? 0x10FFFF then cons u <$> utf32_units big rest else None
  | _ => None
  end.

Definition utf16 (big : bool) (data : bytes) : option pystr := utf16_join <$> utf16_units big data.

(** [detect_encoding], and the decoding it selects. *)
Definition decode_json (b : bytes) : option pystr :=
  match b with
  | 0 :: 0 :: 0xFE :: 0xFF :: r => utf32_units true r
  | 0xFF :: 0xFE :: 0 :: 0 :: r => utf32_units false r
  | 0xFE :: 0xFF :: r => utf16 true r
  | 0xFF :: 0xFE :: r => utf16 false r
  | 0xEF :: 0xBB :: 0xBF :: r => utf8_pass (length r) r
  | 0 :: 0 :: _ :: _ :: _ => utf32_units true b
  | 0 :: _ :: _ :: _ :: _ => utf16 true b
  | _ :: 0 :: 0 :: 0 :: _ => utf32_units false b
  | _ :: 0 :: _ :: _ :: _ => utf16 false b
  | [0; _] => utf16 true b
  | [_; 0] => utf16 false b
  | _ => utf8_pass (length b) b
  end.

Definition loads_bytes (b : bytes) : option Json := s ← decode_json b; loads s.

(** ** [json.dumps] *)
Definition hex_char (d : Z) : Z := if d <? 10 then 48 + d else 87 + d.
Definition unicode_escape (u : Z) : pystr :=
  [92; 117; hex_char (u / 4096); hex_char (u / 256 mod 16); hex_char (u / 16 mod 16); hex_char (u mod 16)].

Definition escape_char (c : Z) : pystr :=
  if (c =? 34) || (c =? 92) then [92; c]
  else if c =? 10 then [92; 110] else if c =? 13 then [92; 114] else if c =? 9 then [92; 116]
  else if c =? 12 then [92; 102] else if c =? 8 then [92; 98]
  else if (32 <=? c) && (c <=? 126) then [c]
  else if c <? 0x10000 then unicode_escape c
  else let v := c - 0x10000 in
       unicode_escape (0xD800 + v / 1024) ++ unicode_escape (0xDC00 + v mod 1024).

Definition dump_string (s : pystr) : pystr := 34 :: (s ≫= escape_char) ++ [34].

Definition dump_float (x : float) : pystr :=
  match x with
  | S754_nan => lit "NaN"
  | S754_infinity neg => if neg then lit "-Infinity" else lit "Infinity"
  | _ => float_repr x
  end.

(** [json.dumps(value, separators=(item_sep, key_sep))]. *)
Fixpoint dumps (item_sep key_sep : pystr) (v : Json) : pystr :=
  match v with
  | JNull => lit "null"
  | JBool b => if b then lit "true" else lit "false"
  | JInt z => str_of_int z
  | JFloat x => dump_float x
  | JString s => dump_string s
  | JArray [] => lit "[]"
  | JArray (x :: l) =>
      91 :: dumps item_sep key_sep x ++
      (fix go (l : list Json) : pystr :=
         match l with [] => [93] | y :: l' => item_sep ++ dumps item_sep key_sep y ++ go l' end) l
  | JObject [] => lit "{}"
  | JObject ((k, x) :: d) =>
      123 :: dump_string k ++ key_sep ++ dumps item_sep key_sep x ++
      (fix go (d : list (pystr * Json)) : pystr :=
         match d with
         | [] => [125]
         | (k, y) :: d' => item_sep ++ dump_string k ++ key_sep ++ dumps item_sep key_sep y ++ go d'
         end) d
  end.

Definition dumps_compact : Json -> pystr := dumps (lit ",") (lit ":").
Definition dumps_default : Json -> pystr := dumps (lit ", ") (lit ": ").

(** * JSON round trip

    [loads] reads back what [dumps] wrote: values without floats, whose texts
    have no surrogates and whose objects have no key twice. *)

(** ** Strings *)
Definition scalar (c : Z) : Prop := 0 <= c < 0xD800 \/ 0xE000 <= c <= 0x10FFFF.

Lemma hex_value_char d : 0 <= d < 16 -> hex_value (hex_char d) = Some d.
Proof.
  intros H. unfold hex_char, hex_value, is_digit.
  destruct (Z.ltb_spec d 10).
  - destruct (Z.leb_spec 48 (48 + d)), (Z.leb_spec (48 + d) 57); try lia. simpl. f_equal. lia.
  - destruct (Z.leb_spec 48 (87 + d)), (Z.leb_spec (87 + d) 57); try lia. simpl.
    destruct (Z.leb_spec 97 (87 + d)), (Z.leb_spec (87 + d) 102); try lia. simpl. f_equal. lia.
Qed.

Lemma hex4_escape u :
  0 <= u < 65536 ->
  hex4 (hex_char (u / 4096)) (hex_char (u / 256 mod 16)) (hex_char (u / 16 mod 16)) (hex_char (u mod 16)) = Some u.
Proof.
  intros H. unfold hex4. rewrite !hex_value_char; try (split; lia || (apply Z.mod_pos_bound; lia)).
  2: { split; [apply Z.div_pos; lia|apply Z.div_lt_upper_bound; lia]. }
  f_equal. pose proof (Z.div_mod u 16). pose proof (Z.div_mod (u / 16) 16). pose proof (Z.div_mod (u / 256) 16).
  replace (u / 4096) with (u / 256 / 16) by (rewrite Z.div_div; [done|lia..]).
  replace (u / 256) with (u / 16 / 16) in * by (rewrite Z.div_div; [done|lia..]). lia.
Qed.

Lemma scan_lone u r :
  0 <= u < 65536 -> high_surrogate u = false ->
  scan_string (unicode_escape u ++ r) = ('(t, r) ← scan_string r; Some (u :: t, r)).
Proof.
  intros Hu Hs. unfold unicode_escape. cbn [app scan_string]. rewrite hex4_escape by done. cbv zeta. rewrite Hs.
  set (lone := mbind _ _). clearbody lone.
  do 6 (destruct r as [|[|?|?] r]; try reflexivity;
        repeat match goal with |- context [match ?p with _ => _ end] => is_var p; destruct p; try reflexivity end).
Qed.

Lemma scan_pair u v r :
  0xD800 <= u <= 0xDBFF -> 0xDC00 <= v <= 0xDFFF ->
  scan_string (unicode_escape u ++ unicode_escape v ++ r) =
  ('(t, r) ← scan_string r; Some (join_surrogates u v :: t, r)).
Proof.
  intros Hu Hv. unfold unicode_escape. cbn [app scan_string]. rewrite !hex4_escape by lia. cbv zeta.
  unfold high_surrogate, low_surrogate, between.
  destruct (Z.leb_spec 0xD800 u), (Z.leb_spec u 0xDBFF); try lia. cbn [andb].
  destruct (Z.leb_spec 0xDC00 v), (Z.leb_spec v 0xDFFF); try lia. done.
Qed.

Lemma scan_plain c r :
  31 < c -> c <> 34 -> c <> 92 -> scan_string (c :: r) = ('(t, r) ← scan_string r; Some (c :: t, r)).
Proof.
  intros H1 H2 H3. assert (Hb : (c <=? 31) || (c =? 92) = false)
    by (destruct (Z.leb_spec c 31), (Z.eqb_spec c 92); lia || done).
  assert (Hs : scan_string (c :: r) =
    if (c <=? 31) || (c =? 92) then None else '(t, r) ← scan_string r; Some (c :: t, r)); [|by rewrite Hs, Hb].
  destruct c as [|c|c]; try reflexivity. do 7 (try (destruct c; try reflexivity)); done.
Qed.

Lemma scan_escape c r :
  scalar c -> scan_string (escape_char c ++ r) = ('(t, r) ← scan_string r; Some (c :: t, r)).
Proof.
  intros Hc. unfold escape_char.
  destruct (Z.eqb_spec c 34) as [->|H34]; [done|]. destruct (Z.eqb_spec c 92) as [->|H92]; [done|]. cbn [orb].
  destruct (Z.eqb_spec c 10) as [->|H10]; [done|]. destruct (Z.eqb_spec c 13) as [->|H13]; [done|].
  destruct (Z.eqb_spec c 9) as [->|H9]; [done|]. destruct (Z.eqb_spec c 12) as [->|H12]; [done|].
  destruct (Z.eqb_spec c 8) as [->|H8]; [done|].
  destruct (Z.leb_spec 32 c), (Z.leb_spec c 126); cbn [andb]; [apply scan_plain; lia| | |];
    (destruct (Z.ltb_spec c 0x10000);
     [apply scan_lone; unfold scalar in Hc;
        [lia|unfold high_surrogate, between; destruct (Z.leb_spec 0xD800 c), (Z.leb_spec c 0xDBFF); lia || done]|]).
  all: unfold scalar in Hc; try lia.
  rewrite <- app_assoc, scan_pair.
  - assert (Hj : join_surrogates (0xD800 + (c - 0x10000) / 1024) (0xDC00 + (c - 0x10000) mod 1024) = c).
    { unfold join_surrogates. pose proof (Z.div_mod (c - 0x10000) 1024 ltac:(lia)). lia. }
    by rewrite Hj.
  - split; [pose proof (Z.div_pos (c - 0x10000) 1024); lia|].
    enough ((c - 0x10000) / 1024 < 1024) by lia. apply Z.div_lt_upper_bound; lia.
  - pose proof (Z.mod_pos_bound (c - 0x10000) 1024). lia.
Qed.

Lemma scan_dump_string s r : Forall scalar s -> scan_string ((s ≫= escape_char) ++ 34 :: r) = Some (s, r).
Proof.
  induction 1 as [|c s Hc Hs IH]; [done|]. rewrite bind_cons, <- app_assoc, scan_escape by done. by rewrite IH.
Qed.

(** ** Numbers *)
Lemma dec_digits_fuel_head fuel n acc :
  0 < n < 10 ^ Z.of_nat fuel -> exists d ds, dec_digits_fuel fuel n acc = d :: ds /\ 0 < d < 10.
Proof.
  revert n acc. induction fuel as [|f IH]; intros n acc Hn; [simpl in Hn; lia|]. cbn [dec_digits_fuel].
  destruct (Z.ltb_spec n 10); [exists n, acc; split; [done|lia]|]. apply IH.
  rewrite Nat2Z.inj_succ, Z.pow_succ_r in Hn by lia. split; [apply Z.div_str_pos; lia|apply Z.div_lt_upper_bound; lia].
Qed.

Lemma dec_digits_head n : 0 < n -> exists d ds, dec_digits n = d :: ds /\ 0 < d < 10.
Proof.
  intros Hn. apply dec_digits_fuel_head. split; [done|]. pose proof (Z.log2_spec n Hn) as [_ H].
  rewrite Nat2Z.inj_succ, Z2Nat.id by apply Z.log2_nonneg.
  eapply Z.lt_le_trans; [exact H|]. apply Z.pow_le_mono_l. pose proof (Z.log2_nonneg n). lia.
Qed.

Definition not_number (r : pystr) : Prop :=
  match r with [] => True | c :: _ => is_digit c = false /\ c <> 46 /\ c <> 101 /\ c <> 69 end.

Lemma span_digits_text ds r :
  Forall (fun d => 0 <= d < 10) ds -> not_number r -> span_digits (map (Z.add 48) ds ++ r) = (ds, r).
Proof.
  intros Hds Hr. induction Hds as [|d ds Hd Hds IH].
  - destruct r as [|c r]; [done|]. cbn [map app span_digits]. by rewrite (proj1 Hr).
  - cbn [map app span_digits]. unfold is_digit at 1. destruct (Z.leb_spec 48 (48 + d)), (Z.leb_spec (48 + d) 57); try lia.
    cbn [andb]. rewrite IH. do 2 f_equal. lia.
Qed.

Lemma scan_int_text n r :
  0 <= n -> not_number r -> scan_int (map (Z.add 48) (dec_digits n) ++ r) = Some (dec_digits n, r).
Proof.
  intros Hn Hr. destruct (Z.eqb_spec n 0) as [->|H0]; [done|].
  assert (Hd : Forall (fun d => 0 <= d < 10) (dec_digits n)) by (apply dec_digits_fuel_range; [lia|constructor]).
  rewrite <- (span_digits_text (dec_digits n) r Hd Hr). destruct (dec_digits_head n ltac:(lia)) as (d & ds & E & Hd').
  rewrite E. cbn [map app scan_int]. destruct (Z.eqb_spec (48 + d) 48); [lia|]. unfold is_digit.
  destruct (Z.leb_spec 48 (48 + d)), (Z.leb_spec (48 + d) 57); try lia. done.
Qed.

Definition int_fits (z : Z) : Prop := (length (dec_digits (Z.abs z)) <= INT_MAX_STR_DIGITS)%nat.

Lemma scan_number_text z r : int_fits z -> not_number r -> scan_number (str_of_int z ++ r) = Some (JInt z, r).
Proof.
  intros Hz Hr. unfold scan_number, str_of_int.
  assert (Hf : scan_frac r = None /\ scan_exp r = None).
  { destruct r as [|c r]; [done|]. destruct Hr as (_ & H46 & H101 & H69). split.
    - destruct c as [|c|c]; try done. do 6 (try (destruct c; try done)).
    - cbn [scan_exp]. by rewrite (proj2 (Z.eqb_neq c 101)), (proj2 (Z.eqb_neq c 69)). }
  destruct Hf as [Hf He]. destruct (Z.ltb_spec z 0).
  - cbn [app]. rewrite scan_int_text, Hf, He by (done || lia). rewrite bool_decide_true by done.
    rewrite dec_digits_value by lia. unfold with_sign. do 3 f_equal. lia.
  - assert (Hm : match map (Z.add 48) (dec_digits (Z.abs z)) ++ r with 45 :: r => (true, r)
      | _ => (false, map (Z.add 48) (dec_digits (Z.abs z)) ++ r) end = (false, map (Z.add 48) (dec_digits (Z.abs z)) ++ r)).
    { destruct (dec_digits (Z.abs z)) as [|d ds] eqn:E; [by destruct (dec_digits_nonempty (Z.abs z))|].
      assert (0 <= d < 10) by (assert (Hd : Forall (fun d => 0 <= d < 10) (dec_digits (Z.abs z)))
        by (apply dec_digits_fuel_range; [lia|constructor]); rewrite E in Hd; by inversion Hd).
      cbn [map app]. destruct (48 + d) as [|p|p] eqn:Ep; try done. do 6 (try (destruct p; try done)). lia. }
    rewrite Hm, scan_int_text, Hf, He by (done || lia). rewrite bool_decide_true by done.
    rewrite dec_digits_value by lia. unfold with_sign. do 3 f_equal. lia.
Qed.

(** ** Values *)
Fixpoint json_ok (v : Json) : Prop :=
  match v with
  | JNull | JBool _ => True
  | JInt z => int_fits z
  | JFloat _ => False
  | JString s => Forall scalar s
  | JArray l => (fix all (l : list Json) : Prop := match l with [] => True | x :: l' => json_ok x /\ all l' end) l
  | JObject d =>
      NoDup d.*1 /\
      (fix all (d : list (pystr * Json)) : Prop :=
         match d with [] => True | (k, x) :: d' => Forall scalar k /\ json_ok x /\ all d' end) d
  end.

Lemma of_pairs_distinct d : NoDup d.*1 -> of_pairs d = d.
Proof.
  enough (H : forall d acc, NoDup (acc ++ d).*1 -> fold_left (fun d '(k, v) => dict_set k v d) d acc = acc ++ d)
    by (intros Hd; by apply (H d [])).
  clear d. induction d as [|[k v] d IH]; intros acc Hd; simpl; [by rewrite app_nil_r|].
  rewrite dict_set_new, IH; rewrite <- ?app_assoc; try done.
  rewrite fmap_app in Hd. apply NoDup_app in Hd as (_ & Hd & _). intros Hk. by apply (Hd k Hk); left.
Qed.

Section RoundTrip.
Context (iw kw : pystr) (Hiw : Forall (fun c => is_json_space c = true) iw)
  (Hkw : Forall (fun c => is_json_space c = true) kw).
Let item_sep := 44 :: iw.
Let key_sep := 58 :: kw.
Let dumps := dumps item_sep key_sep.

Fixpoint dump_items (l : list Json) : pystr :=
  match l with [] => [93] | y :: l' => item_sep ++ dumps y ++ dump_items l' end.
Fixpoint dump_pairs (d : list (pystr * Json)) : pystr :=
  match d with [] => [125] | (k, y) :: d' => item_sep ++ dump_string k ++ key_sep ++ dumps y ++ dump_pairs d' end.

(** The first character of a value: no space and no closing bracket. *)
Definition starts (s : pystr) : Prop :=
  match s with [] => False | c :: _ => is_json_space c = false /\ c <> 93 /\ c <> 125 end.

Lemma starts_app s t : starts s -> starts (s ++ t).
Proof. by destruct s. Qed.

Lemma starts_int z : starts (str_of_int z).
Proof.
  unfold str_of_int. destruct (z <? 0); [done|].
  destruct (dec_digits (Z.abs z)) as [|d ds] eqn:E; [by destruct (dec_digits_nonempty (Z.abs z))|].
  assert (Hd : Forall (fun d => 0 <= d < 10) (dec_digits (Z.abs z)))
    by (apply dec_digits_fuel_range; [lia|constructor]).
  rewrite E in Hd. inversion_clear Hd as [|? ? Hd' _]. simpl. unfold is_json_space.
  split; [|lia]. by rewrite !(proj2 (Z.eqb_neq _ _)) by lia.
Qed.

Lemma starts_dumps v : json_ok v -> starts (dumps v).
Proof.
  destruct v as [|[]|z|x|s|[|x l]|[|[k x] d]]; intros Hv; try done. apply starts_int.
Qed.

Lemma skip_spaces w t : Forall (fun c => is_json_space c = true) w -> starts t -> skip_ws (w ++ t) = t.
Proof.
  intros Hw Ht. induction Hw as [|c w Hc Hw IH]; [|cbn [app]; unfold skip_ws; cbn [lstrip]; by rewrite Hc].
  destruct t as [|c t]; [done|]. unfold skip_ws. cbn [app lstrip]. by rewrite (proj1 Ht).
Qed.

Lemma scan_other f c s :
  c <> 34 -> c <> 123 -> c <> 91 ->
  scan_once (S f) (c :: s) =
  match scan_constant constants (c :: s) with Some v => Some v | None => scan_number (c :: s) end.
Proof.
  intros H1 H2 H3. cbn [scan_once]. destruct c as [|c|c]; try reflexivity.
  do 8 (try (destruct c; try reflexivity)); done.
Qed.

Lemma skip_starts s : starts s -> skip_ws s = s.
Proof. intros Hs. by rewrite <- (app_nil_l s) at 1; rewrite skip_spaces. Qed.

Lemma scan_array f s :
  starts s -> scan_once (S f) (91 :: s) = ('(vs, r) ← scan_items f s; Some (JArray vs, r)).
Proof.
  intros Hs. cbn [scan_once]. rewrite skip_starts by done. destruct s as [|c s]; [done|].
  destruct Hs as (_ & Hc & _). destruct c as [|c|c]; try done. do 7 (try (destruct c; try done)).
Qed.

Lemma scan_object f s :
  starts s -> scan_once (S f) (123 :: s) = ('(ps, r) ← scan_pairs f s; Some (JObject (of_pairs ps), r)).
Proof.
  intros Hs. cbn [scan_once]. rewrite skip_starts by done. destruct s as [|c s]; [done|].
  destruct Hs as (_ & _ & Hc). destruct c as [|c|c]; try done. do 7 (try (destruct c; try done)).
Qed.

Lemma scan_once_int z f r : int_fits z -> not_number r -> scan_once (S f) (str_of_int z ++ r) = Some (JInt z, r).
Proof.
  intros Hz Hr. rewrite <- (scan_number_text z r Hz Hr).
  assert (Hd : Forall (fun d => 0 <= d < 10) (dec_digits (Z.abs z))) by (apply dec_digits_fuel_range; [lia|constructor]).
  unfold str_of_int. destruct (dec_digits (Z.abs z)) as [|d ds] eqn:E; [by destruct (dec_digits_nonempty (Z.abs z))|].
  inversion_clear Hd as [|? ? Hd' _].
  destruct (z <? 0); cbn [map app]; rewrite scan_other by lia; cbn [scan_constant constants];
    unfold after_word; rewrite !bool_decide_false; try done; simpl; intros [= H]; lia.
Qed.

Lemma stop_items l r : not_number (dump_items l ++ r).
Proof. by destruct l. Qed.
Lemma stop_pairs d r : not_number (dump_pairs d ++ r).
Proof. by destruct d as [|[]]. Qed.

(** What is proved of every value inside another. *)
Definition reads (v : Json) : Prop :=
  json_ok v -> forall f r, not_number r -> (2 * length (dumps v) + 1 <= f)%nat ->
  scan_once f (dumps v ++ r) = Some (v, r).

Lemma scan_items_dumps l : Forall reads l -> forall x f r,
  reads x -> Forall json_ok (x :: l) -> (2 * length (dumps x ++ dump_items l) + 2 <= f)%nat ->
  scan_items f ((dumps x ++ dump_items l) ++ r) = Some (x :: l, r).
Proof.
  induction 1 as [|y l Hy Hl IH]; intros x f r Hx Hok Hf; destruct f as [|f]; try lia; cbn [scan_items];
    inversion_clear Hok as [|? ? Hxo Hok']; rewrite <- app_assoc.
  - rewrite length_app in Hf. rewrite Hx by (done || lia). done.
  - cbn [dump_items] in Hf |- *. rewrite !length_app in Hf. simpl in Hf.
    rewrite Hx by ((by cbn) || lia). unfold item_sep at 1. cbn [app]. simpl (mbind _ _).
    inversion_clear Hok' as [|? ? Hyo Hok'']. pose proof (starts_dumps y Hyo) as Hs.
    change (skip_ws (44 :: ?t)) with (44 :: t). cbn iota.
    rewrite <- app_assoc, skip_spaces by (done || (rewrite <- app_assoc; by apply starts_app)).
    rewrite IH; [done|done|by constructor|]. rewrite !length_app. pose proof (starts_dumps x Hxo).
    destruct (dumps x); [done|]. simpl in Hf. lia.
Qed.

Definition pair_ok (p : pystr * Json) : Prop := Forall scalar p.1 /\ json_ok p.2.

Lemma scan_pairs_dumps d : Forall (fun p => reads p.2) d -> forall k x f r,
  reads x -> Forall pair_ok ((k, x) :: d) ->
  (2 * length (dump_string k ++ key_sep ++ dumps x ++ dump_pairs d) + 2 <= f)%nat ->
  scan_pairs f ((dump_string k ++ key_sep ++ dumps x ++ dump_pairs d) ++ r) = Some ((k, x) :: d, r).
Proof.
  induction 1 as [|[k' y] d Hy Hd IH]; intros k x f r Hx Hok Hf; destruct f as [|f]; try lia;
    inversion_clear Hok as [|? ? [Hko Hxo] Hok']; simpl in Hko, Hxo; pose proof (starts_dumps x Hxo) as Hsx.
  all: unfold dump_string, key_sep in Hf; rewrite !length_app in Hf; simpl in Hf; rewrite !length_app in Hf.
  all: unfold dump_string at 1, key_sep at 1; cbn [app]; rewrite <- !app_assoc; cbn [app scan_pairs];
    rewrite <- ?app_assoc, scan_dump_string by done; simpl (mbind _ _);
    change (skip_ws (58 :: ?t)) with (58 :: t); cbn iota;
    rewrite skip_spaces by (done || by apply starts_app).
  - rewrite Hx by (done || (simpl in Hf; lia)). done.
  - cbn [dump_pairs] in Hf |- *. rewrite ?length_app in Hf. simpl in Hf. rewrite ?length_app in Hf.
    rewrite Hx by ((by cbn) || lia). cbn [app]. simpl (mbind _ _).
    change (skip_ws (44 :: ?t)) with (44 :: t). cbn iota. rewrite <- app_assoc, skip_spaces by done.
    assert (IH' : scan_pairs f ((dump_string k' ++ key_sep ++ dumps y ++ dump_pairs d) ++ r) = Some ((k', y) :: d, r)).
    { apply IH; [done|done|]. unfold dump_string, key_sep. repeat (rewrite ?length_app; simpl).
      repeat (rewrite ?length_app in Hf; simpl in Hf). lia. }
    match goal with |- context [scan_pairs f ?t] =>
      replace (scan_pairs f t) with (Some ((k', y) :: d, r)) by (symmetry; exact IH') end. done.
Qed.

Lemma array_ok l : json_ok (JArray l) <-> Forall json_ok l.
Proof.
  induction l as [|x l IH]; [done|]. rewrite Forall_cons. cbn [json_ok] in *. by rewrite IH.
Qed.
Lemma object_ok d : json_ok (JObject d) <-> NoDup d.*1 /\ Forall pair_ok d.
Proof.
  cbn [json_ok]. apply and_iff_compat_l. induction d as [|[k x] d IH]; [done|].
  rewrite Forall_cons, IH. unfold pair_ok at 2. simpl. tauto.
Qed.

Lemma dumps_read v : reads v.
Proof.
  revert v. fix self 1. intros v. assert (Hall : forall l, Forall reads l) by (fix all 1; intros [|x l]; constructor; auto).
  assert (Hpairs : forall d : list (pystr * Json), Forall (fun p => reads p.2) d)
    by (fix all 1; intros [|[k x] d]; constructor; [exact (self x)|auto]).
  destruct v as [|b|z|x|s|[|x l]|[|[k x] d]]; intros Hv f r Hr Hf; destruct f as [|f]; try lia.
  - done.
  - by destruct b.
  - by apply scan_once_int.
  - done.
  - change (dumps (JString s)) with (dump_string s). unfold dump_string. cbn [app scan_once].
    rewrite <- app_assoc. cbn [app]. by rewrite scan_dump_string.
  - done.
  - change (dumps (JArray (x :: l))) with (91 :: dumps x ++ dump_items l) in *. apply array_ok in Hv.
    pose proof Hv as Hv'. inversion_clear Hv' as [|? ? Hx _]. pose proof (starts_dumps x Hx) as Hs.
    simpl length in Hf. cbn [app]. rewrite scan_array by (rewrite <- app_assoc; by apply starts_app).
    rewrite scan_items_dumps; [done|apply Hall|apply self|done|lia].
  - done.
  - change (dumps (JObject ((k, x) :: d))) with (123 :: dump_string k ++ key_sep ++ dumps x ++ dump_pairs d) in *.
    apply object_ok in Hv as [Hnd Hv]. change (length (123 :: ?t)) with (S (length t)) in Hf. cbn [app]. rewrite scan_object by done.
    rewrite scan_pairs_dumps; [|apply Hpairs|apply self|done|lia]. simpl. by rewrite of_pairs_distinct.
Qed.

Lemma loads_dumps v : json_ok v -> loads (dumps v) = Some v.
Proof.
  intros Hv. unfold loads. pose proof (starts_dumps v Hv) as Hs.
  rewrite skip_starts by done. rewrite <- (app_nil_r (dumps v)) at 2.
  by rewrite (dumps_read v Hv) by done.
Qed.
End RoundTrip.

Lemma loads_default v : json_ok v -> loads (dumps_default v) = Some v.
Proof. apply (loads_dumps [32] [32]); by constructor. Qed.

Lemma loads_compact v : json_ok v -> loads (dumps_compact v) = Some v.
Proof. apply (loads_dumps [] []); constructor. Qed.
