(* ===== verification/FormatSpec.v ===== *)
(** * What the checksum catches

    A CRC-32 is injective in every single byte of its input and in the register
    it starts from, so no change of one byte of a file with a checksum at its
    end goes unnoticed. *)

From Stdlib Require Import String.
From S2P Require Import Prelude PyStr PyFloat Codec Errors Pack Store Snapshot SnapshotProofs Registry.
From S2P Require Import Resp RespProofs.
Local Close Scope string_scope.

Lemma shiftr1_odd c : c = 2 * Z.shiftr c 1 + (if Z.odd c then 1 else 0).
Proof.
  rewrite Z.shiftr_div_pow2 by lia. change (2 ^ 1) with 2.
  pose proof (Z.div_mod c 2 ltac:(lia)). rewrite Zmod_odd in *. destruct (Z.odd c); lia.
Qed.

Lemma crc_bit_top c : 0 <= c < 2 ^ 32 -> Z.testbit (crc_bit c) 31 = Z.odd c.
Proof.
  intros Hc. assert (Hs : Z.testbit (Z.shiftr c 1) 31 = false).
  { rewrite Z.shiftr_spec by lia. destruct (decide (c = 0)) as [->|]; [done|].
    apply Z.bits_above_log2; [lia|]. assert (Z.log2 c < 32) by (apply Z.log2_lt_pow2; lia). lia. }
  unfold crc_bit. destruct (Z.odd c); [|done]. by rewrite Z.lxor_spec, Hs.
Qed.

Lemma lxor_inj_r a b c : Z.lxor a c = Z.lxor b c -> a = b.
Proof.
  intros H. rewrite <- (Z.lxor_0_r a), <- (Z.lxor_nilpotent c), <- Z.lxor_assoc, H.
  by rewrite Z.lxor_assoc, Z.lxor_nilpotent, Z.lxor_0_r.
Qed.

(** The polynomial has its top bit, which tells the two cases apart. *)
Lemma crc_bit_inj a b : 0 <= a < 2 ^ 32 -> 0 <= b < 2 ^ 32 -> crc_bit a = crc_bit b -> a = b.
Proof.
  intros Ha Hb H. pose proof (crc_bit_top a Ha) as Ta. pose proof (crc_bit_top b Hb) as Tb.
  rewrite H, Tb in Ta. rewrite (shiftr1_odd a), (shiftr1_odd b), <- Ta. unfold crc_bit in H. rewrite <- Ta in H.
  destruct (Z.odd b); [apply lxor_inj_r in H|]; by rewrite H.
Qed.

Lemma crc_byte_range c b : 0 <= c < 2 ^ 32 -> is_byte b -> 0 <= crc_byte c b < 2 ^ 32.
Proof. intros Hc Hb. unfold is_byte in Hb. do 8 apply crc_bit_range. apply lxor_range; lia. Qed.

Lemma crc_byte_inj c c' b b' :
  0 <= c < 2 ^ 32 -> 0 <= c' < 2 ^ 32 -> is_byte b -> is_byte b' ->
  crc_byte c b = crc_byte c' b' -> Z.lxor c b = Z.lxor c' b'.
Proof.
  intros Hc Hc' Hb Hb'. unfold is_byte in *.
  assert (0 <= Z.lxor c b < 2 ^ 32) by (apply lxor_range; lia).
  assert (0 <= Z.lxor c' b' < 2 ^ 32) by (apply lxor_range; lia).
  unfold crc_byte. intros H1. do 8 (apply crc_bit_inj in H1; [|auto 10 using crc_bit_range..]). done.
Qed.

Lemma crc_fold_inj data c c' :
  Forall is_byte data -> 0 <= c < 2 ^ 32 -> 0 <= c' < 2 ^ 32 ->
  fold_left crc_byte data c = fold_left crc_byte data c' -> c = c'.
Proof.
  intros Hd. revert c c'. induction Hd as [|b data Hb Hd IH]; intros c c' Hc Hc' H; simpl in H; [done|].
  apply IH in H; [|by apply crc_byte_range..]. apply crc_byte_inj in H; [|done..]. by apply lxor_inj_r in H.
Qed.

Lemma crc32_one_byte u x y v :
  Forall is_byte u -> Forall is_byte v -> is_byte x -> is_byte y ->
  crc32 (u ++ x :: v) 0 = crc32 (u ++ y :: v) 0 -> x = y.
Proof.
  intros Hu Hv Hx Hy H. unfold crc32 in H. apply lxor_inj_r in H. rewrite !fold_left_app in H. simpl in H.
  assert (Hs : 0 <= fold_left crc_byte u (Z.lxor 0 0xFFFFFFFF) < 2 ^ 32).
  { generalize (Z.lxor_0_l 0xFFFFFFFF). intros ->. assert (Hi : 0 <= 0xFFFFFFFF < 2 ^ 32) by lia. revert Hi.
    generalize 0xFFFFFFFF. clear -Hu. induction Hu as [|b u Hb Hu IH]; intros c Hc; simpl; [done|].
    apply IH. by apply crc_byte_range. }
  apply crc_fold_inj in H; [|done|by apply crc_byte_range..]. apply crc_byte_inj in H; [|done..].
  rewrite !(Z.lxor_comm (fold_left _ _ _)) in H. by apply lxor_inj_r in H.
Qed.

Lemma le_value_one_byte u x y v : le_value (u ++ x :: v) = le_value (u ++ y :: v) -> x = y.
Proof. induction u as [|b u IH]; simpl; intros H; [lia|]. apply IH. lia. Qed.

(** [body] with its checksum after it, one byte changed: the checksum read is
    not the checksum of the body read. *)
Lemma sealed_one_byte body u x y v :
  Forall is_byte body -> is_byte x -> is_byte y -> x <> y ->
  body ++ le_bytes 4 (crc32 body 0) = u ++ x :: v ->
  let '(b, expected) := split_crc (u ++ y :: v) in crc32 b 0 <> expected.
Proof.
  intros Hb Hx Hy Hxy E. pose proof (f_equal length E) as Hlen. pose proof (crc32_range body 0 Hb ltac:(lia)) as Hc.
  rewrite !length_app, le_bytes_length in Hlen. simpl in Hlen. unfold split_crc.
  replace (length (u ++ y :: v) - 4)%nat with (length body) by (rewrite length_app; simpl; lia).
  destruct (decide (length u < length body)%nat) as [Hlt|Hge].
  - assert (Hbody : body = u ++ x :: take (length body - S (length u)) v).
    { rewrite <- (take_app_length body (le_bytes 4 (crc32 body 0))) at 1. rewrite E, take_app_ge by lia.
      by replace (length body - length u)%nat with (S (length body - S (length u))) by lia. }
    set (k := (length body - S (length u))%nat) in *.
    rewrite take_app_ge, drop_app_ge by lia.
    replace (length body - length u)%nat with (S k) by (unfold k; lia). simpl.
    assert (Hd : drop k v = le_bytes 4 (crc32 body 0)).
    { rewrite <- (drop_app_length body (le_bytes 4 (crc32 body 0))), E, drop_app_ge by lia.
      by replace (length body - length u)%nat with (S k) by (unfold k; lia). }
    rewrite Hd, le_value_bytes by (change (256 ^ Z.of_nat 4) with (2 ^ 32); lia).
    clearbody k. rewrite Hbody. clear Hd Hc. rewrite Hbody in Hb. apply Forall_app in Hb as [Hu Hb]. inversion_clear Hb as [|? ? _ Hv].
    intros H1. apply Hxy. symmetry. exact (crc32_one_byte _ _ _ _ Hu Hv Hy Hx H1).
  - assert (Hu : take (length body) u = body).
    { rewrite <- (take_app_le u (x :: v)) by lia. rewrite <- E. apply take_app_length. }
    rewrite take_app_le, drop_app_le, Hu by lia. intros H1. apply Hxy.
    rewrite <- (le_value_bytes 4 (crc32 body 0)) in H1 by (change (256 ^ Z.of_nat 4) with (2 ^ 32); lia).
    rewrite <- (drop_app_length body (le_bytes 4 (crc32 body 0))), E, drop_app_le in H1 by lia.
    by apply le_value_one_byte in H1.
Qed.

(** * The encodings read back what was written

    Texts and bytes, DUMP payloads, snapshot files, request frames and error
    lines: each encoder against its decoder. *)

(** Any byte string a client sends survives decoding to text and encoding
    again, invalid UTF-8 included. *)
Lemma codec_roundtrip data (Hd : Forall is_byte data) : to_bytes (to_str data) = Some data.
Proof. by apply to_bytes_to_str. Qed.

Lemma codec_roundtrip_witness : to_bytes (to_str [0x66; 0xFF; 0xC3; 0xA9; 0xE2; 0x82]) =
  Some [0x66; 0xFF; 0xC3; 0xA9; 0xE2; 0x82].
Proof. apply codec_roundtrip. repeat (constructor; [unfold is_byte; lia|]). constructor. Defined.

(** RESTORE reads back exactly the value DUMP wrote. *)
Lemma dump_restore_roundtrip p (Hp : payload_fits p) :
  exists raw, dump_value p = Ok raw /\ load_value raw = Ok p.
Proof. rewrite dump_value_bytes by done. eexists. split; [done|]. by apply load_value_bytes. Qed.

Lemma text_fits_short s : Forall scalar s -> (length (default [] (to_bytes s)) <= 1000)%nat -> text_fits s.
Proof.
  intros Hs Hl. destruct (to_str_to_bytes s Hs) as (b & Hb & Hby & Ht). exists b. rewrite Hb in Hl.
  simpl in Hl. split_and!; try done. lia.
Qed.

Ltac short_text :=
  apply text_fits_short; [repeat (constructor; [by left; split; vm_compute|]); constructor|vm_compute; lia].

Definition demo_payload : Payload := RZset [(lit "low", float_of_Z (-3)); (lit "high", pos_inf)].

Lemma demo_payload_fits : payload_fits demo_payload.
Proof.
  split; [unfold count_fits; simpl; lia|].
  apply Forall_cons. split; [split; [short_text|by vm_compute]|].
  apply Forall_cons. split; [split; [short_text|by vm_compute]|constructor].
Qed.

Lemma dump_restore_roundtrip_witness :
  exists raw, dump_value demo_payload = Ok raw /\ load_value raw = Ok demo_payload.
Proof. apply dump_restore_roundtrip, demo_payload_fits. Defined.

(** C21. A snapshot file reads back as the records it was written from, in
    order, with nothing reported as corrupted. *)
Theorem snapshot_file_roundtrip records created_at created source
    (Hr : Forall record_fits records) (Hn : Z.of_nat (length records) < 2 ^ 64)
    (Hc : to_millis created_at = Ok created) (Hb : - 2 ^ 63 <= created < 2 ^ 63) :
  exists raw, encode_snapshot records created_at = Ok raw /\
    decode_snapshot raw source = (records, None).
Proof.
  rewrite (encode_snapshot_bytes records created_at created) by done.
  eexists. split; [done|]. by apply decode_snapshot_bytes.
Qed.

Definition demo_records : list SnapshotRecord :=
  [mkRecord (lit "k") (RString [0x20AC; 0x21]) None;
   mkRecord (lit "l") (RList [lit "a"; []]) (Some (float_of_Z 1700000000))].

Lemma demo_records_fit : Forall record_fits demo_records.
Proof.
  apply Forall_cons. split; [split_and!; [short_text|short_text|done]|].
  apply Forall_cons. split; [|constructor]. split_and!; [short_text| |].
  { split; [unfold count_fits; simpl; lia|].
    apply Forall_cons. split; [short_text|]. apply Forall_cons. split; [short_text|constructor]. }
  exists 1700000000000. split_and!; [by vm_compute|lia|lia|by vm_compute].
Qed.

Lemma snapshot_file_roundtrip_witness :
  exists raw, encode_snapshot demo_records (float_of_Z 1600000000) = Ok raw /\
    decode_snapshot raw (lit "dump") = (demo_records, None).
Proof.
  apply (snapshot_file_roundtrip demo_records _ 1600000000000); [apply demo_records_fit|by vm_compute|by vm_compute|lia].
Defined.

(** C22. No damage to a single byte goes unnoticed: a snapshot file, or a DUMP
    payload, with one byte anywhere in it changed is refused with the checksum
    error, and not one record is read from it. *)
Theorem damaged_byte_refused records created_at created source p raw rawp u x y v
    (Hr : Forall record_fits records) (Hn : Z.of_nat (length records) < 2 ^ 64)
    (Hc : to_millis created_at = Ok created) (Hb : - 2 ^ 63 <= created < 2 ^ 63) (Hp : payload_fits p)
    (Hraw : encode_snapshot records created_at = Ok raw) (Hrawp : dump_value p = Ok rawp)
    (Hx : is_byte x) (Hy : is_byte y) (Hxy : x <> y) :
  (raw = u ++ x :: v ->
   decode_snapshot (u ++ y :: v) source = ([], Some (corrupted source (lit "checksum mismatch")))) /\
  (rawp = u ++ x :: v ->
   load_value (u ++ y :: v) = Raise (err ValueError "DUMP payload version or checksum not valid")).
Proof.
  rewrite (encode_snapshot_bytes records created_at created) in Hraw by done.
  rewrite dump_value_bytes in Hrawp by done. apply (f_equal (ok_or [])) in Hraw, Hrawp.
  cbn [ok_or] in Hraw, Hrawp. subst raw rawp. split; intros E.
  - pose proof (sealed_one_byte _ u x y v (snapshot_bytes_byte records created Hr) Hx Hy Hxy E) as Hs.
    pose proof (f_equal length E) as Hl. unfold decode_snapshot. rewrite bool_decide_false.
    + destruct (split_crc (u ++ y :: v)) as [b expected]. by rewrite (proj2 (Z.eqb_neq _ _) Hs).
    + rewrite length_app, le_bytes_length in Hl. pose proof (snapshot_bytes_min records created).
      rewrite length_app in *. unfold HEADER_SIZE. simpl in *. lia.
  - pose proof (sealed_one_byte _ u x y v (value_bytes_byte p Hp) Hx Hy Hxy E) as Hs.
    pose proof (f_equal length E) as Hl. unfold load_value. rewrite bool_decide_false.
    + destruct (split_crc (u ++ y :: v)) as [b expected]. by rewrite (proj2 (Z.eqb_neq _ _) Hs).
    + rewrite length_app, le_bytes_length in Hl. rewrite length_app in *. unfold value_bytes in Hl. simpl in *. lia.
Qed.

Definition demo_file : bytes := ok_or [] (encode_snapshot demo_records (float_of_Z 1600000000)).
Definition demo_dump : bytes := ok_or [] (dump_value demo_payload).

Lemma damaged_byte_refused_witness :
  decode_snapshot (take 30 demo_file ++ 7 :: drop 31 demo_file) (lit "dump") =
    ([], Some (corrupted (lit "dump") (lit "checksum mismatch"))).
Proof.
  apply (damaged_byte_refused demo_records (float_of_Z 1600000000) 1600000000000 (lit "dump") demo_payload
    demo_file demo_dump (take 30 demo_file) (default 0 (demo_file !! 30%nat)) 7 (drop 31 demo_file) demo_records_fit);
    [by vm_compute|by vm_compute|lia|apply demo_payload_fits|by vm_compute|by vm_compute
    |by split; vm_compute|unfold is_byte; lia|by vm_compute|by vm_compute].
Defined.

(** The line of an error reply is read back by a client as an error with
    the same prefix and text, of the class registered for that prefix. *)
Lemma error_line_roundtrip unicode_case c m (Hm : m <> []) :
  from_resp unicode_case (to_resp (mkExn c m (resp_prefix c))) = mkExn (wire_class c) m (resp_prefix c).
Proof. by apply from_resp_to_resp. Qed.

Lemma error_line_roundtrip_witness :
  from_resp (fun _ => None) (to_resp (mkExn WrongTypeError (lit "no list") (resp_prefix WrongTypeError))) =
  mkExn WrongTypeError (lit "no list") (lit "WRONGTYPE").
Proof. by apply (error_line_roundtrip (fun _ => None) WrongTypeError). Defined.
