(* ===== verification/Engine.v ===== *)
(** * The engine (engine/engine.py)

    One shard's datastore: dispatch of commands against the store, the effects
    recorded in the append-only file and the replication stream, replay,
    replication, snapshots and housekeeping.  The persistence layer and the
    replication feed are used through interfaces. *)

From Stdlib Require Import SpecFloat String.
From Stdlib Require Import String.
From S2P Require Import Prelude PyStr PyFloat Codec Errors Oracles Containers Eviction Store Snapshot Registry.
From S2P Require Import CmdServer Resp.
Local Close Scope string_scope.

(** ** What the engine uses of the persistence layer (persistence/manager.py) *)

(** What the files hold, in the order [load] feeds it to the engine: snapshot
    records, then logged commands with the place they were read from. *)
Inductive LoadEvent :=
| EvRecord (r : SnapshotRecord)
| EvCommand (place : pystr) (command : pystr) (args : list PyArg).

Record PersistenceStats := mkPStats {
  ps_in_progress : bool; ps_last_status : pystr; ps_write_error : option pystr;
  ps_current_size : Z; ps_base_size : Z; ps_fsync : pystr; ps_fsyncs : Z; ps_rewrites : Z;
  ps_last_duration_ms : option float; ps_last_pause_ms : option float;
  ps_rewrite_percentage : Z; ps_rewrite_min_bytes : Z
}.

Class Persistence (L : Type) := {
  p_is_open : L -> bool;
  p_in_progress : L -> bool;
  p_last_rewrite_status : L -> pystr;
  p_last_save_time : L -> Z;
  p_should_auto_rewrite : L -> bool;
  p_stats : L -> PersistenceStats;
  p_check_writable : M exn L unit;
  p_append : bytes -> M exn L unit;
  p_commit : M exn L unit;
  p_poll : M exn L bool;
  p_begin_rewrite : M exn L unit;
  p_finish_copy : list SnapshotRecord -> M exn L unit;
  p_start_rewrite : list SnapshotRecord -> M exn L unit;
  p_wait_rewrite : M exn L unit;
  p_abandon_copy : M exn L unit;
  p_close : M exn L unit;
  (** the files are read; then the log is opened for appending *)
  p_read_files : M exn L (list LoadEvent * result exn unit);
  p_open_log : M exn L unit
}.

(** ** The replication feed (the protocol [ReplicationFeed]) *)
Class ReplicationFeed (R : Type) := {
  r_active : R -> bool;
  r_feed : bytes -> M exn R unit;
  r_flush : M exn R unit
}.

(** Who receives a snapshot: a rewrite of the log, or a caller of
    [begin_snapshot] (a replica's full synchronization). *)
Inductive Done := OnRewrite | OnSync (id : nat).

(** ** The engine's state around the store *)
Record EngineEnv (L R : Type) := mkEnv {
  en_persistence : option L;
  en_replication : option R;
  en_replaying : bool;
  en_incremental : bool;
  en_slice_keys : nat;
  en_gc_held : bool;
  en_gc_holds : nat;      (* [gcpolicy._holds] *)
  en_commit_depth : Z;
  en_commands : Z;
  en_started_wall : Z;
  en_synced : list (nat * list SnapshotRecord);
  en_extra_info : option (list (pystr * list (pystr * InfoValue)));
  en_pid : Z;
  en_uptime : Z;
  en_time_ns : Z
}.
Arguments mkEnv {L R}. Arguments en_persistence {L R}. Arguments en_replication {L R}.
Arguments en_replaying {L R}. Arguments en_incremental {L R}. Arguments en_slice_keys {L R}.
Arguments en_gc_held {L R}. Arguments en_gc_holds {L R}. Arguments en_commit_depth {L R}.
Arguments en_commands {L R}. Arguments en_started_wall {L R}. Arguments en_synced {L R}.
Arguments en_extra_info {L R}. Arguments en_pid {L R}. Arguments en_uptime {L R}.
Arguments en_time_ns {L R}.

Section Setters.
Context {L R : Type}.
Implicit Type e : EngineEnv L R.

Definition set_persistence (l : option L) e : EngineEnv L R :=
  mkEnv l (en_replication e) (en_replaying e) (en_incremental e) (en_slice_keys e) (en_gc_held e)
    (en_gc_holds e) (en_commit_depth e) (en_commands e) (en_started_wall e) (en_synced e)
    (en_extra_info e) (en_pid e) (en_uptime e) (en_time_ns e).
Definition set_replication (r : option R) e : EngineEnv L R :=
  mkEnv (en_persistence e) r (en_replaying e) (en_incremental e) (en_slice_keys e) (en_gc_held e)
    (en_gc_holds e) (en_commit_depth e) (en_commands e) (en_started_wall e) (en_synced e)
    (en_extra_info e) (en_pid e) (en_uptime e) (en_time_ns e).
Definition set_replaying (b : bool) e : EngineEnv L R :=
  mkEnv (en_persistence e) (en_replication e) b (en_incremental e) (en_slice_keys e) (en_gc_held e)
    (en_gc_holds e) (en_commit_depth e) (en_commands e) (en_started_wall e) (en_synced e)
    (en_extra_info e) (en_pid e) (en_uptime e) (en_time_ns e).
Definition set_gc (held : bool) (holds : nat) e : EngineEnv L R :=
  mkEnv (en_persistence e) (en_replication e) (en_replaying e) (en_incremental e) (en_slice_keys e)
    held holds (en_commit_depth e) (en_commands e) (en_started_wall e) (en_synced e)
    (en_extra_info e) (en_pid e) (en_uptime e) (en_time_ns e).
Definition set_commit (depth commands : Z) e : EngineEnv L R :=
  mkEnv (en_persistence e) (en_replication e) (en_replaying e) (en_incremental e) (en_slice_keys e)
    (en_gc_held e) (en_gc_holds e) depth commands (en_started_wall e) (en_synced e)
    (en_extra_info e) (en_pid e) (en_uptime e) (en_time_ns e).
Definition add_synced (id : nat) (records : list SnapshotRecord) e : EngineEnv L R :=
  mkEnv (en_persistence e) (en_replication e) (en_replaying e) (en_incremental e) (en_slice_keys e)
    (en_gc_held e) (en_gc_holds e) (en_commit_depth e) (en_commands e) (en_started_wall e)
    (en_synced e ++ [(id, records)]) (en_extra_info e) (en_pid e) (en_uptime e) (en_time_ns e).
End Setters.

(** ** Effects on that state *)
Section Env.
Context {L R : Type} `{Persistence L} `{ReplicationFeed R}.
Abbreviation EM := (M exn (EngineEnv L R)).

(** A call of the persistence layer, which the caller has checked is there. *)
Definition on_persistence {A} (c : M exn L A) : EM A :=
  fun e => match en_persistence e with
           | Some l => let '(r, l') := c l in (r, set_persistence (Some l') e)
           | None => (Raise (err AssertionError ""), e)
           end.

Definition on_replication {A} (c : M exn R A) : EM A :=
  fun e => match en_replication e with
           | Some x => let '(r, x') := c x in (r, set_replication (Some x') e)
           | None => (Raise (err AssertionError ""), e)
           end.

Definition persistence_open (e : EngineEnv L R) : bool :=
  match en_persistence e with Some l => p_is_open l | None => false end.
Definition replication_active (e : EngineEnv L R) : bool :=
  match en_replication e with Some x => r_active x | None => false end.

(** [propagate]: encoded once, for the log and for the replicas alike. *)
Definition en_propagate (args : list PyArg) : EM unit :=
  let! e := getM in
  if en_replaying e then ret tt
  else if negb (persistence_open e) && negb (replication_active e) then ret tt
  else
    let! payload := lift (encode_command args) in
    (if persistence_open e then on_persistence (p_append payload) else ret tt);;
    (if replication_active e then on_replication (r_feed payload) else ret tt).

Definition expired (key : pystr) : EM unit := en_propagate [AStr (lit "DEL"); AStr key].

(** [_commit]: the replicas are sent the writes even if the log failed. *)
Definition commit : EM unit :=
  finallyM
    (let! e := getM in match en_persistence e with Some _ => on_persistence p_commit | None => ret tt end)
    (let! e := getM in match en_replication e with Some _ => on_replication r_flush | None => ret tt end).

(** [gcpolicy.hold] and [gcpolicy.release]. *)
Definition gc_hold : EM unit := modifyM (fun e => set_gc (en_gc_held e) (S (en_gc_holds e)) e).
Definition gc_release : EM unit := modifyM (fun e => set_gc (en_gc_held e) (pred (en_gc_holds e)) e).
Definition set_gc_held (b : bool) : EM unit := modifyM (fun e => set_gc b (en_gc_holds e) e).

Definition rewriting (e : EngineEnv L R) : bool :=
  match en_persistence e with Some l => p_in_progress l | None => false end.

Definition release_gc : EM unit :=
  let! e := getM in
  if en_gc_held e && negb (rewriting e) then set_gc_held false;; gc_release else ret tt.

Definition hold_commit : EM unit :=
  modifyM (fun e => set_commit (en_commit_depth e + 1) (en_commands e) e).

Definition release_commit : EM unit :=
  modifyM (fun e => set_commit (en_commit_depth e - 1) (en_commands e) e);;
  let! e := getM in
  if en_commit_depth e =? 0 then commit else ret tt.

(** [if self._commit_depth == 0: self._commit()]. *)
Definition commit_unless_held : EM unit :=
  let! e := getM in if en_commit_depth e =? 0 then commit else ret tt.

#[export] Instance engine_hooks : Hooks Done (EngineEnv L R) := {|
  hook_expire := Some expired;
  hook_done d records :=
    gc_release;;
    match d with
    | OnRewrite => on_persistence (p_finish_copy records)
    | OnSync id => modifyM (add_synced id records)
    end
|}.
End Env.

(** ** Commands *)
Section Engine.
Context `{Sizing} {P : Type} `{EvictionPolicy P} {L R : Type} `{Persistence L} `{ReplicationFeed R}.
Abbreviation E := (EngineEnv L R).
Abbreviation W := (World P Done E).
Abbreviation SM := (M exn W).

(** A [try ... except BaseException: handler; raise]. *)
Definition cleanup {A} (body : SM A) (handler : SM unit) : SM A :=
  catchM body (fun _ => true) (fun x => handler;; raise x).

Definition get_env {A} (f : E -> A) : SM A := readM (fun w => f (w_env w)).

Definition engine_propagate (args : list PyArg) : SM unit := env_do (en_propagate args).

(** *** Snapshots and rewrites *)
Definition engine_begin_snapshot (on_done : Done) : SM unit :=
  env_do gc_hold;;
  cleanup (begin_snapshot (Some on_done)) (env_do gc_release).

Definition start_rewrite : SM unit :=
  let! has := get_env (fun e => match en_persistence e with Some _ => true | None => false end) in
  if negb has then raise (err CommandError "persistence is disabled on this node")
  else
    env_do (on_persistence p_check_writable);;
    env_do (on_persistence p_poll);;
    env_do release_gc;;
    let! busy := get_env rewriting in
    if busy : bool
    then raise (err CommandError "Background append only file rewriting already in progress")
    else
      env_do gc_hold;;
      env_do (set_gc_held true);;
      cleanup
        (let! incremental := get_env en_incremental in
         let! s := gets id in
         if incremental && bool_decide (st_job s = None) then
           env_do (on_persistence p_begin_rewrite);;
           engine_begin_snapshot OnRewrite
         else
           let! records := snapshot in
           env_do (on_persistence (p_start_rewrite records)))
        (env_do release_gc).

(** The loop of [step_snapshot]: one slice, and [extra] more while the time
    budget lasts. *)
Fixpoint step_slices (slice extra : nat) : SM bool :=
  let! finished := job_step slice in
  if finished : bool then ret true
  else match extra with O => ret false | S n => step_slices slice n end.

(** Returns whether a snapshot is still running. *)
Definition step_snapshot (extra : nat) : SM bool :=
  let! s := gets id in
  match st_job s with
  | None => ret false
  | Some _ =>
      let! slice := get_env en_slice_keys in
      let! finished := step_slices slice extra in
      ret (negb finished)
  end.

(** [while self.step_snapshot(): pass].  A step copies at least one key, so the
    number of keys bounds the number of rounds; how many slices fit in a step
    makes no difference to the loop. *)
Fixpoint drive_snapshot (fuel : nat) : SM unit :=
  let! running := step_snapshot 0 in
  if running : bool then match fuel with O => ret tt | S n => drive_snapshot n end else ret tt.

Definition job_keys (s : Store P Done) : nat :=
  match st_job s with Some job => length (j_keys job) | None => 0 end.

Definition wait_rewrite : SM unit :=
  let! s := gets id in
  drive_snapshot (job_keys s);;
  let! has := get_env (fun e => match en_persistence e with Some _ => true | None => false end) in
  (if has : bool then env_do (on_persistence p_wait_rewrite) else ret tt);;
  env_do release_gc.

Definition save : SM unit :=
  start_rewrite;;
  wait_rewrite;;
  let! status := get_env (fun e => match en_persistence e with
                                   | Some l => p_last_rewrite_status l
                                   | None => lit "ok"
                                   end) in
  if bool_decide (status = lit "ok") then ret tt
  else raise (err PersistenceError "snapshot failed, see server logs").

Definition last_save_time (e : E) : Z :=
  match en_persistence e with Some l => p_last_save_time l | None => en_started_wall e end.

(** *** CONFIG GET *)
Definition POLICY_NAMES : list (pystr * pystr) :=
  [(lit "lru", lit "allkeys-lru"); (lit "lfu", lit "allkeys-lfu");
   (lit "random", lit "allkeys-random"); (lit "noeviction", lit "noeviction")].

Definition policy_name (s : Store P Done) : pystr :=
  default [] (dict_get (pol_name (st_eviction s)) POLICY_NAMES).

Definition config_values (w : W) : list (pystr * pystr) :=
  let s := w_store w in
  let p := p_stats <$> en_persistence (w_env w) in
  [(lit "maxmemory", str_of_int (maxmemory s));
   (lit "maxmemory-policy", policy_name s);
   (lit "appendonly", match p with Some _ => lit "yes" | None => lit "no" end);
   (lit "appendfsync", match p with Some x => ps_fsync x | None => lit "no" end);
   (lit "auto-aof-rewrite-percentage",
     str_of_int (match p with Some x => ps_rewrite_percentage x | None => 0 end));
   (lit "auto-aof-rewrite-min-size",
     str_of_int (match p with Some x => ps_rewrite_min_bytes x | None => 0 end));
   (lit "save", []);
   (lit "databases", lit "1")].

(** *** INFO *)

(** [f"{value:.2f}"] of the non-negative quotient [n / d]. *)
Definition two_decimals (n d : Z) : pystr :=
  let c := round_half_even (100 * n) d in
  let frac := dec_digits (c mod 100) in
  str_of_int (c / 100) ++ lit "." ++
  map (Z.add 48) (match frac with [x] => [0; x] | _ => frac end).

Fixpoint human_scale (size unit : Z) (units : list Z) : pystr :=
  match units with
  | [] => str_of_int size ++ lit "B"
  | [u] => two_decimals size unit ++ [u]
  | u :: rest => if size <? 1024 * unit then two_decimals size unit ++ [u]
                 else human_scale size (1024 * unit) rest
  end.

(** [_human_bytes]. *)
Definition human_bytes (size : Z) : pystr :=
  if size <? 1024 then str_of_int size ++ lit "B" else human_scale size 1024 (lit "KMG").

Definition int_info (z : Z) : InfoValue := IText (str_of_int z).
Definition opt_info (o : option float) : InfoValue :=
  match o with Some f => IText (float_repr f) | None => INone end.

Definition info_sections (w : W) : list (pystr * list (pystr * InfoValue)) :=
  let s := w_store w in
  let e := w_env w in
  let p := p_stats <$> en_persistence e in
  let stat {A} (f : PersistenceStats -> A) (d : A) : A := match p with Some x => f x | None => d end in
  let sections :=
    [(lit "server",
       [(lit "redis_version", IText (lit "7.2.0")); (lit "kvstore_version", IText VERSION_TEXT);
        (lit "redis_mode", IText (lit "standalone")); (lit "process_id", int_info (en_pid e));
        (lit "uptime_in_seconds", int_info (en_uptime e))]);
     (lit "memory",
       [(lit "used_memory", int_info (used_memory s));
        (lit "used_memory_human", IText (human_bytes (used_memory s)));
        (lit "maxmemory", int_info (maxmemory s));
        (lit "maxmemory_human", IText (human_bytes (maxmemory s)));
        (lit "maxmemory_policy", IText (policy_name s)); (lit "max_keys", int_info (max_keys s))]);
     (lit "persistence",
       [(lit "loading", IBool false); (lit "aof_enabled", IBool (stat (fun _ => true) false));
        (lit "aof_rewrite_in_progress", IBool (stat ps_in_progress false));
        (lit "aof_last_bgrewrite_status", IText (stat ps_last_status (lit "ok")));
        (lit "aof_last_write_status",
          IText (if stat (fun x => found (ps_write_error x)) false then lit "err" else lit "ok"));
        (lit "aof_current_size", int_info (stat ps_current_size 0));
        (lit "aof_base_size", int_info (stat ps_base_size 0));
        (lit "aof_fsync", IText (stat ps_fsync (lit "no")));
        (lit "aof_fsyncs", int_info (stat ps_fsyncs 0));
        (lit "aof_rewrites", int_info (stat ps_rewrites 0));
        (lit "aof_last_rewrite_time_ms", opt_info (stat ps_last_duration_ms None));
        (lit "last_snapshot_pause_ms", opt_info (stat ps_last_pause_ms None));
        (lit "rdb_last_save_time", int_info (last_save_time e))]);
     (lit "stats",
       [(lit "total_commands_processed", int_info (en_commands e));
        (lit "expired_keys", int_info (expired_keys s)); (lit "evicted_keys", int_info (evicted_keys s));
        (lit "keyspace_hits", int_info (keyspace_hits s));
        (lit "keyspace_misses", int_info (keyspace_misses s))]);
     (lit "keyspace",
       if store_len s =? 0 then []
       else [(lit "db0", IText (lit "keys=" ++ str_of_int (store_len s) ++ lit ",expires=" ++
                                str_of_int (volatile_count s) ++ lit ",avg_ttl=0"))])] in
  match en_extra_info e with
  | Some extra => fold_left (fun d '(k, v) => dict_set k v d) extra sections
  | None => sections
  end.

(** ** The engine is what handlers use *)
#[export] Instance engine_context : CommandContext P Done E := {|
  cx_time_ns := en_time_ns;
  cx_loading := en_replaying;
  cx_propagate := en_propagate;
  cx_start_rewrite := start_rewrite;
  cx_save := save;
  cx_last_save_time := last_save_time;
  cx_config_values := config_values;
  cx_info_sections := info_sections
|}.

Definition unknown_command (command : PyArg) : exn :=
  new_exn UnknownCommandError (lit "unknown command '" ++ str_of_arg command ++ lit "'") None.

(** [COMMANDS.get(command.upper())]; a name that is not a string has none. *)
Definition command_spec (command : PyArg) : SM (CommandSpec P Done E) :=
  match match command with AStr name => find_command (str_upper name) | _ => None end with
  | Some spec => ret spec
  | None => raise (unknown_command command)
  end.

(** [_run]: a write re-accounts its keys, even if it failed halfway. *)
Definition run (spec : CommandSpec P Done E) (args : list PyArg) (keys : list pystr) : SM Reply :=
  if negb (is_write spec) then cs_handler spec args
  else finallyM (cs_handler spec args) (forM_list refresh keys).

(** Copy-on-write: the keys a command may change, if a snapshot is running. *)
Definition protect_keys (keys : list pystr) : SM unit :=
  let! s := gets id in
  match st_job s with
  | Some _ => forM_list snapshot_barrier keys
  | None => ret tt
  end.

Definition propagate_dels (victims : list pystr) : SM unit :=
  forM_list (fun v => engine_propagate [AStr (lit "DEL"); AStr v]) victims.

(** A write is refused when the log is not open or has failed. *)
Definition check_log (spec : CommandSpec P Done E) : SM unit :=
  let! e := get_env id in
  match en_persistence e with
  | Some l =>
      if is_write spec then
        if negb (p_is_open l)
        then raise (err PersistenceError "engine is not open; call open() before writing")
        else env_do (on_persistence p_check_writable)
      else ret tt
  | None => ret tt
  end.

(** Under [noeviction] a command that may add data is refused at the limits. *)
Definition check_memory (spec : CommandSpec P Done E) (keys : list pystr) : SM unit :=
  let! s := gets id in
  if bool_decide (DENYOOM ∈ cs_flags spec) && negb (evicts (st_eviction s)) then
    let! missing := filterM_list (fun k => let! e := peek k in ret (negb (found e))) (remove_dups keys) in
    let! s := gets id in
    if over_limit (Z.of_nat (length missing)) s then raise (new_exn OutOfMemoryError [] None) else ret tt
  else ret tt.

Definition count_command : M exn E unit :=
  modifyM (fun e => set_commit (en_commit_depth e) (en_commands e + 1) e).

(** The middle of [execute]: copy-on-write, the limits, the handler. *)
Definition guarded_run (spec : CommandSpec P Done E) (args : list PyArg) (keys : list pystr) : SM Reply :=
  (if is_write spec then protect_keys keys else ret tt);;
  check_memory spec keys;;
  run spec args keys.

(** After a write: make room, and log what was evicted. *)
Definition make_room (spec : CommandSpec P Done E) (keys : list pystr) : SM unit :=
  if is_write spec then let! victims := evict_if_needed keys in propagate_dels victims else ret tt.

Definition execute (command : PyArg) (args : list PyArg) : SM Reply :=
  let! spec := command_spec command in
  check_arity spec args;;
  check_log spec;;
  let keys := keys_of spec args in
  let! result := guarded_run spec args keys in
  make_room spec keys;;
  env_do count_command;;
  env_do commit_unless_held;;
  ret result.

(** [_apply]: replay one record of the log. *)
Definition apply (command : pystr) (args : list PyArg) : SM unit :=
  let! spec := command_spec (AStr command) in
  check_arity spec args;;
  run spec args (keys_of spec args);;
  ret tt.

(** *** The replica's side *)
Definition set_expiry_enabled (b : bool) : SM unit :=
  upd (fun s => set_flags (eviction_enabled s) b (expiry_deletes s) s).

(** [body] with expiry switched off. *)
Definition without_expiry {A} (body : SM A) : SM A :=
  let! s := gets id in
  set_expiry_enabled false;;
  finallyM body (set_expiry_enabled (expiry_enabled s)).

Definition apply_replicated (command : pystr) (args : list PyArg) : SM unit :=
  let! spec := command_spec (AStr command) in
  check_arity spec args;;
  let keys := keys_of spec args in
  protect_keys keys;;
  without_expiry (run spec args keys);;
  env_do commit_unless_held.

(** The records may come from a generator that fails after the last of them. *)
Definition load_snapshot (records : list SnapshotRecord) (failure : option exn) : SM Z :=
  clear;;
  without_expiry
    (forM_list load_record records;; match failure with Some x => raise x | None => ret tt end);;
  let! open := get_env persistence_open in
  (if open : bool then save else ret tt);;
  ret (Z.of_nat (length records)).

(** *** Lifecycle *)

(** A record of the log that cannot be replayed is corruption. *)
Definition load_event (ev : LoadEvent) : SM unit :=
  match ev with
  | EvRecord r => load_record r
  | EvCommand place command args =>
      catchM (apply command args) (fun x => isinstance x CommandError)
        (fun x => raise (new_exn AOFCorruptedError
                           (place ++ lit ": cannot replay: " ++ exn_msg x) None))
  end.

Definition load_files : SM unit :=
  let! r := env_do (on_persistence p_read_files) in
  forM_list load_event r.1;;
  lift r.2;;
  env_do (on_persistence p_open_log).

Definition set_loading (b : bool) : SM unit :=
  env_do (modifyM (set_replaying b));;
  upd (fun s => set_flags (negb b) (negb b) (expiry_deletes s) s).

Definition open : SM unit :=
  let! todo := get_env (fun e => match en_persistence e with
                                 | Some l => negb (p_is_open l)
                                 | None => false
                                 end) in
  if negb todo then ret tt
  else
    set_loading true;;
    finallyM load_files (set_loading false);;
    purge_expired;;
    let! victims := evict_if_needed [] in
    propagate_dels victims;;
    env_do commit.

Definition close : SM unit :=
  let! abandoned := abandon_snapshot in
  let! has := get_env (fun e => match en_persistence e with Some _ => true | None => false end) in
  (if abandoned : bool then
     env_do gc_release;;
     (if has : bool then env_do (on_persistence p_abandon_copy) else ret tt)
   else ret tt);;
  (if has : bool then env_do (on_persistence p_close) else ret tt);;
  env_do release_gc.

(** *** Housekeeping *)
Definition cron (expiry_sample_size : nat) : SM Z :=
  let! n := expire_cycle expiry_sample_size in
  (if n =? 0 then ret tt else env_do commit_unless_held);;
  let! open := get_env persistence_open in
  (if open : bool then
     env_do (on_persistence p_poll);;
     env_do release_gc;;
     let! due := get_env (fun e => match en_persistence e with
                                   | Some l => p_should_auto_rewrite l
                                   | None => false
                                   end) in
     if due : bool then start_rewrite else ret tt
   else ret tt);;
  ret n.
End Engine.

(** * A log and a replication feed kept in memory

    The simplest instances of the two interfaces the engine uses: everything is
    accepted and recorded.  Concrete runs of the engine use them. *)

Record MemLog := mkMemLog {
  ml_records : list bytes;
  ml_base : list SnapshotRecord
}.

#[export] Instance memory_persistence : Persistence MemLog := {|
  p_is_open _ := true;
  p_in_progress _ := false;
  p_last_rewrite_status _ := lit "ok";
  p_last_save_time _ := 0;
  p_should_auto_rewrite _ := false;
  p_stats _ := mkPStats false (lit "ok") None 0 0 (lit "no") 0 0 None None 0 0;
  p_check_writable := ret tt;
  p_append payload := modifyM (fun l => mkMemLog (ml_records l ++ [payload]) (ml_base l));
  p_commit := ret tt;
  p_poll := ret false;
  p_begin_rewrite := ret tt;
  p_finish_copy records := modifyM (fun l => mkMemLog [] records);
  p_start_rewrite records := modifyM (fun l => mkMemLog [] records);
  p_wait_rewrite := ret tt;
  p_abandon_copy := ret tt;
  p_close := ret tt;
  p_read_files := ret ([], Ok tt);
  p_open_log := ret tt
|}.

#[export] Instance memory_feed : ReplicationFeed (list bytes) := {|
  r_active _ := true;
  r_feed payload := modifyM (fun l => l ++ [payload]);
  r_flush := ret tt
|}.

(** An engine with nothing in it, at the time [t]. *)
Definition memory_env (log : option MemLog) (feed : option (list bytes)) : EngineEnv MemLog (list bytes) :=
  mkEnv log feed false true 2 false 0 0 0 0 [] None 1 0 0.

Definition empty_store (p : Policy) (mk mm : Z) : Store Policy Done :=
  mkStore mk mm true true true 0 0 0 0 0 p [] KeySet.ks_empty 0 None.

Definition memory_world (p : Policy) (mk mm : Z) (log : option MemLog) (feed : option (list bytes)) (t : Z)
  : World Policy Done (EngineEnv MemLog (list bytes)) :=
  mkWorld (empty_store p mk mm) (memory_env log feed) (still (float_of_Z t)).
