(* ===== verification/Aof.v ===== *)
(** * The append-only file (engine/persistence/aof.py)

    Records of the three versions, and the replay of a file: the records found,
    how far the file is good, and the error it ends with, if any.  What the
    operating system keeps of a file is in [Disk]. *)

From Stdlib Require Import SpecFloat String.
From S2P Require Import Prelude PyStr PyFloat Errors Codec Pack Snapshot Registry Resp Json Engine.
Local Close Scope string_scope.

(** ** Records *)

(** [b"%08x" % n] for a 32-bit [n]. *)
Fixpoint hex_text (digits : nat) (n : Z) : bytes :=
  match digits with O => [] | S k => hex_text k (n / 16) ++ [hex_char (n mod 16)] end.

Definition frame_header (payload : bytes) : bytes :=
  35 :: hex_text 8 (crc32 payload 0) ++ 32 :: str_of_int (Z.of_nat (length payload)).

Definition frame_record (payload : bytes) : bytes := frame_header payload ++ 10 :: payload.

Definition encode_record (command : pystr) (args : list PyArg) : result exn bytes :=
  match encode_command (AStr command :: args) with
  | Ok payload => Ok (frame_record payload)
  | Raise x => Raise x
  end.

(** [int(data, 16)] of bytes. *)
Fixpoint hex_digits (prev : bool) (s : bytes) : option (list Z) :=
  match s with
  | [] => if prev then Some [] else None
  | c :: s' =>
      if c =? 95 then (if prev then hex_digits false s' else None)
      else match hex_value c with
           | Some d => cons d <$> hex_digits true s'
           | None => None
           end
  end.

Definition hex_unsigned (s : bytes) : option Z :=
  let ds := match s with
            | 48 :: 120 :: 95 :: r | 48 :: 88 :: 95 :: r => hex_digits false r
            | 48 :: 120 :: r | 48 :: 88 :: r => hex_digits false r
            | _ => hex_digits false s
            end in
  (fun l => fold_left (fun acc d => acc * 16 + d) l 0) <$> ds.

Definition py_int_hex (s : bytes) : option Z :=
  match strip is_ascii_space s with
  | 43 :: s' => hex_unsigned s'
  | 45 :: s' => Z.opp <$> hex_unsigned s'
  | s' => hex_unsigned s'
  end.

(** [data.split()]; [word] is the word being read. *)
Fixpoint split_words (word : bytes) (s : bytes) : list bytes :=
  match s with
  | [] => match word with [] => [] | _ => [word] end
  | c :: s' =>
      if is_ascii_space c then match word with [] => split_words [] s' | _ => word :: split_words [] s' end
      else split_words (word ++ [c]) s'
  end.

Definition value_error {A} (message : String.string) : result exn A := Raise (err ValueError message).

Definition v3_header (line : bytes) : result exn (Z * Z) :=
  match split_words [] (drop 1 line) with
  | [crc; length] =>
      match py_int_hex crc, py_int_bytes length with
      | Some c, Some n => Ok (c, n)
      | _, _ => value_error "malformed record header"
      end
  | _ => value_error "malformed record header"
  end.

Definition decode_v3 (raw : bytes) : result exn (pystr * list PyArg) :=
  match find_char 10 raw with
  | None => value_error "incomplete record"
  | Some eol =>
      match v3_header (take eol raw) with
      | Raise x => Raise x
      | Ok (expected, len) =>
          let payload := drop (S eol) raw in
          if negb (Z.of_nat (length payload) =? len) then value_error "incomplete record"
          else if negb (crc32 payload 0 =? expected) then value_error "checksum mismatch"
          else
            match (next_command (feed payload (new_parser DEFAULT_MAX_BULK))).1 with
            | Raise x => Raise x
            | Ok (Some (command :: args)) => Ok (command, AStr <$> args)
            | Ok _ => value_error "record is not a RESP command"
            end
      end
  end.

Section Replay.
(** The text of an error of [json.loads], and of [str] of a JSON value that is
    no string, number or truth value; both only reach error messages. *)
Context (json_error : bytes -> pystr) (other_text : Json -> pystr).

Definition json_loads (b : bytes) : result exn Json :=
  match loads_bytes b with
  | Some v => Ok v
  | None => Raise (new_exn ValueError (json_error b) None)
  end.

Definition json_arg (v : Json) : PyArg :=
  match v with
  | JString s => AStr s
  | JInt z => AInt z
  | JFloat x => AFloat x
  | JBool b => ABool b
  | _ => AOther (other_text v)
  end.

Definition decode_v1 (raw : bytes) : result exn (pystr * list PyArg) :=
  match json_loads raw with
  | Raise x => Raise x
  | Ok (JObject record) =>
      match dict_get (lit "command") record, dict_get (lit "args") record with
      | Some (JString command), Some (JArray args) =>
          Ok (command, (fun a => AStr match a with JString s => s | _ => dumps_compact a end) <$> args)
      | _, _ => value_error "record needs a string 'command' and a list 'args'"
      end
  | Ok _ => value_error "record is not an object"
  end.

Definition decode_v2 (raw : bytes) : result exn (pystr * list PyArg) :=
  if bool_decide (length raw < 11)%nat || negb (bool_decide (slice 8 9 raw = [32]))
  then value_error "malformed record"
  else
    match py_int_hex (take 8 raw) with
    | None => value_error "malformed checksum"
    | Some expected =>
        let payload := rstrip (fun c => (c =? 13) || (c =? 10)) (drop 9 raw) in
        if negb (crc32 payload 0 =? expected) then value_error "checksum mismatch"
        else
          match json_loads payload with
          | Raise x => Raise x
          | Ok (JArray (JString command :: args)) => Ok (command, json_arg <$> args)
          | Ok _ => value_error "record must be a non-empty array starting with the command"
          end
    end.

Definition decode_record (raw : bytes) : result exn (pystr * list PyArg) :=
  match raw with
  | 35 :: _ => decode_v3 raw
  | _ =>
      if negb (bool_decide (last raw = Some 10)) then value_error "incomplete record"
      else match raw with 123 :: _ => decode_v1 raw | _ => decode_v2 raw end
  end.

(** ** Reading a file *)

(** [f.readline()]: the line with its end, and what follows. *)
Definition readline (s : bytes) : bytes * bytes :=
  match find_char 10 s with
  | Some i => (take (S i) s, drop (S i) s)
  | None => (s, [])
  end.

(** [f.read(n)]: everything for a negative [n]; a number beyond the machine's
    is refused. *)
Definition read_bytes (n : Z) (s : bytes) : result exn (bytes * bytes) :=
  if (n <? - 2 ^ 63) || (2 ^ 63 <=? n)
  then Raise (err OverflowError "Python int too large to convert to C ssize_t")
  else if n <? 0 then Ok (s, [])
  else Ok (take (Z.to_nat n) s, drop (Z.to_nat n) s).

(** The record that begins with [line]: a v3 header brings its payload, and a
    bad one ([ValueError]) is left to [decode_record]. *)
Definition read_record (line rest : bytes) : result exn (bytes * bytes) :=
  match line with
  | 35 :: _ =>
      match v3_header (rstrip (Z.eqb 10) line) with
      | Ok (_, n) =>
          match read_bytes n rest with
          | Ok (more, rest) => Ok (line ++ more, rest)
          | Raise x => Raise x
          end
      | Raise _ => Ok (line, rest)
      end
  | _ => Ok (line, rest)
  end.

Definition blank (line : bytes) : bool := bool_decide (strip is_ascii_space line = []).

Definition place_of (path : pystr) (lineno : Z) : pystr := path ++ 58 :: str_of_int lineno.

(** The loop of [replay_aof]: the records for [apply], and the offset up to
    which the file is good.  Every round reads a byte or more. *)
Fixpoint replay_loop (fuel : nat) (path : pystr) (allow_truncate : bool) (rest : bytes) (pos good : nat)
    (lineno : Z) : list LoadEvent * result exn nat :=
  match fuel, rest with
  | _, [] | O, _ => ([], Ok good)
  | S f, _ =>
      let '(line, rest) := readline rest in
      let lineno := lineno + 1 in
      if blank line then
        let pos := (pos + length line)%nat in replay_loop f path allow_truncate rest pos pos lineno
      else
        match read_record line rest with
        | Raise x => ([], Raise x)
        | Ok (raw, rest) =>
            match decode_record raw with
            | Raise x =>
                if isinstance x ValueError then
                  if allow_truncate && bool_decide (rest = []) then ([], Ok good)
                  else ([], Raise (new_exn AOFCorruptedError (place_of path lineno ++ lit ": " ++ exn_msg x) None))
                else ([], Raise x)
            | Ok (command, args) =>
                let pos := (pos + length raw)%nat in
                let '(events, r) := replay_loop f path allow_truncate rest pos pos lineno in
                (EvCommand (place_of path lineno) command args :: events, r)
            end
        end
  end.

(** [replay_aof] of a file's content, [None] if it does not exist: the records,
    then the offset at which the file is cut (its length if it is whole). *)
Definition replay_aof (path : pystr) (allow_truncate : bool) (content : option bytes) :
    list LoadEvent * result exn nat :=
  match content with
  | None => ([], Ok 0%nat)
  | Some data => replay_loop (length data) path allow_truncate data 0 0 0
  end.

(** [iter_records]: the records, and the error that ends the iteration. *)
Fixpoint iter_loop (fuel : nat) (rest : bytes) : list (pystr * list PyArg) * option exn :=
  match fuel, rest with
  | _, [] | O, _ => ([], None)
  | S f, _ =>
      let '(line, rest) := readline rest in
      if blank line then iter_loop f rest
      else
        let read :=
          match line with
          | 35 :: _ =>
              match v3_header (rstrip (Z.eqb 10) line) with
              | Ok (_, n) => match read_bytes n rest with
                             | Ok (more, rest) => Ok (line ++ more, rest)
                             | Raise x => Raise x
                             end
              | Raise x => Raise x
              end
          | _ => Ok (line, rest)
          end in
        match read with
        | Raise x => ([], Some x)
        | Ok (raw, rest) =>
            match decode_record raw with
            | Raise x => ([], Some x)
            | Ok r => let '(rs, x) := iter_loop f rest in (r :: rs, x)
            end
        end
  end.
Definition iter_records (data : bytes) : list (pystr * list PyArg) * option exn := iter_loop (length data) data.
End Replay.
