(* ===== verification/AofProofs.v ===== *)
(** * Records of the log: framing, replay and torn tails *)

From Stdlib Require Import SpecFloat String.
From Stdlib Require Import String.
From S2P Require Import Prelude PyStr PyFloat Codec Errors Pack Snapshot Registry Resp RespProofs Json.
From S2P Require Import FormatSpec Engine Aof.
Local Close Scope string_scope.

(** ** The header *)
Definition is_hex (c : Z) : Prop := 48 <= c <= 57 \/ 97 <= c <= 102.

Lemma hex_char_is_hex d : 0 <= d < 16 -> is_hex (hex_char d).
Proof. intros H. unfold hex_char, is_hex. destruct (Z.ltb_spec d 10); lia. Qed.

Lemma hex_text_hex k n : Forall is_hex (hex_text k n).
Proof.
  revert n. induction k as [|k IH]; intros n; [constructor|]. cbn [hex_text]. apply Forall_app. split; [apply IH|].
  constructor; [|done]. apply hex_char_is_hex, Z.mod_pos_bound. lia.
Qed.

Lemma hex_text_length k n : length (hex_text k n) = k.
Proof. revert n. induction k as [|k IH]; intros n; [done|]. cbn [hex_text]. rewrite length_app, IH. simpl. lia. Qed.

Lemma hex_text_nonempty k n : (0 < k)%nat -> hex_text k n <> [].
Proof. intros Hk E. apply (f_equal length) in E. rewrite hex_text_length in E. simpl in E. lia. Qed.

Lemma hex_digits_snoc s ds d : forall prev,
  hex_digits prev s = Some ds -> s <> [] \/ prev = true -> 0 <= d < 16 ->
  hex_digits prev (s ++ [hex_char d]) = Some (ds ++ [d]).
Proof.
  revert ds. induction s as [|c s IH]; intros ds prev E Hne Hd.
  - destruct Hne as [?| ->]; [done|]. injection E as <-. cbn [app hex_digits].
    pose proof (hex_char_is_hex d Hd) as Hx. unfold is_hex in Hx. destruct (Z.eqb_spec (hex_char d) 95); [lia|].
    by rewrite hex_value_char.
  - cbn [app hex_digits] in E |- *. destruct (c =? 95).
    + destruct prev; [|done]. destruct s as [|c' s]; [done|]. apply (IH ds false); auto.
    + destruct (hex_value c) as [h|]; [|done]. destruct (hex_digits true s) as [ds'|] eqn:E'; [|done].
      injection E as <-. rewrite (IH ds' true); auto.
Qed.

Lemma hex_digits_text k n :
  (0 < k)%nat -> 0 <= n < 16 ^ Z.of_nat k ->
  exists ds, hex_digits false (hex_text k n) = Some ds /\ fold_left (fun acc d => acc * 16 + d) ds 0 = n.
Proof.
  revert n. induction k as [|k IH]; intros n Hk Hn; [lia|]. cbn [hex_text].
  pose proof (Z.mod_pos_bound n 16 ltac:(lia)) as Hm. pose proof (Z.div_mod n 16 ltac:(lia)) as Hdm.
  rewrite Nat2Z.inj_succ, Z.pow_succ_r in Hn by lia. destruct k as [|k].
  - exists [n mod 16]. simpl in Hn. split; [|simpl; rewrite Z.mod_small; lia]. cbn [hex_text app hex_digits].
    pose proof (hex_char_is_hex _ Hm) as Hx. unfold is_hex in Hx. destruct (Z.eqb_spec (hex_char (n mod 16)) 95); [lia|].
    by rewrite hex_value_char.
  - destruct (IH (n / 16)) as (ds & E & Hv); [lia|split; [apply Z.div_pos; lia|apply Z.div_lt_upper_bound; lia]|].
    exists (ds ++ [n mod 16]). split.
    + apply hex_digits_snoc; [done| |done]. left. apply hex_text_nonempty. lia.
    + rewrite fold_left_app, Hv. simpl. lia.
Qed.

Lemma hex_unsigned_plain s :
  Forall is_hex s -> hex_unsigned s = (fun l => fold_left (fun acc d => acc * 16 + d) l 0) <$> hex_digits false s.
Proof.
  intros Hs. unfold hex_unsigned. destruct s as [|a [|b s]]; [done|by destruct a as [|[]|]; repeat case_match|].
  inversion_clear Hs as [|? ? _ Hs']. inversion_clear Hs' as [|? ? Hb _]. f_equal. unfold is_hex in Hb.
  destruct a as [|a|a]; try reflexivity. do 6 (try (destruct a; try reflexivity)).
  destruct b as [|b|b]; try reflexivity. do 7 (try (destruct b; try reflexivity)); lia.
Qed.

Lemma hex_space c : is_hex c -> is_ascii_space c = false.
Proof. unfold is_hex, is_ascii_space. intros H. lia. Qed.

Lemma py_int_hex_text n : 0 <= n < 2 ^ 32 -> py_int_hex (hex_text 8 n) = Some n.
Proof.
  intros Hn. destruct (hex_digits_text 8 n ltac:(lia) ltac:(lia)) as (ds & E & Hv). unfold py_int_hex.
  pose proof (hex_text_hex 8 n) as Hh. set (s := hex_text 8 n) in *.
  rewrite strip_id by (eapply Forall_impl; [exact Hh|]; apply hex_space).
  assert (Hu : hex_unsigned s = Some n) by (rewrite hex_unsigned_plain, E by done; simpl; by rewrite Hv).
  destruct s as [|c s'] eqn:Es; [done|]. inversion_clear Hh as [|? ? Hc _]. unfold is_hex in Hc.
  destruct c as [|c|c]; try done; try lia. do 6 (try (destruct c; try done)); lia.
Qed.

Definition unspaced (s : bytes) : Prop := Forall (fun c => is_ascii_space c = false) s.

Lemma split_words_word word s t :
  unspaced s -> split_words word (s ++ t) = split_words (word ++ s) t.
Proof.
  intros Hs. revert word. induction Hs as [|c s Hc Hs IH]; intros word; [by rewrite app_nil_r|].
  cbn [app split_words]. rewrite Hc, IH, <- app_assoc. done.
Qed.

Lemma split_words_one s : unspaced s -> (length (split_words [] s) <= 1)%nat.
Proof.
  intros Hs. rewrite <- (app_nil_r s), split_words_word by done. simpl. by destruct s; simpl; lia.
Qed.

Lemma split_words_two a b :
  unspaced a -> unspaced b -> a <> [] -> b <> [] -> split_words [] (a ++ 32 :: b) = [a; b].
Proof.
  intros Ha Hb Hna Hnb. rewrite split_words_word by done. cbn [split_words app].
  change (is_ascii_space 32) with true. cbn iota. destruct a as [|x a]; [done|].
  rewrite <- (app_nil_r b) at 1. rewrite split_words_word by done. cbn [split_words app]. by destruct b.
Qed.

Lemma hex_unspaced k n : unspaced (hex_text k n).
Proof. eapply Forall_impl; [apply hex_text_hex|]. apply hex_space. Qed.

Lemma int_unspaced z : unspaced (str_of_int z).
Proof. apply str_of_int_chars. intros c Hc. unfold is_ascii_space. lia. Qed.

Lemma str_of_int_nonempty z : str_of_int z <> [].
Proof.
  unfold str_of_int. destruct (z <? 0); [done|]. pose proof (dec_digits_nonempty (Z.abs z)).
  by destruct (dec_digits (Z.abs z)).
Qed.

(** A payload the log can hold. *)
Definition payload_ok (payload : bytes) : Prop := Forall is_byte payload /\ Z.of_nat (length payload) < 2 ^ 63.

Lemma v3_header_frame payload :
  payload_ok payload -> v3_header (frame_header payload) = Ok (crc32 payload 0, Z.of_nat (length payload)).
Proof.
  intros [Hb Hl]. unfold v3_header, frame_header. cbn [drop]. rewrite drop_0.
  rewrite split_words_two; [|apply hex_unspaced|apply int_unspaced|apply hex_text_nonempty; lia|apply str_of_int_nonempty].
  rewrite py_int_hex_text by (apply crc32_range; [done|lia]). by rewrite (proj2 (py_int_str_of_int64 (Z.of_nat (length payload)) ltac:(lia))).
Qed.

(** No line ends in a header. *)
Lemma header_line payload : Forall (fun c => (c =? 10) = false) (frame_header payload).
Proof.
  unfold frame_header. constructor; [done|]. apply Forall_app. split.
  - eapply Forall_impl; [apply hex_text_hex|]. unfold is_hex. intros c Hc. lia.
  - constructor; [done|]. apply str_of_int_chars. intros c Hc. lia.
Qed.

Lemma find_char_line s t : Forall (fun c => (c =? 10) = false) s -> find_char 10 (s ++ 10 :: t) = Some (length s).
Proof. induction 1 as [|c s Hc Hs IH]; [done|]. cbn [app find_char]. by rewrite Hc, IH. Qed.

Lemma find_char_none s : Forall (fun c => (c =? 10) = false) s -> find_char 10 s = None.
Proof. induction 1 as [|c s Hc Hs IH]; [done|]. cbn [find_char]. by rewrite Hc, IH. Qed.

Lemma rstrip_line s : Forall (fun c => (c =? 10) = false) s -> rstrip (Z.eqb 10) (s ++ [10]) = s.
Proof.
  intros Hs. unfold rstrip. rewrite reverse_snoc. cbn [lstrip]. change (10 =? 10) with true. cbn iota.
  assert (Hl : forall t, Forall (fun c => (c =? 10) = false) t -> lstrip (Z.eqb 10) t = t).
  { intros [|c t] Ht; [done|]. inversion_clear Ht as [|? ? Hc _]. cbn [lstrip]. by rewrite Z.eqb_sym, Hc. }
  rewrite Hl by (by apply Forall_reverse). apply reverse_involutive.
Qed.

Lemma rstrip_same s : Forall (fun c => (c =? 10) = false) s -> rstrip (Z.eqb 10) s = s.
Proof.
  intros Hs. unfold rstrip. rewrite <- (reverse_involutive s) at 2. f_equal. apply Forall_reverse in Hs.
  destruct (reverse s) as [|c t]; [done|]. inversion_clear Hs as [|? ? Hc _]. cbn [lstrip]. by rewrite Z.eqb_sym, Hc.
Qed.

Lemma readline_line s t :
  Forall (fun c => (c =? 10) = false) s -> readline (s ++ 10 :: t) = (s ++ [10], t).
Proof.
  intros Hs. unfold readline. rewrite find_char_line by done. f_equal.
  - change (10 :: t) with ([10] ++ t). rewrite app_assoc, take_app_length'; [done|]. rewrite length_app. simpl. lia.
  - change (10 :: t) with ([10] ++ t). rewrite app_assoc, drop_app_length'; [done|]. rewrite length_app. simpl. lia.
Qed.

Lemma readline_short s : Forall (fun c => (c =? 10) = false) s -> readline s = (s, []).
Proof. intros Hs. unfold readline. by rewrite find_char_none. Qed.

Lemma not_blank c s : is_ascii_space c = false -> blank (c :: s) = false.
Proof.
  intros Hc. unfold blank. apply bool_decide_false. unfold strip. cbn [lstrip]. rewrite Hc. unfold rstrip.
  rewrite reverse_cons. assert (Hn : forall t, lstrip is_ascii_space (t ++ [c]) <> []).
  { induction t as [|d t IH]; cbn [app lstrip]; [by rewrite Hc|]. by destruct (is_ascii_space d). }
  intros E. apply (Hn (reverse s)). by apply (f_equal reverse) in E; rewrite reverse_involutive in E.
Qed.

(** Part of a decimal text is a smaller number. *)
Lemma digits_value_nonneg ds : Forall (fun d => 0 <= d < 10) ds -> 0 <= digits_value ds.
Proof.
  induction ds as [|d ds IH] using rev_ind; intros Hds; [done|]. apply Forall_app in Hds as [H1 H2].
  inversion_clear H2. rewrite digits_value_app. specialize (IH H1). lia.
Qed.

Lemma digits_value_prefix a b : Forall (fun d => 0 <= d < 10) (a ++ b) -> digits_value a <= digits_value (a ++ b).
Proof.
  intros Hab. apply Forall_app in Hab as [Ha Hb]. unfold digits_value at 2. rewrite fold_left_app, digits_value_acc.
  fold (digits_value a). pose proof (digits_value_nonneg a Ha). pose proof (digits_value_nonneg b Hb).
  pose proof (Z.pow_pos_nonneg 10 (Z.of_nat (length b)) ltac:(lia) ltac:(lia)). nia.
Qed.

Lemma int_prefix z d e n : 0 <= z -> str_of_int z = d ++ e -> py_int_bytes d = Some n -> 0 <= n <= z.
Proof.
  intros Hz E Hn. assert (Hr : Forall (fun d => 0 <= d < 10) (dec_digits z)) by (apply dec_digits_fuel_range; [lia|constructor]).
  unfold str_of_int in E. destruct (Z.ltb_spec z 0); [lia|]. rewrite Z.abs_eq in E by done.
  apply map_eq_app in E as (a & b & Hab & <- & _). rewrite Hab in Hr.
  assert (Ha : Forall (fun d => 0 <= d < 10) a) by (by apply Forall_app in Hr as [? _]).
  unfold py_int_bytes in Hn. rewrite strip_id in Hn.
  2: { apply Forall_fmap. eapply Forall_impl; [exact Ha|]. intros x Hx. simpl in Hx |- *. unfold is_ascii_space. lia. }
  destruct a as [|x a]; [done|].
  assert (Hu : int_signed [48] (map (Z.add 48) (x :: a)) = int_unsigned [48] (map (Z.add 48) (x :: a))).
  { inversion_clear Ha. cbn [map]. unfold int_signed. destruct (48 + x) as [|q|q] eqn:Eq; try done; try lia.
    do 6 (try (destruct q; try done)); lia. }
  rewrite Hu in Hn. unfold int_unsigned in Hn. rewrite int_digits_ascii in Hn by (done || by left).
  destruct (bool_decide _); [|done]. injection Hn as <-. rewrite <- (dec_digits_value z Hz), Hab.
  split; [by apply digits_value_nonneg|by apply digits_value_prefix].
Qed.

(** ** One record *)
Section Replay.
Context (json_error : bytes -> pystr) (other_text : Json -> pystr).
Abbreviation decode_record := (decode_record json_error other_text).
Abbreviation replay_loop := (replay_loop json_error other_text).

(** The record of [payload] is the command [command]. *)
Definition logged (payload : bytes) (command : list pystr) : Prop :=
  payload_ok payload /\ request_frame DEFAULT_MAX_BULK payload command /\ command <> [].

Definition command_event (place : pystr) (command : list pystr) : LoadEvent :=
  EvCommand place (default [] (head command)) (AStr <$> tail command).

Lemma read_record_header payload rest :
  payload_ok payload ->
  read_record (frame_header payload ++ [10]) rest =
  Ok ((frame_header payload ++ [10]) ++ take (length payload) rest, drop (length payload) rest).
Proof.
  intros Hp. unfold read_record. unfold frame_header at 1. cbn [app].
  change (35 :: (hex_text 8 (crc32 payload 0) ++ 32 :: str_of_int (Z.of_nat (length payload))) ++ [10])
    with (frame_header payload ++ [10]).
  rewrite rstrip_line, v3_header_frame by (apply header_line || done). unfold read_bytes. destruct Hp as [_ Hl].
  destruct (Z.ltb_spec (Z.of_nat (length payload)) (- 2 ^ 63)), (Z.leb_spec (2 ^ 63) (Z.of_nat (length payload))); try lia.
  cbn [orb]. destruct (Z.ltb_spec (Z.of_nat (length payload)) 0); [lia|]. by rewrite Nat2Z.id.
Qed.

Lemma read_record_frame payload t :
  payload_ok payload -> read_record (frame_header payload ++ [10]) (payload ++ t) = Ok (frame_record payload, t).
Proof.
  intros Hp. rewrite read_record_header, take_app_length, drop_app_length by done. unfold frame_record.
  by rewrite <- app_assoc.
Qed.

Lemma decode_v3_payload payload payload' :
  payload_ok payload -> length payload' = length payload ->
  decode_v3 (frame_header payload ++ 10 :: payload') =
  if crc32 payload' 0 =? crc32 payload 0 then
    match (next_command (feed payload' (new_parser DEFAULT_MAX_BULK))).1 with
    | Raise x => Raise x
    | Ok (Some (command :: args)) => Ok (command, AStr <$> args)
    | Ok _ => value_error "record is not a RESP command"
    end
  else value_error "checksum mismatch".
Proof.
  intros Hp Hl. unfold decode_v3. rewrite find_char_line by apply header_line. rewrite take_app_length.
  rewrite v3_header_frame by done. cbv zeta.
  assert (Hd : drop (S (length (frame_header payload))) (frame_header payload ++ 10 :: payload') = payload').
  { change (10 :: payload') with ([10] ++ payload'). rewrite app_assoc, drop_app_length'; [done|].
    rewrite length_app. simpl. lia. }
  rewrite Hd, Hl, Z.eqb_refl. cbn [negb]. by destruct (crc32 payload' 0 =? crc32 payload 0).
Qed.

Lemma decode_frame payload command :
  logged payload command ->
  decode_record (frame_record payload) = Ok (default [] (head command), AStr <$> tail command).
Proof.
  intros (Hp & Hf & Hne). change (decode_record (frame_record payload)) with (decode_v3 (frame_record payload)).
  unfold frame_record. rewrite decode_v3_payload, Z.eqb_refl by done.
  destruct (received_frame DEFAULT_MAX_BULK payload command [] (feed payload (new_parser DEFAULT_MAX_BULK)) Hf)
    as (p' & Hn & _).
  { rewrite app_nil_r. apply (received_feed DEFAULT_MAX_BULK [] payload), received_new. }
  rewrite Hn. by destruct command.
Qed.

(** ** Replay *)
Lemma readline_shorter s : s <> [] -> (length (readline s).2 < length s)%nat /\ (readline s).1 ++ (readline s).2 = s.
Proof.
  intros Hs. unfold readline. destruct (find_char 10 s) as [i|] eqn:E; simpl.
  - apply find_char_bound in E. rewrite length_drop, take_drop. split; [lia|done].
  - rewrite app_nil_r. destruct s; [done|]. simpl. split; [lia|done].
Qed.

Lemma read_record_shorter line rest raw rest' :
  read_record line rest = Ok (raw, rest') -> (length rest' <= length rest)%nat.
Proof.
  unfold read_record. destruct line as [|c line]; [by intros [= _ ->]|].
  assert (Hplain : Ok (c :: line, rest) = Ok (X := exn) (raw, rest') -> (length rest' <= length rest)%nat)
    by (by intros [= _ ->]).
  destruct c as [|c|c]; try exact Hplain. do 6 (try (destruct c; try exact Hplain)).
  destruct (v3_header _) as [[crc n]|]; [|exact Hplain]. unfold read_bytes.
  destruct ((n <? - 2 ^ 63) || (2 ^ 63 <=? n)); [done|]. destruct (n <? 0); [intros [= _ <-]; simpl; lia|].
  intros [= _ <-]. rewrite length_drop. lia.
Qed.

Lemma replay_fuel f path allow rest pos good lineno g :
  (length rest <= f)%nat -> (f <= g)%nat ->
  replay_loop g path allow rest pos good lineno = replay_loop f path allow rest pos good lineno.
Proof.
  revert rest pos good lineno g. induction f as [|f IH]; intros rest pos good lineno g Hf Hg.
  - destruct rest; [by destruct g|simpl in Hf; lia].
  - destruct g as [|g]; [lia|]. destruct rest as [|c rest]; [done|].
    destruct (readline_shorter (c :: rest) ltac:(done)) as [Hr _]. cbn [Aof.replay_loop].
    destruct (readline (c :: rest)) as [line rest1]. simpl in Hr, Hf. cbv zeta. destruct (blank line); [apply IH; lia|].
    destruct (read_record line rest1) as [[raw rest2]|] eqn:Er; [|done]. apply read_record_shorter in Er.
    destruct (Aof.decode_record _ _ raw) as [[command args]|]; [|done]. by rewrite (IH rest2 _ _ _ g) by lia.
Qed.

Definition replay_from (path : pystr) (allow : bool) (rest : bytes) (pos : nat) (lineno : Z) :
    list LoadEvent * result exn nat :=
  replay_loop (length rest) path allow rest pos pos lineno.

(** A line and what it brings, when there is something left. *)
Lemma replay_line path allow rest pos lineno line rest1 raw rest2 :
  rest <> [] -> readline rest = (line, rest1) -> blank line = false -> read_record line rest1 = Ok (raw, rest2) ->
  replay_from path allow rest pos lineno =
  match decode_record raw with
  | Raise x =>
      if isinstance x ValueError then
        if allow && bool_decide (rest2 = []) then ([], Ok pos)
        else ([], Raise (new_exn AOFCorruptedError (place_of path (lineno + 1) ++ lit ": " ++ exn_msg x) None))
      else ([], Raise x)
  | Ok (command, args) =>
      let '(events, r) := replay_from path allow rest2 (pos + length raw)%nat (lineno + 1) in
      (EvCommand (place_of path (lineno + 1)) command args :: events, r)
  end.
Proof.
  intros Hne Hline Hb Hrec. unfold replay_from at 1. destruct (readline_shorter rest Hne) as [Hs _]. rewrite Hline in Hs.
  destruct rest as [|c rest]; [done|]. cbn [length Aof.replay_loop]. rewrite Hline. cbv zeta. rewrite Hb, Hrec.
  apply read_record_shorter in Hrec. simpl in Hs. destruct (Aof.decode_record _ _ raw) as [[command args]|]; [|done].
  unfold replay_from. by rewrite (replay_fuel (length rest2)) by lia.
Qed.

Lemma replay_nil path allow pos lineno : replay_from path allow [] pos lineno = ([], Ok pos).
Proof. done. Qed.

Lemma header_blank payload t : blank (frame_header payload ++ t) = false.
Proof. by apply not_blank. Qed.

Lemma replay_record path allow payload command t pos lineno :
  logged payload command ->
  replay_from path allow (frame_record payload ++ t) pos lineno =
  let '(events, r) := replay_from path allow t (pos + length (frame_record payload))%nat (lineno + 1) in
  (command_event (place_of path (lineno + 1)) command :: events, r).
Proof.
  intros Hlog. pose proof Hlog as (Hp & _ & _).
  rewrite (replay_line path allow _ pos lineno (frame_header payload ++ [10]) (payload ++ t) (frame_record payload) t).
  - by rewrite (decode_frame payload command Hlog).
  - done.
  - unfold frame_record. rewrite <- app_assoc. cbn [app]. apply readline_line, header_line.
  - apply header_blank.
  - by apply read_record_frame.
Qed.

(** *** A torn record *)
Lemma torn_header payload u w :
  payload_ok payload -> frame_header payload = u ++ w -> u <> [] -> read_record u [] = Ok (u, []).
Proof.
  intros [_ Hl] E Hu. destruct u as [|c u]; [done|]. unfold frame_header in E.
  pose proof (f_equal head E) as Hc. cbn [head app] in Hc. injection Hc as <-.
  apply (f_equal tail) in E. cbn [tail app] in E.
  assert (Hline : Forall (fun c => (c =? 10) = false) (35 :: u)).
  { pose proof (header_line payload) as H. unfold frame_header in H. rewrite E in H.
    change (35 :: u ++ w) with ((35 :: u) ++ w) in H. by apply Forall_app in H as [? _]. }
  cbn [read_record]. rewrite rstrip_same by done. unfold v3_header. cbn [drop]. rewrite drop_0.
  destruct (prefix_split _ _ _ _ E) as [(w' & E' & _)|(u' & -> & E')].
  - pose proof (hex_unspaced 8 (crc32 payload 0)) as Hx. rewrite E' in Hx. apply Forall_app in Hx as [Hx _].
    apply split_words_one in Hx. by destruct (split_words [] u) as [|? [|? [|]]]; simpl in Hx; try lia.
  - destruct u' as [|c u']; [|injection E' as <- E'].
    + rewrite app_nil_r. pose proof (split_words_one _ (hex_unspaced 8 (crc32 payload 0))) as Hx.
      by destruct (split_words [] _) as [|? [|? [|]]]; simpl in Hx; try lia.
    + assert (Hsp : unspaced u').
      { pose proof (int_unspaced (Z.of_nat (length payload))) as H. rewrite E' in H. by apply Forall_app in H as [? _]. }
      destruct u' as [|d u']; [by rewrite split_words_word by apply hex_unspaced|].
      rewrite split_words_two; [|apply hex_unspaced|done|apply hex_text_nonempty; lia|done].
      destruct (py_int_hex _); [|done]. destruct (py_int_bytes (d :: u')) as [n|] eqn:En; [|done].
      apply (int_prefix (Z.of_nat (length payload)) _ _ _ ltac:(lia) E') in En. unfold read_bytes.
      destruct (Z.ltb_spec n (- 2 ^ 63)), (Z.leb_spec (2 ^ 63) n); try lia. cbn [orb].
      destruct (n <? 0); rewrite ?take_nil, ?drop_nil, ?app_nil_r; done.
Qed.

(** Nothing after a part of the header, and a record that does not decode. *)
Lemma replay_torn_header path allow payload u w pos lineno :
  payload_ok payload -> frame_header payload = u ++ w -> u <> [] ->
  replay_from path allow u pos lineno =
  if allow then ([], Ok pos)
  else ([], Raise (new_exn AOFCorruptedError (place_of path (lineno + 1) ++ lit ": incomplete record") None)).
Proof.
  intros Hp E Hu.
  assert (Hline : Forall (fun c => (c =? 10) = false) u).
  { pose proof (header_line payload) as H. rewrite E in H. by apply Forall_app in H as [? _]. }
  pose proof (torn_header payload u w Hp E Hu) as Hrec. destruct u as [|c v]; [done|].
  pose proof (f_equal head E) as Hc. unfold frame_header in Hc. cbn [head app] in Hc. injection Hc as <-.
  rewrite (replay_line path allow _ pos lineno (35 :: v) [] (35 :: v) []);
    [|done|by apply readline_short|by apply not_blank|done].
  change (decode_record (35 :: v)) with (decode_v3 (35 :: v)). unfold decode_v3. rewrite find_char_none by done.
  by destruct allow.
Qed.

Lemma replay_torn path allow payload u w pos lineno :
  payload_ok payload -> frame_record payload = u ++ w -> u <> [] -> w <> [] ->
  replay_from path allow u pos lineno =
  if allow then ([], Ok pos)
  else ([], Raise (new_exn AOFCorruptedError (place_of path (lineno + 1) ++ lit ": incomplete record") None)).
Proof.
  intros Hp E Hu Hw. unfold frame_record in E.
  destruct (prefix_split _ _ _ _ E) as [(w' & E' & _)|([|c u'] & -> & E')];
    [by apply (replay_torn_header path allow payload u w')| |].
  { rewrite app_nil_r in *. by apply (replay_torn_header path allow payload _ []); [|rewrite app_nil_r|]. }
  injection E' as <- E'.
  assert (Hlen : (length u' < length payload)%nat) by (rewrite E', length_app; destruct w; [done|simpl; lia]).
  rewrite (replay_line path allow _ pos lineno (frame_header payload ++ [10]) u' (frame_header payload ++ 10 :: u') []);
    [|done|apply readline_line, header_line|apply header_blank|].
  2: { rewrite read_record_header, take_ge, drop_ge by (done || lia). by rewrite <- app_assoc. }
  change (decode_record (frame_header payload ++ 10 :: u')) with (decode_v3 (frame_header payload ++ 10 :: u')).
  unfold decode_v3. rewrite find_char_line by apply header_line. rewrite take_app_length, v3_header_frame by done.
  cbv zeta. change (10 :: u') with ([10] ++ u'). rewrite app_assoc, drop_app_length' by (rewrite length_app; simpl; lia).
  destruct (Z.eqb_spec (Z.of_nat (length u')) (Z.of_nat (length payload))); [lia|]. by destruct allow.
Qed.

(** *** A payload that was damaged *)
Lemma replay_damaged path allow payload payload' t pos lineno :
  payload_ok payload -> length payload' = length payload -> crc32 payload' 0 <> crc32 payload 0 ->
  allow = false \/ t <> [] ->
  replay_from path allow (frame_header payload ++ 10 :: payload' ++ t) pos lineno =
  ([], Raise (new_exn AOFCorruptedError (place_of path (lineno + 1) ++ lit ": checksum mismatch") None)).
Proof.
  intros Hp Hl Hc Ht.
  rewrite (replay_line path allow _ pos lineno (frame_header payload ++ [10]) (payload' ++ t)
    (frame_header payload ++ 10 :: payload') t); [|done|apply readline_line, header_line|apply header_blank|].
  2: { by rewrite read_record_header, <- Hl, take_app_length, drop_app_length, <- app_assoc. }
  change (decode_record (frame_header payload ++ 10 :: payload')) with (decode_v3 (frame_header payload ++ 10 :: payload')).
  rewrite decode_v3_payload by done. rewrite (proj2 (Z.eqb_neq _ _)) by done. cbn [value_error].
  unfold value_error. destruct Ht as [->|Ht]; [done|]. rewrite (bool_decide_false _ Ht). by destruct allow.
Qed.

(** The events of a list of commands, from the line after [lineno] on. *)
Fixpoint command_events (path : pystr) (lineno : Z) (commands : list (list pystr)) : list LoadEvent :=
  match commands with
  | [] => []
  | command :: rest => command_event (place_of path (lineno + 1)) command :: command_events path (lineno + 1) rest
  end.

Definition frames (payloads : list bytes) : bytes := mjoin (frame_record <$> payloads).

Lemma replay_records path allow payloads commands t pos lineno :
  Forall2 logged payloads commands ->
  replay_from path allow (frames payloads ++ t) pos lineno =
  let '(events, r) :=
    replay_from path allow t (pos + length (frames payloads))%nat (lineno + Z.of_nat (length payloads)) in
  (command_events path lineno commands ++ events, r).
Proof.
  intros Hall. revert pos lineno. induction Hall as [|p c ps cs Hp Hall IH]; intros pos lineno.
  - simpl. rewrite Nat.add_0_r, Z.add_0_r. by destruct (replay_from _ _ _ _ _).
  - change (frames (p :: ps)) with (frame_record p ++ frames ps). rewrite <- app_assoc, (replay_record _ _ _ c) by done.
    rewrite IH. rewrite length_app, Nat.add_assoc. simpl length. rewrite Nat2Z.inj_succ.
    replace (lineno + 1 + Z.of_nat (length ps)) with (lineno + Z.succ (Z.of_nat (length ps))) by lia.
    by destruct (replay_from _ _ _ _ _).
Qed.
End Replay.

(** * What replaying a log gives

    Properties of the record format of the append-only file: what was logged is
    what is replayed, a torn end is cut off, damage is reported, and what the
    format does not notice. *)

Section Spec.
Context (json_error : bytes -> pystr) (other_text : Json -> pystr).
#[local] Abbreviation replay := (replay_aof json_error other_text).
#[local] Abbreviation replay_from := (replay_from json_error other_text).

Lemma replay_start path allow data : replay path allow (Some data) = replay_from path allow data 0 0.
Proof. done. Qed.

(** What follows whole records. *)
Lemma replay_after path allow payloads commands t :
  Forall2 logged payloads commands ->
  replay path allow (Some (frames payloads ++ t)) =
  let '(events, r) := replay_from path allow t (length (frames payloads)) (Z.of_nat (length payloads)) in
  (command_events path 0 commands ++ events, r).
Proof. intros H. by rewrite replay_start, (replay_records _ _ _ _ _ commands). Qed.

Definition corrupted (path : pystr) (lineno : Z) (what : String.string) : exn :=
  new_exn AOFCorruptedError (place_of path lineno ++ lit ": " ++ lit what) None.

(** C23. A log is replayed as it was written.  The records of any commands come
    back as those commands, in order; a record that a crash cut short at the end
    is left out, and the offset returned is where it begins, so that it is cut
    off; in a log that may not be cut, the same is an error. *)
Theorem log_replayed path payloads commands payload u v
    (Hlog : Forall2 logged payloads commands) (Hp : payload_ok payload)
    (Hu : frame_record payload = u ++ v) (Hv : v <> []) (Hne : u <> []) :
  replay path false (Some (frames payloads)) = (command_events path 0 commands, Ok (length (frames payloads))) /\
  replay path true (Some (frames payloads ++ u)) = (command_events path 0 commands, Ok (length (frames payloads))) /\
  replay path false (Some (frames payloads ++ u)) =
    (command_events path 0 commands, Raise (corrupted path (Z.of_nat (length payloads) + 1) "incomplete record")).
Proof.
  split; [|split].
  - rewrite <- (app_nil_r (frames payloads)) at 1. rewrite (replay_after _ _ _ commands), replay_nil by done. by rewrite app_nil_r.
  - rewrite (replay_after _ _ _ commands), (replay_torn _ _ _ _ payload u v) by done. by rewrite app_nil_r.
  - rewrite (replay_after _ _ _ commands), (replay_torn _ _ _ _ payload u v) by done. by rewrite app_nil_r.
Qed.

(** C24. A damaged payload is never replayed.  Wherever in a log the payload of
    a record was changed so that its checksum does not match, the records
    before it come back and then the file is refused; only at the very end of
    the newest log it is taken for a torn record and cut off. *)
Theorem damaged_payload_refused path allow payloads commands payload payload' rest
    (Hlog : Forall2 logged payloads commands) (Hp : payload_ok payload)
    (Hlen : length payload' = length payload) (Hcrc : crc32 payload' 0 <> crc32 payload 0) :
  replay path allow (Some (frames payloads ++ frame_header payload ++ 10 :: payload' ++ rest)) =
    if allow && bool_decide (rest = []) then (command_events path 0 commands, Ok (length (frames payloads)))
    else (command_events path 0 commands, Raise (corrupted path (Z.of_nat (length payloads) + 1) "checksum mismatch")).
Proof.
  rewrite (replay_after _ _ _ commands) by done. destruct (allow && bool_decide (rest = [])) eqn:E.
  - apply andb_prop in E as [-> ->%bool_decide_eq_true]. rewrite app_nil_r.
    rewrite (replay_line _ _ _ _ _ _ _ (frame_header payload ++ [10]) payload' (frame_header payload ++ 10 :: payload') []);
      [|done|apply readline_line, header_line|apply header_blank|].
    2: { rewrite read_record_header, <- Hlen by done. rewrite take_ge, drop_ge by lia. by rewrite <- app_assoc. }
    assert (Hd : decode_record json_error other_text (frame_header payload ++ 10 :: payload') = value_error "checksum mismatch").
    { change (decode_record json_error other_text (frame_header payload ++ 10 :: payload')) with (decode_v3 (frame_header payload ++ 10 :: payload')).
      by rewrite decode_v3_payload, (proj2 (Z.eqb_neq _ _)). }
    rewrite Hd. transitivity (command_events path 0 commands ++ [], Ok (X := exn) (length (frames payloads))); [done|].
    by rewrite app_nil_r.
  - rewrite replay_damaged; [by rewrite app_nil_r|done..|].
    apply andb_false_iff in E as [->|E]; [by left|right; by apply bool_decide_eq_false in E].
Qed.

(** *** Headers with a wrong length *)
Definition header_text (crc n : Z) : bytes := 35 :: hex_text 8 crc ++ 32 :: str_of_int n.

Lemma v3_header_text crc n : 0 <= crc < 2 ^ 32 -> Z.abs n <= 2 ^ 64 -> v3_header (header_text crc n) = Ok (crc, n).
Proof.
  intros Hc Hn. unfold v3_header, header_text. cbn [drop]. rewrite drop_0.
  rewrite split_words_two; [|apply hex_unspaced|apply int_unspaced|apply hex_text_nonempty; lia|apply str_of_int_nonempty].
  rewrite py_int_hex_text by done. by rewrite (proj2 (py_int_str_of_int64 n Hn)).
Qed.

Lemma header_text_line crc n : Forall (fun c => (c =? 10) = false) (header_text crc n).
Proof.
  unfold header_text. constructor; [done|]. apply Forall_app. split.
  - eapply Forall_impl; [apply hex_text_hex|]. unfold is_hex. intros c Hc. lia.
  - constructor; [done|]. apply str_of_int_chars. intros c Hc. lia.
Qed.

Lemma decode_wrong_length crc n data :
  0 <= crc < 2 ^ 32 -> Z.abs n <= 2 ^ 64 -> Z.of_nat (length data) <> n ->
  decode_record json_error other_text (header_text crc n ++ 10 :: data) = value_error "incomplete record".
Proof.
  intros Hc Hn Hl. change (decode_record json_error other_text (header_text crc n ++ 10 :: data)) with (decode_v3 (header_text crc n ++ 10 :: data)).
  unfold decode_v3. rewrite find_char_line by apply header_text_line. rewrite take_app_length, v3_header_text by done.
  cbv zeta. change (10 :: data) with ([10] ++ data). rewrite app_assoc, drop_app_length' by (rewrite length_app; simpl; lia).
  by destruct (Z.eqb_spec (Z.of_nat (length data)) n).
Qed.

Lemma read_oversized crc n rest :
  0 <= crc < 2 ^ 32 -> Z.of_nat (length rest) < n < 2 ^ 63 ->
  read_record (header_text crc n ++ [10]) rest = Ok (header_text crc n ++ 10 :: rest, []).
Proof.
  intros Hc Hn. unfold read_record. unfold header_text at 1. cbn [app].
  change (35 :: (hex_text 8 crc ++ 32 :: str_of_int n) ++ [10]) with (header_text crc n ++ [10]).
  rewrite rstrip_line, v3_header_text by (apply header_text_line || lia). unfold read_bytes.
  replace ((n <? - 2 ^ 63) || (2 ^ 63 <=? n)) with false by lia. destruct (Z.ltb_spec n 0); [lia|].
  rewrite take_ge, drop_ge by lia. by rewrite <- app_assoc.
Qed.

(** C39. Damage to the length of a record in the newest log goes unnoticed, and
    costs everything after it: if the length in a header was changed to more
    than the file has left, the record is taken for a torn one and it and every
    intact record after it are cut off, without an error. *)
Theorem damaged_length_unnoticed path payloads commands crc n payload later
    (Hlog : Forall2 logged payloads commands) (Hc : 0 <= crc < 2 ^ 32)
    (Hn : Z.of_nat (length (payload ++ frames later)) < n < 2 ^ 63) :
  replay path true (Some (frames payloads ++ header_text crc n ++ 10 :: payload ++ frames later)) =
    (command_events path 0 commands, Ok (length (frames payloads))).
Proof.
  rewrite (replay_after _ _ _ commands) by done. set (rest := payload ++ frames later) in *.
  rewrite (replay_line _ _ _ _ _ _ _ (header_text crc n ++ [10]) rest (header_text crc n ++ 10 :: rest) []).
  - rewrite decode_wrong_length by lia.
    transitivity (command_events path 0 commands ++ [], Ok (X := exn) (length (frames payloads))); [done|]. by rewrite app_nil_r.
  - done.
  - apply readline_line, header_text_line.
  - by apply not_blank.
  - by apply read_oversized.
Qed.

(** *** Records the parser refuses *)
Lemma next_oversized args raw :
  Forall (arg_fits DEFAULT_MAX_BULK) args -> MAX_ARRAY < Z.of_nat (length args) <= 2 ^ 64 -> encode_command args = Ok raw ->
  (next_command (feed raw (new_parser DEFAULT_MAX_BULK))).1 = Raise (err ProtocolError "invalid multibulk length").
Proof.
  intros Ha Hn E. destruct (concat_args_ok _ args Ha) as (datas & Ed & _). unfold encode_command in E. rewrite Ed in E.
  assert (raw = head_line 42 (Z.of_nat (length args)) ++ (datas ≫= bulk)) as -> by congruence.
  set (n := Z.of_nat (length args)) in *. unfold MAX_ARRAY in Hn.
  pose proof (received_feed DEFAULT_MAX_BULK [] (head_line 42 n ++ (datas ≫= bulk)) _ (received_new _)) as Hr.
  destruct (received_next _ _ _ Hr) as (r & p' & -> & _ & _ & Ev & _). rewrite app_nil_l in Ev. cbn [fst].
  destruct (head_line_parse 42 n (datas ≫= bulk) ltac:(lia) ltac:(lia)) as (e & Ef & Ei & _ & Eh).
  set (u := head_line 42 n ++ (datas ≫= bulk)) in *. clearbody u. destruct u as [|c u]; [done|]. injection Eh as -> _.
  unfold next_view in Ev. cbn [v_unread v_pending v_remaining] in Ev. change (negb (42 =? 42)) with false in Ev.
  cbn iota in Ev. rewrite Ef, Ei in Ev. destruct (Z.leb_spec n 0); [lia|].
  destruct (Z.ltb_spec MAX_ARRAY n); [|unfold MAX_ARRAY in *; lia]. congruence.
Qed.

(** C40. A log with a command of more arguments than a client may send cannot be
    replayed: the record itself is intact, but reading it back raises
    [ProtocolError], which is none of the errors replay handles, so a node that
    has logged one (an [SPOP] of a million members does) does not start again. *)
Theorem long_record_unreadable path allow payloads commands args payload rest
    (Hlog : Forall2 logged payloads commands) (Hargs : Forall (arg_fits DEFAULT_MAX_BULK) args)
    (Hn : MAX_ARRAY < Z.of_nat (length args) <= 2 ^ 64) (Henc : encode_command args = Ok payload)
    (Hp : payload_ok payload) :
  replay path allow (Some (frames payloads ++ frame_record payload ++ rest)) =
    (command_events path 0 commands, Raise (err ProtocolError "invalid multibulk length")).
Proof.
  rewrite (replay_after _ _ _ commands) by done.
  rewrite (replay_line _ _ _ _ _ _ _ (frame_header payload ++ [10]) (payload ++ rest) (frame_record payload) rest).
  - change (decode_record json_error other_text (frame_record payload)) with (decode_v3 (frame_record payload)).
    unfold frame_record. rewrite decode_v3_payload, Z.eqb_refl, (next_oversized args) by done. simpl. by rewrite app_nil_r.
  - done.
  - unfold frame_record. rewrite <- app_assoc. cbn [app]. apply readline_line, header_line.
  - apply header_blank.
  - by apply read_record_frame.
Qed.
End Spec.

(** ** Examples *)
Lemma bytes_ok b : forallb (fun b => (0 <=? b) && (b <? 256)) b = true -> Forall is_byte b.
Proof.
  intros Hb. apply Forall_forall. intros c Hin. rewrite forallb_forall in Hb. apply list_elem_of_In, Hb in Hin. unfold is_byte. lia.
Qed.

Lemma request_logged args payload :
  request_fits DEFAULT_MAX_BULK args -> encode_command args = Ok payload ->
  forallb (fun b => (0 <=? b) && (b <? 256)) payload = true -> Z.of_nat (length payload) < 2 ^ 63 ->
  arg_text <$> args <> [] -> logged payload (arg_text <$> args).
Proof.
  intros Hf E Hb Hl Hne. destruct (request_framed DEFAULT_MAX_BULK args Hf) as (raw & Hraw & Hr & _).
  rewrite E in Hraw. injection Hraw as <-. split; [|done]. split; [|done]. by apply bytes_ok.
Qed.

(** [SET k v]. *)
Definition sample_set (k : pystr) : list PyArg := [AStr (lit "SET"); AStr k; AStr (lit "v")].
Definition sample_payload (k : pystr) : bytes := match encode_command (sample_set k) with Ok b => b | Raise _ => [] end.

Local Ltac fits := eexists; split; [vm_compute; reflexivity|]; split; [vm_compute; reflexivity|]; split; by vm_compute.

Lemma sample_logged k : k ∈ [lit "a"; lit "b"; lit "c"] -> logged (sample_payload k) (arg_text <$> sample_set k).
Proof.
  rewrite !elem_of_cons, elem_of_nil. intros Hk. apply (request_logged (sample_set k)).
  2-5: destruct Hk as [->|[->|[->|[]]]]; by vm_compute.
  split; [done|split; [by vm_compute|]]. destruct Hk as [->|[->|[->|[]]]];
    repeat (apply Forall_cons; split); try (by apply Forall_nil); fits.
Qed.

Definition no_text {A} (_ : A) : pystr := [].
Definition sample_log : list bytes := [sample_payload (lit "a"); sample_payload (lit "b")].
Definition sample_commands : list (list pystr) := [arg_text <$> sample_set (lit "a"); arg_text <$> sample_set (lit "b")].

Lemma sample_log_logged : Forall2 logged sample_log sample_commands.
Proof. do 2 (apply Forall2_cons; split; [apply sample_logged; set_solver|]). apply Forall2_nil. done. Qed.

Lemma sample_ok : payload_ok (sample_payload (lit "c")).
Proof. destruct (sample_logged (lit "c")) as [H _]; [set_solver|exact H]. Qed.

Lemma log_replayed_witness :
  let u := take 12 (frame_record (sample_payload (lit "c"))) in
  replay_aof no_text no_text (lit "log") false (Some (frames sample_log)) =
    (command_events (lit "log") 0 sample_commands, Ok (length (frames sample_log))) /\
  replay_aof no_text no_text (lit "log") true (Some (frames sample_log ++ u)) =
    (command_events (lit "log") 0 sample_commands, Ok (length (frames sample_log))) /\
  replay_aof no_text no_text (lit "log") false (Some (frames sample_log ++ u)) =
    (command_events (lit "log") 0 sample_commands, Raise (corrupted (lit "log") 3 "incomplete record")).
Proof.
  apply (log_replayed no_text no_text (lit "log") sample_log sample_commands (sample_payload (lit "c"))
    (take 12 (frame_record (sample_payload (lit "c")))) (drop 12 (frame_record (sample_payload (lit "c"))))).
  - apply sample_log_logged.
  - apply sample_ok.
  - by rewrite take_drop.
  - by vm_compute.
  - by vm_compute.
Defined.

Lemma damaged_payload_refused_witness :
  let payload := sample_payload (lit "c") in
  replay_aof no_text no_text (lit "log") true
    (Some (frames sample_log ++ frame_header payload ++ 10 :: sample_payload (lit "d") ++ frames sample_log)) =
  (command_events (lit "log") 0 sample_commands, Raise (corrupted (lit "log") 3 "checksum mismatch")).
Proof.
  apply (damaged_payload_refused no_text no_text (lit "log") true sample_log sample_commands (sample_payload (lit "c"))
    (sample_payload (lit "d")) (frames sample_log)).
  - apply sample_log_logged.
  - apply sample_ok.
  - by vm_compute.
  - by vm_compute.
Defined.

(** The length 27 of a record read as 927. *)
Lemma damaged_length_unnoticed_witness :
  let payload := sample_payload (lit "c") in
  replay_aof no_text no_text (lit "log") true
    (Some (frames sample_log ++ header_text (crc32 payload 0) 927 ++ 10 :: payload ++ frames sample_log)) =
  (command_events (lit "log") 0 sample_commands, Ok (length (frames sample_log))).
Proof.
  apply (damaged_length_unnoticed no_text no_text (lit "log") sample_log sample_commands
    (crc32 (sample_payload (lit "c")) 0) 927 (sample_payload (lit "c")) sample_log).
  - apply sample_log_logged.
  - split; by vm_compute.
  - split; by vm_compute.
Defined.

(** [SREM s a a a ...]. *)
Definition long_args (n : nat) : list PyArg := AStr (lit "SREM") :: AStr (lit "s") :: replicate n (AStr (lit "a")).
Definition long_payload (n : nat) : bytes :=
  head_line 42 (2 + Z.of_nat n) ++ bulk (lit "SREM") ++ bulk (lit "s") ++ mjoin (replicate n (bulk (lit "a"))).

Lemma concat_replicate n a b : encode_arg a = Ok b -> concat_ok encode_arg (replicate n a) = Ok (mjoin (replicate n b)).
Proof. intros E. induction n as [|n IH]; [done|]. cbn [replicate concat_ok]. by rewrite E, IH. Qed.

Lemma long_args_length n : Z.of_nat (length (long_args n)) = 2 + Z.of_nat n.
Proof. unfold long_args. cbn [length]. rewrite length_replicate. lia. Qed.

Lemma long_encoded n : encode_command (long_args n) = Ok (long_payload n).
Proof.
  unfold encode_command. rewrite long_args_length. unfold long_args. cbn [concat_ok].
  by rewrite (concat_replicate n _ (bulk (lit "a"))).
Qed.

Lemma join_replicate {A} n (b : list A) : length (mjoin (replicate n b)) = (n * length b)%nat.
Proof. induction n as [|n IH]; [done|]. change (length (b ++ mjoin (replicate n b)) = (S n * length b)%nat). rewrite length_app, IH. lia. Qed.

Lemma long_payload_ok n : Z.of_nat n = MAX_ARRAY - 1 -> payload_ok (long_payload n).
Proof.
  intros Hn. unfold long_payload. rewrite Hn. unfold MAX_ARRAY in *. split.
  - apply Forall_app. split; [by apply bytes_ok; vm_compute|]. apply Forall_app. split; [by apply bytes_ok; vm_compute|].
    apply Forall_app. split; [by apply bytes_ok; vm_compute|]. apply Forall_join, Forall_replicate. by apply bytes_ok; vm_compute.
  - rewrite !length_app, join_replicate.
    change (length (bulk (lit "a"))) with 7%nat. change (length (bulk (lit "s"))) with 7%nat. change (length (bulk (lit "SREM"))) with 10%nat.
    pose proof (head_line_short 42 (2 + (1024 * 1024 - 1)) ltac:(lia)). lia.
Qed.

Lemma long_args_fit n : Forall (arg_fits DEFAULT_MAX_BULK) (long_args n).
Proof.
  unfold long_args. apply Forall_cons. split; [fits|]. apply Forall_cons. split; [fits|]. apply Forall_replicate. fits.
Qed.

(** One argument more than a client may send. *)
Lemma long_record_unreadable_witness : exists n, Z.of_nat (length (long_args n)) = MAX_ARRAY + 1 /\
  replay_aof no_text no_text (lit "log") true (Some (frames sample_log ++ frame_record (long_payload n) ++ [])) =
    (command_events (lit "log") 0 sample_commands, Raise (err ProtocolError "invalid multibulk length")).
Proof.
  assert (Hmany : exists n, Z.of_nat n = MAX_ARRAY - 1) by (exists (Z.to_nat (MAX_ARRAY - 1)); apply Z2Nat.id; by vm_compute).
  destruct Hmany as [n Hn]. exists n. split; [rewrite long_args_length; lia|].
  apply (long_record_unreadable no_text no_text (lit "log") true sample_log sample_commands (long_args n) (long_payload n) []).
  - apply sample_log_logged.
  - apply long_args_fit.
  - rewrite long_args_length, Hn. split; by vm_compute.
  - apply long_encoded.
  - by apply long_payload_ok.
Defined.
