(* ===== verification/Disk.v ===== *)
(** * The data directory

    What the operating system holds of a directory of files, and the calls the
    persistence layer makes on it.  A file's data is what [write] handed over;
    its first [f_synced] bytes have been forced to the medium by [fsync].  The
    directory itself is on the medium as it was at the last [fsync] of it.

    Every call that changes the disk leaves the disk it produced, and those a
    crash in the middle of the call would leave, on the trace [io_trace].  A
    call may fail with [OSError], and a write may do so half way: the outcome
    of call number [n] is [io_outcome n]. *)

From Stdlib Require Import String.
From S2P Require Import Prelude PyStr PyFloat Codec Errors Snapshot.
Local Close Scope string_scope.

(** ** Files and the directory *)
Record File := mkFile { f_data : bytes; f_synced : nat }.

Record Disk := mkDisk {
  d_dir : list (pystr * nat);
  d_saved : list (pystr * nat);
  d_inodes : list File
}.

Definition empty_disk : Disk := mkDisk [] [] [].

Definition inode_of (d : Disk) (name : pystr) : option nat := dict_get name (d_dir d).
Definition file_of (d : Disk) (name : pystr) : option File := i ← inode_of d name; d_inodes d !! i.
Definition data_of (d : Disk) (name : pystr) : option bytes := f_data <$> file_of d name.

(** [open(name, "wb")]: an existing file is emptied. *)
Definition d_create (name : pystr) (d : Disk) : Disk :=
  match inode_of d name with
  | Some i => mkDisk (d_dir d) (d_saved d) (<[i := mkFile [] 0]> (d_inodes d))
  | None => mkDisk (dict_set name (length (d_inodes d)) (d_dir d)) (d_saved d) (d_inodes d ++ [mkFile [] 0])
  end.

(** [open(name, "ab")]. *)
Definition d_open (name : pystr) (d : Disk) : Disk :=
  match inode_of d name with
  | Some _ => d
  | None => mkDisk (dict_set name (length (d_inodes d)) (d_dir d)) (d_saved d) (d_inodes d ++ [mkFile [] 0])
  end.

Definition on_inode (i : nat) (f : File -> File) (d : Disk) : Disk :=
  mkDisk (d_dir d) (d_saved d) (alter f i (d_inodes d)).

Definition d_append (i : nat) (data : bytes) : Disk -> Disk :=
  on_inode i (fun f => mkFile (f_data f ++ data) (f_synced f)).
Definition d_sync (i : nat) : Disk -> Disk := on_inode i (fun f => mkFile (f_data f) (length (f_data f))).
Definition d_truncate (i : nat) (n : nat) : Disk -> Disk :=
  on_inode i (fun f => mkFile (take n (f_data f)) (f_synced f `min` n)).

(** [os.replace(src, dst)]. *)
Definition d_replace (src dst : pystr) (d : Disk) : Disk :=
  match inode_of d src with
  | Some i => mkDisk (dict_set dst i (dict_pop src (d_dir d))) (d_saved d) (d_inodes d)
  | None => d
  end.

Definition d_unlink (name : pystr) (d : Disk) : Disk := mkDisk (dict_pop name (d_dir d)) (d_saved d) (d_inodes d).

Definition d_sync_dir (d : Disk) : Disk := mkDisk (d_dir d) (d_dir d) (d_inodes d).

(** ** Power loss

    Of every name the entry last forced to the medium is left, or the current
    one; of every file what was forced and some of the rest. *)
Definition power_loss (d d' : Disk) : Prop :=
  (forall name, inode_of d' name = inode_of d name \/ inode_of d' name = dict_get name (d_saved d)) /\
  length (d_inodes d') = length (d_inodes d) /\
  (forall i f, d_inodes d !! i = Some f ->
     exists n, (f_synced f <= n)%nat /\ d_inodes d' !! i = Some (mkFile (take n (f_data f)) (f_synced f))).

(** ** Calls *)

(** How many bytes a write gets through, and the error it ends with. *)
Record Outcome := mkOutcome { oc_bytes : nat; oc_error : option pystr }.
Definition no_error : Outcome := mkOutcome 0 None.

Record IO := mkIO {
  io_disk : Disk;
  io_trace : list Disk;
  io_outcome : nat -> Outcome;
  io_pos : nat
}.

Abbreviation IOM := (M exn IO).

Definition os_error (text : pystr) : exn := new_exn OSError text None.

Definition io_next : IOM Outcome :=
  fun s => (Ok (io_outcome s (io_pos s)), mkIO (io_disk s) (io_trace s) (io_outcome s) (S (io_pos s))).

Definition io_set (f : Disk -> Disk) : IOM unit :=
  modifyM (fun s => let d := f (io_disk s) in mkIO d (d :: io_trace s) (io_outcome s) (io_pos s)).

(** A call that is done or not at all. *)
Definition io_call (f : Disk -> Disk) : IOM unit :=
  let! o := io_next in
  match oc_error o with Some text => raise (os_error text) | None => io_set f end.

(** [data] reaches the file, byte after byte. *)
Definition io_append (i : nat) (data : bytes) : IOM unit :=
  modifyM (fun s =>
    let d := io_disk s in
    let cut n := d_append i (take n data) d in
    mkIO (d_append i data d) (map cut (reverse (seq 0 (S (length data)))) ++ io_trace s) (io_outcome s) (io_pos s)).

(** [write] of all of [data], or of part of it and an error. *)
Definition io_write (i : nat) (data : bytes) : IOM unit :=
  let! o := io_next in
  match oc_error o with
  | Some text => io_append i (take (oc_bytes o) data);; raise (os_error text)
  | None => io_append i data
  end.

(** The file [name], opened for writing. *)
Definition io_inode (name : pystr) : IOM nat :=
  let! s := getM in
  match inode_of (io_disk s) name with
  | Some i => ret i
  | None => raise (os_error (lit "No such file or directory"))
  end.

Definition io_create (name : pystr) : IOM nat := io_call (d_create name);; io_inode name.
Definition io_open (name : pystr) : IOM nat := io_call (d_open name);; io_inode name.
Definition io_sync (i : nat) : IOM unit := io_call (d_sync i).
Definition io_replace (src dst : pystr) : IOM unit := io_call (d_replace src dst).

(** [fsync_dir] ignores errors. *)
Definition fsync_dir : IOM unit :=
  let! o := io_next in
  match oc_error o with Some _ => ret tt | None => io_set d_sync_dir end.

Definition io_read (name : pystr) : IOM (option bytes) := readM (fun s => data_of (io_disk s) name).

(** A new file under its final name only once it is whole and on the medium:
    how snapshots and manifests are written. *)
Definition write_atomically (name : pystr) (data : bytes) (fails : option exn) : IOM unit :=
  let tmp := name ++ lit ".tmp" in
  let! i := io_create tmp in
  io_write i data;;
  match fails with
  | Some x => raise x
  | None =>
      io_sync i;;
      io_replace tmp name;;
      fsync_dir
  end.

(** * What the calls on the data directory do to its files *)

(** Every name has a file, and no two names share one. *)
Definition disk_wf (d : Disk) : Prop :=
  dict_wf (d_dir d) /\
  (forall x i, inode_of d x = Some i -> (i < length (d_inodes d))%nat) /\
  (forall x y i, inode_of d x = Some i -> inode_of d y = Some i -> x = y).

(** Outside [l] the files are the same. *)
Definition same_but (l : list pystr) (d d' : Disk) : Prop :=
  forall x, x ∉ l -> inode_of d' x = inode_of d x /\ data_of d' x = data_of d x.

Lemma same_but_refl l d : same_but l d d.
Proof. by intros x _. Qed.

Lemma same_but_trans l d1 d2 d3 : same_but l d1 d2 -> same_but l d2 d3 -> same_but l d1 d3.
Proof. intros H1 H2 x Hx. destruct (H1 x Hx), (H2 x Hx). split; congruence. Qed.

Lemma same_but_weaken l l' d d' : l ⊆ l' -> same_but l d d' -> same_but l' d d'.
Proof. intros Hl H x Hx. apply H. set_solver. Qed.

#[export] Hint Resolve same_but_refl : core.

Section Calls.
Context (d : Disk) (Hwf : disk_wf d).

Lemma data_inode x i : inode_of d x = Some i -> data_of d x = f_data <$> d_inodes d !! i.
Proof. intros E. unfold data_of, file_of. by rewrite E. Qed.

Lemma inode_data x i : inode_of d x = Some i -> exists b, data_of d x = Some b.
Proof.
  intros E. rewrite (data_inode x i E). destruct Hwf as (_ & Hr & _).
  destruct (lookup_lt_is_Some_2 _ _ (Hr x i E)) as [f ->]. by eexists.
Qed.

Lemma no_inode x : inode_of d x = None <-> data_of d x = None.
Proof.
  unfold data_of, file_of. destruct (inode_of d x) as [i|] eqn:E; [|done]. split; [done|].
  destruct Hwf as (_ & Hr & _). destruct (lookup_lt_is_Some_2 _ _ (Hr x i E)) as [f Hf]. simpl. by rewrite Hf.
Qed.

(** *** A new file *)
Lemma fresh_inode x : inode_of d x <> Some (length (d_inodes d)).
Proof. intros E. destruct Hwf as (_ & Hr & _). specialize (Hr x _ E). lia. Qed.

Lemma added_file name :
  inode_of d name = None ->
  let d' := mkDisk (dict_set name (length (d_inodes d)) (d_dir d)) (d_saved d) (d_inodes d ++ [mkFile [] 0]) in
  disk_wf d' /\ inode_of d' name = Some (length (d_inodes d)) /\ data_of d' name = Some [] /\ same_but [name] d d'.
Proof.
  intros E d'. pose proof Hwf as (Hd & Hr & Hi).
  assert (Hino : forall x, inode_of d' x = if decide (x = name) then Some (length (d_inodes d)) else inode_of d x)
    by (intros x; apply dict_get_set).
  split; [split; [by apply dict_set_wf|split]|split; [|split]].
  - intros x i. rewrite Hino. simpl. rewrite length_app. simpl. case_decide; [intros [= <-]; lia|].
    intros Hx. specialize (Hr x i Hx). lia.
  - intros x y i. rewrite !Hino. repeat case_decide; subst; try done.
    + intros [= <-] Hy. by destruct (fresh_inode y).
    + intros Hx [= <-]. by destruct (fresh_inode x).
    + apply Hi.
  - by rewrite Hino, decide_True.
  - unfold data_of, file_of. rewrite Hino, decide_True by done. simpl. by rewrite lookup_app_r, Nat.sub_diag.
  - intros x Hx. assert (x <> name) by set_solver. unfold data_of, file_of. rewrite Hino, decide_False by done.
    split; [done|]. destruct (inode_of d x) as [i|] eqn:Ex; [|done]. simpl.
    by rewrite lookup_app_l by (by eapply Hr).
Qed.

Lemma open_spec name :
  disk_wf (d_open name d) /\ (exists i, inode_of (d_open name d) name = Some i) /\
  data_of (d_open name d) name = Some (default [] (data_of d name)) /\ same_but [name] d (d_open name d).
Proof.
  unfold d_open. destruct (inode_of d name) as [i|] eqn:E.
  - destruct (inode_data name i E) as [b Hb]. rewrite Hb. eauto.
  - destruct (added_file name E) as (H1 & H2 & H3 & H4). rewrite (proj1 (no_inode name) E). eauto.
Qed.

(** *** The data of one file *)
Lemma on_inode_spec name i f g :
  inode_of d name = Some i -> (forall x, f_data (f x) = g (f_data x)) ->
  disk_wf (on_inode i f d) /\ (forall x, inode_of (on_inode i f d) x = inode_of d x) /\
  data_of (on_inode i f d) name = g <$> data_of d name /\ same_but [name] d (on_inode i f d).
Proof.
  intros E Hg. pose proof Hwf as (Hd & Hr & Hi). split; [|split; [done|split]].
  - split; [done|]. split; [|done]. intros x j Hx. simpl. rewrite length_alter. by eapply Hr.
  - unfold data_of, file_of. change (inode_of (on_inode i f d) name) with (inode_of d name). rewrite E. simpl.
    rewrite list_lookup_alter, decide_True by done. destruct (d_inodes d !! i); simpl; [by rewrite Hg|done].
  - intros x Hx. split; [done|]. unfold data_of, file_of. change (inode_of (on_inode i f d) x) with (inode_of d x).
    destruct (inode_of d x) as [j|] eqn:Ex; [|done]. simpl. rewrite list_lookup_alter_ne; [done|].
    intros ->. apply Hx. rewrite (Hi x name j Ex E). set_solver.
Qed.

Lemma append_spec name i b :
  inode_of d name = Some i ->
  disk_wf (d_append i b d) /\ (forall x, inode_of (d_append i b d) x = inode_of d x) /\
  data_of (d_append i b d) name = (fun a => a ++ b) <$> data_of d name /\ same_but [name] d (d_append i b d).
Proof. intros E. by apply (on_inode_spec name i _ (fun a => a ++ b) E). Qed.

Lemma sync_any i : disk_wf (d_sync i d) /\ same_but [] d (d_sync i d).
Proof.
  pose proof Hwf as (Hd & Hr & Hi). split.
  - split; [done|]. split; [|done]. intros x j Hx. simpl. rewrite length_alter. by eapply Hr.
  - intros x _. split; [done|]. unfold data_of, file_of. change (inode_of (d_sync i d) x) with (inode_of d x).
    destruct (inode_of d x) as [j|]; [|done]. simpl. rewrite list_lookup_alter. case_decide as E; [|done].
    subst. by destruct (d_inodes d !! j).
Qed.

Lemma sync_spec name i :
  inode_of d name = Some i -> disk_wf (d_sync i d) /\ same_but [] d (d_sync i d).
Proof. intros _. apply sync_any. Qed.

Lemma truncate_spec name i n :
  inode_of d name = Some i ->
  disk_wf (d_truncate i n d) /\ (forall x, inode_of (d_truncate i n d) x = inode_of d x) /\
  data_of (d_truncate i n d) name = take n <$> data_of d name /\ same_but [name] d (d_truncate i n d).
Proof. intros E. by apply (on_inode_spec name i _ (take n) E). Qed.

Lemma create_spec name :
  disk_wf (d_create name d) /\ (exists i, inode_of (d_create name d) name = Some i) /\
  data_of (d_create name d) name = Some [] /\ same_but [name] d (d_create name d).
Proof.
  unfold d_create. destruct (inode_of d name) as [i|] eqn:E.
  - destruct (on_inode_spec name i (fun _ => mkFile [] 0) (fun _ => []) E) as (H1 & H2 & H3 & H4); [done|].
    assert (He : <[i := mkFile [] 0]> (d_inodes d) = alter (fun _ => mkFile [] 0) i (d_inodes d)).
    { apply list_eq. intros j. destruct (decide (i = j)) as [<-|Hj].
      - rewrite list_lookup_alter, decide_True by done. destruct Hwf as (_ & Hr & _).
        rewrite list_lookup_insert_eq by (by eapply Hr). destruct (lookup_lt_is_Some_2 _ _ (Hr name i E)) as [f ->]. done.
      - by rewrite list_lookup_alter_ne, list_lookup_insert_ne. }
    rewrite He. change (mkDisk (d_dir d) (d_saved d) (alter ?f i (d_inodes d))) with (on_inode i f d).
    split; [done|]. split; [exists i; by rewrite H2|]. split; [|done]. rewrite H3.
    by destruct (inode_data name i E) as [b ->].
  - destruct (added_file name E) as (H1 & H2 & H3 & H4). eauto.
Qed.

(** *** Names *)
Lemma unlink_spec name :
  disk_wf (d_unlink name d) /\ data_of (d_unlink name d) name = None /\ same_but [name] d (d_unlink name d).
Proof.
  pose proof Hwf as (Hd & Hr & Hi).
  assert (Hino : forall x, inode_of (d_unlink name d) x = if decide (x = name) then None else inode_of d x).
  { intros x. unfold inode_of, d_unlink. simpl. by rewrite dict_get_pop. }
  split; [split; [by apply dict_pop_wf|split]|split].
  - intros x i. rewrite Hino. case_decide; [done|]. apply Hr.
  - intros x y i. rewrite !Hino. repeat case_decide; try done. apply Hi.
  - unfold data_of, file_of. by rewrite Hino, decide_True.
  - intros x Hx. unfold data_of, file_of. by rewrite Hino, decide_False by set_solver.
Qed.

Lemma replace_spec src dst b :
  src <> dst -> data_of d src = Some b ->
  disk_wf (d_replace src dst d) /\ data_of (d_replace src dst d) dst = Some b /\
  data_of (d_replace src dst d) src = None /\ same_but [src; dst] d (d_replace src dst d).
Proof.
  intros Hne Hb. pose proof Hwf as (Hd & Hr & Hi). unfold d_replace.
  destruct (inode_of d src) as [i|] eqn:E; [|apply no_inode in E; congruence].
  set (d' := mkDisk _ _ _).
  assert (Hino : forall x, inode_of d' x = if decide (x = dst) then Some i else if decide (x = src) then None else inode_of d x).
  { intros x. unfold inode_of, d'. simpl. rewrite dict_get_set. case_decide; [done|]. by rewrite dict_get_pop. }
  split; [split; [by apply dict_set_wf, dict_pop_wf|split]|split; [|split]].
  - intros x j. rewrite Hino. repeat case_decide; [intros [= <-]; by eapply Hr|done|apply Hr].
  - intros x y j. rewrite !Hino. repeat case_decide; subst; try done; [| |apply Hi].
    + intros [= <-] Hy. by destruct (Hi y src i Hy E).
    + intros Hx [= <-]. by destruct (Hi x src i Hx E).
  - unfold data_of, file_of. rewrite Hino, decide_True by done. simpl. by rewrite <- (data_inode src i E).
  - unfold data_of, file_of. by rewrite Hino, decide_False, decide_True.
  - intros x Hx. unfold data_of, file_of. by rewrite Hino, !decide_False by set_solver.
Qed.

Lemma sync_dir_spec : disk_wf (d_sync_dir d) /\ same_but [] d (d_sync_dir d).
Proof. split; [exact Hwf|]. by intros x _. Qed.
End Calls.

Lemma same_but_data l d d' x : same_but l d d' -> x ∉ l -> data_of d' x = data_of d x.
Proof. intros H Hx. by apply H. Qed.

Lemma same_but_inode l d d' x : same_but l d d' -> x ∉ l -> inode_of d' x = inode_of d x.
Proof. intros H Hx. by apply H. Qed.

(** * Reasoning about sequences of calls

    [runs c s J Q]: from [s], the call [c] ends with a result and a disk of
    [Q], and every disk it went through, which a crash may leave, is in [J]. *)

Definition along (J : Disk -> Prop) (s s' : IO) : Prop :=
  (exists new, io_trace s' = new ++ io_trace s /\ Forall J new) /\ io_outcome s' = io_outcome s.

Lemma along_refl J s : along J s s.
Proof. split; [by exists []|done]. Qed.

Lemma along_trans J s1 s2 s3 : along J s1 s2 -> along J s2 s3 -> along J s1 s3.
Proof.
  intros [(l1 & E1 & H1) O1] [(l2 & E2 & H2) O2]. split; [|congruence]. exists (l2 ++ l1). rewrite E2, E1, app_assoc.
  split; [done|]. by apply Forall_app.
Qed.

Lemma along_impl (J J' : Disk -> Prop) s s' : (forall d, J d -> J' d) -> along J s s' -> along J' s s'.
Proof. intros H [(l & E & Hl) O]. split; [|done]. exists l. split; [done|]. by eapply Forall_impl. Qed.

(** No call fails. *)
Definition calm (s : IO) : Prop := forall n, oc_error (io_outcome s n) = None.

Definition runs {A} (c : IOM A) (s : IO) (J : Disk -> Prop) (Q : result exn A -> Disk -> Prop) : Prop :=
  along J s (c s).2 /\ Q (c s).1 (io_disk (c s).2).

Section Rules.
Context {A : Type}.
Implicit Types (J : Disk -> Prop) (Q : result exn A -> Disk -> Prop).

Lemma runs_ret (a : A) s J Q : Q (Ok a) (io_disk s) -> runs (ret a) s J Q.
Proof. intros H. split; [apply along_refl|done]. Qed.

Lemma runs_raise x s J Q : Q (Raise x) (io_disk s) -> runs (raise x) s J Q.
Proof. intros H. split; [apply along_refl|done]. Qed.

Lemma runs_bind {B} (c : IOM B) (f : B -> IOM A) s J Q :
  runs c s J (fun r d => match r with
                         | Ok b => forall s', io_disk s' = d -> runs (f b) s' J Q
                         | Raise x => Q (Raise x) d
                         end) -> runs (bindM c f) s J Q.
Proof.
  intros [Ha Hq]. unfold runs, bindM. destruct (c s) as [[b|x] s1]; simpl in *; [|done].
  destruct (Hq s1 eq_refl) as [Ha' Hq']. split; [by eapply along_trans|done].
Qed.

Lemma runs_mono (c : IOM A) s J J' Q Q' :
  runs c s J Q -> (forall d, J d -> J' d) -> (forall r d, Q r d -> Q' r d) -> runs c s J' Q'.
Proof. intros [Ha Hq] HJ HQ. split; [by eapply along_impl|auto]. Qed.
End Rules.

Lemma runs_call_calm f s J (Q : result exn unit -> Disk -> Prop) :
  J (f (io_disk s)) -> Q (Ok tt) (f (io_disk s)) -> (~ calm s -> forall text, Q (Raise (os_error text)) (io_disk s)) ->
  runs (io_call f) s J Q.
Proof.
  intros HJ HQ Hx. unfold io_call, io_next. unfold runs, bindM. destruct (oc_error _) as [text|] eqn:E; simpl.
  - split; [split; [by exists []|done]|]. apply Hx. intros Hc. by rewrite Hc in E.
  - split; [|done]. split; [|done]. eexists [_]. split; [done|]. by constructor.
Qed.

Lemma runs_call f s J (Q : result exn unit -> Disk -> Prop) :
  J (f (io_disk s)) -> Q (Ok tt) (f (io_disk s)) -> (forall text, Q (Raise (os_error text)) (io_disk s)) ->
  runs (io_call f) s J Q.
Proof. intros HJ HQ Hx. apply runs_call_calm; auto. Qed.

Lemma runs_fsync_dir s J (Q : result exn unit -> Disk -> Prop) :
  J (d_sync_dir (io_disk s)) -> Q (Ok tt) (d_sync_dir (io_disk s)) -> Q (Ok tt) (io_disk s) ->
  runs fsync_dir s J Q.
Proof.
  intros HJ HQ Hx. unfold fsync_dir, io_next. unfold runs, bindM. destruct (oc_error _) as [text|]; simpl.
  - split; [split; [by exists []|done]|done].
  - split; [|done]. split; [|done]. eexists [_]. split; [done|]. by constructor.
Qed.

Lemma runs_inode name i s J (Q : result exn nat -> Disk -> Prop) :
  inode_of (io_disk s) name = Some i -> Q (Ok i) (io_disk s) -> runs (io_inode name) s J Q.
Proof. intros E HQ. unfold runs, io_inode, bindM, getM. rewrite E. split; [apply along_refl|done]. Qed.

Lemma runs_append i data s J (Q : result exn unit -> Disk -> Prop) :
  (forall n, J (d_append i (take n data) (io_disk s))) -> Q (Ok tt) (d_append i data (io_disk s)) ->
  runs (io_append i data) s J Q.
Proof.
  intros HJ HQ. split; [|done]. split; [|done]. eexists. split; [done|]. apply Forall_fmap, Forall_reverse, Forall_forall.
  intros n _. apply HJ.
Qed.

Lemma runs_write i data s J (Q : result exn unit -> Disk -> Prop) :
  (forall n, J (d_append i (take n data) (io_disk s))) -> Q (Ok tt) (d_append i data (io_disk s)) ->
  (forall n text, Q (Raise (os_error text)) (d_append i (take n data) (io_disk s))) ->
  runs (io_write i data) s J Q.
Proof.
  intros HJ HQ Hx. apply runs_bind. split; [split; [by exists []|done]|]. intros s' Es. destruct (oc_error _) as [text|].
  - apply runs_bind, runs_append; simpl in Es; rewrite Es.
    + intros n. rewrite take_take. apply HJ.
    + intros s2 Es2. apply runs_raise. rewrite Es2. apply Hx.
  - apply runs_append; simpl in Es; rewrite Es; auto.
Qed.

(** ** Files written whole *)
Definition tmp_name (name : pystr) : pystr := name ++ lit ".tmp".

Lemma tmp_name_ne name : tmp_name name <> name.
Proof. intros E. apply (f_equal length) in E. unfold tmp_name in E. rewrite length_app in E. simpl in E. lia. Qed.

(** Nothing but the temporary file changes, until the new file is in place. *)
Definition unwritten (name : pystr) (d d' : Disk) : Prop := disk_wf d' /\ same_but [tmp_name name] d d'.
Definition written (name : pystr) (data : bytes) (d d' : Disk) : Prop :=
  disk_wf d' /\ data_of d' name = Some data /\ same_but [tmp_name name; name] d d'.

Lemma unwritten_sync name data d1 d d' :
  unwritten name d1 d -> data_of d (tmp_name name) = Some data -> disk_wf d' -> same_but [] d d' ->
  unwritten name d1 d' /\ data_of d' (tmp_name name) = Some data.
Proof.
  intros [_ Hs] Hd Hwf Hs'. split; [split; [done|]|].
  - eapply same_but_trans; [exact Hs|]. eapply same_but_weaken; [|exact Hs']. set_solver.
  - rewrite (same_but_data [] d d') by (done || set_solver). done.
Qed.

Lemma runs_atomically name data fails s :
  disk_wf (io_disk s) ->
  runs (write_atomically name data fails) s
    (fun d' => unwritten name (io_disk s) d' \/ (fails = None /\ written name data (io_disk s) d'))
    (fun r d' => match r with
                 | Ok _ => fails = None /\ written name data (io_disk s) d'
                 | Raise x => unwritten name (io_disk s) d'
                 end).
Proof.
  intros Hwf. set (d := io_disk s) in *. unfold write_atomically. fold (tmp_name name). set (tmp := tmp_name name).
  destruct (create_spec d Hwf tmp) as (Hwf1 & [i Hi] & Hdata1 & Hs1).
  assert (Hun1 : unwritten name d (d_create tmp d)) by (by split).
  apply runs_bind. unfold io_create. apply runs_bind, runs_call; fold d; [by left| |by split].
  intros s1 E1. apply (runs_inode _ i); rewrite E1; [done|]. intros s2 E2.
  assert (Hpart : forall b, disk_wf (d_append i b (io_disk s2)) /\
    data_of (d_append i b (io_disk s2)) tmp = Some b /\ unwritten name d (d_append i b (io_disk s2))).
  { intros b. rewrite E2. destruct (append_spec _ Hwf1 tmp i b Hi) as (H1 & H2 & H3 & H4). rewrite Hdata1 in H3.
    split; [done|]. split; [done|]. split; [done|]. by eapply same_but_trans. }
  apply runs_bind, runs_write; [intros n; left; apply Hpart| |intros n text; apply Hpart].
  intros s3 E3. destruct (Hpart data) as (Hwf3 & Hdata3 & Hun3). rewrite <- E3 in Hwf3, Hdata3, Hun3.
  destruct fails as [x|]; [by apply runs_raise|].
  assert (Hi3 : exists j, inode_of (io_disk s3) tmp = Some j /\ j = i).
  { exists i. split; [|done]. rewrite E3, E2. exact Hi. }
  destruct Hi3 as (j & Hi3 & ->). destruct (sync_spec _ Hwf3 tmp i Hi3) as [Hwf4 Hs4].
  destruct (unwritten_sync name data d _ _ Hun3 Hdata3 Hwf4 Hs4) as [Hun4 Hdata4].
  apply runs_bind, runs_call; [by left| |done]. intros s4 E4. rewrite <- E4 in *.
  destruct (replace_spec _ Hwf4 tmp name data (tmp_name_ne name) Hdata4) as (Hwf5 & Hdata5 & _ & Hs5).
  assert (Hw5 : written name data d (d_replace tmp name (io_disk s4))).
  { split; [done|]. split; [done|]. eapply same_but_trans; [|exact Hs5]. eapply same_but_weaken; [|apply Hun4]. set_solver. }
  apply runs_bind, runs_call; [by right| |done]. intros s5 E5. rewrite <- E5 in *.
  destruct (sync_dir_spec _ Hwf5) as [Hwf6 Hs6].
  assert (Hw6 : written name data d (d_sync_dir (io_disk s5))) by exact Hw5.
  apply runs_fsync_dir; [by right|done|done].
Qed.

(** With no failing call a file is written. *)
Lemma calm_call f s : calm s -> io_call f s = (Ok tt, mkIO (f (io_disk s)) (f (io_disk s) :: io_trace s) (io_outcome s) (S (io_pos s))).
Proof. intros Hc. unfold io_call, io_next, bindM. by rewrite Hc. Qed.

Lemma calm_atomically name data s :
  disk_wf (io_disk s) -> calm s -> (write_atomically name data None s).1 = Ok tt.
Proof.
  intros Hwf Hc. unfold write_atomically, io_create. unfold bindM at 1 2. rewrite calm_call by done.
  destruct (create_spec (io_disk s) Hwf (name ++ lit ".tmp")) as (_ & [i Hi] & _).
  unfold io_inode, getM. unfold bindM at 1. cbn [io_disk]. rewrite Hi. cbn [ret].
  unfold io_write, io_next. unfold bindM at 1 2. cbn [io_outcome io_pos]. rewrite Hc. unfold io_append, modifyM.
  unfold bindM at 1. unfold io_sync. rewrite calm_call by exact Hc. unfold bindM at 1, io_replace.
  rewrite calm_call by exact Hc. unfold fsync_dir, io_next, bindM. cbn [io_outcome io_pos]. by rewrite Hc.
Qed.
