(* ===== verification/Manifest.v ===== *)
(** * The manifest (engine/persistence/manifest.py)

    The names of the files of each generation, and the file that says which of
    them are current. *)

From Stdlib Require Import String.
From S2P Require Import Prelude PyStr PyFloat Codec Errors Json Disk.
Local Close Scope string_scope.

Definition MANIFEST_NAME : pystr := lit "manifest.json".
Definition LEGACY_AOF_NAME : pystr := lit "appendonly.aof".

Definition aof_name (generation : Z) : pystr := lit "appendonly-" ++ str_of_int generation ++ lit ".aof".
Definition snapshot_name (generation : Z) : pystr := lit "snapshot-" ++ str_of_int generation ++ lit ".snap".

(** The group of [appendonly-(\d+)\.aof], if the whole name matches. *)
Definition match_aof_name (aof : pystr) : option pystr :=
  let prefix := lit "appendonly-" in
  let suffix := lit ".aof" in
  let group := slice (length prefix) (length aof - length suffix) aof in
  if bool_decide (aof = prefix ++ group ++ suffix) && bool_decide (group <> []) &&
     forallb (fun c => match digit_in decimal_zeros c with Some _ => true | None => false end) group
  then Some group else None.

(** [int] refuses a number of too many digits. *)
Definition generation_of (aof : pystr) : result exn Z :=
  match match_aof_name aof with
  | None => Ok 0
  | Some group =>
      match py_int group with
      | Some g => Ok g
      | None => Raise (err ValueError "Exceeds the limit for integer string conversion")
      end
  end.

Record Manifest := mkManifest { mf_snapshot : option pystr; mf_aofs : list pystr }.

#[export] Instance Manifest_eq_dec : EqDecision Manifest.
Proof. solve_decision. Defined.

(** The set [files]: an empty name counts as none. *)
Definition manifest_files (m : Manifest) : list pystr :=
  mf_aofs m ++ match mf_snapshot m with Some ((_ :: _) as s) => [s] | _ => [] end.

Definition manifest_json (m : Manifest) : Json :=
  JObject [(lit "version", JInt 1);
           (lit "snapshot", match mf_snapshot m with Some s => JString s | None => JNull end);
           (lit "aofs", JArray (JString <$> mf_aofs m))].

(** The text is ASCII, so its code points are its bytes. *)
Definition manifest_save (m : Manifest) : IOM unit :=
  write_atomically MANIFEST_NAME (dumps_default (manifest_json m)) None.

(** UTF-8 without escapes; [None] for invalid data. *)
Fixpoint utf8_strict (fuel : nat) (data : bytes) : option pystr :=
  match fuel, data with
  | _, [] => Some []
  | O, _ => None
  | S f, _ =>
      match decode_char data with
      | Some (c, n) => cons c <$> utf8_strict f (drop n data)
      | None => None
      end
  end.

Fixpoint all_strings (l : list Json) : option (list pystr) :=
  match l with
  | [] => Some []
  | JString s :: l' => cons s <$> all_strings l'
  | _ => None
  end.

Section Load.
(** The directory, as it is written in messages, and the texts of the errors of
    decoding, parsing and indexing. *)
Context (data_dir : pystr) (read_error : bytes -> pystr).

Definition file_path (name : pystr) : pystr := data_dir ++ lit "/" ++ name.

Definition manifest_error (what : pystr) : exn :=
  new_exn PersistenceError (file_path MANIFEST_NAME ++ lit ": " ++ what) None.

Definition manifest_decode (raw : bytes) : result exn Manifest :=
  let unreadable := Raise (manifest_error (lit "unreadable manifest: " ++ read_error raw)) in
  match (s ← utf8_strict (length raw) raw; loads s) with
  | Some (JObject payload) =>
      match dict_get (lit "snapshot") payload, dict_get (lit "aofs") payload with
      | Some snapshot, Some aofs =>
          match aofs with
          | JArray ((_ :: _) as l) =>
              match all_strings l with
              | None => Raise (manifest_error (lit "manifest must list at least one AOF"))
              | Some names =>
                  match snapshot with
                  | JNull => Ok (mkManifest None names)
                  | JString s => Ok (mkManifest (Some s) names)
                  | _ => Raise (manifest_error (lit "invalid snapshot entry"))
                  end
              end
          | _ => Raise (manifest_error (lit "manifest must list at least one AOF"))
          end
      | _, _ => unreadable
      end
  | _ => unreadable
  end.

Definition manifest_load (d : Disk) : result exn (option Manifest) :=
  match data_of d MANIFEST_NAME with
  | None => Ok None
  | Some raw => match manifest_decode raw with Ok m => Ok (Some m) | Raise x => Raise x end
  end.
End Load.

(** * File names and the manifest

    The names the persistence layer gives its files never clash, and a
    manifest reads back as it was saved. *)

(** ** Names *)
Lemma str_of_int_inj a b : 0 <= a -> 0 <= b -> str_of_int a = str_of_int b -> a = b.
Proof.
  intros Ha Hb. unfold str_of_int. destruct (Z.ltb_spec a 0); [lia|]. destruct (Z.ltb_spec b 0); [lia|].
  intros E. rewrite <- (dec_digits_value a), <- (dec_digits_value b) by done.
  rewrite !Z.abs_eq in E by done. f_equal.
  apply (list_fmap_eq_inj (Z.add 48)) in E; [done|]. intros x y. lia.
Qed.

Lemma aof_name_inj a b : 0 <= a -> 0 <= b -> aof_name a = aof_name b -> a = b.
Proof. intros Ha Hb E. apply app_inv_head, app_inv_tail in E. by apply str_of_int_inj. Qed.

Lemma snapshot_name_inj a b : 0 <= a -> 0 <= b -> snapshot_name a = snapshot_name b -> a = b.
Proof. intros Ha Hb E. apply app_inv_head, app_inv_tail in E. by apply str_of_int_inj. Qed.

(** The kind of a file, by the end of its name. *)
Definition ending (name : pystr) : pystr := take 4 (reverse name).

Lemma ending_app s t : length t = 4%nat -> ending (s ++ t) = reverse t.
Proof. intros H. unfold ending. rewrite reverse_app, take_app_length'; [done|]. by rewrite length_reverse. Qed.

Definition is_log (name : pystr) : Prop := ending name = reverse (lit ".aof").

Lemma ending_aof g : is_log (aof_name g).
Proof. unfold is_log, aof_name. by rewrite app_assoc, ending_app. Qed.

Lemma ending_legacy : is_log LEGACY_AOF_NAME.
Proof. by vm_compute. Qed.

Lemma ending_snapshot g : ending (snapshot_name g) = reverse (lit "snap").
Proof.
  unfold snapshot_name. change (lit ".snap") with (lit "." ++ lit "snap"). by rewrite !app_assoc, ending_app.
Qed.

Lemma ending_tmp name : ending (tmp_name name) = reverse (lit ".tmp").
Proof. by apply ending_app. Qed.

Lemma ending_manifest : ending MANIFEST_NAME = reverse (lit "json").
Proof. by vm_compute. Qed.

Lemma ending_ne a b : ending a <> ending b -> a <> b.
Proof. congruence. Qed.

(** Two names with different endings are different. *)
Ltac other_ending :=
  apply ending_ne;
  repeat match goal with
  | |- context [ending (tmp_name ?n)] => rewrite (ending_tmp n)
  | |- context [ending (snapshot_name ?g)] => rewrite (ending_snapshot g)
  | |- context [ending (aof_name ?g)] => rewrite (ending_aof g)
  | |- context [ending MANIFEST_NAME] => rewrite ending_manifest
  | H : is_log ?n |- context [ending ?n] => rewrite H
  end; by vm_compute.

Lemma log_not_manifest name : is_log name -> name ∉ [tmp_name MANIFEST_NAME; MANIFEST_NAME].
Proof. intros Hn. rewrite !elem_of_cons. intros [E|[E|E]]; [..|set_solver]; revert E; other_ending. Qed.

(** ** Generations *)
Lemma py_int_exact z z' : 0 <= z -> py_int (str_of_int z) = Some z' -> z' = z.
Proof.
  intros Hz. destruct (decide (length (dec_digits (Z.abs z)) <= INT_MAX_STR_DIGITS)%nat) as [Hl|Hl].
  { rewrite (proj1 (py_int_str_of_int z Hl)). congruence. }
  assert (Hr : Forall (fun d => 0 <= d < 10) (dec_digits (Z.abs z)))
    by (apply dec_digits_fuel_range; [lia|constructor]).
  unfold py_int. rewrite strip_str_of_int.
  assert (Hu : int_unsigned decimal_zeros (str_of_int z) = None).
  { unfold int_unsigned, str_of_int. destruct (Z.ltb_spec z 0); [lia|]. unfold decimal_zeros.
    rewrite int_digits_ascii by (done || left; apply dec_digits_nonempty). by rewrite bool_decide_false. }
  unfold str_of_int in *. destruct (Z.ltb_spec z 0); [lia|].
  destruct (dec_digits (Z.abs z)) as [|d ds] eqn:E; [by destruct (dec_digits_nonempty (Z.abs z))|].
  inversion Hr; subst. unfold int_signed. simpl map in *. rewrite Hu. repeat case_match; simplify_eq; try done; lia.
Qed.

Lemma digit_char d : 0 <= d < 10 -> digit_in decimal_zeros (48 + d) = Some d.
Proof.
  intros Hd. unfold decimal_zeros. cbn [digit_in]. destruct (Z.leb_spec 48 (48 + d)); [|lia].
  destruct (Z.ltb_spec (48 + d) (48 + 10)); [|lia]. simpl. f_equal. lia.
Qed.

Lemma match_aof_name_aof g : 0 <= g -> match_aof_name (aof_name g) = Some (str_of_int g).
Proof.
  intros Hg. unfold match_aof_name. set (group := slice _ _ _).
  assert (Eg : group = str_of_int g).
  { unfold group, aof_name, slice. rewrite !length_app. rewrite drop_app_length.
    replace (_ - _)%nat with (length (str_of_int g)) by (simpl; lia). by rewrite take_app_length. }
  rewrite Eg, bool_decide_true by done.
  assert (Hd : exists ds, str_of_int g = map (Z.add 48) ds /\ ds <> [] /\ Forall (fun d => 0 <= d < 10) ds).
  { unfold str_of_int. destruct (Z.ltb_spec g 0); [lia|]. eexists. split; [done|]. split; [apply dec_digits_nonempty|].
    apply dec_digits_fuel_range; [lia|constructor]. }
  destruct Hd as (ds & E & Hne & Hr). rewrite E. rewrite bool_decide_true by (by destruct ds). cbn [andb].
  rewrite (proj2 (forallb_forall _ _)); [done|]. intros c Hc. apply in_map_iff in Hc as (d & <- & Hin).
  cbv beta. rewrite digit_char; [done|]. rewrite Forall_forall in Hr. by apply Hr, list_elem_of_In.
Qed.

(** The log of generation [g]; the one from before there were manifests counts as 0. *)
Definition gen_name (g : Z) (name : pystr) : Prop :=
  0 <= g /\ (name = aof_name g \/ g = 0 /\ name = LEGACY_AOF_NAME).

Lemma gen_name_log g name : gen_name g name -> is_log name.
Proof. intros (_ & [->|[_ ->]]); [apply ending_aof|apply ending_legacy]. Qed.

Lemma generation_exact g name g' : gen_name g name -> generation_of name = Ok g' -> g' = g.
Proof.
  intros (Hg & [->|[-> ->]]); [|vm_compute; congruence]. unfold generation_of. rewrite match_aof_name_aof by done.
  destruct (py_int _) as [z|] eqn:E; [|done]. intros [= <-]. by apply py_int_exact in E.
Qed.

Lemma legacy_not_aof g : 0 <= g -> LEGACY_AOF_NAME <> aof_name g.
Proof. intros Hg E. pose proof (match_aof_name_aof g Hg) as H. rewrite <- E in H. by vm_compute in H. Qed.

Lemma gen_name_inj g g' name : gen_name g name -> gen_name g' name -> g = g'.
Proof.
  intros (Hg & [->|[-> ->]]) (Hg' & [E|[-> E]]); [by apply aof_name_inj| | |done].
  - by destruct (legacy_not_aof g Hg).
  - by destruct (legacy_not_aof g' Hg').
Qed.

(** ** Saving and loading *)
Definition ascii (s : pystr) : Prop := Forall (fun c => 0 <= c < 128) s.

Lemma hex_char_ascii u : 0 <= u < 16 -> 0 <= hex_char u < 128.
Proof. unfold hex_char. case_match; lia. Qed.

Lemma unicode_escape_ascii u : 0 <= u < 0x10000 -> ascii (unicode_escape u).
Proof.
  intros Hu. unfold unicode_escape, ascii.
  pose proof (Z.div_lt_upper_bound u 4096 16). pose proof (Z.div_pos u 4096).
  pose proof (Z.mod_pos_bound (u / 256) 16). pose proof (Z.mod_pos_bound (u / 16) 16). pose proof (Z.mod_pos_bound u 16).
  repeat (apply Forall_cons; split; [first [lia|apply hex_char_ascii; lia]|]). by apply Forall_nil.
Qed.

Lemma escape_char_ascii c : scalar c -> ascii (escape_char c).
Proof.
  unfold scalar. intros Hc. unfold escape_char.
  repeat match goal with |- context [if ?b then _ else _] => destruct b eqn:?; [repeat constructor; lia|] end.
  destruct (Z.ltb_spec c 0x10000); [apply unicode_escape_ascii; lia|]. cbv zeta.
  pose proof (Z.div_lt_upper_bound (c - 0x10000) 1024 1024). pose proof (Z.div_pos (c - 0x10000) 1024).
  pose proof (Z.mod_pos_bound (c - 0x10000) 1024).
  apply Forall_app. split; apply unicode_escape_ascii; lia.
Qed.

Lemma dump_string_ascii s : Forall scalar s -> ascii (dump_string s).
Proof.
  intros Hs. unfold dump_string. apply Forall_cons. split; [lia|]. apply Forall_app. split; [|repeat constructor; lia].
  apply Forall_bind. eapply Forall_impl; [exact Hs|apply escape_char_ascii].
Qed.

Lemma utf8_strict_ascii s : ascii s -> utf8_strict (length s) s = Some s.
Proof.
  induction 1 as [|c s Hc Hs IH]; [done|]. cbn [length utf8_strict decode_char]. unfold between.
  destruct (Z.leb_spec 0 c); [|lia]. destruct (Z.leb_spec c 0x7F); [|lia]. simpl. by rewrite drop_0, IH.
Qed.

Definition manifest_ok (m : Manifest) : Prop :=
  mf_aofs m <> [] /\ Forall (Forall scalar) (mf_aofs m) /\
  match mf_snapshot m with Some s => Forall scalar s | None => True end.

Definition manifest_text (m : Manifest) : bytes := dumps_default (manifest_json m).

Lemma items_ascii l : Forall (Forall scalar) l -> ascii (dump_items (lit " ") (lit " ") (JString <$> l)).
Proof.
  induction 1 as [|s l Hs Hl IH]; [repeat constructor; lia|]. rewrite fmap_cons. cbn [dump_items].
  apply Forall_app. split; [repeat constructor; lia|]. apply Forall_app. split; [by apply dump_string_ascii|done].
Qed.

Lemma manifest_text_shape snapshot a l :
  exists u v w, ascii u /\ ascii v /\ ascii w /\
  manifest_text (mkManifest snapshot (a :: l)) =
    u ++ match snapshot with Some s => dump_string s | None => lit "null" end ++
    v ++ dump_string a ++ dump_items (lit " ") (lit " ") (JString <$> l) ++ w.
Proof.
  assert (Ha : forall s, forallb (fun c => (0 <=? c) && (c <? 128)) s = true -> ascii s).
  { intros s H. apply Forall_forall. intros c Hc. rewrite forallb_forall in H.
    apply list_elem_of_In, H in Hc. lia. }
  set (q := 34 : Z).
  exists ([123; q] ++ lit "version" ++ [q; 58; 32; 49; 44; 32; q] ++ lit "snapshot" ++ [q; 58; 32]),
    ([44; 32; q] ++ lit "aofs" ++ [q; 58; 32; 91]), [125].
  split; [by apply Ha|]. split; [by apply Ha|]. split; [by apply Ha|].
  destruct snapshot as [s|]; unfold manifest_text, dumps_default, manifest_json; cbn [dumps mf_snapshot mf_aofs fmap list_fmap];
    rewrite <- (app_comm_cons _ _ 91), <- ?app_assoc; reflexivity.
Qed.

Lemma manifest_text_ascii m : manifest_ok m -> ascii (manifest_text m).
Proof.
  destruct m as [snapshot [|a l]]; intros (Hne & Hl & Hs); [done|]. simpl in Hl, Hs. inversion Hl as [|? ? Ha Hl']; subst.
  destruct (manifest_text_shape snapshot a l) as (u & v & w & Hu & Hv & Hw & ->).
  repeat (apply Forall_app; split; try done); [|by apply dump_string_ascii|by apply items_ascii].
  destruct snapshot; [by apply dump_string_ascii|repeat constructor; lia].
Qed.

Lemma plain_scalar s : forallb (fun c => (0 <=? c) && (c <? 128)) s = true -> Forall scalar s.
Proof.
  intros H. apply Forall_forall. intros c Hc. rewrite forallb_forall in H.
  apply list_elem_of_In, H in Hc. unfold scalar. lia.
Qed.

Lemma manifest_json_ok m : manifest_ok m -> json_ok (manifest_json m).
Proof.
  intros (_ & Ha & Hs). apply (proj2 (object_ok [] [] _)). split; [by apply (bool_decide_unpack _)|].
  apply Forall_cons. split; [split; [by apply plain_scalar|by vm_compute; lia]|].
  apply Forall_cons. split; [split; [by apply plain_scalar|by destruct (mf_snapshot m)]|].
  apply Forall_cons. split; [split; [by apply plain_scalar|]|by apply Forall_nil].
  apply (proj2 (array_ok _)), Forall_fmap. exact Ha.
Qed.

Lemma all_strings_fmap l : all_strings (JString <$> l) = Some l.
Proof. induction l as [|s l IH]; [done|]. rewrite fmap_cons. cbn [all_strings]. by rewrite IH. Qed.

Lemma manifest_decode_text data_dir read_error m :
  manifest_ok m -> manifest_decode data_dir read_error (manifest_text m) = Ok m.
Proof.
  intros Hm. unfold manifest_decode. rewrite utf8_strict_ascii by (by apply manifest_text_ascii).
  cbn [mbind option_bind]. unfold manifest_text. rewrite loads_default by (by apply manifest_json_ok).
  destruct m as [snapshot [|a l]]; [by destruct Hm|]. unfold manifest_json. cbn [mf_snapshot mf_aofs].
  set (j := match snapshot with Some s => JString s | None => JNull end). set (names := JArray _).
  change (dict_get (lit "snapshot") _) with (Some j). change (dict_get (lit "aofs") _) with (Some names).
  unfold names. rewrite fmap_cons. cbv iota. rewrite <- (fmap_cons JString a l), all_strings_fmap. by destruct snapshot.
Qed.

Lemma number_scalar z : Forall scalar (str_of_int z).
Proof.
  eapply Forall_impl; [apply (str_of_int_chars (fun c => negb ((0 <=? c) && (c <? 128))))|].
  - intros c Hc. lia.
  - intros c Hc. unfold scalar. simpl in Hc. lia.
Qed.

Lemma gen_name_scalar g name : gen_name g name -> Forall scalar name.
Proof.
  intros (_ & [->|[_ ->]]); [|by apply plain_scalar].
  repeat (apply Forall_app; split; try by apply plain_scalar). apply number_scalar.
Qed.

Lemma snapshot_name_scalar g : Forall scalar (snapshot_name g).
Proof. repeat (apply Forall_app; split; try by apply plain_scalar). apply number_scalar. Qed.
