(* ===== verification/AofWriter.v ===== *)
(** * The writer of an append-only file (engine/persistence/aof.py, [AOFWriter])

    Records go to a buffer of the process; the buffer goes to the operating
    system when it is full or at a commit, and from there to the medium by
    [fsync].  The background thread of [everysec] is a step of its own. *)

From Stdlib Require Import String.
From S2P Require Import Prelude PyStr PyFloat Codec Errors Snapshot Resp Json Engine Aof Disk.
Local Close Scope string_scope.

Inductive FsyncPolicy := Always | Everysec | Never.

#[export] Instance FsyncPolicy_eq_dec : EqDecision FsyncPolicy.
Proof. solve_decision. Defined.

Definition policy_text (p : FsyncPolicy) : pystr :=
  match p with Always => lit "always" | Everysec => lit "everysec" | Never => lit "no" end.

(** [aw_buffer] is what the file object holds back. *)
Record AOFWriter := mkAOFWriter {
  aw_name : pystr;
  aw_inode : nat;
  aw_policy : FsyncPolicy;
  aw_buffer : bytes;
  aw_dirty : bool;
  aw_unsynced : bool;
  aw_fsyncs : Z;
  aw_background_error : option exn;
  aw_closed : bool
}.

Definition set_buffer (b : bytes) (w : AOFWriter) : AOFWriter :=
  mkAOFWriter (aw_name w) (aw_inode w) (aw_policy w) b (aw_dirty w) (aw_unsynced w) (aw_fsyncs w)
    (aw_background_error w) (aw_closed w).
Definition set_dirty (b : bool) (w : AOFWriter) : AOFWriter :=
  mkAOFWriter (aw_name w) (aw_inode w) (aw_policy w) (aw_buffer w) b (aw_unsynced w) (aw_fsyncs w)
    (aw_background_error w) (aw_closed w).
Definition set_unsynced (b : bool) (n : Z) (w : AOFWriter) : AOFWriter :=
  mkAOFWriter (aw_name w) (aw_inode w) (aw_policy w) (aw_buffer w) (aw_dirty w) b n
    (aw_background_error w) (aw_closed w).
Definition set_background_error (x : option exn) (w : AOFWriter) : AOFWriter :=
  mkAOFWriter (aw_name w) (aw_inode w) (aw_policy w) (aw_buffer w) (aw_dirty w) (aw_unsynced w) (aw_fsyncs w)
    x (aw_closed w).
Definition set_closed (w : AOFWriter) : AOFWriter :=
  mkAOFWriter (aw_name w) (aw_inode w) (aw_policy w) (aw_buffer w) (aw_dirty w) (aw_unsynced w) (aw_fsyncs w)
    (aw_background_error w) true.

Abbreviation WM := (M exn (AOFWriter * IO)).

Definition on_io {A} (c : IOM A) : WM A :=
  fun '(w, s) => let '(r, s') := c s in (r, (w, s')).
Definition upd_writer (f : AOFWriter -> AOFWriter) : WM unit := modifyM (fun '(w, s) => (f w, s)).

(** [AOFWriter(path, fsync)]. *)
Definition new_aof_writer (name : pystr) (policy : FsyncPolicy) : IOM AOFWriter :=
  let! i := io_open name in
  ret (mkAOFWriter name i policy [] false false 0 None false).

(** [size_bytes]: the position in the file, what is buffered included. *)
Definition size_bytes (w : AOFWriter) (s : IO) : Z :=
  match d_inodes (io_disk s) !! aw_inode w with
  | Some f => Z.of_nat (length (f_data f) + length (aw_buffer w))
  | None => Z.of_nat (length (aw_buffer w))
  end.

(** [write] of the file object: any part of what it holds may go through to
    the operating system.  When that fails, the new data is not kept, and what
    was held and did not go through still is. *)
Definition buffered_write (data : bytes) : WM unit :=
  let! st := getM in
  let held := aw_buffer st.1 in
  let! o := on_io io_next in
  match oc_error o with
  | None =>
      let n := (oc_bytes o `min` length (held ++ data))%nat in
      on_io (io_append (aw_inode st.1) (take n (held ++ data)));;
      upd_writer (set_buffer (drop n (held ++ data)))
  | Some text =>
      let n := (oc_bytes o `min` pred (length (held ++ data)))%nat in
      on_io (io_append (aw_inode st.1) (take n (held ++ data)));;
      upd_writer (set_buffer (drop n held));;
      raise (os_error text)
  end.

(** [flush]: everything, or part of it and an error. *)
Definition buffered_flush : WM unit :=
  let! st := getM in
  let held := aw_buffer st.1 in
  let! o := on_io io_next in
  match oc_error o with
  | None => on_io (io_append (aw_inode st.1) held);; upd_writer (set_buffer [])
  | Some text =>
      on_io (io_append (aw_inode st.1) (take (oc_bytes o) held));;
      upd_writer (set_buffer (drop (oc_bytes o) held));;
      raise (os_error text)
  end.

Definition aof_append (payload : bytes) : WM unit :=
  buffered_write (frame_record payload);;
  upd_writer (set_dirty true).

Definition aof_fsync : WM unit :=
  let! st := getM in
  (if aw_closed st.1 then ret tt
   else
     on_io (io_sync (aw_inode st.1));;
     upd_writer (fun w => set_unsynced (aw_unsynced w) (aw_fsyncs w + 1) w));;
  upd_writer (fun w => set_unsynced false (aw_fsyncs w) w).

Definition aof_commit : WM unit :=
  let! st := getM in
  if negb (aw_dirty st.1) then ret tt
  else
    buffered_flush;;
    upd_writer (set_dirty false);;
    if bool_decide (aw_policy st.1 = Always) then aof_fsync
    else upd_writer (fun w => set_unsynced true (aw_fsyncs w) w).

(** Closing the file object flushes what it still holds. *)
Definition aof_close : WM unit :=
  let! st := getM in
  if aw_closed st.1 then ret tt
  else
    aof_commit;;
    aof_fsync;;
    let! st := getM in
    (match aw_buffer st.1 with [] => ret tt | _ => buffered_flush end);;
    upd_writer set_closed.

(** One round of [_fsync_every_second]; an error waits for the next commit. *)
Definition fsync_round : WM unit :=
  let! st := getM in
  if aw_unsynced st.1 then
    catchM aof_fsync (fun x => isinstance x OSError) (fun x => upd_writer (set_background_error (Some x)))
  else ret tt.

(** * What the log writer does to its file

    Every operation of the writer moves some of what it holds back to the end
    of its file; nothing else on the disk changes. *)

(** As [runs], for the operations of a writer. *)
Definition wruns {A} (c : WM A) (w : AOFWriter) (s : IO) (J : Disk -> Prop)
    (Q : result exn A -> AOFWriter -> Disk -> Prop) : Prop :=
  along J s (c (w, s)).2.2 /\ Q (c (w, s)).1 (c (w, s)).2.1 (io_disk (c (w, s)).2.2).

Section Rules.
Context {A : Type}.
Implicit Types (J : Disk -> Prop) (Q : result exn A -> AOFWriter -> Disk -> Prop).

Lemma wruns_ret (a : A) w s J Q : Q (Ok a) w (io_disk s) -> wruns (ret a) w s J Q.
Proof. intros H. split; [apply along_refl|done]. Qed.

Lemma wruns_raise x w s J Q : Q (Raise x) w (io_disk s) -> wruns (raise x) w s J Q.
Proof. intros H. split; [apply along_refl|done]. Qed.

Lemma wruns_bind {B} (c : WM B) (f : B -> WM A) w s J Q :
  wruns c w s J (fun r w' d => match r with
                               | Ok b => forall s', io_disk s' = d -> wruns (f b) w' s' J Q
                               | Raise x => Q (Raise x) w' d
                               end) -> wruns (bindM c f) w s J Q.
Proof.
  intros [Ha Hq]. unfold wruns, bindM. destruct (c (w, s)) as [[b|x] [w1 s1]]; simpl in *; [|done].
  destruct (Hq s1 eq_refl) as [Ha' Hq']. split; [by eapply along_trans|done].
Qed.

Lemma wruns_get (f : AOFWriter * IO -> WM A) w s J Q :
  wruns (f (w, s)) w s J Q -> wruns (bindM getM f) w s J Q.
Proof. done. Qed.

Lemma wruns_mono (c : WM A) w s J J' Q Q' :
  wruns c w s J Q -> (forall d, J d -> J' d) -> (forall r w d, Q r w d -> Q' r w d) -> wruns c w s J' Q'.
Proof. intros [Ha Hq] HJ HQ. split; [by eapply along_impl|auto]. Qed.

Lemma wruns_io (c : IOM A) w s J Q :
  runs c s J (fun r d => Q r w d) -> wruns (on_io c) w s J Q.
Proof. intros [Ha Hq]. unfold wruns, on_io. destruct (c s) as [r s']. by split. Qed.


Lemma wruns_catch (c : WM A) (f : exn -> bool) (h : exn -> WM A) w s J Q :
  wruns c w s J (fun r w' d => match r with
                               | Raise x => if f x then forall s', io_disk s' = d -> wruns (h x) w' s' J Q else Q (Raise x) w' d
                               | Ok a => Q (Ok a) w' d
                               end) -> wruns (catchM c f h) w s J Q.
Proof.
  intros [Ha Hq]. unfold wruns, catchM. destruct (c (w, s)) as [[a|x] [w1 s1]]; simpl in *; [done|].
  destruct (f x); [|done]. destruct (Hq s1 eq_refl) as [Ha' Hq']. split; [by eapply along_trans|done].
Qed.
End Rules.

Lemma wruns_next {A} (f : Outcome -> WM A) w s J (Q : result exn A -> AOFWriter -> Disk -> Prop) :
  (forall o s', io_disk s' = io_disk s -> wruns (f o) w s' J Q) ->
  wruns (bindM (on_io io_next) f) w s J Q.
Proof. intros H. apply wruns_bind, wruns_io. split; [split; [by exists []|done]|]. intros s' Es. by apply H. Qed.

Lemma wruns_upd f w s J (Q : result exn unit -> AOFWriter -> Disk -> Prop) :
  Q (Ok tt) (f w) (io_disk s) -> wruns (upd_writer f) w s J Q.
Proof. intros H. split; [apply along_refl|done]. Qed.

(** The part [b] of what was held is in the file; forcing files to the medium
    does not change them. *)
Definition holding (i : nat) (b : bytes) (d d' : Disk) : Prop := disk_wf d' /\ same_but [] (d_append i b d) d'.

(** What never changes of a writer. *)
Definition same_writer (w w' : AOFWriter) : Prop :=
  aw_name w' = aw_name w /\ aw_inode w' = aw_inode w /\ aw_policy w' = aw_policy w.

Lemma same_writer_refl w : same_writer w w.
Proof. done. Qed.

Lemma same_writer_trans a b c : same_writer a b -> same_writer b c -> same_writer a c.
Proof. unfold same_writer. intuition congruence. Qed.

Section Writer.
Context (w : AOFWriter) (s : IO) (Hwf : disk_wf (io_disk s)).
Context (Hi : inode_of (io_disk s) (aw_name w) = Some (aw_inode w)).
Let i := aw_inode w.
Let held := aw_buffer w.
Let d := io_disk s.

Lemma holding_append b : holding i b d (d_append i b d).
Proof. split; [|done]. by apply (append_spec d Hwf (aw_name w)). Qed.

Lemma holding_nil : holding i [] d d.
Proof.
  split; [done|]. intros x _. split; [done|]. destruct (decide (x = aw_name w)) as [->|Hx].
  - destruct (append_spec d Hwf (aw_name w) i [] Hi) as (_ & _ & -> & _).
    destruct (data_of d (aw_name w)); simpl; [by rewrite app_nil_r|done].
  - destruct (append_spec d Hwf (aw_name w) i [] Hi) as (_ & _ & _ & H). destruct (H x); [set_solver|congruence].
Qed.

Lemma holding_same d' : holding i [] d d' -> same_but [] d d'.
Proof.
  intros [_ H]. eapply same_but_trans; [|exact H]. destruct holding_nil as [_ H1]. intros x Hx. by destruct (H1 x Hx).
Qed.

Lemma holding_sync b d1 : holding i b d d1 -> holding i b d (d_sync i d1).
Proof.
  intros [Hwf1 Hs]. assert (E : inode_of d1 (aw_name w) = Some i) by (rewrite (same_but_inode [] _ _ _ Hs); [exact Hi|set_solver]).
  destruct (sync_spec d1 Hwf1 _ _ E) as [Hwf2 Hs2]. split; [done|]. by eapply same_but_trans.
Qed.

(** [append]: the new record is held back or goes through, in part or whole;
    after an error it is not held back, and not all of it is in the file. *)
Lemma append_runs payload :
  let data := held ++ frame_record payload in
  wruns (aof_append payload) w s
    (fun d' => exists n, holding i (take n data) d d')
    (fun r w' d' => exists n, holding i (take n data) d d' /\
       match r with
       | Ok _ => w' = set_dirty true (set_buffer (drop n data) w)
       | Raise x => isinstance x OSError = true /\ (n < length data)%nat /\ w' = set_buffer (drop n held) w
       end).
Proof.
  intros data. unfold aof_append, buffered_write. apply wruns_bind, wruns_get. cbn [fst snd]. fold held i.
  apply wruns_next. intros o s1 E1. fold data. fold d in E1. destruct (oc_error o) as [text|].
  - set (n := (_ `min` _)%nat). apply wruns_bind, wruns_io, runs_append; rewrite E1.
    { intros k. rewrite take_take. eexists. apply holding_append. }
    intros s2 E2. apply wruns_bind, wruns_upd. intros s3 E3. apply wruns_raise. rewrite E3, E2. exists n.
    split; [apply holding_append|]. split; [done|]. split; [|done]. unfold n.
    assert (length data <> 0)%nat by (unfold data; rewrite length_app; simpl; lia). lia.
  - set (n := (_ `min` _)%nat). apply wruns_bind, wruns_io, runs_append; rewrite E1.
    { intros k. rewrite take_take. eexists. apply holding_append. }
    intros s2 E2. apply wruns_upd. intros s3 E3. apply wruns_upd. rewrite E3, E2. exists n.
    split; [apply holding_append|done].
Qed.

(** [flush], [fsync], [commit] and [close]: some of what is held goes to the
    file, all of it when there is no error. *)
Definition drained (n : nat) (ok : bool) (w' : AOFWriter) (d' : Disk) : Prop :=
  holding i (take n held) d d' /\ aw_buffer w' = drop n held /\ same_writer w w' /\
  (aw_dirty w = false -> aw_dirty w' = false) /\
  (aw_buffer w' <> [] -> aw_dirty w' = aw_dirty w) /\ (ok = true -> aw_dirty w' = false).

Lemma fsync_runs n ok w1 s1 :
  drained n ok w1 (io_disk s1) ->
  wruns aof_fsync w1 s1 (fun d' => exists n, holding i (take n held) d d')
    (fun r w' d' => drained n ok w' d' /\ aw_closed w' = aw_closed w1 /\
       match r with Ok _ => True | Raise x => isinstance x OSError = true end).
Proof.
  intros (Hd & Hb & Hw & Hc & Hdirty). unfold aof_fsync. apply wruns_get. cbn [fst snd]. apply wruns_bind.
  destruct (aw_closed w1) eqn:Ec.
  - apply wruns_ret. intros s2 E2. apply wruns_upd. rewrite E2. split; [done|]. by split.
  - apply wruns_bind, wruns_io, runs_call.
    + exists n. destruct Hw as (_ & -> & _). by apply holding_sync.
    + intros s2 E2. apply wruns_upd. intros s3 E3. apply wruns_upd. rewrite E3, E2.
      split; [split; [|done]; destruct Hw as (_ & -> & _); by apply holding_sync|]. by split.
    + intros text. by split.
Qed.

Lemma drained_refl : drained 0 false w d.
Proof. split; [apply holding_nil|]. by split_and!. Qed.

Lemma round_runs :
  wruns fsync_round w s (fun d' => exists n, holding i (take n held) d d')
    (fun r w' d' => r = Ok tt /\ drained 0 false w' d' /\ aw_closed w' = aw_closed w).
Proof.
  unfold fsync_round. apply wruns_get. cbn [fst snd]. destruct (aw_unsynced w).
  - apply wruns_catch. eapply wruns_mono; [apply (fsync_runs 0 false w s drained_refl)|done|].
    intros r w' d' (Hd & Hc & Hr). destruct r as [[]|x]; [done|]. rewrite Hr. intros s' <-. by apply wruns_upd.
  - apply wruns_ret. split; [done|]. split; [apply drained_refl|done].
Qed.

Lemma commit_runs :
  (held <> [] -> aw_dirty w = true) ->
  wruns aof_commit w s (fun d' => exists n, holding i (take n held) d d')
    (fun r w' d' => exists n, aw_closed w' = aw_closed w /\
       match r with
       | Ok _ => drained n true w' d' /\ aw_buffer w' = []
       | Raise x => drained n false w' d' /\ isinstance x OSError = true
       end).
Proof.
  intros Hdirty. unfold aof_commit. apply wruns_get. cbn [fst snd]. destruct (aw_dirty w) eqn:Ed; cbn [negb].
  2: { apply wruns_ret. exists 0%nat. split; [done|]. assert (held = []) by (destruct held; [done|by specialize (Hdirty ltac:(done))]).
       split; [|done]. split; [apply holding_nil|]. split_and!; try done; by rewrite Ed. }
  unfold buffered_flush. apply wruns_bind, wruns_get. cbn [fst snd]. fold held i.
  apply wruns_next. intros o s1 E1. fold d in E1. destruct (oc_error o) as [text|].
  - apply wruns_bind, wruns_io, runs_append; rewrite E1.
    { intros k. rewrite take_take. eexists. apply holding_append. }
    intros s2 E2. apply wruns_bind, wruns_upd. intros s3 E3. apply wruns_raise. rewrite E3, E2. exists (oc_bytes o).
    split; [done|]. split; [|done]. split; [apply holding_append|]. by split_and!.
  - apply wruns_bind, wruns_io, runs_append; rewrite E1; [intros k; eexists; apply holding_append|].
    intros s2 E2. apply wruns_upd. intros s3 E3. apply wruns_bind, wruns_upd. intros s4 E4.
    assert (Hdr : drained (length held) true (set_dirty false (set_buffer [] w)) (io_disk s4)).
    { rewrite E4, E3, E2. split; [rewrite take_ge by lia; apply holding_append|]. split; [by rewrite drop_all|].
      by split_and!. }
    case_bool_decide.
    + eapply wruns_mono; [apply (fsync_runs _ _ _ _ Hdr)|done|]. intros r w' d' (Hd' & Hc & Hr).
      exists (length held). split; [done|]. destruct r; [|by destruct Hd' as (? & ? & ? & ? & ? & ?)]. split; [done|].
      destruct Hd' as (_ & -> & _). by rewrite drop_all.
    + apply wruns_upd. exists (length held). split; [done|]. split; [|done]. exact Hdr.
Qed.
End Writer.

(** Closing a log: everything it held is in the file if there was no error. *)
Lemma close_runs w s :
  disk_wf (io_disk s) -> inode_of (io_disk s) (aw_name w) = Some (aw_inode w) ->
  (aw_buffer w <> [] -> aw_dirty w = true) -> aw_closed w = false ->
  wruns aof_close w s (fun d' => exists n, holding (aw_inode w) (take n (aw_buffer w)) (io_disk s) d')
    (fun r w' d' => exists n, holding (aw_inode w) (take n (aw_buffer w)) (io_disk s) d' /\
       match r with Ok _ => drop n (aw_buffer w) = [] | Raise x => isinstance x OSError = true end).
Proof.
  intros Hwf Hi Hdirty Hc. unfold aof_close. apply wruns_get. cbn [fst snd]. rewrite Hc.
  apply wruns_bind. eapply wruns_mono; [by apply commit_runs|done|].
  intros r w1 d1 (n & Hc1 & Hr). destruct r as [[]|x]; [|exists n; split; [apply Hr|apply Hr]].
  destruct Hr as [Hdr Hb]. intros s1 <-. apply wruns_bind.
  eapply wruns_mono; [by apply (fsync_runs w s Hwf Hi n true)|done|]. intros r w2 d2 (Hdr2 & Hc2 & Hr).
  destruct Hdr as (_ & Hb1 & _), Hdr2 as (Hh & Hb2 & _). rewrite Hb1 in Hb.
  destruct r as [[]|x]; [|by exists n]. intros s2 <-. apply wruns_get. cbn [fst snd]. rewrite Hb2, Hb.
  apply wruns_bind, wruns_ret. intros s3 E3. apply wruns_upd. exists n. by rewrite E3.
Qed.

(** A log with nothing held back is only forced to the medium. *)
Lemma close_idle_runs w s :
  disk_wf (io_disk s) -> aw_buffer w = [] -> aw_dirty w = false ->
  wruns aof_close w s (fun d' => disk_wf d' /\ same_but [] (io_disk s) d')
    (fun r w' d' => disk_wf d' /\ same_but [] (io_disk s) d').
Proof.
  intros Hwf Hb Hd. unfold aof_close. apply wruns_get. cbn [fst snd]. destruct (aw_closed w) eqn:Hc; [by apply wruns_ret|].
  apply wruns_bind. unfold aof_commit. apply wruns_get. cbn [fst snd]. rewrite Hd. apply wruns_ret.
  intros s1 E1. apply wruns_bind. unfold aof_fsync. apply wruns_get. cbn [fst snd]. rewrite Hc.
  pose proof (sync_any (io_disk s) Hwf (aw_inode w)) as Hs.
  apply wruns_bind, wruns_bind, wruns_io, runs_call; rewrite E1; [done| |by split].
  intros s2 E2. apply wruns_upd. intros s3 E3. apply wruns_upd. intros s4 E4. apply wruns_get. cbn [fst snd].
  simpl aw_buffer. rewrite Hb. apply wruns_bind, wruns_ret. intros s5 E5. apply wruns_upd. by rewrite E5, E4, E3, E2.
Qed.
