(* ===== verification/Manager.v ===== *)
(** * The persistence manager (engine/persistence/manager.py)

    One node's files: recovery, the log being written, and rewrites.  The
    threads of the source (closing the previous log, writing a snapshot, the
    periodic [fsync]) are steps of their own, [thread_close], [thread_snapshot]
    and [thread_fsync]; joining a thread runs what is left of it. *)

From Stdlib Require Import String.
From S2P Require Import Prelude PyStr PyFloat Errors Codec Oracles Containers Eviction Store.
From S2P Require Import Snapshot Registry Resp Json Engine Aof Disk Manifest AofWriter.
Local Close Scope string_scope.

(** What is fixed for a node: its settings, its clock, the durations the code
    measures, and the texts of the standard library's errors. *)
Record PConfig := mkPConfig {
  cf_dir : pystr;
  cf_fsync : FsyncPolicy;
  cf_percentage : Z;
  cf_min_bytes : Z;
  cf_clock : nat -> float;
  cf_elapsed : nat -> float;
  cf_json_error : bytes -> pystr;
  cf_other_text : Json -> pystr;
  cf_read_error : bytes -> pystr
}.

(** [_RewriteJob]: the thread's work, and its result once it is done. *)
Record RewriteJob := mkRewriteJob {
  jb_snapshot : pystr;
  jb_records : list SnapshotRecord;
  jb_created : float;
  jb_future : option (result exn Z)
}.

Record Counters := mkCounters {
  ct_base_size : Z;
  ct_records_loaded : Z;
  ct_truncated_bytes : Z;
  ct_snapshot_keys : Z;
  ct_completed : Z;
  ct_failed : Z;
  ct_status : pystr;
  ct_duration : option float;
  ct_pause : option float;
  ct_save_time : Z
}.

(** [pm_closing]: no thread, one that has finished, or one with the log it is
    to close.  [pm_cut]: where the newest log is to be cut once its records
    have been applied. *)
Record PState := mkPState {
  pm_config : PConfig;
  pm_io : IO;
  pm_ticks : nat;
  pm_manifest : Manifest;
  pm_writer : option AOFWriter;
  pm_job : option RewriteJob;
  pm_copying : option pystr;
  pm_closing : option (option AOFWriter);
  pm_write_error : option pystr;
  pm_counters : Counters;
  pm_cut : nat
}.

Section Setters.
Implicit Type p : PState.
Definition set_io x p := mkPState (pm_config p) x (pm_ticks p) (pm_manifest p) (pm_writer p) (pm_job p) (pm_copying p) (pm_closing p) (pm_write_error p) (pm_counters p) (pm_cut p).
Definition set_ticks x p := mkPState (pm_config p) (pm_io p) x (pm_manifest p) (pm_writer p) (pm_job p) (pm_copying p) (pm_closing p) (pm_write_error p) (pm_counters p) (pm_cut p).
Definition set_manifest x p := mkPState (pm_config p) (pm_io p) (pm_ticks p) x (pm_writer p) (pm_job p) (pm_copying p) (pm_closing p) (pm_write_error p) (pm_counters p) (pm_cut p).
Definition set_writer x p := mkPState (pm_config p) (pm_io p) (pm_ticks p) (pm_manifest p) x (pm_job p) (pm_copying p) (pm_closing p) (pm_write_error p) (pm_counters p) (pm_cut p).
Definition set_job x p := mkPState (pm_config p) (pm_io p) (pm_ticks p) (pm_manifest p) (pm_writer p) x (pm_copying p) (pm_closing p) (pm_write_error p) (pm_counters p) (pm_cut p).
Definition set_copying x p := mkPState (pm_config p) (pm_io p) (pm_ticks p) (pm_manifest p) (pm_writer p) (pm_job p) x (pm_closing p) (pm_write_error p) (pm_counters p) (pm_cut p).
Definition set_closing x p := mkPState (pm_config p) (pm_io p) (pm_ticks p) (pm_manifest p) (pm_writer p) (pm_job p) (pm_copying p) x (pm_write_error p) (pm_counters p) (pm_cut p).
Definition set_write_error x p := mkPState (pm_config p) (pm_io p) (pm_ticks p) (pm_manifest p) (pm_writer p) (pm_job p) (pm_copying p) (pm_closing p) x (pm_counters p) (pm_cut p).
Definition set_counters x p := mkPState (pm_config p) (pm_io p) (pm_ticks p) (pm_manifest p) (pm_writer p) (pm_job p) (pm_copying p) (pm_closing p) (pm_write_error p) x (pm_cut p).
Definition set_cut x p := mkPState (pm_config p) (pm_io p) (pm_ticks p) (pm_manifest p) (pm_writer p) (pm_job p) (pm_copying p) (pm_closing p) (pm_write_error p) (pm_counters p) x.

(** The counters one after the other. *)
Definition count_load (base records truncated keys : Z) (c : Counters) : Counters :=
  mkCounters base records truncated keys (ct_completed c) (ct_failed c) (ct_status c) (ct_duration c) (ct_pause c) (ct_save_time c).
Definition count_failed (c : Counters) : Counters :=
  mkCounters (ct_base_size c) (ct_records_loaded c) (ct_truncated_bytes c) (ct_snapshot_keys c) (ct_completed c)
    (ct_failed c + 1) (lit "err") (ct_duration c) (ct_pause c) (ct_save_time c).
Definition count_done (size : Z) (duration : float) (now : Z) (c : Counters) : Counters :=
  mkCounters size (ct_records_loaded c) (ct_truncated_bytes c) (ct_snapshot_keys c) (ct_completed c + 1)
    (ct_failed c) (lit "ok") (Some duration) (ct_pause c) now.
Definition count_pause (pause : float) (c : Counters) : Counters :=
  mkCounters (ct_base_size c) (ct_records_loaded c) (ct_truncated_bytes c) (ct_snapshot_keys c) (ct_completed c)
    (ct_failed c) (ct_status c) (ct_duration c) (Some pause) (ct_save_time c).
End Setters.

Abbreviation PM := (M exn PState).

Definition on_disk {A} (c : IOM A) : PM A :=
  fun p => let '(r, s) := c (pm_io p) in (r, set_io s p).

(** A method of the writer, which the caller has asserted is there. *)
Definition on_writer {A} (c : WM A) : PM A :=
  fun p => match pm_writer p with
           | Some w => let '(r, (w', s)) := c (w, pm_io p) in (r, set_io s (set_writer (Some w') p))
           | None => (Raise (err AssertionError ""), p)
           end.

Definition tick : PM nat := fun p => (Ok (pm_ticks p), set_ticks (S (pm_ticks p)) p).
Definition clock : PM float := let! n := tick in readM (fun p => cf_clock (pm_config p) n).
Definition measured : PM float := let! n := tick in readM (fun p => cf_elapsed (pm_config p) n).

(** [int(clock())]. *)
Definition clock_seconds : PM Z :=
  let! t := clock in
  match ftrunc t with
  | Some z => ret z
  | None => raise (err OverflowError "cannot convert float infinity to integer")
  end.

Definition is_open (p : PState) : bool := match pm_writer p with Some _ => true | None => false end.
Definition rewrite_in_progress (p : PState) : bool :=
  match pm_job p, pm_copying p with None, None => false | _, _ => true end.

(** [Persistence.__init__]. *)
Definition new_persistence (cf : PConfig) (s : IO) : PState :=
  mkPState cf s 1 (mkManifest None [aof_name 1]) None None None None None
    (mkCounters 0 0 0 0 0 0 (lit "ok") None None (default 0 (ftrunc (cf_clock cf 0)))) 0.

(** ** Writes *)
Definition pm_fail {A} (exc : exn) : PM A :=
  modifyM (set_write_error (Some (exn_msg exc)));;
  raise (new_exn PersistenceWriteError (lit "Errors writing to the AOF file: " ++ exn_msg exc) None).

Definition log_append (payload : bytes) : PM unit :=
  let! p := getM in
  match pm_writer p with
  | None => raise (err AssertionError "")
  | Some _ =>
      match pm_write_error p with
      | Some _ => ret tt
      | None => catchM (on_writer (aof_append payload)) (fun x => isinstance x OSError) pm_fail
      end
  end.

Definition log_commit : PM unit :=
  let! p := getM in
  match pm_writer p with
  | None => ret tt
  | Some w =>
      match pm_write_error p with
      | Some _ => ret tt
      | None =>
          (match aw_background_error w with
           | Some error => on_writer (upd_writer (set_background_error None));; pm_fail error
           | None => ret tt
           end);;
          catchM (on_writer aof_commit) (fun x => isinstance x OSError) pm_fail
      end
  end.

Definition check_writable : PM unit :=
  let! p := getM in
  match pm_write_error p with
  | Some e =>
      raise (new_exn PersistenceWriteError
        (lit "Errors writing to the AOF file: " ++ e ++ lit ". Writes are disabled until the node is restarted.") None)
  | None => ret tt
  end.

(** ** The threads *)

(** [_close_previous]: an error reaches the log that follows. *)
Definition thread_close : PM unit :=
  let! p := getM in
  match pm_closing p with
  | Some (Some old) =>
      modifyM (set_closing (Some None));;
      fun p =>
        match aof_close (old, pm_io p) with
        | (Ok _, (_, s)) => (Ok tt, set_io s p)
        | (Raise x, (_, s)) =>
            (Ok tt, set_writer (set_background_error (Some x) <$> pm_writer p) (set_io s p))
        end
  | _ => ret tt
  end.

Definition join_closing : PM unit :=
  let! p := getM in
  match pm_closing p with
  | Some _ => thread_close;; modifyM (set_closing None)
  | None => ret tt
  end.

(** [write_snapshot]: the size of the file. *)
Definition write_snapshot (name : pystr) (records : list SnapshotRecord) (created_at : float) : IOM Z :=
  let '(r, w) := write_all records created_at (new_writer []) in
  write_atomically name (wr_file w) (match r with Ok _ => None | Raise x => Some x end);;
  lift r.

(** The function [run] of [finish_copy]. *)
Definition thread_snapshot : PM unit :=
  let! p := getM in
  match pm_job p with
  | Some (mkRewriteJob name records created None) =>
      fun p =>
        let '(r, s) := write_snapshot name records created (pm_io p) in
        (Ok tt, set_job (Some (mkRewriteJob name records created (Some r))) (set_io s p))
  | _ => ret tt
  end.

Definition thread_fsync : PM unit :=
  let! p := getM in
  match pm_writer p with
  | Some _ => if bool_decide (cf_fsync (pm_config p) = Everysec) then on_writer fsync_round else ret tt
  | None => ret tt
  end.

(** ** Rewrites *)

(** [_delete_unreferenced]: a file that cannot be deleted is left. *)
Definition is_ours (name : pystr) : bool :=
  let ends (s : pystr) := bool_decide (drop (length name - length s) name = s) in
  ends (lit ".aof") || ends (lit ".snap") || ends (lit ".tmp").

Definition delete_unreferenced : PM unit :=
  let! p := getM in
  let keep := MANIFEST_NAME :: manifest_files (pm_manifest p) in
  forM_list (fun name =>
      if is_ours name && negb (bool_decide (name ∈ keep))
      then catchM (on_disk (io_call (d_unlink name))) (fun x => isinstance x OSError) (fun _ => ret tt)
      else ret tt)
    (d_dir (io_disk (pm_io p))).*1.

Definition in_progress_error : exn :=
  err CommandError "Background append only file rewriting already in progress".

Definition begin_rewrite : PM unit :=
  let! p := getM in
  if rewrite_in_progress p then raise in_progress_error
  else
    match pm_writer p with
    | None => raise (err AssertionError "")
    | Some _ =>
        join_closing;;
        let! g := lift (generation_of (default [] (last (mf_aofs (pm_manifest p))))) in
        let generation := g + 1 in
        let new_aof := aof_name generation in
        on_writer aof_commit;;
        let! new_writer := on_disk (new_aof_writer new_aof (cf_fsync (pm_config p))) in
        let m := mkManifest (mf_snapshot (pm_manifest p)) (mf_aofs (pm_manifest p) ++ [new_aof]) in
        modifyM (set_manifest m);;
        on_disk (manifest_save m);;
        modifyM (fun p => set_closing (Some (pm_writer p)) (set_copying (Some (snapshot_name generation))
                            (set_writer (Some new_writer) p)))
    end.

Definition abandon_copy : PM unit := modifyM (set_copying None).

Definition finish_copy (records : list SnapshotRecord) : PM unit :=
  let! p := getM in
  modifyM (set_copying None);;
  match pm_copying p with
  | None => raise (err AssertionError "")
  | Some snapshot =>
      let! created_at := clock in
      modifyM (set_job (Some (mkRewriteJob snapshot records created_at None)));;
      let! pause := measured in
      modifyM (fun p => set_counters (count_pause pause (pm_counters p)) p)
  end.

Definition start_rewrite (records : list SnapshotRecord) : PM unit :=
  begin_rewrite;; finish_copy records.

(** [_finish], for a job whose thread is done. *)
Definition finish_job (job : RewriteJob) : PM unit :=
  modifyM (set_job None);;
  let! duration := measured in
  match jb_future job with
  | Some (Ok size) =>
      let! p := getM in
      let m := mkManifest (Some (jb_snapshot job)) [default [] (last (mf_aofs (pm_manifest p)))] in
      modifyM (set_manifest m);;
      on_disk (manifest_save m);;
      delete_unreferenced;;
      let! now := clock_seconds in
      modifyM (fun p => set_counters (count_done size duration now (pm_counters p)) p)
  | _ => modifyM (fun p => set_counters (count_failed (pm_counters p)) p)
  end.

Definition poll : PM bool :=
  let! p := getM in
  match pm_job p, pm_closing p with
  | Some (mkRewriteJob _ _ _ (Some _) as job), (None | Some None) => finish_job job;; ret true
  | _, _ => ret false
  end.

Definition wait_rewrite : PM unit :=
  join_closing;;
  thread_snapshot;;
  let! p := getM in
  match pm_job p with
  | Some job => finish_job job
  | None => ret tt
  end.

Definition should_auto_rewrite (p : PState) : bool :=
  match pm_job p, pm_copying p, pm_writer p with
  | None, None, Some w =>
      let cf := pm_config p in
      if cf_percentage cf =? 0 then false
      else
        let size := size_bytes w (pm_io p) in
        if size <? cf_min_bytes cf then false
        else ct_base_size (pm_counters p) * cf_percentage cf <=? size * 100
  | _, _, _ => false
  end.

(** ** Startup *)

(** The manifest to load, written if there is none. *)
Definition current_manifest : PM Manifest :=
  let! p := getM in
  let d := io_disk (pm_io p) in
  let! found := lift (manifest_load (cf_dir (pm_config p)) (cf_read_error (pm_config p)) d) in
  match found with
  | Some m => ret m
  | None =>
      let legacy := match data_of d LEGACY_AOF_NAME with Some _ => true | None => false end in
      let m := mkManifest None [if legacy then LEGACY_AOF_NAME else aof_name 1] in
      on_disk (manifest_save m);;
      ret m
  end.

(** The snapshot's records; a missing file is an [OSError]. *)
Definition read_snapshot (cf : PConfig) (d : Disk) (name : pystr) : list SnapshotRecord * result exn Z :=
  match data_of d name with
  | None => ([], Raise (os_error (lit "No such file or directory: " ++ file_path (cf_dir cf) name)))
  | Some raw =>
      match decode_snapshot raw (file_path (cf_dir cf) name) with
      | (records, None) => (records, Ok (Z.of_nat (length raw)))
      | (records, Some x) => (records, Raise x)
      end
  end.

(** The logs, oldest first: only the newest may end in a torn record. *)
Fixpoint read_aofs (cf : PConfig) (d : Disk) (aofs : list pystr) : list LoadEvent * result exn nat :=
  match aofs with
  | [] => ([], Ok 0%nat)
  | name :: rest =>
      let newest := match rest with [] => true | _ => false end in
      match replay_aof (cf_json_error cf) (cf_other_text cf) (file_path (cf_dir cf) name) newest (data_of d name) with
      | (events, Raise x) => (events, Raise x)
      | (events, Ok good) =>
          match rest with
          | [] => (events, Ok good)
          | _ => let '(more, r) := read_aofs cf d rest in (events ++ more, r)
          end
      end
  end.

(** Everything the manifest lists, in the order it is applied; the size of the
    snapshot, and how much of the newest log is good. *)
Definition read_disk (cf : PConfig) (m : Manifest) (d : Disk) : list LoadEvent * result exn (Z * nat) :=
  let '(records, base) :=
    match mf_snapshot m with Some name => read_snapshot cf d name | None => ([], Ok 0) end in
  match base with
  | Raise x => (EvRecord <$> records, Raise x)
  | Ok size =>
      let '(events, r) := read_aofs cf d (mf_aofs m) in
      ((EvRecord <$> records) ++ events,
       match r with Ok good => Ok (size, good) | Raise x => Raise x end)
  end.

Definition is_record (e : LoadEvent) : bool := match e with EvRecord _ => true | EvCommand _ _ _ => false end.
Definition count_events (events : list LoadEvent) : Z * Z :=
  (Z.of_nat (length (List.filter is_record events)),
   Z.of_nat (length (List.filter (fun e => negb (is_record e)) events))).

(** Everything [m] lists is read, and counted. *)
Definition read_listed (m : Manifest) : PM (list LoadEvent * result exn unit) :=
  modifyM (set_manifest m);;
  let! p := getM in
  let d := io_disk (pm_io p) in
  let '(events, r) := read_disk (pm_config p) m d in
  match r with
  | Raise x => ret (events, Raise x)
  | Ok (base, good) =>
      let size := match data_of d (default [] (last (mf_aofs m))) with Some data => length data | None => 0%nat end in
      let '(keys, records) := count_events events in
      modifyM (set_cut good);;
      modifyM (fun p => set_counters (count_load base records (Z.of_nat (size - good)) keys (pm_counters p)) p);;
      ret (events, Ok tt)
  end.

(** [load], up to applying what it reads. *)
Definition read_files : PM (list LoadEvent * result exn unit) :=
  let! m := current_manifest in
  read_listed m.

(** The rest of [load]: a torn tail is cut off, and the log opened. *)
Definition open_log : PM unit :=
  let! p := getM in
  let name := default [] (last (mf_aofs (pm_manifest p))) in
  let d := io_disk (pm_io p) in
  (match inode_of d name, data_of d name with
   | Some i, Some data =>
       if bool_decide (pm_cut p = length data) then ret tt else on_disk (io_call (d_truncate i (pm_cut p)))
   | _, _ => ret tt
   end);;
  let! w := on_disk (new_aof_writer name (cf_fsync (pm_config p))) in
  modifyM (set_writer (Some w));;
  delete_unreferenced.

(** [load], where applying what is read never fails. *)
Definition load_all : PM (list LoadEvent) :=
  let! x := read_files in
  lift x.2;;
  open_log;;
  ret x.1.

(** ** Shutdown *)
Definition close : PM unit :=
  wait_rewrite;;
  join_closing;;
  let! p := getM in
  match pm_writer p with
  | None => ret tt
  | Some _ =>
      catchM (on_writer aof_close) (fun x => isinstance x OSError && found (pm_write_error p)) (fun _ => ret tt);;
      modifyM (set_writer None)
  end.

Definition stats (p : PState) : PersistenceStats :=
  let c := pm_counters p in
  mkPStats (rewrite_in_progress p) (ct_status c) (pm_write_error p)
    (match pm_writer p with Some w => size_bytes w (pm_io p) | None => 0 end) (ct_base_size c)
    (policy_text (cf_fsync (pm_config p))) (match pm_writer p with Some w => aw_fsyncs w | None => 0 end)
    (ct_completed c) (ct_duration c) (ct_pause c) (cf_percentage (pm_config p)) (cf_min_bytes (pm_config p)).

#[export] Instance manager_persistence : Persistence PState := {|
  p_is_open := is_open;
  p_in_progress := rewrite_in_progress;
  p_last_rewrite_status p := ct_status (pm_counters p);
  p_last_save_time p := ct_save_time (pm_counters p);
  p_should_auto_rewrite := should_auto_rewrite;
  p_stats := stats;
  p_check_writable := check_writable;
  p_append := log_append;
  p_commit := log_commit;
  p_poll := poll;
  p_begin_rewrite := begin_rewrite;
  p_finish_copy := finish_copy;
  p_start_rewrite := start_rewrite;
  p_wait_rewrite := wait_rewrite;
  p_abandon_copy := abandon_copy;
  p_close := close;
  p_read_files := read_files;
  p_open_log := open_log
|}.
