(* ===== verification/Recovery.v ===== *)
(** * What a disk recovers to

    The promise of the persistence layer as a predicate of a disk,
    [recovers base old cur sure]: loading it gives the records [base], the
    writes [old], and at least the first [sure] of the writes [cur], in order,
    and nothing else. *)

From Stdlib Require Import String.
From S2P Require Import Prelude PyStr PyFloat Errors Codec Pack Oracles Containers Eviction Store.
From S2P Require Import Snapshot Registry Resp RespProofs Json Engine Aof AofProofs.
From S2P Require Import Disk Manifest AofWriter Manager.
Local Close Scope string_scope.

(** ** The writes in a log *)

(** The command a payload stands for. *)
Definition payload_command (payload : bytes) : pystr * list PyArg :=
  match decode_v3 (frame_record payload) with Ok r => r | Raise _ => ([], []) end.

Definition loggable (payload : bytes) : Prop := exists command, logged payload command.

Definition body (e : LoadEvent) : SnapshotRecord + (pystr * list PyArg) :=
  match e with EvRecord r => inl r | EvCommand _ command args => inr (command, args) end.

(** Part of a record, as a crash in the middle of a write leaves it. *)
Definition torn (u : bytes) : Prop :=
  u = [] \/ exists payload w, payload_ok payload /\ frame_record payload = u ++ w /\ w <> [].

Lemma loggable_ok payload : loggable payload -> payload_ok payload.
Proof. by intros (command & H & _). Qed.

Lemma logged_command payload command :
  logged payload command -> payload_command payload = (default [] (head command), AStr <$> tail command).
Proof.
  intros H. unfold payload_command.
  pose proof (decode_frame (fun _ => []) (fun _ => []) payload command H) as E.
  change (decode_record _ _ (frame_record payload)) with (decode_v3 (frame_record payload)) in E. by rewrite E.
Qed.

Lemma loggable_all payloads : Forall loggable payloads -> exists commands, Forall2 logged payloads commands.
Proof. intros H. by apply Forall_exists_Forall2_l in H. Qed.

Lemma command_events_bodies path lineno payloads commands :
  Forall2 logged payloads commands ->
  body <$> command_events path lineno commands = (fun p => inr (payload_command p)) <$> payloads.
Proof.
  intros H. revert lineno. induction H as [|p c ps cs Hp _ IH]; intros lineno; [done|].
  cbn [command_events]. rewrite !fmap_cons, IH. f_equal. simpl. by rewrite (logged_command p c Hp).
Qed.

Lemma frames_nil payloads : frames payloads = [] -> payloads = [].
Proof. by destruct payloads. Qed.

Lemma frames_app a b : frames (a ++ b) = frames a ++ frames b.
Proof. unfold frames. by rewrite fmap_app, join_app. Qed.

Section Replay.
Context (json_error : bytes -> pystr) (other_text : Json -> pystr).

(** A log with a torn end that is allowed, or none. *)
Lemma replay_log path allow payloads u data :
  Forall loggable payloads -> torn u -> allow = true \/ u = [] -> default [] data = frames payloads ++ u ->
  exists events, replay_aof json_error other_text path allow data = (events, Ok (length (frames payloads))) /\
    body <$> events = (fun p => inr (payload_command p)) <$> payloads.
Proof.
  intros Hall Ht Hu E. destruct data as [data|]; cbn [default] in E.
  2: { symmetry in E. apply app_eq_nil in E as [Hp ->]. apply frames_nil in Hp as ->. by exists []. }
  simpl in E. subst data. destruct (loggable_all payloads Hall) as (commands & Hc).
  change (replay_aof json_error other_text path allow (Some (frames payloads ++ u)))
    with (replay_from json_error other_text path allow (frames payloads ++ u) 0 0).
  rewrite (replay_records _ _ path allow payloads commands u 0 0 Hc).
  assert (Htail : forall pos lineno, replay_from json_error other_text path allow u pos lineno = ([], Ok pos)).
  { intros pos lineno. destruct u as [|b u]; [done|]. destruct Hu as [->|]; [|done].
    destruct Ht as [?|(p & w & Hp & Ef & Hw)]; [done|]. by rewrite (replay_torn _ _ path true p (b :: u) w). }
  rewrite Htail. eexists. split; [done|]. rewrite app_nil_r. by apply command_events_bodies.
Qed.
End Replay.

(** ** Prefixes of a log *)
Lemma frame_record_nonempty payload : frame_record payload <> [].
Proof. done. Qed.

#[local] Opaque frame_record.

Lemma prefix_frames payloads tail c :
  Forall payload_ok payloads -> c `prefix_of` frames payloads ++ tail -> torn tail ->
  exists n u, (n <= length payloads)%nat /\ c = frames (take n payloads) ++ u /\ torn u /\
    ((n < length payloads)%nat -> (length c < length (frames (take (S n) payloads)))%nat).
Proof.
  intros Hall. revert c. induction Hall as [|p ps Hp Hall IH]; intros c [k E] Ht.
  - exists 0%nat, c. simpl in E |- *. split; [lia|]. split; [done|]. split; [|lia].
    destruct Ht as [->|(p & w & Hp & Ef & Hw)].
    + symmetry in E. apply app_eq_nil in E as [-> _]. by left.
    + right. exists p, (k ++ w). split; [done|]. split; [by rewrite Ef, E, app_assoc|]. by destruct k, w.
  - change (frames (p :: ps)) with (frame_record p ++ frames ps) in E. rewrite <- app_assoc in E.
    destruct (prefix_split _ _ _ _ E) as [(w' & Ew & Hw')|(u' & -> & E')].
    + exists 0%nat, c. split; [lia|]. split; [done|]. split; [right; eauto|]. intros _.
      change (frames (take 1 (p :: ps))) with (frame_record p ++ []). rewrite app_nil_r, Ew, length_app.
      destruct w'; [done|simpl; lia].
    + destruct (IH u') as (n & u & Hn & -> & Hu & Hlt); [by exists k|done|].
      exists (S n), u. split; [cbn [length]; lia|]. split; [|split; [done|]].
      * change (frames (take (S n) (p :: ps))) with (frame_record p ++ frames (take n ps)). by rewrite app_assoc.
      * intros Hlt'. change (frames (take (S (S n)) (p :: ps))) with (frame_record p ++ frames (take (S n) ps)).
        cbn [length] in Hlt'. specialize (Hlt ltac:(lia)). generalize (frame_record p). intros q. rewrite !length_app in Hlt. rewrite !length_app. lia.
Qed.

Lemma frames_take_prefix payloads a b :
  (a <= b)%nat -> frames (take a payloads) `prefix_of` frames (take b payloads).
Proof.
  intros Hab. replace (take a payloads) with (take a (take b payloads)) by (rewrite take_take; f_equal; lia).
  rewrite <- (take_drop a (take b payloads)) at 2. rewrite frames_app. by apply prefix_app_r.
Qed.

Lemma frames_take_le payloads a b :
  (a <= b)%nat -> (length (frames (take a payloads)) <= length (frames (take b payloads)))%nat.
Proof. intros Hab. by apply prefix_length, frames_take_prefix. Qed.

(** What survives of [cur] when its log holds [c]. *)
Lemma surviving cur tail c sure :
  Forall payload_ok cur -> c `prefix_of` frames cur ++ tail -> torn tail ->
  (sure <= length cur)%nat -> frames (take sure cur) `prefix_of` c ->
  exists n u, (sure <= n <= length cur)%nat /\ c = frames (take n cur) ++ u /\ torn u.
Proof.
  intros Hall Hc Ht Hs [k Hk]. destruct (prefix_frames cur tail c Hall Hc Ht) as (n & u & Hn & E & Hu & Hlt).
  exists n, u. split; [|done]. split; [|done]. destruct (decide (sure <= n)%nat) as [|Hgt]; [done|exfalso].
  specialize (Hlt ltac:(lia)). pose proof (frames_take_le cur (S n) sure ltac:(lia)).
  rewrite Hk, length_app in Hlt. lia.
Qed.

(** ** What the files listed in a manifest hold *)
Definition entry (payload : bytes) : SnapshotRecord + (pystr * list PyArg) := inr (payload_command payload).

Definition content (d : Disk) (name : pystr) : bytes := default [] (data_of d name).
Definition holds_log (d : Disk) (name : pystr) (payloads : list bytes) : Prop := content d name = frames payloads.

Definition holds_snapshot (d : Disk) (snapshot : option pystr) (base : list SnapshotRecord) : Prop :=
  match snapshot with
  | None => base = []
  | Some name => exists raw, data_of d name = Some raw /\ forall path, decode_snapshot raw path = (base, None)
  end.

(** The names a manifest of generation [G] lists besides its newest log; the
    snapshot is of generation [B] at most. *)
Definition named (G B : Z) (snapshot : option pystr) (pre : list pystr) : Prop :=
  Forall (fun name => exists g, g < G /\ gen_name g name) pre /\
  match snapshot with None => True | Some name => exists g, 0 <= g <= B /\ name = snapshot_name g end.

Section Views.
(** The state the records and writes are applied to. *)
Context {St : Type} (step : St -> SnapshotRecord + (pystr * list PyArg) -> St) (init : St).

Definition apply_all (st : St) (l : list (SnapshotRecord + (pystr * list PyArg))) : St := foldl step st l.

Lemma apply_all_app st a b : apply_all st (a ++ b) = apply_all (apply_all st a) b.
Proof. apply foldl_app. Qed.

(** The snapshot and the older logs give the state [st]. *)
Definition holds (d : Disk) (snapshot : option pystr) (pre : list pystr) (st : St) : Prop :=
  exists base payloads, holds_snapshot d snapshot base /\ Forall2 (holds_log d) pre payloads /\
    Forall loggable (mjoin payloads) /\ apply_all init ((inl <$> base) ++ (entry <$> mjoin payloads)) = st.

(** Names no older file has: what is being written. *)
Definition aside (G B : Z) (name : pystr) : Prop :=
  (exists n, name = tmp_name n) \/ gen_name G name \/ (exists g, 0 <= g /\ B < g /\ name = snapshot_name g).

Lemma aside_log G B g name : aside G B name -> g <> G -> gen_name g name -> False.
Proof.
  intros [[n ->]|[H|(g' & ? & ? & ->)]] Hg Hn; [| |]; try by (apply gen_name_log in Hn; revert Hn; unfold is_log; rewrite ?ending_tmp, ?ending_snapshot; vm_compute).
  by apply Hg, (gen_name_inj g G name).
Qed.

Lemma aside_snapshot G B g name : aside G B name -> 0 <= g <= B -> name = snapshot_name g -> False.
Proof.
  intros [[n ->]|[H|(g' & ? & ? & ->)]] Hg.
  - by other_ending.
  - apply gen_name_log in H. revert H. unfold is_log. intros H ->. rewrite ending_snapshot in H. by vm_compute in H.
  - intros E%snapshot_name_inj; lia.
Qed.

Lemma aside_manifest G B name : aside G B name -> name <> MANIFEST_NAME.
Proof.
  intros [[n ->]|[H|(g' & ? & ? & ->)]]; try by other_ending. apply gen_name_log in H. other_ending.
Qed.

Lemma holds_kept d d' l snapshot pre st :
  same_but l d d' -> (forall name, name ∈ pre -> name ∉ l) -> (forall name, snapshot = Some name -> name ∉ l) ->
  holds d snapshot pre st -> holds d' snapshot pre st.
Proof.
  intros Hs Hl1 Hl2 (base & ps & Hb & Hp & Hall & E). exists base, ps. split_and!; try done.
  - destruct snapshot as [name|]; [|done]. destruct Hb as (raw & Hraw & Hd). exists raw. split; [|done].
    rewrite <- Hraw. apply (same_but_data l); [done|]. by apply Hl2.
  - clear -Hp Hs Hl1. induction Hp as [|name p pre ps Hn Hp IH]; [constructor|].
    constructor; [|apply IH; intros x Hx; apply Hl1; by right].
    unfold holds_log, content. rewrite (same_but_data l d d'); [done..|]. apply Hl1. by left.
Qed.

Lemma holds_avoid d d' l G B snapshot pre st :
  same_but l d d' -> (forall g name, g < G -> gen_name g name -> name ∉ l) ->
  (forall g, 0 <= g <= B -> snapshot_name g ∉ l) ->
  named G B snapshot pre -> holds d snapshot pre st -> holds d' snapshot pre st.
Proof.
  intros Hs Hl1 Hl2 [Hpre Hsn]. apply (holds_kept d d' l); [done|..].
  - rewrite Forall_forall in Hpre. intros name Hin. destruct (Hpre name Hin) as (g & Hg & Hn). by eapply Hl1.
  - intros name ->. destruct Hsn as (g & Hg & ->). by apply Hl2.
Qed.

(** Older files are not touched by what is done aside. *)
Lemma holds_frame d d' l G B snapshot pre st :
  same_but l d d' -> Forall (aside G B) l -> named G B snapshot pre -> holds d snapshot pre st -> holds d' snapshot pre st.
Proof.
  intros Hs Hl. rewrite Forall_forall in Hl. apply (holds_avoid d d' l); [done|..].
  - intros g name Hg Hn Hin. eapply (aside_log G B g); [by apply Hl|lia|done].
  - intros g Hg Hin. by eapply (aside_snapshot G B g); [by apply Hl| |].
Qed.

(** Nor by saving a manifest. *)
Lemma holds_manifest d d' G B snapshot pre st :
  same_but [tmp_name MANIFEST_NAME; MANIFEST_NAME] d d' -> named G B snapshot pre ->
  holds d snapshot pre st -> holds d' snapshot pre st.
Proof.
  intros Hs. apply (holds_avoid d d' [tmp_name MANIFEST_NAME; MANIFEST_NAME]); [done|..].
  - intros g name _ Hn%gen_name_log. by apply log_not_manifest.
  - intros g _. rewrite !elem_of_cons. intros [E|[E|E]]; [..|set_solver]; revert E; other_ending.
Qed.

(** [d] is a disk of generation [G], with the newest log [w]. *)
Record current (d : Disk) (m : Manifest) (pre : list pystr) (w : pystr) (G B : Z) (st : St) : Prop := {
  cu_wf : disk_wf d;
  cu_manifest : data_of d MANIFEST_NAME = Some (manifest_text m);
  cu_aofs : mf_aofs m = pre ++ [w];
  cu_gen : gen_name G w;
  cu_named : named G B (mf_snapshot m) pre;
  cu_holds : holds d (mf_snapshot m) pre st;
  cu_empty : forall g, G < g -> content d (aof_name g) = []
}.

Lemma current_frame d d' l m pre w G B st :
  disk_wf d' -> same_but l d d' -> Forall (aside G B) l -> current d m pre w G B st -> current d' m pre w G B st.
Proof.
  intros Hwf Hs Hl [H1 H2 H3 H4 H5 H6 H7]. split; try done.
  - rewrite <- H2. apply (same_but_data l); [done|]. intros Hin. rewrite Forall_forall in Hl.
    by apply (aside_manifest G B MANIFEST_NAME (Hl _ Hin)).
  - by eapply holds_frame.
  - intros g Hg. unfold content. rewrite (same_but_data l d d'); [by apply H7|done|]. intros Hin. rewrite Forall_forall in Hl.
    eapply (aside_log G B g); [by apply Hl|lia|]. split; [|by left]. destruct H4. lia.
Qed.

Lemma named_weaken G B B' snapshot pre : B <= B' -> named G B snapshot pre -> named G B' snapshot pre.
Proof.
  intros HB [Hp Hs]. split; [done|]. destruct snapshot; [|done]. destruct Hs as (g & Hg & E). exists g. split; [lia|done].
Qed.

Lemma current_ok d m pre w G B st : current d m pre w G B st -> manifest_ok m.
Proof.
  intros [_ _ H3 H4 [Hp Hs] _ _]. split; [by rewrite H3; destruct pre|]. split.
  - rewrite H3. apply Forall_app. split; [|apply Forall_singleton; by eapply gen_name_scalar].
    eapply Forall_impl; [exact Hp|]. intros name (g & _ & Hn). by eapply gen_name_scalar.
  - destruct (mf_snapshot m); [|done]. destruct Hs as (g & _ & ->). apply snapshot_name_scalar.
Qed.

(** No file of the store yet. *)
Definition fresh (d : Disk) : Prop :=
  disk_wf d /\ data_of d MANIFEST_NAME = None /\ data_of d LEGACY_AOF_NAME = None /\
  forall g, content d (aof_name g) = [].

(** The state after the first [n] of the writes [log]. *)
Definition after_writes (st : St) (log : list bytes) (n : nat) : St := apply_all st (entry <$> take n log).

(** [log]: the writes since the state [st]; at least [sure] of them are there. *)
Definition recovers (st : St) (log : list bytes) (sure : nat) (d : Disk) : Prop :=
  (exists m pre w G cut tail,
     current d m pre w G G (after_writes st log cut) /\ (cut <= length log)%nat /\ (sure <= length log)%nat /\
     Forall loggable log /\ torn tail /\
     content d w `prefix_of` frames (drop cut log) ++ tail /\
     frames (take (sure - cut) (drop cut log)) `prefix_of` content d w) \/
  (fresh d /\ log = [] /\ st = init /\ sure = 0%nat).

Lemma recovers_sure st log sure sure' d :
  (sure' <= sure)%nat -> recovers st log sure d -> recovers st log sure' d.
Proof.
  intros Hs [(m & pre & w & G & cut & tail & Hc & ? & ? & ? & ? & ? & Hp)|(? & ? & ? & ->)].
  - left. exists m, pre, w, G, cut, tail. split_and!; try done; [lia|]. etrans; [|exact Hp]. apply frames_take_prefix. lia.
  - right. split_and!; try done. lia.
Qed.

Lemma named_older G G' B snapshot pre : G <= G' -> named G B snapshot pre -> named G' B snapshot pre.
Proof.
  intros HG [Hp Hs]. split; [|done]. eapply Forall_impl; [exact Hp|]. intros name (g & ? & ?). exists g. split; [lia|done].
Qed.

(** The newest log becomes one of the older ones, and so do empty ones after it. *)
Lemma holds_extend d snapshot pre w extras cur st :
  holds d snapshot pre st -> content d w = frames cur -> Forall loggable cur ->
  Forall (fun name => content d name = []) extras ->
  holds d snapshot (pre ++ w :: extras) (apply_all st (entry <$> cur)).
Proof.
  intros (base & ps & Hb & Hp & Hall & E) Hw Hc He. exists base, (ps ++ cur :: ((fun _ => []) <$> extras)).
  assert (Hj : mjoin ((fun _ : pystr => []) <$> extras) = ([] : list bytes)) by (clear; by induction extras).
  assert (Hjoin : mjoin (ps ++ cur :: ((fun _ : pystr => []) <$> extras)) = mjoin ps ++ cur).
  { rewrite join_app. f_equal. transitivity (cur ++ mjoin ((fun _ : pystr => []) <$> extras) : list bytes); [done|].
    by rewrite Hj, app_nil_r. }
  rewrite Hjoin. split_and!.
  - done.
  - apply Forall2_app; [done|]. constructor; [done|]. clear Hj Hjoin. induction He as [|x l Hx _ IH]; constructor; [done|exact IH].
  - by apply Forall_app.
  - by rewrite fmap_app, app_assoc, apply_all_app, E.
Qed.

Section Reading.
Context (cf : PConfig).

Lemma read_older d pre payloads w u tail :
  Forall2 (holds_log d) pre payloads -> Forall loggable (mjoin payloads) ->
  Forall loggable tail -> torn u -> content d w = frames tail ++ u ->
  exists events, read_aofs cf d (pre ++ [w]) = (events, Ok (length (frames tail))) /\
    body <$> events = entry <$> (mjoin payloads ++ tail).
Proof.
  intros Hp Hl Ht Hu Hw. induction Hp as [|name ps pre payloads Hn Hp IH].
  - cbn [app read_aofs]. destruct (replay_log (cf_json_error cf) (cf_other_text cf) (file_path (cf_dir cf) w) true tail u
      (data_of d w)) as (events & -> & Hb); [done|done|by left|done|]. by exists events.
  - cbn [mjoin list_join] in Hl. apply Forall_app in Hl as [Hps Hl]. destruct (IH Hl) as (more & Em & Hm).
    destruct (replay_log (cf_json_error cf) (cf_other_text cf) (file_path (cf_dir cf) name) false ps []
      (data_of d name)) as (events & Ee & Hb); [done|by left|by right|by rewrite app_nil_r|].
    cbn [app read_aofs]. destruct (pre ++ [w]) as [|a l] eqn:E; [by destruct pre|].
    rewrite Ee, Em. exists (events ++ more). split; [done|]. rewrite fmap_app, Hb, Hm. cbn [mjoin list_join].
    by rewrite <- app_assoc, !fmap_app.
Qed.

(** What loading finds. *)
Lemma read_current d m pre w G B st tail u :
  current d m pre w G B st -> Forall loggable tail -> torn u -> content d w = frames tail ++ u ->
  manifest_load (cf_dir cf) (cf_read_error cf) d = Ok (Some m) /\
  exists events size, read_disk cf m d = (events, Ok (size, length (frames tail))) /\
    apply_all init (body <$> events) = apply_all st (entry <$> tail).
Proof.
  intros Hc Ht Hu Hw. pose proof (current_ok _ _ _ _ _ _ _ Hc) as Hok. destruct Hc as [_ Hm Ha _ _ (base & ps & Hb & Hp & Hl & E) _].
  split; [unfold manifest_load; by rewrite Hm, manifest_decode_text|].
  destruct (read_older d pre ps w u tail Hp Hl Ht Hu Hw) as (events & Er & Hbody).
  unfold read_disk. rewrite Ha, Er.
  assert (Hs : exists size, match mf_snapshot m with Some name => read_snapshot cf d name | None => ([], Ok 0) end = (base, Ok size)).
  { destruct (mf_snapshot m) as [name|]; [|simpl in Hb; subst; by eexists]. destruct Hb as (raw & Eraw & Hd).
    unfold read_snapshot. rewrite Eraw, Hd. by eexists. }
  destruct Hs as (size & ->). exists ((EvRecord <$> base) ++ events), size. split; [done|].
  rewrite fmap_app, Hbody, <- E. rewrite fmap_app, <- list_fmap_compose, <- apply_all_app, app_assoc. done.
Qed.
End Reading.
End Views.
