(* ===== verification/ManagerInv.v ===== *)
(** * The persistence manager keeps its promise

    The invariant of a running manager: its files, whatever part of them a
    crash may leave, recover every committed write and no write that was not
    made; and that every operation of the log writer keeps it, at every disk
    it goes through. *)

From Stdlib Require Import String.
From S2P Require Import Prelude PyStr PyFloat Errors Codec Pack Oracles Containers Eviction Store.
From S2P Require Import Snapshot SnapshotProofs Registry Resp RespProofs Json Engine Aof AofProofs.
From S2P Require Import Disk Manifest AofWriter Manager Recovery.
Local Close Scope string_scope.

(** ** As [runs], for the operations of the manager *)
Definition mruns {A} (c : PM A) (p : PState) (J : Disk -> Prop) (Q : result exn A -> PState -> Prop) : Prop :=
  along J (pm_io p) (pm_io (c p).2) /\ Q (c p).1 (c p).2.

Lemma mruns_forM {A} (f : A -> PM unit) l p J (I : PState -> Prop) :
  I p -> (forall x p, I p -> mruns (f x) p J (fun r p' => r = Ok tt /\ I p')) ->
  mruns (forM_list f l) p J (fun r p' => r = Ok tt /\ I p').
Proof.
  intros Hp Hf. revert p Hp. induction l as [|x l IH]; intros p Hp; [by split; [apply along_refl|]|].
  cbn [forM_list]. destruct (Hf x p Hp) as [Ha [Hr Hq]]. unfold mruns, bindM in *.
  destruct (f x p) as [r p1]. simpl in *. subst r. destruct (IH p1 Hq) as [Ha' Hq']. split; [by eapply along_trans|done].
Qed.

Section Rules.
Context {A : Type}.
Implicit Types (J : Disk -> Prop) (Q : result exn A -> PState -> Prop).

Lemma mruns_ret (a : A) p J Q : Q (Ok a) p -> mruns (ret a) p J Q.
Proof. intros H. split; [apply along_refl|done]. Qed.

Lemma mruns_raise x p J Q : Q (Raise x) p -> mruns (raise x) p J Q.
Proof. intros H. split; [apply along_refl|done]. Qed.

Lemma mruns_bind {B} (c : PM B) (f : B -> PM A) p J Q :
  mruns c p J (fun r p' => match r with
                           | Ok b => mruns (f b) p' J Q
                           | Raise x => Q (Raise x) p'
                           end) -> mruns (bindM c f) p J Q.
Proof.
  intros [Ha Hq]. unfold mruns, bindM. destruct (c p) as [[b|x] p1]; simpl in *; [|done].
  destruct Hq as [Ha' Hq']. split; [by eapply along_trans|done].
Qed.

Lemma mruns_get (f : PState -> PM A) p J Q : mruns (f p) p J Q -> mruns (bindM getM f) p J Q.
Proof. done. Qed.

Lemma mruns_modify g (f : PM A) p J Q :
  pm_io (g p) = pm_io p -> mruns f (g p) J Q -> mruns (bindM (modifyM g) (fun _ => f)) p J Q.
Proof. intros E [Ha Hq]. split; [|done]. unfold bindM, modifyM. by rewrite <- E. Qed.

Lemma mruns_mono (c : PM A) p J J' Q Q' :
  mruns c p J Q -> (forall d, J d -> J' d) -> (forall r p, Q r p -> Q' r p) -> mruns c p J' Q'.
Proof. intros [Ha Hq] HJ HQ. split; [by eapply along_impl|auto]. Qed.

Lemma mruns_disk (c : IOM A) p J Q :
  runs c (pm_io p) J (fun r d => forall s, io_disk s = d -> Q r (set_io s p)) -> mruns (on_disk c) p J Q.
Proof. intros [Ha Hq]. unfold mruns, on_disk. destruct (c (pm_io p)) as [r s]. split; [done|]. by apply Hq. Qed.

Lemma mruns_writer (c : WM A) p w J Q :
  pm_writer p = Some w ->
  wruns c w (pm_io p) J (fun r w' d => forall s, io_disk s = d -> Q r (set_io s (set_writer (Some w') p))) ->
  mruns (on_writer c) p J Q.
Proof.
  intros E [Ha Hq]. unfold mruns, on_writer. rewrite E. destruct (c (w, pm_io p)) as [r [w' s]]. split; [done|]. by apply Hq.
Qed.

Lemma mruns_catch (c : PM A) (f : exn -> bool) (h : exn -> PM A) p J Q :
  mruns c p J (fun r p' => match r with
                           | Raise x => if f x then mruns (h x) p' J Q else Q (Raise x) p'
                           | Ok a => Q (Ok a) p'
                           end) -> mruns (catchM c f h) p J Q.
Proof.
  intros [Ha Hq]. unfold mruns, catchM. destruct (c p) as [[a|x] p1]; simpl in *; [done|].
  destruct (f x); [|done]. destruct Hq as [Ha' Hq']. split; [by eapply along_trans|done].
Qed.
End Rules.

(** What an operation does not change: which calls fail. *)
Lemma mruns_outcome {A} (c : PM A) p J (Q : result exn A -> PState -> Prop) :
  mruns c p J Q -> mruns c p J (fun r p' => Q r p' /\ io_outcome (pm_io p') = io_outcome (pm_io p)).
Proof. intros [Ha Hq]. split; [done|]. split; [done|]. apply Ha. Qed.

Abbreviation disk p := (io_disk (pm_io p)).

(** ** The invariant *)

(** The writes since the manager started: those committed, and where the
    newest log begins. *)
Record History (St : Type) := mkHistory { h_start : St; h_log : list bytes; h_sure : nat; h_cut : nat }.
Arguments mkHistory {St}.
Arguments h_start {St}.
Arguments h_log {St}.
Arguments h_sure {St}.
Arguments h_cut {St}.

Section Inv.
Context {St : Type} (step : St -> SnapshotRecord + (pystr * list PyArg) -> St) (init : St).
Implicit Type H : History St.

Definition h_state H : St := after_writes step (h_start H) (h_log H) (h_cut H).
Definition h_current H : list bytes := drop (h_cut H) (h_log H).
Definition h_recovers H : Disk -> Prop := recovers step init (h_start H) (h_log H) (h_sure H).

(** What the newest log holds, with what its writer holds back: the writes
    since it began, and part of one that failed. *)
Record log_ok H (d : Disk) (w : AOFWriter) (tail : bytes) : Prop := {
  lo_inode : inode_of d (aw_name w) = Some (aw_inode w);
  lo_open : aw_closed w = false;
  lo_data : content d (aw_name w) ++ aw_buffer w = frames (h_current H) ++ tail;
  lo_tail : torn tail;
  lo_sure : frames (take (h_sure H - h_cut H) (h_current H)) `prefix_of` content d (aw_name w);
  lo_dirty : aw_buffer w <> [] -> aw_dirty w = true;
  lo_cut : (h_cut H <= length (h_log H))%nat;
  lo_le : (h_sure H <= length (h_log H))%nat;
  lo_all : Forall loggable (h_log H)
}.

(** A rewrite in the background: the records are the state where the newest
    log begins, and once they are written the file holds them. *)
Definition job_ok H (d : Disk) (G : Z) (j : RewriteJob) : Prop :=
  jb_snapshot j = snapshot_name G /\ Forall record_fits (jb_records j) /\ Z.of_nat (length (jb_records j)) < 2 ^ 64 /\
  apply_all step init (inl <$> jb_records j) = h_state H /\
  match jb_future j with Some (Ok _) => holds_snapshot d (Some (jb_snapshot j)) (jb_records j) | _ => True end.

(** While a rewrite is running its snapshot is not in any manifest. *)
Definition bound (p : PState) (G : Z) : Z := if rewrite_in_progress p then G - 1 else G.

(** The previous log, until it is closed: all of it is in its file. *)
Definition closing_ok (p : PState) : Prop :=
  match pm_closing p with Some (Some old) => aw_buffer old = [] /\ aw_dirty old = false | _ => True end.

(** The manifest in memory may differ from the one on disk: it was not saved. *)
Record inv_at H (p : PState) (w : AOFWriter) (md : Manifest) (pre mpre extras : list pystr) (G Gm : Z) (tail : bytes)
    : Prop := {
  iv_writer : pm_writer p = Some w;
  iv_current : current step init (disk p) md pre (aw_name w) G (bound p G) (h_state H);
  iv_log : log_ok H (disk p) w tail;
  iv_broken : tail <> [] -> aw_buffer w = [] /\ pm_write_error p <> None;
  iv_mem : mf_aofs (pm_manifest p) = mpre ++ aw_name w :: extras;
  iv_mem_named : named G (bound p G) (mf_snapshot (pm_manifest p)) mpre;
  iv_mem_holds : holds step init (disk p) (mf_snapshot (pm_manifest p)) mpre (h_state H);
  iv_extras : Forall (fun name => exists g, G < g <= Gm /\ name = aof_name g) extras;
  iv_last : forall name, last (aw_name w :: extras) = Some name -> gen_name Gm name;
  iv_pending : rewrite_in_progress p = true -> extras = [];
  iv_one : pm_job p = None \/ pm_copying p = None;
  iv_job : match pm_job p with Some j => job_ok H (disk p) G j | None => True end;
  iv_copying : match pm_copying p with Some n => n = snapshot_name G | None => True end;
  iv_closing : closing_ok p
}.

Definition inv H (p : PState) : Prop :=
  exists w md pre mpre extras G Gm tail, inv_at H p w md pre mpre extras G Gm tail.

Lemma inv_intro H p w md pre mpre extras G Gm tail : inv_at H p w md pre mpre extras G Gm tail -> inv H p.
Proof. intros Hi. by exists w, md, pre, mpre, extras, G, Gm, tail. Qed.

(** ** Disks on the way *)
Lemma holding_content d name i b d' :
  disk_wf d -> inode_of d name = Some i -> holding i b d d' ->
  inode_of d' name = Some i /\ content d' name = content d name ++ b /\ same_but [name] d d'.
Proof.
  intros Hwf Hi [Hwf' Hs]. destruct (append_spec d Hwf name i b Hi) as (_ & H2 & H3 & H4). split_and!.
  - rewrite (same_but_inode [] _ _ _ Hs) by set_solver. by rewrite H2.
  - unfold content. rewrite (same_but_data [] _ _ _ Hs) by set_solver. rewrite H3.
    destruct (inode_data d Hwf name i Hi) as [a ->]. done.
  - eapply same_but_trans; [exact H4|]. eapply same_but_weaken; [|exact Hs]. set_solver.
Qed.

Lemma bound_le p G : bound p G <= G.
Proof. unfold bound. case_match; lia. Qed.

Lemma current_newest d d' m pre w G B st :
  B <= G -> disk_wf d' -> same_but [w] d d' -> current step init d m pre w G B st -> current step init d' m pre w G B st.
Proof.
  intros HB Hwf Hs Hc. eapply current_frame; [done|exact Hs| |done]. apply Forall_singleton. right. left. apply Hc.
Qed.

Lemma current_weaken d m pre w G B B' st :
  B <= B' -> current step init d m pre w G B st -> current step init d m pre w G B' st.
Proof. intros HB [H1 H2 H3 H4 H5 H6 H7]. split; try done. by eapply named_weaken. Qed.

(** A disk the log writer leaves. *)
Lemma recovers_log st log sure cut d m pre w G B tail :
  B <= G -> current step init d m pre w G B (after_writes step st log cut) ->
  (cut <= length log)%nat -> (sure <= length log)%nat -> Forall loggable log -> torn tail ->
  content d w `prefix_of` frames (drop cut log) ++ tail ->
  frames (take (sure - cut) (drop cut log)) `prefix_of` content d w ->
  recovers step init st log sure d.
Proof.
  intros HB Hc ? ? ? ? ? ?. left. exists m, pre, w, G, cut, tail. split; [by eapply current_weaken|]. by split_and!.
Qed.

Lemma inv_recovers H p : inv H p -> h_recovers H (disk p).
Proof.
  intros (w & md & pre & mpre & extras & G & Gm & tail & []). destruct iv_log0.
  eapply recovers_log; [apply (bound_le p)|exact iv_current0|done|done|done|exact lo_tail0| |done].
  unfold h_current in lo_data0. rewrite <- lo_data0. by apply prefix_app_r.
Qed.

(** ** Steps of the log writer *)
Lemma job_frame H H' d d' l G j :
  job_ok H d G j -> same_but l d d' -> snapshot_name G ∉ l -> h_state H' = h_state H -> job_ok H' d' G j.
Proof.
  intros (E & H1 & H2 & H3 & H4) Hs Hl Hst. split_and!; try done; [by rewrite Hst|].
  destruct (jb_future j) as [[z|]|]; [|done..]. destruct H4 as (raw & Hr & Hd). exists raw. split; [|done].
  by rewrite (same_but_data l d d') by (rewrite ?E; done).
Qed.

Lemma snapshot_not_log G name : is_log name -> snapshot_name G ∉ [name].
Proof. intros Hn. rewrite list_elem_of_singleton. other_ending. Qed.

(** The writer moves [b] to its file. *)
Lemma inv_writer_step H H' p p' w w' md pre mpre extras G Gm tail tail' b :
  inv_at H p w md pre mpre extras G Gm tail ->
  holding (aw_inode w) b (disk p) (disk p') -> same_writer w w' -> pm_writer p' = Some w' ->
  (pm_manifest p', pm_job p', pm_copying p') = (pm_manifest p, pm_job p, pm_copying p) -> closing_ok p' ->
  h_state H' = h_state H -> log_ok H' (disk p') w' tail' ->
  (tail' <> [] -> aw_buffer w' = [] /\ pm_write_error p' <> None) ->
  inv_at H' p' w' md pre mpre extras G Gm tail'.
Proof.
  intros [] Hh (Hn & _) Hw' [= Em Ej Ec] El Est Hlog Hb.
  destruct (holding_content (disk p) (aw_name w) (aw_inode w) b (disk p')) as (_ & _ & Hs);
    [apply iv_current0|apply iv_log0|done|].
  assert (Hbound : bound p' G = bound p G) by (unfold bound, rewrite_in_progress; by rewrite Ej, Ec).
  split; rewrite ?Hbound, ?Hn, ?Em, ?Ej, ?Ec, ?Est; try done.
  - eapply current_newest; [apply (bound_le p)|apply Hh|done|done].
  - eapply holds_frame; [exact Hs| |done..]. apply Forall_singleton. right. left. apply iv_current0.
  - unfold rewrite_in_progress. by rewrite Ej, Ec.
  - destruct (pm_job p); [|done]. eapply job_frame; [done..| |done].
    apply snapshot_not_log. eapply gen_name_log, iv_current0.
Qed.

(** One more write. *)
Definition add_write (payload : bytes) H : History St :=
  mkHistory (h_start H) (h_log H ++ [payload]) (h_sure H) (h_cut H).

Lemma add_write_state payload H : (h_cut H <= length (h_log H))%nat -> h_state (add_write payload H) = h_state H.
Proof. intros Hc. unfold h_state, after_writes. simpl. by rewrite take_app_le. Qed.

Lemma add_write_current payload H :
  (h_cut H <= length (h_log H))%nat -> h_current (add_write payload H) = h_current H ++ [payload].
Proof. intros Hc. unfold h_current. simpl. by rewrite drop_app_le. Qed.

Lemma frames_snoc a p : frames (a ++ [p]) = frames a ++ frame_record p.
Proof. rewrite frames_app. f_equal. unfold frames. cbn [fmap list_fmap mjoin list_join]. apply app_nil_r. Qed.

Section Append.
Context (H : History St) (d : Disk) (w : AOFWriter) (payload : bytes).
Context (Hlog : log_ok H d w []) (Hp : loggable payload) (Hwf : disk_wf d).
Let data := aw_buffer w ++ frame_record payload.

(** Any part of the record in the file. *)
Lemma append_disk md pre G B n d' :
  B <= G -> current step init d md pre (aw_name w) G B (h_state H) -> holding (aw_inode w) (take n data) d d' ->
  recovers step init (h_start H) (h_log H ++ [payload]) (h_sure H) d'.
Proof.
  intros HB Hc Hh. destruct Hlog. rewrite app_nil_r in lo_data0.
  destruct (holding_content d (aw_name w) (aw_inode w) _ d' Hwf lo_inode0 Hh) as (_ & Ec & Hs).
  pose proof (add_write_current payload H lo_cut0) as Ecur.
  eapply (recovers_log _ _ _ (h_cut H) d' md pre (aw_name w) G B []); rewrite ?length_app; simpl; try lia.
  - eapply current_newest; [exact HB|apply Hh|done|]. rewrite <- (add_write_state payload H lo_cut0) in Hc. exact Hc.
  - apply Forall_app. split; [done|]. by apply Forall_singleton.
  - by left.
  - change (drop (h_cut H) (h_log H ++ [payload])) with (h_current (add_write payload H)).
    rewrite Ec, Ecur, app_nil_r, frames_snoc, <- lo_data0, <- app_assoc. apply prefix_app.
    fold data. rewrite <- (take_drop n data) at 2. by apply prefix_app_r.
  - change (drop (h_cut H) (h_log H ++ [payload])) with (h_current (add_write payload H)).
    rewrite Ec, Ecur, take_app_le by (unfold h_current; rewrite length_drop; lia). by apply prefix_app_r.
Qed.

Lemma append_log_ok n d' :
  holding (aw_inode w) (take n data) d d' ->
  log_ok (add_write payload H) d' (set_dirty true (set_buffer (drop n data) w)) [].
Proof.
  intros Hh. destruct Hlog. rewrite app_nil_r in lo_data0.
  destruct (holding_content d (aw_name w) (aw_inode w) _ d' Hwf lo_inode0 Hh) as (Hi & Ec & Hs).
  pose proof (add_write_current payload H lo_cut0) as Ecur. split; try done; rewrite ?Ecur; cbn [aw_name aw_buffer set_dirty set_buffer].
  - rewrite Ec, <- app_assoc, take_drop, app_nil_r, frames_snoc, <- lo_data0. by rewrite <- app_assoc.
  - simpl h_sure. simpl h_cut. rewrite Ec, take_app_le by (unfold h_current; rewrite length_drop; lia). by apply prefix_app_r.
  - simpl. rewrite length_app. lia.
  - simpl. rewrite length_app. lia.
  - simpl. apply Forall_app. split; [done|]. by apply Forall_singleton.
Qed.

Lemma append_failed_ok n d' :
  holding (aw_inode w) (take n data) d d' -> (n < length data)%nat ->
  let w' := set_buffer (drop n (aw_buffer w)) w in
  let tail := take (n - length (aw_buffer w)) (frame_record payload) in
  log_ok H d' w' tail /\ (tail <> [] -> aw_buffer w' = []).
Proof.
  intros Hh Hn w' tail. destruct Hlog. rewrite app_nil_r in lo_data0.
  destruct (holding_content d (aw_name w) (aw_inode w) _ d' Hwf lo_inode0 Hh) as (Hi & Ec & Hs).
  assert (Hb : tail <> [] -> drop n (aw_buffer w) = []).
  { intros Ht. apply drop_ge. destruct (decide (length (aw_buffer w) <= n)%nat); [lia|]. exfalso. apply Ht.
    unfold tail. by replace (n - length (aw_buffer w))%nat with 0%nat by lia. }
  split; [|done]. unfold data in Hn. rewrite length_app in Hn. split; try done; cbn [aw_name aw_buffer set_buffer w'].
  - rewrite Ec. unfold data. rewrite take_app. fold tail.
    rewrite <- lo_data0. rewrite <- !app_assoc. f_equal. rewrite <- (take_drop n (aw_buffer w)) at 3.
    rewrite <- app_assoc. f_equal. destruct (decide (tail = [])) as [->|Ht]; [by rewrite app_nil_r|].
    by rewrite (Hb Ht), app_nil_r.
  - destruct (decide (tail = [])) as [->|Ht]; [by left|]. right. exists payload, (drop (n - length (aw_buffer w)) (frame_record payload)).
    split; [by apply loggable_ok|]. split; [by unfold tail; rewrite take_drop|]. intros E%(f_equal length).
    rewrite length_drop in E. cbn [length] in E.
    pose proof (proj1 (length_zero_iff_nil (frame_record payload))) as Hz. pose proof (frame_record_nonempty payload) as Hne.
    destruct (decide (length (frame_record payload) = 0)%nat) as [Ez|]; [by apply Hne, Hz|lia].
  - rewrite Ec. by apply prefix_app_r.
  - simpl. intros Hne. apply lo_dirty0. by intros E; rewrite E, drop_nil in Hne.
Qed.
End Append.

Lemma append_keeps H p payload :
  inv H p -> loggable payload ->
  mruns (log_append payload) p (recovers step init (h_start H) (h_log H ++ [payload]) (h_sure H))
    (fun r p' => inv (match r, pm_write_error p with Ok _, None => add_write payload H | _, _ => H end) p').
Proof.
  intros (w & md & pre & mpre & extras & G & Gm & tail & Hi) Hp. unfold log_append. apply mruns_get.
  rewrite (iv_writer _ _ _ _ _ _ _ _ _ _ Hi). destruct (pm_write_error p) as [e|] eqn:Ee.
  { apply mruns_ret. by eapply inv_intro. }
  assert (tail = []) as ->.
  { destruct tail; [done|]. by destruct (iv_broken _ _ _ _ _ _ _ _ _ _ Hi) as [_ ?]. }
  pose proof (iv_current _ _ _ _ _ _ _ _ _ _ Hi) as Hc. pose proof (iv_log _ _ _ _ _ _ _ _ _ _ Hi) as Hlog.
  pose proof (cu_wf _ _ _ _ _ _ _ _ _ Hc) as Hwf.
  apply mruns_catch, (mruns_writer _ _ w); [apply Hi|].
  eapply wruns_mono; [apply append_runs; [done|apply Hlog]| |].
  { intros d' [n Hh]. by eapply append_disk; [..|apply (bound_le p)|exact Hc|exact Hh]. }
  intros r w' d' (n & Hh & Hr) s Es. rewrite <- Es in Hh. destruct r as [[]|x].
  - subst w'. exists (set_dirty true (set_buffer (drop n (aw_buffer w ++ frame_record payload)) w)), md, pre, mpre, extras, G, Gm, [].
    eapply inv_writer_step; [exact Hi|exact Hh|done|done|done|apply Hi| | |done].
    + apply add_write_state, Hlog.
    + by apply (append_log_ok H (disk p)).
  - destruct Hr as (-> & Hn & ->). destruct (append_failed_ok H _ w payload Hlog Hp Hwf n _ Hh Hn) as [Hl Hb].
    apply mruns_modify; [done|]. apply mruns_raise.
    exists (set_buffer (drop n (aw_buffer w)) w), md, pre, mpre, extras, G, Gm, (take (n - length (aw_buffer w)) (frame_record payload)).
    eapply inv_writer_step; [exact Hi|exact Hh|done|done|done|apply Hi|done|exact Hl|]. intros Ht. split; [by apply Hb|done].
Qed.

(** Everything written so far is committed. *)
Definition commit_all H : History St := mkHistory (h_start H) (h_log H) (length (h_log H)) (h_cut H).

(** The writer hands over part of what it holds. *)
Lemma drain_log H d w tail n w' d' ok s :
  io_disk s = d -> disk_wf d -> log_ok H d w tail -> drained w s n ok w' d' -> aw_closed w' = false ->
  log_ok H d' w' tail /\ (tail = [] -> aw_buffer w' = [] -> log_ok (commit_all H) d' w' []).
Proof.
  intros <- Hwf [] (Hh & Hb & (Hname & Hino & _) & Hd1 & Hd2 & Hd3) Hclosed.
  destruct (holding_content (io_disk s) (aw_name w) (aw_inode w) _ d' Hwf lo_inode0 Hh) as (Hi & Ec & Hs).
  assert (Hl : log_ok H d' w' tail).
  { split; try done; rewrite ?Hname, ?Hino; try done.
    - by rewrite Ec, Hb, <- app_assoc, take_drop.
    - rewrite Ec. by apply prefix_app_r.
    - intros Hne. rewrite Hd2 by done. apply lo_dirty0. rewrite Hb in Hne. intros E. by rewrite E, drop_nil in Hne. }
  split; [done|]. intros -> Hnil. destruct Hl. split; try done. simpl h_sure. simpl h_cut.
  rewrite Hnil, !app_nil_r in lo_data1. change (h_current (commit_all H)) with (h_current H).
  rewrite take_ge by (unfold h_current; rewrite length_drop; lia). by rewrite lo_data1.
Qed.

(** Nothing is lost by being less sure. *)
Lemma log_ok_sure H d w tail sure :
  (sure <= h_sure H)%nat -> log_ok H d w tail -> log_ok (mkHistory (h_start H) (h_log H) sure (h_cut H)) d w tail.
Proof.
  intros Hs []. split; try done; [|simpl; lia]. etrans; [|exact lo_sure0]. apply frames_take_prefix. simpl. lia.
Qed.

Section Writer.
Context (H : History St) (p : PState) (w : AOFWriter) (md : Manifest) (pre mpre extras : list pystr) (G Gm : Z) (tail : bytes).
Context (Hi : inv_at H p w md pre mpre extras G Gm tail).

Lemma inv_wf : disk_wf (disk p).
Proof. eapply cu_wf, iv_current, Hi. Qed.

Lemma inv_inode : inode_of (disk p) (aw_name w) = Some (aw_inode w).
Proof. eapply lo_inode, iv_log, Hi. Qed.

Lemma drain_disk n d' : holding (aw_inode w) (take n (aw_buffer w)) (disk p) d' -> h_recovers H d'.
Proof.
  intros Hh. destruct Hi. destruct iv_log0.
  destruct (holding_content (disk p) (aw_name w) (aw_inode w) _ d' inv_wf lo_inode0 Hh) as (_ & Ec & Hs).
  eapply (recovers_log _ _ _ (h_cut H) d'); [apply (bound_le p)| |done|done|done|exact lo_tail0| |].
  - eapply current_newest; [apply (bound_le p)|apply Hh|exact Hs|exact iv_current0].
  - rewrite Ec. change (drop (h_cut H) (h_log H)) with (h_current H). rewrite <- lo_data0. apply prefix_app.
    rewrite <- (take_drop n (aw_buffer w)) at 2. by apply prefix_app_r.
  - rewrite Ec. by apply prefix_app_r.
Qed.

(** Nothing is left to hand over, and no write has failed. *)
Definition flushed (r : result exn unit) (w' : AOFWriter) : Prop :=
  match r with Ok _ => aw_buffer w' = [] /\ aw_dirty w' = false | Raise x => isinstance x OSError = true end.

Definition committed (r : result exn unit) : History St :=
  match r, tail with Ok _, [] => commit_all H | _, _ => H end.

Lemma commit_writer :
  mruns (on_writer aof_commit) p (h_recovers H)
    (fun r p' => exists w' s, p' = set_io s (set_writer (Some w') p) /\ flushed r w' /\
       inv_at (committed r) p' w' md pre mpre extras G Gm tail).
Proof.
  apply (mruns_writer _ _ w); [apply Hi|]. pose proof (iv_log _ _ _ _ _ _ _ _ _ _ Hi) as Hlog.
  eapply wruns_mono; [apply commit_runs; [apply inv_wf|apply inv_inode|apply Hlog]|intros d' [n Hh]; by eapply drain_disk|].
  intros r w' d' (n & Hclosed & Hr) s Es. exists w', s. split; [done|].
  rewrite (lo_open _ _ _ _ Hlog) in Hclosed.
  assert (Hdr : exists ok, drained w (pm_io p) n ok w' d') by (destruct r; eexists; apply Hr). destruct Hdr as [ok Hdr].
  destruct (drain_log H (disk p) w tail n w' d' ok (pm_io p) eq_refl inv_wf Hlog Hdr Hclosed) as [Hl Hl'].
  split; [destruct r; [split; [apply Hr|destruct Hr as [(? & ? & ? & ? & ? & Hd) _]; by apply Hd]|apply Hr]|].
  eapply inv_writer_step; [exact Hi|simpl; rewrite Es; apply Hdr|apply Hdr|done|done|apply Hi| | |].
  - unfold committed. by destruct r, tail.
  - simpl. rewrite Es. unfold committed. destruct r as [[]|]; [|done]. destruct tail; [|done]. apply Hl'; [done|]. apply Hr.
  - intros Ht. destruct (iv_broken _ _ _ _ _ _ _ _ _ _ Hi Ht) as [Hb ?]. split; [|done].
    destruct Hdr as (_ & -> & _). by rewrite Hb, drop_nil.
Qed.

(** The data of the files stays as it is. *)
Lemma inv_sync p' w' :
  disk_wf (disk p') -> same_but [] (disk p) (disk p') -> pm_writer p' = Some w' -> same_writer w w' ->
  aw_buffer w' = aw_buffer w -> (aw_buffer w <> [] -> aw_dirty w' = aw_dirty w) -> aw_closed w' = aw_closed w ->
  (pm_manifest p', pm_job p', pm_copying p') = (pm_manifest p, pm_job p, pm_copying p) -> closing_ok p' ->
  (pm_write_error p <> None -> pm_write_error p' <> None) ->
  inv_at H p' w' md pre mpre extras G Gm tail.
Proof.
  intros Hwf Hs Hw Hsame Eb Ed Ec E Hcl He.
  assert (Hh : holding (aw_inode w) [] (disk p) (disk p')).
  { split; [done|]. eapply same_but_trans; [|exact Hs].
    pose proof (holding_nil w (pm_io p) inv_wf inv_inode) as [_ H1]. intros x Hx. by destruct (H1 x Hx). }
  eapply inv_writer_step; [exact Hi|exact Hh|done..| |].
  - destruct (iv_log _ _ _ _ _ _ _ _ _ _ Hi), Hsame as (En & Ei & _).
    assert (Econ : content (disk p') (aw_name w) = content (disk p) (aw_name w))
      by (unfold content; by rewrite (same_but_data [] _ _ _ Hs) by set_solver).
    split; rewrite ?En, ?Ei, ?Eb, ?Ec, ?Econ; try done.
    + rewrite (same_but_inode [] _ _ _ Hs) by set_solver. done.
    + intros Hne. rewrite Ed by done. auto.
  - intros Ht. rewrite Eb. destruct (iv_broken _ _ _ _ _ _ _ _ _ _ Hi Ht). auto.
Qed.

Lemma recovers_same d' : disk_wf d' -> same_but [] (disk p) d' -> h_recovers H d'.
Proof.
  intros Hwf Hs. apply (drain_disk 0). split; [done|]. eapply same_but_trans; [|exact Hs].
  pose proof (holding_nil w (pm_io p) inv_wf inv_inode) as [_ H1]. intros x Hx. by destruct (H1 x Hx).
Qed.
End Writer.

Lemma commit_keeps H p :
  inv H p ->
  mruns log_commit p (h_recovers H)
    (fun r p' => inv (match r, pm_write_error p with Ok _, None => commit_all H | _, _ => H end) p').
Proof.
  intros (w & md & pre & mpre & extras & G & Gm & tail & Hi). unfold log_commit. apply mruns_get.
  rewrite (iv_writer _ _ _ _ _ _ _ _ _ _ Hi). destruct (pm_write_error p) as [e|] eqn:Ee.
  { apply mruns_ret. by eapply inv_intro. }
  assert (tail = []) as ->.
  { destruct tail; [done|]. by destruct (iv_broken _ _ _ _ _ _ _ _ _ _ Hi) as [_ ?]. }
  apply mruns_bind. destruct (aw_background_error w) as [x|].
  - apply mruns_bind, (mruns_writer _ _ w); [apply Hi|]. apply wruns_upd. intros s Es.
    apply mruns_modify; [done|]. apply mruns_raise. exists (set_background_error None w), md, pre, mpre, extras, G, Gm, [].
    eapply inv_sync; try done; simpl; rewrite ?Es; [by eapply inv_wf|done|apply Hi].
  - apply mruns_ret, mruns_catch. eapply mruns_mono; [eapply commit_writer, Hi|done|].
    intros r p' (w' & s & -> & Hf & Hi'). destruct r as [[]|x]; [by eapply inv_intro|].
    unfold flushed in Hf. rewrite Hf. apply mruns_modify; [done|]. apply mruns_raise. exists w', md, pre, mpre, extras, G, Gm, [].
    pose proof (inv_wf _ _ _ _ _ _ _ _ _ _ Hi') as Hwf'.
    eapply inv_sync; [exact Hi'|exact Hwf'|apply same_but_refl|done..|apply Hi|done].
Qed.
End Inv.
