(* ===== verification/ManagerRewrite.v ===== *)
(** * Rewrites keep the promise

    The threads and the steps of a rewrite: at every disk they go through, the
    manifest that is current lists files that recover everything. *)

From Stdlib Require Import String.
From S2P Require Import Prelude PyStr PyFloat Errors Codec Pack Oracles Containers Eviction Store.
From S2P Require Import Snapshot SnapshotProofs Registry Resp RespProofs Json Engine Aof AofProofs.
From S2P Require Import Disk Manifest AofWriter Manager Recovery ManagerInv.
Local Close Scope string_scope.

(** ** Snapshot files *)
Lemma write_all_decodes records created_at size wr path :
  Forall record_fits records -> Z.of_nat (length records) < 2 ^ 64 ->
  write_all records created_at (new_writer []) = (Ok size, wr) ->
  decode_snapshot (wr_file wr) path = (records, None).
Proof.
  intros Hr Hn E.
  assert (Hc : exists created, to_millis created_at = Ok created /\ - 2 ^ 63 <= created < 2 ^ 63).
  { unfold write_all in E. unfold bindM at 1, lift at 1 in E. destruct (to_millis created_at) as [created|x]; [|done].
    exists created. split; [done|]. rewrite pack_unsigned_ok in E by (unfold VERSION; simpl; lia).
    unfold bindM at 1, lift at 1 in E. unfold bindM at 1, lift at 1 in E. unfold pack_i64 in E.
    destruct (Z.leb_spec (- 2 ^ 63) created); [|done]. by destruct (Z.ltb_spec created (2 ^ 63)). }
  destruct Hc as (created & Ec & Hb). pose proof (encode_snapshot_bytes records created_at created Hr Hn Ec Hb) as Ee.
  unfold encode_snapshot in Ee. rewrite E in Ee. injection Ee as ->. by apply decode_snapshot_bytes.
Qed.

Section Steps.
Context {St : Type} (step : St -> SnapshotRecord + (pystr * list PyArg) -> St) (init : St).
Context (H : History St) (p : PState) (w : AOFWriter) (md : Manifest) (pre mpre extras : list pystr) (G Gm : Z) (tail : bytes).
Context (Hi : inv_at step init H p w md pre mpre extras G Gm tail).

Lemma steps_wf : disk_wf (disk p).
Proof. by eapply inv_wf. Qed.

(** The fields the threads leave alone. *)
Definition kept (p' : PState) : Prop :=
  pm_config p' = pm_config p /\ pm_manifest p' = pm_manifest p /\ pm_job p' = pm_job p /\
  pm_copying p' = pm_copying p /\ pm_write_error p' = pm_write_error p.

(** *** The threads *)
Lemma close_thread :
  mruns thread_close p (h_recovers step init H)
    (fun r p' => r = Ok tt /\ kept p' /\ (pm_closing p' = None \/ pm_closing p' = Some None) /\
       exists w', inv_at step init H p' w' md pre mpre extras G Gm tail).
Proof.
  unfold thread_close. apply mruns_get. destruct (pm_closing p) as [[old|]|] eqn:Ec;
    [|apply mruns_ret; split_and!; eauto..]; try by (split_and!).
  apply mruns_modify; [done|].
  pose proof (iv_closing _ _ _ _ _ _ _ _ _ _ _ _ Hi) as Hcl. unfold closing_ok in Hcl. rewrite Ec in Hcl.
  destruct Hcl as [Hb Hd]. destruct (close_idle_runs old (pm_io p) steps_wf Hb Hd) as [Ha [Hwf' Hs]].
  unfold mruns. simpl. destruct (aof_close (old, pm_io p)) as [[[]|x] [old' s]]; simpl in *.
  all: split; [eapply along_impl; [|exact Ha]; intros d' [? ?]; by eapply recovers_same|].
  all: split; [done|]; split; [by split_and!|]; split; [by right|].
  - exists w. eapply inv_sync; [exact Hi|done|done|apply Hi|done..].
  - exists (set_background_error (Some x) w). eapply inv_sync; [exact Hi|done|done| |done..]. simpl.
    by rewrite (iv_writer _ _ _ _ _ _ _ _ _ _ _ _ Hi).
Qed.

Lemma fsync_thread :
  mruns thread_fsync p (h_recovers step init H)
    (fun r p' => r = Ok tt /\ exists w', inv_at step init H p' w' md pre mpre extras G Gm tail).
Proof.
  unfold thread_fsync. apply mruns_get. rewrite (iv_writer _ _ _ _ _ _ _ _ _ _ _ _ Hi).
  case_bool_decide; [|apply mruns_ret; eauto]. apply (mruns_writer _ _ w); [apply Hi|].
  eapply wruns_mono; [apply round_runs; [exact steps_wf|by eapply inv_inode]| |].
  - intros d' [n Hh]. by eapply drain_disk.
  - intros r w' d' (-> & (Hh & Hb & Hsame & _ & Hd & _) & Hc) s Es. split; [done|]. exists w'.
    change (drop 0 (aw_buffer w)) with (aw_buffer w) in Hb. rewrite Hb in Hd.
    eapply inv_sync; [exact Hi|simpl; rewrite Es; apply Hh| |done..|apply Hi|done].
    simpl. rewrite Es. by eapply holding_same; [exact steps_wf|by eapply inv_inode|].
Qed.

(** *** What is done aside *)
Lemma inv_aside p' l :
  disk_wf (disk p') -> same_but l (disk p) (disk p') -> Forall (aside G (bound p G)) l -> aw_name w ∉ l ->
  pm_writer p' = Some w -> pm_manifest p' = pm_manifest p -> pm_write_error p' = pm_write_error p ->
  (rewrite_in_progress p' = true -> rewrite_in_progress p = true) ->
  pm_job p' = None \/ pm_copying p' = None ->
  match pm_job p' with Some j => job_ok step init H (disk p') G j | None => True end ->
  match pm_copying p' with Some n => n = snapshot_name G | None => True end -> closing_ok p' ->
  inv_at step init H p' w md pre mpre extras G Gm tail.
Proof.
  intros Hwf' Hs Hl Hw Ew Em Ee Hp Ho Hj Hc Hcl. destruct Hi.
  assert (Hb : bound p G <= bound p' G).
  { unfold bound. destruct (rewrite_in_progress p'); [by rewrite Hp|]. destruct (rewrite_in_progress p); lia. }
  assert (Econ : content (disk p') (aw_name w) = content (disk p) (aw_name w))
    by (unfold content; by rewrite (same_but_data _ _ _ _ Hs)).
  split; rewrite ?Em, ?Ee; try done; auto.
  - eapply current_weaken; [exact Hb|]. by eapply current_frame.
  - destruct iv_log. split; rewrite ?Econ; try done. by rewrite (same_but_inode _ _ _ _ Hs).
  - by eapply named_weaken.
  - by eapply holds_frame.
Qed.

(** The fields the invariant is about. *)
Lemma inv_fields p' :
  pm_io p' = pm_io p -> pm_writer p' = pm_writer p -> pm_manifest p' = pm_manifest p ->
  pm_write_error p' = pm_write_error p -> pm_job p' = pm_job p -> pm_copying p' = pm_copying p ->
  pm_closing p' = pm_closing p -> inv_at step init H p' w md pre mpre extras G Gm tail.
Proof.
  intros Eio Ew Em Ee Ej Ec El. apply (inv_aside p' []); rewrite ?Eio, ?Ew, ?Ej, ?Ec; try done.
  - apply steps_wf.
  - set_solver.
  - apply Hi.
  - unfold rewrite_in_progress. by rewrite Ej, Ec.
  - apply Hi.
  - apply Hi.
  - apply Hi.
  - unfold closing_ok. rewrite El. apply Hi.
Qed.
End Steps.

(** A snapshot is in its file only when it is whole. *)
Lemma write_snapshot_runs name records created s :
  disk_wf (io_disk s) -> Forall record_fits records -> Z.of_nat (length records) < 2 ^ 64 ->
  runs (write_snapshot name records created) s
    (fun d' => disk_wf d' /\ same_but [tmp_name name; name] (io_disk s) d')
    (fun r d' => disk_wf d' /\ same_but [tmp_name name; name] (io_disk s) d' /\
       match r with Ok _ => holds_snapshot d' (Some name) records | Raise _ => True end).
Proof.
  intros Hwf Hr Hn. unfold write_snapshot. destruct (write_all records created (new_writer [])) as [r wr] eqn:E.
  assert (Hun : forall d', unwritten name (io_disk s) d' -> disk_wf d' /\ same_but [tmp_name name; name] (io_disk s) d').
  { intros d' [? Hs]. split; [done|]. eapply same_but_weaken; [|exact Hs]. set_solver. }
  apply runs_bind. eapply runs_mono; [by apply runs_atomically|intros d' [?|[_ (? & _ & ?)]]; auto|].
  intros [[]|x] d' Hd.
  - destruct Hd as [Hf (? & Hdata & ?)]. intros s' <-. destruct r as [size|x]; [|done]. split; [apply along_refl|].
    split_and!; try done. exists (wr_file wr). split; [done|]. intros path. by eapply write_all_decodes.
  - destruct (Hun d' Hd). by split_and!.
Qed.


Section Threads.
Context {St : Type} (step : St -> SnapshotRecord + (pystr * list PyArg) -> St) (init : St).
Implicit Type H : History St.
#[local] Abbreviation inv := (inv step init).
#[local] Abbreviation h_recovers := (h_recovers step init).

Lemma aside_snapshot_files H p w md pre mpre extras G Gm tail :
  inv_at step init H p w md pre mpre extras G Gm tail -> rewrite_in_progress p = true ->
  Forall (aside G (bound p G)) [tmp_name (snapshot_name G); snapshot_name G] /\
  aw_name w ∉ [tmp_name (snapshot_name G); snapshot_name G].
Proof.
  intros Hi Hp. pose proof (iv_current _ _ _ _ _ _ _ _ _ _ _ _ Hi) as Hc.
  pose proof (cu_gen _ _ _ _ _ _ _ _ _ Hc) as Hg. split.
  - apply Forall_cons. split; [left; by eexists|]. apply Forall_singleton. right. right. exists G.
    unfold bound. rewrite Hp. destruct Hg. split_and!; [lia|lia|done].
  - apply gen_name_log in Hg. rewrite !elem_of_cons. intros [E|[E|E]]; [..|set_solver]; revert E; other_ending.
Qed.

Lemma snapshot_thread H p :
  inv H p ->
  mruns thread_snapshot p (h_recovers H)
    (fun r p' => r = Ok tt /\ inv H p' /\ pm_closing p' = pm_closing p /\
       match pm_job p' with Some j => jb_future j <> None | None => True end).
Proof.
  intros (w & md & pre & mpre & extras & G & Gm & tail & Hi). unfold thread_snapshot. apply mruns_get.
  assert (Hinv : inv H p) by (by eapply inv_intro).
  destruct (pm_job p) as [[name records created [f|]]|] eqn:Ej;
    [apply mruns_ret; rewrite Ej; by split_and!| |apply mruns_ret; rewrite Ej; by split_and!].
  pose proof (iv_job _ _ _ _ _ _ _ _ _ _ _ _ Hi) as Hj. rewrite Ej in Hj. destruct Hj as (En & Hr & Hn & Hst & _).
  simpl in En, Hr, Hn, Hst. subst name.
  assert (Hp : rewrite_in_progress p = true) by (unfold rewrite_in_progress; by rewrite Ej).
  assert (Ho : pm_copying p = None) by (destruct (iv_one _ _ _ _ _ _ _ _ _ _ _ _ Hi); congruence).
  destruct (aside_snapshot_files _ _ _ _ _ _ _ _ _ _ Hi Hp) as [Hl Hw].
  destruct (write_snapshot_runs (snapshot_name G) records created (pm_io p)) as [Ha Hq]; [by eapply inv_wf|done..|].
  unfold mruns. simpl. destruct (write_snapshot (snapshot_name G) records created (pm_io p)) as [r s].
  destruct Hq as (Hwf & Hs & Hd). simpl in *. split; [|split; [done|split; [|done]]].
  - eapply along_impl; [|exact Ha]. intros d' [? ?].
    apply (inv_recovers step init H (set_io (mkIO d' [] (io_outcome s) 0) p)). exists w, md, pre, mpre, extras, G, Gm, tail.
    eapply inv_aside; [exact Hi|done|done|done|done|apply Hi|done|done|done|right; exact Ho| |apply Hi|apply Hi].
    simpl. rewrite Ej. by split_and!.
  - exists w, md, pre, mpre, extras, G, Gm, tail.
    eapply inv_aside; [exact Hi|done|done|done|done|apply Hi|done|done|done|right; exact Ho| |apply Hi|apply Hi].
    simpl. by split_and!.
Qed.

Lemma abandon_keeps H p : inv H p -> mruns abandon_copy p (h_recovers H) (fun r p' => inv H p').
Proof.
  intros (w & md & pre & mpre & extras & G & Gm & tail & Hi). split; [apply along_refl|].
  exists w, md, pre, mpre, extras, G, Gm, tail. eapply (inv_aside step init H p) with (l := []); try done; try apply Hi.
  - set_solver.
  - unfold rewrite_in_progress. simpl. by destruct (pm_job p).
  - by right.
Qed.

(** The records are what the store held when the newest log began. *)
Lemma finish_copy_keeps H p records :
  inv H p -> Forall record_fits records -> Z.of_nat (length records) < 2 ^ 64 ->
  apply_all step init (inl <$> records) = h_state step H ->
  mruns (finish_copy records) p (h_recovers H) (fun r p' => inv H p').
Proof.
  intros (w & md & pre & mpre & extras & G & Gm & tail & Hi) Hr Hn Hst. unfold finish_copy. apply mruns_get.
  apply mruns_modify; [done|]. destruct (pm_copying p) as [snapshot|] eqn:Ec.
  2: { apply mruns_raise. exists w, md, pre, mpre, extras, G, Gm, tail. by eapply inv_fields. }
  pose proof (iv_copying _ _ _ _ _ _ _ _ _ _ _ _ Hi) as Hc. rewrite Ec in Hc. subst snapshot.
  split; [apply along_refl|]. simpl. exists w, md, pre, mpre, extras, G, Gm, tail.
  eapply (inv_aside step init H p) with (l := []); try done; try apply Hi.
  - set_solver.
  - unfold rewrite_in_progress. rewrite Ec. by destruct (pm_job p).
  - by right.
Qed.
End Threads.

(** ** Switching to a new log *)
Section Switch.
Context {St : Type} (step : St -> SnapshotRecord + (pystr * list PyArg) -> St) (init : St).
Context (H : History St) (p : PState) (w : AOFWriter) (md : Manifest) (pre mpre extras : list pystr) (G Gm : Z) (tail : bytes).
Context (Hi : inv_at step init H p w md pre mpre extras G Gm tail).

Lemma join_closing_runs :
  mruns join_closing p (h_recovers step init H)
    (fun r p' => r = Ok tt /\ kept p p' /\ pm_closing p' = None /\
       exists w', inv_at step init H p' w' md pre mpre extras G Gm tail).
Proof.
  unfold join_closing. apply mruns_get. destruct (pm_closing p) as [c|] eqn:Ec.
  - apply mruns_bind. eapply mruns_mono; [by eapply close_thread|done|].
    intros r p' (-> & Hk & _ & w' & Hi'). split; [apply along_refl|]. split; [done|]. split; [done|]. split; [done|].
    exists w'. eapply (inv_aside step init H p') with (l := []); try done; try apply Hi'. set_solver.
  - apply mruns_ret. split; [done|]. split; [by split_and!|]. split; [done|]. by exists w.
Qed.

Lemma gen_last : G <= Gm.
Proof.
  destruct Hi. destruct (last (aw_name w :: extras)) as [name|] eqn:E; [|by apply last_None in E].
  destruct extras as [|x l]; [specialize (iv_last name eq_refl); injection E as <-|].
  - rewrite (gen_name_inj Gm G (aw_name w)); [lia|done|apply iv_current].
  - inversion iv_extras as [|? ? (g & ? & _) _]. lia.
Qed.

Lemma last_generation g : generation_of (default [] (last (mf_aofs (pm_manifest p)))) = Ok g -> g = Gm.
Proof.
  destruct Hi. rewrite iv_mem, last_app. destruct (last (aw_name w :: extras)) as [name|] eqn:E; [|by apply last_None in E].
  simpl. apply generation_exact. by apply iv_last.
Qed.

Let new := aof_name (Gm + 1).

Lemma new_gen : gen_name (Gm + 1) new.
Proof. split; [|by left]. pose proof gen_last. destruct (cu_gen _ _ _ _ _ _ _ _ _ (iv_current _ _ _ _ _ _ _ _ _ _ _ _ Hi)). lia. Qed.

Lemma not_new g name : gen_name g name -> g <= Gm -> name <> new.
Proof. intros Hg Hle ->. pose proof (gen_name_inj _ _ _ Hg new_gen). lia. Qed.

Lemma older_not_new : aw_name w <> new.
Proof. eapply not_new; [apply (iv_current _ _ _ _ _ _ _ _ _ _ _ _ Hi)|apply gen_last]. Qed.

(** Opening the new log. *)
Lemma inv_open s :
  io_disk s = d_open new (disk p) -> inv_at step init H (set_io s p) w md pre mpre extras G Gm tail.
Proof.
  intros Es. pose proof gen_last as Hle. pose proof new_gen as Hgen. pose proof older_not_new as Hne. destruct Hi.
  pose proof (cu_wf _ _ _ _ _ _ _ _ _ iv_current) as Hwf.
  destruct (open_spec (disk p) Hwf new) as (Hwf' & _ & Hnew & Hs). rewrite <- Es in Hwf', Hnew, Hs.
  assert (Ha : forall B, Forall (aside (Gm + 1) B) [new]) by (intros B; apply Forall_singleton; right; by left).
  assert (Econ : content (io_disk s) (aw_name w) = content (disk p) (aw_name w))
    by (unfold content; by rewrite (same_but_data _ _ _ _ Hs) by set_solver).
  split; try done; simpl.
  - destruct iv_current as [H1 H2 H3 H4 H5 H6 H7]. split; try done.
    + rewrite <- H2. apply (same_but_data _ _ _ _ Hs). rewrite list_elem_of_singleton. unfold new. other_ending.
    + eapply (holds_frame _ _ _ _ _ (Gm + 1)); [exact Hs|apply Ha| |done]. eapply named_older; [|done]. lia.
    + intros g Hg. unfold content. destruct (decide (aof_name g = new)) as [->|].
      * rewrite Hnew. specialize (H7 (Gm + 1) ltac:(lia)). unfold content in H7. fold new in H7. by destruct (data_of (disk p) new).
      * rewrite (same_but_data _ _ _ _ Hs) by set_solver. by apply H7.
  - destruct iv_log. split; rewrite ?Econ; try done. by rewrite (same_but_inode _ _ _ _ Hs) by set_solver.
  - eapply (holds_frame _ _ _ _ _ (Gm + 1)); [exact Hs|apply Ha| |done]. eapply named_older; [|done]. lia.
  - destruct (pm_job p); [|done]. eapply job_frame; [done|exact Hs| |done]. apply snapshot_not_log, ending_aof.
Qed.

Definition next_manifest : Manifest :=
  mkManifest (mf_snapshot (pm_manifest p)) (mf_aofs (pm_manifest p) ++ [new]).

(** The new manifest before it is saved, and when that fails. *)
Lemma inv_unsaved :
  rewrite_in_progress p = false ->
  inv_at step init H (set_manifest next_manifest p) w md pre mpre (extras ++ [new]) G (Gm + 1) tail.
Proof.
  intros Hp. pose proof gen_last as Hle. pose proof new_gen as Hgen. destruct Hi. split; try done; simpl.
  - by rewrite iv_mem, <- app_assoc.
  - apply Forall_app. split; [|apply Forall_singleton; exists (Gm + 1); split; [lia|done]].
    eapply Forall_impl; [exact iv_extras|]. intros name (g & ? & ?). exists g. split; [lia|done].
  - intros name. rewrite app_comm_cons, last_snoc. by intros [= <-].
  - change (rewrite_in_progress (set_manifest next_manifest p)) with (rewrite_in_progress p). by rewrite Hp.
Qed.

(** Everything so far is in older files. *)
Definition switch (H : History St) : History St :=
  mkHistory (h_start H) (h_log H) (length (h_log H)) (length (h_log H)).

Lemma switch_state : apply_all step (h_state step H) (entry <$> h_current H) = h_state step (switch H).
Proof.
  unfold h_state, h_current, after_writes. simpl. rewrite <- apply_all_app, <- fmap_app, take_drop.
  by rewrite take_ge by lia.
Qed.

Lemma switched_empty d' :
  written MANIFEST_NAME (manifest_text next_manifest) (disk p) d' -> content d' new = [].
Proof.
  intros (_ & _ & Hs). unfold content. rewrite (same_but_data _ _ _ _ Hs) by apply log_not_manifest, ending_aof.
  pose proof gen_last. apply (cu_empty _ _ _ _ _ _ _ _ _ (iv_current _ _ _ _ _ _ _ _ _ _ _ _ Hi)). lia.
Qed.

Lemma switched_current d' :
  tail = [] -> aw_buffer w = [] -> written MANIFEST_NAME (manifest_text next_manifest) (disk p) d' ->
  current step init d' next_manifest (mpre ++ aw_name w :: extras) new (Gm + 1) Gm (h_state step (switch H)).
Proof.
  intros Et Eb (Hwf & Hm & Hs). pose proof gen_last as Hle. pose proof new_gen as Hgen. destruct Hi.
  assert (Hnm : forall g, content d' (aof_name g) = content (disk p) (aof_name g)).
  { intros g. unfold content. by rewrite (same_but_data _ _ _ _ Hs) by apply log_not_manifest, ending_aof. }
  assert (Hn : named (Gm + 1) Gm (mf_snapshot (pm_manifest p)) (mpre ++ aw_name w :: extras)).
  { pose proof (bound_le p G) as Hb. destruct (named_weaken G (bound p G) Gm _ _ ltac:(lia) iv_mem_named) as [Hp Hsn]. split; [|done].
    apply Forall_app. split; [|apply Forall_cons; split].
    - eapply Forall_impl; [exact Hp|]. intros name (g & ? & ?). exists g. split; [lia|done].
    - exists G. split; [lia|]. apply iv_current.
    - eapply Forall_impl; [exact iv_extras|]. intros name (g & ? & ->). exists g. split; [lia|]. split; [|by left].
      destruct (cu_gen _ _ _ _ _ _ _ _ _ iv_current). lia. }
  split; try done.
  - simpl. by rewrite iv_mem.
  - eapply holds_manifest; [exact Hs|exact Hn|]. rewrite <- switch_state. apply holds_extend; [done|..].
    + destruct iv_log. by rewrite Eb, Et, !app_nil_r in lo_data.
    + apply Forall_drop, iv_log.
    + eapply Forall_impl; [exact iv_extras|]. intros name (g & ? & ->). apply (cu_empty _ _ _ _ _ _ _ _ _ iv_current). lia.
  - intros g Hg. rewrite Hnm. apply (cu_empty _ _ _ _ _ _ _ _ _ iv_current). lia.
Qed.

(** Saving the new manifest: until it is in place the old files count, from
    then on the new ones. *)
Lemma save_runs :
  tail = [] -> aw_buffer w = [] -> rewrite_in_progress p = false ->
  mruns (on_disk (manifest_save next_manifest)) (set_manifest next_manifest p) (h_recovers step init H)
    (fun r p' => exists s, p' = set_io s (set_manifest next_manifest p) /\
       match r with
       | Ok _ => written MANIFEST_NAME (manifest_text next_manifest) (disk p) (io_disk s)
       | Raise _ => inv step init H p'
       end).
Proof.
  intros Et Eb Hp. pose proof (inv_unsaved Hp) as Hi'. pose proof (inv_wf _ _ _ _ _ _ _ _ _ _ _ _ Hi) as Hwf.
  assert (Hun : forall s, unwritten MANIFEST_NAME (disk p) (io_disk s) -> inv step init H (set_io s (set_manifest next_manifest p))).
  { intros s [Hwf' Hs]. exists w, md, pre, mpre, (extras ++ [new]), G, (Gm + 1), tail.
    eapply (inv_aside step init) with (l := [tmp_name MANIFEST_NAME]); [exact Hi'|done|done| | |apply Hi|done|done|done|apply Hi| |apply Hi|apply Hi].
    - apply Forall_singleton. left. by eexists.
    - rewrite list_elem_of_singleton. pose proof (gen_name_log _ _ (cu_gen _ _ _ _ _ _ _ _ _ (iv_current _ _ _ _ _ _ _ _ _ _ _ _ Hi))). other_ending.
    - pose proof (iv_job _ _ _ _ _ _ _ _ _ _ _ _ Hi) as Hj. simpl. revert Hp. unfold rewrite_in_progress. by destruct (pm_job p). }
  apply mruns_disk. eapply runs_mono; [apply runs_atomically, Hwf| |].
  - intros d' [Hd'|[_ Hw']].
    + apply (inv_recovers step init H _ (Hun (mkIO d' [] (io_outcome (pm_io p)) 0) Hd')).
    + pose proof (lo_le _ _ _ _ (iv_log _ _ _ _ _ _ _ _ _ _ _ _ Hi)) as Hle. eapply recovers_sure; [exact Hle|].
      eapply (recovers_log _ _ _ _ _ (length (h_log H)) d' _ _ _ _ _ []);
        [|exact (switched_current d' Et Eb Hw')|lia|lia|apply Hi|by left|..]; [lia|..];
        rewrite (switched_empty d' Hw'), drop_all; [done|by rewrite take_nil].
  - intros r d' Hr s Es. exists s. split; [done|]. rewrite <- Es in Hr. destruct r as [[]|x]; [apply Hr|by apply Hun].
Qed.
End Switch.

Section Begin.
Context {St : Type} (step : St -> SnapshotRecord + (pystr * list PyArg) -> St) (init : St).
Implicit Type H : History St.
#[local] Abbreviation inv := (inv step init).
#[local] Abbreviation h_recovers := (h_recovers step init).

Lemma inv_sure H p sure :
  (sure <= h_sure H)%nat -> inv H p -> inv (mkHistory (h_start H) (h_log H) sure (h_cut H)) p.
Proof.
  intros Hs (w & md & pre & mpre & extras & G & Gm & tail & []). exists w, md, pre, mpre, extras, G, Gm, tail.
  split; try done. by apply log_ok_sure.
Qed.

Lemma inv_uncommit H p : (h_sure H <= length (h_log H))%nat -> inv (commit_all H) p -> inv H p.
Proof. intros Hs Hi. destruct H as [st log sure cut]. by apply (inv_sure (commit_all (mkHistory st log sure cut)) p sure). Qed.

(** The new log of a rewrite. *)
Lemma new_log_runs H p w md pre mpre extras G Gm policy :
  inv_at step init H p w md pre mpre extras G Gm [] ->
  mruns (on_disk (new_aof_writer (aof_name (Gm + 1)) policy)) p (h_recovers H)
    (fun r p' => exists s, p' = set_io s p /\ inv_at step init H p' w md pre mpre extras G Gm [] /\
       match r with
       | Ok w' => exists i, w' = mkAOFWriter (aof_name (Gm + 1)) i policy [] false false 0 None false /\
           inode_of (io_disk s) (aof_name (Gm + 1)) = Some i
       | Raise _ => True
       end).
Proof.
  intros Hi. apply mruns_disk. unfold new_aof_writer, io_open. pose proof (inv_wf _ _ _ _ _ _ _ _ _ _ _ _ Hi) as Hwf.
  pose proof (inv_open _ _ _ _ _ _ _ _ _ _ _ _ Hi) as Ho.
  destruct (open_spec (disk p) Hwf (aof_name (Gm + 1))) as (_ & [i Hino] & _).
  apply runs_bind, runs_bind, runs_call.
  - eapply (inv_recovers step init H (set_io (mkIO _ [] (io_outcome (pm_io p)) 0) p)).
    exists w, md, pre, mpre, extras, G, Gm, []. by apply Ho.
  - intros s1 E1. apply (runs_inode _ i); rewrite E1; [done|]. intros s2 E2. apply runs_ret. intros s Es.
    exists s. split; [done|]. rewrite E2 in Es. split; [by apply Ho|]. exists i. by rewrite Es.
  - intros text s Es. exists s. split; [done|]. split; [|done].
    eapply (inv_aside step init H p) with (l := []); try done; try apply Hi; simpl; rewrite ?Es; try done; try apply Hi. set_solver.
Qed.

(** The manager after the switch. *)
Lemma inv_switched H p w md pre mpre extras G Gm s i policy :
  inv_at step init H p w md pre mpre extras G Gm [] -> aw_buffer w = [] -> aw_dirty w = false ->
  pm_job p = None -> inode_of (disk p) (aof_name (Gm + 1)) = Some i ->
  written MANIFEST_NAME (manifest_text (next_manifest p Gm)) (disk p) (io_disk s) ->
  let wn := mkAOFWriter (aof_name (Gm + 1)) i policy [] false false 0 None false in
  inv (switch H) (set_closing (Some (Some w)) (set_copying (Some (snapshot_name (Gm + 1)))
    (set_writer (Some wn) (set_io s (set_manifest (next_manifest p Gm) p))))).
Proof.
  intros Hi Eb Ed Ej Hino Hw wn.
  pose proof (switched_current _ _ _ _ _ _ _ _ _ _ _ _ Hi _ eq_refl Eb Hw) as Hc.
  pose proof (switched_empty _ _ _ _ _ _ _ _ _ _ _ _ Hi _ Hw) as He.
  exists wn, (next_manifest p Gm), (mpre ++ aw_name w :: extras), (mpre ++ aw_name w :: extras), [], (Gm + 1), (Gm + 1), [].
  assert (Hb : forall q, pm_copying q <> None -> bound q (Gm + 1) = Gm).
  { intros q Hq. unfold bound, rewrite_in_progress. destruct (pm_job q), (pm_copying q); try done; lia. }
  split; rewrite ?Hb by done; try done; simpl.
  - split; simpl; try done; rewrite ?He.
    + destruct Hw as (_ & _ & Hs). by rewrite (same_but_inode _ _ _ _ Hs) by apply log_not_manifest, ending_aof.
    + unfold h_current. simpl. by rewrite drop_all.
    + by left.
    + unfold h_current. simpl. by rewrite drop_all, take_nil.
    + apply Hi.
  - by rewrite (iv_mem _ _ _ _ _ _ _ _ _ _ _ _ Hi), <- app_assoc.
  - apply Hc.
  - apply Hc.
  - intros name [= <-]. apply Hc.
  - by left.
  - by rewrite Ej.
Qed.

Lemma rewrite_start_keeps H p :
  inv H p -> pm_write_error p = None ->
  mruns begin_rewrite p (h_recovers H) (fun r p' => inv (match r with Ok _ => switch H | Raise _ => H end) p').
Proof.
  intros (w & md & pre & mpre & extras & G & Gm & tail & Hi) He.
  assert (tail = []) as -> by (destruct tail; [done|by destruct (iv_broken _ _ _ _ _ _ _ _ _ _ _ _ Hi)]).
  pose proof (lo_le _ _ _ _ (iv_log _ _ _ _ _ _ _ _ _ _ _ _ Hi)) as Hle.
  unfold begin_rewrite. apply mruns_get. destruct (rewrite_in_progress p) eqn:Hp.
  { apply mruns_raise. by eapply inv_intro. }
  rewrite (iv_writer _ _ _ _ _ _ _ _ _ _ _ _ Hi).
  apply mruns_bind. eapply mruns_mono; [eapply join_closing_runs, Hi|done|].
  intros r p1 (-> & (Ec1 & Em1 & Ej1 & Eco1 & Ee1) & _ & w1 & Hi1). apply mruns_bind.
  destruct (generation_of _) as [g|x] eqn:Eg; [|split; [apply along_refl|by eapply inv_intro]].
  apply (last_generation _ _ _ _ _ _ _ _ _ _ _ _ Hi) in Eg. subst g. split; [apply along_refl|]. cbn [fst snd lift].
  apply mruns_bind. eapply mruns_mono; [eapply commit_writer, Hi1|done|].
  intros [[]|x] p2 (w2 & s2 & E2 & Hf & Hi2); [|by eapply inv_intro]. destruct Hf as [Eb Ed].
  cbn [committed] in Hi2.
  assert (Hmono : forall d, h_recovers (commit_all H) d -> h_recovers H d) by (intros d; by apply recovers_sure).
  assert (Hp2 : rewrite_in_progress p2 = false) by (revert Hp; rewrite E2; unfold rewrite_in_progress; simpl; by rewrite Ej1, Eco1).
  apply mruns_bind. eapply mruns_mono; [eapply new_log_runs, Hi2|exact Hmono|].
  intros r p3 (s3 & E3 & Hi3 & Hr). destruct r as [wn|x]; [|apply inv_uncommit; [done|]; by eapply inv_intro].
  destruct Hr as (i & -> & Hino).
  assert (Hnext : mkManifest (mf_snapshot (pm_manifest p)) (mf_aofs (pm_manifest p) ++ [aof_name (Gm + 1)]) = next_manifest p3 Gm)
    by (unfold next_manifest; by rewrite E3, E2, <- Em1).
  rewrite Hnext. apply mruns_modify; [done|]. apply mruns_bind.
  eapply mruns_mono; [eapply save_runs; [exact Hi3|done|done|by rewrite E3]|exact Hmono|].
  intros r p4 (s4 & E4 & Hr). destruct r as [[]|x]; [|by apply inv_uncommit]. split; [apply along_refl|]. subst p4. simpl.
  replace (pm_writer p3) with (Some w2) by (symmetry; apply Hi3).
  eapply (inv_switched (commit_all H)); [exact Hi3|done|done| |by rewrite E3|exact Hr].
  revert Hp2. rewrite E3. unfold rewrite_in_progress. simpl. by destruct (pm_job p2).
Qed.
End Begin.
