(* ===== verification/ManagerFinish.v ===== *)
(** * Finishing a rewrite, shutting down

    The manifest that lists the new snapshot, and the deletion of the files it
    no longer lists. *)

From Stdlib Require Import String.
From S2P Require Import Prelude PyStr PyFloat Codec Errors Pack Oracles Containers Eviction Store Snapshot.
From S2P Require Import SnapshotProofs Registry Resp RespProofs Json Engine Aof AofProofs Disk Manifest AofWriter.
From S2P Require Import Manager Recovery ManagerInv ManagerRewrite.
Local Close Scope string_scope.

Section Finish.
Context {St : Type} (step : St -> SnapshotRecord + (pystr * list PyArg) -> St) (init : St).
Implicit Type H : History St.
#[local] Abbreviation inv := (inv step init).
#[local] Abbreviation inv_at := (inv_at step init).
#[local] Abbreviation h_recovers := (h_recovers step init).

(** ** Files no manifest lists *)

(** The manifest on disk is the one in memory, and no snapshot is being written. *)
Definition settled H (p : PState) : Prop :=
  pm_job p = None /\ exists w pre G tail, inv_at H p w (pm_manifest p) pre pre [] G G tail.

Lemma snapshot_listed m name : mf_snapshot m = Some name -> name <> [] -> name ∈ manifest_files m.
Proof. intros E Hn. unfold manifest_files. rewrite E. destruct name; [done|]. apply elem_of_app. right. by left. Qed.

Lemma snapshot_name_nonempty g : snapshot_name g <> [].
Proof. done. Qed.

Lemma inv_unlink H p w pre G tail name s :
  pm_job p = None -> inv_at H p w (pm_manifest p) pre pre [] G G tail ->
  name ∉ MANIFEST_NAME :: manifest_files (pm_manifest p) -> io_disk s = d_unlink name (disk p) ->
  inv_at H (set_io s p) w (pm_manifest p) pre pre [] G G tail.
Proof.
  intros Ej Hi Hn Es. pose proof (inv_wf _ _ _ _ _ _ _ _ _ _ _ _ Hi) as Hwf. destruct Hi.
  destruct (unlink_spec (disk p) Hwf name) as (Hwf' & Hnone & Hs). rewrite <- Es in Hwf', Hnone, Hs.
  assert (Haof : forall x, x ∈ mf_aofs (pm_manifest p) -> x ∉ [name]).
  { intros x Hx ->%list_elem_of_singleton. apply Hn. right. apply elem_of_app. by left. }
  assert (Hpre : forall x, x ∈ pre -> x ∉ [name]).
  { intros x Hx. apply Haof. rewrite iv_mem. apply elem_of_app. by left. }
  assert (Hw : aw_name w ∉ [name]) by (apply Haof; rewrite iv_mem; apply elem_of_app; right; by left).
  assert (Hsn : forall x, mf_snapshot (pm_manifest p) = Some x -> x ∉ [name]).
  { intros x Ex ->%list_elem_of_singleton. apply Hn. right. apply snapshot_listed; [done|].
    destruct iv_mem_named as [_ Hs']. rewrite Ex in Hs'. destruct Hs' as (g & _ & ->). apply snapshot_name_nonempty. }
  assert (Econ : content (io_disk s) (aw_name w) = content (disk p) (aw_name w))
    by (unfold content; by rewrite (same_but_data _ _ _ _ Hs)).
  split; try done; simpl.
  - destruct iv_current as [H1 H2 H3 H4 H5 H6 H7]. split; try done.
    + rewrite <- H2. apply (same_but_data _ _ _ _ Hs). intros E%list_elem_of_singleton. apply Hn. rewrite E. by left.
    + by eapply holds_kept.
    + intros g Hg. unfold content. destruct (decide (aof_name g = name)) as [->|]; [by rewrite Hnone|].
      rewrite (same_but_data _ _ _ _ Hs) by set_solver. by apply H7.
  - destruct iv_log. split; rewrite ?Econ; try done. by rewrite (same_but_inode _ _ _ _ Hs).
  - by eapply holds_kept.
  - by rewrite Ej.
Qed.

Lemma delete_keeps H p :
  settled H p -> mruns delete_unreferenced p (h_recovers H) (fun r p' => r = Ok tt /\ settled H p').
Proof.
  intros Hp. unfold delete_unreferenced. apply mruns_get.
  eapply mruns_mono; [apply (mruns_forM _ _ _ _ (fun p' => pm_manifest p' = pm_manifest p /\ settled H p'))|done|];
    [done| |intros r p' (? & _ & ?); done].
  intros name q [Em (Ej & w & pre & G & tail & Hi)]. case_match eqn:En; [|apply mruns_ret; split; [done|]; split; [done|]; split; [done|]; eauto].
  apply andb_prop in En as [_ En]. apply negb_true_iff, bool_decide_eq_false in En. rewrite <- Em in En.
  apply mruns_catch, mruns_disk, runs_call.
  - eapply (inv_recovers step init H (set_io (mkIO _ [] (io_outcome (pm_io q)) 0) q)), inv_intro. by eapply inv_unlink.
  - intros s Es. split; [done|]. split; [done|]. split; [done|]. exists w, pre, G, tail.
    exact (inv_unlink H q w pre G tail name s Ej Hi En Es).
  - intros text s Es. apply mruns_ret. split; [done|]. split; [done|]. split; [done|]. exists w, pre, G, tail.
    eapply (inv_aside step init H q) with (l := []); try done; try apply Hi; simpl; rewrite ?Es; try done; try apply Hi. set_solver.
Qed.

(** ** The new snapshot takes over *)
Section Take.
Context (H : History St) (p : PState) (w : AOFWriter) (md : Manifest) (pre mpre : list pystr) (G : Z) (tail : bytes).
Context (Hi : inv_at H p w md pre mpre [] G G tail).
Context (records : list SnapshotRecord).
Context (Hsnap : holds_snapshot (disk p) (Some (snapshot_name G)) records).
Context (Hst : apply_all step init (inl <$> records) = h_state step H).
Context (Hp : rewrite_in_progress p = false).

Definition taken : Manifest := mkManifest (Some (snapshot_name G)) [aw_name w].

Lemma taken_holds : holds step init (disk p) (Some (snapshot_name G)) [] (h_state step H).
Proof. exists records, []. split_and!; try done. simpl. by rewrite app_nil_r. Qed.

Lemma taken_named : named G G (Some (snapshot_name G)) [].
Proof.
  split; [by apply Forall_nil|]. exists G. split; [|done].
  destruct (cu_gen _ _ _ _ _ _ _ _ _ (iv_current _ _ _ _ _ _ _ _ _ _ _ _ Hi)). lia.
Qed.

(** In memory, before it is saved. *)
Lemma inv_taken : inv_at H (set_manifest taken p) w md pre [] [] G G tail.
Proof.
  pose proof taken_holds. pose proof taken_named. destruct Hi.
  assert (Hb : bound p G = G) by (unfold bound; by rewrite Hp).
  split; try done. change (bound (set_manifest taken p) G) with (bound p G). by rewrite Hb.
Qed.

Lemma taken_current d' :
  written MANIFEST_NAME (manifest_text taken) (disk p) d' ->
  current step init d' taken [] (aw_name w) G G (h_state step H).
Proof.
  intros (Hwf & Hm & Hs). pose proof taken_holds as Hh. pose proof taken_named as Hn. destruct Hi, iv_current. split; try done.
  - by eapply holds_manifest.
  - intros g Hg. unfold content. rewrite (same_but_data _ _ _ _ Hs) by apply log_not_manifest, ending_aof. by apply cu_empty.
Qed.

Lemma inv_saved s :
  written MANIFEST_NAME (manifest_text taken) (disk p) (io_disk s) ->
  inv_at H (set_io s (set_manifest taken p)) w taken [] [] [] G G tail.
Proof.
  intros Hw. pose proof (taken_current _ Hw) as Hc. pose proof taken_named as Hn. destruct Hi.
  assert (Hb : bound p G = G) by (unfold bound; by rewrite Hp). destruct Hw as (_ & _ & Hs).
  pose proof (gen_name_log _ _ (cu_gen _ _ _ _ _ _ _ _ _ Hc)) as Hlog.
  assert (Econ : content (io_disk s) (aw_name w) = content (disk p) (aw_name w))
    by (unfold content; by rewrite (same_but_data _ _ _ _ Hs) by by apply log_not_manifest).
  split; try done; simpl.
  - change (bound (set_io s (set_manifest taken p)) G) with (bound p G). by rewrite Hb.
  - destruct iv_log. split; rewrite ?Econ; try done. by rewrite (same_but_inode _ _ _ _ Hs) by by apply log_not_manifest.
  - change (bound (set_io s (set_manifest taken p)) G) with (bound p G). by rewrite Hb.
  - apply Hc.
  - destruct (pm_job p) eqn:Ej; [|done]. revert Hp. unfold rewrite_in_progress. by rewrite Ej.
Qed.

(** Saving the manifest. *)
Lemma take_runs :
  mruns (on_disk (manifest_save taken)) (set_manifest taken p) (h_recovers H)
    (fun r p' => pm_config p' = pm_config p /\ match r with Ok _ => settled H p' | Raise _ => inv H p' end).
Proof.
  pose proof inv_taken as Hi'. pose proof (inv_wf _ _ _ _ _ _ _ _ _ _ _ _ Hi) as Hwf.
  assert (Hj : pm_job p = None) by (revert Hp; unfold rewrite_in_progress; by destruct (pm_job p)).
  assert (Hun : forall s, unwritten MANIFEST_NAME (disk p) (io_disk s) -> inv H (set_io s (set_manifest taken p))).
  { intros s [Hwf' Hs]. apply (inv_intro _ _ _ _ w md pre [] [] G G tail).
    eapply (inv_aside step init) with (l := [tmp_name MANIFEST_NAME]); [exact Hi'|done|done| | |apply Hi|done|done|done|apply Hi| |apply Hi|apply Hi].
    - apply Forall_singleton. left. by eexists.
    - pose proof (log_not_manifest _ (gen_name_log _ _ (cu_gen _ _ _ _ _ _ _ _ _ (iv_current _ _ _ _ _ _ _ _ _ _ _ _ Hi)))). set_solver.
    - simpl. by rewrite Hj. }
  apply mruns_disk. eapply runs_mono; [apply runs_atomically, Hwf| |].
  - intros d' [Hd'|[_ Hw']].
    + apply (inv_recovers step init H _ (Hun (mkIO d' [] (io_outcome (pm_io p)) 0) Hd')).
    + pose proof (inv_saved (mkIO d' [] (io_outcome (pm_io p)) 0) Hw') as Hi2.
      exact (inv_recovers step init H _ (inv_intro _ _ _ _ _ _ _ _ _ _ _ _ Hi2)).
  - intros r d' Hr s Es. split; [done|]. rewrite <- Es in Hr. destruct r as [[]|x]; [|by apply Hun].
    split; [done|]. exists w, [], G, tail. apply inv_saved, Hr.
Qed.
End Take.

Lemma settled_inv H p : settled H p -> inv H p.
Proof. intros (_ & w & pre & G & tail & Hi). by eapply inv_intro. Qed.

(** Clocks and counters are not part of the promise. *)
Lemma inv_stats H p p' :
  inv H p -> pm_io p' = pm_io p -> pm_writer p' = pm_writer p -> pm_manifest p' = pm_manifest p ->
  pm_write_error p' = pm_write_error p -> pm_job p' = pm_job p -> pm_copying p' = pm_copying p ->
  pm_closing p' = pm_closing p -> inv H p'.
Proof. intros (w & md & pre & mpre & extras & G & Gm & tail & Hi) ? ? ? ? ? ? ?. by eapply inv_intro, inv_fields. Qed.

(** The job is over: none is running. *)
Lemma inv_job_over H p : inv H p -> inv H (set_job None p).
Proof.
  intros (w & md & pre & mpre & extras & G & Gm & tail & Hi). eapply inv_intro, (inv_aside step init) with (l := []); try apply Hi; try done.
  - set_solver.
  - unfold rewrite_in_progress. simpl. by destruct (pm_job p).
  - by left.
Qed.

Lemma seconds_keeps H p f :
  inv H p ->
  (forall z p', inv H p' -> mruns (f z) p' (h_recovers H) (fun r p' => inv H p')) ->
  mruns (bindM clock_seconds f) p (h_recovers H) (fun (r : result exn unit) p' => inv H p').
Proof.
  intros Hi Hf. apply mruns_bind. unfold clock_seconds, clock, tick.
  assert (Hi' : inv H (set_ticks (S (pm_ticks p)) p)) by (by eapply inv_stats).
  unfold mruns at 1, bindM, readM. simpl. destruct (ftrunc _) as [z|]; (split; [apply along_refl|]); [by apply Hf|done].
Qed.

Lemma finish_keeps H p job :
  inv H p -> pm_job p = Some job ->
  mruns (finish_job job) p (h_recovers H) (fun r p' => inv H p').
Proof.
  intros Hinv Ej. pose proof Hinv as (w & md & pre & mpre & extras & G & Gm & tail & Hi).
  pose proof (iv_job _ _ _ _ _ _ _ _ _ _ _ _ Hi) as Hj. rewrite Ej in Hj. destruct Hj as (En & _ & _ & Hst & Hf).
  assert (Hp : rewrite_in_progress p = true) by (unfold rewrite_in_progress; by rewrite Ej).
  assert (extras = []) as -> by (by apply (iv_pending _ _ _ _ _ _ _ _ _ _ _ _ Hi)).
  assert (Gm = G) as -> by (eapply gen_name_inj; [by apply (iv_last _ _ _ _ _ _ _ _ _ _ _ _ Hi)|apply (iv_current _ _ _ _ _ _ _ _ _ _ _ _ Hi)]).
  assert (Ec : pm_copying p = None) by (destruct (iv_one _ _ _ _ _ _ _ _ _ _ _ _ Hi); congruence).
  set (p1 := set_ticks (S (pm_ticks p)) (set_job None p)).
  assert (Hi1 : inv_at H p1 w md pre mpre [] G G tail).
  { eapply (inv_aside step init H p) with (l := []); try apply Hi; try done; [set_solver|by left]. }
  unfold finish_job. apply mruns_modify; [done|]. apply mruns_bind. split; [apply along_refl|]. cbn [fst snd].
  change (measured (set_job None p)).2 with p1. cbn [measured bindM tick readM fst].
  destruct (jb_future job) as [[size|x]|].
  2,3: (split; [apply along_refl|]; by eapply inv_stats; [eapply inv_intro, Hi1|..]).
  apply mruns_get. rewrite En in *.
  assert (Em : default [] (last (mf_aofs (pm_manifest p1))) = aw_name w)
    by (rewrite (iv_mem _ _ _ _ _ _ _ _ _ _ _ _ Hi1), last_snoc; done).
  rewrite Em. apply mruns_modify; [done|]. apply mruns_bind.
  eapply mruns_mono; [eapply (take_runs H p1 w md pre mpre G tail Hi1 (jb_records job)); [exact Hf|exact Hst|]|done|].
  { unfold rewrite_in_progress. simpl. by rewrite Ec. }
  intros [[]|x] p2 [_ Hs]; [|done]. apply mruns_bind. eapply mruns_mono; [by apply delete_keeps|done|].
  intros r p3 [-> Hs3]. apply seconds_keeps; [by apply settled_inv|]. intros z p4 Hi4. split; [apply along_refl|]. by eapply inv_stats.
Qed.

Lemma poll_keeps H p : inv H p -> mruns poll p (h_recovers H) (fun r p' => inv H p').
Proof.
  intros Hi. unfold poll. apply mruns_get.
  destruct (pm_job p) as [[n rs c [f|]]|] eqn:Ej; [|by apply mruns_ret..].
  destruct (pm_closing p) as [[old|]|]; [by apply mruns_ret|..];
    (apply mruns_bind; eapply mruns_mono; [by apply finish_keeps|done|]; intros [[]|x] p' Hi'; [by apply mruns_ret|done]).
Qed.

Lemma wait_keeps H p : inv H p ->
  mruns wait_rewrite p (h_recovers H) (fun r p' => inv H p').
Proof.
  intros (w & md & pre & mpre & extras & G & Gm & tail & Hi). unfold wait_rewrite. apply mruns_bind.
  eapply mruns_mono; [eapply join_closing_runs, Hi|done|]. intros r p1 (-> & _ & _ & w1 & Hi1).
  apply mruns_bind. eapply mruns_mono; [eapply snapshot_thread, inv_intro, Hi1|done|].
  intros r p2 (-> & Hi2 & _). apply mruns_get. destruct (pm_job p2) as [job|] eqn:Ej; [|by apply mruns_ret].
  by apply finish_keeps.
Qed.

(** ** Shutdown *)
Lemma drained_all H p w md pre mpre extras G Gm n d' :
  inv_at H p w md pre mpre extras G Gm [] -> holding (aw_inode w) (take n (aw_buffer w)) (disk p) d' ->
  drop n (aw_buffer w) = [] -> h_recovers (commit_all H) d'.
Proof.
  intros Hi Hh Hn. pose proof (inv_wf _ _ _ _ _ _ _ _ _ _ _ _ Hi) as Hwf. destruct Hi, iv_log.
  destruct (holding_content _ _ _ _ d' Hwf lo_inode Hh) as (_ & Ec & Hs).
  rewrite <- (take_drop n (aw_buffer w)), Hn, app_nil_r, <- Ec, app_nil_r in lo_data.
  eapply (recovers_log _ _ _ _ _ (h_cut H) d' _ _ _ _ _ []); [apply (bound_le p)| |done|simpl; lia|done|by left| |].
  - eapply current_newest; [apply (bound_le p)|apply Hh|exact Hs|exact iv_current].
  - change (drop (h_cut H) (h_log (commit_all H))) with (h_current H). by rewrite lo_data, app_nil_r.
  - change (drop (h_cut H) (h_log (commit_all H))) with (h_current H). rewrite lo_data. simpl.
    by rewrite take_ge by (unfold h_current; rewrite length_drop; lia).
Qed.

Lemma close_keeps H p :
  inv H p ->
  mruns close p (h_recovers H)
    (fun r p' => h_recovers (match r, pm_write_error p' with Ok _, None => commit_all H | _, _ => H end) (disk p')).
Proof.
  intros Hi0. unfold close. apply mruns_bind. eapply mruns_mono; [by apply wait_keeps|done|].
  intros [[]|x] p1 Hi1; [|by apply inv_recovers]. destruct Hi1 as (w1 & md & pre & mpre & extras & G & Gm & tail & Hi1).
  apply mruns_bind. eapply mruns_mono; [eapply join_closing_runs, Hi1|done|]. intros r p2 (-> & _ & _ & w & Hi).
  apply mruns_get. rewrite (iv_writer _ _ _ _ _ _ _ _ _ _ _ _ Hi).
  pose proof (iv_log _ _ _ _ _ _ _ _ _ _ _ _ Hi) as Hlog. pose proof (iv_broken _ _ _ _ _ _ _ _ _ _ _ _ Hi) as Hb.
  apply mruns_bind, mruns_catch, (mruns_writer _ _ w); [apply Hi|].
  eapply wruns_mono; [apply close_runs; [by eapply inv_wf|by eapply inv_inode|apply Hlog|apply Hlog]|intros d' [n Hh]; by eapply drain_disk|].
  intros [[]|x] w' d' (n & Hh & Hr) s Es; rewrite <- Es in Hh.
  - split; [apply along_refl|]. simpl. destruct (pm_write_error p2) eqn:Ee; [by eapply drain_disk|].
    assert (tail = []) as -> by (destruct tail; [done|by destruct Hb]). by eapply drained_all.
  - rewrite Hr. simpl. destruct (pm_write_error p2) eqn:Ee; simpl.
    + split; [apply along_refl|]. split; [apply along_refl|]. simpl. rewrite Ee. by eapply drain_disk.
    + by eapply drain_disk.
Qed.
End Finish.

(** * Starting up

    Loading a disk that keeps the promise: the state it gives, and the manager
    that goes on from there. *)

Section Load.
Context {St : Type} (step : St -> SnapshotRecord + (pystr * list PyArg) -> St) (init : St).
Implicit Type H : History St.
#[local] Abbreviation inv := (inv step init).
#[local] Abbreviation inv_at := (inv_at step init).
#[local] Abbreviation h_recovers := (h_recovers step init).

(** The files have been read: [H] is what they hold, and [pm_cut] is where a
    torn end of the newest log begins. *)
Definition loaded H (p : PState) : Prop :=
  exists pre w G u,
    current step init (disk p) (pm_manifest p) pre w G G (h_state step H) /\
    content (disk p) w = frames (h_current H) ++ u /\ torn u /\
    pm_cut p = length (frames (h_current H)) /\
    Forall loggable (h_log H) /\ (h_cut H <= length (h_log H))%nat /\ h_sure H = length (h_log H) /\
    (pm_writer p, pm_job p, pm_copying p, pm_closing p, pm_write_error p) = (None, None, None, None, None).

Lemma loaded_recovers H p pre w G d' b :
  current step init d' (pm_manifest p) pre w G G (h_state step H) -> torn b ->
  content d' w = frames (h_current H) ++ b -> Forall loggable (h_log H) -> (h_cut H <= length (h_log H))%nat ->
  h_sure H = length (h_log H) -> h_recovers H d'.
Proof.
  intros Hc Hb Ec Hall Hcut Hs. eapply (recovers_log _ _ _ _ _ (h_cut H) d' _ _ _ _ _ b); [reflexivity|exact Hc|done|lia|done|done|..].
  - by rewrite Ec.
  - rewrite Ec, take_ge by (rewrite length_drop; lia). by apply prefix_app_r.
Qed.

(** Cutting off the torn end. *)
Lemma cut_runs H p w :
  loaded H p -> w = default [] (last (mf_aofs (pm_manifest p))) ->
  mruns (match inode_of (disk p) w, data_of (disk p) w with
         | Some i, Some data =>
             if bool_decide (pm_cut p = length data) then ret tt else on_disk (io_call (d_truncate i (pm_cut p)))
         | _, _ => ret tt
         end) p (h_recovers H)
    (fun r p' => exists s, p' = set_io s p /\
       match r with
       | Ok _ => (exists pre G, current step init (io_disk s) (pm_manifest p) pre w G G (h_state step H)) /\
           content (io_disk s) w = frames (h_current H)
       | Raise _ => ~ calm (pm_io p)
       end).
Proof.
  intros (pre & w' & G & u & Hc & Ec & Hu & Ecut & Hall & Hcut & Hs & _) ->.
  rewrite (cu_aofs _ _ _ _ _ _ _ _ _ Hc), last_snoc. change (default [] (Some w')) with w'.
  pose proof (cu_wf _ _ _ _ _ _ _ _ _ Hc) as Hwf.
  assert (Hstay : content (disk p) w' = frames (h_current H) ->
    exists s, p = set_io s p /\ (exists pre G, current step init (io_disk s) (pm_manifest p) pre w' G G (h_state step H)) /\
      content (io_disk s) w' = frames (h_current H)).
  { intros E. exists (pm_io p). split; [by destruct p|]. eauto. }
  unfold content in Ec. destruct (inode_of (disk p) w') as [i|] eqn:Ei.
  2: { apply no_inode in Ei; [|done]. rewrite Ei in Ec. apply mruns_ret, Hstay. unfold content. rewrite Ei. simpl in Ec |- *.
       symmetry in Ec. by apply app_eq_nil in Ec as [-> _]. }
  destruct (inode_data _ Hwf w' i Ei) as [data Ed]. rewrite Ed in Ec |- *. simpl in Ec. case_bool_decide as El.
  - apply mruns_ret, Hstay. unfold content. rewrite Ed. simpl. subst data. rewrite Ecut, length_app in El.
    by rewrite (nil_length_inv u), app_nil_r by lia.
  - destruct (truncate_spec _ Hwf w' i (pm_cut p) Ei) as (Hwf' & Hino & Hdata & Hsame).
    assert (Hcon : content (d_truncate i (pm_cut p) (disk p)) w' = frames (h_current H)).
    { unfold content. rewrite Hdata, Ed. simpl. by rewrite Ec, Ecut, take_app_length. }
    assert (Hcur : current step init (d_truncate i (pm_cut p) (disk p)) (pm_manifest p) pre w' G G (h_state step H))
      by (by eapply current_newest).
    apply mruns_disk, runs_call_calm.
    + eapply loaded_recovers; [exact Hcur|by left|by rewrite app_nil_r|done..].
    + intros s Es. exists s. rewrite Es. split; [done|]. split; [|done]. eauto.
    + intros Hcalm text s Es. by exists s.
Qed.

(** Opening the log. *)
Lemma settled_open H p w pre G s i policy :
  current step init (io_disk s) (pm_manifest p) pre w G G (h_state step H) ->
  content (io_disk s) w = frames (h_current H) -> inode_of (io_disk s) w = Some i ->
  Forall loggable (h_log H) -> (h_cut H <= length (h_log H))%nat -> h_sure H = length (h_log H) ->
  (pm_job p, pm_copying p, pm_closing p) = (None, None, None) ->
  settled step init H (set_writer (Some (mkAOFWriter w i policy [] false false 0 None false)) (set_io s p)).
Proof.
  intros Hc Ec Hi Hall Hcut Hs [= Ej Eco Ecl]. split; [done|]. eexists _, pre, G, [].
  assert (Hb : forall q, pm_job q = None -> pm_copying q = None -> bound q G = G)
    by (intros q E1 E2; unfold bound, rewrite_in_progress; by rewrite E1, E2).
  split; rewrite ?Hb by done; try done; simpl; try apply Hc.
  - split; simpl; try done.
    + by rewrite !app_nil_r.
    + by left.
    + rewrite Ec, take_ge by (unfold h_current; rewrite length_drop; lia). done.
    + lia.
  - intros name [= <-]. apply Hc.
  - by left.
  - by rewrite Ej.
  - by rewrite Eco.
  - unfold closing_ok. simpl. by rewrite Ecl.
Qed.

Lemma open_log_runs H p :
  loaded H p ->
  mruns open_log p (h_recovers H)
    (fun r p' => match r with Ok _ => inv H p' | Raise _ => ~ calm (pm_io p) end).
Proof.
  intros Hl. unfold open_log. apply mruns_get. set (w := default [] (last (mf_aofs (pm_manifest p)))).
  apply mruns_bind. eapply mruns_mono; [apply mruns_outcome, (cut_runs H p w Hl eq_refl)|done|].
  destruct Hl as (_ & _ & _ & _ & _ & _ & _ & _ & Hall & Hcut & Hs & [= Ew Ej Eco Ecl Ee]).
  intros [[]|x] p1 [(s1 & -> & Hr) Ho]; [|done]. destruct Hr as [(pre & G & Hc) Ec].
  pose proof (cu_wf _ _ _ _ _ _ _ _ _ Hc) as Hwf. destruct (open_spec _ Hwf w) as (Hwf' & [i Hi] & Hdata & Hsame).
  assert (Hc' : current step init (d_open w (io_disk s1)) (pm_manifest p) pre w G G (h_state step H)) by (by eapply current_newest).
  assert (Ec' : content (d_open w (io_disk s1)) w = frames (h_current H)).
  { unfold content in *. rewrite Hdata. simpl. by destruct (data_of (io_disk s1) w). }
  apply mruns_bind, mruns_disk. unfold new_aof_writer, io_open. apply runs_bind, runs_bind, runs_call_calm.
  - eapply (loaded_recovers H p); [exact Hc'|by left|by rewrite app_nil_r|done..].
  - intros s2 E2. simpl in E2. apply (runs_inode _ i); rewrite E2; [done|]. intros s3 E3. apply runs_ret. intros s Es.
    apply mruns_modify; [done|]. rewrite E3 in Es. eapply mruns_mono; [apply (delete_keeps step init H)|done|].
    + apply (settled_open H p w pre G s i _); rewrite ?Es; try done. by rewrite Ej, Eco, Ecl.
    + intros r p' [-> Hs']. by apply settled_inv.
  - intros Hcalm text s Es. intros Hc1. apply Hcalm. intros n. simpl in Ho. simpl. rewrite Ho. apply Hc1.
Qed.

(** ** Reading *)
Context (cf : PConfig).

(** [n] of the writes [log] were found. *)
Definition found_writes (st : St) (log : list bytes) (sure : nat) (events : list LoadEvent) (n : nat) : Prop :=
  (sure <= n <= length log)%nat /\ apply_all step init (body <$> events) = after_writes step st log n.

Lemma read_loaded st log sure cut d m pre w G tail :
  current step init d m pre w G G (after_writes step st log cut) -> (cut <= length log)%nat -> (sure <= length log)%nat ->
  Forall loggable log -> torn tail -> content d w `prefix_of` frames (drop cut log) ++ tail ->
  frames (take (sure - cut) (drop cut log)) `prefix_of` content d w ->
  exists n events size, manifest_load (cf_dir cf) (cf_read_error cf) d = Ok (Some m) /\
    let H := mkHistory st (take n log) n cut in
    (cut <= n)%nat /\ read_disk cf m d = (events, Ok (size, length (frames (h_current H)))) /\
    found_writes st log sure events n /\
    exists u, content d w = frames (h_current H) ++ u /\ torn u.
Proof.
  intros Hc Hcut Hsure Hall Ht Hp Hs.
  destruct (surviving (drop cut log) tail (content d w) (sure - cut)) as (k & u & Hk & Ek & Hu); try done.
  { apply Forall_drop. eapply Forall_impl; [exact Hall|apply loggable_ok]. }
  { rewrite length_drop. lia. }
  rewrite length_drop in Hk.
  assert (Ecur : take k (drop cut log) = drop cut (take (cut + k) log)) by (by rewrite take_drop_commute).
  destruct (read_current step init cf d m pre w G G _ (take k (drop cut log)) u Hc) as (Hm & events & size & Er & Eb); try done.
  { by apply Forall_take, Forall_drop. }
  exists (cut + k)%nat, events, size. split; [done|]. cbn zeta. unfold h_current. simpl. rewrite <- Ecur.
  split; [lia|]. split; [done|]. split; [|by exists u]. split; [lia|]. rewrite Eb. unfold after_writes.
  rewrite <- apply_all_app, <- fmap_app. f_equal. f_equal. rewrite take_take_drop. done.
Qed.

Lemma read_listed_ok p m events base good :
  pm_config p = cf -> read_disk cf m (disk p) = (events, Ok (base, good)) ->
  exists p1, read_listed m p = (Ok (events, Ok tt), p1) /\ pm_io p1 = pm_io p /\ pm_manifest p1 = m /\ pm_cut p1 = good /\
    (pm_writer p1, pm_job p1, pm_copying p1, pm_closing p1, pm_write_error p1) =
    (pm_writer p, pm_job p, pm_copying p, pm_closing p, pm_write_error p).
Proof.
  intros <- E. unfold read_listed, bindM, modifyM, getM. simpl. rewrite E. destruct (count_events events) as [keys records].
  eexists. split; [done|]. by split_and!.
Qed.

(** What a crash during a start may leave: no write that was found is lost. *)
Definition survives (st : St) (log : list bytes) (sure : nat) (d : Disk) : Prop :=
  exists n, (sure <= n <= length log)%nat /\ recovers step init st (take n log) sure d.

Lemma recovers_survives st log sure d :
  (sure <= length log)%nat -> recovers step init st log sure d -> survives st log sure d.
Proof. intros Hs Hr. exists (length log). split; [lia|]. by rewrite take_ge by lia. Qed.

(** A manager that has not been used yet. *)
Definition unused (p : PState) : Prop :=
  pm_config p = cf /\
  (pm_writer p, pm_job p, pm_copying p, pm_closing p, pm_write_error p) = (None, None, None, None, None).

(** From the manifest on. *)
Lemma load_listed st log sure cut p m pre w G tail :
  unused p ->
  current step init (disk p) m pre w G G (after_writes step st log cut) -> (cut <= length log)%nat -> (sure <= length log)%nat ->
  Forall loggable log -> torn tail -> content (disk p) w `prefix_of` frames (drop cut log) ++ tail ->
  frames (take (sure - cut) (drop cut log)) `prefix_of` content (disk p) w ->
  mruns (let! x := read_listed m in lift x.2;; open_log;; ret x.1) p (survives st log sure)
    (fun r p' => match r with
                 | Ok events => exists n cut, found_writes st log sure events n /\ inv (mkHistory st (take n log) n cut) p'
                 | Raise _ => ~ calm (pm_io p)
                 end).
Proof.
  intros [Ecf Eu] Hc Hcut Hsure Hall Ht Hp Hs.
  destruct (read_loaded st log sure cut _ m pre w G tail Hc Hcut Hsure Hall Ht Hp Hs)
    as (n & events & size & Hm & Hn & Er & Hf & u & Econ & Hu).
  set (H := mkHistory st (take n log) n cut) in *.
  destruct (read_listed_ok p m events size _ Ecf Er) as (p1 & E1 & Eio & Em & Ecut & Ef).
  apply mruns_bind. unfold mruns at 1. rewrite E1. split; [cbn [snd]; rewrite Eio; apply along_refl|]. cbn [fst snd].
  apply mruns_bind. split; [apply along_refl|]. cbn [fst snd lift].
  assert (Hl : loaded H p1).
  { exists pre, w, G, u. rewrite Eio, Em. split_and!; try done.
    - unfold h_state, after_writes, H. simpl. rewrite take_take. replace (cut `min` n)%nat with cut by lia. exact Hc.
    - simpl. by apply Forall_take.
    - simpl. destruct Hf. rewrite length_take. lia.
    - simpl. destruct Hf. rewrite length_take. lia.
    - rewrite Ef. apply Eu. }
  apply mruns_bind. eapply mruns_mono; [apply open_log_runs, Hl| |].
  - intros d Hd. exists n. split; [apply Hf|]. destruct Hf. eapply recovers_sure; [|exact Hd]. simpl. lia.
  - intros [[]|x] p2 Hr; [|by rewrite Eio in Hr]. apply mruns_ret. by exists n, cut.
Qed.

Lemma mruns_assoc {A B C} (c : PM A) (f : A -> PM B) (k : B -> PM C) p J Q :
  mruns (bindM c (fun a => bindM (f a) k)) p J Q -> mruns (bindM (bindM c f) k) p J Q.
Proof. unfold mruns, bindM. by destruct (c p) as [[a|x] p1]. Qed.

(** The first manifest of a new directory. *)
Definition first_manifest : Manifest := mkManifest None [aof_name 1].

Lemma fresh_unwritten d d' : fresh d -> unwritten MANIFEST_NAME d d' -> fresh d'.
Proof.
  intros (_ & H1 & H2 & H3) [Hwf Hs]. split; [done|].
  assert (Hlog : forall name, is_log name -> data_of d' name = data_of d name).
  { intros name Hn. apply (same_but_data _ _ _ _ Hs). pose proof (log_not_manifest name Hn). set_solver. }
  split_and!.
  - rewrite <- H1. apply (same_but_data _ _ _ _ Hs). rewrite list_elem_of_singleton. other_ending.
  - rewrite Hlog; [done|apply ending_legacy].
  - intros g. unfold content. rewrite Hlog; [apply H3|apply ending_aof].
Qed.

Lemma fresh_written d d' :
  fresh d -> written MANIFEST_NAME (manifest_text first_manifest) d d' ->
  current step init d' first_manifest [] (aof_name 1) 1 1 init /\ forall g, content d' (aof_name g) = [].
Proof.
  intros (_ & H1 & H2 & H3) (Hwf & Hm & Hs).
  assert (He : forall g, content d' (aof_name g) = []).
  { intros g. unfold content. rewrite (same_but_data _ _ _ _ Hs) by apply log_not_manifest, ending_aof. apply H3. }
  split; [|done]. split; try done.
  - split; [lia|by left].
  - by exists [], [].
Qed.

Lemma fresh_survives d : fresh d -> survives init [] 0 d.
Proof. intros Hd. exists 0%nat. split; [simpl; lia|]. by right. Qed.

Lemma first_runs p :
  fresh (disk p) ->
  mruns (on_disk (manifest_save first_manifest)) p (survives init [] 0)
    (fun r p' => exists s, p' = set_io s p /\
       match r with
       | Ok _ => written MANIFEST_NAME (manifest_text first_manifest) (disk p) (io_disk s)
       | Raise _ => ~ calm (pm_io p)
       end).
Proof.
  intros Hf. pose proof Hf as (Hwf & _).
  destruct (runs_atomically MANIFEST_NAME (manifest_text first_manifest) None (pm_io p) Hwf) as [Ha Hq]. split.
  - unfold on_disk, manifest_save. fold (manifest_text first_manifest).
    destruct (write_atomically _ _ None (pm_io p)) as [r s]. eapply along_impl; [|exact Ha].
    intros d' [Hd'|[_ Hd']]; [by eapply fresh_survives, fresh_unwritten|].
    destruct (fresh_written _ _ Hf Hd') as [Hc He]. exists 0%nat. split; [simpl; lia|]. left.
    exists first_manifest, [], (aof_name 1), 1, 0%nat, []. split_and!; try done; [by left|by rewrite He..].
  - unfold on_disk, manifest_save. fold (manifest_text first_manifest).
    pose proof (calm_atomically MANIFEST_NAME (manifest_text first_manifest) (pm_io p) Hwf) as Hok.
    destruct (write_atomically _ _ None (pm_io p)) as [r s]. exists s. split; [done|].
    destruct r as [[]|x]; [apply Hq|]. intros Hc. by specialize (Hok Hc).
Qed.

(** Starting on a disk that keeps the promise: it fails only if a call fails,
    and otherwise finds the state after some of the writes, all of the sure
    ones among them. *)
Lemma load_runs st log sure s :
  recovers step init st log sure (io_disk s) ->
  mruns load_all (new_persistence cf s) (survives st log sure)
    (fun r p' => match r with
                 | Ok events => exists n cut, found_writes st log sure events n /\ inv (mkHistory st (take n log) n cut) p'
                 | Raise _ => ~ calm s
                 end).
Proof.
  intros Hr. unfold load_all, read_files. apply mruns_assoc. set (p := new_persistence cf s).
  assert (Hu : unused p) by done. apply mruns_bind. unfold current_manifest. apply mruns_get. apply mruns_bind.
  destruct Hr as [(m & pre & w & G & cut & tail & Hc & Hcut & Hsure & Hall & Ht & Hp & Hs)|(Hf & -> & -> & ->)].
  - destruct (read_loaded st log sure cut _ m pre w G tail Hc Hcut Hsure Hall Ht Hp Hs) as (n & events & size & Hm & _).
    simpl. rewrite Hm. split; [apply along_refl|]. apply mruns_ret. by eapply (load_listed st log sure cut p).
  - pose proof Hf as (Hwf & H1 & H2 & H3). simpl. unfold manifest_load. rewrite H1, H2.
    split; [apply along_refl|]. apply mruns_bind. eapply mruns_mono; [apply mruns_outcome, (first_runs p Hf)|done|].
    intros [[]|x] p1 [(s1 & -> & Hw) Ho]; [|done]. destruct (fresh_written _ _ Hf Hw) as [Hc He]. apply mruns_ret.
    eapply mruns_mono; [eapply (load_listed init [] 0 0 (set_io s1 p) first_manifest [] (aof_name 1) 1 [])|done|];
      try done; [by left|simpl; by rewrite He..|].
    intros [events|x] p2 Hr; [done|]. intros Hcalm. apply Hr. intros k. simpl in Ho |- *. rewrite Ho. apply Hcalm.
Qed.
End Load.
