(* ===== verification/CrashSpec.v ===== *)
(** * Crashes lose nothing that was committed

    The persistence layer as a state machine: a manager that runs its
    operations and threads in any order, with any of its calls on the disk
    failing, and that may be killed at any point of any of them; a start on
    whatever was left, which may be killed as well. *)

From Stdlib Require Import String.
From S2P Require Import Prelude PyStr PyFloat Errors Codec Pack Oracles Containers Eviction Store.
From S2P Require Import Snapshot SnapshotProofs Registry Resp RespProofs Json Engine Aof AofProofs.
From S2P Require Import Disk Manifest AofWriter.
From S2P Require Import Manager Recovery ManagerInv ManagerRewrite ManagerFinish.
Local Close Scope string_scope.

(** What is done with a manager: by the engine, and by its threads. *)
Inductive Op :=
| OAppend (payload : bytes)
| OCommit
| OBegin
| OFinish (records : list SnapshotRecord)
| OAbandon
| OPoll
| OWait
| OCloser
| OSnapshotter
| OSyncer.

Definition run_op (op : Op) : PM unit :=
  match op with
  | OAppend payload => log_append payload
  | OCommit => log_commit
  | OBegin => begin_rewrite
  | OFinish records => finish_copy records
  | OAbandon => abandon_copy
  | OPoll => poll;; ret tt
  | OWait => wait_rewrite
  | OCloser => thread_close
  | OSnapshotter => thread_snapshot
  | OSyncer => thread_fsync
  end.

(** The promise: since the manager started from [sp_start], the writes
    [sp_log] were made, the first [sp_sure] of them are committed, and a copy
    of the state [sp_copy] is being made for a rewrite. *)
Record Spec (St : Type) := mkSpec { sp_start : St; sp_log : list bytes; sp_sure : nat; sp_copy : option St }.
Arguments mkSpec {St}.
Arguments sp_start {St}.
Arguments sp_log {St}.
Arguments sp_sure {St}.
Arguments sp_copy {St}.

Inductive Config (St : Type) :=
| Running (sp : Spec St) (p : PState)
| Down (sp : Spec St) (d : Disk).
Arguments Running {St}.
Arguments Down {St}.

(** The disks an operation goes through. *)
Definition passes {A} (c : PM A) (p : PState) (d : Disk) : Prop :=
  exists new, io_trace (pm_io (c p).2) = new ++ io_trace (pm_io p) /\ d ∈ new.

Section Machine.
Context {St : Type} (step : St -> SnapshotRecord + (pystr * list PyArg) -> St) (init : St) (cf : PConfig).
Implicit Type sp : Spec St.

(** How the engine uses the manager: it logs commands, starts no rewrite after
    a failed write, and hands over the copy it has made. *)
Definition allowed sp (p : PState) (op : Op) : Prop :=
  match op with
  | OAppend payload => loggable payload
  | OBegin => pm_write_error p = None
  | OFinish records =>
      Forall record_fits records /\ Z.of_nat (length records) < 2 ^ 64 /\
      sp_copy sp = Some (apply_all step init (inl <$> records))
  | _ => True
  end.

(** The writes that may be found after a crash in the middle of [op]. *)
Definition sp_crash sp (op : Op) : Spec St :=
  match op with
  | OAppend payload => mkSpec (sp_start sp) (sp_log sp ++ [payload]) (sp_sure sp) None
  | _ => sp
  end.

(** The promise after [op] has ended with [r]. *)
Definition sp_after sp (p : PState) (op : Op) (r : result exn unit) : Spec St :=
  match op, r, pm_write_error p with
  | OAppend payload, Ok _, None => mkSpec (sp_start sp) (sp_log sp ++ [payload]) (sp_sure sp) (sp_copy sp)
  | OCommit, Ok _, None => mkSpec (sp_start sp) (sp_log sp) (length (sp_log sp)) (sp_copy sp)
  | OBegin, Ok _, _ =>
      mkSpec (sp_start sp) (sp_log sp) (length (sp_log sp)) (Some (after_writes step (sp_start sp) (sp_log sp) (length (sp_log sp))))
  | (OFinish _ | OAbandon), _, _ => mkSpec (sp_start sp) (sp_log sp) (sp_sure sp) None
  | _, _, _ => sp
  end.

Definition sp_closed sp (p : PState) (r : result exn unit) : Spec St :=
  match r, pm_write_error p with
  | Ok _, None => mkSpec (sp_start sp) (sp_log sp) (length (sp_log sp)) None
  | _, _ => sp
  end.

Inductive cstep : Config St -> Config St -> Prop :=
| step_op sp p op : allowed sp p op ->
    cstep (Running sp p) (Running (sp_after sp p op (run_op op p).1) (run_op op p).2)
| step_crash sp p op d : allowed sp p op -> passes (run_op op) p d ->
    cstep (Running sp p) (Down (sp_crash sp op) d)
| step_kill sp p : cstep (Running sp p) (Down sp (io_disk (pm_io p)))
| step_close sp p :
    cstep (Running sp p) (Down (sp_closed sp (close p).2 (close p).1) (io_disk (pm_io (close p).2)))
| step_close_crash sp p d : passes close p d -> cstep (Running sp p) (Down sp d)
| step_start sp d s events p :
    io_disk s = d -> load_all (new_persistence cf s) = (Ok events, p) ->
    cstep (Down sp d) (Running (mkSpec (apply_all step init (body <$> events)) [] 0 None) p)
| step_start_crash sp d s d' :
    io_disk s = d -> passes load_all (new_persistence cf s) d' -> cstep (Down sp d) (Down sp d').

(** Operations one after the other. *)
Fixpoint run_ops (ops : list Op) sp (p : PState) : Spec St * PState :=
  match ops with
  | [] => (sp, p)
  | op :: ops' => run_ops ops' (sp_after sp p op (run_op op p).1) (run_op op p).2
  end.

Fixpoint all_allowed (ops : list Op) sp (p : PState) : Prop :=
  match ops with
  | [] => True
  | op :: ops' => allowed sp p op /\ all_allowed ops' (sp_after sp p op (run_op op p).1) (run_op op p).2
  end.

Lemma run_ops_reach ops sp p :
  all_allowed ops sp p -> rtc cstep (Running sp p) (Running (run_ops ops sp p).1 (run_ops ops sp p).2).
Proof.
  revert sp p. induction ops as [|op ops IH]; intros sp p Ha; [done|]. destruct Ha as [Ha Hr].
  eapply rtc_l; [by apply step_op|]. by apply IH.
Qed.

(** ** The invariant *)
(** The promise is about the end of a longer history. *)
Definition tied sp (H : History St) (pre : list bytes) : Prop :=
  h_log H = pre ++ sp_log sp /\ h_sure H = (length pre + sp_sure sp)%nat /\
  sp_start sp = after_writes step (h_start H) pre (length pre) /\
  match sp_copy sp with Some st => h_state step H = st | None => True end.

Definition running sp (p : PState) : Prop := exists H pre, inv step init H p /\ tied sp H pre.

Definition down sp (d : Disk) : Prop :=
  exists st pre, sp_start sp = after_writes step st pre (length pre) /\
    survives step init st (pre ++ sp_log sp) (length pre + sp_sure sp) d.

Definition config_ok (c : Config St) : Prop :=
  match c with Running sp p => running sp p | Down sp d => down sp d end.

(** *** One operation *)
Definition h_writing (H : History St) (op : Op) : list bytes :=
  match op with OAppend payload => h_log H ++ [payload] | _ => h_log H end.

Definition h_after (H : History St) (p : PState) (op : Op) (r : result exn unit) : History St :=
  match op, r, pm_write_error p with
  | OAppend payload, Ok _, None => add_write payload H
  | OCommit, Ok _, None => commit_all H
  | OBegin, Ok _, _ => switch H
  | _, _, _ => H
  end.

Definition h_allowed (H : History St) (p : PState) (op : Op) : Prop :=
  match op with
  | OAppend payload => loggable payload
  | OBegin => pm_write_error p = None
  | OFinish records =>
      Forall record_fits records /\ Z.of_nat (length records) < 2 ^ 64 /\ apply_all step init (inl <$> records) = h_state step H
  | _ => True
  end.

Lemma op_runs H p op :
  inv step init H p -> h_allowed H p op ->
  mruns (run_op op) p (recovers step init (h_start H) (h_writing H op) (h_sure H))
    (fun r p' => inv step init (h_after H p op r) p').
Proof.
  intros Hi Ha. pose proof Hi as (w & md & pre & mpre & extras & G & Gm & tail & Hat).
  destruct op; cbn [run_op h_writing h_allowed] in *.
  - eapply mruns_mono; [exact (append_keeps step init H p _ Hi Ha)|done|]. intros [] p' Hp; exact Hp.
  - eapply mruns_mono; [exact (commit_keeps step init H p Hi)|done|]. intros [] p' Hp; exact Hp.
  - eapply mruns_mono; [exact (rewrite_start_keeps step init H p Hi Ha)|done|]. intros [] p' Hp; [|by destruct (pm_write_error p)]. exact Hp.
  - destruct Ha as (? & ? & ?). eapply mruns_mono; [by apply (finish_copy_keeps step init H p records Hi)|done|]. intros [] p' Hp; exact Hp.
  - eapply mruns_mono; [exact (abandon_keeps step init H p Hi)|done|]. intros [] p' Hp; exact Hp.
  - apply mruns_bind. eapply mruns_mono; [exact (poll_keeps step init H p Hi)|done|]. intros [] p' Hp; [by apply mruns_ret|exact Hp].
  - eapply mruns_mono; [exact (wait_keeps step init H p Hi)|done|]. intros [] p' Hp; exact Hp.
  - eapply mruns_mono; [eapply close_thread, Hat|done|]. intros r p' (-> & _ & _ & w' & Hp). by eapply inv_intro.
  - eapply mruns_mono; [exact (snapshot_thread step init H p Hi)|done|]. intros r p' (-> & Hp & _). exact Hp.
  - eapply mruns_mono; [eapply fsync_thread, Hat|done|]. intros r p' (-> & w' & Hp). by eapply inv_intro.
Qed.

Lemma after_pre st pre log n :
  after_writes step (after_writes step st pre (length pre)) log n = after_writes step st (pre ++ log) (length pre + n).
Proof.
  unfold after_writes. rewrite take_ge by lia. rewrite <- apply_all_app, <- fmap_app.
  rewrite take_app_add'; done.
Qed.

Lemma tied_after sp H pre p op r :
  tied sp H pre -> (h_cut H <= length (h_log H))%nat -> tied (sp_after sp p op r) (h_after H p op r) pre.
Proof.
  intros (El & Es & Est & Ec) Hcut. unfold sp_after, h_after.
  destruct op, r as [[]|], (pm_write_error p); try done; split_and!; simpl; rewrite ?El, ?length_app; try done.
  - by rewrite app_assoc.
  - destruct (sp_copy sp); [|done]. by rewrite add_write_state.
  - rewrite Est, after_pre. unfold h_state. simpl. by rewrite El, length_app.
  - rewrite Est, after_pre. unfold h_state. simpl. by rewrite El, length_app.
Qed.

Lemma inv_bounds H p :
  inv step init H p -> (h_cut H <= length (h_log H))%nat /\ (h_sure H <= length (h_log H))%nat.
Proof. intros (w & md & pre & mpre & extras & G & Gm & tail & []). destruct iv_log. done. Qed.

(** The disks on the way of an operation of a manager that keeps the promise. *)
Lemma passes_runs {A} (c : PM A) p J Q d : mruns c p J Q -> passes c p d -> J d.
Proof.
  intros [[(new' & Et' & Hnew) _] _] (new & Et & Hd). rewrite Et in Et'. apply app_inv_tail in Et' as <-.
  rewrite Forall_forall in Hnew. by apply Hnew.
Qed.

Lemma tied_down sp H pre d :
  tied sp H pre -> (h_sure H <= length (h_log H))%nat ->
  recovers step init (h_start H) (h_log H) (h_sure H) d -> down sp d.
Proof.
  intros (El & Es & Est & _) Hle Hr. exists (h_start H), pre. split; [done|]. rewrite <- El, <- Es. by apply recovers_survives.
Qed.

Lemma allowed_tied sp H pre p op : tied sp H pre -> allowed sp p op -> h_allowed H p op.
Proof.
  intros (_ & _ & _ & Ec) Ha. destruct op; try done. destruct Ha as (? & ? & E). rewrite E in Ec. by split_and!.
Qed.

Lemma running_crash sp p op d : running sp p -> allowed sp p op -> passes (run_op op) p d -> down (sp_crash sp op) d.
Proof.
  intros (H & pre & Hi & Ht) Ha Hd. pose proof (inv_bounds H p Hi) as [_ Hle].
  pose proof (passes_runs _ _ _ _ _ (op_runs H p op Hi (allowed_tied _ _ _ _ _ Ht Ha)) Hd) as Hr.
  apply (tied_down _ (mkHistory (h_start H) (h_writing H op) (h_sure H) (h_cut H)) pre); [|destruct op; simpl; rewrite ?length_app; simpl; lia|done].
  destruct Ht as (El & Es & Est & Ec). destruct op; simpl; try done. split_and!; try done. simpl. by rewrite El, app_assoc.
Qed.

Lemma down_start sp d s :
  down sp d -> io_disk s = d ->
  mruns load_all (new_persistence cf s) (down sp)
    (fun r p => match r with
                | Ok events => running (mkSpec (apply_all step init (body <$> events)) [] 0 None) p /\
                    exists n, (sp_sure sp <= n <= length (sp_log sp))%nat /\
                      apply_all step init (body <$> events) = after_writes step (sp_start sp) (sp_log sp) n
                | Raise _ => ~ calm s
                end).
Proof.
  intros (st & pre & Est & n0 & Hn0 & Hr) <-. eapply mruns_mono; [exact (load_runs step init cf _ _ _ s Hr)| |].
  - intros d (n & Hn & Hd). rewrite length_take in Hn. exists st, pre. split; [done|]. exists n. split; [lia|].
    rewrite take_take in Hd. by replace (n `min` n0)%nat with n in Hd by lia.
  - intros [events|x] p Hp; [|done]. destruct Hp as (n & cut & [Hn Eb] & Hi). rewrite length_take in Hn.
    rewrite length_app in Hn0, Hn. split.
    + eexists _, _. split; [exact Hi|]. split_and!; try done; simpl.
      * by rewrite app_nil_r.
      * rewrite !length_take, length_app. lia.
      * rewrite Eb. unfold after_writes. by rewrite (take_ge (take n _)) by lia.
    + exists (n - length pre)%nat. split; [lia|]. rewrite Eb, Est, after_pre. unfold after_writes.
      rewrite take_take. by replace (length pre + (n - length pre))%nat with (n `min` n0)%nat by lia.
Qed.

Lemma cstep_ok c c' : cstep c c' -> config_ok c -> config_ok c'.
Proof.
  destruct 1 as [sp p op Ha|sp p op d Ha Hd|sp p|sp p|sp p d Hd|sp d s events p Es El|sp d s d' Es Hd]; simpl.
  - intros (H & pre & Hi & Ht). destruct (op_runs H p op Hi (allowed_tied _ _ _ _ _ Ht Ha)) as [_ Hi'].
    exists (h_after H p op (run_op op p).1), pre. split; [done|]. apply tied_after; [done|]. by apply inv_bounds in Hi as [? _].
  - intros Hr. by eapply running_crash.
  - intros (H & pre & Hi & Ht). pose proof (inv_bounds H p Hi) as [_ Hle]. eapply tied_down; [exact Ht|done|]. by apply inv_recovers.
  - intros (H & pre & Hi & Ht). pose proof (inv_bounds H p Hi) as [_ Hle]. destruct (close_keeps step init H p Hi) as [_ Hr].
    unfold sp_closed. destruct (close p) as [[[]|x] p']; simpl in *; [|by eapply tied_down].
    destruct (pm_write_error p'); [by eapply tied_down|]. apply (tied_down _ (commit_all H) pre); [|done|done].
    destruct Ht as (El & Es & Est & Ec). split_and!; try done. simpl. by rewrite El, length_app.
  - intros (H & pre & Hi & Ht). pose proof (inv_bounds H p Hi) as [_ Hle]. eapply tied_down; [exact Ht|done|].
    by eapply passes_runs; [apply (close_keeps step init H p Hi)|].
  - intros Hd. destruct (down_start sp d s Hd Es) as [_ Hr]. rewrite El in Hr. apply Hr.
  - intros Hdown. by eapply passes_runs; [apply (down_start sp d s Hdown Es)|].
Qed.

(** A new directory. *)
Definition new_config (d : Disk) : Config St := Down (mkSpec init [] 0 None) d.

Lemma new_config_ok d : fresh d -> config_ok (new_config d).
Proof. intros Hf. exists init, []. split; [done|]. by apply fresh_survives. Qed.

Lemma reachable_ok d c : fresh d -> rtc cstep (new_config d) c -> config_ok c.
Proof.
  intros Hf Hr. pose proof (new_config_ok d Hf) as Hc. revert Hc. induction Hr as [|c1 c2 c3 Hs _ IH]; [done|].
  intros Hc. by eapply IH, cstep_ok.
Qed.

(** C2. Whatever a crash leaves can be started from, and gives back every
    committed write.  Take any disk that any sequence of operations, failing
    disk calls, crashes in the middle of them, shutdowns and restarts has left.
    Loading it fails only if one of the calls the load itself makes fails;
    otherwise the state it rebuilds is the state of the last start followed by
    a prefix of the writes made since then, in order, and that prefix contains
    every write that had been committed. *)
Theorem crash_recovery d0 sp d s (Hf : fresh d0)
    (Hr : rtc cstep (new_config d0) (Down sp d)) (Hs : io_disk s = d) :
  match (load_all (new_persistence cf s)).1 with
  | Ok events => exists n, (sp_sure sp <= n <= length (sp_log sp))%nat /\
      apply_all step init (body <$> events) = after_writes step (sp_start sp) (sp_log sp) n
  | Raise _ => ~ calm s
  end.
Proof.
  destruct (down_start sp d s (reachable_ok d0 _ Hf Hr) Hs) as [_ Hl].
  destruct ((load_all (new_persistence cf s)).1); [apply Hl|done].
Qed.
End Machine.

(** ** An example: two writes, a rewrite, a third write, and a crash in the
    middle of its commit *)
(** The keys, in the order they were set. *)
Definition crash_step (st : list pystr) (e : SnapshotRecord + (pystr * list PyArg)) : list pystr :=
  match e with
  | inl r => st ++ [sr_key r]
  | inr (_, AStr k :: _) => st ++ [k]
  | inr _ => st
  end.

Definition crash_cf : PConfig :=
  mkPConfig (lit "data") Always 100 1000 (fun _ => float_of_Z 1600000000) (fun _ => float_of_Z 0) (fun _ => []) (fun _ => [])
    (fun _ => []).
Definition crash_io (d : Disk) : IO := mkIO d [] (fun _ => no_error) 0.
Definition crash_started : PState := (load_all (new_persistence crash_cf (crash_io empty_disk))).2.
Definition crash_records : list SnapshotRecord :=
  [mkRecord (lit "a") (RString (lit "v")) None; mkRecord (lit "b") (RString (lit "v")) None].
Definition crash_ops : list Op :=
  [OAppend (sample_payload (lit "a")); OCommit; OAppend (sample_payload (lit "b")); OBegin; OFinish crash_records;
   OSnapshotter; OCloser; OPoll; OAppend (sample_payload (lit "c"))].
Definition crash_ran : Spec (list pystr) * PState :=
  run_ops crash_step crash_ops (mkSpec [] [] 0 None) crash_started.

(** The disk with ten bytes of the third record. *)
Definition crash_new : list Disk :=
  let old := io_trace (pm_io crash_ran.2) in
  let all := io_trace (pm_io (run_op OCommit crash_ran.2).2) in
  take (length all - length old) all.
Definition crash_left : Disk := default empty_disk (reverse crash_new !! 10%nat).

Definition crash_spec : Spec (list pystr) := sp_crash crash_ran.1 OCommit.

Lemma sample_loggable k : k ∈ [lit "a"; lit "b"; lit "c"] -> loggable (sample_payload k).
Proof. intros Hk. exists (arg_text <$> sample_set k). by apply sample_logged. Qed.

Lemma empty_disk_fresh : fresh empty_disk.
Proof. split; [|done]. split; [by apply NoDup_nil|done]. Qed.

Lemma short_record k : k ∈ [lit "a"; lit "b"] -> record_fits (mkRecord k (RString (lit "v")) None).
Proof.
  assert (Ht : forall t, t ∈ [lit "a"; lit "b"; lit "v"] -> text_fits t).
  { intros t. rewrite !elem_of_cons, elem_of_nil. intros [->|[->|[->|[]]]]; (eexists; split; [vm_compute; reflexivity|]);
      (split; [repeat constructor; by vm_compute|]); split; by vm_compute. }
  intros Hk. split; [apply Ht; set_solver|]. split; [apply Ht; set_solver|done].
Qed.

Lemma crash_ops_allowed : all_allowed crash_step [] crash_ops (mkSpec [] [] 0 None) crash_started.
Proof.
  split; [apply sample_loggable; set_solver|]. split; [done|]. split; [apply sample_loggable; set_solver|].
  split; [vm_compute; reflexivity|]. split.
  { split; [|split; [by vm_compute|vm_compute; reflexivity]]. repeat (apply Forall_cons; split); try (by apply Forall_nil); apply short_record; set_solver. }
  do 3 (split; [exact I|]). split; [apply sample_loggable; set_solver|exact I].
Qed.

Lemma crash_left_passed : passes (run_op OCommit) crash_ran.2 crash_left.
Proof.
  exists crash_new. split; [vm_compute; reflexivity|]. apply (list_elem_of_lookup_2 _ 31). vm_compute. reflexivity.
Qed.

Lemma crash_recovery_witness :
  match (load_all (new_persistence crash_cf (crash_io crash_left))).1 with
  | Ok events => exists n, (sp_sure crash_spec <= n <= length (sp_log crash_spec))%nat /\
      apply_all crash_step [] (body <$> events) = after_writes crash_step (sp_start crash_spec) (sp_log crash_spec) n
  | Raise _ => ~ calm (crash_io crash_left)
  end.
Proof.
  apply (crash_recovery crash_step [] crash_cf empty_disk crash_spec crash_left (crash_io crash_left)).
  - apply empty_disk_fresh.
  - eapply rtc_l; [apply (step_start _ _ _ _ _ (crash_io empty_disk) [] crash_started); [reflexivity|vm_compute; reflexivity]|].
    apply rtc_r with (Running crash_ran.1 crash_ran.2); [exact (run_ops_reach _ _ _ _ _ _ crash_ops_allowed)|].
    exact (step_crash crash_step [] crash_cf crash_ran.1 crash_ran.2 OCommit crash_left I crash_left_passed).
  - reflexivity.
Defined.
