(* ===== verification/EngineInv.v ===== *)
(** * The engine keeps the invariants of its keyspace

    [engine_inv]: the keyspace is consistent ([StoreInv.inv], nothing left
    unaccounted), the snapshot in progress is the keyspace as it was when it
    began, and the garbage collector is held once per rewrite and once per
    snapshot being taken (engine/engine.py, observability/gcpolicy.py). *)

From Stdlib Require Import String.
From S2P Require Import Prelude PyStr PyFloat Errors Oracles KeySet Containers ZSet Eviction Store.
From S2P Require Import Frames StoreInv StoreOps Snapshot Registry CmdKeys CmdServer CmdInv CmdHandlers Engine.
Local Close Scope string_scope.

Section Generic.
Context {X S : Type}.

Lemma keeps_weaken {A} (I I' : S -> Prop) (c : M X S A) :
  (forall s, I s <-> I' s) -> keeps I c -> keeps I' c.
Proof. intros HI Hc s Hs. apply HI, Hc, HI, Hs. Qed.

(** A first step that establishes [I], then steps that keep it. *)
Lemma keeps_after {A B} (I : S -> Prop) (c : M X S A) (f : A -> M X S B) s :
  I (c s).2 -> (forall a, keeps I (f a)) -> I (bindM c f s).2.
Proof. intros Hc Hf. unfold bindM. destruct (c s) as [[a|x] s']; [by apply Hf | done]. Qed.

Lemma keeps_and {A} (I I' : S -> Prop) (c : M X S A) :
  keeps I c -> keeps I' c -> keeps (fun s => I s /\ I' s) c.
Proof. intros H1 H2 s [? ?]. split; [by apply H1 | by apply H2]. Qed.
End Generic.

Section EngineInv.
Context `{Sizing} {P : Type} `{PolicyLaws P} {L R : Type} `{Persistence L} `{ReplicationFeed R}.
Abbreviation E := (EngineEnv L R).
Abbreviation W := (World P Done E).
Abbreviation SM := (M exn W).
Implicit Types (w : W) (s : Store P Done).
Abbreviation inv J := (StoreInv.inv (P := P) (D := Done) (E := E) (J := J)).

(** ** Protecting keys *)
Lemma inv_dirty J dirty s0 w :
  inv J [] s0 w -> (forall k, k ∈ dirty -> settled k (w_store w)) -> inv J dirty s0 w.
Proof.
  intros [[Hi Ho] Hf] Hs. split; [split|]; [|done..]. destruct Hi. split; try done.
  intros k e Hk _. apply si_acc; [done|set_solver].
Qed.

Lemma barriers_spec J s0 keys w :
  inv J [] s0 w ->
  exists w', forM_list snapshot_barrier keys w = (Ok tt, w') /\ inv J [] s0 w' /\
    w_env w' = w_env w /\ w_orc w' = w_orc w /\
    (forall k, k ∈ keys \/ settled k (w_store w) -> settled k (w_store w')).
Proof.
  revert w. induction keys as [|k keys IH]; intros w Hw.
  - exists w. conj; try done. intros k [Hk|?]; [set_solver|done].
  - pose proof (keeps_barrier (J := J) [] s0 k w Hw) as Hw1.
    destruct (take_key_inv (J := J) [] (w_store w) k (proj1 (proj1 Hw))) as (_ & _ & Hk & _).
    destruct (IH _ Hw1) as (w' & Hrun & Hw' & He & Ho & Hs). exists w'. conj; try done.
    intros x Hx. apply Hs. destruct Hx as [Hx|Hx].
    + apply elem_of_cons in Hx as [->|Hx]; [right; exact Hk | by left].
    + right. simpl. by apply take_key_settled.
Qed.

Lemma protect_spec J s0 keys w :
  inv J [] s0 w ->
  exists w', protect_keys keys w = (Ok tt, w') /\ inv J [] s0 w' /\ inv J keys s0 w' /\
    w_env w' = w_env w /\ w_orc w' = w_orc w.
Proof.
  intros Hw. unfold protect_keys, bindM, gets, readM. simpl.
  destruct (st_job (w_store w)) as [job|] eqn:Hj.
  - destruct (barriers_spec J s0 keys w Hw) as (w' & -> & Hw' & He & Ho & Hs).
    exists w'. conj; try done. apply inv_dirty; [done|]. intros k Hk. apply Hs. by left.
  - exists w. conj; try done. apply inv_dirty; [done|]. intros k _. unfold settled. by rewrite Hj.
Qed.

Section Ridden.
Context (Rd : Z -> option (option Done) -> E -> Prop) `{!Rider Rd} `{!LogRider (P := P) Rd}.
Context (G : Z -> Ghost -> Prop).
Abbreviation cinv := (CmdInv.cinv (P := P) Rd G).
Abbreviation same_epoch ep := (rides (P := P) (D := Done) (E := E) (epoch_is ep)).

(** ** A command on protected keys *)
Lemma run_keeps spec args s0 w :
  handler_ok spec -> flags_ok s0 -> (is_write spec = false -> rewrites_keep (cinv [] s0)) ->
  (cs_name spec = lit "RESTORE" -> clean_dump args) ->
  cinv (touched spec args) s0 w -> cinv [] s0 (run spec args (keys_of spec args) w).2.
Proof.
  intros Hok Hf Hrw Hc Hw.
  specialize (Hok (cinv (touched spec args) s0) args (cinv_access Rd G _ s0 Hf)). unfold run, touched in *.
  destruct (is_write spec); [|by apply Hok; auto]. specialize (Hok ltac:(done) Hc w Hw). cbn [negb]. unfold finallyM.
  destruct (cs_handler spec args w) as [r w1]. destruct Hok as [(J & HG & H1') Hr].
  destruct (refresh_all (J := J) (keys_of spec args) s0 w1 H1') as (w2 & Hw2 & H2').
  assert (Hr2 : rides Rd (forM_list refresh (keys_of spec args) w1).2)
    by (apply keeps_forM; [intros k _; apply rides_refresh; apply _ | done]).
  assert (He2 : same_epoch (st_epoch (w_store w1)) (forM_list refresh (keys_of spec args) w1).2)
    by (apply keeps_forM; [intros k _; apply rides_refresh; apply _ | done]).
  rewrite Hw2 in *. split; [|done]. exists J. split; [|done]. by rewrite He2.
Qed.

Lemma protect_rides Rd' keys : keeps (rides Rd') (protect_keys (P := P) (L := L) (R := R) keys).
Proof.
  unfold protect_keys. ride. apply keeps_forM. intros k _. apply rides_barrier.
Qed.

(** Protected keys stay protected through a step that keeps the invariant. *)
Definition cinv2 (keys : list pystr) s0 w : Prop :=
  (exists J, G (st_epoch (w_store w)) J /\ inv J [] s0 w /\ inv J keys s0 w) /\ rides Rd w.

Lemma cinv2_l keys s0 w : cinv2 keys s0 w -> cinv [] s0 w.
Proof. intros [(J & ? & ? & ?) ?]. split; [by exists J | done]. Qed.
Lemma cinv2_r keys s0 w : cinv2 keys s0 w -> cinv keys s0 w.
Proof. intros [(J & ? & ? & ?) ?]. split; [by exists J | done]. Qed.
Lemma cinv2_nil s0 w : cinv [] s0 w -> cinv2 [] s0 w.
Proof. intros [(J & ? & ?) ?]. split; [by exists J | done]. Qed.

Lemma keeps_cinv2 {A} (c : SM A) keys s0 :
  (forall J dirty, keeps (inv J dirty s0) c) -> (forall ep, keeps (same_epoch ep) c) ->
  keeps (rides Rd) c -> keeps (cinv2 keys s0) c.
Proof.
  intros Hc He Hr w [(J & ? & ? & ?) Hx]. split; [|by apply Hr]. exists J.
  rewrite (He _ w eq_refl). conj; [done|by apply Hc..].
Qed.

Lemma protect_keeps keys s0 w : cinv [] s0 w -> cinv2 keys s0 (protect_keys keys w).2.
Proof.
  intros [(J & HG & Hw) Hr]. pose proof (protect_rides Rd keys w Hr) as Hr'.
  pose proof (protect_rides (epoch_is (st_epoch (w_store w))) keys w eq_refl) as He.
  destruct (protect_spec J s0 keys w Hw) as (w' & Hrun & H1' & H2' & _). rewrite Hrun in *.
  split; [|done]. exists J. by rewrite He.
Qed.

Lemma check_memory_keeps keys s0 spec ks : keeps (cinv2 keys s0) (check_memory spec ks).
Proof.
  apply keeps_cinv2.
  - intros J dirty. unfold check_memory. apply keeps_bind; [apply keeps_gets|intros s].
    case_match; [|apply keeps_ret]. apply keeps_bind.
    + apply keeps_filterM. intros k _. apply keeps_bind; [apply keeps_peek|intros; apply keeps_ret].
    + intros l. apply keeps_bind; [apply keeps_gets|intros s']. case_match; [apply keeps_raise|apply keeps_ret].
  - intros ep. unfold check_memory. ride. apply keeps_filterM. intros k _. ride.
  - unfold check_memory. ride. apply keeps_filterM. intros k _. ride.
Qed.

(** Steps that act on the state around the store. *)
Lemma env_keeps {A} (c : M exn E A) dirty s0 :
  (forall n o, keeps (Rd n o) c) -> keeps (cinv dirty s0) (env_do c).
Proof.
  intros Hc. apply keeps_cinv; [intros J; apply keeps_env | intros ep; apply env_epoch | by apply rides_env].
Qed.

Lemma get_env_keeps {A} (f : E -> A) I : keeps I (get_env (P := P) f).
Proof. apply keeps_read. Qed.

Lemma propagate_keeps args dirty s0 : keeps (cinv dirty s0) (engine_propagate args).
Proof. apply env_keeps. intros n o. exact (rider_propagate (P := P) (R := Rd) args n o). Qed.

Lemma evict_keeps keys s0 : keeps (cinv [] s0) (let! victims := evict_if_needed keys in propagate_dels victims).
Proof.
  apply keeps_bind.
  - apply keeps_cinv; [intros J; apply keeps_evict | intros; apply rides_evict; apply _..].
  - intros vs. apply keeps_forM. intros v _. apply propagate_keeps.
Qed.
End Ridden.

(** ** The garbage collector's holds *)
Create HintDb gc.
Definition count_of (b : bool) : nat := if b then 1%nat else 0%nat.

(** [base] holds belong to others of the process; epochs only grow. *)
Definition gc_rider (base : nat) (ep0 ep : Z) (o : option (option Done)) (e : E) : Prop :=
  ep0 <= ep /\ o <> Some None /\ en_gc_holds e = (base + count_of (en_gc_held e) + count_of (found o))%nat.

(** A step that leaves the holds alone. *)
Definition gc_same {A} (c : M exn E A) : Prop :=
  forall e, en_gc_held (c e).2 = en_gc_held e /\ en_gc_holds (c e).2 = en_gc_holds e.

Lemma gc_same_rider {A} (c : M exn E A) base ep0 n o : gc_same c -> keeps (gc_rider base ep0 n o) c.
Proof. intros Hc e (Hn & Ho & He). destruct (Hc e) as [H1' H2']. split; [done|]. by rewrite H1', H2'. Qed.

Lemma gc_same_ret {A} (a : A) : gc_same (ret a).
Proof. done. Qed.
Lemma gc_same_bind {A B} (c : M exn E A) (f : A -> M exn E B) :
  gc_same c -> (forall a, gc_same (f a)) -> gc_same (bindM c f).
Proof.
  intros Hc Hf e. unfold bindM. destruct (Hc e) as [H1' H2']. destruct (c e) as [[a|x] e']; [|done].
  destruct (Hf a e') as [-> ->]. done.
Qed.
Lemma gc_same_finally {A} (c : M exn E A) last : gc_same c -> gc_same last -> gc_same (finallyM c last).
Proof.
  intros Hc Hl e. unfold finallyM. destruct (Hc e) as [H1' H2']. destruct (c e) as [r e'].
  destruct (Hl e') as [H3' H4']. destruct (last e') as [[u|x] e'']; simpl in *; split; congruence.
Qed.
Lemma gc_same_get : gc_same getM.
Proof. done. Qed.
Lemma gc_same_lift {A} (r : result exn A) : gc_same (lift r).
Proof. done. Qed.
Lemma gc_same_persistence {A} (c : M exn L A) : gc_same (on_persistence c).
Proof. intros e. unfold on_persistence. destruct (en_persistence e) as [l|]; [|done]. by destruct (c l). Qed.
Lemma gc_same_replication {A} (c : M exn R A) : gc_same (on_replication c).
Proof. intros e. unfold on_replication. destruct (en_replication e) as [l|]; [|done]. by destruct (c l). Qed.
Hint Resolve gc_same_ret gc_same_get gc_same_lift gc_same_persistence gc_same_replication : gc.

Ltac gc := repeat first [apply gc_same_bind; [|intros ?] | apply gc_same_finally | case_match | solve [eauto with gc]].

Lemma gc_same_propagate args : gc_same (en_propagate args).
Proof. unfold en_propagate. gc. Qed.
Lemma gc_same_commit : gc_same commit.
Proof. unfold commit. gc. Qed.
Hint Resolve gc_same_propagate gc_same_commit : gc.
Lemma gc_same_commit_unless_held : gc_same commit_unless_held.
Proof. unfold commit_unless_held. gc. Qed.
Lemma gc_same_count : gc_same count_command.
Proof. done. Qed.

#[export] Instance gc_is_rider base ep0 : Rider (gc_rider base ep0).
Proof.
  split.
  - intros f k n o [= <-]. apply gc_same_rider, gc_same_propagate.
  - intros d records n e (Hn & _ & He). unfold hook_done; simpl. unfold bindM, gc_release, modifyM.
    destruct d as [|id]; simpl.
    + destruct (gc_same_persistence (p_finish_copy records) (set_gc (en_gc_held e) (pred (en_gc_holds e)) e)) as [H1' H2'].
      split; [done|]. split; [done|]. rewrite H1', H2'. simpl in *. lia.
    + split; [done|]. split; [done|]. simpl in *. lia.
  - intros n e (_ & He & _). done.
Qed.

#[export] Instance gc_is_log_rider base ep0 : LogRider (P := P) (gc_rider base ep0).
Proof. split. intros args n o. apply gc_same_rider, gc_same_propagate. Qed.

Lemma release_gc_rider base ep0 n o : keeps (gc_rider base ep0 n o) release_gc.
Proof.
  intros e (Hn & Ho & He). unfold release_gc, bindM, getM, set_gc_held, gc_release, modifyM. simpl.
  split; [by repeat case_match|].
  destruct (en_gc_held e) eqn:Hh; simpl; [|split; [done|by rewrite Hh]].
  destruct (rewriting e); simpl; [split; [done|by rewrite Hh]|].
  split; [done|]. simpl in *. lia.
Qed.

Section Held.
Context (base : nat) (ep0 : Z) (J0 : Ghost).
Abbreviation gc_rider := (gc_rider base ep0).

(** In the epoch [ep0] the snapshot taken is the one that began with [J0]. *)
Definition taken (ep : Z) (J : Ghost) : Prop := ep = ep0 -> J = J0.

(** The engine's invariant: limits and switches as in [s0]. *)
Definition engine_inv (s0 : Store P Done) (w : W) : Prop := CmdInv.cinv (P := P) gc_rider taken [] s0 w.

Lemma gc_env_keeps {A} (c : M exn E A) s0 : gc_same c -> keeps (engine_inv s0) (env_do c).
Proof. intros Hc. apply env_keeps. intros n o. by apply gc_same_rider. Qed.

Lemma begin_keeps on_done s0 : keeps (engine_inv s0) (engine_begin_snapshot on_done).
Proof.
  intros w [(J & HG & Hw) (Hn & Ho & He)]. unfold engine_begin_snapshot, bindM, cleanup, catchM, env_do, gc_hold, modifyM.
  cbn [w_env w_store w_orc].
  set (w1 := mkWorld (w_store w) (set_gc (en_gc_held (w_env w)) (S (en_gc_holds (w_env w))) (w_env w)) (w_orc w)).
  assert (Hw1 : inv J [] s0 w1) by (by eapply inv_other).
  destruct (st_job (w_store w1)) as [job|] eqn:Hj.
  - unfold begin_snapshot, bindM, gets, readM. unfold id. rewrite Hj. cbn.
    split; [exists J; split; [done|by eapply inv_other]|]. split; [done|]. by split.
  - destruct (begin_spec (J := J) s0 (Some on_done) w1 Hw1 Hj) as (t & w2 & -> & Hw2 & _ & Hep & Hev & job & Hjob & Hd & _).
    split; [eexists; split; [|exact Hw2]|]; cbn [snd]; [intros Hx; rewrite Hep in Hx; cbn in Hx, Hn; lia|].
    unfold Frames.rides, receiver. rewrite Hjob, Hev, Hep. cbn. rewrite Hd.
    split; [cbn in Hn; lia|]. split; [done|]. unfold receiver in He. change (st_job (w_store w1)) with (st_job (w_store w)) in Hj.
    rewrite Hj in He. cbn in *. lia.
Qed.

Lemma release_gc_spec (e : E) :
  exists e', release_gc e = (Ok tt, e') /\ rewriting e' = rewriting e /\
    (rewriting e = false -> en_gc_held e' = false).
Proof.
  unfold release_gc, bindM, getM, set_gc_held, gc_release, modifyM.
  destruct (en_gc_held e) eqn:Hh, (rewriting e) eqn:Hr; simpl; eexists; by conj.
Qed.

Lemma release_hold_keeps s0 x (k : SM unit) :
  keeps (engine_inv s0) k ->
  keeps (engine_inv s0)
    (env_do release_gc;;
     let! busy := get_env rewriting in
     if busy : bool then raise x else env_do gc_hold;; env_do (set_gc_held true);; k).
Proof.
  intros Hk w Hw. pose proof (env_keeps gc_rider taken release_gc [] s0 (release_gc_rider base ep0) w Hw) as Hw1.
  unfold bindM, env_do, get_env, readM in *.
  destruct (release_gc_spec (w_env w)) as (e' & Hrun & Hrw & Hheld). rewrite Hrun in *. cbn [w_env] in *.
  destruct (rewriting e') eqn:Hb; [done|]. unfold gc_hold, set_gc_held, modifyM. cbn [w_store w_env w_orc].
  apply Hk. specialize (Hheld (eq_sym Hrw)). destruct Hw1 as [(J & HG & Hw1) (Hn & Ho & He)].
  split; [exists J; split; [done|by eapply inv_other]|]. split; [done|]. split; [done|]. cbn in *. rewrite Hheld in He. simpl in *. lia.
Qed.

Lemma keeps_cleanup {A} (I : W -> Prop) (body : SM A) h : keeps I body -> keeps I h -> keeps I (cleanup body h).
Proof.
  intros Hb Hh. apply keeps_catch; [done|]. intros x. apply keeps_bind; [done|]. intros u. apply keeps_raise.
Qed.

Lemma release_keeps s0 : keeps (engine_inv s0) (env_do release_gc).
Proof. apply env_keeps. apply release_gc_rider. Qed.

Lemma snapshot_keeps s0 : keeps (engine_inv s0) snapshot.
Proof. apply keeps_cinv; [intros J; apply keeps_snapshot | intros; apply rides_snapshot..]. Qed.

Lemma start_rewrite_inv s0 : keeps (engine_inv s0) start_rewrite.
Proof.
  unfold start_rewrite. apply keeps_bind; [apply get_env_keeps|intros has]. destruct (negb has); [apply keeps_raise|].
  do 2 (apply keeps_bind; [apply gc_env_keeps, gc_same_persistence|intros ?]).
  apply release_hold_keeps, keeps_cleanup; [|apply release_keeps].
  apply keeps_bind; [apply get_env_keeps|intros inc]. apply keeps_bind; [apply keeps_read|intros s].
  case_match.
  - apply keeps_bind; [apply gc_env_keeps, gc_same_persistence|intros ?]. apply begin_keeps.
  - apply keeps_bind; [apply snapshot_keeps|intros records]. apply gc_env_keeps, gc_same_persistence.
Qed.

Lemma job_step_keeps s0 n : keeps (engine_inv s0) (job_step n).
Proof. apply keeps_cinv; [intros J; apply keeps_job_step | intros; apply rides_job_step; apply _..]. Qed.

Lemma step_slices_keeps s0 n extra : keeps (engine_inv s0) (step_slices n extra).
Proof.
  induction extra as [|extra IH]; simpl; (apply keeps_bind; [apply job_step_keeps|intros fin]);
    destruct fin; try apply keeps_ret. apply IH.
Qed.

Lemma step_snapshot_inv s0 extra : keeps (engine_inv s0) (step_snapshot extra).
Proof.
  unfold step_snapshot. apply keeps_bind; [apply keeps_read|intros s]. destruct (st_job s); [|apply keeps_ret].
  apply keeps_bind; [apply get_env_keeps|intros n]. apply keeps_bind; [apply step_slices_keeps|intros f; apply keeps_ret].
Qed.

Lemma drive_snapshot_inv s0 fuel : keeps (engine_inv s0) (drive_snapshot fuel).
Proof.
  induction fuel as [|fuel IH]; simpl; (apply keeps_bind; [apply step_snapshot_inv|intros running]);
    destruct running; try apply keeps_ret. apply IH.
Qed.

Lemma wait_rewrite_inv s0 : keeps (engine_inv s0) wait_rewrite.
Proof.
  unfold wait_rewrite. apply keeps_bind; [apply keeps_read|intros s].
  apply keeps_bind; [apply drive_snapshot_inv|intros _]. apply keeps_bind; [apply get_env_keeps|intros has].
  apply keeps_bind; [|intros _; apply release_keeps]. destruct has; [|apply keeps_ret].
  apply gc_env_keeps, gc_same_persistence.
Qed.

Lemma save_inv s0 : keeps (engine_inv s0) save.
Proof.
  unfold save. apply keeps_bind; [apply start_rewrite_inv|intros _].
  apply keeps_bind; [apply wait_rewrite_inv|intros _]. apply keeps_bind; [apply get_env_keeps|intros st].
  case_match; [apply keeps_ret|apply keeps_raise].
Qed.

Lemma engine_rewrites_keep s0 : rewrites_keep (engine_inv s0).
Proof. split; [exact (start_rewrite_inv s0) | exact (save_inv s0)]. Qed.

(** ** Commands *)
Lemma command_spec_ok command s0 w :
  engine_inv s0 w ->
  match command_spec command w with
  | (Ok spec, w') => w' = w /\ handler_ok spec /\
      (exists name, command = AStr name /\ cs_name spec = str_upper name)
  | (Raise _, w') => w' = w
  end.
Proof.
  intros Hw. unfold command_spec. destruct command as [name| | | |]; try done.
  destruct (find_command (str_upper name)) as [spec|] eqn:Hf; [|done]. simpl. conj; [done| |].
  - by eapply find_command_ok.
  - exists name. split; [done|]. unfold find_command in Hf. apply find_some in Hf as [_ Hf].
    by apply bool_decide_eq_true in Hf.
Qed.

Lemma check_log_keeps s0 spec : keeps (engine_inv s0) (check_log spec).
Proof.
  unfold check_log. apply keeps_bind; [apply get_env_keeps|intros e].
  repeat case_match; try apply keeps_ret; try apply keeps_raise. apply gc_env_keeps, gc_same_persistence.
Qed.

(** A RESTORE must not smuggle in a NaN score. *)
Definition admissible (command : PyArg) (args : list PyArg) : Prop :=
  forall name, command = AStr name -> str_upper name = lit "RESTORE" -> clean_dump args.

(** The guarded part of [execute]: protect the keys, check the limits, run. *)
Lemma guarded_run_keeps s0 spec args :
  flags_ok s0 -> handler_ok spec -> (cs_name spec = lit "RESTORE" -> clean_dump args) ->
  keeps (engine_inv s0) (guarded_run spec args (keys_of spec args)).
Proof.
  intros Hf Hok Hc w Hw. unfold guarded_run.
  assert (Hp : cinv2 gc_rider taken (touched spec args) s0
                 ((if is_write spec then protect_keys (keys_of spec args) else ret tt) w).2).
  { unfold touched. destruct (is_write spec); [by apply protect_keeps | by apply cinv2_nil]. }
  unfold bindM. set (g := if is_write spec then protect_keys (keys_of spec args) else ret tt) in *.
  destruct (g w) as [[u|x] w1]; [|by eapply cinv2_l].
  pose proof (check_memory_keeps gc_rider taken (touched spec args) s0 spec (keys_of spec args) w1 Hp) as Hm.
  destruct (check_memory spec (keys_of spec args) w1) as [[u'|x] w2]; [|by eapply cinv2_l].
  refine (run_keeps gc_rider taken spec args s0 w2 Hok Hf _ Hc _);
    [intros _; apply engine_rewrites_keep | by apply cinv2_r].
Qed.

Lemma bind_assoc {A B C} (c : SM A) (f : A -> SM B) (g : B -> SM C) w :
  bindM (bindM c f) g w = bindM c (fun a => bindM (f a) g) w.
Proof. unfold bindM. by destruct (c w) as [[a|x] w']. Qed.

Lemma make_room_keeps s0 spec keys : keeps (engine_inv s0) (make_room spec keys).
Proof. unfold make_room. case_match; [apply evict_keeps; apply _ | apply keeps_ret]. Qed.

Lemma execute_inv s0 command args :
  flags_ok s0 -> admissible command args -> keeps (engine_inv s0) (execute command args).
Proof.
  intros Hf Hadm w Hw. pose proof (command_spec_ok command s0 w Hw) as Hs.
  unfold execute. unfold bindM at 1. destruct (command_spec command w) as [[spec|x] w1]; [|by subst].
  destruct Hs as (-> & Hok & name & -> & Hname). revert w Hw.
  refine (keeps_bind _ _ _ _ _); [unfold check_arity; case_match; [apply keeps_ret|apply keeps_raise]|intros _].
  apply keeps_bind; [apply check_log_keeps|intros _].
  apply keeps_bind; [apply guarded_run_keeps; [done..|]; intros Hr; eapply Hadm; [done|congruence]|intros result].
  apply keeps_bind; [apply make_room_keeps|intros _].
  apply keeps_bind; [apply gc_env_keeps, gc_same_count|intros _].
  apply keeps_bind; [apply gc_env_keeps, gc_same_commit_unless_held|intros _]. apply keeps_ret.
Qed.
End Held.
End EngineInv.
