(* ===== verification/EngineDepth.v ===== *)
(** * What commands leave alone

    The commit holds, every key a command does not name, and under [noeviction]
    the limit on the number of keys.

    ** The commit holds

    [_commit_depth] is changed by [hold_commit] and [release_commit] only: a
    command, a housekeeping tick or a snapshot slice that runs while a group
    commit is pending neither ends it nor adds to it. *)

From Stdlib Require Import String.
From S2P Require Import Prelude PyStr PyFloat Errors Oracles KeySet Containers ZSet Eviction Store Frames.
From S2P Require Import StoreInv StoreOps Snapshot Registry CmdKeys CmdServer CmdInv CmdHandlers Engine EngineInv.
Local Close Scope string_scope.

Section Depth.
Context `{Sizing} {P : Type} `{PolicyLaws P} {L R : Type} `{Persistence L} `{ReplicationFeed R}.
Abbreviation E := (EngineEnv L R).
Abbreviation W := (World P Done E).
Abbreviation SM := (M exn W).

(** ** Steps of the environment *)
Definition depth_same {A} (c : M exn E A) : Prop :=
  forall e, en_commit_depth (c e).2 = en_commit_depth e.

Lemma depth_same_bind {A B} (c : M exn E A) (f : A -> M exn E B) :
  depth_same c -> (forall a, depth_same (f a)) -> depth_same (bindM c f).
Proof.
  intros Hc Hf e. unfold bindM. specialize (Hc e). destruct (c e) as [[a|x] e']; [|done].
  by rewrite Hf.
Qed.
Lemma depth_same_finally {A} (c : M exn E A) last :
  depth_same c -> depth_same last -> depth_same (finallyM c last).
Proof.
  intros Hc Hl e. unfold finallyM. specialize (Hc e). destruct (c e) as [r e'].
  specialize (Hl e'). destruct (last e') as [[u|x] e'']; simpl in *; congruence.
Qed.
Lemma depth_same_persistence {A} (c : M exn L A) : depth_same (on_persistence c).
Proof. intros e. unfold on_persistence. destruct (en_persistence e) as [l|]; [|done]. by destruct (c l). Qed.
Lemma depth_same_replication {A} (c : M exn R A) : depth_same (on_replication c).
Proof. intros e. unfold on_replication. destruct (en_replication e) as [l|]; [|done]. by destruct (c l). Qed.
Lemma depth_same_modify f : (forall e : E, en_commit_depth (f e) = en_commit_depth e) -> depth_same (modifyM f).
Proof. done. Qed.

Ltac depth :=
  repeat lazymatch goal with
  | |- depth_same (bindM _ _) => apply depth_same_bind; [|intros ?]
  | |- depth_same (finallyM _ _) => apply depth_same_finally
  | |- depth_same (match ?x with _ => _ end) => destruct x
  | |- depth_same (on_persistence _) => apply depth_same_persistence
  | |- depth_same (on_replication _) => apply depth_same_replication
  | |- depth_same _ => done
  end.

Lemma depth_same_propagate args : depth_same (en_propagate args).
Proof. unfold en_propagate. depth. Qed.
Lemma depth_same_commit : depth_same commit.
Proof. unfold commit. depth. Qed.
Lemma depth_same_commit_unless_held : depth_same commit_unless_held.
Proof. unfold commit_unless_held. depth. apply depth_same_commit. Qed.
Lemma depth_same_release_gc : depth_same release_gc.
Proof. unfold release_gc. depth. Qed.

(** ** The rider *)
Definition depth_rider (d : Z) (_ : Z) (_ : option (option Done)) (e : E) : Prop := en_commit_depth e = d.

Lemma depth_rider_keeps {A} (c : M exn E A) d n o : depth_same c -> keeps (depth_rider d n o) c.
Proof. intros Hc e He. unfold depth_rider in *. by rewrite Hc. Qed.

#[export] Instance depth_is_rider d : Rider (depth_rider d).
Proof.
  split; [|intros x records n e He|done].
  - intros f k n o [= <-]. apply depth_rider_keeps, depth_same_propagate.
  - unfold depth_rider in *. rewrite <- He. simpl. unfold bindM, gc_release, modifyM. destruct x; [|done].
    by rewrite depth_same_persistence.
Qed.
#[export] Instance depth_is_log_rider d : LogRider (P := P) (depth_rider d).
Proof. split. intros args n o. apply depth_rider_keeps, depth_same_propagate. Qed.

(** [d] holds of the commit are out. *)
Definition held (d : Z) (w : W) : Prop := en_commit_depth (w_env w) = d.

Lemma held_env {A} (c : M exn E A) d : depth_same c -> keeps (held d) (env_do c).
Proof.
  intros Hc w Hw. unfold held, env_do in *. specialize (Hc (w_env w)). destruct (c (w_env w)). simpl in *. congruence.
Qed.

Lemma held_rides {A} (c : SM A) d : keeps (rides (depth_rider d)) c -> keeps (held d) c.
Proof. done. Qed.

Lemma held_begin d x : keeps (held d) (engine_begin_snapshot x).
Proof.
  unfold engine_begin_snapshot. apply keeps_bind; [by apply held_env|intros _].
  apply keeps_cleanup; [|by apply held_env]. unfold begin_snapshot.
  apply keeps_bind; [apply keeps_read|intros s]. destruct (st_job s); [apply keeps_raise|].
  apply keeps_bind; [by intros w Hw; exact Hw|intros _].
  apply keeps_bind; [apply held_rides, rides_now|intros t w Hw; exact Hw].
Qed.

Lemma held_start_rewrite d : keeps (held d) start_rewrite.
Proof.
  unfold start_rewrite. apply keeps_bind; [apply keeps_read|intros has]. destruct (negb has); [apply keeps_raise|].
  do 2 (apply keeps_bind; [apply held_env, depth_same_persistence|intros ?]).
  apply keeps_bind; [apply held_env, depth_same_release_gc|intros _].
  apply keeps_bind; [apply keeps_read|intros busy]. destruct busy; [apply keeps_raise|].
  do 2 (apply keeps_bind; [by apply held_env|intros ?]).
  apply keeps_cleanup; [|apply held_env, depth_same_release_gc].
  apply keeps_bind; [apply keeps_read|intros inc]. apply keeps_bind; [apply keeps_read|intros s].
  destruct (inc && _).
  - apply keeps_bind; [apply held_env, depth_same_persistence|intros _]. apply held_begin.
  - apply keeps_bind; [apply held_rides, rides_snapshot|intros records]. apply held_env, depth_same_persistence.
Qed.

Lemma held_step_slices d n extra : keeps (held d) (step_slices n extra).
Proof.
  induction extra as [|extra IH]; simpl;
    (apply keeps_bind; [apply held_rides, rides_job_step; apply _|intros fin]); destruct fin; try apply keeps_ret.
  apply IH.
Qed.

Lemma held_step_snapshot d extra : keeps (held d) (step_snapshot extra).
Proof.
  unfold step_snapshot. apply keeps_bind; [apply keeps_read|intros s]. destruct (st_job s); [|apply keeps_ret].
  apply keeps_bind; [apply keeps_read|intros n]. apply keeps_bind; [apply held_step_slices|intros f; apply keeps_ret].
Qed.

Lemma held_wait_rewrite d : keeps (held d) wait_rewrite.
Proof.
  unfold wait_rewrite. apply keeps_bind; [apply keeps_read|intros s]. apply keeps_bind; [|intros _].
  - generalize (job_keys s). intros fuel. induction fuel as [|fuel IH]; simpl;
      (apply keeps_bind; [apply held_step_snapshot|intros running]); destruct running; try apply keeps_ret. apply IH.
  - apply keeps_bind; [apply keeps_read|intros has].
    apply keeps_bind; [|intros _; apply held_env, depth_same_release_gc].
    destruct has; [apply held_env, depth_same_persistence|apply keeps_ret].
Qed.

Lemma held_save d : keeps (held d) save.
Proof.
  unfold save. apply keeps_bind; [apply held_start_rewrite|intros _].
  apply keeps_bind; [apply held_wait_rewrite|intros _]. apply keeps_bind; [apply keeps_read|intros st].
  case_match; [apply keeps_ret|apply keeps_raise].
Qed.

Lemma held_cron d n : keeps (held d) (cron n).
Proof.
  unfold cron. apply keeps_bind; [apply held_rides, rides_expire_cycle; apply _|intros k].
  apply keeps_bind; [case_match; [apply keeps_ret|apply held_env, depth_same_commit_unless_held]|intros _].
  apply keeps_bind; [apply keeps_read|intros op]. apply keeps_bind; [|intros _; apply keeps_ret].
  destruct op; [|apply keeps_ret]. apply keeps_bind; [apply held_env, depth_same_persistence|intros _].
  apply keeps_bind; [apply held_env, depth_same_release_gc|intros _].
  apply keeps_bind; [apply keeps_read|intros due]. destruct due; [apply held_start_rewrite|apply keeps_ret].
Qed.

(** ** Commands *)
Section Commands.
Context (base : nat) (ep0 : Z) (J0 : Ghost) (d : Z).
Abbreviation engine_inv := (EngineInv.engine_inv (P := P) (L := L) (R := R) base ep0 J0).

Definition both (n : Z) (o : option (option Done)) (e : E) : Prop :=
  gc_rider base ep0 n o e /\ depth_rider d n o e.

#[export] Instance both_is_rider : Rider both.
Proof.
  split.
  - intros f k n o Hf. apply keeps_and; by apply rider_expire.
  - intros x records n e [H1' H2']. split; by apply rider_done.
  - intros n e [H1' H2']. split; by apply rider_dropped.
Qed.
#[export] Instance both_is_log_rider : LogRider (P := P) both.
Proof. split. intros args n o. apply keeps_and; by apply rider_propagate. Qed.

Abbreviation binv := (CmdInv.cinv (P := P) both (taken ep0 J0)).

Lemma binv_split s0 w : binv [] s0 w <-> engine_inv s0 w /\ held d w.
Proof. unfold engine_inv, CmdInv.cinv, rides, both, held, depth_rider. tauto. Qed.

Lemma binv_keeps {A} (c : SM A) s0 :
  keeps (engine_inv s0) c -> keeps (held d) c -> keeps (binv [] s0) c.
Proof. intros H1' H2' w Hw. apply binv_split in Hw as [? ?]. apply binv_split. split; [by apply H1'|by apply H2']. Qed.

Lemma binv_rewrites s0 : rewrites_keep (binv [] s0).
Proof.
  destruct (engine_rewrites_keep base ep0 J0 s0) as [Ha Hb]. split; apply binv_keeps; [done| |done|].
  - apply held_start_rewrite.
  - apply held_save.
Qed.

Lemma guarded_run_held s0 spec args w :
  flags_ok s0 -> handler_ok spec -> (cs_name spec = lit "RESTORE" -> clean_dump args) ->
  engine_inv s0 w -> held d w -> held d (guarded_run spec args (keys_of spec args) w).2.
Proof.
  intros Hf Hok Hc Hw Hd. assert (Hb : binv [] s0 w) by (by apply binv_split).
  enough (Hend : binv [] s0 (guarded_run spec args (keys_of spec args) w).2) by (by apply binv_split in Hend as [_ ?]).
  unfold guarded_run.
  assert (Hp : cinv2 both (taken ep0 J0) (touched spec args) s0
                 ((if is_write spec then protect_keys (keys_of spec args) else ret tt) w).2).
  { unfold touched. destruct (is_write spec); [by apply protect_keeps | by apply cinv2_nil]. }
  unfold bindM. set (g := if is_write spec then protect_keys (keys_of spec args) else ret tt) in *.
  destruct (g w) as [[u|x] w1]; [|by eapply cinv2_l].
  pose proof (check_memory_keeps both (taken ep0 J0) (touched spec args) s0 spec (keys_of spec args) w1 Hp) as Hm.
  destruct (check_memory spec (keys_of spec args) w1) as [[u'|x] w2]; [|by eapply cinv2_l].
  refine (run_keeps both (taken ep0 J0) spec args s0 w2 Hok Hf _ Hc _); [intros _; apply binv_rewrites | by apply cinv2_r].
Qed.

Lemma held_make_room spec keys : keeps (held d) (make_room spec keys).
Proof.
  unfold make_room. case_match; [|apply keeps_ret].
  apply keeps_bind; [apply held_rides, rides_evict; apply _|intros victims].
  apply keeps_forM. intros v _. apply held_env, depth_same_propagate.
Qed.

Lemma execute_held s0 command args w :
  flags_ok s0 -> admissible command args -> engine_inv s0 w -> held d w -> held d (execute command args w).2.
Proof.
  intros Hf Hadm Hw Hd. pose proof (command_spec_ok base ep0 J0 command s0 w Hw) as Hs.
  unfold execute. unfold bindM at 1. destruct (command_spec command w) as [[spec|x] w1]; [|by subst].
  destruct Hs as (-> & Hok & name & -> & Hname). unfold bindM at 1, check_arity.
  destruct (arity_ok spec args); [|done]. simpl. unfold bindM at 1.
  pose proof (check_log_keeps base ep0 J0 s0 spec w Hw) as Hw2.
  assert (Hd2 : held d (check_log spec w).2).
  { unfold check_log, bindM, get_env, readM, id. destruct (en_persistence (w_env w)) as [l|]; [|done].
    destruct (is_write spec); [|done]. destruct (negb (p_is_open l)); [done|].
    by apply (held_env _ d (depth_same_persistence _)). }
  destruct (check_log spec w) as [[u|x] w2]; [|done]. unfold bindM at 1.
  assert (Hc : cs_name spec = lit "RESTORE" -> clean_dump args) by (intros Hr; eapply Hadm; [done|congruence]).
  pose proof (guarded_run_held s0 spec args w2 Hf Hok Hc Hw2 Hd2) as Hd3.
  destruct (guarded_run spec args (keys_of spec args) w2) as [[result|x] w3]; [|done]. revert w3 Hd3. simpl.
  apply keeps_bind; [apply held_make_room|intros _]. apply keeps_bind; [by apply held_env|intros _].
  apply keeps_bind; [apply held_env, depth_same_commit_unless_held|intros _; apply keeps_ret].
Qed.
End Commands.
End Depth.

(** * A command changes only the keys it names

    Whatever the outcome of [execute], a key its description does not name is
    as it was, content and deadline, or gone: expired, evicted or flushed. *)

Section Frame.
Context `{Sizing} {P : Type} `{PolicyLaws P} {L R : Type} `{Persistence L} `{ReplicationFeed R}.
Abbreviation E := (EngineEnv L R).
Abbreviation W := (World P Done E).
Abbreviation SM := (M exn W).
Implicit Types (w : W) (s : Store P Done).
Context (dirty : list pystr) (d0 : list (pystr * Entry)).
Abbreviation frame := (Frames.frame (P := P) (D := Done) (E := E) dirty d0).

Lemma frame_get_env {A} (f : E -> A) : keeps frame (get_env f).
Proof. apply keeps_read. Qed.

Lemma frame_cleanup {A} (body : SM A) h : keeps frame body -> keeps frame h -> keeps frame (cleanup body h).
Proof. apply keeps_cleanup. Qed.

Lemma frame_begin_snapshot d : keeps frame (engine_begin_snapshot d).
Proof. unfold engine_begin_snapshot. stay. apply frame_cleanup; eauto with frames. Qed.

Hint Resolve frame_get_env frame_begin_snapshot : frames.

Lemma frame_start_rewrite : keeps frame start_rewrite.
Proof. unfold start_rewrite. stay. apply frame_cleanup; stay. Qed.

Lemma frame_step_slices n extra : keeps frame (step_slices n extra).
Proof. induction extra as [|extra IH]; simpl; stay. Qed.
Hint Resolve frame_step_slices : frames.

Lemma frame_step_snapshot extra : keeps frame (step_snapshot extra).
Proof. unfold step_snapshot. stay. Qed.
Hint Resolve frame_step_snapshot : frames.

Lemma frame_drive fuel : keeps frame (drive_snapshot fuel).
Proof. induction fuel as [|fuel IH]; simpl; stay. Qed.
Hint Resolve frame_start_rewrite frame_drive : frames.

Lemma frame_wait : keeps frame wait_rewrite.
Proof. unfold wait_rewrite. stay. Qed.
Hint Resolve frame_wait : frames.

Lemma frame_save : keeps frame save.
Proof. unfold save. stay. Qed.

Lemma frame_protect keys : keeps frame (protect_keys keys).
Proof. unfold protect_keys. stay. apply keeps_forM. intros. apply frame_barrier. Qed.

Lemma frame_check_memory spec keys : keeps frame (check_memory spec keys).
Proof. unfold check_memory. stay. apply keeps_filterM. intros. stay. Qed.

Lemma frame_check_log spec : keeps frame (check_log spec).
Proof. unfold check_log. stay. Qed.

Lemma frame_propagate_dels l : keeps frame (propagate_dels l).
Proof. apply keeps_forM. intros. apply frame_env. Qed.
End Frame.

Section Execute.
Context `{Sizing} {P : Type} `{PolicyLaws P} {L R : Type} `{Persistence L} `{ReplicationFeed R}.
Abbreviation E := (EngineEnv L R).
Abbreviation W := (World P Done E).
Abbreviation SM := (M exn W).
Context (base : nat) (ep0 : Z) (J0 : Ghost).
Abbreviation engine_inv := (EngineInv.engine_inv (P := P) (L := L) (R := R) base ep0 J0).
Abbreviation gc_rider := (EngineInv.gc_rider (L := L) (R := R) base ep0).
Abbreviation taken := (EngineInv.taken ep0 J0).

Lemma rewrites_framed s0 d0 : rewrites_keep (fun w => engine_inv s0 w /\ frame [] d0 w).
Proof.
  destruct (engine_rewrites_keep (P := P) (L := L) (R := R) base ep0 J0 s0) as [Ha Hb].
  split; apply keeps_and; [exact Ha|apply frame_start_rewrite|exact Hb|apply frame_save].
Qed.

Lemma run_frame spec args s0 d0 w :
  handler_ok spec -> flags_ok s0 -> (cs_name spec = lit "RESTORE" -> clean_dump args) ->
  cinv gc_rider taken (touched spec args) s0 w -> frame (touched spec args) d0 w ->
  frame (touched spec args) d0 (run spec args (keys_of spec args) w).2.
Proof.
  intros Hok Hf Hc Hw Hd. pose proof (cinv_access gc_rider taken (touched spec args) s0 Hf) as Ha.
  specialize (Hok _ args (framed_access _ _ d0 Ha)). unfold run, touched in *.
  destruct (is_write spec).
  - specialize (Hok ltac:(done) Hc w (conj Hw Hd)). unfold finallyM. cbn [negb].
    destruct (cs_handler spec args w) as [r w1]. destruct Hok as [_ H1'].
    assert (H2' : frame (keys_of spec args) d0 (forM_list refresh (keys_of spec args) w1).2)
      by (apply keeps_forM; [intros k Hk; by apply frame_refresh | done]).
    by destruct (forM_list refresh (keys_of spec args) w1) as [[u|x] w2].
  - apply (Hok (fun _ => rewrites_framed s0 d0) Hc w (conj Hw Hd)).
Qed.

Lemma guarded_run_frame spec args s0 d0 w :
  handler_ok spec -> flags_ok s0 -> (cs_name spec = lit "RESTORE" -> clean_dump args) ->
  engine_inv s0 w -> frame (touched spec args) d0 w ->
  frame (touched spec args) d0 (guarded_run spec args (keys_of spec args) w).2.
Proof.
  intros Hok Hf Hc Hw Hd. unfold guarded_run.
  set (g := if is_write spec then protect_keys (keys_of spec args) else ret tt).
  assert (Hp : cinv2 gc_rider taken (touched spec args) s0 (g w).2 /\ frame (touched spec args) d0 (g w).2).
  { subst g. split; [|destruct (is_write spec); [by apply frame_protect|done]].
    unfold touched. destruct (is_write spec); [by apply protect_keeps | by apply cinv2_nil]. }
  unfold bindM. destruct (g w) as [[u|x] w1]; [|by destruct Hp]. destruct Hp as [Hp Hd1].
  pose proof (check_memory_keeps gc_rider taken (touched spec args) s0 spec (keys_of spec args) w1 Hp) as Hm.
  pose proof (frame_check_memory (touched spec args) d0 spec (keys_of spec args) w1 Hd1) as Hd2.
  destruct (check_memory spec (keys_of spec args) w1) as [[u'|x] w2]; [|done].
  refine (run_frame spec args s0 d0 w2 Hok Hf Hc _ Hd2). by apply cinv2_r.
Qed.

(** The keys a command may change. *)
Definition command_keys (command : PyArg) (args : list PyArg) : list pystr :=
  match command with
  | AStr name => match find_command (P := P) (D := Done) (E := E) (str_upper name) with
                 | Some spec => touched spec args
                 | None => []
                 end
  | _ => []
  end.

Lemma execute_frame s0 d0 command args w :
  flags_ok s0 -> admissible command args -> engine_inv s0 w -> frame (command_keys command args) d0 w ->
  frame (command_keys command args) d0 (execute command args w).2.
Proof.
  intros Hf Hadm Hw Hd. pose proof (command_spec_ok base ep0 J0 command s0 w Hw) as Hs.
  unfold execute. unfold bindM at 1. unfold command_keys, command_spec in *.
  destruct command as [name| | | |]; try done.
  destruct (find_command (str_upper name)) as [spec|]; [|done]. simpl in Hs. unfold ret at 1. cbv beta iota.
  destruct Hs as (_ & Hok & name' & [= <-] & Hname). set (F := frame (touched spec args) d0) in *.
  assert (Hfirst : keeps (fun w => engine_inv s0 w /\ F w) (check_arity spec args)).
  { unfold check_arity. case_match; [apply keeps_ret|apply keeps_raise]. }
  assert (Hlog : keeps (fun w => engine_inv s0 w /\ F w) (check_log spec)).
  { apply keeps_and; [apply check_log_keeps|apply frame_check_log]. }
  unfold bindM at 1. specialize (Hfirst w (conj Hw Hd)). destruct (check_arity spec args w) as [[u|x] w1]; [|by destruct Hfirst].
  unfold bindM at 1. specialize (Hlog w1 Hfirst). destruct (check_log spec w1) as [[u'|x] w2]; [|by destruct Hlog].
  destruct Hlog as [Hw2 Hd2]. cbv zeta. apply keeps_after.
  - eapply guarded_run_frame; try done. intros Hr. eapply Hadm; [done|congruence].
  - intros result. apply keeps_bind; [|intros _].
    + unfold make_room. case_match; [|apply keeps_ret].
      apply keeps_bind; [apply frame_evict|intros v; apply frame_propagate_dels].
    + apply keeps_bind; [apply frame_env|intros _]. apply keeps_bind; [apply frame_env|intros _; apply keeps_ret].
Qed.
End Execute.

(** * The limit on the number of keys under [noeviction]

    Counting what a command can add: the keys it names that are not there. *)

(** The keys of [keys] that [d] does not have, each once. *)
Definition absent (keys : list pystr) (d : list (pystr * Entry)) : list pystr :=
  filter (fun k => dict_get k d = None) (remove_dups keys).

Lemma frame_length dirty d0 d :
  dict_wf d0 -> frame_of dirty d0 d -> (length d <= length d0 + length (absent dirty d0))%nat.
Proof.
  intros H0 [Hd Hfr]. rewrite <- (length_fmap fst d), <- (length_fmap fst d0), <- length_app.
  apply submseteq_length, NoDup_submseteq; [done|]. intros k Hk.
  rewrite elem_of_app. destruct (dict_get k d0) as [e|] eqn:He.
  - left. apply dict_get_is_Some. eauto.
  - right. apply list_elem_of_filter. split; [done|]. apply elem_of_remove_dups.
    destruct (decide (k ∈ dirty)) as [|Hn]; [done|]. exfalso.
    apply dict_get_is_Some in Hk as [e He']. destruct (Hfr k Hn) as [?|Hs]; [congruence|].
    unfold seen in Hs. by rewrite He, He' in Hs.
Qed.

Section Limits.
Context `{Sizing} {P : Type} `{PolicyLaws P} {L R : Type} `{Persistence L} `{ReplicationFeed R}.
Abbreviation E := (EngineEnv L R).
Abbreviation W := (World P Done E).
Abbreviation SM := (M exn W).
Implicit Types (w : W).
Abbreviation inv J := (StoreInv.inv (P := P) (D := Done) (E := E) (J := J)).

(** The keys among [l] that [peek] does not find. *)
Abbreviation peek_missing := (filterM_list (fun k => let! e := peek k in ret (negb (found e))) : list pystr -> SM (list pystr)).

Lemma peek_missing_spec J s0 l w missing w' :
  inv J [] s0 w -> flags_ok s0 -> NoDup l -> peek_missing l w = (Ok missing, w') ->
  inv J [] s0 w' /\ (forall k, k ∉ l -> entry_at k w' = entry_at k w) /\
  (forall k, k ∈ l -> entry_at k w' = None -> k ∈ missing).
Proof.
  intros Hw Hf Hnd. revert w missing Hw. induction Hnd as [|a l Ha Hnd IH]; intros w missing Hw.
  - intros [= <- <-]. conj; [done|done|set_solver].
  - cbn [filterM_list]. intros (b & w1 & H1' & H2')%bind_Ok.
    apply bind_Ok in H1' as (e & w1' & Hpeek & [= <- <-]).
    apply bind_Ok in H2' as (rest & w2 & Hrest & [= <- <-]).
    destruct (lookup_spec (J := J) [] s0 a w Hw) as (r & w1 & Hl & Hw1 & Hx & Hr).
    unfold peek in Hpeek. rewrite Hl in Hpeek. injection Hpeek as -> <-.
    destruct (IH w1 rest Hw1 Hrest) as (Hw2 & Hx2 & Hm). conj; [done| |].
    + intros k Hk. rewrite Hx2, Hx by set_solver. done.
    + intros k Hk Hnone. apply elem_of_cons in Hk as [->|Hk].
      * rewrite Hx2 in Hnone by done. destruct e as [e|]; simpl; [|left]. by destruct Hr; congruence.
      * destruct (negb (found e)); [right|]; by apply Hm.
Qed.

(** What the check of the limits has made sure of. *)
Lemma check_memory_room J s0 spec keys w w' :
  inv J [] s0 w -> flags_ok s0 -> DENYOOM ∈ cs_flags spec -> evicts (st_eviction s0) = false ->
  max_keys s0 <> 0 -> check_memory spec keys w = (Ok tt, w') ->
  store_len (w_store w') + Z.of_nat (length (absent keys (st_data (w_store w')))) <= max_keys s0.
Proof.
  intros Hw Hf Hd Hev Hmax. assert (Hev' : evicts (st_eviction (w_store w)) = false).
  { destruct Hw as [_ (_ & _ & _ & _ & _ & ->)]. done. }
  intros (s & w1 & [= <- <-] & H1')%bind_Ok. unfold id in H1'. rewrite (bool_decide_true (DENYOOM ∈ _)), Hev' in H1' by done.
  cbn [andb negb] in H1'. apply bind_Ok in H1' as (missing & w2 & Hm & H2').
  apply bind_Ok in H2' as (s & w3 & [= <- <-] & H3'). unfold id in H3'.
  destruct (over_limit _ (w_store w2)) eqn:Ho; [done|]. injection H3' as <-.
  destruct (peek_missing_spec J s0 (remove_dups keys) w missing w2 Hw Hf (NoDup_remove_dups keys) Hm) as (Hw2 & _ & Hin).
  assert (Hle : (length (absent keys (st_data (w_store w2))) <= length missing)%nat).
  { apply submseteq_length, NoDup_submseteq; [apply NoDup_filter, NoDup_remove_dups|].
    intros k Hk. apply list_elem_of_filter in Hk as [Hn Hk]. by apply Hin. }
  unfold over_limit in Ho. apply orb_false_iff in Ho as [Ho _].
  assert (Hmk : max_keys (w_store w2) = max_keys s0) by (by destruct Hw2 as [_ (_ & _ & _ & -> & _)]).
  rewrite Hmk in Ho. apply andb_false_iff in Ho as [Ho|Ho]; [|apply Z.ltb_ge in Ho; lia].
  apply negb_false_iff, Z.eqb_eq in Ho. done.
Qed.

Lemma frame_shorter d0 w : dict_wf d0 -> frame [] d0 w -> store_len (w_store w) <= Z.of_nat (length d0).
Proof.
  intros Hd Hf. pose proof (frame_length [] d0 _ Hd Hf) as Hl. unfold store_len, absent in *. simpl in Hl. lia.
Qed.

Context (base : nat) (ep0 : Z) (J0 : Ghost).
Abbreviation engine_inv := (EngineInv.engine_inv (P := P) (L := L) (R := R) base ep0 J0).
Abbreviation gc_rider := (EngineInv.gc_rider (L := L) (R := R) base ep0).
Abbreviation taken := (EngineInv.taken ep0 J0).

(** Guarded by that check, the handler stays within the limit. *)
Lemma guarded_run_room s0 spec args w :
  handler_ok spec -> flags_ok s0 -> (cs_name spec = lit "RESTORE" -> clean_dump args) ->
  engine_inv s0 w -> is_write spec = true -> DENYOOM ∈ cs_flags spec ->
  evicts (st_eviction s0) = false -> max_keys s0 <> 0 -> store_len (w_store w) <= max_keys s0 ->
  store_len (w_store (guarded_run spec args (keys_of spec args) w).2) <= max_keys s0.
Proof.
  intros Hok Hf Hc Hw Hwr Hd Hev Hmax Hlen. unfold guarded_run. rewrite Hwr.
  set (keys := keys_of spec args) in *. set (d0 := st_data (w_store w)) in *.
  assert (Hd0 : dict_wf d0) by (destruct Hw as [(J & _ & Hw) _]; apply Hw).
  pose proof (frame_protect [] d0 keys w (conj Hd0 (fun k _ => or_intror eq_refl))) as H1'.
  pose proof (protect_keeps gc_rider taken keys s0 w Hw) as Hp.
  unfold bindM. destruct (protect_keys keys w) as [[u|x] w1];
    [|pose proof (frame_shorter d0 _ Hd0 H1'); subst d0; unfold store_len in *; simpl in *; lia].
  pose proof (frame_check_memory [] d0 spec keys w1 H1') as H2'.
  pose proof (check_memory_keeps gc_rider taken keys s0 spec keys w1 Hp) as Hm.
  destruct Hp as [(J & _ & Hp & _) _].
  destruct (check_memory spec keys w1) as [[[]|x] w2] eqn:Hcm;
    [|pose proof (frame_shorter d0 _ Hd0 H2'); subst d0; unfold store_len in *; simpl in *; lia].
  pose proof (check_memory_room J s0 spec keys w1 w2 Hp Hf Hd Hev Hmax Hcm) as Hroom.
  pose proof (cinv2_r gc_rider taken keys s0 _ Hm) as Hr.
  assert (Ht : touched spec args = keys) by (unfold touched; by rewrite Hwr).
  assert (Hd2 : dict_wf (st_data (w_store w2))) by (destruct Hr as [(J' & _ & Hr) _]; apply Hr).
  pose proof (run_frame base ep0 J0 spec args s0 (st_data (w_store w2)) w2 Hok Hf Hc) as Hrun. rewrite Ht in Hrun.
  specialize (Hrun Hr (conj Hd2 (fun k _ => or_intror eq_refl))).
  pose proof (frame_length _ _ _ Hd2 Hrun) as Hl. fold keys in Hl. unfold store_len in *. lia.
Qed.
End Limits.
