(* ===== verification/EngineLife.v ===== *)
(** * Replay, replication, opening, closing and housekeeping keep the invariants

    The replica's side applies commands with expiry switched off; opening loads
    what the files hold with eviction and expiry off and nothing logged; closing
    abandons a snapshot in progress; the periodic job expires keys and may start
    a rewrite (engine/engine.py). *)

From Stdlib Require Import String.
From S2P Require Import Prelude PyStr PyFloat Errors Oracles KeySet Containers ZSet Eviction Store.
From S2P Require Import Frames StoreInv StoreOps Snapshot Registry CmdKeys CmdServer CmdInv CmdHandlers Engine EngineInv.
Local Close Scope string_scope.

Section Life.
Context `{Sizing} {P : Type} `{PolicyLaws P} {L R : Type} `{Persistence L} `{ReplicationFeed R}.
Abbreviation E := (EngineEnv L R).
Abbreviation W := (World P Done E).
Abbreviation SM := (M exn W).
Implicit Types (w : W) (s : Store P Done).
Abbreviation inv J := (StoreInv.inv (P := P) (D := Done) (E := E) (J := J)).
Context (base : nat) (ep0 : Z) (J0 : Ghost).
Abbreviation engine_inv := (EngineInv.engine_inv (P := P) (L := L) (R := R) base ep0 J0).
Abbreviation gc_rider := (EngineInv.gc_rider (L := L) (R := R) base ep0).
Abbreviation taken := (EngineInv.taken ep0 J0).

(** ** Switches *)
Lemma set_flags_same s : set_flags (eviction_enabled s) (expiry_enabled s) (expiry_deletes s) s = s.
Proof. by destruct s. Qed.

Lemma inv_flags J dirty s0 w a b c :
  inv J dirty s0 w ->
  inv J dirty (set_flags a b c s0) (mkWorld (set_flags a b c (w_store w)) (w_env w) (w_orc w)).
Proof.
  intros [[Hi Ho] Hf]. split; [split|]; [|done|].
  - destruct Hi. split; try done. destruct si_job as [Hle Hj]. split; [done|]. simpl.
    destruct (st_job (w_store w)); [|done]. destruct Hj. by split.
  - destruct Hf as (? & ? & ? & ? & ? & ?). by conj.
Qed.

(** [s0] with the switch [expiry_enabled] at [b]. *)
Definition with_expiry (b : bool) (s0 : Store P Done) : Store P Done :=
  set_flags (eviction_enabled s0) b (expiry_deletes s0) s0.

Section Ridden.
Context (Rd : Z -> option (option Done) -> E -> Prop) (G : Z -> Ghost -> Prop).
Abbreviation cinv := (CmdInv.cinv (P := P) Rd G).

Lemma set_expiry_enabled_inv dirty s0 b w :
  cinv dirty s0 w -> cinv dirty (with_expiry b s0) (set_expiry_enabled b w).2.
Proof.
  intros [(J & HG & Hw) Hr]. split; [|done]. exists J. split; [done|]. destruct Hw as [Hi (He & Hx & Hd & Hrest)].
  unfold set_expiry_enabled, upd, modifyM, with_expiry. cbn [snd]. rewrite He, Hd. apply inv_flags.
  by conj.
Qed.

(** [body] runs with expiry off; afterwards the switch is as it was. *)
Lemma without_expiry_inv {A} (body : SM A) d d' s0 :
  (forall w, cinv d (with_expiry false s0) w -> cinv d' (with_expiry false s0) (body w).2) ->
  forall w, cinv d s0 w -> cinv d' s0 (without_expiry body w).2.
Proof.
  intros Hb w Hw. assert (Hx : expiry_enabled (w_store w) = expiry_enabled s0)
    by (destruct Hw as [(J & _ & _ & (_ & ? & _)) _]; done).
  unfold without_expiry, bindM, gets, readM, finallyM. cbn [id].
  pose proof (set_expiry_enabled_inv d s0 false w Hw) as H1'.
  unfold set_expiry_enabled, upd, modifyM in *. cbn [snd] in H1'. apply Hb in H1'.
  destruct (body _) as [r w2]. cbn [snd] in H1'.
  pose proof (set_expiry_enabled_inv d' _ (expiry_enabled (w_store w)) w2 H1') as H2'.
  unfold with_expiry in H2'. cbn in H2'. rewrite Hx in *.
  replace (set_flags _ _ _ (set_flags _ _ _ s0)) with s0 in H2' by (by destruct s0). done.
Qed.
End Ridden.

Lemma with_expiry_off_ok s0 : flags_ok (with_expiry false s0).
Proof. done. Qed.

(** ** The replica's side *)
Lemma replicated_run_inv s0 spec args :
  handler_ok spec -> (cs_name spec = lit "RESTORE" -> clean_dump args) ->
  keeps (engine_inv s0)
    (protect_keys (keys_of spec args);; without_expiry (run spec args (keys_of spec args))).
Proof.
  intros Hok Hc w Hw. pose proof (protect_keeps gc_rider taken (keys_of spec args) s0 w Hw) as Hp.
  unfold bindM. destruct (protect_keys (keys_of spec args) w) as [[u|x] w1]; [|by eapply cinv2_l].
  refine (without_expiry_inv gc_rider taken _ (touched spec args) [] s0 _ w1 _).
  - intros w2 Hw2. refine (run_keeps gc_rider taken spec args _ w2 Hok (with_expiry_off_ok s0) _ Hc Hw2).
    intros _. apply engine_rewrites_keep.
  - unfold touched. destruct (is_write spec); [by apply cinv2_r | by eapply cinv2_l].
Qed.

Lemma apply_replicated_inv s0 command args :
  admissible (AStr command) args -> keeps (engine_inv s0) (apply_replicated command args).
Proof.
  intros Hadm w Hw. pose proof (command_spec_ok base ep0 J0 (AStr command) s0 w Hw) as Hs.
  unfold apply_replicated. unfold bindM at 1.
  destruct (command_spec (AStr command) w) as [[spec|x] w1]; [|by subst].
  destruct Hs as (-> & Hok & name & [= <-] & Hname). revert w Hw.
  refine (keeps_bind _ _ _ _ _); [unfold check_arity; case_match; [apply keeps_ret|apply keeps_raise]|intros _].
  intros w Hw. rewrite <- bind_assoc. apply keeps_after.
  - apply replicated_run_inv; [done| |done]. intros Hr. eapply Hadm; [done|congruence].
  - intros _. apply gc_env_keeps, gc_same_commit_unless_held.
Qed.

(** ** Loading *)

(** While loading no snapshot is being taken. *)
Definition loading_rider (n : Z) (o : option (option Done)) (e : E) : Prop := gc_rider n o e /\ o = None.

#[export] Instance loading_is_rider : Rider loading_rider.
Proof.
  split.
  - intros f k n o Hf e [Hg Ho]. split; [|done]. by apply (rider_expire (R := gc_rider) f k n o Hf).
  - intros d records n e [_ [=]].
  - intros n e [_ [=]].
Qed.

#[export] Instance loading_is_log_rider : LogRider (P := P) loading_rider.
Proof.
  split. intros args n o e [Hg Ho]. split; [|done].
  by apply (rider_propagate (P := P) (R := gc_rider) args n o).
Qed.

Abbreviation loading_inv := (CmdInv.cinv (P := P) loading_rider taken []).

Lemma loading_engine s0 w : loading_inv s0 w <-> engine_inv s0 w /\ st_job (w_store w) = None.
Proof.
  unfold EngineInv.engine_inv, CmdInv.cinv, Frames.rides, loading_rider, receiver.
  split; [intros (? & ? & Hj) | intros [[? ?] Hj]; rewrite Hj in *; done].
  split; [done|]. by destruct (st_job (w_store w)).
Qed.

Lemma loading_settled w k : rides loading_rider w -> settled k (w_store w).
Proof. intros [_ Hr]. unfold receiver in Hr. unfold settled. by destruct (st_job (w_store w)). Qed.

(** What the files may hold: records as snapshots write them, and writes. *)
Definition event_ok (ev : LoadEvent) : Prop :=
  match ev with
  | EvRecord r => payload_ok (sr_payload r)
  | EvCommand _ command args =>
      admissible (AStr command) args /\
      forall spec : CommandSpec P Done E, find_command (str_upper command) = Some spec -> is_write spec = true
  end.

Lemma load_record_keeps s0 r :
  flags_ok s0 -> payload_ok (sr_payload r) -> keeps (loading_inv s0) (load_record r).
Proof.
  intros Hf Hp w [(J & HG & Hw) Hr]. split; [|by apply (rides_load_record loading_rider)].
  pose proof (rides_load_record (epoch_is (st_epoch (w_store w))) r w eq_refl) as He.
  destruct (load_record_clean (J := J) s0 r w Hw Hf Hp (loading_settled w _ Hr)) as (w' & e & Hrun & Hw' & _).
  exists J. rewrite Hrun in *. split; [by rewrite He|done].
Qed.

(** A logged write keeps the invariant and every rider, while no snapshot is
    being taken. *)
Lemma apply_rides Rd G s0 command args place :
  Rider Rd -> LogRider (P := P) Rd -> (forall n o e, Rd n o e -> o = None) ->
  flags_ok s0 -> event_ok (EvCommand place command args) ->
  keeps (CmdInv.cinv (P := P) Rd G [] s0) (apply command args).
Proof.
  intros HR HL Hq Hf [Hadm Hwr] w Hw. unfold apply, command_spec. unfold bindM at 1.
  destruct (find_command (str_upper command)) as [spec|] eqn:Hfind; [|done]. simpl.
  assert (Hname : cs_name spec = str_upper command).
  { unfold find_command in Hfind. apply find_some in Hfind as [_ Hfind]. by apply bool_decide_eq_true in Hfind. }
  pose proof (find_command_ok _ _ Hfind) as Hok. pose proof (Hwr spec eq_refl) as Hw1.
  revert w Hw. apply keeps_bind; [unfold check_arity; case_match; [apply keeps_ret|apply keeps_raise]|intros _].
  intros w Hw. apply keeps_after; [|intros r; apply keeps_ret].
  refine (run_keeps Rd G spec args s0 w Hok Hf _ _ _);
    [congruence|intros Hr; eapply Hadm; [done|congruence]|].
  destruct Hw as [(J & HG & Hw) Hr]. split; [|done]. exists J. split; [done|]. apply inv_dirty; [done|].
  intros k _. unfold settled. specialize (Hq _ _ _ Hr). unfold receiver in Hq. by destruct (st_job (w_store w)).
Qed.

Lemma apply_keeps s0 command args place :
  flags_ok s0 -> event_ok (EvCommand place command args) -> keeps (loading_inv s0) (apply command args).
Proof. intros Hf Hev. eapply apply_rides; [apply _|apply _| |done..]. by intros n o e [_ ?]. Qed.

Lemma load_event_keeps s0 ev : flags_ok s0 -> event_ok ev -> keeps (loading_inv s0) (load_event ev).
Proof.
  intros Hf Hev. destruct ev as [r|place command args]; simpl.
  - by apply load_record_keeps.
  - apply keeps_catch; [by eapply apply_keeps|]. intros x. apply keeps_raise.
Qed.

(** What [load] reads satisfies that. *)
Definition files_ok (l : L) : Prop :=
  forall events last l', p_read_files l = (Ok (events, last), l') -> Forall event_ok events.

Lemma loading_env_keeps {A} (c : M exn E A) s0 : gc_same c -> keeps (loading_inv s0) (env_do c).
Proof.
  intros Hc. apply env_keeps. intros n o e [Hg Ho]. split; [|done]. by apply (gc_same_rider c base ep0 n o Hc).
Qed.

Lemma load_files_keeps s0 w :
  flags_ok s0 -> (forall l, en_persistence (w_env w) = Some l -> files_ok l) ->
  loading_inv s0 w -> loading_inv s0 (load_files w).2.
Proof.
  intros Hf Hfiles Hw. unfold load_files. unfold bindM at 1.
  pose proof (loading_env_keeps (on_persistence p_read_files) s0 (gc_same_persistence _) w Hw) as H1'.
  destruct (env_do (on_persistence p_read_files) w) as [[r|x] w1] eqn:Hrun; [|done].
  assert (Hev : Forall event_ok r.1).
  { unfold env_do, on_persistence in Hrun. destruct (en_persistence (w_env w)) as [l|] eqn:Hl; [|done].
    destruct (p_read_files l) as [r' l'] eqn:Hread. injection Hrun as -> _. destruct r as [events last].
    by eapply Hfiles. }
  revert w1 H1' Hrun. intros w1 H1' _. revert w1 H1'.
  change (keeps (loading_inv s0) (forM_list load_event r.1;; lift r.2;; env_do (on_persistence p_open_log))).
  apply keeps_bind; [apply keeps_forM; intros ev Hin; apply load_event_keeps; [done|]|intros _].
  - rewrite Forall_forall in Hev. by apply Hev.
  - apply keeps_bind; [by intros w'|intros _]. apply loading_env_keeps, gc_same_persistence.
Qed.

(** [s0] with eviction and expiry off ([b]) or on. *)
Definition with_loading (b : bool) (s0 : Store P Done) : Store P Done :=
  set_flags (negb b) (negb b) (expiry_deletes s0) s0.

Lemma set_loading_inv b s0 w : loading_inv s0 w -> loading_inv (with_loading b s0) (set_loading b w).2.
Proof.
  intros [(J & HG & Hw) [(Hn & Ho & He) Hr]]. unfold set_loading, bindM, env_do, modifyM, upd. cbn.
  split; [|by conj]. exists J. split; [done|]. unfold with_loading.
  replace (expiry_deletes s0) with (expiry_deletes (w_store w)) by (by destruct Hw as [_ (_ & _ & ? & _)]).
  refine (inv_flags J [] s0 (mkWorld (w_store w) (set_replaying b (w_env w)) (w_orc w)) _ _ _ _).
  by eapply inv_other.
Qed.

Lemma loading_off s0 :
  eviction_enabled s0 = true -> expiry_enabled s0 = true ->
  with_loading false (with_loading true s0) = s0.
Proof. unfold with_loading. destruct s0; simpl. by intros -> ->. Qed.

(** [open]: on every outcome, corruption included. *)
Lemma open_inv s0 w :
  eviction_enabled s0 = true -> expiry_enabled s0 = true ->
  (forall l, en_persistence (w_env w) = Some l -> files_ok l) ->
  st_job (w_store w) = None -> engine_inv s0 w -> engine_inv s0 (open w).2.
Proof.
  intros He Hx Hfiles Hj Hw. unfold open. unfold bindM at 1, get_env at 1, readM. cbv beta iota.
  destruct (negb _); [done|].
  assert (Hl : loading_inv s0 w) by (by apply loading_engine).
  pose proof (set_loading_inv true s0 w Hl) as H1'. unfold bindM at 1.
  set (w1 := (set_loading true w).2) in *.
  replace (set_loading true w) with (Ok tt : result exn unit, w1) by done. cbv iota beta.
  apply keeps_after.
  - unfold finallyM. pose proof (load_files_keeps (with_loading true s0) w1 ltac:(done) Hfiles H1') as H2'.
    destruct (load_files w1) as [r w2]. pose proof (set_loading_inv false _ w2 H2') as H3'.
    rewrite loading_off in H3' by done. unfold set_loading, bindM, env_do, modifyM, upd in *. cbn in *.
    by apply loading_engine in H3' as [? _].
  - intros _. apply keeps_bind; [apply keeps_cinv; [intros J; apply keeps_purge|intros ep; apply (rides_purge (epoch_is ep))|apply (rides_purge gc_rider)]|intros _].
    pose proof (evict_keeps gc_rider taken [] s0) as Hev. intros w2 Hw2.
    rewrite <- bind_assoc. apply keeps_after; [by apply Hev|]. intros _. apply gc_env_keeps, gc_same_commit.
Qed.

(** ** A full synchronization *)
Lemma load_records_keeps s0 records :
  flags_ok s0 -> Forall (fun r => payload_ok (sr_payload r)) records ->
  keeps (loading_inv s0) (forM_list load_record records).
Proof.
  intros Hf Hr. apply keeps_forM. intros r Hin. apply load_record_keeps; [done|].
  rewrite Forall_forall in Hr. by apply Hr.
Qed.

Lemma clear_loading s0 w :
  engine_inv s0 w -> match clear w with
                     | (Ok _, w') => loading_inv s0 w'
                     | (Raise _, w') => engine_inv s0 w'
                     end.
Proof.
  intros Hw. pose proof (keeps_cinv gc_rider taken [] s0 clear ltac:(intros; apply keeps_clear)
    ltac:(intros; apply rides_clear; apply _) ltac:(apply rides_clear; apply _) w Hw) as Hk.
  destruct Hw as [(J & HG & Hw) Hr]. destruct (clear_spec (J := J) [] s0 w Hw) as (r & w' & Hrun & Hj & _).
  rewrite Hrun in *. destruct r; [|done]. apply loading_engine. by split.
Qed.

Lemma load_snapshot_inv s0 records failure :
  Forall (fun r => payload_ok (sr_payload r)) records -> keeps (engine_inv s0) (load_snapshot records failure).
Proof.
  intros Hr w Hw. pose proof (clear_loading s0 w Hw) as Hc. unfold load_snapshot. unfold bindM at 1.
  destruct (clear w) as [[u|x] w1]; [|done]. apply keeps_after.
  - refine (proj1 (proj1 (loading_engine s0 _) _)). apply (without_expiry_inv loading_rider taken _ [] []); [|done].
    intros w2 Hw2. refine (keeps_bind _ _ _ _ _ w2 Hw2); [by apply load_records_keeps|].
    intros _. destruct failure; [apply keeps_raise|apply keeps_ret].
  - intros _. apply keeps_bind; [apply get_env_keeps|intros o].
    apply keeps_bind; [destruct o; [apply save_inv|apply keeps_ret]|intros _; apply keeps_ret].
Qed.

(** ** Closing *)
Lemma abandon_spec s0 w :
  engine_inv s0 w ->
  exists b w', abandon_snapshot w = (Ok b, w') /\ w_env w' = w_env w /\
    (b = false -> w' = w) /\ (b = true -> engine_inv s0 (env_do gc_release w').2).
Proof.
  intros [(J & HG & Hw) (Hn & Ho & He)]. pose proof (keeps_abandon (J := J) [] s0 w Hw) as H1'.
  unfold abandon_snapshot, bindM, gets, readM, id, upd, modifyM, receiver in *.
  destruct (st_job (w_store w)) as [job|] eqn:Hj; cbn in *; eexists _, _; (split; [reflexivity|]); conj; try done.
  intros _. split; [exists J; split; [done|by eapply inv_other]|]. split; [done|]. split; [done|]. cbn. lia.
Qed.

Lemma close_inv s0 : keeps (engine_inv s0) close.
Proof.
  intros w Hw. destruct (abandon_spec s0 w Hw) as (b & w1 & Hrun & Henv & Hf & Ht).
  assert (Hrest : forall has : bool, keeps (engine_inv s0)
    ((if has then env_do (on_persistence p_close) else ret tt);; env_do release_gc : SM unit)).
  { intros has. apply keeps_bind; [destruct has; [apply gc_env_keeps, gc_same_persistence|apply keeps_ret]|].
    intros _. apply release_keeps. }
  unfold close. unfold bindM at 1. rewrite Hrun. unfold bindM at 1, get_env at 1, readM. cbv beta iota.
  set (has := match en_persistence (w_env w1) with Some _ => true | None => false end). clearbody has.
  apply keeps_after; [|intros _; apply Hrest]. destruct b; [|by rewrite Hf].
  apply keeps_after; [by apply Ht|]. intros _.
  destruct has; [apply gc_env_keeps, gc_same_persistence|apply keeps_ret].
Qed.

(** ** Housekeeping *)
Lemma cron_inv s0 n : keeps (engine_inv s0) (cron n).
Proof.
  unfold cron. apply keeps_bind.
  { apply keeps_cinv; [intros J; apply keeps_expire_cycle|intros ep; apply (rides_expire_cycle (epoch_is ep))
                      |apply (rides_expire_cycle gc_rider)]. }
  intros k. apply keeps_bind; [|intros _].
  { case_match; [apply keeps_ret|apply gc_env_keeps, gc_same_commit_unless_held]. }
  apply keeps_bind; [apply get_env_keeps|intros o]. apply keeps_bind; [|intros _; apply keeps_ret].
  destruct o; [|apply keeps_ret]. apply keeps_bind; [apply gc_env_keeps, gc_same_persistence|intros _].
  apply keeps_bind; [apply release_keeps|intros _]. apply keeps_bind; [apply get_env_keeps|intros due].
  destruct due; [apply start_rewrite_inv|apply keeps_ret].
Qed.
End Life.
