(* ===== verification/EngineSpec.v ===== *)
(** * What the engine guarantees

    Requests as the servers make them, the states they reach, and the theorems
    about those states: consistency, snapshot isolation, locality of commands,
    limits, refusals, replay. *)

From Stdlib Require Import String.
From S2P Require Import Prelude PyStr PyFloat Errors Codec Oracles KeySet Containers ZSet Eviction Store.
From S2P Require Import Frames StoreInv StoreOps Snapshot Registry CmdKeys CmdServer CmdInv CmdHandlers.
From S2P Require Import Engine EngineInv EngineDepth EngineLife.
Local Close Scope string_scope.

(** ** Requests *)
Inductive Request :=
| QExecute (command : PyArg) (args : list PyArg)
| QReplicated (command : pystr) (args : list PyArg)
| QLoadSnapshot (records : list SnapshotRecord) (failure : option exn)
| QFlushAll
| QStartRewrite
| QSave
| QWaitRewrite
| QBeginSnapshot (id : nat)
| QStepSnapshot (extra : nat)
| QCron (sample_size : nat)
| QHoldCommit
| QReleaseCommit
| QClose.

(** What a caller must see to: no NaN score in a RESTORE or a record. *)
Definition request_ok (q : Request) : Prop :=
  match q with
  | QExecute command args => admissible command args
  | QReplicated command args => admissible (AStr command) args
  | QLoadSnapshot records _ => Forall (fun r => payload_ok (sr_payload r)) records
  | _ => True
  end.

Section Spec.
Context `{Sizing} {P : Type} `{PolicyLaws P} {L R : Type} `{Persistence L} `{ReplicationFeed R}.
Abbreviation E := (EngineEnv L R).
Abbreviation W := (World P Done E).
Abbreviation SM := (M exn W).
Implicit Types (w : W) (s : Store P Done).

Definition serve (q : Request) : SM unit :=
  match q with
  | QExecute command args => execute command args;; ret tt
  | QReplicated command args => apply_replicated command args
  | QLoadSnapshot records failure => load_snapshot records failure;; ret tt
  | QFlushAll => clear
  | QStartRewrite => start_rewrite
  | QSave => save
  | QWaitRewrite => wait_rewrite
  | QBeginSnapshot id => engine_begin_snapshot (OnSync id)
  | QStepSnapshot extra => step_snapshot extra;; ret tt
  | QCron n => cron n;; ret tt
  | QHoldCommit => env_do hold_commit
  | QReleaseCommit => env_do release_commit
  | QClose => close
  end.

(** The states requests lead to, whether they return or raise. *)
Inductive reachable (w0 : W) : W -> Prop :=
| reach_start : reachable w0 w0
| reach_step q w : reachable w0 w -> request_ok q -> reachable w0 (serve q w).2.

Lemma gc_same_release_commit : gc_same (release_commit (L := L) (R := R)).
Proof.
  unfold release_commit. apply gc_same_bind; [done|intros _]. apply gc_same_bind; [done|intros e].
  case_match; [apply gc_same_commit|done].
Qed.

Lemma serve_inv base ep0 J0 s0 q w :
  flags_ok s0 -> request_ok q -> engine_inv base ep0 J0 s0 w -> engine_inv base ep0 J0 s0 (serve q w).2.
Proof.
  intros Hf Hq. revert w. change (keeps (engine_inv base ep0 J0 s0) (serve q)).
  destruct q; simpl in *; try (apply keeps_bind; [|intros ?; apply keeps_ret]).
  - by apply execute_inv.
  - by apply apply_replicated_inv.
  - by apply load_snapshot_inv.
  - intros w Hw. pose proof (clear_loading base ep0 J0 s0 w Hw) as Hc.
    destruct (clear w) as [[u|x] w']; [|done]. by apply loading_engine in Hc as [? _].
  - apply start_rewrite_inv.
  - apply save_inv.
  - apply wait_rewrite_inv.
  - apply begin_keeps.
  - apply step_snapshot_inv.
  - apply cron_inv.
  - by apply gc_env_keeps.
  - apply gc_env_keeps, gc_same_release_commit.
  - apply close_inv.
Qed.

Lemma reachable_inv base ep0 J0 s0 w0 w :
  flags_ok s0 -> engine_inv base ep0 J0 s0 w0 -> reachable w0 w -> engine_inv base ep0 J0 s0 w.
Proof. intros Hf H0' Hr. induction Hr as [|q w Hr IH Hq]; [done|]. by apply serve_inv. Qed.

(** ** A new engine *)
Definition no_ghost : Ghost := mkGhost [] fzero.

Lemma new_inv p mk mm s (env : E) o :
  store_init p mk mm = Some s -> tracks p ∅ -> oracles_ok o -> en_gc_held env = false ->
  engine_inv (en_gc_holds env) 0 no_ghost s (mkWorld s env o).
Proof.
  unfold store_init. case_match; [done|]. intros [= <-] Hp Ho Hg. split.
  - exists no_ghost. split; [done|]. split; [split; [|done]|done]. split; simpl; try done.
    + constructor.
    + apply ks_empty_wf.
    + intros k. split; [set_solver|]. by intros (e & ? & _).
  - unfold Frames.rides, gc_rider. simpl. rewrite Hg. split; [done|]. split; [done|]. simpl. lia.
Qed.

(** ** Snapshot isolation *)

(** A snapshot that has begun anchors the invariant at the keyspace it copies. *)
Lemma begin_anchor base ep0 J0 s0 d w w1 :
  engine_inv base ep0 J0 s0 w -> engine_begin_snapshot d w = (Ok tt, w1) ->
  exists t, engine_inv base (st_epoch (w_store w1)) (mkGhost (st_data (w_store w)) t) s0 w1.
Proof.
  intros Hw Hrun. pose proof (begin_keeps base ep0 J0 d s0 w Hw) as Hk. rewrite Hrun in Hk.
  destruct Hk as [_ (_ & Ho & Hg)]. destruct Hw as [(J & _ & Hw) _]. revert Hrun.
  unfold engine_begin_snapshot, bindM, cleanup, catchM, env_do, gc_hold, modifyM. cbn [w_env w_store w_orc].
  set (w0 := mkWorld (w_store w) _ (w_orc w)).
  assert (Hw0 : StoreInv.inv (J := J) [] s0 w0) by (by eapply inv_other).
  destruct (st_job (w_store w0)) as [job|] eqn:Hj.
  - unfold begin_snapshot, bindM, gets, readM, id. rewrite Hj. done.
  - destruct (begin_spec (J := J) s0 (Some d) w0 Hw0 Hj) as (t & w2 & -> & Hw2 & _ & _).
    intros [= <-]. exists t. split; [|by conj]. eexists. split; [|exact Hw2]. done.
Qed.

(** C1. While a snapshot is being taken, whatever requests are served meanwhile
    (writes, expiry, eviction, FLUSHALL, replication, further snapshot slices),
    the records its receiver is finally given are exactly the live entries of
    the keyspace as it was when the snapshot began; and one step over the keys
    that remain is enough to finish it. *)
Theorem snapshot_isolation base ep0 J0 s0 d w w1 w2 job :
  flags_ok s0 -> engine_inv base ep0 J0 s0 w ->
  engine_begin_snapshot d w = (Ok tt, w1) -> reachable w1 w2 ->
  st_job (w_store w2) = Some job -> st_epoch (w_store w2) = st_epoch (w_store w1) ->
  exists t, forall n r w3, job_step n w2 = (r, w3) ->
    (job_remaining job <= n)%nat \/ r <> Ok false ->
    st_job (w_store w3) = None /\
    exists records, records ≡ₚ snapshot_at t (st_data (w_store w)) /\
      match j_on_done job with Some d => hook_done d records (w_env w2) | None => (Ok tt, w_env w2) end =
        (match r with Ok _ => Ok tt | Raise x => Raise x end, w_env w3).
Proof.
  intros Hf Hw Hrun Hr Hjob Hep. destruct (begin_anchor base ep0 J0 s0 d w w1 Hw Hrun) as [t Ht].
  exists t. intros n r w3 Hstep Hfin.
  pose proof (reachable_inv _ _ _ s0 w1 w2 Hf Ht Hr) as [(J & HG & Hw2) _]. rewrite (HG Hep) in Hw2.
  destruct (job_step_spec [] s0 n w2 job Hw2 Hjob) as (r' & w3' & Hrun' & Hw3 & Hm).
  rewrite Hstep in Hrun'. injection Hrun' as <- <-.
  destruct r as [[|]|x]; [destruct Hm as [? [records [? ?]]]; eauto| |destruct Hm as [? [records [? ?]]]; eauto].
  destruct Hfin as [Hn|?]; [|done]. destruct Hm as (_ & job' & _ & _ & _ & Hpos & Hlt).
  exfalso. unfold job_remaining in Hn. lia.
Qed.


(** ** Limits *)
Lemma env_do_store {A} (c : M exn E A) w : w_store (env_do c w).2 = w_store w.
Proof. unfold env_do. by destruct (c (w_env w)). Qed.

Lemma propagate_dels_store l w : w_store (propagate_dels l w).2 = w_store w.
Proof.
  revert w. induction l as [|v l IH]; intros w; [done|]. unfold propagate_dels in *. simpl. unfold bindM.
  pose proof (env_do_store (en_propagate [AStr (lit "DEL"); AStr v]) w) as Hs. unfold engine_propagate.
  destruct (env_do _ w) as [[u|x] w1]; [|done]. rewrite IH. done.
Qed.

(** The tail of a command that returned. *)
Lemma execute_returned command args w reply w' :
  execute command args w = (Ok reply, w') ->
  exists spec w1 w2, command_spec command w = (Ok spec, w) /\
    arity_ok spec args = true /\ (check_log spec w).1 = Ok tt /\ w1 = (check_log spec w).2 /\
    guarded_run spec args (keys_of spec args) w1 = (Ok reply, w2) /\
    (make_room spec (keys_of spec args) w2).1 = Ok tt /\
    w_store w' = w_store (make_room spec (keys_of spec args) w2).2.
Proof.
  unfold execute. unfold bindM at 1. destruct (command_spec command w) as [[spec|x] w0] eqn:Hs; [|done].
  assert (w0 = w) as ->.
  { unfold command_spec, ret, raise in Hs. destruct command; try done. destruct (find_command _); by simplify_eq. }
  unfold bindM at 1, check_arity. destruct (arity_ok spec args) eqn:Ha; [|done]. simpl.
  unfold bindM at 1. destruct (check_log spec w) as [[u|x] w1] eqn:Hl; [|done].
  unfold bindM at 1. destruct (guarded_run spec args (keys_of spec args) w1) as [[r|x] w2] eqn:Hg; [|done].
  unfold bindM at 1. destruct (make_room spec (keys_of spec args) w2) as [[u'|x] w3] eqn:Hm; [|done].
  pose proof (env_do_store count_command w3) as Hc. unfold bindM at 1.
  destruct (env_do count_command w3) as [[u''|x] w4]; [|done]. unfold bindM.
  pose proof (env_do_store commit_unless_held w4) as Hc'.
  destruct (env_do commit_unless_held w4) as [[u3|x] w5]; [|done]. intros [= -> <-].
  exists spec, w1, w2. destruct u, u'. rewrite Hm, Hl. simpl in *. conj; try done. congruence.
Qed.

(** The state after the checks that precede the handler. *)
Lemma check_log_inv base ep0 J0 s0 spec w :
  engine_inv base ep0 J0 s0 w -> engine_inv base ep0 J0 s0 (check_log spec w).2.
Proof. apply check_log_keeps. Qed.

(** C10. When a write has returned under a policy that evicts, the keyspace is
    within its limits of keys and memory, or every key that is left is one the
    command itself names. *)
Theorem limits_after_write base ep0 J0 s0 command args w reply w' spec :
  flags_ok s0 -> admissible command args -> engine_inv base ep0 J0 s0 w ->
  eviction_enabled s0 = true -> evicts (st_eviction s0) = true ->
  execute command args w = (Ok reply, w') ->
  command_spec command w = (Ok spec, w) -> is_write spec = true ->
  over_limit 0 (w_store w') = false \/
  forall k, is_Some (entry_at k w') -> k ∈ keys_of spec args.
Proof.
  intros Hf Ha Hw He Hev Hrun Hs Hwr.
  destruct (execute_returned command args w reply w' Hrun) as (spec' & w1 & w2 & Hs' & _ & _ & -> & Hg & _ & Hst).
  rewrite Hs in Hs'. injection Hs' as <-.
  pose proof (command_spec_ok base ep0 J0 command s0 w Hw) as Hok. rewrite Hs in Hok.
  destruct Hok as (_ & Hok & name & -> & Hname).
  assert (Hw2 : engine_inv base ep0 J0 s0 w2).
  { replace w2 with (guarded_run spec args (keys_of spec args) (check_log spec w).2).2 by (by rewrite Hg).
    apply guarded_run_keeps; [done|done| |by apply check_log_inv]. intros Hr. eapply Ha; [done|congruence]. }
  destruct Hw2 as [(J & _ & Hw2) _]. unfold make_room in Hst. rewrite Hwr in Hst. unfold bindM in Hst.
  destruct (evict_if_needed_spec (J := J) [] s0 (keys_of spec args) w2 Hw2) as (l & w3 & Hrun3 & _ & _ & _ & _ & Hlim).
  rewrite Hrun3, propagate_dels_store in Hst. unfold entry_at. rewrite Hst. by apply Hlim.
Qed.

(** C20. A request that names no command of the table, or that has the wrong
    number of arguments, or a write while the log is not open, is refused with
    its own error and changes nothing at all. *)
Theorem refused_unchanged command args w :
  (match command with AStr name => find_command (P := P) (D := Done) (E := E) (str_upper name) | _ => None end = None ->
   execute command args w = (Raise (unknown_command command), w)) /\
  (forall spec, command_spec command w = (Ok spec, w) -> arity_ok spec args = false ->
   execute command args w = (Raise (wrong_arity (cs_name spec)), w)) /\
  (forall spec l, command_spec command w = (Ok spec, w) -> arity_ok spec args = true -> is_write spec = true ->
   en_persistence (w_env w) = Some l -> p_is_open l = false ->
   execute command args w = (Raise (err PersistenceError "engine is not open; call open() before writing"), w)).
Proof.
  conj.
  - intros Hn. unfold execute, bindM, command_spec. by rewrite Hn.
  - intros spec Hs Ha. unfold execute, bindM at 1. rewrite Hs. unfold bindM at 1, check_arity. by rewrite Ha.
  - intros spec l Hs Ha Hwr Hl Ho. unfold execute, bindM at 1. rewrite Hs. unfold bindM at 1, check_arity. rewrite Ha.
    unfold bindM at 1, check_log, get_env, readM, bindM. simpl. by rewrite Hl, Hwr, Ho.
Qed.

(** ** Waiting for a snapshot *)
Lemma step_snapshot_progress base ep0 J0 s0 w job :
  engine_inv base ep0 J0 s0 w -> st_job (w_store w) = Some job -> (1 <= en_slice_keys (w_env w))%nat ->
  exists r w', step_snapshot 0 w = (r, w') /\
    match r with
    | Ok true => en_slice_keys (w_env w') = en_slice_keys (w_env w) /\ exists job', st_job (w_store w') = Some job' /\
        (job_remaining job' < job_remaining job)%nat
    | _ => st_job (w_store w') = None
    end.
Proof.
  intros [(J & _ & Hw) _] Hj Hn. unfold step_snapshot, bindM, get_env, gets, readM, id. rewrite Hj.
  cbn [step_slices]. unfold bindM.
  cbv beta iota.
  destruct (job_step_spec (J := J) [] s0 (en_slice_keys (w_env w)) w job Hw Hj) as (r & w' & -> & _ & Hm).
  destruct r as [[|]|x].
  - eexists _, _. split; [reflexivity|]. simpl. by destruct Hm.
  - eexists _, _. split; [reflexivity|]. simpl. destruct Hm as (-> & job' & Hj' & _ & Hk & Hp & Hlt).
    split; [done|]. exists job'. split; [done|]. unfold job_remaining. rewrite Hk. lia.
  - eexists _, _. split; [reflexivity|]. simpl. by destruct Hm.
Qed.

Lemma drive_snapshot_done base ep0 J0 s0 fuel w :
  engine_inv base ep0 J0 s0 w -> (1 <= en_slice_keys (w_env w))%nat ->
  (match st_job (w_store w) with Some job => job_remaining job | None => 0 end <= fuel)%nat ->
  st_job (w_store (drive_snapshot fuel w).2) = None.
Proof.
  revert w. induction fuel as [|fuel IH]; intros w Hw Hn Hrem;
    (destruct (st_job (w_store w)) as [job|] eqn:Hj;
     [|simpl; unfold bindM, step_snapshot, gets, readM, bindM; cbn [id]; rewrite Hj; done]);
    destruct (step_snapshot_progress base ep0 J0 s0 w job Hw Hj Hn) as (r & w1 & Hs & Hm);
    cbn [drive_snapshot]; unfold bindM; rewrite Hs;
    pose proof (step_snapshot_inv base ep0 J0 s0 0 w Hw) as Hw1; rewrite Hs in Hw1;
    destruct r as [[|]|x]; try done; destruct Hm as (Hsl & job' & Hj' & Hlt).
  - lia.
  - apply IH; [done|by rewrite Hsl|]. rewrite Hj'. lia.
Qed.

(** C19. Waiting for a rewrite terminates: with slices of at least one key, the
    loop of [wait_rewrite] ends, within as many rounds as the snapshot has
    keys, with no snapshot left to take. *)
Theorem wait_rewrite_finishes base ep0 J0 s0 w :
  engine_inv base ep0 J0 s0 w -> (1 <= en_slice_keys (w_env w))%nat ->
  st_job (w_store (drive_snapshot (job_keys (w_store w)) w).2) = None /\
  st_job (w_store (wait_rewrite w).2) = None.
Proof.
  intros Hw Hn.
  assert (Hd : st_job (w_store (drive_snapshot (job_keys (w_store w)) w).2) = None).
  { eapply drive_snapshot_done; [done..|]. unfold job_keys, job_remaining. case_match; lia. }
  split; [done|]. unfold wait_rewrite. unfold bindM at 1, gets, readM. cbn [id].
  unfold bindM at 1. destruct (drive_snapshot (job_keys (w_store w)) w) as [[u|x] w1]; [|done].
  unfold bindM at 1, get_env, readM. unfold bindM at 1.
  set (c := if match en_persistence (w_env w1) with Some _ => true | None => false end
            then env_do (on_persistence p_wait_rewrite) else ret tt).
  assert (Hc : w_store (c w1).2 = w_store w1) by (subst c; case_match; [apply env_do_store|done]).
  destruct (c w1) as [[u'|x] w2]; simpl in *; [rewrite env_do_store|]; by rewrite Hc.
Qed.

(** ** Closing *)
Lemma if_env_store {A} (b : bool) (c : M exn E A) a w : w_store ((if b then env_do c else ret a) w).2 = w_store w.
Proof. destruct b; [apply env_do_store|done]. Qed.

Lemma close_ends w w' :
  close w = (Ok tt, w') ->
  st_job (w_store w') = None /\ (rewriting (w_env w') = false -> en_gc_held (w_env w') = false).
Proof.
  intros (b & w1 & Ha & H1')%bind_Ok. apply bind_Ok in H1' as (has & w2 & Hget & H2').
  injection Hget as _ <-.
  apply bind_Ok in H2' as (u & w3 & H3' & H4'). apply bind_Ok in H4' as (u' & w4 & H5' & H6').
  assert (Hj1 : st_job (w_store w1) = None).
  { unfold abandon_snapshot, bindM, gets, readM, id, upd, modifyM, ret in Ha.
    destruct (st_job (w_store w)) eqn:Hj; by simplify_eq. }
  assert (Hs3 : w_store w3 = w_store w1).
  { destruct b; [|by injection H3' as _ <-]. apply bind_Ok in H3' as (u2 & w5 & H7' & H8').
    pose proof (env_do_store gc_release w1) as Hs. rewrite H7' in Hs. simpl in Hs. rewrite <- Hs.
    pose proof (if_env_store has (on_persistence p_abandon_copy) tt w5) as Hs'. by rewrite H8' in Hs'. }
  assert (Hs4 : w_store w4 = w_store w3).
  { pose proof (if_env_store has (on_persistence p_close) tt w3) as Hs. by rewrite H5' in Hs. }
  destruct (release_gc_spec (w_env w4)) as (e' & Hrel & Hrw & Hheld). unfold env_do in H6'. rewrite Hrel in H6'.
  injection H6' as <-. simpl. split; [congruence|]. intros Hr. apply Hheld. congruence.
Qed.

(** The garbage collector is held once for a rewrite in progress and once for
    a snapshot being taken, and a close that returns gives back every hold the
    engine had: with no rewrite still running, only the holds of others remain. *)
Lemma close_releases_collector base ep0 J0 s0 w w' :
  engine_inv base ep0 J0 s0 w -> close w = (Ok tt, w') ->
  en_gc_holds (w_env w) = (base + count_of (en_gc_held (w_env w)) + count_of (found (st_job (w_store w))))%nat /\
  st_job (w_store w') = None /\
  (rewriting (w_env w') = false -> en_gc_holds (w_env w') = base).
Proof.
  intros Hw Hrun. pose proof (close_inv base ep0 J0 s0 w Hw) as Hw'. rewrite Hrun in Hw'.
  destruct (close_ends w w' Hrun) as [Hj Hheld]. destruct Hw as [_ (_ & _ & Hg)]. destruct Hw' as [_ (_ & _ & Hg')].
  unfold receiver in *. cbn [snd] in Hg'. rewrite Hj in Hg'. simpl in *. conj; [|done|].
  - rewrite Hg. by destruct (st_job (w_store w)).
  - intros Hr. rewrite Hg', (Hheld Hr). simpl. lia.
Qed.

(** ** Replay *)

(** Nothing is logged or sent to replicas while replaying. *)
Definition replay_rider (p0 : option L) (r0 : option R) (n : Z) (o : option (option Done)) (e : E) : Prop :=
  o = None /\ en_replaying e = true /\ en_persistence e = p0 /\ en_replication e = r0.

Lemma replay_propagate p0 r0 n o args : keeps (replay_rider p0 r0 n o) (en_propagate args).
Proof. intros e (Ho & Hr & Hp & He). unfold en_propagate, bindM, getM. rewrite Hr. by conj. Qed.

#[export] Instance replay_is_rider p0 r0 : Rider (replay_rider p0 r0).
Proof.
  split; [|by intros ? ? ? ? [[=] _]|by intros ? ? [[=] _]].
  intros f k n o [= <-]. apply replay_propagate.
Qed.
#[export] Instance replay_is_log_rider p0 r0 : LogRider (P := P) (replay_rider p0 r0).
Proof. split. intros args n o. apply replay_propagate. Qed.

(** C18. Replaying a logged write keeps the keyspace consistent and neither logs
    anything again nor sends anything to replicas, even if it fails. *)
Theorem replay_writes_nothing J s0 command args place w :
  flags_ok s0 -> event_ok (P := P) (L := L) (R := R) (EvCommand place command args) ->
  StoreInv.inv (J := J) [] s0 w -> st_job (w_store w) = None -> en_replaying (w_env w) = true ->
  let w' := (apply command args w).2 in
  en_persistence (w_env w') = en_persistence (w_env w) /\
  en_replication (w_env w') = en_replication (w_env w) /\
  exists J', StoreInv.inv (J := J') [] s0 w'.
Proof.
  intros Hf Hev Hw Hj Hr w'.
  assert (Hc : cinv (replay_rider (en_persistence (w_env w)) (en_replication (w_env w))) (fun _ _ => True) [] s0 w).
  { split; [by exists J|]. unfold Frames.rides, receiver. rewrite Hj. by conj. }
  eapply apply_rides in Hc as [(J' & _ & Hw') (_ & _ & Hp & He)]; [|apply _..| |done|done].
  - conj; [done|done|by exists J'].
  - by intros n o e [? _].
Qed.

(** ** The limit on the number of keys without eviction *)
Lemma check_log_store spec w : w_store (check_log spec w).2 = w_store w.
Proof.
  unfold check_log, bindM, get_env, readM, id. destruct (en_persistence (w_env w)) as [l|]; [|done].
  destruct (is_write spec); [|done]. destruct (negb (p_is_open l)); [done|]. apply env_do_store.
Qed.

(** [make_room] does nothing to the keyspace under a policy that does not evict. *)
Lemma no_room_made J s0 spec keys w :
  StoreInv.inv (J := J) [] s0 w -> evicts (st_eviction s0) = false ->
  w_store (make_room spec keys w).2 = w_store w.
Proof.
  intros Hw Hev. unfold make_room. destruct (is_write spec); [|done].
  assert (He : evicts (st_eviction (w_store w)) = false) by (destruct Hw as [_ (_ & _ & _ & _ & _ & ->)]; done).
  unfold bindM, evict_if_needed, gets, readM, bindM, id. rewrite He, orb_true_r. done.
Qed.

(** Under [noeviction] a command that may add data never takes the keyspace
    past [max_keys], whatever it does and however it ends. *)
Lemma noeviction_key_bound base ep0 J0 s0 command args w spec :
  flags_ok s0 -> admissible command args -> engine_inv base ep0 J0 s0 w ->
  command_spec command w = (Ok spec, w) -> is_write spec = true -> DENYOOM ∈ cs_flags spec ->
  evicts (st_eviction s0) = false -> max_keys s0 <> 0 -> store_len (w_store w) <= max_keys s0 ->
  store_len (w_store (execute command args w).2) <= max_keys s0.
Proof.
  intros Hf Ha Hw Hs Hwr Hd Hev Hmax Hlen.
  pose proof (command_spec_ok base ep0 J0 command s0 w Hw) as Hok. rewrite Hs in Hok.
  destruct Hok as (_ & Hok & name & -> & Hname).
  assert (Hc : cs_name spec = lit "RESTORE" -> clean_dump args) by (intros Hr; eapply Ha; [done|congruence]).
  unfold execute. unfold bindM at 1. rewrite Hs. unfold bindM at 1, check_arity.
  destruct (arity_ok spec args); [|done]. unfold ret at 1. unfold bindM at 1.
  pose proof (check_log_store spec w) as Hls. pose proof (check_log_keeps base ep0 J0 s0 spec w Hw) as Hw1.
  destruct (check_log spec w) as [[u|x] w1]; simpl in Hls; [|simpl; by rewrite Hls]. unfold bindM at 1.
  assert (Hlen1 : store_len (w_store w1) <= max_keys s0) by (by rewrite Hls).
  pose proof (guarded_run_room base ep0 J0 s0 spec args w1 Hok Hf Hc Hw1 Hwr Hd Hev Hmax Hlen1) as Hlen2.
  pose proof (guarded_run_keeps base ep0 J0 s0 spec args Hf Hok Hc w1 Hw1) as Hw2.
  destruct (guarded_run spec args (keys_of spec args) w1) as [[r|x] w2]; [|done].
  destruct Hw2 as [(J & _ & Hw2) _]. pose proof (no_room_made J s0 spec (keys_of spec args) w2 Hw2 Hev) as Hst.
  assert (Hk : forall w', w_store w' = w_store w2 -> store_len (w_store w') <= max_keys s0) by (by intros w' ->).
  unfold bindM at 1. destruct (make_room spec (keys_of spec args) w2) as [[u'|x] w3]; [|by apply Hk].
  unfold bindM at 1. pose proof (env_do_store count_command w3) as Hc3.
  destruct (env_do count_command w3) as [[u3|x] w4]; [|apply Hk; simpl in *; congruence].
  unfold bindM. pose proof (env_do_store commit_unless_held w4) as Hc4.
  destruct (env_do commit_unless_held w4) as [[u4|x] w5]; apply Hk; simpl in *; congruence.
Qed.
End Spec.

