(* ===== verification/CommitSpec.v ===== *)
(** * Replies wait for the commit

    A shard's server and its engine together: [GroupCommit] around
    [Engine.execute], [hold_commit] and [release_commit]. *)

From Stdlib Require Import String.
From S2P Require Import Prelude PyStr PyFloat Errors Codec Oracles KeySet Containers ZSet Eviction Store.
From S2P Require Import Frames StoreInv StoreOps Snapshot Registry CmdKeys CmdServer CmdInv CmdHandlers.
From S2P Require Import Resp RespProofs TcpServer Engine EngineInv EngineDepth EngineLife EngineSpec.
Local Close Scope string_scope.

Section Commit.
Context `{Sizing} {P : Type} `{PolicyLaws P} {L R : Type} `{Persistence L} `{ReplicationFeed R}.
Abbreviation E := (EngineEnv L R).
Abbreviation W := (World P Done E).
Implicit Types (w : W) (g : Group W).

Definition engine_handler (command : list pystr) : M exn W HandlerResult :=
  match command with
  | [] => ret (HReply RNone)
  | name :: args => let! r := execute (AStr name) (AStr <$> args) in ret (HReply r)
  end.

Definition servable (command : list pystr) : Prop :=
  match command with [] => False | name :: args => admissible (AStr name) (AStr <$> args) end.

(** Between batches: housekeeping and snapshot slices. *)
Definition housekeeping (w w' : W) : Prop :=
  exists n, w' = (cron n w).2 \/ w' = (step_snapshot n w).2.

Abbreviation batch := (join_batch engine_handler (env_do hold_commit)).
Abbreviation flush := (flush_group (env_do (P := P) release_commit)).
Abbreviation step := (loop_step engine_handler (env_do hold_commit) (env_do release_commit) servable housekeeping).

Definition group_inv base ep0 J0 s0 (g : Group W) : Prop :=
  engine_inv base ep0 J0 s0 (g_state g) /\ held (if g_open g then 1 else 0) (g_state g) /\
  (g_open g = false -> g_waiting g = []).

Lemma respond_keeps (I : W -> Prop) command :
  keeps I (engine_handler command) -> keeps I (respond engine_handler command).
Proof.
  intros Hk. apply keeps_catch; [|intros x; apply keeps_bind; [by intros w Hw|intros; apply keeps_ret]].
  apply keeps_bind; [done|]. intros [v|]; [|apply keeps_ret]. apply keeps_bind; [by intros w Hw|intros; apply keeps_ret].
Qed.

Lemma batch_keeps base ep0 J0 s0 d commands :
  flags_ok s0 -> Forall servable commands ->
  keeps (fun w => engine_inv base ep0 J0 s0 w /\ held d w) (mapM_list (respond engine_handler) commands).
Proof.
  intros Hf Hall. induction Hall as [|c commands Hc Hall IH]; simpl; [apply keeps_ret|].
  apply keeps_bind; [|intros b; apply keeps_bind; [done|intros; apply keeps_ret]].
  apply respond_keeps. destruct c as [|name args]; [done|]. simpl in *.
  apply keeps_bind; [|intros; apply keeps_ret]. intros w [Hw Hd]. split; [by apply execute_inv|].
  by eapply execute_held.
Qed.

Lemma hold_step base ep0 J0 s0 w :
  engine_inv base ep0 J0 s0 w -> held 0 w ->
  exists w', env_do hold_commit w = (Ok tt, w') /\ engine_inv base ep0 J0 s0 w' /\ held 1 w'.
Proof.
  intros Hw Hd. eexists. split; [done|]. split; [|unfold held in *; simpl; lia].
  exact (gc_env_keeps base ep0 J0 hold_commit s0 (fun e => conj eq_refl eq_refl) w Hw).
Qed.

(** The log's own commit has returned, and the log is as it left it. *)
Definition log_committed (w w' : W) : Prop :=
  forall l', en_persistence (w_env w') = Some l' ->
  exists l, en_persistence (w_env w) = Some l /\ p_commit l = (Ok tt, l').

Lemma release_step base ep0 J0 s0 w :
  engine_inv base ep0 J0 s0 w -> held 1 w ->
  engine_inv base ep0 J0 s0 (env_do release_commit w).2 /\ held 0 (env_do release_commit w).2 /\
  ((env_do release_commit w).1 = Ok tt -> log_committed w (env_do (P := P) release_commit w).2).
Proof.
  intros Hw Hd. split; [exact (gc_env_keeps base ep0 J0 _ s0 gc_same_release_commit w Hw)|].
  unfold held, env_do in *. unfold release_commit, bindM, modifyM, getM.
  set (e1 := set_commit _ _ _). assert (Hz : en_commit_depth e1 = 0) by (simpl; lia). rewrite Hz. simpl.
  assert (Hk : en_commit_depth (commit e1).2 = 0) by (by rewrite depth_same_commit).
  split; [by destruct (commit e1)|]. intros Hok l Hl. change (en_persistence (w_env w)) with (en_persistence e1).
  revert Hok Hl. unfold commit, finallyM, bindM, getM. generalize e1. clear. intros e1.
  destruct (en_persistence e1) as [l0|] eqn:Hp.
  - unfold on_persistence at 1 2. rewrite Hp. destruct (p_commit l0) as [[u|x] l1] eqn:Hc; simpl.
    + destruct (en_replication e1) as [r0|]; simpl; [|destruct u; intros _ [= <-]; by exists l0].
      unfold on_replication. simpl. destruct (en_replication e1) as [r1|]; simpl; [|done].
      destruct (r_flush r1) as [[v|y] r2]; simpl; [|done]. destruct u. intros _ [= <-]. by exists l0.
    + destruct (en_replication e1) as [r0|]; simpl; [|done]. unfold on_replication. simpl.
      destruct (en_replication e1) as [r1|]; simpl; [|done]. by destruct (r_flush r1) as [[v|y] r2].
  - simpl. destruct (en_replication e1) as [r0|]; simpl; [|congruence]. unfold on_replication.
    destruct (en_replication e1) as [r1|]; simpl; [|done].
    destruct (r_flush r1) as [[v|y] r2]; simpl; [congruence|done].
Qed.

Lemma step_inv base ep0 J0 s0 g g' :
  flags_ok s0 -> step g g' -> group_inv base ep0 J0 s0 g -> group_inv base ep0 J0 s0 g'.
Proof.
  intros Hf Hs (Hw & Hd & Hq). destruct Hs as [conn commands g Hall|g Ho|g s [n Hn]].
  - unfold join_batch.
    assert (Hbegin : exists w1, (if g_open g then ret tt else env_do hold_commit) (g_state g) = (Ok tt, w1) /\
      engine_inv base ep0 J0 s0 w1 /\ held 1 w1).
    { destruct (g_open g); [by eexists|by apply hold_step]. }
    destruct Hbegin as (w1 & -> & Hw1 & Hd1).
    pose proof (batch_keeps base ep0 J0 s0 1 commands Hf Hall w1 (conj Hw1 Hd1)) as [Hw2 Hd2].
    destruct (mapM_list (respond engine_handler) commands w1) as [[replies|x] w2]; by split.
  - rewrite Ho in Hd. destruct (release_step base ep0 J0 s0 (g_state g) Hw Hd) as (Hw' & Hd' & _).
    unfold flush_group. destruct (env_do release_commit (g_state g)) as [[u|x] w']; by split.
  - split; [|split]; cbn [g_state g_open g_waiting]; [| |done].
    + destruct Hn as [->| ->]; [by apply cron_inv|by apply step_snapshot_inv].
    + destruct Hn as [->| ->]; [by apply held_cron|by apply held_step_snapshot].
Qed.

(** C7. Whatever batches of whatever connections, housekeeping ticks and
    snapshot slices the event loop interleaves, replies are sent by the shared
    commit only: while any wait, individual commands do not commit; when
    the log's commit has returned exactly the waiting replies are sent, in order;
    when it fails, not one of them is. *)
Theorem replies_wait_for_commit base ep0 J0 s0 g0 g
    (Hf : flags_ok s0) (Hw : engine_inv base ep0 J0 s0 (g_state g0)) (Hd : en_commit_depth (w_env (g_state g0)) = 0)
    (Hfresh : g_open g0 = false /\ g_waiting g0 = []) (Hreach : rtc step g0 g) :
  (g_waiting g <> [] -> en_commit_depth (w_env (g_state g)) = 1) /\
  (forall conn commands, g_sent (batch conn commands g) = g_sent g) /\
  (g_open g = true ->
   ((env_do release_commit (g_state g)).1 = Ok tt /\ g_sent (flush g) = g_sent g ++ g_waiting g /\
    log_committed (g_state g) (g_state (flush g))) \/
   ((env_do release_commit (g_state g)).1 <> Ok tt /\ g_sent (flush g) = g_sent g /\
    g_dropped (flush g) = g_dropped g ++ (g_waiting g).*1)).
Proof.
  assert (Hi : group_inv base ep0 J0 s0 g).
  { assert (H0' : group_inv base ep0 J0 s0 g0) by (destruct Hfresh as [Ho Hq]; split; [done|]; by rewrite Ho).
    clear Hw Hd Hfresh. induction Hreach as [|x y z Hxy Hyz IH]; [done|]. apply IH. by eapply step_inv. }
  destruct Hi as (Hw' & Hd' & Hq'). split; [|split].
  - intros Hn. destruct (g_open g); [done|]. by rewrite Hq' in Hn.
  - intros conn commands. unfold join_batch. destruct (_ (g_state g)) as [[u|x] w1]; [|done].
    by destruct (mapM_list _ commands w1) as [[]].
  - intros Ho. rewrite Ho in Hd'. destruct (release_step base ep0 J0 s0 _ Hw' Hd') as (_ & _ & Hc).
    unfold flush_group. destruct (env_do release_commit (g_state g)) as [[[]|x] w1]; [left|right]; simpl in *; auto.
Qed.
End Commit.
