(* ===== verification/EngineRuns.v ===== *)
(** * Concrete runs of the engine

    A node with a log in memory: the hypotheses of the engine's theorems hold
    of it, and the theorems are applied to what it does. *)

From Stdlib Require Import String.
From S2P Require Import Prelude PyStr PyFloat Codec Errors Oracles KeySet Containers ZSet Eviction Store Frames.
From S2P Require Import StoreInv StoreOps Snapshot Registry CmdKeys CmdServer CmdInv CmdHandlers Resp RespProofs.
From S2P Require Import TcpServer Json Engine Aof AofProofs Disk Manifest AofWriter Manager Recovery EngineInv.
From S2P Require Import EngineDepth EngineLife EngineSpec CommitSpec.
Local Close Scope string_scope.

Abbreviation World' := (World Policy Done (EngineEnv MemLog (list bytes))).

(** [KEY VALUE ...] as a client sends it. *)
Definition texts_of (l : list String.string) : list PyArg := (fun s => AStr (lit s)) <$> l.
Definition do (command : String.string) (args : list String.string) (w : World') : World' :=
  (execute (AStr (lit command)) (texts_of args) w).2.

Definition lru_node : World' := memory_world (PLru (mkLRU [])) 3 0 (Some (mkMemLog [] [])) None 1000.
Definition full_node : World' := memory_world (PNoEviction (mkNoEviction 0)) 2 0 None (Some []) 1000.

Lemma ran {X S A} (c : M X S A) s a : (c s).1 = Ok a -> c s = (Ok a, (c s).2).
Proof. intros <-. apply surjective_pairing. Qed.

Lemma not_restore command args : str_upper (lit command) <> lit "RESTORE" -> admissible (AStr (lit command)) args.
Proof. by intros Hn name [= <-] Hr. Qed.

Lemma served command args : str_upper (lit command) <> lit "RESTORE" -> request_ok (QExecute (AStr (lit command)) args).
Proof. apply not_restore. Qed.

Lemma memory_inv p mk mm log feed t :
  0 <= mk -> 0 <= mm -> tracks p ∅ -> let w := memory_world p mk mm log feed t in
  engine_inv 0 0 no_ghost (w_store w) w.
Proof.
  intros Hk Hm Hp w. apply (new_inv p mk mm); [|done|apply still_ok|done].
  unfold store_init. by rewrite !(proj2 (Z.ltb_ge _ 0)) by done.
Qed.

Lemma lru_inv : engine_inv 0 0 no_ghost (w_store lru_node) lru_node.
Proof. apply memory_inv; [done|done|]. exact (create_tracks (lit "lru") _ eq_refl). Qed.
Lemma full_inv : engine_inv 0 0 no_ghost (w_store full_node) full_node.
Proof. apply memory_inv; [done|done|]. exact (create_tracks (lit "noeviction") _ eq_refl). Qed.

Lemma lru_flags : flags_ok (w_store lru_node).
Proof. intros H. exact H. Qed.
Lemma full_flags : flags_ok (w_store full_node).
Proof. intros H. exact H. Qed.

(** Computes what remains: a boolean decision or an equation. *)
Ltac run := first [vm_compute; reflexivity | vm_compute; discriminate
                  | apply (bool_decide_unpack _); vm_compute; exact I].

Lemma do_inv s0 w command args :
  flags_ok s0 -> str_upper (lit command) <> lit "RESTORE" ->
  engine_inv 0 0 no_ghost s0 w -> engine_inv 0 0 no_ghost s0 (do command args w).
Proof. intros Hf Hn Hw. apply execute_inv; [done|by apply not_restore|done]. Qed.

Ltac flags := first [apply lru_flags | apply full_flags].
(** The node's invariant after the commands it has run. *)
Ltac node_inv := repeat (apply do_inv; [flags|run|]); first [apply lru_inv | apply full_inv].

(** A snapshot begins; then the key it copies is overwritten. *)
Definition iso_w : World' := do "SET" ["a"; "1"]%string lru_node.
Definition iso_w1 : World' := (engine_begin_snapshot (OnSync 7) iso_w).2.
Definition iso_w2 : World' := (serve (QExecute (AStr (lit "SET")) (texts_of ["a"; "2"]%string)) iso_w1).2.

Lemma snapshot_isolation_witness :
  exists job t, st_job (w_store iso_w2) = Some job /\ forall n r w3, job_step n iso_w2 = (r, w3) ->
    (job_remaining job <= n)%nat \/ r <> Ok false ->
    st_job (w_store w3) = None /\
    exists records, records ≡ₚ snapshot_at t (st_data (w_store iso_w)) /\
      match j_on_done job with Some d => hook_done d records (w_env iso_w2) | None => (Ok tt, w_env iso_w2) end =
        (match r with Ok _ => Ok tt | Raise x => Raise x end, w_env w3).
Proof.
  destruct (st_job (w_store iso_w2)) as [job|] eqn:Hj; [|exfalso; revert Hj; vm_compute; discriminate].
  exists job. destruct (snapshot_isolation 0 0 no_ghost (w_store lru_node) (OnSync 7) iso_w iso_w1 iso_w2 job) as [t Ht].
  - flags.
  - node_inv.
  - unfold iso_w1. apply ran. run.
  - refine (reach_step iso_w1 _ iso_w1 (reach_start iso_w1) (served "SET" _ _)). run.
  - exact Hj.
  - run.
  - exists t. split; [reflexivity|exact Ht].
Defined.

Definition two_keys : World' := do "SET" ["b"; "2"]%string iso_w.


Definition three_keys : World' := do "SET" ["c"; "3"]%string two_keys.
Definition set_d : list PyArg := texts_of ["d"; "4"]%string.

Lemma limits_after_write_witness :
  exists reply (spec : CommandSpec Policy Done (EngineEnv MemLog (list bytes))), (execute (AStr (lit "SET")) set_d three_keys).1 = Ok reply /\
    let w' := (execute (AStr (lit "SET")) set_d three_keys).2 in
    (over_limit 0 (w_store w') = false \/ forall k, is_Some (entry_at k w') -> k ∈ keys_of spec set_d).
Proof.
  exists OK, (command "SET" 2 None [WRITE; DENYOOM] (Some SINGLE_KEY) CmdStrings.set_cmd).
  split; [run|]. cbv zeta.
  eapply (limits_after_write 0 0 no_ghost (w_store lru_node) (AStr (lit "SET")) set_d three_keys OK).
  - flags.
  - apply not_restore. run.
  - node_inv.
  - reflexivity.
  - reflexivity.
  - apply ran. run.
  - reflexivity.
  - reflexivity.
Defined.

Lemma wait_rewrite_finishes_witness :
  st_job (w_store (drive_snapshot (job_keys (w_store iso_w1)) iso_w1).2) = None /\
  st_job (w_store (Engine.wait_rewrite iso_w1).2) = None.
Proof.
  apply (wait_rewrite_finishes 0 0 no_ghost (w_store lru_node)).
  - apply begin_keeps. node_inv.
  - apply (bool_decide_unpack _). vm_compute. exact I.
Defined.

Lemma close_releases_collector_witness :
  en_gc_holds (w_env iso_w1) =
    (0 + count_of (en_gc_held (w_env iso_w1)) + count_of (found (st_job (w_store iso_w1))))%nat /\
  st_job (w_store (Engine.close iso_w1).2) = None /\
  (rewriting (w_env (Engine.close iso_w1).2) = false -> en_gc_holds (w_env (Engine.close iso_w1).2) = 0%nat).
Proof.
  apply (close_releases_collector 0 0 no_ghost (w_store lru_node)).
  - apply begin_keeps. node_inv.
  - apply ran. run.
Defined.

Definition replaying_node : World' :=
  mkWorld (w_store two_keys) (set_replaying true (w_env two_keys)) (w_orc two_keys).

Lemma replay_writes_nothing_witness :
  let w' := (apply (lit "INCRBY") (texts_of ["a"; "5"]%string) replaying_node).2 in
  en_persistence (w_env w') = en_persistence (w_env replaying_node) /\
  en_replication (w_env w') = en_replication (w_env replaying_node) /\
  exists J', StoreInv.inv (J := J') [] (w_store lru_node) w'.
Proof.
  assert (Hw : engine_inv 0 0 no_ghost (w_store lru_node) two_keys) by node_inv.
  destruct Hw as [(J & _ & Hw) _].
  apply (replay_writes_nothing J (w_store lru_node) (lit "INCRBY") (texts_of ["a"; "5"]%string) (lit "log")).
  - flags.
  - split; [apply not_restore; run|]. by intros spec [= <-].
  - by eapply inv_other.
  - run.
  - run.
Defined.

Definition both_keys : World' := do "SET" ["y"; "2"]%string (do "SET" ["x"; "1"]%string full_node).

Lemma noeviction_key_bound_witness :
  store_len (w_store (execute (AStr (lit "MSET")) (texts_of ["x"; "3"; "z"; "4"]%string) both_keys).2) <=
    max_keys (w_store full_node).
Proof.
  eapply (noeviction_key_bound 0 0 no_ghost (w_store full_node) (AStr (lit "MSET")) (texts_of ["x"; "3"; "z"; "4"]%string)
    both_keys (command "MSET" 2 None [WRITE; DENYOOM] (Some EVERY_OTHER_KEY) CmdStrings.mset)).
  - flags.
  - apply not_restore. run.
  - node_inv.
  - reflexivity.
  - reflexivity.
  - run.
  - reflexivity.
  - run.
  - run.
Defined.


(** * The engine on its files: concrete runs

    A node whose log is the persistence manager on a disk: what its clients are
    told, and what a crash or a power failure leaves. *)

Abbreviation DiskWorld := (World Policy Done (EngineEnv PState (list bytes))).

(** The manager of an empty directory, with the calls in [bad] failing. *)
Definition disk_config (policy : FsyncPolicy) : PConfig :=
  mkPConfig (lit "data") policy 100 1000 (fun _ => float_of_Z 1600000000) (fun _ => float_of_Z 0) no_text no_text no_text.
Definition disk_io (bad : list nat) (d : Disk) : IO :=
  mkIO d [] (fun n => mkOutcome 0 (if bool_decide (n ∈ bad) then Some (lit "No space left on device") else None)) 0.
Definition disk_manager (policy : FsyncPolicy) (bad : list nat) : PState :=
  (load_all (new_persistence (disk_config policy) (disk_io bad empty_disk))).2.

Definition disk_node (policy : FsyncPolicy) (bad : list nat) : DiskWorld :=
  mkWorld (empty_store (PNoEviction (mkNoEviction 0)) 0 0)
    (mkEnv (Some (disk_manager policy bad)) None false true 2 false 0 0 0 0 [] None 1 0 0) (still (float_of_Z 1000)).

Lemma disk_node_inv policy bad :
  engine_inv 0 0 no_ghost (w_store (disk_node policy bad)) (disk_node policy bad).
Proof.
  apply (new_inv (PNoEviction (mkNoEviction 0)) 0 0); [done|exact (create_tracks (lit "noeviction") _ eq_refl)|apply still_ok|done].
Qed.

Definition idle (w : DiskWorld) : Group DiskWorld := mkGroup w false 0 0 [] [] [].
Definition batch_of (conn : nat) (commands : list (list pystr)) (g : Group DiskWorld) : Group DiskWorld :=
  join_batch engine_handler (env_do hold_commit) conn commands g.
Definition flush_of (g : Group DiskWorld) : Group DiskWorld := flush_group (env_do release_commit) g.
Definition set_of (k : String.string) : list pystr := [lit "SET"; lit k; lit "v"].

(** What a start on [d] finds. *)
Definition found_on (d : Disk) : result exn (list LoadEvent) :=
  (load_all (new_persistence (disk_config Always) (disk_io [] d))).1.
Definition disk_of (w : DiskWorld) : Disk :=
  match en_persistence (w_env w) with Some p => io_disk (pm_io p) | None => empty_disk end.

Definition pos_of (w : DiskWorld) : nat :=
  match en_persistence (w_env w) with Some p => io_pos (pm_io p) | None => 0%nat end.

(** ** A write that was acknowledged and never logged *)

(** Two clients in one group; writing the second record fails. *)
Definition failing_group : Group DiskWorld :=
  flush_of (batch_of 2 [set_of "b"] (batch_of 1 [set_of "a"] (idle (disk_node Always [7%nat])))).


(** ** Power failures *)

(** A power failure that leaves [n] bytes of the file [i] and everything else. *)
Definition lose (i n : nat) (d : Disk) : Disk :=
  on_inode i (fun f => mkFile (take n (f_data f)) (f_synced f)) d.

Lemma lose_power_loss i n d :
  forallb (fun f => bool_decide (f_synced f <= length (f_data f))%nat) (d_inodes d) = true ->
  (forall f, d_inodes d !! i = Some f -> (f_synced f <= n)%nat) -> power_loss d (lose i n d).
Proof.
  intros Hs Hi. split; [by left|]. split; [apply length_alter|]. intros j f Hj. simpl.
  rewrite list_lookup_alter. case_decide as E.
  - subst j. rewrite Hj. exists n. split; [by apply Hi|done].
  - exists (length (f_data f)). rewrite forallb_forall in Hs. split.
    + apply list_elem_of_lookup_2, list_elem_of_In, Hs, bool_decide_eq_true in Hj. done.
    + rewrite Hj, firstn_all. by destruct f.
Qed.

(** One that leaves every file, under the names of the last [fsync] of the directory. *)
Definition lose_names (d : Disk) : Disk := mkDisk (d_saved d) (d_saved d) (d_inodes d).

Lemma lose_names_power_loss d :
  forallb (fun f => bool_decide (f_synced f <= length (f_data f))%nat) (d_inodes d) = true -> power_loss d (lose_names d).
Proof.
  intros Hs. split; [by right|]. split; [done|]. intros j f Hj. exists (length (f_data f)). rewrite forallb_forall in Hs. split.
  - apply list_elem_of_lookup_2, list_elem_of_In, Hs, bool_decide_eq_true in Hj. done.
  - simpl. rewrite Hj, firstn_all. by destruct f.
Qed.

(** A write, and a rewrite begun before the log of the write is forced to the medium. *)
Definition rewriting_node : DiskWorld :=
  (execute (AStr (lit "BGREWRITEAOF")) [] (g_state (flush_of (batch_of 1 [set_of "a"] (idle (disk_node Everysec [])))))).2.
Definition old_log : nat := default 0%nat (inode_of (disk_of rewriting_node) (aof_name 1)).
Definition torn_disk : Disk := lose old_log 20 (disk_of rewriting_node).

(** A write that was committed under [always]. *)
Definition forced_node : Group DiskWorld := flush_of (batch_of 1 [set_of "a"] (idle (disk_node Always []))).

(** C38. Power failures the design does not cover.  (1) A rewrite makes a log
    that has not been forced to the medium yet one of the older logs; if power
    fails then and part of its end is lost, it is no longer the newest log, so
    instead of cutting the end off the start is refused.  (2) The name of the
    first log is created after the directory was last forced to the medium; a
    write committed under [appendfsync always] is gone if power fails before
    the first rewrite and the directory comes back as it was forced. *)
Theorem power_failure_uncovered :
  (power_loss (disk_of rewriting_node) torn_disk /\
   found_on torn_disk = Raise (corrupted (lit "data/appendonly-1.aof") 1 "incomplete record")) /\
  (g_sent forced_node = [(1%nat, [Bytes (lit "+OK" ++ CRLF)])] /\
   found_on (disk_of (g_state forced_node)) = Ok [EvCommand (lit "data/appendonly-1.aof:1") (lit "SET") [AStr (lit "a"); AStr (lit "v")]] /\
   power_loss (disk_of (g_state forced_node)) (lose_names (disk_of (g_state forced_node))) /\
   found_on (lose_names (disk_of (g_state forced_node))) = Ok []).
Proof.
  split; split.
  - apply lose_power_loss; [vm_compute; reflexivity|]. intros f Hf.
    assert (E : f_synced <$> (d_inodes (disk_of rewriting_node) !! old_log) = Some 0%nat) by (vm_compute; reflexivity).
    rewrite Hf in E. injection E as ->. lia.
  - vm_compute. reflexivity.
  - vm_compute. reflexivity.
  - split; [vm_compute; reflexivity|]. split; [apply lose_names_power_loss; vm_compute; reflexivity|vm_compute; reflexivity].
Qed.

Definition waiting_group : Group DiskWorld := batch_of 1 [set_of "a"; [lit "GET"; lit "a"]] (idle (disk_node Always [])).

Lemma replies_wait_for_commit_witness :
  (g_waiting waiting_group <> [] -> en_commit_depth (w_env (g_state waiting_group)) = 1) /\
  (forall conn commands, g_sent (batch_of conn commands waiting_group) = g_sent waiting_group) /\
  (g_open waiting_group = true ->
   ((env_do release_commit (g_state waiting_group)).1 = Ok tt /\
    g_sent (flush_of waiting_group) = g_sent waiting_group ++ g_waiting waiting_group /\
    log_committed (g_state waiting_group) (g_state (flush_of waiting_group))) \/
   ((env_do release_commit (g_state waiting_group)).1 <> Ok tt /\ g_sent (flush_of waiting_group) = g_sent waiting_group /\
    g_dropped (flush_of waiting_group) = g_dropped waiting_group ++ (g_waiting waiting_group).*1)).
Proof.
  apply (replies_wait_for_commit 0 0 no_ghost (w_store (disk_node Always [])) (idle (disk_node Always []))).
  - intros H. exact H.
  - apply disk_node_inv.
  - reflexivity.
  - split; reflexivity.
  - apply rtc_once, step_batch. repeat (apply Forall_cons; split); try (by apply Forall_nil); by intros name [= <-].
Defined.
