(* ===== verification/ReplStream.v ===== *)
(** * The replication stream (replication/stream.py)

    The backlog, which holds the last bytes of the stream under their offsets,
    and the framing of the stream: commands as arrays of bulk strings. *)

From Stdlib Require Import String.
From S2P Require Import Prelude PyStr Errors Codec Snapshot Registry Resp RespProofs.
Local Close Scope string_scope.

(** ** [Backlog] *)
Record Backlog := mkBacklog {
  capacity : Z;
  bl_buf : bytes;
  bl_start : Z;   (* offset of the first byte held *)
  bl_end : Z      (* offset after the last byte held *)
}.

Definition new_backlog (cap offset : Z) : result exn Backlog :=
  if cap <=? 0 then Raise (err ValueError "backlog capacity must be positive")
  else Ok (mkBacklog cap [] offset offset).

Definition backlog_len (b : Backlog) : Z := Z.of_nat (length (bl_buf b)).

Definition append (data : bytes) (b : Backlog) : Backlog :=
  let buf := bl_buf b ++ data in
  let stop := bl_end b + Z.of_nat (length data) in
  let excess := Z.of_nat (length buf) - capacity b in
  if 0 <? excess
  then mkBacklog (capacity b) (drop (Z.to_nat excess) buf) (bl_start b + excess) stop
  else mkBacklog (capacity b) buf (bl_start b) stop.

Definition contains (offset : Z) (b : Backlog) : bool :=
  (bl_start b <=? offset) && (offset <=? bl_end b).

Definition since (offset : Z) (b : Backlog) : option bytes :=
  if contains offset b then Some (drop (Z.to_nat (offset - bl_start b)) (bl_buf b)) else None.

Definition reset (offset : Z) (b : Backlog) : Backlog := mkBacklog (capacity b) [] offset offset.

(** ** Python's positions in a sequence: negative ones count from its end *)
Definition clamp {A} (l : list A) (i : Z) : nat :=
  let n := Z.of_nat (length l) in
  Z.to_nat (if i <? 0 then Z.max 0 (i + n) else Z.min i n).

Definition py_slice {A} (lo hi : Z) (l : list A) : list A := slice (clamp l lo) (clamp l hi) l.

(** [l[i]]; [None] stands for [IndexError]. *)
Definition py_get {A} (l : list A) (i : Z) : option A :=
  if i <? 0 then if i + Z.of_nat (length l) <? 0 then None else l !! Z.to_nat (i + Z.of_nat (length l))
  else l !! Z.to_nat i.

(** [buf.find(b"\r\n", start)]; [None] stands for -1. *)
Definition py_find_crlf (start : Z) (buf : bytes) : option Z :=
  Z.of_nat <$> find_crlf_from (clamp buf start) buf.

Definition index_error {A} : result exn A := Raise (err IndexError "bytearray index out of range").
Definition int_error {A} : result exn A := Raise (err ValueError "invalid literal for int() with base 10").

(** ** [next_command] *)

(** The [for] loop over the arguments. *)
Fixpoint bulk_args (count : nat) (buf : bytes) (cursor : Z) (args : list pystr)
  : result exn (option (list pystr * Z)) :=
  match count with
  | O => Ok (Some (args, cursor))
  | S n =>
      if Z.of_nat (length buf) <=? cursor then Ok None
      else
        match py_get buf cursor with
        | None => index_error
        | Some c =>
            if negb (c =? 36)
            then Raise (err ProtocolError "expected a bulk string in the replication stream")
            else
              match py_find_crlf cursor buf with
              | None => Ok None
              | Some eol =>
                  match py_int_bytes (py_slice (cursor + 1) eol buf) with
                  | None => int_error
                  | Some size =>
                      let stop := eol + 2 + size in
                      if Z.of_nat (length buf) <? stop + 2 then Ok None
                      else bulk_args n buf (stop + 2) (args ++ [to_str (py_slice (eol + 2) stop buf)])
                  end
              end
        end
  end.

Definition next_command (buf : bytes) (pos : Z) : result exn (option (list pystr * Z)) :=
  if Z.of_nat (length buf) <=? pos then Ok None
  else
    match py_get buf pos with
    | None => index_error
    | Some c =>
        if negb (c =? 42)
        then Raise (new_exn ProtocolError
                      (lit "expected an array in the replication stream, got " ++ str_of_int c) None)
        else
          match py_find_crlf pos buf with
          | None => Ok None
          | Some eol =>
              match py_int_bytes (py_slice (pos + 1) eol buf) with
              | None => int_error
              | Some count => bulk_args (Z.to_nat count) buf (eol + 2) []
              end
          end
    end.

(** ** The backlog holds the end of the stream

    [stream] is everything that was ever appended since the offset [base]. *)
Definition backlog_of (base : Z) (stream : bytes) (b : Backlog) : Prop :=
  0 < capacity b /\ bl_end b = base + Z.of_nat (length stream) /\
  bl_buf b = drop (Z.to_nat (bl_start b - base)) stream /\
  bl_start b = Z.max base (bl_end b - capacity b).

Lemma backlog_new cap offset b : new_backlog cap offset = Ok b -> backlog_of offset [] b.
Proof.
  unfold new_backlog. destruct (Z.leb_spec cap 0) as [H|H]; [done|]. intros [= <-].
  unfold backlog_of. cbn [capacity bl_buf bl_start bl_end length]. rewrite drop_nil. conj; [lia|lia|done|lia].
Qed.

Lemma backlog_reset base stream offset b : backlog_of base stream b -> backlog_of offset [] (reset offset b).
Proof. intros (H & _). unfold backlog_of, reset. cbn [capacity bl_buf bl_start bl_end length].
  rewrite drop_nil. conj; [done|lia|done|lia]. Qed.

Lemma backlog_append base stream data b :
  backlog_of base stream b -> backlog_of base (stream ++ data) (append data b).
Proof.
  intros (Hc & He & Hb & Hs). unfold append. rewrite length_app.
  assert (Hl : Z.of_nat (length (bl_buf b)) = bl_end b - bl_start b) by (rewrite Hb, length_drop; lia).
  set (excess := Z.of_nat (length (bl_buf b) + length data) - capacity b).
  assert (Hx : excess = bl_end b - bl_start b + Z.of_nat (length data) - capacity b) by lia. clearbody excess.
  destruct (Z.ltb_spec 0 excess) as [H|H];
    unfold backlog_of; cbn [capacity bl_buf bl_start bl_end]; rewrite length_app; conj; try lia.
  - rewrite Hb, <- drop_app_le, drop_drop by lia. f_equal. clear Hb. lia.
  - rewrite drop_app_le by lia. by rewrite <- Hb.
Qed.

(** What [since] returns: the stream from that offset on, if it is all held. *)
Lemma since_stream base stream offset b :
  backlog_of base stream b ->
  since offset b = if (Z.max base (bl_end b - capacity b) <=? offset) && (offset <=? bl_end b)
                   then Some (drop (Z.to_nat (offset - base)) stream) else None.
Proof.
  intros (Hc & He & Hb & Hs). unfold since, contains. rewrite <- Hs.
  destruct (Z.leb_spec (bl_start b) offset), (Z.leb_spec offset (bl_end b)); [|done..]. cbn [andb].
  f_equal. rewrite Hb, drop_drop. f_equal. lia.
Qed.

(** ** Frames of the stream *)

(** Wherever it lies in the buffer, [raw] parses to [args] whatever follows it,
    and no strict prefix of it at the end of the buffer parses to anything. *)
Definition stream_frame (raw : bytes) (args : list pystr) : Prop :=
  raw <> [] /\
  (forall pre t, next_command (pre ++ raw ++ t) (Z.of_nat (length pre)) =
     Ok (Some (args, Z.of_nat (length (pre ++ raw))))) /\
  (forall pre u w, raw = u ++ w -> w <> [] -> next_command (pre ++ u) (Z.of_nat (length pre)) = Ok None).

Lemma clamp_nat {A} (l : list A) (n : nat) : (n <= length l)%nat -> clamp l (Z.of_nat n) = n.
Proof. intros H. unfold clamp. destruct (Z.ltb_spec (Z.of_nat n) 0); lia. Qed.

Lemma py_get_app {A} (pre u : list A) : py_get (pre ++ u) (Z.of_nat (length pre)) = head u.
Proof.
  unfold py_get. destruct (Z.ltb_spec (Z.of_nat (length pre)) 0); [lia|].
  rewrite Nat2Z.id, lookup_app_r, Nat.sub_diag by lia. by destruct u.
Qed.

Lemma py_find_app pre u : py_find_crlf (Z.of_nat (length pre)) (pre ++ u) =
  (fun e => Z.of_nat (length pre + e)) <$> find_crlf u.
Proof.
  unfold py_find_crlf, find_crlf_from. rewrite clamp_nat by (rewrite length_app; lia).
  rewrite drop_app_length. by destruct (find_crlf u).
Qed.

Lemma py_slice_app {A} (pre u : list A) lo hi :
  (lo <= length u)%nat -> (hi <= length u)%nat ->
  py_slice (Z.of_nat (length pre + lo)) (Z.of_nat (length pre + hi)) (pre ++ u) = slice lo hi u.
Proof.
  intros H1 H2. unfold py_slice. rewrite !clamp_nat by (rewrite length_app; lia). unfold slice.
  replace (length pre + hi - (length pre + lo))%nat with (hi - lo)%nat by lia.
  by rewrite <- drop_drop, drop_app_length.
Qed.

(** What fits the stream: every argument encodes to bytes that decode to it. *)
Definition effect_fits (args : list PyArg) : Prop :=
  Z.of_nat (length args) <= 2 ^ 64 /\ Forall (arg_fits (2 ^ 64)) args.

Lemma bulk_args_bulk n pre data t args :
  Z.of_nat (length data) <= 2 ^ 64 ->
  bulk_args (S n) (pre ++ bulk data ++ t) (Z.of_nat (length pre)) args =
  bulk_args n ((pre ++ bulk data) ++ t) (Z.of_nat (length (pre ++ bulk data))) (args ++ [to_str data]).
Proof.
  intros Hn. unfold bulk. rewrite <- !app_assoc.
  destruct (head_line_parse 36 (Z.of_nat (length data)) (data ++ CRLF ++ t) ltac:(lia) ltac:(lia))
    as (e & Ef & Ei & El & Eh). set (h := head_line 36 (Z.of_nat (length data))) in *.
  set (u := h ++ data ++ CRLF ++ t) in *.
  assert (Hlu : length u = (e + 2 + length data + 2 + length t)%nat)
    by (subst u; rewrite El, !length_app; change (length CRLF) with 2%nat; lia).
  assert (Hd : slice (e + 2) (e + 2 + length data) u = data).
  { subst u. unfold slice. rewrite El, drop_app_length, Nat.add_comm, Nat.add_sub, take_app_length. done. }
  assert (Hh : head u = Some 36) by (by rewrite Eh). clearbody u.
  cbn [bulk_args]. rewrite length_app. destruct (Z.leb_spec (Z.of_nat (length pre + length u)) (Z.of_nat (length pre))); [lia|].
  rewrite py_get_app, Hh, py_find_app, Ef. change (negb (36 =? 36)) with false. cbn [fmap option_fmap option_map]. cbn iota.
  replace (Z.of_nat (length pre) + 1) with (Z.of_nat (length pre + 1)) by lia.
  rewrite py_slice_app, Ei by lia.
  destruct (Z.ltb_spec (Z.of_nat (length pre + length u)) (Z.of_nat (length pre + e) + 2 + Z.of_nat (length data) + 2)); [lia|].
  replace (Z.of_nat (length pre + e) + 2) with (Z.of_nat (length pre + (e + 2))) by lia.
  replace (Z.of_nat (length pre + (e + 2)) + Z.of_nat (length data)) with (Z.of_nat (length pre + (e + 2 + length data))) by lia.
  rewrite py_slice_app, Hd by lia. f_equal.
  rewrite !length_app, El. change (length CRLF) with 2%nat. lia.
Qed.

Lemma bulk_args_bulks datas : forall pre t args,
  Forall (fun b => Z.of_nat (length b) <= 2 ^ 64) datas ->
  bulk_args (length datas) (pre ++ (datas ≫= bulk) ++ t) (Z.of_nat (length pre)) args =
  Ok (Some (args ++ (to_str <$> datas), Z.of_nat (length (pre ++ (datas ≫= bulk))))).
Proof.
  induction datas as [|b datas IH]; intros pre t args H; [by rewrite fmap_nil, !app_nil_r|].
  apply Forall_cons in H as [Hb H]. rewrite bind_cons, <- app_assoc. cbn [length].
  rewrite bulk_args_bulk, IH by done. rewrite fmap_cons, <- !app_assoc. done.
Qed.

Lemma bulk_args_part n pre data u w args :
  Z.of_nat (length data) <= 2 ^ 64 -> bulk data = u ++ w -> w <> [] ->
  bulk_args (S n) (pre ++ u) (Z.of_nat (length pre)) args = Ok None.
Proof.
  intros Hn E Hw. cbn [bulk_args]. rewrite length_app.
  destruct (Z.leb_spec (Z.of_nat (length pre + length u)) (Z.of_nat (length pre))) as [|Hu]; [done|].
  assert (Hh : head u = Some 36).
  { unfold bulk, head_line in E. destruct u as [|c u]; [simpl in Hu; lia|]. by injection E as <- _. }
  rewrite py_get_app, py_find_app, Hh. change (negb (36 =? 36)) with false. cbn iota. unfold bulk in E.
  apply prefix_cases in E as [(w' & E & Hw')|(u' & -> & E)]; [| |done].
  - destruct (head_line_prefix 36 (Z.of_nat (length data)) u w' ltac:(lia) ltac:(lia) E Hw') as [-> _]. done.
  - destruct (head_line_parse 36 (Z.of_nat (length data)) u' ltac:(lia) ltac:(lia)) as (e & Ef & Ei & El & _).
    rewrite Ef. cbn [fmap option_fmap option_map].
    replace (Z.of_nat (length pre) + 1) with (Z.of_nat (length pre + 1)) by lia.
    rewrite py_slice_app, Ei by (rewrite length_app; lia).
    apply (f_equal length) in E. rewrite !length_app in E. change (length CRLF) with 2%nat in E.
    destruct w as [|c w]; [done|]. simpl in E. rewrite length_app.
    destruct (Z.ltb_spec (Z.of_nat (length pre + (length (head_line 36 (Z.of_nat (length data))) + length u')))
      (Z.of_nat (length pre + e) + 2 + Z.of_nat (length data) + 2)); [done|lia].
Qed.

Lemma bulk_args_prefix datas : forall pre u w args,
  Forall (fun b => Z.of_nat (length b) <= 2 ^ 64) datas ->
  (datas ≫= bulk) = u ++ w -> w <> [] ->
  bulk_args (length datas) (pre ++ u) (Z.of_nat (length pre)) args = Ok None.
Proof.
  induction datas as [|b datas IH]; intros pre u w args H E Hw.
  { symmetry in E. by apply app_eq_nil in E as [_ ->]. }
  apply Forall_cons in H as [Hb H]. rewrite bind_cons in E. cbn [length].
  apply prefix_cases in E as [(w' & E & Hw')|(u' & -> & E)]; [| |done].
  - by eapply bulk_args_part.
  - rewrite bulk_args_bulk by done. by eapply IH.
Qed.

(** The header of an encoded command: the loop starts after it. *)
Lemma next_command_header pre n t :
  0 <= n <= 2 ^ 64 ->
  next_command (pre ++ head_line 42 n ++ t) (Z.of_nat (length pre)) =
  bulk_args (Z.to_nat n) ((pre ++ head_line 42 n) ++ t) (Z.of_nat (length (pre ++ head_line 42 n))) [].
Proof.
  intros Hn. destruct (head_line_parse 42 n t ltac:(lia) ltac:(lia)) as (e & Ef & Ei & El & Eh).
  rewrite <- app_assoc. set (u := head_line 42 n ++ t) in *.
  assert (Hlu : length u = (e + 2 + length t)%nat) by (subst u; rewrite El, !length_app; lia).
  assert (Hh : head u = Some 42) by (by rewrite Eh). clearbody u. unfold next_command.
  rewrite length_app. destruct (Z.leb_spec (Z.of_nat (length pre + length u)) (Z.of_nat (length pre))); [lia|].
  rewrite py_get_app, Hh, py_find_app, Ef. change (negb (42 =? 42)) with false. cbn [fmap option_fmap option_map]. cbn iota.
  replace (Z.of_nat (length pre) + 1) with (Z.of_nat (length pre + 1)) by lia.
  rewrite py_slice_app, Ei by lia. f_equal. rewrite length_app. lia.
Qed.

Lemma header_prefix pre n u w :
  0 <= n <= 2 ^ 64 -> head_line 42 n = u ++ w -> w <> [] -> next_command (pre ++ u) (Z.of_nat (length pre)) = Ok None.
Proof.
  intros Hn E Hw. unfold next_command. rewrite length_app.
  destruct (Z.leb_spec (Z.of_nat (length pre + length u)) (Z.of_nat (length pre))) as [|Hu]; [done|].
  assert (Hh : head u = Some 42).
  { unfold head_line in E. destruct u as [|c u]; [simpl in Hu; lia|]. by injection E as <- _. }
  rewrite py_get_app, py_find_app, Hh. change (negb (42 =? 42)) with false. cbn iota.
  by destruct (head_line_prefix 42 n u w ltac:(lia) ltac:(lia) E Hw) as [-> _].
Qed.

Lemma texts_of args datas :
  Forall2 (fun a b => to_str b = arg_text a) args datas -> (to_str <$> datas) = (arg_text <$> args).
Proof. induction 1 as [|a b args datas H Hs IH]; [done|]. rewrite !fmap_cons. by f_equal. Qed.

(** Every encoded command is a frame. *)
Lemma encode_stream_frame args :
  effect_fits args -> exists raw, encode_command args = Ok raw /\ stream_frame raw (arg_text <$> args).
Proof.
  intros [Hc Hargs]. destruct (concat_args_ok _ args Hargs) as (datas & E & Hf & Hd).
  pose proof (Forall2_length _ _ _ Hf) as Hlen. unfold encode_command. rewrite E. eexists. split; [done|].
  assert (Hd' : Forall (fun b => Z.of_nat (length b) <= 2 ^ 64) datas)
    by (eapply Forall_impl; [exact Hd|]; simpl; intros b [? _]; done).
  unfold stream_frame. conj; [done|intros pre t|intros pre u w Er Hw].
  - rewrite <- app_assoc, next_command_header by lia. rewrite Nat2Z.id, Hlen, bulk_args_bulks by done.
    by rewrite app_nil_l, (texts_of _ _ Hf), <- app_assoc.
  - apply prefix_cases in Er as [(w' & Er & Hw')|(u' & -> & Er)]; [| |done].
    + eapply header_prefix; [|done..]. lia.
    + rewrite next_command_header by lia. rewrite Nat2Z.id, Hlen. by eapply bulk_args_prefix.
Qed.
