(* ===== verification/Primary.v ===== *)
(** * The primary's side of replication (replication/primary.py)

    The state of the stream history, the connected replicas, WAIT and the
    check of [min-replicas-to-write].  The coroutine [serve] is its parts
    between two awaits: [serve_begin], [serve_snapshot], [serve_online],
    [read_acks] for each piece of data that arrives and [serve_end]. *)

From Stdlib Require Import String.
From S2P Require Import Prelude PyStr PyFloat Errors Codec Store Snapshot Registry Resp Engine ReplStream.
Local Close Scope string_scope.

Definition MAX_REPLICA_BUFFER : Z := 64 * 1024 * 1024.

(** ** [ReplicationState] *)
Record ReplicationState := mkRState {
  rs_backlog : Backlog;
  rs_replid : pystr;
  rs_replid2 : pystr;
  rs_second_offset : Z
}.

Definition NO_REPLID : pystr := repeat 48 40.

Definition new_state (b : Backlog) (fresh : pystr) : ReplicationState := mkRState b fresh NO_REPLID (-1).

Definition rs_offset (s : ReplicationState) : Z := bl_end (rs_backlog s).

Definition can_continue (replid : pystr) (offset : Z) (s : ReplicationState) : bool :=
  (bool_decide (replid = rs_replid s) ||
   (bool_decide (replid = rs_replid2 s) && (offset <=? rs_second_offset s))) &&
  contains offset (rs_backlog s).

(** [fork]; [fresh] is what [new_replid] draws. *)
Definition fork (fresh : pystr) (s : ReplicationState) : ReplicationState :=
  mkRState (rs_backlog s) fresh (rs_replid s) (rs_offset s).

Definition set_backlog (b : Backlog) (s : ReplicationState) : ReplicationState :=
  mkRState b (rs_replid s) (rs_replid2 s) (rs_second_offset s).

(** ** Connections *)

(** A connection's writer: everything written to it, how much of that the
    transport still holds, and whether it was closed. *)
Record Wire := mkWire { wi_out : bytes; wi_unsent : Z; wi_closed : bool }.

Definition new_wire : Wire := mkWire [] 0 false.

Definition wire_write (data : bytes) (w : Wire) : Wire :=
  if wi_closed w then w
  else mkWire (wi_out w ++ data) (wi_unsent w + Z.of_nat (length data)) (wi_closed w).

Definition wire_close (w : Wire) : Wire := mkWire (wi_out w) (wi_unsent w) true.

Inductive SyncState := InSync | Online.

(** [cr_buf] is what [_read_acks] has received and not parsed yet, [cr_start]
    the offset its resync started from. *)
Record ConnectedReplica := mkReplica {
  cr_host : pystr;
  cr_port : Z;
  cr_state : SyncState;
  cr_sent : Z;
  cr_ack : Z;
  cr_ack_time : float;
  cr_start : Z;
  cr_buf : bytes
}.

Definition set_sent (n : Z) (r : ConnectedReplica) : ConnectedReplica :=
  mkReplica (cr_host r) (cr_port r) (cr_state r) n (cr_ack r) (cr_ack_time r) (cr_start r) (cr_buf r).
Definition set_ack (n : Z) (t : float) (r : ConnectedReplica) : ConnectedReplica :=
  mkReplica (cr_host r) (cr_port r) (cr_state r) (cr_sent r) n t (cr_start r) (cr_buf r).
Definition set_port (n : Z) (r : ConnectedReplica) : ConnectedReplica :=
  mkReplica (cr_host r) n (cr_state r) (cr_sent r) (cr_ack r) (cr_ack_time r) (cr_start r) (cr_buf r).
Definition set_buf (b : bytes) (r : ConnectedReplica) : ConnectedReplica :=
  mkReplica (cr_host r) (cr_port r) (cr_state r) (cr_sent r) (cr_ack r) (cr_ack_time r) (cr_start r) b.
Definition set_online (r : ConnectedReplica) : ConnectedReplica :=
  mkReplica (cr_host r) (cr_port r) Online (cr_sent r) (cr_start r) (cr_ack_time r) (cr_start r) (cr_buf r).

(** [_Waiter]; [wt_result] is the result of its future. *)
Record Waiter := mkWaiter { wt_offset : Z; wt_needed : Z; wt_result : option Z }.

(** ** [PrimaryReplication]

    Replicas, their wires and the waiters are found by number; a wire outlives
    the replica's place in [pr_replicas]. *)
Record Primary := mkPrimary {
  pr_state : ReplicationState;
  pr_replicas : list (nat * ConnectedReplica);
  pr_wires : list (nat * Wire);
  pr_next_id : nat;
  pr_waiters : list (nat * Waiter);
  pr_active : bool;
  full_resyncs : Z;
  partial_resyncs : Z
}.

Definition new_primary (s : ReplicationState) : Primary := mkPrimary s [] [] 1 [] false 0 0.

Definition set_state (s : ReplicationState) (p : Primary) : Primary :=
  mkPrimary s (pr_replicas p) (pr_wires p) (pr_next_id p) (pr_waiters p) (pr_active p)
    (full_resyncs p) (partial_resyncs p).
Definition set_replicas (l : list (nat * ConnectedReplica)) (p : Primary) : Primary :=
  mkPrimary (pr_state p) l (pr_wires p) (pr_next_id p) (pr_waiters p) (pr_active p)
    (full_resyncs p) (partial_resyncs p).
Definition set_wires (l : list (nat * Wire)) (p : Primary) : Primary :=
  mkPrimary (pr_state p) (pr_replicas p) l (pr_next_id p) (pr_waiters p) (pr_active p)
    (full_resyncs p) (partial_resyncs p).
Definition set_waiters (l : list (nat * Waiter)) (p : Primary) : Primary :=
  mkPrimary (pr_state p) (pr_replicas p) (pr_wires p) (pr_next_id p) l (pr_active p)
    (full_resyncs p) (partial_resyncs p).
Definition set_active (b : bool) (p : Primary) : Primary :=
  mkPrimary (pr_state p) (pr_replicas p) (pr_wires p) (pr_next_id p) (pr_waiters p) b
    (full_resyncs p) (partial_resyncs p).
Definition set_resyncs (full partial : Z) (p : Primary) : Primary :=
  mkPrimary (pr_state p) (pr_replicas p) (pr_wires p) (pr_next_id p) (pr_waiters p) (pr_active p)
    full partial.
Definition take_id (p : Primary) : Primary :=
  mkPrimary (pr_state p) (pr_replicas p) (pr_wires p) (S (pr_next_id p)) (pr_waiters p) (pr_active p)
    (full_resyncs p) (partial_resyncs p).

Definition pr_offset (p : Primary) : Z := rs_offset (pr_state p).

Definition on_wire (f : Wire -> Wire) (id : nat) (p : Primary) : Primary :=
  match dict_get id (pr_wires p) with
  | Some w => set_wires (dict_set id (f w) (pr_wires p)) p
  | None => p
  end.
Definition on_replica (f : ConnectedReplica -> ConnectedReplica) (id : nat) (p : Primary) : Primary :=
  match dict_get id (pr_replicas p) with
  | Some r => set_replicas (dict_set id (f r) (pr_replicas p)) p
  | None => p
  end.

(** *** Feeding *)
Definition feed (payload : bytes) (p : Primary) : Primary :=
  if pr_active p
  then set_state (set_backlog (append payload (rs_backlog (pr_state p))) (pr_state p)) p else p.

Definition feed_command (args : list PyArg) : M exn Primary unit :=
  let! payload := lift (encode_command args) in modifyM (feed payload).

Definition drop_replica (id : nat) (p : Primary) : Primary :=
  on_wire wire_close id (set_replicas (dict_pop id (pr_replicas p)) p).

Definition unsent (id : nat) (p : Primary) : Z :=
  match dict_get id (pr_wires p) with Some w => wi_unsent w | None => 0 end.

(** [_send]: a replica that fell behind the backlog is dropped. *)
Definition send (id : nat) (p : Primary) : Primary :=
  match dict_get id (pr_replicas p) with
  | None => p
  | Some r =>
      match since (cr_sent r) (rs_backlog (pr_state p)) with
      | None => drop_replica id p
      | Some data =>
          if MAX_REPLICA_BUFFER <? unsent id p then drop_replica id p
          else
            match data with
            | [] => p
            | _ => on_replica (set_sent (pr_offset p)) id (on_wire (wire_write data) id p)
            end
      end
  end.

Definition is_online (r : ConnectedReplica) : bool := match cr_state r with Online => true | InSync => false end.

(** [flush]: the replicas that are online when it starts. *)
Definition flush (p : Primary) : Primary :=
  fold_left (fun p '(id, r) => if is_online r then send id p else p) (pr_replicas p) p.

Definition ping : M exn Primary unit :=
  let! p := getM in
  match pr_replicas p with
  | [] => ret tt
  | _ => feed_command [AStr (lit "PING")];; modifyM flush
  end.

Definition disconnect_all (p : Primary) : Primary :=
  fold_left (fun p '(id, _) => drop_replica id p) (pr_replicas p) p.

#[export] Instance primary_feed : ReplicationFeed Primary := {|
  r_active := pr_active;
  r_feed payload := modifyM (feed payload);
  r_flush := modifyM flush
|}.

(** *** WAIT and [min-replicas-to-write] *)
Definition acked (offset : Z) (p : Primary) : Z :=
  Z.of_nat (length (List.filter (fun '(_, r) => offset <=? cr_ack r) (pr_replicas p))).

Definition wake_waiters (p : Primary) : Primary :=
  set_waiters
    ((fun '(n, w) =>
        let count := acked (wt_offset w) p in
        match wt_result w with
        | None => if wt_needed w <=? count then (n, mkWaiter (wt_offset w) (wt_needed w) (Some count)) else (n, w)
        | Some _ => (n, w)
        end) <$> pr_waiters p) p.

Inductive Waiting := Answered (count : Z) | Blocked (id : nat) (target : Z).

(** The number of a new waiter: one no other waiter has. *)
Definition fresh_waiter (p : Primary) : nat := S (foldr Nat.max 0%nat (pr_waiters p).*1).

(** [wait] up to its await: the count, or a waiter to wait for. *)
Definition wait_begin (needed : Z) : M exn Primary Waiting :=
  let! p := getM in
  let target := pr_offset p in
  if (needed <=? acked target p) || match pr_replicas p with [] => true | _ => false end
  then ret (Answered (acked target p))
  else
    let id := fresh_waiter p in
    modifyM (fun p => set_waiters (pr_waiters p ++ [(id, mkWaiter target needed None)]) p);;
    feed_command [AStr (lit "REPLCONF"); AStr (lit "GETACK"); AStr (lit "*")];;
    modifyM flush;;
    ret (Blocked id target).

(** What the await gives: the future's result, or at the timeout the count
    there is; then the waiter is removed. *)
Definition wait_end (id : nat) (target : Z) (timed_out : bool) (p : Primary) : option Z * Primary :=
  match dict_get id (pr_waiters p) with
  | Some w =>
      match wt_result w with
      | Some count => (Some count, set_waiters (dict_pop id (pr_waiters p)) p)
      | None => if timed_out then (Some (acked target p), set_waiters (dict_pop id (pr_waiters p)) p)
                else (None, p)
      end
  | None => (None, p)
  end.

Definition good_replica (now max_lag_s : float) (r : ConnectedReplica) : bool :=
  is_online r && fle (fsub now (cr_ack_time r)) max_lag_s.

Definition check_min_replicas (needed : Z) (max_lag_s now : float) : M exn Primary unit :=
  if needed <=? 0 then ret tt
  else
    let! p := getM in
    let good := Z.of_nat (length (List.filter (fun '(_, r) => good_replica now max_lag_s r) (pr_replicas p))) in
    if good <? needed then raise (new_exn NotEnoughReplicasError [] None) else ret tt.

Definition lag_s (now : float) (r : ConnectedReplica) : option Z := ftrunc (fsub now (cr_ack_time r)).

(** *** PSYNC *)

(** [b"+FULLRESYNC %s %d\r\n"] and [b"+CONTINUE %s\r\n"]. *)
Definition fullresync_line (replid : bytes) (start : Z) : bytes :=
  lit "+FULLRESYNC " ++ replid ++ 32 :: str_of_int start ++ CRLF.
Definition continue_line (replid : bytes) : bytes := lit "+CONTINUE " ++ replid ++ CRLF.

(** Enter a new replica, which is then known by the number returned. *)
Definition register (host : pystr) (start : Z) (now : float) (p : Primary) : nat * Primary :=
  let id := pr_next_id p in
  let r := mkReplica host 0 InSync start 0 now start [] in
  let p := take_id p in
  (id, set_wires (dict_set id new_wire (pr_wires p)) (set_replicas (dict_set id r (pr_replicas p)) p)).

Section Serve.
Context {S : Type}.
(** The callback [_snapshot], for the replica with that number, and the state
    [serve] runs in. *)
Context (snapshot : nat -> M exn S unit).
Context (on_primary : forall A : Type, M exn Primary A -> M exn S A).

(** Up to the first await.  Nothing runs between the start of the snapshot and
    the reading of the offset. *)
Definition serve_begin (host replid : pystr) (offset : Z) (now : float) : M exn S nat :=
  let! full := on_primary _ (readM (fun p => negb (can_continue replid offset (pr_state p)))) in
  if full : bool then
    on_primary _ (modifyM (set_active true));;
    let! next := on_primary _ (readM pr_next_id) in
    snapshot next;;
    on_primary _
      (let! start := readM pr_offset in
       let! id := (fun p => let '(id, p) := register host start now p in (Ok id, p)) in
       modifyM (fun p => set_resyncs (full_resyncs p + 1) (partial_resyncs p) p);;
       let! name := readM (fun p => rs_replid (pr_state p)) in
       let! raw := lift (encode_text name) in
       modifyM (on_wire (wire_write (fullresync_line raw start)) id);;
       ret id)
  else
    on_primary _
      (let! id := (fun p => let '(id, p) := register host offset now p in (Ok id, p)) in
       modifyM (fun p => set_resyncs (full_resyncs p) (partial_resyncs p + 1) p);;
       let! name := readM (fun p => rs_replid (pr_state p)) in
       let! raw := lift (encode_text name) in
       modifyM (on_wire (wire_write (continue_line raw)) id);;
       ret id).
End Serve.

(** After the snapshot was copied and encoded: it is written. *)
Definition serve_snapshot (id : nat) (records : list SnapshotRecord) (created_at : float) : M exn Primary unit :=
  let! payload := lift (encode_snapshot records created_at) in
  modifyM (on_wire (wire_write (head_line 36 (Z.of_nat (length payload)))) id);;
  modifyM (on_wire (wire_write payload) id).

(** After the drain: the replica is online and gets what was written meanwhile. *)
Definition serve_online (id : nat) (p : Primary) : Primary :=
  match dict_get id (pr_replicas p) with
  | None => drop_replica id p
  | Some _ => send id (on_replica set_online id p)
  end.

(** The [finally] of [serve]. *)
Definition serve_end (id : nat) (p : Primary) : Primary := drop_replica id p.

(** One command of a replica's own stream. *)
Definition ack_command (id : nat) (args : list pystr) (now : float) : M exn Primary unit :=
  match args with
  | a0 :: a1 :: a2 :: _ =>
      if negb (bool_decide (str_upper a0 = lit "REPLCONF")) then ret tt
      else if bool_decide (str_upper a1 = lit "ACK") then
        match py_int a2 with
        | None => lift int_error
        | Some n =>
            modifyM (on_replica (set_ack n now) id);;
            modifyM wake_waiters
        end
      else if bool_decide (str_lower a1 = lit "listening-port") then
        match py_int a2 with
        | None => lift int_error
        | Some n => modifyM (on_replica (set_port n) id)
        end
      else ret tt
  | _ => ret tt
  end.

(** The inner loop of [_read_acks]; [None]: it is still running after [fuel]
    rounds.  It returns the position up to which the buffer was parsed. *)
Fixpoint ack_loop (fuel : nat) (id : nat) (buf : bytes) (pos : Z) (now : float) : M exn Primary (option Z) :=
  let! parsed := lift (ReplStream.next_command buf pos) in
  match parsed with
  | None => ret (Some pos)
  | Some (args, pos) =>
      match fuel with
      | O => ret None
      | S f => ack_command id args now;; ack_loop f id buf pos now
      end
  end.

(** A piece of data of the replica arrived.  Commands that were written by
    [encode_command] take a byte or more each, so as many rounds as there are
    bytes are enough for them. *)
Definition read_acks (id : nat) (data : bytes) (now : float) : M exn Primary (option unit) :=
  let! p := getM in
  match dict_get id (pr_replicas p) with
  | None => ret (Some tt)
  | Some r =>
      let buf := cr_buf r ++ data in
      let! pos := ack_loop (length buf) id buf 0 now in
      match pos with
      | None => ret None
      | Some pos =>
          modifyM (on_replica (set_buf (py_slice pos (Z.of_nat (length buf)) buf)) id);;
          ret (Some tt)
      end
  end.

(** What ends [serve]: the replica closed the connection, or an error. *)
Definition serve_data (id : nat) (data : bytes) (now : float) : M exn Primary (option unit) :=
  match data with
  | [] => modifyM (serve_end id);; ret (Some tt)
  | _ => catchM (read_acks id data now) (fun _ => true) (fun x => modifyM (serve_end id);; raise x)
  end.
