(* ===== verification/ReplicaLink.v ===== *)
(** * The replica's side of replication (replication/replica.py)

    The link to the primary.  Its coroutine [_session] is cut at the awaits:
    [lk_phase] says what it waits for, and there is one operation for each
    thing that can arrive.  The link uses the engine through an interface. *)

From Stdlib Require Import String.
From S2P Require Import Prelude PyStr PyFloat Errors Codec Oracles Containers Eviction Store Snapshot.
From S2P Require Import Registry CmdServer Resp Engine ReplStream Primary Aof Manifest.
Local Close Scope string_scope.

(** ** Text *)

(** [str.isspace], and [str.split] at white space. *)
Definition is_text_space (c : Z) : bool := is_int_space c || ((28 <=? c) && (c <=? 31)).

Fixpoint split_text (word s : pystr) : list pystr :=
  match s with
  | [] => match word with [] => [] | _ => [reverse word] end
  | c :: s' =>
      if is_text_space c
      then match word with [] => split_text [] s' | _ => reverse word :: split_text [] s' end
      else split_text (c :: word) s'
  end.

(** [data.decode()]; [None] stands for [UnicodeDecodeError], a [ValueError]. *)
Definition decode_strict (data : bytes) : option pystr := utf8_strict (length data) data.

(** The number of bytes one replacement character stands for: the longest
    start of a sequence that could have been completed. *)
Definition second_ok (lead b : Z) : bool :=
  if lead =? 0xE0 then between 0xA0 0xBF b
  else if lead =? 0xED then between 0x80 0x9F b
  else if lead =? 0xF0 then between 0x90 0xBF b
  else if lead =? 0xF4 then between 0x80 0x8F b
  else is_cont b.
Definition bad_span (data : bytes) : nat :=
  match data with
  | lead :: second :: rest =>
      if between 0xE0 0xF4 lead && second_ok lead second then
        match rest with
        | third :: _ => if between 0xF0 0xF4 lead && is_cont third then 3 else 2
        | [] => 2
        end
      else 1
  | _ => 1
  end.

(** [data.decode(errors="replace")]. *)
Fixpoint decode_replace_fuel (fuel : nat) (data : bytes) : pystr :=
  match fuel, data with
  | S f, _ :: _ =>
      match decode_char data with
      | Some (c, n) => c :: decode_replace_fuel f (drop n data)
      | None => 0xFFFD :: decode_replace_fuel f (drop (bad_span data) data)
      end
  | _, _ => []
  end.
Definition decode_replace (data : bytes) : pystr := decode_replace_fuel (length data) data.

(** [repr(data)] of bytes. *)
Definition byte_repr (quote c : Z) : pystr :=
  if (c =? quote) || (c =? 92) then [92; c]
  else if c =? 9 then lit "\t" else if c =? 10 then lit "\n" else if c =? 13 then lit "\r"
  else if (c <? 32) || (127 <=? c) then lit "\x" ++ hex_text 2 c else [c].
Definition bytes_repr (data : bytes) : pystr :=
  let quote := if existsb (Z.eqb 39) data && negb (existsb (Z.eqb 34) data) then 34 else 39 in
  98 :: quote :: (data ≫= byte_repr quote) ++ [quote].

(** ** What the link uses of the engine *)
Class ReplicaEngine (D : Type) := {
  re_apply_replicated : pystr -> list PyArg -> M exn D unit;
  re_load_snapshot : list SnapshotRecord -> option exn -> M exn D Z
}.

#[export] Instance engine_replica `{Sizing} {P : Type} `{EvictionPolicy P} {L R : Type} `{Persistence L}
  `{ReplicationFeed R} : ReplicaEngine (World P Done (EngineEnv L R)) := {|
  re_apply_replicated := apply_replicated;
  re_load_snapshot := load_snapshot
|}.

(** ** [ReplicaLink] *)
Inductive LinkState := LConnect | LSync | LConnected.

(** What the session waits for: a connection, the answers of the handshake, the
    snapshot, or more of the stream. *)
Inductive Phase :=
| PIdle
| POk
| PLine
| PHeader (replid start : pystr)
| PPayload (replid start : pystr) (size : Z)
| PStream (buf : bytes).

Record Link := mkLink {
  lk_host : pystr;
  lk_port : Z;
  lk_listening_port : Z;
  lk_state : LinkState;
  lk_phase : Phase;
  lk_out : bytes;        (* written to this session's connection *)
  lk_last_io : float;
  full_syncs : Z;
  partial_syncs : Z;
  lk_running : bool      (* the task of [_run] *)
}.

Definition new_link (host : pystr) (port listening_port : Z) (now : float) : Link :=
  mkLink host port listening_port LConnect PIdle [] now 0 0 false.

Definition link_up (k : Link) : bool := match lk_state k with LConnected => true | _ => false end.

Definition set_link_state (s : LinkState) (k : Link) : Link :=
  mkLink (lk_host k) (lk_port k) (lk_listening_port k) s (lk_phase k) (lk_out k) (lk_last_io k)
    (full_syncs k) (partial_syncs k) (lk_running k).
Definition set_phase (ph : Phase) (k : Link) : Link :=
  mkLink (lk_host k) (lk_port k) (lk_listening_port k) (lk_state k) ph (lk_out k) (lk_last_io k)
    (full_syncs k) (partial_syncs k) (lk_running k).
Definition set_link_out (out : bytes) (k : Link) : Link :=
  mkLink (lk_host k) (lk_port k) (lk_listening_port k) (lk_state k) (lk_phase k) out (lk_last_io k)
    (full_syncs k) (partial_syncs k) (lk_running k).
Definition set_last_io (t : float) (k : Link) : Link :=
  mkLink (lk_host k) (lk_port k) (lk_listening_port k) (lk_state k) (lk_phase k) (lk_out k) t
    (full_syncs k) (partial_syncs k) (lk_running k).
Definition set_syncs (full partial : Z) (k : Link) : Link :=
  mkLink (lk_host k) (lk_port k) (lk_listening_port k) (lk_state k) (lk_phase k) (lk_out k) (lk_last_io k)
    full partial (lk_running k).
Definition set_running (b : bool) (k : Link) : Link :=
  mkLink (lk_host k) (lk_port k) (lk_listening_port k) (lk_state k) (lk_phase k) (lk_out k) (lk_last_io k)
    (full_syncs k) (partial_syncs k) b.

Definition start_link (k : Link) : Link := set_running true k.

(** [cancel]: the session is given up at its await. *)
Definition cancel_link (k : Link) : Link := set_link_state LConnect (set_phase PIdle (set_running false k)).

(** The engine, the node's position in the stream, and the link. *)
Record LinkWorld (D : Type) := mkLW { lw_data : D; lw_state : ReplicationState; lw_link : Link }.
Arguments mkLW {D}. Arguments lw_data {D}. Arguments lw_state {D}. Arguments lw_link {D}.

Section Link.
Context {D : Type} `{ReplicaEngine D}.
Abbreviation LM := (M exn (LinkWorld D)).

Definition on_engine {A} (c : M exn D A) : LM A :=
  fun w => let '(r, d) := c (lw_data w) in (r, mkLW d (lw_state w) (lw_link w)).
Definition upd_link (f : Link -> Link) : LM unit :=
  modifyM (fun w => mkLW (lw_data w) (lw_state w) (f (lw_link w))).
Definition upd_state (f : ReplicationState -> ReplicationState) : LM unit :=
  modifyM (fun w => mkLW (lw_data w) (f (lw_state w)) (lw_link w)).
Definition get_state : LM ReplicationState := readM lw_state.
Definition get_link : LM Link := readM lw_link.

Definition link_write (args : list PyArg) : LM unit :=
  let! raw := lift (encode_command args) in
  upd_link (fun k => set_link_out (lk_out k ++ raw) k).

Definition announce_port : LM unit :=
  let! k := get_link in
  link_write [AStr (lit "REPLCONF"); AStr (lit "listening-port"); AInt (lk_listening_port k)].

(** The connection is there: the handshake starts. *)
Definition session_begin : LM unit :=
  upd_link (set_link_out []);;
  upd_link (set_link_state LSync);;
  announce_port;;
  upd_link (set_phase POk).

(** What the replica asks to continue from. *)
Definition psync_args (s : ReplicationState) : pystr * Z :=
  if (0 <? rs_offset s) || negb (bool_decide (rs_replid2 s = NO_REPLID))
  then (rs_replid s, rs_offset s) else (lit "?", -1).

(** [_expect_ok], and the request that follows it. *)
Definition expect_ok (line : bytes) : LM unit :=
  if negb (starts_with (lit "+OK") line)
  then raise (new_exn ProtocolError (lit "handshake refused: " ++ strip is_text_space (decode_replace line)) None)
  else
    let! s := get_state in
    let '(replid, offset) := psync_args s in
    link_write [AStr (lit "PSYNC"); AStr replid; AInt offset];;
    upd_link (set_phase PLine).

(** The handshake is over. *)
Definition enter_stream (now : float) : LM unit :=
  upd_link (set_link_state LConnected);;
  upd_link (set_last_io now);;
  announce_port;;
  upd_link (set_phase (PStream [])).

(** The answer to PSYNC. *)
Definition psync_line (raw : bytes) (now : float) : LM unit :=
  match decode_strict raw with
  | None => raise (err ValueError "invalid utf-8")
  | Some text =>
      let line := strip is_text_space text in
      if starts_with (lit "+FULLRESYNC") line then
        match split_text [] line with
        | [_; new_replid; start] => upd_link (set_phase (PHeader new_replid start))
        | _ => raise (err ValueError "wrong number of values to unpack")
        end
      else if starts_with (lit "+CONTINUE") line then
        let! s := get_state in
        (match split_text [] line with
         | _ :: replid :: _ =>
             if bool_decide (replid = rs_replid s) then ret tt
             else upd_state (fun s => mkRState (rs_backlog s) replid (rs_replid s) (rs_offset s))
         | _ => ret tt
         end);;
        upd_link (fun k => set_syncs (full_syncs k) (partial_syncs k + 1) k);;
        enter_stream now
      else raise (new_exn ProtocolError (lit "PSYNC refused: " ++ line) None)
  end.

(** The header of the snapshot. *)
Definition snapshot_header (new_replid start : pystr) (header : bytes) : LM unit :=
  if negb (starts_with (lit "$") header)
  then raise (new_exn ProtocolError (lit "expected the snapshot, got " ++ bytes_repr (take 20 header)) None)
  else
    match py_int_bytes (drop 1 header) with
    | None => lift int_error
    | Some size =>
        if size <? 0 then raise (err ValueError "readexactly size can not be less than zero")
        else upd_link (set_phase (PPayload new_replid start size))
    end.

(** The snapshot itself. *)
Definition snapshot_payload (new_replid start : pystr) (payload : bytes) (now : float) : LM unit :=
  let '(records, failure) := decode_snapshot payload (lit "full resync") in
  let! keys := on_engine (re_load_snapshot records failure) in
  match py_int start with
  | None => lift int_error
  | Some start =>
      upd_state (fun s => mkRState (ReplStream.reset start (rs_backlog s)) new_replid NO_REPLID (-1));;
      upd_link (fun k => set_syncs (full_syncs k + 1) (partial_syncs k) k);;
      enter_stream now
  end.

(** [REPLCONF ACK]. *)
Definition send_ack : LM unit :=
  let! s := get_state in
  link_write [AStr (lit "REPLCONF"); AStr (lit "ACK"); AInt (rs_offset s)].

Definition link_apply (args : list pystr) : LM unit :=
  match args with
  | [] => raise (err IndexError "list index out of range")
  | a0 :: rest =>
      let name := str_upper a0 in
      if bool_decide (name = lit "PING") then ret tt
      else if bool_decide (name = lit "REPLCONF") then
        match rest with
        | a1 :: _ => if bool_decide (str_upper a1 = lit "GETACK") then send_ack else ret tt
        | [] => ret tt
        end
      else catchM (on_engine (re_apply_replicated a0 (AStr <$> rest)))
             (fun x => isinstance x KVStoreError) (fun _ => ret tt)
  end.

(** The inner loop of [_stream]; [None]: still running after [fuel] rounds. *)
Fixpoint stream_loop (fuel : nat) (buf : bytes) (pos : Z) : LM (option Z) :=
  let! parsed := lift (ReplStream.next_command buf pos) in
  match parsed with
  | None => ret (Some pos)
  | Some (args, stop) =>
      match fuel with
      | O => ret None
      | S f =>
          link_apply args;;
          upd_state (fun s => set_backlog (append (py_slice pos stop buf) (rs_backlog s)) s);;
          stream_loop f buf stop
      end
  end.

(** A piece of the stream arrived ([buf] was received before). *)
Definition stream_data (buf data : bytes) (now : float) : LM (option unit) :=
  match data with
  | [] => raise (err EOFError "primary closed the link")
  | _ =>
      upd_link (set_last_io now);;
      let buf := buf ++ data in
      let! pos := stream_loop (length buf) buf 0 in
      match pos with
      | None => ret None
      | Some pos => upd_link (set_phase (PStream (py_slice pos (Z.of_nat (length buf)) buf)));; ret (Some tt)
      end
  end.

(** The errors after which [_run] connects again. *)
Definition run_catches (x : exn) : bool :=
  isinstance x OSError || isinstance x TimeoutError || isinstance x EOFError || isinstance x ValueError ||
  isinstance x KVStoreError.

(** An error ends the session; one that [_run] does not catch ends the task. *)
Definition session_failed (x : exn) (k : Link) : Link :=
  if run_catches x then set_link_state LConnect (set_phase PIdle k)
  else set_running false (set_phase PIdle k).
End Link.
