(* ===== verification/HashRing.v ===== *)
(** * The hash ring (cluster/hash_ring.py)

    First MD5 (hashlib.md5), the hash function the ring uses, as in RFC 1321 on
    words of 32 bits; then the ring of virtual nodes, and that a new group takes
    keys only for itself. *)

From Stdlib Require Import String.
From S2P Require Import Prelude PyStr Codec Errors Snapshot.
Local Close Scope string_scope.

Definition word (z : Z) : Z := z mod 2 ^ 32.
Definition rotl (x n : Z) : Z := word (Z.lor (Z.shiftl x n) (Z.shiftr x (32 - n))).

(** The shift of each of the 64 steps. *)
Definition SHIFTS : list Z :=
  concat (repeat [7; 12; 17; 22] 4) ++ concat (repeat [5; 9; 14; 20] 4) ++
  concat (repeat [4; 11; 16; 23] 4) ++ concat (repeat [6; 10; 15; 21] 4).

(** The integer parts of [2^32 * |sin(i + 1)|]. *)
Definition SINES : list Z :=
  [0xd76aa478; 0xe8c7b756; 0x242070db; 0xc1bdceee; 0xf57c0faf; 0x4787c62a; 0xa8304613; 0xfd469501;
   0x698098d8; 0x8b44f7af; 0xffff5bb1; 0x895cd7be; 0x6b901122; 0xfd987193; 0xa679438e; 0x49b40821;
   0xf61e2562; 0xc040b340; 0x265e5a51; 0xe9b6c7aa; 0xd62f105d; 0x02441453; 0xd8a1e681; 0xe7d3fbc8;
   0x21e1cde6; 0xc33707d6; 0xf4d50d87; 0x455a14ed; 0xa9e3e905; 0xfcefa3f8; 0x676f02d9; 0x8d2a4c8a;
   0xfffa3942; 0x8771f681; 0x6d9d6122; 0xfde5380c; 0xa4beea44; 0x4bdecfa9; 0xf6bb4b60; 0xbebfbc70;
   0x289b7ec6; 0xeaa127fa; 0xd4ef3085; 0x04881d05; 0xd9d4d039; 0xe6db99e5; 0x1fa27cf8; 0xc4ac5665;
   0xf4292244; 0x432aff97; 0xab9423a7; 0xfc93a039; 0x655b59c3; 0x8f0ccc92; 0xffeff47d; 0x85845dd1;
   0x6fa87e4f; 0xfe2ce6e0; 0xa3014314; 0x4e0811a1; 0xf7537e82; 0xbd3af235; 0x2ad7d2bb; 0xeb86d391].

(** The function and the message word of step [i]. *)
Definition mix (i : nat) (b c d : Z) : Z * nat :=
  if (i <? 16)%nat then (Z.lor (Z.land b c) (Z.land (Z.lxor b (2 ^ 32 - 1)) d), i)
  else if (i <? 32)%nat then (Z.lor (Z.land d b) (Z.land (Z.lxor d (2 ^ 32 - 1)) c), ((5 * i + 1) mod 16)%nat)
  else if (i <? 48)%nat then (Z.lxor b (Z.lxor c d), ((3 * i + 5) mod 16)%nat)
  else (Z.lxor c (Z.lor b (Z.lxor d (2 ^ 32 - 1))), ((7 * i) mod 16)%nat).

Definition step (words : list Z) (i : nat) (s : Z * Z * Z * Z) : Z * Z * Z * Z :=
  let '(a, b, c, d) := s in
  let '(f, g) := mix i b c d in
  let x := word (a + f + nth i SINES 0 + nth g words 0) in
  (d, word (b + rotl x (nth i SHIFTS 0)), b, c).

Fixpoint little_endian (l : bytes) : Z :=
  match l with [] => 0 | b :: l' => b + 256 * little_endian l' end.
Fixpoint le_bytes (n : nat) (z : Z) : bytes :=
  match n with O => [] | S n' => z mod 256 :: le_bytes n' (z / 256) end.

Fixpoint words_of (n : nat) (block : bytes) : list Z :=
  match n with O => [] | S n' => little_endian (take 4 block) :: words_of n' (drop 4 block) end.

Definition compress (block : bytes) (s : Z * Z * Z * Z) : Z * Z * Z * Z :=
  let '(a0, b0, c0, d0) := s in
  let words := words_of 16 block in
  let '(a, b, c, d) := fold_left (fun s i => step words i s) (seq 0 64) s in
  (word (a0 + a), word (b0 + b), word (c0 + c), word (d0 + d)).

Fixpoint blocks (n : nat) (data : bytes) (s : Z * Z * Z * Z) : Z * Z * Z * Z :=
  match n with O => s | S n' => blocks n' (drop 64 data) (compress (take 64 data) s) end.

(** A one bit, zeros up to 56 modulo 64 bytes, and the length in bits. *)
Definition padded (data : bytes) : bytes :=
  let n := Z.of_nat (length data) in
  data ++ [128] ++ repeat 0 (Z.to_nat ((55 - n) mod 64)) ++ le_bytes 8 (8 * n).

Definition md5 (data : bytes) : bytes :=
  let p := padded data in
  let '(a, b, c, d) := blocks (length p / 64) p (0x67452301, 0xefcdab89, 0x98badcfe, 0x10325476) in
  le_bytes 4 a ++ le_bytes 4 b ++ le_bytes 4 c ++ le_bytes 4 d.

(** * Consistent hashing (cluster/hash_ring.py)

    The ring of virtual nodes and the owner of a key; then: the owner is the
    first point clockwise of the key's hash, so adding a node takes keys only
    for itself and removing one gives away only its own keys. *)

(** [hash_slot_key]: the hash tag of a key, or the whole key. *)
Definition hash_slot_key (key : pystr) : pystr :=
  match find_char 123 key with
  | Some start =>
      match find_from 125 (start + 1) key with
      | Some stop => if bool_decide (start + 1 < stop)%nat then slice (start + 1) stop key else key
      | None => key
      end
  | None => key
  end.

Definition is_surrogate : Z -> bool := between 0xD800 0xDFFF.

(** [value.encode()], without an error handler. *)
Definition encode_strict (value : pystr) : result exn bytes :=
  if existsb is_surrogate value then Raise (err ValueError "surrogates not allowed") else encode_text value.

Fixpoint big_endian (acc : Z) (l : bytes) : Z :=
  match l with [] => acc | b :: l' => big_endian (acc * 256 + b) l' end.

(** [_hash]. *)
Definition ring_hash (value : pystr) : result exn Z :=
  match encode_strict value with
  | Ok raw => Ok (big_endian 0 (take 8 (md5 raw)))
  | Raise x => Raise x
  end.

(** [bisect.bisect]: [fuel] is at least the length of the range. *)
Fixpoint bisect_loop (fuel : nat) (l : list Z) (x : Z) (lo hi : nat) : nat :=
  match fuel with
  | O => lo
  | S f =>
      if (lo <? hi)%nat then
        let mid := ((lo + hi) / 2)%nat in
        if x <? nth mid l 0 then bisect_loop f l x lo mid else bisect_loop f l x (S mid) hi
      else lo
  end.
Definition bisect (l : list Z) (x : Z) : nat := bisect_loop (length l) l x 0 (length l).

(** [bisect.insort]. *)
Definition insort (x : Z) (l : list Z) : list Z := let i := bisect l x in take i l ++ x :: drop i l.

(** ** [ConsistentHashRing] *)
Record Ring := mkRing {
  virtual_nodes : Z;
  rg_owners : list (Z * pystr);
  rg_points : list Z;
  rg_nodes : list pystr
}.

Definition ring_len (r : Ring) : Z := Z.of_nat (length (rg_nodes r)).
Definition ring_contains (node : pystr) (r : Ring) : bool := bool_decide (node ∈ rg_nodes r).

(** One virtual node; a point that is taken is skipped. *)
Definition add_point (node : pystr) (i : Z) : M exn Ring unit :=
  let! point := lift (ring_hash (node ++ 35 :: str_of_int i)) in
  modifyM (fun r =>
    if dict_mem point (rg_owners r) then r
    else mkRing (virtual_nodes r) (dict_set point node (rg_owners r)) (insort point (rg_points r)) (rg_nodes r)).

(** [repr(text)] of text that has no quote and nothing to escape. *)
Definition quoted (text : pystr) : pystr := 39 :: text ++ [39].

Definition add_node (node : pystr) : M exn Ring unit :=
  let! r := getM in
  if ring_contains node r
  then raise (new_exn ValueError (lit "node " ++ quoted node ++ lit " is already on the ring") None)
  else
    putM (mkRing (virtual_nodes r) (rg_owners r) (rg_points r) (rg_nodes r ++ [node]));;
    forM_list (fun i => add_point node (Z.of_nat i)) (seq 0 (Z.to_nat (virtual_nodes r))).

Definition new_ring (nodes : list pystr) (vnodes : Z) : result exn Ring :=
  if vnodes <=? 0 then Raise (err ValueError "virtual_nodes must be positive")
  else
    match forM_list add_node nodes (mkRing vnodes [] [] []) with
    | (Ok _, r) => Ok r
    | (Raise x, _) => Raise x
    end.

Definition owner_of (p : Z) (r : Ring) : pystr := default [] (dict_get p (rg_owners r)).

Definition remove_node (node : pystr) : M exn Ring unit :=
  let! r := getM in
  if negb (ring_contains node r) then raise (new_exn KeyError node None)
  else
    putM (mkRing (virtual_nodes r)
            (List.filter (fun '(_, n) => negb (bool_decide (n = node))) (rg_owners r))
            (List.filter (fun p => negb (bool_decide (owner_of p r = node))) (rg_points r))
            (List.filter (fun n => negb (bool_decide (n = node))) (rg_nodes r))).

Definition get_node (key : pystr) (r : Ring) : result exn pystr :=
  match rg_points r with
  | [] => Raise (err LookupError "the hash ring has no nodes")
  | _ =>
      match ring_hash key with
      | Raise x => Raise x
      | Ok h =>
          let idx := bisect (rg_points r) h in
          let idx := if (idx =? length (rg_points r))%nat then 0%nat else idx in
          match rg_points r !! idx with
          | Some p => match dict_get p (rg_owners r) with
                      | Some node => Ok node
                      | None => Raise (err KeyError "")
                      end
          | None => Raise (err IndexError "list index out of range")
          end
      end
  end.

(** ** The binary search *)
Lemma sorted_lookup l i j a b :
  StronglySorted Z.lt l -> (i < j)%nat -> l !! i = Some a -> l !! j = Some b -> a < b.
Proof.
  intros Hs Hij Ha Hb. rewrite <- (take_drop j l) in Hs.
  eapply StronglySorted_app_1_elem_of; [exact Hs| |].
  - apply (list_elem_of_lookup_2 _ i). by rewrite lookup_take_lt.
  - apply (list_elem_of_lookup_2 _ 0). by rewrite lookup_drop, Nat.add_0_r.
Qed.

Lemma bisect_loop_spec f l x lo hi :
  StronglySorted Z.lt l -> (lo <= hi <= length l)%nat -> (hi - lo <= f)%nat ->
  (forall i p, (i < lo)%nat -> l !! i = Some p -> p <= x) ->
  (forall i p, (hi <= i)%nat -> l !! i = Some p -> x < p) ->
  let n := bisect_loop f l x lo hi in
  (n <= length l)%nat /\ (forall i p, (i < n)%nat -> l !! i = Some p -> p <= x) /\
  (forall i p, (n <= i)%nat -> l !! i = Some p -> x < p).
Proof.
  intros Hs. revert lo hi. induction f as [|f IH]; intros lo hi Hb Hf Hlo Hhi; cbn [bisect_loop].
  { conj; [lia|done|]. intros i p Hi. apply Hhi. lia. }
  destruct (Nat.ltb_spec lo hi) as [Hlt|Hge]; [|conj; [lia|done|]; intros i p Hi; apply Hhi; lia].
  set (mid := ((lo + hi) / 2)%nat). assert (Hmid : (lo <= mid < hi)%nat).
  { subst mid. split; [apply Nat.div_le_lower_bound; lia|apply Nat.Div0.div_lt_upper_bound; lia]. }
  destruct (lookup_lt_is_Some_2 l mid ltac:(lia)) as [m Hm]. rewrite (nth_lookup_Some l mid 0 m Hm).
  destruct (Z.ltb_spec x m) as [Hx|Hx]; apply IH; try lia; try done.
  - intros i p Hi Hp. destruct (decide (i = mid)) as [->|]; [by simplify_eq|].
    pose proof (sorted_lookup l mid i m p Hs ltac:(lia) Hm Hp). lia.
  - intros i p Hi Hp. destruct (decide (i = mid)) as [->|]; [by simplify_eq|].
    pose proof (sorted_lookup l i mid p m Hs ltac:(lia) Hp Hm). lia.
Qed.

Lemma bisect_spec l x :
  StronglySorted Z.lt l -> (bisect l x <= length l)%nat /\
  (forall i p, (i < bisect l x)%nat -> l !! i = Some p -> p <= x) /\
  (forall i p, (bisect l x <= i)%nat -> l !! i = Some p -> x < p).
Proof.
  intros Hs. apply bisect_loop_spec; [done|lia|lia|lia|].
  intros i p Hi Hp. apply lookup_lt_Some in Hp. lia.
Qed.

(** ** The ring's invariant *)
Definition ring_ok (r : Ring) : Prop :=
  StronglySorted Z.lt (rg_points r) /\ (forall p, p ∈ rg_points r <-> p ∈ (rg_owners r).*1) /\
  dict_wf (rg_owners r) /\ (forall p n, dict_get p (rg_owners r) = Some n -> n ∈ rg_nodes r).

Lemma insort_sorted x l :
  StronglySorted Z.lt l -> x ∉ l -> StronglySorted Z.lt (insort x l) /\ forall y, y ∈ insort x l <-> y = x \/ y ∈ l.
Proof.
  intros Hs Hx. destruct (bisect_spec l x Hs) as (Hn & Hlo & Hhi). unfold insort.
  set (n := bisect l x) in *. clearbody n. split.
  - apply StronglySorted_app. conj.
    + intros a b (i & Ha)%list_elem_of_lookup Hb. assert (Hi : (i < n)%nat).
      { apply lookup_lt_Some in Ha. rewrite length_take in Ha. lia. }
      rewrite lookup_take_lt in Ha by done. pose proof (Hlo i a Hi Ha) as Hax.
      assert (a <> x) by (intros ->; apply Hx; by eapply list_elem_of_lookup_2).
      apply elem_of_cons in Hb as [->|(j & Hb)%list_elem_of_lookup]; [lia|].
      rewrite lookup_drop in Hb. pose proof (Hhi _ b (Nat.le_add_r n j) Hb). lia.
    + rewrite <- (take_drop n l) in Hs. by apply StronglySorted_app_1_l in Hs.
    + constructor; [rewrite <- (take_drop n l) in Hs; by apply StronglySorted_app_1_r in Hs|].
      apply Forall_forall. intros b (j & Hb)%list_elem_of_lookup. rewrite lookup_drop in Hb.
      exact (Hhi _ b (Nat.le_add_r n j) Hb).
  - intros y. rewrite elem_of_app, elem_of_cons. rewrite <- (take_drop n l) at 3. rewrite elem_of_app. tauto.
Qed.

(** Points are only added, and what is added belongs to [node]. *)
Definition grows (node : pystr) (r r' : Ring) : Prop :=
  ring_ok r' /\ rg_nodes r' = rg_nodes r /\ virtual_nodes r' = virtual_nodes r /\
  (forall p n, dict_get p (rg_owners r) = Some n -> dict_get p (rg_owners r') = Some n) /\
  (forall p n, dict_get p (rg_owners r') = Some n -> dict_get p (rg_owners r) = Some n \/ n = node).

Lemma grows_trans node a b c : grows node a b -> grows node b c -> grows node a c.
Proof.
  intros (_ & N1 & V1 & G1 & O1) (H & N2 & V2 & G2 & O2). unfold grows. conj; [done|congruence|congruence|auto|].
  intros p n Hp. apply O2 in Hp as [Hp| ->]; [by apply O1|by right].
Qed.

Lemma add_point_grows node i r :
  ring_ok r -> node ∈ rg_nodes r -> grows node r (add_point node i r).2.
Proof.
  intros Hr Hn. assert (Hrefl : grows node r r) by (unfold grows; conj; auto).
  unfold add_point, bindM, lift, modifyM.
  destruct (ring_hash _) as [p|x]; [|done]. simpl. destruct (dict_mem p (rg_owners r)) eqn:Hm; [done|].
  assert (Hp : p ∉ (rg_owners r).*1).
  { intros Hin. apply dict_mem_true in Hin. congruence. }
  destruct Hr as (Hs & He & Hw & Ho). unfold grows, ring_ok. cbn [rg_points rg_owners rg_nodes virtual_nodes].
  destruct (insort_sorted p (rg_points r) Hs) as [Hs' Hin]; [by rewrite He|]. conj; try done.
  - intros q. rewrite Hin, dict_keys_set, He. done.
  - by apply dict_set_wf.
  - intros q n. rewrite dict_get_set. case_decide; [intros [= <-]; done|apply Ho].
  - intros q n Hq. rewrite dict_get_set. case_decide as E; [|done]. subst q.
    apply dict_get_Some_elem in Hq. exfalso. apply Hp. by apply (list_elem_of_fmap_2 fst) in Hq.
  - intros q n. rewrite dict_get_set. case_decide; [intros [= <-]; by right|by left].
Qed.

Lemma add_points_grow node l r :
  ring_ok r -> node ∈ rg_nodes r -> grows node r (forM_list (fun i => add_point node (Z.of_nat i)) l r).2.
Proof.
  revert r. induction l as [|i l IH]; intros r Hr Hn; [unfold grows; conj; auto|]. cbn [forM_list]. unfold bindM.
  pose proof (add_point_grows node (Z.of_nat i) r Hr Hn) as H1.
  destruct (add_point node (Z.of_nat i) r) as [[u|x] r1]; [|done]. eapply grows_trans; [exact H1|].
  destruct H1 as (Hr1 & Hn1 & _). apply IH; [done|by change (rg_nodes r1 = rg_nodes r) in Hn1; rewrite Hn1].
Qed.

(** Adding a node, whether it returns or raises halfway. *)
Lemma add_node_grows node r :
  ring_ok r ->
  let r' := (add_node node r).2 in
  ring_ok r' /\ (forall p n, dict_get p (rg_owners r) = Some n -> dict_get p (rg_owners r') = Some n) /\
  (forall p n, dict_get p (rg_owners r') = Some n -> dict_get p (rg_owners r) = Some n \/ n = node).
Proof.
  intros Hr. unfold add_node, bindM, getM, putM, raise. destruct (ring_contains node r); [conj; auto|].
  set (r1 := mkRing _ _ _ (rg_nodes r ++ [node])). assert (H1 : ring_ok r1).
  { destruct Hr as (Hs & He & Hw & Ho). unfold ring_ok. subst r1. cbn [rg_points rg_owners rg_nodes].
    conj; try done. intros p n Hp. apply elem_of_app. left. by eapply Ho. }
  destruct (add_points_grow node (seq 0 (Z.to_nat (virtual_nodes r))) r1 H1) as (H2 & _ & _ & G & O).
  { subst r1. cbn [rg_nodes]. set_solver. }
  done.
Qed.

Lemma new_ring_ok nodes vn r : new_ring nodes vn = Ok r -> ring_ok r.
Proof.
  unfold new_ring. destruct (vn <=? 0); [done|].
  assert (H0 : ring_ok (mkRing vn [] [] [])).
  { unfold ring_ok. cbn. conj; [constructor|done|constructor|done]. }
  revert H0. generalize (mkRing vn [] [] []). induction nodes as [|n nodes IH]; intros r0 H0; [by intros [= <-]|].
  cbn [forM_list]. unfold bindM. destruct (add_node_grows n r0 H0) as (H1 & _).
  destruct (add_node n r0) as [[u|x] r1]; [|done]. by apply IH.
Qed.

Lemma dict_get_filter {V} (f : V -> bool) p (d : list (Z * V)) :
  dict_wf d -> dict_get p (List.filter (fun '(_, v) => f v) d) =
    match dict_get p d with Some v => if f v then Some v else None | None => None end.
Proof.
  intros Hw. induction d as [|[q v] d IH]; [done|]. apply NoDup_cons in Hw as [Hq Hw].
  cbn [List.filter dict_get]. destruct (f v) eqn:Ef; cbn [dict_get]; case_decide as Eq; subst; rewrite ?Ef; auto.
  rewrite IH by done. destruct (dict_get q d) as [v'|] eqn:E; [|done].
  exfalso. apply Hq. apply dict_get_Some_elem in E. by apply (list_elem_of_fmap_2 fst) in E.
Qed.

Lemma filter_sorted (f : Z -> bool) l : StronglySorted Z.lt l -> StronglySorted Z.lt (List.filter f l).
Proof.
  induction 1 as [|a l Hs IH Ha]; [constructor|]. cbn [List.filter]. destruct (f a); [|done].
  constructor; [done|]. rewrite Forall_forall in Ha |- *. intros b Hb. apply Ha.
  apply list_elem_of_In, filter_In in Hb as [Hb _]. by apply list_elem_of_In.
Qed.

(** Removing a node takes its own points away and no others. *)
Lemma remove_node_shrinks node r :
  ring_ok r ->
  let r' := (remove_node node r).2 in
  ring_ok r' /\ (forall p n, dict_get p (rg_owners r) = Some n -> n <> node -> dict_get p (rg_owners r') = Some n) /\
  (forall p, p ∈ rg_points r' -> p ∈ rg_points r).
Proof.
  intros Hr. unfold remove_node, bindM, getM. destruct (ring_contains node r); [|conj; auto].
  destruct Hr as (Hs & He & Hw & Ho). cbn [negb]. unfold putM. cbn [snd].
  assert (Hf := dict_get_filter (fun n : pystr => negb (bool_decide (n = node)))).
  assert (Hpts : forall q, q ∈ List.filter (fun p => negb (bool_decide (owner_of p r = node))) (rg_points r) <->
    q ∈ rg_points r /\ owner_of q r <> node).
  { intros q. by rewrite list_elem_of_In, filter_In, <- list_elem_of_In, negb_true_iff, bool_decide_eq_false. }
  unfold ring_ok. cbn [rg_points rg_owners rg_nodes]. conj.
  - by apply filter_sorted.
  - intros p. rewrite Hpts, He, <- !dict_get_is_Some, Hf by done. unfold owner_of.
    destruct (dict_get p (rg_owners r)) as [n|]; simpl; [|by split; [intros [[? [=]] _]|intros [? [=]]]].
    case_bool_decide; simpl; split; [by intros [_ []]|by intros [? [=]]|by eexists|by split; eauto].
  - clear -Hw. induction (rg_owners r) as [|[q v] d IH]; [done|]. apply NoDup_cons in Hw as [Hq Hw].
    cbn [List.filter]. case_bool_decide; simpl; [by apply IH|]. apply NoDup_cons. split; [|by apply IH].
    intros Hin. apply Hq. apply list_elem_of_fmap in Hin as ([q' v'] & -> & Hin).
    apply list_elem_of_In, filter_In in Hin as [Hin _]. apply list_elem_of_In in Hin.
    by apply (list_elem_of_fmap_2 fst) in Hin.
  - intros p n. rewrite Hf by done. destruct (dict_get p (rg_owners r)) as [m|] eqn:Em; [|done].
    case_bool_decide as Hb; [done|]. intros [= <-]. apply list_elem_of_In, filter_In.
    split; [apply list_elem_of_In; by eapply Ho|by rewrite bool_decide_false].
  - intros p n Hp Hn. rewrite Hf, Hp by done. by rewrite bool_decide_false.
  - intros p Hp. apply Hpts in Hp. tauto.
Qed.

(** ** The owner of a key *)

(** [p] is the first point after [h], or the first of all if none is after it. *)
Definition clockwise (points : list Z) (h p : Z) : Prop :=
  p ∈ points /\
  ((h < p /\ forall q, q ∈ points -> h < q -> p <= q) \/
   ((forall q, q ∈ points -> q <= h) /\ forall q, q ∈ points -> p <= q)).

Lemma clockwise_unique points h p q : clockwise points h p -> clockwise points h q -> p = q.
Proof.
  intros (Hp & [(H1 & H2)|(H1 & H2)]) (Hq & [(H3 & H4)|(H3 & H4)]).
  - pose proof (H2 q Hq H3). pose proof (H4 p Hp H1). lia.
  - pose proof (H3 p Hp). lia.
  - pose proof (H1 q Hq). lia.
  - pose proof (H2 q Hq). pose proof (H4 p Hp). lia.
Qed.

(** In a smaller ring that still has it, the first point is the same. *)
Lemma clockwise_subset points points' h p :
  clockwise points' h p -> (forall q, q ∈ points -> q ∈ points') -> p ∈ points -> clockwise points h p.
Proof.
  intros (_ & H) Hsub Hp. split; [done|]. destruct H as [(H1 & H2)|(H1 & H2)]; [left|right]; split; auto.
Qed.

Lemma bisect_clockwise points h :
  StronglySorted Z.lt points -> points <> [] ->
  let idx := bisect points h in
  exists p, points !! (if (idx =? length points)%nat then 0%nat else idx) = Some p /\ clockwise points h p.
Proof.
  intros Hs Hne idx. destruct (bisect_spec points h Hs) as (Hn & Hlo & Hhi). fold idx in Hn, Hlo, Hhi. clearbody idx.
  assert (Hfirst : forall p q i, points !! i = Some p -> q ∈ points ->
    (forall j, (j < i)%nat -> points !! j <> Some q) -> p <= q).
  { intros p q i Hp (j & Hq)%list_elem_of_lookup Hj. destruct (decide (i = j)) as [->|]; [simplify_eq; lia|].
    destruct (decide (j < i)%nat) as [Hlt|Hge]; [by destruct (Hj j Hlt)|].
    pose proof (sorted_lookup points i j p q Hs ltac:(lia) Hp Hq). lia. }
  destruct (Nat.eqb_spec idx (length points)) as [E|E].
  - destruct points as [|p points]; [done|]. exists p. split; [done|]. split; [set_solver|]. right. split.
    + intros q (j & Hq)%list_elem_of_lookup. apply (Hlo j); [|done]. apply lookup_lt_Some in Hq. lia.
    + intros q Hq. apply (Hfirst p q 0%nat); [done|done|lia].
  - destruct (lookup_lt_is_Some_2 points idx ltac:(lia)) as [p Hp]. exists p. split; [done|].
    split; [by eapply list_elem_of_lookup_2|]. left. split; [by apply (Hhi idx)|].
    intros q Hq Hlt. apply (Hfirst p q idx); [done|done|]. intros j Hj Hjq. pose proof (Hlo j q Hj Hjq). lia.
Qed.

Lemma get_node_spec r key n :
  ring_ok r ->
  get_node key r = Ok n <->
  exists h p, ring_hash key = Ok h /\ clockwise (rg_points r) h p /\ dict_get p (rg_owners r) = Some n.
Proof.
  intros (Hs & He & Hw & Ho). unfold get_node. destruct (rg_points r) as [|p0 ps] eqn:Ep.
  { split; [done|]. intros (h & p & _ & (Hp & _) & _). by apply not_elem_of_nil in Hp. }
  rewrite <- Ep in *. destruct (ring_hash key) as [h|x] eqn:Eh; [|split; [done|by intros (h & p & [=] & _)]].
  destruct (bisect_clockwise (rg_points r) h Hs) as (p & Hp & Hc); [by rewrite Ep|]. cbv zeta. rewrite Hp.
  assert (Hin : is_Some (dict_get p (rg_owners r))) by (apply dict_get_is_Some, He, Hc).
  destruct Hin as [m Hm]. rewrite Hm. split.
  - intros [= <-]. by exists h, p.
  - intros (h' & p' & [= <-] & Hc' & Hp'). rewrite (clockwise_unique _ _ _ _ Hc' Hc) in Hp'. congruence.
Qed.

Lemma points_owned r p : ring_ok r -> p ∈ rg_points r <-> is_Some (dict_get p (rg_owners r)).
Proof. intros (_ & He & _). rewrite dict_get_is_Some. apply He. Qed.

(** C15. Consistent hashing.  A key is owned by the node of the first point
    clockwise of its hash, a node of the ring.  When a node is added to a ring
    (also when its points collide with others, or its name cannot be hashed) a
    key keeps its owner or goes to the new node; when a node is removed, every
    key it did not own keeps its owner. *)
Theorem ring_moves_few_keys nodes vn r node key owner :
  new_ring nodes vn = Ok r -> get_node key r = Ok owner ->
  owner ∈ rg_nodes r /\
  (exists h p, ring_hash key = Ok h /\ clockwise (rg_points r) h p /\ owner_of p r = owner) /\
  (forall owner', get_node key (add_node node r).2 = Ok owner' -> owner' = owner \/ owner' = node) /\
  (owner <> node -> get_node key (remove_node node r).2 = Ok owner).
Proof.
  intros Hnew%new_ring_ok Hg. pose proof Hg as Hg'. apply get_node_spec in Hg' as (h & p & Hh & Hc & Hp); [|done].
  pose proof Hnew as (Hs & He & Hw & Ho). conj.
  - by eapply Ho.
  - exists h, p. unfold owner_of. by rewrite Hp.
  - intros owner'. destruct (add_node_grows node r Hnew) as (Hok & Hkeep & Honly).
    intros (h' & p' & Hh' & Hc' & Hp')%get_node_spec; [|done]. assert (h' = h) as -> by congruence.
    apply Honly in Hp' as [Hp'| ->]; [left|by right].
    assert (p' = p) as ->; [|congruence]. eapply clockwise_unique; [|exact Hc].
    eapply clockwise_subset; [exact Hc'| |by apply points_owned; eauto].
    intros q Hq. apply points_owned in Hq as [m Hm]; [|done]. apply points_owned; eauto.
  - intros Hne. destruct (remove_node_shrinks node r Hnew) as (Hok & Hkeep & Hsub).
    apply get_node_spec; [done|]. exists h, p. conj; [done| |by apply Hkeep].
    eapply clockwise_subset; [exact Hc|exact Hsub|]. apply points_owned; eauto.
Qed.

Definition three_nodes : list pystr := [lit "shard-1"; lit "shard-2"; lit "shard-3"].
Definition sample_ring : Ring :=
  match new_ring three_nodes 2 with Ok r => r | Raise _ => mkRing 0 [] [] [] end.
Definition sample_owner : pystr :=
  match get_node (lit "user:1") sample_ring with Ok n => n | Raise _ => [] end.

Lemma ring_moves_few_keys_witness :
  sample_owner = lit "shard-3" /\
  get_node (lit "user:1") (add_node (lit "shard-4") sample_ring).2 = Ok (lit "shard-4") /\
  get_node (lit "user:1") (remove_node (lit "shard-1") sample_ring).2 = Ok sample_owner.
Proof.
  split; [vm_compute; reflexivity|]. split; [vm_compute; reflexivity|].
  apply (ring_moves_few_keys three_nodes 2 sample_ring (lit "shard-1") (lit "user:1") sample_owner);
    [vm_compute; reflexivity|vm_compute; reflexivity|]. vm_compute. discriminate.
Defined.
