(* ===== verification/Metrics.v ===== *)
(** * Metrics (observability/metrics.py)

    Histograms, per-command statistics and the text a scrape returns; what is
    read of the process itself is not here.  Then: a histogram's buckets always
    add up to its count, so the cumulative counts are ordered and end in it. *)

From Stdlib Require Import SpecFloat String.
From S2P Require Import Prelude PyStr PyFloat Errors CmdServer.
Local Close Scope string_scope.

(** ** [Histogram] *)
Definition bound (text : String.string) : float := default fzero (py_float (lit text)).

Definition LATENCY_BUCKETS : list float :=
  [bound "1e-5"; bound "2.5e-5"; bound "5e-5"; bound "1e-4"; bound "2.5e-4"; bound "5e-4"; bound "1e-3";
   bound "2.5e-3"; bound "5e-3"; bound "0.01"; bound "0.025"; bound "0.05"; bound "0.1"; bound "0.25";
   bound "0.5"; bound "1.0"; bound "2.5"].
Definition SIZE_BUCKETS : list float := float_of_Z <$> [1; 2; 4; 8; 16; 32; 64; 128; 256; 512].

Record Histogram := mkHistogram {
  hg_bounds : list float;
  hg_buckets : list Z;
  hg_count : Z;
  hg_sum : float
}.

Definition new_histogram (bounds : list float) : Histogram :=
  mkHistogram bounds (repeat 0 (S (length bounds))) 0 fzero.

(** [bisect.bisect_left]. *)
Fixpoint bisect_left_loop (fuel : nat) (l : list float) (x : float) (lo hi : nat) : nat :=
  match fuel with
  | O => lo
  | S f =>
      if (lo <? hi)%nat then
        let mid := ((lo + hi) / 2)%nat in
        if flt (nth mid l fzero) x then bisect_left_loop f l x (S mid) hi else bisect_left_loop f l x lo mid
      else lo
  end.
Definition bisect_left (l : list float) (x : float) : nat := bisect_left_loop (length l) l x 0 (length l).

Definition observe (value : float) (h : Histogram) : Histogram :=
  mkHistogram (hg_bounds h) (alter (Z.add 1) (bisect_left (hg_bounds h) value) (hg_buckets h))
    (hg_count h + 1) (fadd (hg_sum h) value).

(** ** Numbers as text *)
Inductive Num := NInt (z : Z) | NFloat (f : float).

Definition number (v : Num) : pystr :=
  match v with
  | NInt z => str_of_int z
  | NFloat f =>
      if feq f pos_inf then lit "+Inf"
      else if feq f neg_inf then lit "-Inf"
      else if fis_integer f then str_of_int (default 0 (ftrunc f))
      else float_repr f
  end.

Fixpoint running_counts (running : Z) (l : list (float * Z)) : list (pystr * Z) :=
  match l with
  | [] => []
  | (b, count) :: l' => (number (NFloat b), running + count) :: running_counts (running + count) l'
  end.

Definition cumulative (h : Histogram) : list (pystr * Z) :=
  running_counts 0 (zip (hg_bounds h ++ [pos_inf]) (hg_buckets h)).

(** ** [CommandStats] *)
Record CommandStats := mkStats {
  cst_enabled : bool;
  cst_errors : list ((pystr * pystr) * Z);
  cst_latency : list (pystr * Histogram)
}.

Definition new_stats (enabled : bool) : CommandStats := mkStats enabled [] [].

Definition stats_calls (s : CommandStats) : list (pystr * Z) :=
  (fun '(c, h) => (c, hg_count h)) <$> cst_latency s.

Definition stats_record (command : pystr) (seconds : float) (s : CommandStats) : CommandStats :=
  let h := default (new_histogram LATENCY_BUCKETS) (dict_get command (cst_latency s)) in
  mkStats (cst_enabled s) (cst_errors s) (dict_set command (observe seconds h) (cst_latency s)).

Definition stats_error (command prefix : pystr) (s : CommandStats) : CommandStats :=
  mkStats (cst_enabled s)
    (dict_set (command, prefix) (default 0 (dict_get (command, prefix) (cst_errors s)) + 1) (cst_errors s))
    (cst_latency s).

(** ** [Exposition] *)
Definition Labels : Type := list (pystr * pystr).

Definition escape (value : pystr) : pystr :=
  value ≫= (fun c => if c =? 92 then [92; 92] else if c =? 10 then lit "\n" else if c =? 34 then [92; 34] else [c]).

Definition labels_text (l : Labels) : pystr :=
  match l with
  | [] => []
  | _ => 123 :: join [44] ((fun '(k, v) => k ++ 61 :: 34 :: escape v ++ [34]) <$> l) ++ [125]
  end.

Definition header (name help kind : pystr) : list pystr :=
  [lit "# HELP " ++ name ++ 32 :: help; lit "# TYPE " ++ name ++ 32 :: kind].

Definition family (name help kind : pystr) (samples : list (Labels * Num)) (lines : list pystr) : list pystr :=
  match samples with
  | [] => lines
  | _ => lines ++ header name help kind ++ ((fun '(l, v) => name ++ labels_text l ++ 32 :: number v) <$> samples)
  end.

Definition counter (name help : pystr) (samples : list (Labels * Num)) (lines : list pystr) : list pystr :=
  family (name ++ lit "_total") help (lit "counter") samples lines.

Definition gauge (name help : pystr) (samples : list (Labels * Num)) (lines : list pystr) : list pystr :=
  family name help (lit "gauge") samples lines.

Definition series_lines (name : pystr) (s : Labels * Histogram) : list pystr :=
  let '(labels, h) := s in
  ((fun '(le, count) => name ++ lit "_bucket" ++ labels_text (dict_set (lit "le") le labels) ++ 32 :: str_of_int count)
     <$> cumulative h) ++
  [name ++ lit "_sum" ++ labels_text labels ++ 32 :: number (NFloat (hg_sum h));
   name ++ lit "_count" ++ labels_text labels ++ 32 :: str_of_int (hg_count h)].

Definition histogram (name help : pystr) (series : list (Labels * Histogram)) (lines : list pystr) : list pystr :=
  match series with
  | [] => lines
  | _ => lines ++ header name help (lit "histogram") ++ (series ≫= series_lines name)
  end.

Definition exposition_text (lines : list pystr) : pystr := join [10] lines ++ [10].

(** ** The buckets add up *)
Definition histogram_ok (h : Histogram) : Prop :=
  length (hg_buckets h) = S (length (hg_bounds h)) /\ Forall (Z.le 0) (hg_buckets h) /\
  hg_count h = sumZ id (hg_buckets h).

Lemma bisect_left_loop_bound f l x lo hi : (lo <= hi)%nat -> (bisect_left_loop f l x lo hi <= hi)%nat.
Proof.
  revert lo hi. induction f as [|f IH]; intros lo hi H; cbn [bisect_left_loop]; [lia|].
  destruct (Nat.ltb_spec lo hi); [|lia]. cbv zeta.
  assert ((lo + hi) / 2 < hi)%nat by (apply Nat.Div0.div_lt_upper_bound; lia).
  assert (lo <= (lo + hi) / 2)%nat by (apply Nat.div_le_lower_bound; lia).
  destruct (flt _ _); [apply IH; lia|]. etransitivity; [apply IH; lia|lia].
Qed.

Lemma new_histogram_ok bounds : histogram_ok (new_histogram bounds).
Proof.
  unfold histogram_ok, new_histogram. cbn [hg_buckets hg_bounds hg_count]. generalize (S (length bounds)). intros n.
  conj; [by rewrite repeat_length| |]; induction n as [|n IH]; simpl; [done|by constructor|done|by rewrite <- IH].
Qed.

Lemma observe_ok v h : histogram_ok h -> histogram_ok (observe v h).
Proof.
  intros (Hl & Hp & Hc). unfold histogram_ok, observe. cbn [hg_buckets hg_bounds hg_count].
  pose proof (bisect_left_loop_bound (length (hg_bounds h)) (hg_bounds h) v 0 (length (hg_bounds h)) ltac:(lia)) as Hi.
  fold (bisect_left (hg_bounds h) v) in Hi. set (i := bisect_left (hg_bounds h) v) in *.
  destruct (lookup_lt_is_Some_2 (hg_buckets h) i ltac:(lia)) as [n Hn]. conj.
  - by rewrite length_alter.
  - by apply Forall_alter; [done|intros k _ Hk; simpl in *; lia].
  - rewrite Hc. clearbody i. clear -Hn. revert i Hn. induction (hg_buckets h) as [|a l IH]; intros [|i] Hn; simplify_eq/=; [unfold id; lia|].
    specialize (IH i Hn). change (sumZ id (a :: alter (Z.add 1) i l)) with (a + sumZ id (alter (Z.add 1) i l)). lia.
Qed.

Lemma running_last running l :
  l <> [] -> (snd <$> last (running_counts running l)) = Some (running + sumZ snd l).
Proof.
  revert running. induction l as [|[b c] l IH]; intros running Hl; [done|]. destruct l as [|[b' c'] l]; [simpl; f_equal; lia|].
  change (running_counts running ((b, c) :: (b', c') :: l)) with
    ((number (NFloat b), running + c) :: running_counts (running + c) ((b', c') :: l)).
  rewrite last_cons. specialize (IH (running + c) ltac:(done)).
  destruct (last (running_counts (running + c) ((b', c') :: l))); [|done]. simpl in *. rewrite IH. f_equal. lia.
Qed.

Lemma running_ordered running l :
  Forall (fun p => 0 <= p.2) l ->
  StronglySorted Z.le ((running_counts running l).*2) /\ Forall (Z.le running) ((running_counts running l).*2).
Proof.
  intros H. revert running. induction H as [|[b c] l Hc H IH]; intros running; [by split; constructor|].
  simpl in Hc. cbn [running_counts]. rewrite fmap_cons. simpl. destruct (IH (running + c)) as [H1 H2].
  split; [by constructor|]. constructor; [lia|]. eapply Forall_impl; [exact H2|]. simpl. intros. lia.
Qed.

(** The cumulative counts of a histogram that was filled by [observe]. *)
Lemma cumulative_spec h :
  histogram_ok h ->
  length (cumulative h) = S (length (hg_bounds h)) /\
  StronglySorted Z.le ((cumulative h).*2) /\ (snd <$> last (cumulative h)) = Some (hg_count h).
Proof.
  intros (Hl & Hp & Hc). unfold cumulative. set (l := zip _ _).
  assert (Hs : l.*2 = hg_buckets h) by (apply snd_zip; rewrite length_app; simpl; lia).
  assert (Hlen : length l = S (length (hg_bounds h))) by (rewrite <- (length_fmap snd), Hs; done).
  conj.
  - rewrite <- Hlen. generalize 0. clear. induction l as [|[b c] l IH]; intros z; [done|]. simpl. by rewrite IH.
  - apply running_ordered. rewrite <- Hs in Hp. exact (proj1 (Forall_fmap _ _ _) Hp).
  - rewrite running_last by (by intros E; rewrite E in Hlen). f_equal. rewrite Hc, <- Hs. clear.
    induction l as [|[b c] l IH]; [done|]. rewrite fmap_cons. cbn [sumZ snd]. unfold id at 1. lia.
Qed.
