(* ===== verification/Migration.v ===== *)
(** * Moving keys to their new owners (cluster/migration.py)

    The plan of a rebalance, the check of commands while keys move, and the
    moving itself.  The coroutine [_run] and the [_send]s it gathers are cut at
    their awaits: [run_begin], [gathered] and [send_reply]; what the network
    answers a [_send] is the argument of [send_reply]. *)

From Stdlib Require Import String.
From S2P Require Import Prelude PyStr PyFloat Errors Codec Oracles Containers Eviction Store Snapshot.
From S2P Require Import Registry CmdServer Resp Replies Engine HashRing.
Local Close Scope string_scope.

(** [int(value)] of a command's argument. *)
Definition py_int_arg (a : PyArg) : result exn Z :=
  match a with
  | AStr s => match py_int s with Some z => Ok z | None => Raise (err ValueError "invalid literal for int() with base 10") end
  | AInt z => Ok z
  | ABool b => Ok (if b then 1 else 0)
  | AFloat f =>
      match ftrunc f with
      | Some z => Ok z
      | None => Raise (if is_nan f then err ValueError "cannot convert float NaN to integer"
                       else err OverflowError "cannot convert float infinity to integer")
      end
  | AOther _ => Raise (err TypeError "int() argument must be a string or a number")
  end.

(** ** [MigrationPlan] *)
Record MigrationPlan := mkPlan {
  mp_shard : pystr;
  mp_virtual_nodes : Z;
  mp_targets : list (pystr * pystr)
}.

#[export] Instance MigrationPlan_eq_dec : EqDecision MigrationPlan.
Proof. solve_decision. Defined.

Definition plan_ring (p : MigrationPlan) : result exn Ring := new_ring (dict_keys (mp_targets p)) (mp_virtual_nodes p).

Fixpoint target_pairs (args : list PyArg) (d : list (pystr * pystr)) : list (pystr * pystr) :=
  match args with
  | k :: v :: rest => target_pairs rest (dict_set (str_of_arg k) (str_of_arg v) d)
  | _ => d
  end.

Definition plan_from_args (args : list PyArg) : result exn MigrationPlan :=
  match args with
  | shard :: nodes :: ((_ :: _ :: _) as pairs) =>
      if Nat.odd (length args)
      then Raise (err ValueError "expected: <shard> <virtual-nodes> <id> <address> [...]")
      else match py_int_arg nodes with
           | Ok n => Ok (mkPlan (str_of_arg shard) n (target_pairs pairs []))
           | Raise x => Raise x
           end
  | _ => Raise (err ValueError "expected: <shard> <virtual-nodes> <id> <address> [...]")
  end.

Definition plan_to_args (p : MigrationPlan) : list PyArg :=
  AStr (mp_shard p) :: AInt (mp_virtual_nodes p) :: (mp_targets p ≫= (fun '(k, v) => [AStr k; AStr v])).

(** ** [KeyMigration] *)
Inductive MState := MRunning | MDone | MFailed.

Definition mstate_text (s : MState) : pystr :=
  match s with MRunning => lit "running" | MDone => lit "done" | MFailed => lit "failed" end.

(** A [_send] that has not ended: its address, the keys and their commands. *)
Record Sending := mkSending { sd_address : pystr; sd_items : list (pystr * list PyArg) }.

Record Migration := mkMigration {
  mg_plan : MigrationPlan;
  mg_ring : Ring;
  mg_batch_size : nat;
  mg_in_flight : list pystr;
  mg_pending : list pystr;         (* keys still to be moved *)
  mg_batch : option (list pystr);  (* the keys [_move] was called with, while it awaits *)
  mg_sends : list (nat * Sending);
  mg_next : nat;
  mg_task : bool;                  (* [_run] has not ended *)
  mg_state : MState;
  mg_moved : Z;
  mg_error : option pystr
}.

Definition new_migration (plan : MigrationPlan) : result exn Migration :=
  match plan_ring plan with
  | Ok r => Ok (mkMigration plan r 100 [] [] None [] 0 false MRunning 0 None)
  | Raise x => Raise x
  end.

Definition set_in_flight (l : list pystr) m : Migration :=
  mkMigration (mg_plan m) (mg_ring m) (mg_batch_size m) l (mg_pending m) (mg_batch m) (mg_sends m) (mg_next m)
    (mg_task m) (mg_state m) (mg_moved m) (mg_error m).
Definition set_todo (pending : list pystr) (batch : option (list pystr)) m : Migration :=
  mkMigration (mg_plan m) (mg_ring m) (mg_batch_size m) (mg_in_flight m) pending batch (mg_sends m) (mg_next m)
    (mg_task m) (mg_state m) (mg_moved m) (mg_error m).
Definition set_sends (l : list (nat * Sending)) (next : nat) m : Migration :=
  mkMigration (mg_plan m) (mg_ring m) (mg_batch_size m) (mg_in_flight m) (mg_pending m) (mg_batch m) l next
    (mg_task m) (mg_state m) (mg_moved m) (mg_error m).
Definition set_outcome (task : bool) (s : MState) (error : option pystr) m : Migration :=
  mkMigration (mg_plan m) (mg_ring m) (mg_batch_size m) (mg_in_flight m) (mg_pending m) (mg_batch m) (mg_sends m)
    (mg_next m) task s (mg_moved m) error.
Definition add_moved (n : Z) m : Migration :=
  mkMigration (mg_plan m) (mg_ring m) (mg_batch_size m) (mg_in_flight m) (mg_pending m) (mg_batch m) (mg_sends m)
    (mg_next m) (mg_task m) (mg_state m) (mg_moved m + n) (mg_error m).

(** [destination]: the group and address of a key that belongs elsewhere. *)
Definition destination (key : pystr) (m : Migration) : result exn (option (pystr * pystr)) :=
  match get_node (hash_slot_key key) (mg_ring m) with
  | Raise x => Raise x
  | Ok shard =>
      if bool_decide (shard = mp_shard (mg_plan m)) then Ok None
      else match dict_get shard (mp_targets (mg_plan m)) with
           | Some address => Ok (Some (shard, address))
           | None => Raise (new_exn KeyError shard None)
           end
  end.

Definition start_migration (m : Migration) : Migration := set_outcome true (mg_state m) (mg_error m) m.

(** The [finally] of [_move]. *)
Definition clear_flight (keys : list pystr) (m : Migration) : Migration :=
  set_in_flight (List.filter (fun k => negb (bool_decide (k ∈ keys))) (mg_in_flight m)) m.

(** [_run] is told of an error: by [_move], whose [finally] has run, or before. *)
Definition run_failed (x : exn) (m : Migration) : Migration :=
  let m := match mg_batch m with Some keys => clear_flight keys m | None => m end in
  set_outcome false MFailed (Some (exn_repr x)) (set_todo (mg_pending m) None m).

(** [stop]: cancelling [_run] cancels what it gathers, and only that. *)
Definition stop_migration (m : Migration) : Migration :=
  if mg_task m then
    let m := match mg_batch m with Some keys => clear_flight keys m | None => m end in
    set_outcome false (mg_state m) (mg_error m) (set_sends [] (mg_next m) (set_todo (mg_pending m) None m))
  else m.

Section Migration.
Context `{Sizing} {P : Type} `{EvictionPolicy P} {L R : Type} `{Persistence L} `{ReplicationFeed R}.
Abbreviation W := (World P Done (EngineEnv L R)).
Abbreviation SM := (M exn W).

(** *** Routing *)

(** The keys that are not here and belong elsewhere. *)
Definition gone_keys (m : Migration) (keys : list pystr) : SM (list pystr) :=
  filterM_list
    (fun k =>
       let! e := peek k in
       match e with
       | Some _ => ret false
       | None => let! d := lift (destination k m) in ret (found d)
       end) keys.

Definition migration_check (m : Migration) (command : pystr) (args : list PyArg) : SM unit :=
  match find_command (P := P) (D := Done) (E := EngineEnv L R) (str_upper command) with
  | None => ret tt
  | Some spec =>
      match keys_of spec args with
      | [] => ret tt
      | keys =>
          if existsb (fun k => bool_decide (k ∈ mg_in_flight m)) keys
          then raise (err TryAgainError "key is being migrated")
          else
            let! gone := gone_keys m keys in
            match gone with
            | [] => ret tt
            | first :: _ =>
                if bool_decide (length gone < length keys)%nat
                then raise (err TryAgainError "multiple keys request during a migration")
                else
                  let! d := lift (destination first m) in
                  match d with
                  | Some (shard, address) => raise (new_exn AskRedirectError (shard ++ 32 :: address) None)
                  | None => raise (err AssertionError "")
                  end
            end
      end
  end.

(** *** Moving *)
Definition MW : Type := W * Migration.
Abbreviation MM := (M exn MW).

Definition on_world {A} (c : SM A) : MM A := fun s => let '(r, w) := c s.1 in (r, (w, s.2)).
Definition get_mig : MM Migration := readM snd.
Definition upd_mig (f : Migration -> Migration) : MM unit := modifyM (fun s => (s.1, f s.2)).

(** [ttl_ms] of a record. *)
Definition restore_ttl (expires_at : option float) : result exn Z :=
  match expires_at with
  | None => Ok 0
  | Some t =>
      match fround (fmul t (float_of_Z 1000)) with
      | Some ms => Ok (Z.max 1 ms)
      | None => Raise (err OverflowError "cannot convert float infinity to integer")
      end
  end.

Definition restore_command (r : SnapshotRecord) : result exn (list PyArg) :=
  match restore_ttl (sr_expires r) with
  | Raise x => Raise x
  | Ok ttl =>
      match dump_value (sr_payload r) with
      | Raise x => Raise x
      | Ok dump =>
          Ok ([AStr (lit "RESTORE"); AStr (sr_key r); AInt ttl; AStr (to_str dump); AStr (lit "REPLACE")] ++
              match sr_expires r with Some _ => [AStr (lit "ABSTTL")] | None => [] end)
      end
  end.

(** The [for] loop of [_move]: what goes to each address. *)
Fixpoint move_loop (keys : list pystr) (by_target : list (pystr * list (pystr * list PyArg))) :
    MM (list (pystr * list (pystr * list PyArg))) :=
  match keys with
  | [] => ret by_target
  | key :: rest =>
      let! r := on_world (record key) in
      let! m := get_mig in
      let! d := lift (destination key m) in
      match r, d with
      | Some r, Some (_, address) =>
          let! restore := lift (restore_command r) in
          upd_mig (fun m => set_in_flight (remove_dups (mg_in_flight m ++ [key])) m);;
          move_loop rest (dict_set address (default [] (dict_get address by_target) ++ [(key, restore)]) by_target)
      | _, _ => move_loop rest by_target
      end
  end.

(** The [_send]s are started, in order. *)
Fixpoint start_sends (l : list (pystr * list (pystr * list PyArg))) (m : Migration) : Migration :=
  match l with
  | [] => m
  | (address, items) :: rest =>
      start_sends rest (set_sends (mg_sends m ++ [(mg_next m, mkSending address items)]) (S (mg_next m)) m)
  end.

(** The loop of [_run] up to its next await. *)
Definition next_batch : MM unit :=
  let! m := get_mig in
  match mg_pending m with
  | [] => upd_mig (set_outcome false MDone None)
  | pending =>
      let batch := take (mg_batch_size m) pending in
      upd_mig (set_todo (drop (mg_batch_size m) pending) None);;
      let! by_target := move_loop batch [] in
      upd_mig (fun m => start_sends by_target (set_todo (mg_pending m) (Some batch) m))
  end.

(** [_run] turns every error into its state. *)
Definition in_run (c : MM unit) : MM unit := catchM c (fun _ => true) (fun x => upd_mig (run_failed x)).

(** The start of [_run]: the keys present now that belong elsewhere. *)
Definition run_begin : MM unit :=
  in_run
    (let! keys := on_world iter_keys in
     let! m := get_mig in
     let! pending := filterM_list (fun k => let! d := lift (destination k m) in ret (found d)) keys in
     upd_mig (set_todo pending None);;
     next_batch).

(** Every [_send] of the batch has ended: [_move] returns. *)
Definition gathered : MM unit :=
  let! m := get_mig in
  match mg_task m, mg_batch m, mg_sends m with
  | true, Some keys, [] =>
      in_run (upd_mig (clear_flight keys);; upd_mig (fun m => set_todo (mg_pending m) None m);; next_batch)
  | _, _, _ => ret tt
  end.

(** The replies in turn: the keys moved, or the first error. *)
Fixpoint moved_keys (items : list (pystr * list PyArg)) (replies : list PReply) : result exn (list pystr) :=
  match items, replies with
  | [], [] => Ok []
  | (key, _) :: items', reply :: replies' =>
      match reply with
      | PError x => Raise x
      | _ => match moved_keys items' replies' with Ok l => Ok (key :: l) | Raise x => Raise x end
      end
  | _, _ => Raise (err ValueError "zip() arguments have different lengths")
  end.

(** The end of a [_send] whose pipeline was answered. *)
Definition send_done (items : list (pystr * list PyArg)) (replies : list PReply) : MM unit :=
  let! moved := lift (moved_keys items replies) in
  match moved with
  | [] => ret tt
  | _ =>
      on_world (execute (AStr (lit "DEL")) (AStr <$> moved));;
      upd_mig (add_moved (Z.of_nat (length moved)))
  end.

(** The pipeline of [_send] number [n] returned or raised.  An error of the
    program's own is tried again; otherwise the [_send] ends, and if it fails
    [_run], if it still waits, is told at once. *)
Definition send_reply (n : nat) (answer : result exn (list PReply)) : MM unit :=
  let! m := get_mig in
  match dict_get n (mg_sends m) with
  | None => ret tt
  | Some s =>
      let finish (c : MM unit) : MM unit :=
        upd_mig (fun m => set_sends (dict_pop n (mg_sends m)) (mg_next m) m);;
        catchM c (fun _ => true)
          (fun x => let! m := get_mig in if mg_task m then upd_mig (run_failed x) else ret tt) in
      match answer with
      | Raise x => if isinstance x KVStoreError then ret tt else finish (raise x)
      | Ok replies => finish (send_done (sd_items s) replies)
      end
  end.
End Migration.
