(* ===== verification/ShardNode.v ===== *)
(** * A shard node (replication/node.py)

    The engine with its replication role: the commands a node answers itself,
    the change of role, the epoch, and the checks before a command reaches the
    engine. *)

From Stdlib Require Import String.
From S2P Require Import Prelude PyStr PyFloat Errors Codec Oracles Containers Eviction Store Snapshot Json Disk.
From S2P Require Import Manifest Registry CmdServer Resp Engine ReplStream Primary ReplicaLink HashRing Metrics Migration.
Local Close Scope string_scope.

Inductive Role := RPrimary | RReplica.

#[export] Instance Role_eq_dec : EqDecision Role.
Proof. solve_decision. Defined.

Definition NODE_COMMANDS : list pystr :=
  [lit "PSYNC"; lit "REPLCONF"; lit "REPLICAOF"; lit "SLAVEOF"; lit "ROLE"; lit "WAIT"; lit "CLUSTER"].

Record ReplicationSettings := mkSettings {
  backlog_bytes : Z;
  min_replicas_to_write : Z;
  min_replicas_max_lag_s : float
}.

(** ** The epoch on disk *)
Definition STATE_FILE : pystr := lit "node.json".

(** [data.get("epoch", 0)], then [int]. *)
Definition epoch_of (data : Json) : result exn Z :=
  match data with
  | JObject fields =>
      match default (JInt 0) (dict_get (lit "epoch") fields) with
      | JInt z => Ok z
      | JFloat f => py_int_arg (AFloat f)
      | JString s => py_int_arg (AStr s)
      | JBool b => py_int_arg (ABool b)
      | _ => py_int_arg (AOther [])
      end
  | _ => Raise (err AttributeError "object has no attribute 'get'")
  end.

Definition load_epoch (content : option bytes) : result exn Z :=
  match content with
  | None => Ok 0
  | Some raw =>
      match utf8_strict (length raw) raw with
      | None => Raise (err ValueError "invalid utf-8")
      | Some text =>
          match loads text with
          | None => Raise (err ValueError "invalid JSON")
          | Some data => epoch_of data
          end
      end
  end.

(** The text is ASCII.  Nothing is synced. *)
Definition epoch_json (epoch : Z) : bytes := dumps_default (JObject [(lit "epoch", JInt epoch)]).

Definition save_epoch_file (epoch : Z) : IOM unit :=
  let tmp := STATE_FILE ++ lit ".tmp" in
  let! i := io_create tmp in
  io_write i (epoch_json epoch);;
  io_replace tmp STATE_FILE.

(** [_int]: only these two errors are turned into an invalid argument. *)
Definition node_int (a : PyArg) : result exn Z :=
  match py_int_arg a with
  | Ok z => Ok z
  | Raise x => Raise (if isinstance x TypeError || isinstance x ValueError
                      then invalid "value is not an integer or out of range" else x)
  end.

(** What a command of a node gives: a reply, a connection to take over, or a
    wait for replicas. *)
Inductive NodeResult :=
| NReply (v : Reply)
| NTakeover (replid : pystr) (offset : Z)
| NWait (needed timeout_ms : Z).

(** ** What a node uses of its engine *)
Abbreviation Info := (list (pystr * list (pystr * InfoValue))).

Class NodeEngine (D : Type) := {
  ne_replication : D -> option Primary;                  (* [engine.replication] *)
  ne_set_replication : option Primary -> D -> D;
  ne_begin_snapshot : nat -> M exn D unit;               (* for the replica of that number *)
  ne_expiry_deletes : bool -> M exn D unit;
  ne_is_write : pystr -> option bool;                    (* [COMMANDS.get(name)] *)
  ne_execute : Info -> PyArg -> list PyArg -> M exn D Reply;
  ne_check_migration : Migration -> pystr -> list PyArg -> M exn D unit
}.

Section EngineOfNode.
Context `{Sizing} {P : Type} `{EvictionPolicy P} {L : Type} `{Persistence L}.
Abbreviation W := (World P Done (EngineEnv L Primary)).
Abbreviation SM := (M exn W).

Definition with_env (f : EngineEnv L Primary -> EngineEnv L Primary) (w : W) : W :=
  mkWorld (w_store w) (f (w_env w)) (w_orc w).

(** [_begin_snapshot], for the replica number [id]. *)
Definition node_snapshot (id : nat) : SM unit :=
  let! incremental := get_env en_incremental in
  let! s := gets Datatypes.id in
  if incremental && bool_decide (st_job s = None) then engine_begin_snapshot (OnSync id)
  else let! records := snapshot in env_do (modifyM (add_synced id records)).

(** [store.expiry_deletes = b]. *)
Definition set_expiry_deletes (b : bool) : SM unit :=
  upd (fun s => set_flags (eviction_enabled s) (expiry_enabled s) b s).

(** [engine.extra_info] is the node's [_info_sections]. *)
Definition set_extra_info (info : Info) (e : EngineEnv L Primary) : EngineEnv L Primary :=
  mkEnv (en_persistence e) (en_replication e) (en_replaying e) (en_incremental e) (en_slice_keys e) (en_gc_held e)
    (en_gc_holds e) (en_commit_depth e) (en_commands e) (en_started_wall e) (en_synced e) (Some info) (en_pid e)
    (en_uptime e) (en_time_ns e).

#[export] Instance world_engine : NodeEngine W := {|
  ne_replication w := en_replication (w_env w);
  ne_set_replication r := with_env (set_replication r);
  ne_begin_snapshot := node_snapshot;
  ne_expiry_deletes := set_expiry_deletes;
  ne_is_write name := is_write <$> find_command (P := P) (D := Done) (E := EngineEnv L Primary) name;
  ne_execute info command args := env_do (modifyM (set_extra_info info));; execute command args;
  ne_check_migration := migration_check
|}.
End EngineOfNode.

(** ** [ShardNode] *)
Section Node.
Context {D : Type} `{NodeEngine D} `{ReplicaEngine D}.

(** [engine.replication] is the node's own [primary] or [None]: the node holds
    the one object, and [nd_attached] says whether the engine has it. *)
Record Node := mkNode {
  nd_world : D;
  nd_primary : Primary;
  nd_attached : bool;
  nd_settings : ReplicationSettings;
  nd_listening_port : Z;
  nd_role : Role;
  nd_link : option Link;
  nd_epoch : Z;
  nd_dir : option IO;
  nd_migration : option Migration;
  nd_stats : CommandStats;
  nd_stopping : list Migration   (* stopped by a task of their own *)
}.
Abbreviation NM := (M exn Node).

Definition set_world (w : D) (p : Primary) (n : Node) : Node :=
  mkNode w p (nd_attached n) (nd_settings n) (nd_listening_port n) (nd_role n) (nd_link n) (nd_epoch n)
    (nd_dir n) (nd_migration n) (nd_stats n) (nd_stopping n).
Definition set_role (role : Role) (attached : bool) (n : Node) : Node :=
  mkNode (nd_world n) (nd_primary n) attached (nd_settings n) (nd_listening_port n) role (nd_link n) (nd_epoch n)
    (nd_dir n) (nd_migration n) (nd_stats n) (nd_stopping n).
Definition set_link (k : option Link) (n : Node) : Node :=
  mkNode (nd_world n) (nd_primary n) (nd_attached n) (nd_settings n) (nd_listening_port n) (nd_role n) k (nd_epoch n)
    (nd_dir n) (nd_migration n) (nd_stats n) (nd_stopping n).
Definition set_epoch (epoch : Z) (dir : option IO) (n : Node) : Node :=
  mkNode (nd_world n) (nd_primary n) (nd_attached n) (nd_settings n) (nd_listening_port n) (nd_role n) (nd_link n)
    epoch dir (nd_migration n) (nd_stats n) (nd_stopping n).
Definition set_migration (m : option Migration) (stopping : list Migration) (n : Node) : Node :=
  mkNode (nd_world n) (nd_primary n) (nd_attached n) (nd_settings n) (nd_listening_port n) (nd_role n) (nd_link n)
    (nd_epoch n) (nd_dir n) m (nd_stats n) stopping.
Definition set_node_stats (s : CommandStats) (n : Node) : Node :=
  mkNode (nd_world n) (nd_primary n) (nd_attached n) (nd_settings n) (nd_listening_port n) (nd_role n) (nd_link n)
    (nd_epoch n) (nd_dir n) (nd_migration n) s (nd_stopping n).

(** The engine with its [replication] in place, and taken out again. *)
Definition engine_world (n : Node) : D :=
  ne_set_replication (if nd_attached n then Some (nd_primary n) else None) (nd_world n).

Definition store_world (w : D) (n : Node) : Node :=
  set_world (ne_set_replication None w) (default (nd_primary n) (ne_replication w)) n.

Definition on_node_engine {A} (c : M exn D A) : NM A :=
  fun n => let '(r, w) := c (engine_world n) in (r, store_world w n).

Definition on_primary (A : Type) (c : M exn Primary A) : NM A :=
  fun n => let '(r, p) := c (nd_primary n) in (r, set_world (nd_world n) p n).

(** The link acts on the engine and on the node's position in the stream. *)
Definition on_link {A} (c : M exn (LinkWorld D) A) : NM A :=
  fun n =>
    match nd_link n with
    | None => (Raise (err AssertionError ""), n)
    | Some k =>
        let '(r, lw) := c (mkLW (engine_world n) (pr_state (nd_primary n)) k) in
        let n := store_world (lw_data lw) n in
        (r, set_link (Some (lw_link lw)) (set_world (nd_world n) (set_state (lw_state lw) (nd_primary n)) n))
    end.

(** The takeover of [_psync]: [serve] up to its first await. *)
Definition node_serve (host replid : pystr) (offset : Z) (now : float) : NM nat :=
  serve_begin (fun id => on_node_engine (ne_begin_snapshot id)) on_primary host replid offset now.

(** *** The change of role *)
Definition become_primary (fresh : pystr) : NM unit :=
  let! n := getM in
  match nd_role n with
  | RPrimary => ret tt
  | RReplica =>
      modifyM (set_link None);;
      on_primary _ (modifyM (fun p => set_active true (set_state (fork fresh (pr_state p)) p)));;
      modifyM (set_role RPrimary true);;
      on_node_engine (ne_expiry_deletes true)
  end.

Definition same_primary (host : pystr) (port : Z) (k : Link) : bool :=
  bool_decide (lk_host k = host) && (lk_port k =? port).

Definition become_replica (host : pystr) (port : Z) (now : float) : NM unit :=
  let! n := getM in
  if match nd_link n with Some k => same_primary host port k | None => false end then ret tt
  else
    modifyM (set_link None);;
    modifyM (set_role RReplica (nd_attached n));;
    on_primary _ (modifyM disconnect_all);;
    modifyM (set_role RReplica false);;
    on_node_engine (ne_expiry_deletes false);;
    modifyM (set_link (Some (start_link (new_link host port (nd_listening_port n) now)))).

Definition save_epoch : NM unit :=
  fun n =>
    match nd_dir n with
    | None => (Ok tt, n)
    | Some io => let '(r, io) := save_epoch_file (nd_epoch n) io in (r, set_epoch (nd_epoch n) (Some io) n)
    end.

(** The epoch at the end of REPLICAOF's arguments, and what is before it. *)
Definition split_epoch (args : list PyArg) : result exn (option Z * list PyArg) :=
  match reverse args with
  | value :: word :: rest =>
      if bool_decide (str_upper (str_of_arg word) = lit "EPOCH")
      then match node_int value with Ok e => Ok (Some e, reverse rest) | Raise x => Raise x end
      else Ok (None, args)
  | _ => Ok (None, args)
  end.

Definition stale_epoch (epoch current : Z) : exn :=
  new_exn CommandError (lit "stale epoch " ++ str_of_int epoch ++ lit ": this node is at epoch " ++ str_of_int current) None.

Definition replicaof (args : list PyArg) (fresh : pystr) (now : float) : NM Reply :=
  let! n := getM in
  let! (epoch, args) := lift (split_epoch args) in
  (match epoch with
   | Some e => if e <? nd_epoch n then raise (stale_epoch e (nd_epoch n)) else ret tt
   | None => ret tt
   end);;
  match args with
  | [host; port] =>
      (if bool_decide (str_upper (str_of_arg host) = lit "NO") && bool_decide (str_upper (str_of_arg port) = lit "ONE")
       then become_primary fresh
       else let! p := lift (node_int port) in become_replica (str_of_arg host) p now);;
      (match epoch with
       | Some e =>
           let! n := getM in
           if e =? nd_epoch n then ret tt
           else modifyM (fun n => set_epoch e (nd_dir n) n);; save_epoch
       | None => ret tt
       end);;
      ret OK
  | _ => raise (err CommandError "wrong number of arguments for 'replicaof' command")
  end.

(** *** The commands a node answers itself *)
Definition psync (args : list PyArg) : NM NodeResult :=
  let! n := getM in
  match args with
  | [replid; offset] =>
      if bool_decide (nd_role n = RPrimary) then
        let! o := lift (node_int offset) in ret (NTakeover (str_of_arg replid) o)
      else raise (err CommandError "can't PSYNC from a replica (chained replication is not supported)")
  | _ => raise (err CommandError "wrong number of arguments for 'psync' command")
  end.

Definition link_state_text (s : LinkState) : pystr :=
  match s with LConnect => lit "connect" | LSync => lit "sync" | LConnected => lit "connected" end.

Definition role_reply : NM Reply :=
  let! n := getM in
  match nd_role n with
  | RPrimary =>
      ret (RArray [RText (lit "master"); RInt (pr_offset (nd_primary n));
             RArray ((fun '(_, r) => RArray [RText (cr_host r); RText (str_of_int (cr_port r)); RText (str_of_int (cr_ack r))])
                       <$> pr_replicas (nd_primary n))])
  | RReplica =>
      match nd_link n with
      | Some k => ret (RArray [RText (lit "slave"); RText (lk_host k); RInt (lk_port k);
                               RText (link_state_text (lk_state k)); RInt (pr_offset (nd_primary n))])
      | None => raise (err AssertionError "")
      end
  end.

Definition wait_command (args : list PyArg) : NM NodeResult :=
  let! n := getM in
  match args with
  | [needed; timeout] =>
      let! needed := lift (node_int needed) in
      let! timeout_ms := lift (node_int timeout) in
      if (needed <? 0) || (timeout_ms <? 0) then raise (invalid "timeout is negative")
      else if bool_decide (nd_role n = RPrimary) then ret (NWait needed timeout_ms)
      else raise (err CommandError "WAIT cannot be used with replica instances")
  | _ => raise (err CommandError "wrong number of arguments for 'wait' command")
  end.

(** [CLUSTER REBALANCE]. *)
Definition cluster (args : list PyArg) : NM Reply :=
  let! n := getM in
  match args with
  | a0 :: ((a1 :: _) as rest) =>
      if negb (bool_decide (str_upper (str_of_arg a0) = lit "REBALANCE"))
      then raise (err CommandError "unknown CLUSTER subcommand (only REBALANCE is supported)")
      else
        let sub := str_upper (str_of_arg a1) in
        if bool_decide (sub = lit "STATUS") then
          ret (match nd_migration n with
               | None => RArray [RText (lit "idle"); RInt 0; RText []]
               | Some m => RArray [RText (mstate_text (mg_state m)); RInt (mg_moved m);
                                   RText (default [] (mg_error m))]
               end)
        else if bool_decide (sub = lit "STOP") then
          (match nd_migration n with
           | Some m => modifyM (fun n => set_migration None (nd_stopping n ++ [m]) n)
           | None => ret tt
           end);;
          ret OK
        else if negb (bool_decide (nd_role n = RPrimary)) then raise (err CommandError "only a primary moves keys")
        else
          match plan_from_args rest with
          | Raise x => raise (if isinstance x ValueError then new_exn InvalidArgumentError (exn_msg x) None else x)
          | Ok plan =>
              match nd_migration n with
              | Some m => if bool_decide (mg_plan m = plan) then ret OK
                          else raise (err CommandError "another rebalance is in progress")
              | None =>
                  let! m := lift (new_migration plan) in
                  modifyM (fun n => set_migration (Some (start_migration m)) (nd_stopping n) n);;
                  ret OK
              end
          end
  | _ => raise (err CommandError "unknown CLUSTER subcommand (only REBALANCE is supported)")
  end.

(** *** INFO *)
Definition slave_text (now : float) (r : ConnectedReplica) : pystr :=
  lit "ip=" ++ cr_host r ++ lit ",port=" ++ str_of_int (cr_port r) ++ lit ",state=" ++
  (if is_online r then lit "online" else lit "sync") ++ lit ",offset=" ++ str_of_int (cr_ack r) ++
  lit ",lag=" ++ str_of_int (default 0 (lag_s now r)).

Fixpoint slave_fields (i : Z) (now : float) (l : list (nat * ConnectedReplica)) : list (pystr * InfoValue) :=
  match l with
  | [] => []
  | (_, r) :: l' => (lit "slave" ++ str_of_int i, IText (slave_text now r)) :: slave_fields (i + 1) now l'
  end.

Definition seconds_ago (now last : float) : Z :=
  let d := fsub now last in if flt fzero d then default 0 (ftrunc d) else 0.

Definition link_fields (now : float) (offset : Z) (k : Link) : list (pystr * InfoValue) :=
  [(lit "master_host", IText (lk_host k)); (lit "master_port", int_info (lk_port k));
   (lit "master_link_status", IText (if link_up k then lit "up" else lit "down"));
   (lit "master_last_io_seconds_ago", int_info (seconds_ago now (lk_last_io k)));
   (lit "master_sync_in_progress", IBool (match lk_state k with LSync => true | _ => false end));
   (lit "slave_repl_offset", int_info offset); (lit "slave_read_only", int_info 1)].

Definition replication_fields (now : float) (n : Node) : list (pystr * InfoValue) :=
  let p := nd_primary n in
  let s := pr_state p in
  let replicas := match nd_role n with RPrimary => pr_replicas p | RReplica => [] end in
  [(lit "role", IText (match nd_role n with RPrimary => lit "master" | RReplica => lit "slave" end))] ++
  match nd_role n, nd_link n with RReplica, Some k => link_fields now (rs_offset s) k | _, _ => [] end ++
  [(lit "connected_slaves", int_info (Z.of_nat (length replicas)))] ++ slave_fields 0 now replicas ++
  [(lit "master_replid", IText (rs_replid s)); (lit "master_replid2", IText (rs_replid2 s));
   (lit "master_repl_offset", int_info (rs_offset s)); (lit "second_repl_offset", int_info (rs_second_offset s));
   (lit "repl_backlog_active", int_info (if pr_active p || bool_decide (nd_role n = RReplica) then 1 else 0));
   (lit "repl_backlog_size", int_info (capacity (rs_backlog s)));
   (lit "repl_backlog_first_byte_offset", int_info (bl_start (rs_backlog s)));
   (lit "repl_backlog_histlen", int_info (backlog_len (rs_backlog s)));
   (lit "min_replicas_to_write", int_info (min_replicas_to_write (nd_settings n)));
   (lit "epoch", int_info (nd_epoch n))].

Definition info_sections (now : float) (n : Node) : Info :=
  [(lit "replication", replication_fields now n)].

Definition engine_execute (command : PyArg) (args : list PyArg) (now : float) : NM Reply :=
  let! n := getM in
  on_node_engine (ne_execute (info_sections now n) command args).

(** *** [_execute] *)

(** The checks of a write: the role, then enough replicas. *)
Definition check_write (name : pystr) (now : float) : NM unit :=
  let! n := getM in
  match ne_is_write name with
  | Some true =>
      match nd_role n with
      | RReplica => raise (new_exn ReadOnlyReplicaError [] None)
      | RPrimary => on_primary _ (check_min_replicas (min_replicas_to_write (nd_settings n))
                                    (min_replicas_max_lag_s (nd_settings n)) now)
      end
  | _ => ret tt
  end.

Definition check_migration (name : pystr) (args : list PyArg) : NM unit :=
  let! n := getM in
  match nd_migration n with
  | Some m => on_node_engine (ne_check_migration m name args)
  | None => ret tt
  end.

Definition node_command (command : PyArg) (args : list PyArg) (fresh : pystr) (now : float) : NM NodeResult :=
  let reply (c : NM Reply) : NM NodeResult := let! v := c in ret (NReply v) in
  let name := upper command in
  if bool_decide (name = lit "PSYNC") then psync args
  else if bool_decide (name = lit "REPLCONF") then ret (NReply OK)
  else if bool_decide (name = lit "REPLICAOF") || bool_decide (name = lit "SLAVEOF")
  then reply (replicaof args fresh now)
  else if bool_decide (name = lit "ROLE") then reply role_reply
  else if bool_decide (name = lit "WAIT") then wait_command args
  else if bool_decide (name = lit "CLUSTER") then reply (cluster args)
  else
    check_write name now;;
    check_migration name args;;
    reply (engine_execute command args now).

(** *** [execute]: the same, counted *)
Definition command_label (command : PyArg) : pystr :=
  let name := upper command in
  if found (ne_is_write name) || bool_decide (name ∈ NODE_COMMANDS)
  then str_lower name else lit "unknown".

Definition node_execute (command : PyArg) (args : list PyArg) (fresh : pystr) (now elapsed : float) : NM NodeResult :=
  let! n := getM in
  if negb (cst_enabled (nd_stats n)) then node_command command args fresh now
  else
    let label := command_label command in
    finallyM
      (catchM (node_command command args fresh now) (fun x => isinstance x KVStoreError)
         (fun x => modifyM (fun n => set_node_stats (stats_error label (exn_prefix x) (nd_stats n)) n);; raise x))
      (modifyM (fun n => set_node_stats (stats_record label elapsed (nd_stats n)) n)).

(** The awaitable of WAIT starts. *)
Definition node_wait (needed : Z) : NM Waiting := on_primary _ (wait_begin needed).

(** *** Lifecycle *)
Definition new_node (world : D) (dir : option IO) (port : Z) (settings : ReplicationSettings) (metrics : bool)
    (fresh : pystr) : result exn Node :=
  match new_backlog (backlog_bytes settings) 0 with
  | Raise x => Raise x
  | Ok b =>
      match load_epoch (match dir with Some io => data_of (io_disk io) STATE_FILE | None => None end) with
      | Raise x => Raise x
      | Ok epoch => Ok (mkNode world (new_primary (new_state b fresh)) true settings port RPrimary None epoch dir None
                          (new_stats metrics) [])
      end
  end.

(** [host, _, port = replicaof.rpartition(":")]. *)
Definition node_start (replicaof : option pystr) (now : float) : NM unit :=
  match replicaof with
  | Some ((_ :: _) as spec) =>
      let '(host, _, port) := rpartition 58 spec in
      let! port := lift (py_int_arg (AStr port)) in
      become_replica host port now
  | _ => ret tt
  end.

(** [stop]; the tasks it awaits end by being cancelled. *)
Definition node_stop : NM unit :=
  modifyM (fun n => set_link (cancel_link <$> nd_link n) n);;
  modifyM (fun n => set_migration (stop_migration <$> nd_migration n) (nd_stopping n) n);;
  on_primary _ (modifyM disconnect_all).

(** One round of the pinger. *)
Definition ping_replicas : NM unit :=
  let! n := getM in
  match nd_role n with RPrimary => on_primary _ ping | RReplica => ret tt end.
End Node.
