(* ===== verification/ReplSystem.v ===== *)
(** * Histories of the replication stream

    A history is what one replication id names: the data it starts from and the
    effects that follow, as the bytes of their frames.  The positions of a
    history are the offsets between two frames, each with the data there. *)

From Stdlib Require Import String.
From S2P Require Import Prelude PyStr PyFloat Codec Errors Store Snapshot Registry Resp RespProofs Engine.
From S2P Require Import ReplStream Primary ReplicaLink Metrics ShardNode.
Local Close Scope string_scope.

Abbreviation Frame := (bytes * list pystr)%type.

Definition raws (l : list Frame) : bytes := l ≫= fst.

Lemma raws_cons f l : raws (f :: l) = f.1 ++ raws l.
Proof. done. Qed.

Lemma raws_app l1 l2 : raws (l1 ++ l2) = raws l1 ++ raws l2.
Proof. apply bind_app. Qed.

Definition framed (l : list Frame) : Prop := Forall (fun f => stream_frame f.1 f.2) l.

Section History.
Context {V : Type} (effect : V -> list pystr -> V).

Record History := mkHistory { h_base : Z; h_view : V; h_frames : list Frame }.

Definition h_end (h : History) : Z := h_base h + Z.of_nat (length (raws (h_frames h))).
Definition run_frames (v : V) (l : list Frame) : V := fold_left effect (l.*2) v.

Lemma run_frames_app v l1 l2 : run_frames v (l1 ++ l2) = run_frames (run_frames v l1) l2.
Proof. unfold run_frames. by rewrite fmap_app, fold_left_app. Qed.

(** The data at the offset [o]. *)
Definition position (h : History) (o : Z) (v : V) : Prop :=
  exists l1 l2, h_frames h = l1 ++ l2 /\ o = h_base h + Z.of_nat (length (raws l1)) /\ v = run_frames (h_view h) l1.

(** The bytes [seg] lie at the offset [o]. *)
Definition segment (h : History) (o : Z) (seg : bytes) : Prop :=
  exists pre post, raws (h_frames h) = pre ++ seg ++ post /\ o = h_base h + Z.of_nat (length pre).

Definition extends (h h' : History) : Prop :=
  h_base h' = h_base h /\ h_view h' = h_view h /\ exists l, h_frames h' = h_frames h ++ l.

Definition add_frame (f : Frame) (h : History) : History := mkHistory (h_base h) (h_view h) (h_frames h ++ [f]).

#[global] Instance extends_preorder : PreOrder extends.
Proof.
  split; [intros h; unfold extends; conj; [done|done|exists []; by rewrite app_nil_r]|].
  intros a b c (B1 & V1 & l1 & F1) (B2 & V2 & l2 & F2). unfold extends. conj; [congruence|congruence|].
  exists (l1 ++ l2). by rewrite F2, F1, app_assoc.
Qed.

Lemma extends_add h f : extends h (add_frame f h).
Proof. unfold extends, add_frame. conj; [done|done|by eexists]. Qed.

Lemma extends_end h h' : extends h h' -> h_end h <= h_end h'.
Proof. intros (B & _ & l & F). unfold h_end. rewrite B, F, raws_app, length_app. lia. Qed.

Lemma position_extends h h' o v : extends h h' -> position h o v -> position h' o v.
Proof.
  intros (B & E & l & F) (l1 & l2 & H & -> & ->). exists l1, (l2 ++ l). rewrite B, E, F, H, app_assoc. done.
Qed.

Lemma segment_extends h h' o seg : extends h h' -> segment h o seg -> segment h' o seg.
Proof.
  intros (B & _ & l & F) (pre & post & H & ->). exists pre, (post ++ raws l). rewrite B, F, raws_app, H, <- !app_assoc. done.
Qed.

Lemma position_end h : position h (h_end h) (run_frames (h_view h) (h_frames h)).
Proof. exists (h_frames h), []. by rewrite app_nil_r. Qed.

Lemma position_base h : position h (h_base h) (h_view h).
Proof. exists [], (h_frames h). conj; [done|simpl; lia|done]. Qed.

Lemma position_range h o v : position h o v -> h_base h <= o <= h_end h.
Proof. intros (l1 & l2 & H & -> & _). unfold h_end. rewrite H, raws_app, length_app. lia. Qed.

Lemma segment_range h o seg : segment h o seg -> h_base h <= o /\ o + Z.of_nat (length seg) <= h_end h.
Proof. intros (pre & post & H & ->). unfold h_end. rewrite H, !length_app. lia. Qed.

Lemma frames_nonempty l1 l2 : framed (l1 ++ l2) -> length (raws l1) = length (raws (l1 ++ l2)) -> l2 = [].
Proof.
  intros [_ H]%Forall_app. rewrite raws_app, length_app. destruct l2 as [|f l2]; [done|].
  apply Forall_cons in H as [(Hne & _) _]. rewrite raws_cons, length_app. destruct f.1; [done|]. simpl. lia.
Qed.

(** The data at an offset is one. *)
Lemma position_unique h o v v' : framed (h_frames h) -> position h o v -> position h o v' -> v = v'.
Proof.
  intros Hf (l1 & l2 & H & -> & ->) (l1' & l2' & H' & E & ->). f_equal.
  assert (Hl : length (raws l1) = length (raws l1')) by lia. rewrite H in H'.
  apply app_eq_inv in H' as [(k & -> & ->)|(k & -> & ->)].
  - rewrite H in Hf. rewrite <- app_assoc in Hf. rewrite app_assoc in Hf. apply Forall_app in Hf as [Hf _].
    symmetry in Hl. apply frames_nonempty in Hl as ->; [by rewrite app_nil_r|done].
  - rewrite H in Hf. rewrite app_assoc in Hf. apply Forall_app in Hf as [Hf _].
    apply frames_nonempty in Hl as ->; [by rewrite app_nil_r|done].
Qed.

Lemma segment_nil h o v : position h o v -> segment h o [].
Proof.
  intros (l1 & l2 & H & -> & _). exists (raws l1), (raws l2). by rewrite H, raws_app.
Qed.

(** Cutting and joining segments. *)
Lemma segment_app h o a b : segment h o (a ++ b) <-> segment h o a /\ segment h (o + Z.of_nat (length a)) b.
Proof.
  split.
  - intros (pre & post & H & ->). split.
    + exists pre, (b ++ post). by rewrite H, <- app_assoc.
    + exists (pre ++ a), post. rewrite H, length_app, <- !app_assoc. split; [done|lia].
  - intros [(pre & post & H & ->) (pre' & post' & H' & E)]. exists pre, post'. split; [|done].
    assert (Hl : length pre' = length (pre ++ a)) by (rewrite length_app; lia).
    assert (Hp : pre' = pre ++ a).
    { apply (f_equal (take (length pre'))) in H'. rewrite take_app_length in H'. rewrite <- H', H, Hl, app_assoc.
      by rewrite take_app_length. }
    rewrite H', Hp, <- !app_assoc. done.
Qed.

Lemma segment_to_end h o v : position h o v ->
  segment h o (drop (Z.to_nat (o - h_base h)) (raws (h_frames h))) /\
  o + Z.of_nat (length (drop (Z.to_nat (o - h_base h)) (raws (h_frames h)))) = h_end h.
Proof.
  intros Hp. pose proof (position_range h o v Hp) as Hr. unfold h_end in *. split; [|rewrite length_drop; lia].
  exists (take (Z.to_nat (o - h_base h)) (raws (h_frames h))), []. rewrite app_nil_r, take_drop, length_take. split; [done|lia].
Qed.

(** ** The frames in a segment that starts at a position *)

(** A prefix of the bytes of some frames is whole frames and part of one. *)
Lemma raws_prefix l u post :
  framed l -> raws l = u ++ post ->
  exists ls part l3, l = ls ++ l3 /\ u = raws ls ++ part /\
    match l3 with [] => part = [] | f :: _ => exists w, f.1 = part ++ w /\ w <> [] end.
Proof.
  intros Hf. revert u. induction Hf as [|f l Hf0 Hf IH]; intros u E.
  { symmetry in E. apply app_eq_nil in E as [-> ->]. by exists [], [], []. }
  rewrite raws_cons in E. apply prefix_split in E as [(w & E & Hw)|(u' & -> & E)].
  - exists [], u, (f :: l). conj; [done|done|]. by exists w.
  - destruct (IH u' E) as (ls & part & l3 & -> & -> & Hp). exists (f :: ls), part, l3.
    by rewrite raws_cons, <- app_assoc.
Qed.

Lemma segment_frames h o v u :
  framed (h_frames h) -> position h o v -> segment h o u ->
  exists ls part, u = raws ls ++ part /\ framed ls /\ (forall P : Frame -> Prop, Forall P (h_frames h) -> Forall P ls) /\
    position h (o + Z.of_nat (length (raws ls))) (run_frames v ls) /\
    (forall pre, next_command (pre ++ part) (Z.of_nat (length pre)) = Ok None).
Proof.
  intros Hf (l1 & l2 & H & -> & ->) (pre & post & E & Eo).
  assert (Hl : length pre = length (raws l1)) by lia.
  rewrite H, raws_app in E. apply app_inj_1 in E as [_ E]; [|done].
  rewrite H in Hf. apply Forall_app in Hf as [Hf1 Hf2].
  destruct (raws_prefix l2 u post Hf2 E) as (ls & part & l3 & -> & -> & Hpart).
  apply Forall_app in Hf2 as [Hls Hl3]. exists ls, part. conj; [done|done| | |].
  - rewrite H. intros P [_ HP]%Forall_app. by apply Forall_app in HP as [HP _].
  - exists (l1 ++ ls), l3. rewrite H, raws_app, length_app, app_assoc, run_frames_app. conj; [done|lia|done].
  - intros pre'. destruct l3 as [|f l3].
    + subst part. unfold next_command. rewrite app_nil_r, Z.leb_refl. done.
    + destruct Hpart as (w & Ew & Hw). apply Forall_cons in Hl3 as [(_ & _ & Hwait) _]. by eapply Hwait.
Qed.
End History.

(** * A group of nodes that replicate each other

    The nodes of replication/node.py, their connections, and everything that can
    happen to them, in any order: effects of commands on a primary, commits that
    send the stream, changes of role, connections and their loss, resyncs,
    restarts.  A connection is the wire its primary writes to and how much of it
    the replica has read.

    PSYNC's check of the role and the start of [serve] are one step; what a
    snapshot hands over is fixed when it begins (the records are those of that
    moment); and loading a snapshot succeeds. *)

(** ** What the nodes rely on of their engines

    [rl_view] is the data as a client sees it, [rl_effect] what a recorded
    effect does to it, [rl_records] that some records are a snapshot of it. *)
Class ReplicaLaws (D V : Type) `{NodeEngine D} `{ReplicaEngine D} := {
  rl_view : D -> V;
  rl_effect : V -> list pystr -> V;
  rl_command : list pystr -> Prop;
  rl_records : list SnapshotRecord -> V -> Prop;
  rl_command_name args :
    rl_command args ->
    exists name rest, args = name :: rest /\ str_upper name <> lit "PING" /\ str_upper name <> lit "REPLCONF";
  rl_set_replication r d : rl_view (ne_set_replication r d) = rl_view d;
  rl_get_replication r d : ne_replication (ne_set_replication r d) = r;
  rl_expiry b d :
    exists d', ne_expiry_deletes b d = (Ok tt, d') /\ rl_view d' = rl_view d /\ ne_replication d' = ne_replication d;
  rl_snapshot id d :
    rl_view (ne_begin_snapshot id d).2 = rl_view d /\ ne_replication (ne_begin_snapshot id d).2 = ne_replication d;
  rl_apply name args d :
    rl_command (name :: args) ->
    let '(r, d') := re_apply_replicated name (AStr <$> args) d in
    rl_view d' = rl_effect (rl_view d) (name :: args) /\ ne_replication d' = ne_replication d /\
    match r with Ok _ => True | Raise x => isinstance x KVStoreError = true end;
  rl_load records v t payload d :
    rl_records records v -> encode_snapshot records t = Ok payload ->
    let '(received, failure) := decode_snapshot payload (lit "full resync") in
    exists n d', re_load_snapshot received failure d = (Ok n, d') /\ rl_view d' = v /\
      ne_replication d' = ne_replication d
}.

(** A replication id as [new_replid] draws it: 40 hexadecimal digits. *)
Definition is_hex (c : Z) : bool := ((48 <=? c) && (c <=? 57)) || ((97 <=? c) && (c <=? 102)).
Definition replid_ok (s : pystr) : Prop :=
  length s = 40%nat /\ Forall (fun c => is_hex c = true) s /\ s <> NO_REPLID.

(** ** Nodes and connections *)

(** The replica's end of a connection: the node it leads to, the number it has
    there once PSYNC was served, what was asked for and how much was read. *)
Record Session := mkSession {
  ss_peer : nat;
  ss_conn : option nat;
  ss_request : pystr * Z;
  ss_read : nat
}.

Section System.
Context {D V : Type} `{NodeEngine D} `{ReplicaEngine D} `{!ReplicaLaws D V}.

Record Member := mkMember { mb_node : Node (D := D); mb_session : option Session }.

(** [cf_syncs]: the snapshots that were begun for a replica and not sent yet;
    [cf_drawn]: the replication ids drawn so far. *)
Record Config := mkConfig {
  cf_members : list Member;
  cf_syncs : list ((nat * nat) * list SnapshotRecord);
  cf_drawn : list pystr
}.

Definition put_member (i : nat) (m : Member) (c : Config) : Config :=
  mkConfig (<[i := m]> (cf_members c)) (cf_syncs c) (cf_drawn c).

Definition state_of (m : Member) : ReplicationState := pr_state (nd_primary (mb_node m)).
Definition replid_of (m : Member) : pystr := rs_replid (state_of m).
Definition offset_of (m : Member) : Z := rs_offset (state_of m).
Definition data_of (m : Member) : V := rl_view (nd_world (mb_node m)).
Definition role_of (m : Member) : Role := nd_role (mb_node m).

Definition phase_of (m : Member) : option Phase := lk_phase <$> nd_link (mb_node m).

(** What the replica's end of a connection has not read. *)
Definition unread_of (c : Config) (s : Session) : bytes :=
  match cf_members c !! ss_peer s, ss_conn s with
  | Some p, Some id =>
      match dict_get id (pr_wires (nd_primary (mb_node p))) with
      | Some w => drop (ss_read s) (wi_out w)
      | None => []
      end
  | _, _ => []
  end.

(** The link of a node acts on something that arrived, [n] bytes of its
    connection; an error ends the session. *)
Definition link_receives (act : M exn (LinkWorld D) unit) (n : nat) (m : Member) : Member :=
  match on_link act (mb_node m) with
  | (Ok _, node) =>
      mkMember node ((fun s => mkSession (ss_peer s) (ss_conn s) (ss_request s) (ss_read s + n)) <$> mb_session m)
  | (Raise x, node) => mkMember (set_link (session_failed x <$> nd_link node) node) None
  end.

(** Everything but the node's primary half stays. *)
Definition upd_primary (f : Primary -> Primary) (m : Member) : Member :=
  mkMember (set_world (nd_world (mb_node m)) (f (nd_primary (mb_node m))) (mb_node m)) (mb_session m).

Definition lose_session (m : Member) : Member :=
  mkMember (set_link (set_phase PIdle <$> nd_link (mb_node m)) (mb_node m)) None.

(** The other ends of the connections of a node that restarts. *)
Definition reset_peer (i : nat) (m : Member) : Member :=
  match mb_session m with
  | Some s => if bool_decide (ss_peer s = i) then lose_session m else m
  | None => m
  end.

(** A line that ends where it should. *)
Definition is_line (line : bytes) : Prop := exists l, line = l ++ [10] /\ 10 ∉ l.

(** ** What can happen *)
Context (address : pystr -> Z -> option nat).

Inductive sys_step (c : Config) : Config -> Prop :=
(* a command's effect on a primary: recorded if its stream is active *)
| step_effect i m d' args raw :
    cf_members c !! i = Some m -> role_of m = RPrimary -> ne_replication d' = None ->
    effect_fits args -> encode_command args = Ok raw ->
    (pr_active (nd_primary (mb_node m)) = true ->
     rl_command (arg_text <$> args) /\ rl_view d' = rl_effect (data_of m) (arg_text <$> args)) ->
    sys_step c (put_member i (mkMember (set_world d' (Primary.feed raw (nd_primary (mb_node m))) (mb_node m)) (mb_session m)) c)
(* whatever changes an engine and not its data *)
| step_local i m d' :
    cf_members c !! i = Some m -> ne_replication d' = None -> rl_view d' = data_of m ->
    sys_step c (put_member i (mkMember (set_world d' (nd_primary (mb_node m)) (mb_node m)) (mb_session m)) c)
| step_commit i m :
    cf_members c !! i = Some m -> sys_step c (put_member i (upd_primary Primary.flush m) c)
| step_ping i m :
    cf_members c !! i = Some m -> sys_step c (put_member i (mkMember (ping_replicas (mb_node m)).2 (mb_session m)) c)
| step_wait i m needed :
    cf_members c !! i = Some m -> role_of m = RPrimary ->
    sys_step c (put_member i (mkMember (node_wait needed (mb_node m)).2 (mb_session m)) c)
| step_promote i m fresh :
    cf_members c !! i = Some m -> replid_ok fresh -> fresh ∉ cf_drawn c ->
    sys_step c (mkConfig (<[i := mkMember (become_primary fresh (mb_node m)).2 None]> (cf_members c)) (cf_syncs c)
                  (fresh :: cf_drawn c))
| step_demote i m host port now :
    cf_members c !! i = Some m ->
    match nd_link (mb_node m) with Some k => same_primary host port k | None => false end = false ->
    sys_step c (put_member i (mkMember (become_replica host port now (mb_node m)).2 None) c)
(* the link connects and asks *)
| step_connect i m k peer :
    cf_members c !! i = Some m -> nd_link (mb_node m) = Some k -> lk_phase k = PIdle ->
    address (lk_host k) (lk_port k) = Some peer ->
    sys_step c (put_member i (mkMember (on_link session_begin (mb_node m)).2 (Some (mkSession peer None (lit "?", -1) 0))) c)
| step_ask i m s :
    cf_members c !! i = Some m -> mb_session m = Some s -> phase_of m = Some POk ->
    sys_step c (put_member i (mkMember (on_link (expect_ok (lit "+OK" ++ CRLF)) (mb_node m)).2
                  (Some (mkSession (ss_peer s) None (psync_args (state_of m)) 0))) c)
(* the primary serves it *)
| step_serve i m s j p host now records id node :
    cf_members c !! i = Some m -> mb_session m = Some s -> phase_of m = Some PLine -> ss_conn s = None ->
    ss_peer s = j -> cf_members c !! j = Some p -> role_of p = RPrimary -> rl_records records (data_of p) ->
    node_serve host (ss_request s).1 (ss_request s).2 now (mb_node p) = (Ok id, node) ->
    sys_step c
      (mkConfig (<[i := mkMember (mb_node m) (Some (mkSession j (Some id) (ss_request s) 0))]>
                   (<[j := mkMember node (mb_session p)]> (cf_members c)))
         (if can_continue (ss_request s).1 (ss_request s).2 (state_of p) then cf_syncs c
          else dict_set (j, id) records (cf_syncs c))
         (cf_drawn c))
| step_snapshot j p id records created_at node r :
    cf_members c !! j = Some p -> dict_get (j, id) (cf_syncs c) = Some records ->
    on_primary _ (serve_snapshot id records created_at) (mb_node p) = (r, node) ->
    sys_step c
      (mkConfig (<[j := upd_primary (match r with Ok _ => fun x => x | Raise _ => serve_end id end)
                          (mkMember node (mb_session p))]> (cf_members c))
         (dict_pop (j, id) (cf_syncs c)) (cf_drawn c))
| step_online j p id :
    cf_members c !! j = Some p -> dict_get (j, id) (cf_syncs c) = None ->
    sys_step c (put_member j (upd_primary (serve_online id) p) c)
| step_acks j p id data now :
    cf_members c !! j = Some p ->
    sys_step c (put_member j (upd_primary (fun x => (serve_data id data now x).2) p) c)
| step_close j p id :
    cf_members c !! j = Some p -> sys_step c (put_member j (upd_primary (serve_end id) p) c)
| step_sent j p id n :
    cf_members c !! j = Some p ->
    sys_step c (put_member j (upd_primary (on_wire (fun w => mkWire (wi_out w) n (wi_closed w)) id) p) c)
(* what was written arrives *)
| step_line i m s line rest act now :
    cf_members c !! i = Some m -> mb_session m = Some s -> unread_of c s = line ++ rest -> is_line line ->
    match phase_of m with
    | Some PLine => act = psync_line line now
    | Some (PHeader replid start) => act = snapshot_header replid start line
    | _ => False
    end ->
    sys_step c (put_member i (link_receives act (length line) m) c)
| step_payload i m s replid start size now :
    cf_members c !! i = Some m -> mb_session m = Some s -> phase_of m = Some (PPayload replid start size) ->
    size <= Z.of_nat (length (unread_of c s)) ->
    sys_step c (put_member i
      (link_receives (snapshot_payload replid start (take (Z.to_nat size) (unread_of c s)) now) (Z.to_nat size) m) c)
| step_stream i m s buf data rest now :
    cf_members c !! i = Some m -> mb_session m = Some s -> phase_of m = Some (PStream buf) ->
    unread_of c s = data ++ rest -> data <> [] ->
    sys_step c (put_member i (link_receives (let! _ := stream_data buf data now in ret tt) (length data) m) c)
| step_ack i m s buf :
    cf_members c !! i = Some m -> mb_session m = Some s -> phase_of m = Some (PStream buf) ->
    sys_step c (put_member i (mkMember (on_link send_ack (mb_node m)).2 (Some s)) c)
(* connections are lost, nodes restart *)
| step_lost i m :
    cf_members c !! i = Some m -> sys_step c (put_member i (lose_session m) c)
| step_restart i m d dir port settings metrics fresh node :
    cf_members c !! i = Some m -> replid_ok fresh -> fresh ∉ cf_drawn c -> ne_replication d = None ->
    new_node d dir port settings metrics fresh = Ok node ->
    sys_step c (mkConfig (<[i := mkMember node None]> (reset_peer i <$> cf_members c))
                  (List.filter (fun '((j, _), _) => negb (bool_decide (j = i))) (cf_syncs c)) (fresh :: cf_drawn c)).

(** ** Where it starts: new nodes *)
Definition started (c : Config) : Prop :=
  cf_syncs c = [] /\ cf_drawn c = replid_of <$> cf_members c /\ NoDup (cf_drawn c) /\ Forall replid_ok (cf_drawn c) /\
  Forall (fun m => exists d dir port settings metrics fresh,
            new_node d dir port settings metrics fresh = Ok (mb_node m) /\ ne_replication d = None /\
            mb_session m = None) (cf_members c).

(** Offsets and connections stay below 2^63 bytes. *)
Definition in_range (c : Config) : Prop :=
  Forall (fun m => Z.abs (offset_of m) < 2 ^ 63 /\
            Forall (fun '(_, w) => Z.of_nat (length (wi_out w)) < 2 ^ 63) (pr_wires (nd_primary (mb_node m))))
    (cf_members c).

(** The configurations of a run, the last one first. *)
Inductive sys_run : list Config -> Prop :=
| run_start c : started c -> sys_run [c]
| run_step c c' past : sys_run (c :: past) -> sys_step c c' -> in_range c' -> sys_run (c' :: c :: past).
End System.
