(* ===== verification/ReplLinkProofs.v ===== *)
(** * The replica's link: what it makes of what a primary writes

    The lines of the handshake are read back with what was put into them, and
    the stream is applied frame by frame, however it is cut. *)

From Stdlib Require Import String.
From S2P Require Import Prelude PyStr PyFloat Errors Codec Store Snapshot Registry Resp RespProofs Manifest.
From S2P Require Import ReplStream Engine Primary ReplicaLink Metrics ShardNode ReplSystem.
Local Close Scope string_scope.

(** ** Words and lines *)
Definition word (s : pystr) : Prop := s <> [] /\ Forall (fun c => is_text_space c = false) s.

Lemma split_text_word acc w s :
  Forall (fun c => is_text_space c = false) w -> split_text acc (w ++ s) = split_text (reverse w ++ acc) s.
Proof.
  intros H. revert acc. induction H as [|c w Hc H IH]; intros acc; [done|]. simpl app. cbn [split_text]. rewrite Hc, IH.
  by rewrite reverse_cons, <- app_assoc.
Qed.

Lemma split_text_first w s : word w -> split_text [] (w ++ 32 :: s) = w :: split_text [] s.
Proof.
  intros [Hne Hw]. rewrite split_text_word by done. rewrite app_nil_r. cbn [split_text].
  change (is_text_space 32) with true. cbn iota. destruct (reverse w) eqn:E.
  - apply (f_equal reverse) in E. by rewrite reverse_involutive in E.
  - rewrite <- E, reverse_involutive. done.
Qed.

Lemma split_text_last w : word w -> split_text [] w = [w].
Proof.
  intros [Hne Hw]. rewrite <- (app_nil_r w) at 1. rewrite split_text_word, app_nil_r by done. cbn [split_text].
  destruct (reverse w) eqn:E.
  - apply (f_equal reverse) in E. by rewrite reverse_involutive in E.
  - rewrite <- E, reverse_involutive. done.
Qed.

Lemma hex_char c : is_hex c = true -> 48 <= c < 58 \/ 97 <= c < 103.
Proof. unfold is_hex. lia. Qed.

Lemma text_space_digit c : 48 <= c < 123 \/ c = 45 -> is_text_space c = false.
Proof.
  intros Hc. unfold is_text_space. apply orb_false_iff. split; [|lia].
  unfold is_int_space. apply bool_decide_false. unfold int_spaces. rewrite !elem_of_cons. intros Hin.
  repeat (destruct Hin as [->|Hin]; [lia|]). set_solver.
Qed.

Lemma replid_word s : replid_ok s -> word s.
Proof.
  intros (Hl & Hh & _). split; [by destruct s|]. eapply Forall_impl; [exact Hh|]. simpl.
  intros c Hc%hex_char. apply text_space_digit. lia.
Qed.

Lemma replid_ascii s : replid_ok s -> ascii s.
Proof. intros (_ & Hh & _). eapply Forall_impl; [exact Hh|]. simpl. intros c Hc%hex_char. lia. Qed.

Lemma int_word z : word (str_of_int z).
Proof.
  split; [unfold str_of_int; destruct (z <? 0); [done|]; by intros E%fmap_nil_inv%dec_digits_nonempty|].
  apply str_of_int_chars. intros c Hc. apply text_space_digit. lia.
Qed.

Lemma int_ascii z : ascii (str_of_int z).
Proof.
  assert (H := str_of_int_chars (fun c => negb ((0 <=? c) && (c <? 128))) z ltac:(intros c Hc; simpl; lia)).
  eapply Forall_impl; [exact H|]. simpl. intros c Hc. lia.
Qed.

(** [strip] takes the line's end away and nothing else. *)
Lemma strip_line s : s <> [] -> (forall c, head s = Some c -> is_text_space c = false) ->
  (forall c, last s = Some c -> is_text_space c = false) -> strip is_text_space (s ++ CRLF) = s.
Proof.
  intros Hne Hh Hl. unfold strip, rstrip.
  assert (E : lstrip is_text_space (s ++ CRLF) = s ++ CRLF).
  { destruct s as [|c s]; [done|]. simpl app. apply lstrip_head. by apply Hh. }
  rewrite E. unfold CRLF. rewrite reverse_app. change (reverse [13; 10]) with [10; 13]. cbn [app lstrip].
  change (is_text_space 10) with true. change (is_text_space 13) with true. cbn iota.
  destruct (reverse s) as [|c t] eqn:Er.
  - apply (f_equal reverse) in Er. by rewrite reverse_involutive in Er.
  - rewrite lstrip_head; [by rewrite <- Er, reverse_involutive|]. apply Hl.
    rewrite <- (reverse_involutive s), Er, reverse_cons, last_snoc. done.
Qed.

Lemma word_ends w : word w -> (forall c, head w = Some c -> is_text_space c = false) /\
  (forall c s, last (s ++ w) = Some c -> is_text_space c = false).
Proof.
  intros [Hne Hw]. split.
  - intros c Hc. destruct w; [done|]. injection Hc as ->. by inversion Hw.
  - intros c s Hc. destruct w as [|a w] using rev_ind; [done|]. rewrite app_assoc, last_snoc in Hc. injection Hc as ->.
    apply Forall_app in Hw as [_ Hw]. by inversion Hw.
Qed.

(** Two lines that start the same bytes are the same. *)
Lemma line_unique l l' r r' : 10 ∉ l -> 10 ∉ l' -> l ++ [10] ++ r = l' ++ [10] ++ r' -> l = l' /\ r = r'.
Proof.
  revert l'. induction l as [|c l IH]; intros [|c' l'] Hl Hl' E; simpl in E.
  - injection E as ->. done.
  - injection E as <- _. set_solver.
  - injection E as -> _. set_solver.
  - injection E as -> E. destruct (IH l') as [-> ->]; [set_solver|set_solver|done|done].
Qed.

Lemma line_of l line rest r :
  is_line line -> 10 ∉ l -> line ++ rest = (l ++ [10]) ++ r -> line = l ++ [10] /\ rest = r.
Proof.
  intros (l' & -> & Hl') Hl E. rewrite <- !app_assoc in E. destruct (line_unique l' l rest r Hl' Hl E) as [-> ->]. done.
Qed.

Lemma no_newline s : Forall (fun c => (c =? 10) = false) s -> 10 ∉ s.
Proof. intros H Hin. rewrite Forall_forall in H. specialize (H 10 Hin). done. Qed.

Lemma int_no_newline z : 10 ∉ str_of_int z.
Proof. apply no_newline, str_of_int_chars. intros c Hc. lia. Qed.

Lemma replid_no_newline s : replid_ok s -> 10 ∉ s.
Proof. intros (_ & Hh & _). apply no_newline. eapply Forall_impl; [exact Hh|]. simpl. intros c Hc%hex_char. lia. Qed.

(** The line without its last byte. *)
Lemma continue_line_newline Y : replid_ok Y -> exists l, continue_line Y = l ++ [10] /\ 10 ∉ l.
Proof.
  intros HY. exists (lit "+CONTINUE " ++ Y ++ [13]). unfold continue_line, CRLF. rewrite <- !app_assoc. split; [done|].
  pose proof (replid_no_newline Y HY). rewrite !elem_of_app. intros [Hin|[Hin|Hin]]; [vm_compute in Hin|done|]; set_solver.
Qed.

Lemma fullresync_line_newline Y o : replid_ok Y -> exists l, fullresync_line Y o = l ++ [10] /\ 10 ∉ l.
Proof.
  intros HY. exists (lit "+FULLRESYNC " ++ Y ++ 32 :: str_of_int o ++ [13]). unfold fullresync_line, CRLF.
  split; [by rewrite <- !app_assoc; simpl; rewrite <- !app_assoc|].
  pose proof (replid_no_newline Y HY). pose proof (int_no_newline o).
  rewrite !elem_of_app, elem_of_cons, elem_of_app. intros [Hin|[Hin|[Hin|[Hin|Hin]]]]; try done; [vm_compute in Hin|]; set_solver.
Qed.

Lemma head_line_newline n : exists l, head_line 36 n = l ++ [10] /\ 10 ∉ l.
Proof.
  exists (36 :: str_of_int n ++ [13]). unfold head_line, CRLF. split; [by simpl; rewrite <- app_assoc|].
  pose proof (int_no_newline n). rewrite elem_of_cons, elem_of_app. intros [Hin|[Hin|Hin]]; try done. set_solver.
Qed.

(** ** The handshake *)
Section Handshake.
Context {D : Type} `{NodeEngine D} `{ReplicaEngine D}.
Implicit Types w : LinkWorld D.

Lemma encode_texts_ok args :
  Forall (fun a => ascii (arg_text a)) args -> exists raw, encode_command args = Ok raw.
Proof.
  intros Ha. unfold encode_command. assert (Hc : exists b, concat_ok encode_arg args = Ok b).
  { induction Ha as [|a args Hx Hs (b & IH)]; [by exists []|]. cbn [concat_ok]. unfold encode_arg at 1, bulk_text, encode_text.
    fold (arg_text a). rewrite (to_bytes_ascii _ Hx), IH. by eexists. }
  destruct Hc as [b ->]. by eexists.
Qed.

(** Writing to the connection changes nothing but what was written. *)
Lemma link_write_ok args w :
  Forall (fun a => ascii (arg_text a)) args ->
  exists out, link_write args w = (Ok tt, mkLW (lw_data w) (lw_state w) (set_link_out out (lw_link w))).
Proof.
  intros Ha. destruct (encode_texts_ok args Ha) as [raw E]. unfold link_write, bindM, lift. rewrite E.
  by eexists.
Qed.

Ltac ascii_args :=
  repeat (apply Forall_cons; split); try apply Forall_nil_2; cbn [arg_text str_of_arg];
  first [apply int_ascii | simpl; lia].

Lemma port_ascii port :
  Forall (fun a => ascii (arg_text a)) [AStr (lit "REPLCONF"); AStr (lit "listening-port"); AInt port].
Proof. ascii_args. Qed.

(** The link after the handshake. *)
Definition streaming (out : bytes) (now : float) (k : Link) : Link :=
  set_phase (PStream []) (set_link_out out (set_last_io now (set_link_state LConnected k))).

Lemma enter_stream_ok now w :
  exists out, enter_stream now w = (Ok tt, mkLW (lw_data w) (lw_state w) (streaming out now (lw_link w))).
Proof.
  unfold enter_stream, announce_port, bindM, upd_link, modifyM, get_link, readM. cbn [lw_data lw_state lw_link].
  match goal with |- context [link_write ?a ?w'] => destruct (link_write_ok a w' (port_ascii _)) as (out & E) end.
  rewrite E. by eexists.
Qed.

(** [+CONTINUE]: the position stays; a new id is taken over and the old one kept. *)
Definition continued (Y : pystr) (s : ReplicationState) : ReplicationState :=
  if bool_decide (Y = rs_replid s) then s else mkRState (rs_backlog s) Y (rs_replid s) (rs_offset s).

Lemma continue_text Y : replid_ok Y ->
  decode_strict (continue_line Y) = Some (continue_line Y) /\
  strip is_text_space (continue_line Y) = lit "+CONTINUE " ++ Y /\
  split_text [] (lit "+CONTINUE " ++ Y) = [lit "+CONTINUE"; Y].
Proof.
  intros HY. pose proof (replid_word Y HY) as Hw. destruct (word_ends Y Hw) as [_ Hlast]. conj.
  - apply utf8_strict_ascii. unfold continue_line, ascii, CRLF. rewrite !Forall_app.
    conj; [repeat constructor; done|by apply replid_ascii|repeat constructor; done].
  - unfold continue_line. rewrite app_assoc. apply strip_line; [done| |by intros c; apply Hlast]. intros c [= <-]. done.
  - change (lit "+CONTINUE " ++ Y) with (lit "+CONTINUE" ++ 32 :: Y). rewrite split_text_first, split_text_last; [done|done|].
    split; [done|]. repeat constructor; done.
Qed.

Lemma psync_continue Y now w :
  replid_ok Y ->
  exists out, psync_line (continue_line Y) now w =
    (Ok tt, mkLW (lw_data w) (continued Y (lw_state w))
              (streaming out now (set_syncs (full_syncs (lw_link w)) (partial_syncs (lw_link w) + 1) (lw_link w)))).
Proof.
  intros HY. destruct (continue_text Y HY) as (E1 & E2 & E3). unfold psync_line. rewrite E1, E2.
  change (starts_with (lit "+FULLRESYNC") (lit "+CONTINUE " ++ Y)) with
    (bool_decide (take 11 (lit "+CONTINUE " ++ Y) = lit "+FULLRESYNC")).
  rewrite bool_decide_false by (destruct Y; done).
  change (starts_with (lit "+CONTINUE") (lit "+CONTINUE " ++ Y)) with true. cbn iota. rewrite E3.
  unfold bindM at 1, get_state, readM. unfold bindM at 1. unfold continued.
  destruct (bool_decide (Y = rs_replid (lw_state w))); unfold bindM at 1, upd_state, upd_link, modifyM, ret;
    cbn [lw_data lw_state lw_link]; (edestruct enter_stream_ok as (out & E); exists out; rewrite E; done).
Qed.

Lemma fullresync_text Y o : replid_ok Y ->
  decode_strict (fullresync_line Y o) = Some (fullresync_line Y o) /\
  strip is_text_space (fullresync_line Y o) = lit "+FULLRESYNC " ++ Y ++ 32 :: str_of_int o /\
  split_text [] (lit "+FULLRESYNC " ++ Y ++ 32 :: str_of_int o) = [lit "+FULLRESYNC"; Y; str_of_int o].
Proof.
  intros HY. pose proof (replid_word Y HY) as Hw. pose proof (int_word o) as Ho. destruct (word_ends _ Ho) as [_ Hlast].
  conj.
  - apply utf8_strict_ascii. unfold fullresync_line, ascii, CRLF. apply Forall_app. split; [repeat constructor; done|].
    apply Forall_app. split; [by apply replid_ascii|]. constructor; [lia|]. apply Forall_app.
    split; [apply int_ascii|repeat constructor; done].
  - unfold fullresync_line.
    replace (lit "+FULLRESYNC " ++ Y ++ 32 :: str_of_int o ++ CRLF)
      with ((lit "+FULLRESYNC " ++ Y ++ 32 :: str_of_int o) ++ CRLF) by (rewrite <- !app_assoc; done).
    apply strip_line; [done| |].
    + intros c [= <-]. done.
    + intros c. replace (lit "+FULLRESYNC " ++ Y ++ 32 :: str_of_int o) with ((lit "+FULLRESYNC " ++ Y ++ [32]) ++ str_of_int o)
        by (rewrite <- !app_assoc; done). apply Hlast.
  - change (lit "+FULLRESYNC " ++ Y ++ 32 :: str_of_int o) with (lit "+FULLRESYNC" ++ 32 :: Y ++ 32 :: str_of_int o).
    rewrite !split_text_first, split_text_last; [done|done|done|]. split; [done|]. repeat constructor; done.
Qed.

Lemma psync_full Y o now w :
  replid_ok Y ->
  psync_line (fullresync_line Y o) now w =
    (Ok tt, mkLW (lw_data w) (lw_state w) (set_phase (PHeader Y (str_of_int o)) (lw_link w))).
Proof.
  intros HY. destruct (fullresync_text Y o HY) as (E1 & E2 & E3). unfold psync_line. rewrite E1, E2.
  change (starts_with (lit "+FULLRESYNC") (lit "+FULLRESYNC " ++ Y ++ 32 :: str_of_int o)) with true. cbn iota.
  rewrite E3. done.
Qed.

Lemma header_ok Y start n w :
  0 <= n <= 2 ^ 64 ->
  snapshot_header Y start (head_line 36 n) w =
    (Ok tt, mkLW (lw_data w) (lw_state w) (set_phase (PPayload Y start n) (lw_link w))).
Proof.
  intros Hn. unfold snapshot_header. change (starts_with (lit "$") (head_line 36 n)) with true. cbn [negb]. cbn iota.
  assert (E : py_int_bytes (drop 1 (head_line 36 n)) = Some n).
  { unfold head_line. cbn [drop]. rewrite drop_0. unfold py_int_bytes.
    replace (strip is_ascii_space (str_of_int n ++ CRLF)) with (strip is_ascii_space (str_of_int n)).
    - apply (py_int_str_of_int64 n). lia.
    - assert (Hs : Forall (fun c => is_ascii_space c = false) (str_of_int n))
        by (apply str_of_int_chars; intros c Hc; unfold is_ascii_space; lia).
      rewrite strip_id by done. unfold strip, rstrip. destruct (str_of_int n) as [|c t] eqn:Et; [by destruct (int_word n) as [? _]|].
      rewrite <- app_comm_cons, lstrip_head by (by inversion Hs). rewrite app_comm_cons, <- Et in *. unfold CRLF.
      rewrite reverse_app. change (reverse [13; 10]) with [10; 13]. cbn [app lstrip].
      change (is_ascii_space 10) with true. change (is_ascii_space 13) with true. cbn iota.
      destruct (reverse (str_of_int n)) as [|a l] eqn:Er; [apply (f_equal reverse) in Er; by rewrite reverse_involutive, Et in Er|].
      rewrite lstrip_head; [by rewrite <- Er, reverse_involutive|]. apply Forall_reverse in Hs. rewrite Er in Hs. by inversion Hs. }
  rewrite E. destruct (Z.ltb_spec n 0); [lia|]. done.
Qed.
End Handshake.

(** ** The stream *)
Section Stream.
Context {D V : Type} `{NodeEngine D} `{ReplicaEngine D} `{!ReplicaLaws D V}.
Implicit Types w : LinkWorld D.

(** Commands that only travel in the stream: they leave the data alone. *)
Definition internal (name : pystr) : bool :=
  bool_decide (str_upper name = lit "PING") || bool_decide (str_upper name = lit "REPLCONF").

Definition effect (v : V) (args : list pystr) : V :=
  match args with [] => v | name :: _ => if internal name then v else rl_effect v args end.

Definition frame_ok (args : list pystr) : Prop :=
  exists name rest, args = name :: rest /\ (internal name = true \/ rl_command args).

Lemma command_effect v args : rl_command args -> effect v args = rl_effect v args /\ frame_ok args.
Proof.
  intros Hc. destruct (rl_command_name args Hc) as (name & rest & -> & H1 & H2). split; [|by exists name, rest; auto].
  unfold effect, internal. by rewrite !bool_decide_false.
Qed.

Lemma send_ack_ok w :
  exists out, send_ack w = (Ok tt, mkLW (lw_data w) (lw_state w) (set_link_out out (lw_link w))).
Proof.
  unfold send_ack. unfold bindM at 1, get_state, readM. apply link_write_ok.
  repeat (apply Forall_cons; split); try apply Forall_nil_2; cbn [arg_text str_of_arg];
    first [apply int_ascii | simpl; lia].
Qed.

Lemma set_link_out_id k : set_link_out (lk_out k) k = k.
Proof. by destruct k. Qed.

Lemma link_apply_ok args w :
  frame_ok args ->
  exists d' out, link_apply args w = (Ok tt, mkLW d' (lw_state w) (set_link_out out (lw_link w))) /\
    rl_view d' = effect (rl_view (lw_data w)) args /\ ne_replication d' = ne_replication (lw_data w).
Proof.
  intros (name & rest & -> & Hor). unfold link_apply, effect, internal in *.
  assert (Hid : w = mkLW (lw_data w) (lw_state w) (set_link_out (lk_out (lw_link w)) (lw_link w)))
    by (rewrite set_link_out_id; by destruct w).
  case_bool_decide as Hp; [exists (lw_data w), (lk_out (lw_link w)); unfold ret; simpl; rewrite <- Hid; auto|].
  case_bool_decide as Hr; simpl in *.
  - destruct rest as [|a1 rest]; [|case_bool_decide].
    2: { destruct (send_ack_ok w) as (out & E). exists (lw_data w), out. by rewrite E. }
    all: exists (lw_data w), (lk_out (lw_link w)); unfold ret; rewrite <- Hid; auto.
  - destruct Hor as [[=]|Hc]. pose proof (rl_apply name rest (lw_data w) Hc) as Ha. unfold catchM, on_engine.
    destruct (re_apply_replicated name (AStr <$> rest) (lw_data w)) as [r d'] eqn:Er. destruct Ha as (Hv & Hn & Hx).
    exists d', (lk_out (lw_link w)). rewrite set_link_out_id. destruct r as [[]|x]; [done|].
    rewrite Hx. done.
Qed.

Definition append_frames (ls : list Frame) (s : ReplicationState) : ReplicationState :=
  fold_left (fun s f => set_backlog (append f.1 (rs_backlog s)) s) ls s.

Lemma stream_loop_ok ls : forall fuel pre part w,
  framed ls -> Forall (fun f => frame_ok f.2) ls -> (length ls <= fuel)%nat ->
  (forall pre, next_command (pre ++ part) (Z.of_nat (length pre)) = Ok None) ->
  exists d' out, stream_loop fuel (pre ++ raws ls ++ part) (Z.of_nat (length pre)) w =
    (Ok (Some (Z.of_nat (length (pre ++ raws ls)))),
     mkLW d' (append_frames ls (lw_state w)) (set_link_out out (lw_link w))) /\
    rl_view d' = run_frames effect (rl_view (lw_data w)) ls /\ ne_replication d' = ne_replication (lw_data w).
Proof.
  induction ls as [|[raw args] ls IH]; intros fuel pre part w Hf Ho Hfuel Hpart.
  - exists (lw_data w), (lk_out (lw_link w)). split; [|done].
    destruct fuel; cbn [stream_loop]; unfold bindM, lift; simpl; rewrite app_nil_r, Hpart, set_link_out_id; by destruct w.
  - apply Forall_cons in Hf as [(_ & Hparse & _) Hf]. apply Forall_cons in Ho as [Ho0 Ho]. simpl in Hparse, Ho0.
    destruct fuel as [|fuel]; [simpl in Hfuel; lia|]. cbn [stream_loop]. rewrite raws_cons. cbn [fst]. unfold bindM at 1, lift.
    rewrite <- app_assoc, Hparse. destruct (link_apply_ok args w Ho0) as (d1 & o1 & E1 & V1 & N1). unfold bindM at 1. rewrite E1.
    unfold bindM at 1, upd_state, modifyM. cbn [lw_data lw_state lw_link].
    assert (Hsl : py_slice (Z.of_nat (length pre)) (Z.of_nat (length (pre ++ raw))) (pre ++ raw ++ raws ls ++ part) = raw).
    { replace (Z.of_nat (length pre)) with (Z.of_nat (length pre + 0)) by (f_equal; lia). rewrite (length_app pre raw).
      rewrite py_slice_app by (rewrite ?length_app; lia). unfold slice. by rewrite drop_0, Nat.sub_0_r, take_app_length. }
    rewrite Hsl, (app_assoc pre raw).
    destruct (IH fuel (pre ++ raw) part (mkLW d1 (set_backlog (append raw (rs_backlog (lw_state w))) (lw_state w))
      (set_link_out o1 (lw_link w)))) as (d2 & o2 & E2 & V2 & N2); [done|done|simpl in Hfuel; lia|done|].
    exists d2, o2. rewrite E2. cbn [lw_data lw_state lw_link] in *. conj.
    + by rewrite app_assoc.
    + rewrite V2, V1. done.
    + congruence.
Qed.
End Stream.
