(* ===== verification/ReplWires.v ===== *)
(** * What is on the wires of a primary

    Every connection of a primary starts with an answer to PSYNC and goes on with
    the bytes of one history; the replicas the primary still knows are at the
    end of what was written to them.  The operations of primary.py keep this. *)

From Stdlib Require Import String.
From S2P Require Import Prelude PyStr PyFloat Errors Codec Store Snapshot Registry Resp RespProofs ReplStream.
From S2P Require Import Engine Primary ReplicaLink Metrics ShardNode ReplSystem ReplLinkProofs.
Local Close Scope string_scope.

(** ** The shape of a connection *)

(** Its history, the offset its stream starts from, whether it is a full resync,
    and the snapshot with its header, empty until it is written. *)
Record Shape := mkShape { sh_id : pystr; sh_off : Z; sh_full : bool; sh_payload : bytes }.

Definition head_of (s : Shape) : bytes :=
  if sh_full s then fullresync_line (sh_id s) (sh_off s) ++ sh_payload s else continue_line (sh_id s).

(** The stream may follow. *)
Definition sh_ready (s : Shape) : bool := negb (sh_full s) || negb (bool_decide (sh_payload s = [])).

Section Wires.
Context {D V : Type} `{NodeEngine D} `{ReplicaEngine D} `{!ReplicaLaws D V}.
Context (G : gmap pystr (History (V := V))).

Abbreviation position := (position (effect (D := D) (V := V))).

Definition snapshot_part (h : History) (s : Shape) : Prop :=
  sh_payload s <> [] ->
  exists records v t payload, encode_snapshot records t = Ok payload /\ rl_records records v /\
    position h (sh_off s) v /\ sh_payload s = head_line 36 (Z.of_nat (length payload)) ++ payload.

Definition shape_ok (s : Shape) (out : bytes) : Prop :=
  exists h seg, G !! sh_id s = Some h /\ replid_ok (sh_id s) /\ out = head_of s ++ seg /\
    segment h (sh_off s) seg /\ (sh_ready s = false -> seg = []) /\ snapshot_part h s.

(** ** A primary *)
Section Primary.
Context (shape_at : nat -> option Shape) (sync_at : nat -> option (list SnapshotRecord)).

(** The snapshot that was begun for a replica is of the moment its stream starts. *)
Definition sync_ok (s : Shape) (id : nat) : Prop :=
  (sh_ready s = false <-> is_Some (sync_at id)) /\
  forall records, sync_at id = Some records ->
    exists h v, G !! sh_id s = Some h /\ position h (sh_off s) v /\ rl_records records v.

Definition replica_ok (p : Primary) (id : nat) (r : ConnectedReplica) : Prop :=
  exists s w seg, shape_at id = Some s /\ dict_get id (pr_wires p) = Some w /\ wi_closed w = false /\
    sh_id s = rs_replid (pr_state p) /\ cr_start r = sh_off s /\ wi_out w = head_of s ++ seg /\
    cr_sent r = sh_off s + Z.of_nat (length seg) /\ (is_online r = true -> sh_ready s = true) /\ sync_ok s id.

Record prim_ok (p : Primary) : Prop := mkPrimOk {
  po_wf : dict_wf (pr_replicas p);
  po_wires id w : dict_get id (pr_wires p) = Some w ->
    exists s, shape_at id = Some s /\ shape_ok s (wi_out w) /\
      (dict_get id (pr_replicas p) = None -> wi_closed w = true);
  po_replicas id r : dict_get id (pr_replicas p) = Some r -> replica_ok p id r;
  po_bound id : (pr_next_id p <= id)%nat ->
    shape_at id = None /\ dict_get id (pr_wires p) = None /\ dict_get id (pr_replicas p) = None /\ sync_at id = None
}.

(** Wires are only written to. *)
Definition wires_grow (p p' : Primary) : Prop :=
  forall id w, dict_get id (pr_wires p) = Some w ->
    exists w' ext, dict_get id (pr_wires p') = Some w' /\ wi_out w' = wi_out w ++ ext.

Definition evolves (p p' : Primary) : Prop :=
  pr_state p' = pr_state p /\ pr_active p' = pr_active p /\ pr_next_id p' = pr_next_id p /\
  (pr_replicas p = [] -> pr_replicas p' = []) /\ wires_grow p p'.

#[global] Instance evolves_preorder : PreOrder evolves.
Proof.
  split.
  - intros p. unfold evolves. conj; try done. intros id w Hw. exists w, []. by rewrite app_nil_r.
  - intros a b c (S1 & A1 & N1 & R1 & W1) (S2 & A2 & N2 & R2 & W2). unfold evolves. conj; try congruence; [auto|].
    intros id w Hw. destruct (W1 id w Hw) as (w1 & e1 & H1 & E1). destruct (W2 id w1 H1) as (w2 & e2 & H2 & E2).
    exists w2, (e1 ++ e2). split; [done|]. by rewrite E2, E1, app_assoc.
Qed.

(** Changing what a replica acknowledged. *)
Lemma on_replica_ok f id p :
  (forall r, cr_state (f r) = cr_state r /\ cr_sent (f r) = cr_sent r /\ cr_start (f r) = cr_start r) ->
  prim_ok p -> prim_ok (on_replica f id p) /\ evolves p (on_replica f id p) /\
    pr_wires (on_replica f id p) = pr_wires p.
Proof.
  intros Hf [Hwf Hw Hr Hb]. unfold on_replica. destruct (dict_get id (pr_replicas p)) as [r|] eqn:E; [|by conj].
  conj; [|unfold evolves; conj; try done; [intros E0; by rewrite E0 in E|intros i w Hi; exists w, []; by rewrite app_nil_r]|done].
  split; cbn [pr_replicas pr_wires pr_next_id set_replicas].
  - by apply dict_set_wf.
  - intros i w Hi. destruct (Hw i w Hi) as (s & H1 & H2 & H3). exists s. conj; [done|done|].
    rewrite dict_get_set. by case_decide.
  - intros i r' Hi. rewrite dict_get_set in Hi. case_decide as Ei; [|by apply Hr].
    subst i. injection Hi as <-. destruct (Hr id r E) as (s & w & seg & Hs & Hwi & Hc & Hid & Hst & Ho & Hse & Hon & Hsy).
    exists s, w, seg. destruct (Hf r) as (F1 & F2 & F3). unfold is_online in *. rewrite F1, F2, F3. conj; done.
  - intros i Hi. destruct (Hb i Hi) as (B1 & B2 & B3 & B4). conj; try done. rewrite dict_get_set. case_decide; [|done].
    subst i. congruence.
Qed.

Lemma waiters_ok l p : prim_ok p -> prim_ok (set_waiters l p) /\ evolves p (set_waiters l p).
Proof.
  intros [Hwf Hw Hr Hb]. split; [by split|]. unfold evolves. conj; try done. intros i w Hi. exists w, [].
  by rewrite app_nil_r.
Qed.

(** A change of one wire. *)
Lemma get_on_wire f id p i :
  dict_get i (pr_wires (on_wire f id p)) = if decide (i = id) then f <$> dict_get i (pr_wires p) else dict_get i (pr_wires p).
Proof.
  unfold on_wire. destruct (dict_get id (pr_wires p)) as [w|] eqn:E; cbn [pr_wires set_wires].
  - rewrite dict_get_set. case_decide; [|done]. subst. by rewrite E.
  - case_decide; [|done]. subst. by rewrite E.
Qed.

Lemma on_wire_rest f id p :
  pr_state (on_wire f id p) = pr_state p /\ pr_replicas (on_wire f id p) = pr_replicas p /\
  pr_active (on_wire f id p) = pr_active p /\ pr_next_id (on_wire f id p) = pr_next_id p.
Proof. unfold on_wire. by destruct (dict_get id (pr_wires p)). Qed.

Lemma on_wire_grow f id p :
  (forall w, exists ext, wi_out (f w) = wi_out w ++ ext) -> evolves p (on_wire f id p).
Proof.
  intros Hf. destruct (on_wire_rest f id p) as (E1 & E2 & E3 & E4). unfold evolves. conj; try done; [by rewrite E2|].
  intros i w Hi. rewrite get_on_wire, Hi. case_decide.
  - destruct (Hf w) as [ext E]. by exists (f w), ext.
  - exists w, []. by rewrite app_nil_r.
Qed.

(** A change of a wire that writes nothing and closes nothing. *)
Lemma on_wire_same_ok f id p :
  (forall w, wi_out (f w) = wi_out w /\ wi_closed (f w) = wi_closed w) ->
  prim_ok p -> prim_ok (on_wire f id p) /\ evolves p (on_wire f id p).
Proof.
  intros Hf [Hwf Hw Hr Hb]. destruct (on_wire_rest f id p) as (E1 & E2 & E3 & E4). split.
  2: { apply on_wire_grow. intros w. exists []. rewrite app_nil_r. apply Hf. }
  split; rewrite ?E2, ?E4; [done| | |].
  - intros i w Hi. rewrite get_on_wire in Hi. case_decide as Ei; [|by apply Hw]. subst i.
    destruct (dict_get id (pr_wires p)) as [w0|] eqn:E0; [|done]. injection Hi as <-.
    destruct (Hf w0) as [Fo Fc]. rewrite Fo, Fc. by apply Hw.
  - intros i r Hi. destruct (Hr i r Hi) as (s & w & seg & Hs & Hwi & Hc & Hid & Hst & Ho & Hrest).
    rewrite <- E1 in Hid. exists s, (if decide (i = id) then f w else w), seg. rewrite get_on_wire, Hwi. destruct (Hf w) as [Fo Fc].
    case_decide; simpl; rewrite ?Fo, ?Fc; conj; try done; apply Hrest.
  - intros i Hi. destruct (Hb i Hi) as (B1 & B2 & B3 & B4). conj; try done. rewrite get_on_wire, B2. by case_decide.
Qed.

Lemma drop_rest id p :
  pr_state (drop_replica id p) = pr_state p /\ pr_replicas (drop_replica id p) = dict_pop id (pr_replicas p) /\
  pr_active (drop_replica id p) = pr_active p /\ pr_next_id (drop_replica id p) = pr_next_id p.
Proof. unfold drop_replica. destruct (on_wire_rest wire_close id (set_replicas (dict_pop id (pr_replicas p)) p)) as (-> & -> & -> & ->). done. Qed.

Lemma get_drop_wire id p i :
  dict_get i (pr_wires (drop_replica id p)) =
  if decide (i = id) then wire_close <$> dict_get i (pr_wires p) else dict_get i (pr_wires p).
Proof. unfold drop_replica. by rewrite get_on_wire. Qed.

Lemma drop_ok id p : prim_ok p -> prim_ok (drop_replica id p) /\ evolves p (drop_replica id p).
Proof.
  intros [Hwf Hw Hr Hb]. destruct (drop_rest id p) as (E1 & E2 & E3 & E4). split.
  2: { unfold evolves. conj; try done; [rewrite E2; by intros ->|]. intros i w Hi. rewrite get_drop_wire, Hi. case_decide; eexists _, []; by rewrite app_nil_r. }
  split; rewrite ?E2, ?E4; [by apply dict_pop_wf| | |].
  - intros i w Hi. rewrite get_drop_wire in Hi. case_decide as Ei.
    + subst i. destruct (dict_get id (pr_wires p)) as [w0|] eqn:E0; [|done]. injection Hi as <-.
      destruct (Hw id w0 E0) as (s & H1 & H2 & _). by exists s.
    + destruct (Hw i w Hi) as (s & H1 & H2 & H3). exists s. conj; [done|done|]. rewrite dict_get_pop by done.
      rewrite decide_False by done. done.
  - intros i r Hi. rewrite dict_get_pop in Hi by done. case_decide as Ei; [done|].
    destruct (Hr i r Hi) as (s & w & seg & Hs & Hwi & Hc & Hid & Hrest). exists s, w, seg.
    rewrite get_drop_wire, E1, decide_False by done. done.
  - intros i Hi. destruct (Hb i Hi) as (B1 & B2 & B3 & B4). conj; try done.
    + rewrite get_drop_wire, B2. by case_decide.
    + rewrite dict_get_pop by done. case_decide; done.
Qed.

(** *** Sending the stream *)

(** What the backlog holds is the end of the history's bytes. *)
Definition backlog_in (h : History (V := V)) (b : Backlog) : Prop :=
  0 < capacity b /\ segment h (bl_start b) (bl_buf b) /\ bl_end b = bl_start b + Z.of_nat (length (bl_buf b)).

Definition stream_of (p : Primary) : Prop :=
  exists h, G !! rs_replid (pr_state p) = Some h /\ backlog_in h (rs_backlog (pr_state p)).

Lemma since_segment h b o data :
  backlog_in h b -> since o b = Some data -> segment h o data /\ o + Z.of_nat (length data) = bl_end b.
Proof.
  intros (_ & Hs & He). unfold since, contains.
  destruct (Z.leb_spec (bl_start b) o), (Z.leb_spec o (bl_end b)); try done. intros [= <-].
  rewrite <- (take_drop (Z.to_nat (o - bl_start b)) (bl_buf b)) in Hs. apply segment_app in Hs as [_ Hs].
  rewrite length_take in Hs. rewrite length_drop. split; [|lia].
  replace (bl_start b + Z.of_nat (Z.to_nat (o - bl_start b) `min` length (bl_buf b))) with o in Hs by lia. done.
Qed.

Lemma send_others id p i :
  i <> id -> dict_wf (pr_replicas p) -> dict_get i (pr_replicas (send id p)) = dict_get i (pr_replicas p).
Proof.
  intros Hi Hwf. unfold send. destruct (dict_get id (pr_replicas p)) as [r|] eqn:Er; [|done].
  assert (Hd : dict_get i (pr_replicas (drop_replica id p)) = dict_get i (pr_replicas p)).
  { destruct (drop_rest id p) as (_ & -> & _). rewrite dict_get_pop by done. by rewrite decide_False. }
  destruct (since _ _) as [data|]; [|done]. destruct (_ <? _); [done|]. destruct data as [|b data]; [done|].
  unfold on_replica. destruct (on_wire_rest (wire_write (b :: data)) id p) as (_ & E2 & _). rewrite E2, Er. cbn [pr_replicas set_replicas].
  rewrite dict_get_set. by rewrite decide_False.
Qed.

Lemma write_sent_ok id p r data :
  prim_ok p -> stream_of p -> dict_get id (pr_replicas p) = Some r -> is_online r = true ->
  since (cr_sent r) (rs_backlog (pr_state p)) = Some data ->
  let p' := on_replica (set_sent (pr_offset p)) id (on_wire (wire_write data) id p) in
  prim_ok p' /\ evolves p p'.
Proof.
  intros [Hwf Hw Hr Hb] (h & Hh & Hbl) Er Hon Hs.
  destruct (since_segment h _ _ _ Hbl Hs) as [Hseg Hend].
  destruct (Hr id r Er) as (s & w & seg & Hsh & Hwi & Hc & Hid & Hst & Ho & Hse & Hrdy & Hsy). specialize (Hrdy Hon).
  destruct (on_wire_rest (wire_write data) id p) as (E1 & E2 & E3 & E4).
  assert (Hww : wire_write data w = mkWire (wi_out w ++ data) (wi_unsent w + Z.of_nat (length data)) false)
    by (unfold wire_write; by rewrite Hc).
  cbv zeta. unfold on_replica. rewrite E2, Er. split; [|split; [done|split; [done|split; [done|split; [intros E0; by rewrite E0 in Er|]]]]].
  - split; cbn [pr_replicas pr_wires pr_next_id set_replicas]; rewrite ?E4; [by apply dict_set_wf| | |].
    + intros i wi Hi. rewrite get_on_wire in Hi. case_decide as Ei.
      * subst i. rewrite Hwi in Hi. cbn [fmap option_fmap option_map] in Hi. rewrite Hww in Hi. injection Hi as <-. exists s.
        destruct (Hw id w Hwi) as (s' & Hs' & (h' & seg' & Hh' & Hok & Ho' & Hse' & Hnr & Hpay) & _).
        assert (s' = s) as -> by congruence. rewrite Hid in Hh'. assert (h' = h) as -> by congruence. cbn [wi_out wi_closed].
        assert (seg' = seg) as ->. { rewrite Ho in Ho'. by apply app_inv_head in Ho'. }
        split; [done|]. split.
        { exists h, (seg ++ data). rewrite Hid, Ho, <- app_assoc. conj; try done.
          - rewrite <- Hid. done.
          - apply segment_app. split; [done|]. by rewrite <- Hse.
          - rewrite Hrdy. done. }
        rewrite dict_get_set, decide_True by done. done.
      * destruct (Hw i wi Hi) as (si & H1 & H2 & H3). exists si. conj; [done|done|]. rewrite dict_get_set, decide_False; done.
    + intros i ri Hi. rewrite dict_get_set in Hi. case_decide as Ei.
      * subst i. injection Hi as <-. exists s, (wire_write data w), (seg ++ data).
        cbn [pr_wires set_replicas pr_state]. rewrite get_on_wire, decide_True, Hwi, E1 by done.
        cbn [fmap option_fmap option_map]. rewrite Hww. cbn [wi_out wi_closed set_sent cr_start cr_sent cr_state]. rewrite Ho, <- app_assoc, length_app. conj; try done.
        unfold pr_offset, rs_offset. lia.
      * destruct (Hr i ri Hi) as (si & wi & segi & R1 & R2 & R3 & R4 & R5). exists si, wi, segi.
        cbn [pr_wires set_replicas pr_state]. rewrite get_on_wire, E1, decide_False by done. done.
    + intros i Hi. destruct (Hb i Hi) as (B1 & B2 & B3 & B4). conj; try done.
      * rewrite get_on_wire, B2. by case_decide.
      * rewrite dict_get_set. case_decide; [subst; congruence|done].
  - intros i wi Hi. cbn [pr_wires set_replicas]. rewrite get_on_wire, Hi. case_decide as Ei.
    + subst i. rewrite Hwi in Hi. injection Hi as <-. simpl. rewrite Hww. by eexists _, data.
    + exists wi, []. by rewrite app_nil_r.
Qed.

Lemma send_ok id p :
  prim_ok p -> stream_of p -> (forall r, dict_get id (pr_replicas p) = Some r -> is_online r = true) ->
  prim_ok (send id p) /\ evolves p (send id p).
Proof.
  intros Hp Hst Hon. unfold send. destruct (dict_get id (pr_replicas p)) as [r|] eqn:Er; [|done].
  destruct (since (cr_sent r) _) as [data|] eqn:Es; [|by apply drop_ok]. destruct (_ <? _); [by apply drop_ok|].
  destruct data as [|b data]; [done|]. eapply write_sent_ok; eauto.
Qed.

Lemma evolves_stream p p' : evolves p p' -> stream_of p -> stream_of p'.
Proof. intros (E & _). unfold stream_of. by rewrite E. Qed.

Lemma flush_loop_ok l : forall p,
  prim_ok p -> (l = [] \/ stream_of p) -> NoDup l.*1 ->
  (forall id r, (id, r) ∈ l -> dict_get id (pr_replicas p) = Some r) ->
  let p' := fold_left (fun p '(id, r) => if is_online r then send id p else p) l p in
  prim_ok p' /\ evolves p p'.
Proof.
  induction l as [|[id r] l IH]; intros p Hp Hst Hnd Hin; [done|]. destruct Hst as [Hst|Hst]; [done|].
  apply NoDup_cons in Hnd as [Hid Hnd]. cbn [fold_left].
  assert (Hstep : prim_ok (if is_online r then send id p else p) /\ evolves p (if is_online r then send id p else p)).
  { destruct (is_online r) eqn:Eo; [|done]. apply send_ok; [done|done|].
    intros r' Hr'. rewrite (Hin id r ltac:(set_solver)) in Hr'. by injection Hr' as <-. }
  destruct Hstep as [Hp1 He1]. destruct (IH _ Hp1 (or_intror (evolves_stream _ _ He1 Hst)) Hnd) as [Hp2 He2].
  - intros i ri Hi. assert (i <> id). { intros ->. apply Hid. by apply (list_elem_of_fmap_2 fst) in Hi. }
    destruct (is_online r); [rewrite send_others; [|done|apply Hp]|]; apply Hin; set_solver.
  - split; [done|]. by etransitivity.
Qed.

Lemma flush_ok p : prim_ok p -> (pr_replicas p = [] \/ stream_of p) -> prim_ok (Primary.flush p) /\ evolves p (Primary.flush p).
Proof.
  intros Hp Hst. apply flush_loop_ok; [done|done|apply Hp|]. intros id r Hin. apply dict_get_elem; [apply Hp|done].
Qed.

Lemma disconnect_loop (l : list (nat * ConnectedReplica)) : forall p, prim_ok p ->
  let p' := fold_left (fun p '(id, _) => drop_replica id p) l p in
  prim_ok p' /\ evolves p p' /\ forall id, dict_get id (pr_replicas p') = if decide (id ∈ l.*1) then None else dict_get id (pr_replicas p).
Proof.
  induction l as [|[i r] l IH]; intros p Hp; [conj; try done; intros id; by rewrite decide_False by set_solver|].
  cbn [fold_left]. destruct (drop_ok i p Hp) as [Hp1 He1]. destruct (IH _ Hp1) as (Hp2 & He2 & Hg).
  conj; [done|by etransitivity|]. intros id. rewrite Hg. destruct (drop_rest i p) as (_ & -> & _).
  rewrite dict_get_pop by apply Hp. rewrite fmap_cons. cbn [fst].
  destruct (decide (id ∈ l.*1)), (decide (id = i)), (decide (id ∈ i :: l.*1)); set_solver.
Qed.

Lemma disconnect_ok p :
  prim_ok p -> prim_ok (disconnect_all p) /\ evolves p (disconnect_all p) /\ pr_replicas (disconnect_all p) = [].
Proof.
  intros Hp. destruct (disconnect_loop (pr_replicas p) p Hp) as (H1 & H2 & H3). conj; [done|done|].
  fold (disconnect_all p) in H3. destruct (pr_replicas (disconnect_all p)) as [|[i r] l] eqn:E; [done|].
  specialize (H3 i). cbn [dict_get] in H3. rewrite decide_True in H3 by done. case_decide as Hi; [done|].
  symmetry in H3. apply dict_get_Some_elem in H3. apply (list_elem_of_fmap_2 fst) in H3. done.
Qed.

(** *** Acknowledgements *)
Lemma keeps_ack_loop p0 fuel : forall id buf pos now,
  keeps (fun p => prim_ok p /\ evolves p0 p) (ack_loop fuel id buf pos now).
Proof.
  assert (Hr : forall f id, (forall r, cr_state (f r) = cr_state r /\ cr_sent (f r) = cr_sent r /\ cr_start (f r) = cr_start r) ->
    forall p, prim_ok p /\ evolves p0 p -> prim_ok (on_replica f id p) /\ evolves p0 (on_replica f id p)).
  { intros f id Hf p [Hp He]. destruct (on_replica_ok f id p Hf Hp) as (H1 & H2 & _). split; [done|by etransitivity]. }
  assert (Hw : forall p, prim_ok p /\ evolves p0 p -> prim_ok (wake_waiters p) /\ evolves p0 (wake_waiters p)).
  { intros p [Hp He]. destruct (waiters_ok ((fun '(n, w) =>
      let count := acked (wt_offset w) p in
      match wt_result w with
      | None => if wt_needed w <=? count then (n, mkWaiter (wt_offset w) (wt_needed w) (Some count)) else (n, w)
      | Some _ => (n, w)
      end) <$> pr_waiters p) p Hp) as [H1 H2]. split; [done|by etransitivity]. }
  assert (Hc : forall id args now, keeps (fun p => prim_ok p /\ evolves p0 p) (ack_command id args now)).
  { intros id args now. unfold ack_command. destruct args as [|a0 [|a1 [|a2 args]]]; try apply keeps_ret.
    destruct (negb _); [apply keeps_ret|]. case_bool_decide.
    - destruct (py_int a2); [|by intros p]. apply keeps_bind; [apply keeps_modify; by apply Hr|intros _; by apply keeps_modify].
    - case_bool_decide; [|apply keeps_ret]. destruct (py_int a2); [|by intros p]. apply keeps_modify. by apply Hr. }
  induction fuel as [|fuel IH]; intros id buf pos now; cbn [ack_loop]; apply keeps_bind; try (by intros p); intros [[args stop]|];
    try apply keeps_ret. apply keeps_bind; [apply Hc|intros _; apply IH].
Qed.

Lemma serve_data_ok id data now p :
  prim_ok p -> prim_ok (serve_data id data now p).2 /\ evolves p (serve_data id data now p).2.
Proof.
  intros Hp. unfold serve_data. destruct data as [|b data]; [by apply drop_ok|]. unfold catchM.
  assert (Hk : keeps (fun q => prim_ok q /\ evolves p q) (read_acks id (b :: data) now)).
  { unfold read_acks. apply keeps_bind; [apply keeps_get|intros q]. destruct (dict_get id (pr_replicas q)) as [r|]; [|apply keeps_ret].
    apply keeps_bind; [apply keeps_ack_loop|]. intros [pos|]; [|apply keeps_ret].
    apply keeps_bind; [|intros _; apply keeps_ret]. apply keeps_modify. intros q' [Hq He].
    match goal with |- context [on_replica ?f id q'] => destruct (on_replica_ok f id q' ltac:(done) Hq) as (H1 & H2 & _) end.
    split; [done|by etransitivity]. }
  specialize (Hk p (conj Hp (reflexivity p))). destruct (read_acks id (b :: data) now p) as [[u|x] q]; [done|].
  destruct Hk as [Hq He]. destruct (drop_ok id q Hq) as [H1 H2]. split; [done|]. by etransitivity.
Qed.

Lemma online_ok id p :
  prim_ok p -> (pr_replicas p = [] \/ stream_of p) -> sync_at id = None ->
  prim_ok (serve_online id p) /\ evolves p (serve_online id p).
Proof.
  intros Hp Hst Hsy. unfold serve_online. destruct (dict_get id (pr_replicas p)) as [r|] eqn:Er; [|by apply drop_ok].
  destruct Hst as [Hst|Hst]; [by rewrite Hst in Er|].
  assert (H1 : prim_ok (on_replica set_online id p) /\ evolves p (on_replica set_online id p)).
  { destruct Hp as [Hwf Hw Hr Hb]. unfold on_replica. rewrite Er. split.
    2: { unfold evolves. conj; try done; [intros E0; by rewrite E0 in Er|]. intros i w Hi. exists w, []. by rewrite app_nil_r. }
    split; cbn [pr_replicas pr_wires pr_next_id set_replicas]; [by apply dict_set_wf| | |].
    - intros i w Hi. destruct (Hw i w Hi) as (s & S1 & S2 & S3). exists s. conj; [done|done|].
      rewrite dict_get_set. by case_decide.
    - intros i r' Hi. rewrite dict_get_set in Hi. case_decide as Ei; [|by apply Hr]. subst i. injection Hi as <-.
      destruct (Hr id r Er) as (s & w & seg & Hs & Hwi & Hc & Hid & Hst' & Ho & Hse & Hon & Hsy').
      exists s, w, seg. cbn [set_online cr_start cr_sent]. conj; try done. intros _.
      destruct (sh_ready s) eqn:E; [done|]. destruct Hsy' as [[Hx _] _]. destruct (Hx E) as [? Hy]. congruence.
    - intros i Hi. destruct (Hb i Hi) as (B1 & B2 & B3 & B4). conj; try done. rewrite dict_get_set. case_decide; [subst; congruence|done]. }
  destruct H1 as [Hp1 He1]. destruct (send_ok id (on_replica set_online id p) Hp1 (evolves_stream _ _ He1 Hst)) as [Hp2 He2].
  - intros r' Hr'. unfold on_replica in Hr'. rewrite Er in Hr'. cbn [pr_replicas set_replicas] in Hr'.
    rewrite dict_get_set, decide_True in Hr' by done. by injection Hr' as <-.
  - split; [done|]. by etransitivity.
Qed.
End Primary.

(** *** Other shapes and snapshots *)
Lemma prim_ok_ext sh sh' sy sy' p :
  (forall i, sh' i = sh i) -> (forall i, sy' i = sy i) -> prim_ok sh sy p -> prim_ok sh' sy' p.
Proof.
  intros Hsh Hsy [Hwf Hw Hr Hb]. split; [done| | |].
  - intros id w Hi. rewrite Hsh. by apply Hw.
  - intros id r Hi. destruct (Hr id r Hi) as (s & w & seg & H1 & H2 & H3 & H4 & H5 & H6 & H7 & H8 & H9).
    exists s, w, seg. unfold sync_ok in *. rewrite Hsh, Hsy. done.
  - intros id Hi. rewrite Hsh, Hsy. by apply Hb.
Qed.

Definition upd {A} (f : nat -> option A) (id : nat) (a : option A) : nat -> option A :=
  fun i => if decide (i = id) then a else f i.

(** A replica enters. *)
Definition enter (r : ConnectedReplica) (w : Wire) (active : bool) (full partial : Z) (p : Primary) : Primary :=
  mkPrimary (pr_state p) (dict_set (pr_next_id p) r (pr_replicas p)) (dict_set (pr_next_id p) w (pr_wires p))
    (S (pr_next_id p)) (pr_waiters p) active full partial.

Lemma enter_ok sh sy p s h v r w records a f q :
  prim_ok sh sy p -> G !! rs_replid (pr_state p) = Some h -> replid_ok (rs_replid (pr_state p)) ->
  sh_id s = rs_replid (pr_state p) -> sh_payload s = [] -> position h (sh_off s) v ->
  cr_start r = sh_off s -> cr_sent r = sh_off s -> cr_state r = InSync ->
  wi_out w = head_of s -> wi_closed w = false -> (sh_full s = true -> rl_records records v) ->
  prim_ok (upd sh (pr_next_id p) (Some s)) (if sh_full s then upd sy (pr_next_id p) (Some records) else sy)
    (enter r w a f q p).
Proof.
  intros [Hwf Hw Hr Hb] Hh Hid Es Epay Hpos Est Ese Esy Eo Ec Hrec. set (id := pr_next_id p) in *.
  destruct (Hb id ltac:(subst id; lia)) as (B1 & B2 & B3 & B4).
  assert (Hrdy : sh_ready s = negb (sh_full s)) by (unfold sh_ready; rewrite Epay; by destruct (sh_full s)).
  assert (Hso : sync_ok (if sh_full s then upd sy id (Some records) else sy) s id).
  { unfold sync_ok. rewrite Hrdy. destruct (sh_full s) eqn:Ef; unfold upd; rewrite ?decide_True by done.
    - split; [by split|]. intros rec [= <-]. exists h, v. rewrite Es. auto.
    - rewrite B4. split; [split; [done|by intros [? ?]]|done]. }
  split; unfold enter; cbn [pr_replicas pr_wires pr_next_id]; fold id.
  - by apply dict_set_wf.
  - intros i wi Hi. rewrite dict_get_set in Hi. unfold upd. case_decide as Ei.
    + subst i. injection Hi as <-. exists s. conj; [done| |].
      * exists h, []. rewrite Es, Eo, app_nil_r. conj; try done; [by eapply segment_nil|]. intros Hne. by rewrite Epay in Hne.
      * rewrite dict_get_set, decide_True by done. done.
    + destruct (Hw i wi Hi) as (si & H1 & H2 & H3). exists si. conj; [done|done|]. rewrite dict_get_set, decide_False; done.
  - intros i ri Hi. rewrite dict_get_set in Hi. case_decide as Ei.
    + subst i. injection Hi as <-. exists s, w, []. unfold upd at 1. cbn [pr_wires pr_state].
      rewrite decide_True, dict_get_set, decide_True, app_nil_r by done. simpl length. conj; try done; [lia|].
      intros Hon. unfold is_online in Hon. by rewrite Esy in Hon.
    + destruct (Hr i ri Hi) as (si & wi & segi & R1 & R2 & R3 & R4 & R5 & R6 & R7 & R8 & R9). exists si, wi, segi.
      unfold upd at 1. cbn [pr_wires pr_state]. rewrite !decide_False, dict_get_set, decide_False by done. conj; try done.
      unfold sync_ok in *. destruct (sh_full s); [|done]. unfold upd. by rewrite decide_False.
  - intros i Hi. destruct (Hb i ltac:(subst id; lia)) as (C1 & C2 & C3 & C4). unfold upd.
    assert (i <> id) by (subst id; lia). rewrite !dict_get_set, !decide_False by done.
    destruct (sh_full s); [rewrite decide_False by done|]; done.
Qed.

(** The snapshot is written, if the replica is still there. *)
Definition with_payload (payload : bytes) (s : Shape) : Shape :=
  mkShape (sh_id s) (sh_off s) (sh_full s) (head_line 36 (Z.of_nat (length payload)) ++ payload).

Definition write_snapshot (payload : bytes) (id : nat) (p : Primary) : Primary :=
  on_wire (wire_write payload) id (on_wire (wire_write (head_line 36 (Z.of_nat (length payload)))) id p).

Lemma get_write_snapshot payload id p i :
  dict_get i (pr_wires (write_snapshot payload id p)) =
  if decide (i = id)
  then (fun w => wire_write payload (wire_write (head_line 36 (Z.of_nat (length payload))) w)) <$> dict_get i (pr_wires p)
  else dict_get i (pr_wires p).
Proof.
  unfold write_snapshot. rewrite !get_on_wire. case_decide; [|done]. by destruct (dict_get i (pr_wires p)).
Qed.

Lemma write_snapshot_rest payload id p :
  pr_state (write_snapshot payload id p) = pr_state p /\ pr_replicas (write_snapshot payload id p) = pr_replicas p /\
  pr_active (write_snapshot payload id p) = pr_active p /\ pr_next_id (write_snapshot payload id p) = pr_next_id p.
Proof.
  unfold write_snapshot. set (p1 := on_wire (wire_write (head_line 36 _)) id p).
  destruct (on_wire_rest (wire_write payload) id p1) as (-> & -> & -> & ->).
  apply (on_wire_rest (wire_write (head_line 36 _)) id p).
Qed.

Lemma wire_write_grow data w : exists ext, wi_out (wire_write data w) = wi_out w ++ ext.
Proof. unfold wire_write. destruct (wi_closed w); [exists []; by rewrite app_nil_r|by exists data]. Qed.

Lemma write_snapshot_ok sh sy p id records t payload :
  prim_ok sh sy p -> sy id = Some records -> encode_snapshot records t = Ok payload ->
  exists sh', prim_ok sh' (upd sy id None) (write_snapshot payload id p) /\ evolves p (write_snapshot payload id p) /\
    (forall i, sh' i = sh i \/ i = id /\ exists s, sh id = Some s /\ sh_full s = true /\ sh_payload s = [] /\
                                      sh' i = Some (with_payload payload s)).
Proof.
  intros Hp Hsy Henc. pose proof Hp as [Hwf Hw Hr Hb].
  destruct (write_snapshot_rest payload id p) as (E1 & E2 & E3 & E4).
  assert (Hev : evolves p (write_snapshot payload id p)).
  { unfold write_snapshot. etransitivity; apply on_wire_grow; apply wire_write_grow. }
  assert (Hoth : forall i s, i <> id -> sync_ok sy s i -> sync_ok (upd sy id None) s i)
    by (intros i s Hi; unfold sync_ok, upd; by rewrite decide_False).
  destruct (dict_get id (pr_replicas p)) as [r|] eqn:Er.
  - destruct (Hr id r Er) as (s & w & seg & R1 & R2 & R3 & R4 & R5 & R6 & R7 & R8 & (R9 & R10)).
    destruct (Hw id w R2) as (s' & Hs' & (h & seg' & Hh & Hok & Ho' & Hse & Hnr & _) & _). assert (s' = s) as -> by congruence.
    assert (Hnrdy : sh_ready s = false) by (apply R9; eauto). assert (seg' = []) as -> by auto.
    assert (seg = []) as ->. { rewrite R6 in Ho'. by apply app_inv_head in Ho'. }
    assert (Hfull : sh_full s = true /\ sh_payload s = []).
    { unfold sh_ready in Hnrdy. destruct (sh_full s); [|done]. simpl in Hnrdy. split; [done|].
      apply negb_false_iff, bool_decide_eq_true in Hnrdy. done. }
    destruct Hfull as [Hfull Hpay]. destruct (R10 records Hsy) as (h' & v & Hh' & Hpos & Hrec). assert (h' = h) as -> by congruence.
    set (s1 := with_payload payload s). assert (Hrdy : sh_ready s1 = true) by (unfold sh_ready, s1; simpl; by rewrite orb_true_r).
    set (w1 := wire_write payload (wire_write (head_line 36 (Z.of_nat (length payload))) w)).
    assert (Hw1 : wi_out w1 = head_of s1 /\ wi_closed w1 = false).
    { subst w1. unfold wire_write. rewrite R3. cbn [wi_closed wi_out]. split; [|done]. rewrite R6, app_nil_r.
      unfold head_of. subst s1. cbn [with_payload sh_full sh_id sh_off sh_payload]. rewrite Hfull, Hpay, app_nil_r, <- app_assoc. done. }
    exists (upd sh id (Some s1)). conj; [|done|].
    + split; rewrite ?E2, ?E4; [done| | |].
      * intros i wi Hi. rewrite get_write_snapshot in Hi. unfold upd. case_decide as Ei.
        -- subst i. rewrite R2 in Hi. injection Hi as <-. fold w1. exists s1. conj; [done| |by rewrite Er].
           exists h, []. destruct Hw1 as [-> _]. rewrite app_nil_r. conj; try done.
           intros _. exists records, v, t, payload. done.
        -- destruct (Hw i wi Hi) as (si & H1 & H2 & H3). by exists si.
      * intros i ri Hi. destruct (decide (i = id)) as [->|Hne].
        -- assert (ri = r) as -> by congruence. exists s1, w1, []. unfold upd at 1.
           rewrite get_write_snapshot, !decide_True, R2, E1 by done. destruct Hw1 as [Ho1 Hc1].
           rewrite app_nil_r. conj; try done. unfold sync_ok, upd. rewrite decide_True, Hrdy by done.
           split; [split; [done|by intros [? ?]]|done].
        -- destruct (Hr i ri Hi) as (si & wi & segi & Q1 & Q2 & Q3 & Q4 & Q5 & Q6 & Q7 & Q8 & Q9). exists si, wi, segi.
           unfold upd at 1. rewrite get_write_snapshot, !decide_False, E1 by done. conj; try done. by apply Hoth.
      * intros i Hi. destruct (Hb i Hi) as (B1 & B2 & B3 & B4). assert (i <> id) by (intros ->; congruence).
        unfold upd. rewrite get_write_snapshot, !decide_False by done. done.
    + intros i. unfold upd. case_decide; [right|by left]. split; [done|]. by exists s.
  - exists sh. conj; [|done|by left]. split; rewrite ?E2, ?E4; [done| | |].
    + intros i wi Hi. rewrite get_write_snapshot in Hi. case_decide as Ei; [|by apply Hw]. subst i.
      destruct (dict_get id (pr_wires p)) as [w0|] eqn:E0; [|done]. injection Hi as <-.
      destruct (Hw id w0 E0) as (s & H1 & H2 & H3). specialize (H3 Er). exists s. unfold wire_write. rewrite H3. simpl. rewrite H3. done.
    + intros i ri Hi. assert (i <> id) by (intros ->; congruence).
      destruct (Hr i ri Hi) as (si & wi & segi & Q1 & Q2 & Q3 & Q4 & Q5 & Q6 & Q7 & Q8 & Q9). exists si, wi, segi.
      rewrite get_write_snapshot, decide_False, E1 by done. conj; try done. by apply Hoth.
    + intros i Hi. destruct (Hb i Hi) as (B1 & B2 & B3 & B4). rewrite get_write_snapshot, B2. unfold upd.
      conj; try done; by case_decide.
Qed.

(** A snapshot that could not be written is forgotten with its replica. *)
Lemma drop_sync_ok sh sy p id :
  prim_ok sh sy p -> prim_ok sh (upd sy id None) (drop_replica id p).
Proof.
  intros Hp. destruct (drop_ok sh sy id p Hp) as [[Hwf Hw Hr Hb] _]. destruct (drop_rest id p) as (E1 & E2 & E3 & E4).
  split; [done|done| |].
  - intros i r Hi. assert (Hne : i <> id).
    { intros ->. rewrite E2, dict_get_pop, decide_True in Hi by first [done|apply Hp]. done. }
    destruct (Hr i r Hi) as (si & wi & segi & Q1 & Q2 & Q3 & Q4 & Q5 & Q6 & Q7 & Q8 & Q9). exists si, wi, segi. conj; try done.
    unfold sync_ok, upd. by rewrite decide_False.
  - intros i Hi. destruct (Hb i Hi) as (B1 & B2 & B3 & B4). unfold upd. conj; try done. by case_decide.
Qed.
End Wires.

(** *** Histories that grow *)
Section Grow.
Context {D V : Type} `{NodeEngine D} `{ReplicaEngine D} `{!ReplicaLaws D V}.
Implicit Types G : gmap pystr (History (V := V)).

Definition hist_le G G' : Prop := forall X h, G !! X = Some h -> exists h', G' !! X = Some h' /\ extends h h'.

Lemma shape_ok_le G G' s out : hist_le G G' -> shape_ok G s out -> shape_ok (D := D) G' s out.
Proof.
  intros Hle (h & seg & Hh & Hok & Ho & Hse & Hn & Hpay). destruct (Hle _ _ Hh) as (h' & Hh' & Hx).
  exists h', seg. conj; try done; [by eapply segment_extends|]. intros Hne.
  destruct (Hpay Hne) as (rec & v & t & payload & P1 & P2 & P3 & P4). exists rec, v, t, payload. conj; try done.
  by eapply position_extends.
Qed.

Lemma prim_ok_le G G' sh sy p : hist_le G G' -> prim_ok (D := D) G sh sy p -> prim_ok (D := D) G' sh sy p.
Proof.
  intros Hle [Hwf Hw Hr Hb]. split; [done| | |done].
  - intros id w Hi. destruct (Hw id w Hi) as (s & H1 & H2 & H3). exists s. conj; [done|by eapply shape_ok_le|done].
  - intros id r Hi. destruct (Hr id r Hi) as (s & w & seg & Q1 & Q2 & Q3 & Q4 & Q5 & Q6 & Q7 & Q8 & (Q9 & Q10)).
    exists s, w, seg. conj; try done. split; [done|]. intros rec Hrec. destruct (Q10 rec Hrec) as (h & v & Hh & Hpos & Hrv).
    destruct (Hle _ _ Hh) as (h' & Hh' & Hx). exists h', v. conj; try done. by eapply position_extends.
Qed.
End Grow.
