(* ===== verification/ReplInv.v ===== *)
(** * The invariant of replicating nodes

    For some histories [G], one for every replication id that more than one
    node can know, and shapes [K] of the connections: every node's data is the
    data at its offset in the history it names, its backlog is part of that
    history, a primary is at its history's end, and what a replica has read and
    not applied is the history from its offset on. *)

From Stdlib Require Import String.
From S2P Require Import Prelude PyStr PyFloat Codec Errors Store Snapshot Registry Resp RespProofs Engine.
From S2P Require Import ReplStream Primary ReplicaLink Metrics ShardNode ReplSystem ReplLinkProofs ReplWires.
Local Close Scope string_scope.

Section Inv.
Context {D V : Type} `{NodeEngine D} `{ReplicaEngine D} `{!ReplicaLaws D V}.
Abbreviation Hist := (gmap pystr (History (V := V))).
Abbreviation Shapes := (gmap (nat * nat) Shape).
Abbreviation position := (position (effect (D := D) (V := V))).
Implicit Types (G : Hist) (K : Shapes) (c : Config (D := D)) (m : Member (D := D)) (h : History (V := V)).

(** ** A node *)

(** The histories are the same up to [so], a boundary of frames. *)
Definition agree h2 h (so : Z) : Prop :=
  exists l r2 r, h_base h = h_base h2 /\ h_view h = h_view h2 /\ h_frames h2 = l ++ r2 /\ h_frames h = l ++ r /\
    so = h_base h2 + Z.of_nat (length (raws l)).

Definition tracked G (st : ReplicationState) (v : V) : Prop :=
  exists h, G !! rs_replid st = Some h /\ position h (rs_offset st) v /\ backlog_in h (rs_backlog st) /\
    (rs_replid2 st <> NO_REPLID -> exists h2, G !! rs_replid2 st = Some h2 /\ agree h2 h (rs_second_offset st)).

(** Nobody has asked for the stream yet. *)
Definition quiet G (st : ReplicationState) : Prop :=
  G !! rs_replid st = None /\ rs_replid2 st = NO_REPLID /\ 0 < capacity (rs_backlog st) /\
  bl_buf (rs_backlog st) = [] /\ bl_start (rs_backlog st) = 0 /\ bl_end (rs_backlog st) = 0.

Abbreviation prim m := (nd_primary (mb_node m)).

Record node_ok G m : Prop := mkNodeOk {
  no_replication : ne_replication (nd_world (mb_node m)) = None;
  no_id : replid_ok (replid_of m);
  no_position : tracked G (state_of m) (data_of m) \/
    quiet G (state_of m) /\ pr_active (prim m) = false /\ pr_replicas (prim m) = [];
  no_primary : role_of m = RPrimary ->
    nd_attached (mb_node m) = true /\ nd_link (mb_node m) = None /\ mb_session m = None /\
    forall h, G !! replid_of m = Some h -> pr_active (prim m) = true /\ offset_of m = h_end h;
  no_replica : role_of m = RReplica ->
    nd_attached (mb_node m) = false /\ is_Some (nd_link (mb_node m)) /\ pr_replicas (prim m) = []
}.

(** ** A session *)
Definition wire_at c (j id : nat) : option Wire :=
  match cf_members c !! j with Some p => dict_get id (pr_wires (prim p)) | None => None end.

(** There is no whole command in [buf]. *)
Definition incomplete (buf : bytes) : Prop := forall pre, next_command (pre ++ buf) (Z.of_nat (length pre)) = Ok None.

Lemma incomplete_nil : incomplete [].
Proof. intros pre. unfold next_command. by rewrite app_nil_r, Z.leb_refl. Qed.

Definition receiving G m (s : Session) (sh : Shape) (out : bytes) (ph : Phase) : Prop :=
  match ph with
  | PLine =>
      ss_read s = 0%nat /\
      (sh_full sh = false -> sh_off sh = offset_of m /\
         exists h, G !! sh_id sh = Some h /\ position h (offset_of m) (data_of m) /\
           (sh_id sh <> replid_of m -> exists hr, G !! replid_of m = Some hr /\ agree hr h (offset_of m)))
  | PHeader a b =>
      sh_full sh = true /\ a = sh_id sh /\ b = str_of_int (sh_off sh) /\
      ss_read s = length (fullresync_line (sh_id sh) (sh_off sh))
  | PPayload a b size =>
      sh_full sh = true /\ a = sh_id sh /\ b = str_of_int (sh_off sh) /\
      exists payload, sh_payload sh = head_line 36 (Z.of_nat (length payload)) ++ payload /\
        size = Z.of_nat (length payload) /\
        ss_read s = (length (fullresync_line (sh_id sh) (sh_off sh)) + length (head_line 36 size))%nat
  | PStream buf =>
      sh_ready sh = true /\ sh_id sh = replid_of m /\ incomplete buf /\
      exists consumed rest, out = head_of sh ++ consumed ++ buf ++ rest /\
        ss_read s = length (head_of sh ++ consumed ++ buf) /\
        offset_of m = sh_off sh + Z.of_nat (length consumed)
  | _ => False
  end.

Definition session_ok G K c m : Prop :=
  match mb_session m with
  | None => phase_of m = None \/ phase_of m = Some PIdle
  | Some s =>
      role_of m = RReplica /\
      exists ph, phase_of m = Some ph /\
      match ss_conn s with
      | None => match ph with
                | POk => True
                | PLine => ss_request s = psync_args (state_of m)
                | _ => False
                end
      | Some id => exists sh w, K !! (ss_peer s, id) = Some sh /\ wire_at c (ss_peer s) id = Some w /\
                     receiving G m s sh (wi_out w) ph
      end
  end.

(** ** All together *)
Definition hist_ok G (drawn : list pystr) : Prop :=
  forall X h, G !! X = Some h ->
    framed (h_frames h) /\ Forall (fun f => frame_ok (D := D) (V := V) f.2) (h_frames h) /\
    X ∈ drawn /\ replid_ok X /\ - 2 ^ 63 < h_base h /\ h_end h < 2 ^ 63.

Abbreviation shapes_of K j := (fun id : nat => K !! (j, id)).
Abbreviation syncs_of c j := (fun id : nat => dict_get (j, id) (cf_syncs c)).

Record sys_inv G K c : Prop := mkSysInv {
  si_hist : hist_ok G (cf_drawn c);
  si_node i m : cf_members c !! i = Some m -> node_ok G m;
  si_drawn i m : cf_members c !! i = Some m -> replid_of m ∈ cf_drawn c;
  si_prim i m : cf_members c !! i = Some m -> prim_ok (D := D) G (shapes_of K i) (syncs_of c i) (prim m);
  si_own i j m m' : cf_members c !! i = Some m -> cf_members c !! j = Some m' -> replid_of m = replid_of m' ->
    (role_of m = RPrimary /\ role_of m' = RPrimary) \/ G !! replid_of m = None -> i = j;
  si_session i m : cf_members c !! i = Some m -> session_ok G K c m;
  si_range : in_range c;
  si_syncs : dict_wf (cf_syncs c)
}.

(** ** Growth *)
Definition shape_le (s s' : Shape) : Prop :=
  s' = s \/ (sh_full s = true /\ sh_payload s = [] /\ exists payload, s' = with_payload payload s).

Definition shapes_le K K' : Prop := forall k s, K !! k = Some s -> exists s', K' !! k = Some s' /\ shape_le s s'.

Lemma agree_le h2 h2' h h' so : extends h2 h2' -> extends h h' -> agree h2 h so -> agree h2' h' so.
Proof.
  intros (B2 & V2 & l2 & F2) (B & W & l' & F) (l & r2 & r & Eb & Ev & E2 & E & ->). exists l, (r2 ++ l2), (r ++ l').
  rewrite B, B2, W, V2, F, F2, E, E2, <- !app_assoc. done.
Qed.

(** What lies below a common offset is the same. *)
Lemma agree_position h2 h so o v :
  framed (h_frames h2) -> agree h2 h so -> position h2 o v -> o <= so -> position h o v /\ agree h2 h o.
Proof.
  intros Hf (l & r2 & r & Eb & Ev & E2 & E & ->) (l1 & l2 & El & -> & ->) Ho. rewrite E2 in El.
  assert (exists k, l = l1 ++ k) as [k ->].
  { apply app_eq_inv in El as [(k & -> & ->)|(k & -> & ->)]; [by eexists|]. exists []. rewrite app_nil_r.
    rewrite E2 in Hf. apply Forall_app in Hf as [_ [Hf _]%Forall_app]. rewrite raws_app, length_app in Ho.
    destruct k as [|f k]; [by rewrite app_nil_r|]. apply Forall_cons in Hf as [(Hne & _) _].
    rewrite raws_cons, length_app in Ho. destruct f.1; [done|]. simpl in Ho. lia. }
  rewrite <- app_assoc in *. split; [exists l1, (k ++ r); by rewrite Eb, Ev, E|].
  exists l1, (k ++ r2), (k ++ r). rewrite Eb, Ev. done.
Qed.

Lemma agree_segment h2 h so o seg :
  agree h2 h so -> segment h2 o seg -> o + Z.of_nat (length seg) <= so -> segment h o seg.
Proof.
  intros (l & r2 & r & Eb & _ & E2 & E & ->) (pre & post & Es & ->) Ho.
  rewrite E2, raws_app, app_assoc in Es. apply app_eq_inv in Es as [(k & El & _)|(k & El & _)].
  - exists pre, (k ++ raws r). rewrite Eb, E, raws_app, El, <- !app_assoc. done.
  - assert (k = []) as ->.
    { apply (f_equal length) in El. rewrite !length_app in El. apply length_zero_iff_nil. lia. }
    rewrite app_nil_r in El. exists pre, (raws r). rewrite Eb, E, raws_app, <- El, <- app_assoc. done.
Qed.

Lemma agree_backlog h2 h b so : agree h2 h so -> backlog_in h2 b -> bl_end b <= so -> backlog_in h b.
Proof.
  intros Ha (Hc & Hs & He) Hle. unfold backlog_in. conj; [done| |done]. eapply agree_segment; [done|done|lia].
Qed.

Lemma backlog_in_le h h' b : extends h h' -> backlog_in h b -> backlog_in h' b.
Proof. intros Hx (Hc & Hs & He). unfold backlog_in. conj; [done|by eapply segment_extends|done]. Qed.

Lemma tracked_le G G' st v : hist_le G G' -> tracked G st v -> tracked G' st v.
Proof.
  intros Hle (h & Hh & Hp & Hb & H2). destruct (Hle _ _ Hh) as (h' & Hh' & Hx). exists h'. conj; try done.
  - by eapply position_extends.
  - by eapply backlog_in_le.
  - intros Hne. destruct (H2 Hne) as (h2 & Hh2 & Ha). destruct (Hle _ _ Hh2) as (h2' & Hh2' & Hx2). exists h2'. split; [done|].
    by eapply agree_le.
Qed.

(** The node is not the owner of a history that changed. *)
Definition unmoved G G' m : Prop :=
  role_of m = RPrimary \/ G !! replid_of m = None -> G' !! replid_of m = G !! replid_of m.

Lemma node_ok_le G G' m :
  hist_le G G' -> unmoved G G' m -> node_ok G m -> node_ok G' m.
Proof.
  intros Hle Hun [N1 N2 N3 N4 N5]. split; [done|done| | |done].
  - destruct N3 as [Ht|[(Q1 & Q2) Q3]]; [left; by eapply tracked_le|]. right. split; [|done]. split; [|done].
    change (rs_replid (state_of m)) with (replid_of m) in *. rewrite Hun; [done|by right].
  - intros Hr. destruct (N4 Hr) as (P1 & P2 & P3 & P4). conj; try done. intros h. rewrite Hun by (by left). apply P4.
Qed.

Lemma receiving_le G G' m s sh sh' out out' ph ext :
  hist_le G G' -> shape_le sh sh' -> out' = out ++ ext ->
  receiving G m s sh out ph -> receiving G' m s sh' out' ph.
Proof.
  intros Hle Hsh ->. destruct Hsh as [->|(Hf & Hp & payload & ->)].
  - destruct ph as [| | |a b|a b size|buf]; simpl; try done.
    + intros [Hr Hc]. split; [done|]. intros Hfull. destruct (Hc Hfull) as (Ho & h & Hh & Hpos & Hag). split; [done|].
      destruct (Hle _ _ Hh) as (h' & Hh' & Hx). exists h'. conj; [done|by eapply position_extends|].
      intros Hne. destruct (Hag Hne) as (hr & Hhr & Ha). destruct (Hle _ _ Hhr) as (hr' & Hhr' & Hxr). exists hr'.
      split; [done|]. by eapply agree_le.
    + intros (Hr & Hi & Hinc & consumed & rest & Ho & Hread & Hoff). conj; try done. exists consumed, (rest ++ ext).
      rewrite Ho, <- !app_assoc. done.
  - destruct ph as [| | |a b|a b size|buf]; simpl; try done.
    + intros [Hr _]. split; [done|]. by rewrite Hf.
    + intros (_ & _ & _ & p & E & _). by rewrite Hp in E.
    + intros (Hr & _). unfold sh_ready in Hr. by rewrite Hf, Hp in Hr.
Qed.

Lemma session_ok_le G G' K K' c c' m :
  hist_le G G' -> shapes_le K K' ->
  (forall j id w, wire_at c j id = Some w -> exists w' ext, wire_at c' j id = Some w' /\ wi_out w' = wi_out w ++ ext) ->
  session_ok G K c m -> session_ok G' K' c' m.
Proof.
  intros Hle HK Hw. unfold session_ok. destruct (mb_session m) as [s|]; [|done].
  intros (Hr & ph & Hph & Hc). split; [done|]. exists ph. split; [done|]. destruct (ss_conn s) as [id|]; [|done].
  destruct Hc as (sh & w & Hsh & Hwa & Hrec). destruct (HK _ _ Hsh) as (sh' & Hsh' & Hle').
  destruct (Hw _ _ _ Hwa) as (w' & ext & Hwa' & Hext). exists sh', w'. conj; try done. by eapply receiving_le.
Qed.

(** ** Replacing one member *)
Lemma inv_put G K c i m m' G' K' syncs' drawn' :
  sys_inv G K c -> cf_members c !! i = Some m ->
  let c' := mkConfig (<[i := m']> (cf_members c)) syncs' drawn' in
  hist_le G G' -> hist_ok G' drawn' -> shapes_le K K' ->
  (forall j m2, j <> i -> cf_members c !! j = Some m2 -> unmoved G G' m2) ->
  node_ok G' m' -> prim_ok (D := D) G' (shapes_of K' i) (fun id => dict_get (i, id) syncs') (prim m') ->
  (forall j id, j <> i -> K' !! (j, id) = K !! (j, id) /\ dict_get (j, id) syncs' = dict_get (j, id) (cf_syncs c)) ->
  wires_grow (prim m) (prim m') ->
  (forall j m2, j <> i -> cf_members c !! j = Some m2 -> replid_of m' = replid_of m2 ->
     (role_of m' = RPrimary /\ role_of m2 = RPrimary) \/ G' !! replid_of m' = None -> False) ->
  replid_of m' ∈ drawn' -> (forall X, X ∈ cf_drawn c -> X ∈ drawn') ->
  session_ok G' K' c' m' -> in_range c' -> dict_wf syncs' -> sys_inv G' K' c'.
Proof.
  intros [I1 I2 I3 I4 I5 I6 I7 I8] Hm c' Hle Hok HK Hun Hnode Hprim Hoth Hgrow Hown Hdr Hsub Hses Hrange Hwf.
  assert (Hget : forall j m2, cf_members c' !! j = Some m2 -> (j = i /\ m2 = m') \/ (j <> i /\ cf_members c !! j = Some m2)).
  { intros j m2 Hj. subst c'. cbn [cf_members] in Hj. apply list_lookup_insert_Some in Hj as [(-> & -> & _)|[Hne Hj]]; [by left|].
    right. split; [by intros ->|done]. }
  assert (Hwire : forall j id w, wire_at c j id = Some w -> exists w' ext, wire_at c' j id = Some w' /\ wi_out w' = wi_out w ++ ext).
  { intros j id w Hj. unfold wire_at in *. subst c'. cbn [cf_members]. destruct (decide (j = i)) as [->|Hne].
    - rewrite Hm in Hj. rewrite list_lookup_insert_eq by (by eapply lookup_lt_Some). by apply Hgrow.
    - rewrite list_lookup_insert_ne by done. exists w, []. by rewrite app_nil_r. }
  split; [done| | | | | |done|done].
  - intros j m2 Hj. apply Hget in Hj as [[-> ->]|[Hne Hj]]; [done|]. eapply node_ok_le; eauto.
  - intros j m2 Hj. apply Hget in Hj as [[-> ->]|[Hne Hj]]; [done|]. apply Hsub. by eapply I3.
  - intros j m2 Hj. apply Hget in Hj as [[-> ->]|[Hne Hj]]; [done|].
    eapply prim_ok_ext; [| |eapply prim_ok_le; [exact Hle|by apply (I4 j)]]; intros id; by destruct (Hoth j id Hne).
  - intros j k m1 m2 Hj Hk E Hor. apply Hget in Hj as [[-> ->]|[Hj1 Hj]], Hk as [[-> ->]|[Hk1 Hk]]; [done| | |].
    + exfalso. by eapply Hown.
    + exfalso. eapply (Hown j m1); [done|done|done|]. destruct Hor as [[? ?]|Hn]; [left; done|right; by rewrite <- E].
    + eapply I5; [exact Hj|exact Hk|done|]. destruct Hor as [?|Hn]; [by left|right].
      destruct (G !! replid_of m1) as [h|] eqn:Eh; [|done]. destruct (Hle _ _ Eh) as (h' & Hh' & _). congruence.
  - intros j m2 Hj. apply Hget in Hj as [[-> ->]|[Hne Hj]]; [done|]. eapply session_ok_le; eauto.
Qed.
End Inv.

(** * Every step keeps the invariant

    And what a history gains in a step is what a primary has after it. *)

Section Steps.
Context {D V : Type} `{NodeEngine D} `{ReplicaEngine D} `{!ReplicaLaws D V}.
Abbreviation Hist := (gmap pystr (History (V := V))).
Abbreviation Shapes := (gmap (nat * nat) Shape).
Abbreviation position := (position (effect (D := D) (V := V))).
Abbreviation prim m := (nd_primary (mb_node m)).
Abbreviation world m := (nd_world (mb_node m)).
Implicit Types (G : Hist) (K : Shapes) (c : Config (D := D)) (m : Member (D := D)) (h : History (V := V)).

Definition primary_at c (o : Z) (v : V) : Prop :=
  exists i m, cf_members c !! i = Some m /\ role_of m = RPrimary /\ offset_of m = o /\ data_of m = v.

Definition moments G c G' c' : Prop :=
  (forall X h o v, G' !! X = Some h -> position h o v ->
     (exists X0 h0, G !! X0 = Some h0 /\ position h0 o v) \/ primary_at c' o v) /\
  (forall i m', cf_members c' !! i = Some m' -> role_of m' = RReplica -> G' !! replid_of m' = None ->
     exists m, cf_members c !! i = Some m /\ offset_of m' = offset_of m /\ data_of m' = data_of m).

Definition advances G c c' : Prop := exists G' K', sys_inv G' K' c' /\ moments G c G' c'.

Lemma hist_le_refl G : hist_le G G.
Proof. intros X h Hh. by exists h. Qed.

Lemma shapes_le_refl K : shapes_le K K.
Proof. intros k s Hk. exists s. split; [done|by left]. Qed.

(** ** The member [i] moves in its history, or stays *)
Lemma moments_put G c i m' syncs drawn :
  (role_of m' = RReplica -> G !! replid_of m' = None ->
   exists m, cf_members c !! i = Some m /\ offset_of m' = offset_of m /\ data_of m' = data_of m) ->
  moments G c G (mkConfig (<[i := m']> (cf_members c)) syncs drawn).
Proof.
  intros Hm. split; [intros X h o v Hh Hp; left; by exists X, h|].
  intros j m2 Hj Hr Hn. cbn [cf_members] in Hj. apply list_lookup_insert_Some in Hj as [(-> & -> & _)|[_ Hj]]; [by apply Hm|].
  by exists m2.
Qed.

(** No history changes. *)
Lemma adv_move G K c i m m' :
  sys_inv G K c -> cf_members c !! i = Some m -> node_ok G m' -> role_of m' = role_of m ->
  prim_ok (D := D) G (fun id => K !! (i, id)) (fun id => dict_get (i, id) (cf_syncs c)) (prim m') ->
  wires_grow (prim m) (prim m') -> (replid_of m' = replid_of m \/ role_of m = RReplica /\ is_Some (G !! replid_of m')) ->
  (G !! replid_of m' = None -> offset_of m' = offset_of m /\ data_of m' = data_of m) ->
  session_ok G K (put_member i m' c) m' -> in_range (put_member i m' c) -> advances G c (put_member i m' c).
Proof.
  intros Hi Hm Hn Hr Hp Hw Hid Hq Hs Hrange. exists G, K. split.
  2: { apply moments_put. intros _ Hnone. exists m. split; [done|]. by apply Hq. }
  eapply (inv_put G K c i m m' G K); try done.
  - apply hist_le_refl.
  - apply Hi.
  - apply shapes_le_refl.
  - intros j m2 Hj Hm2 E Hor. destruct Hid as [Hid|[Hrr [h Hh]]].
    + apply Hj. symmetry. eapply (si_own _ _ _ Hi i j m m2 Hm Hm2); [congruence|]. destruct Hor as [[? ?]|?]; [left; split; congruence|right; congruence].
    + destruct Hor as [[? ?]|?]; congruence.
  - destruct Hid as [Hid|[Hrr [h Hh]]]; [rewrite Hid; by eapply si_drawn|]. by destruct (si_hist _ _ _ Hi _ _ Hh) as (_ & _ & ? & _).
  - apply Hi.
Qed.

(** The node stays where it is. *)
Lemma node_ok_same G m m' :
  node_ok G m -> state_of m' = state_of m -> data_of m' = data_of m -> role_of m' = role_of m ->
  ne_replication (world m') = None -> nd_attached (mb_node m') = nd_attached (mb_node m) ->
  (is_Some (nd_link (mb_node m')) <-> is_Some (nd_link (mb_node m))) -> pr_active (prim m') = pr_active (prim m) ->
  (pr_replicas (prim m) = [] -> pr_replicas (prim m') = []) -> (role_of m = RPrimary -> mb_session m' = None) ->
  node_ok G m'.
Proof.
  intros [N1 N2 N3 N4 N5] Es Ed Er En Ea El Eact Erep Ese. unfold replid_of, offset_of in *.
  split; unfold replid_of, offset_of; rewrite ?Es, ?Ed, ?Er, ?Ea, ?Eact; try done.
  - destruct N3 as [?|(? & ? & ?)]; [by left|right; auto].
  - intros Hr. destruct (N4 Hr) as (A & L & S & P). conj; auto. rewrite L in El. destruct (nd_link (mb_node m')); [|done].
    exfalso. destruct El as [El _]. destruct El as [? ?]; [by eexists|done].
  - intros Hr. destruct (N5 Hr) as (A & L & S). conj; auto. by apply El.
Qed.

Lemma wires_refl p : wires_grow p p.
Proof. intros id w Hw. exists w, []. by rewrite app_nil_r. Qed.

Lemma wire_at_put c i m m' :
  cf_members c !! i = Some m -> wires_grow (prim m) (prim m') ->
  forall j id w, wire_at c j id = Some w -> exists w' ext, wire_at (put_member i m' c) j id = Some w' /\ wi_out w' = wi_out w ++ ext.
Proof.
  intros Hm Hg j id w Hj. unfold wire_at, put_member in *. cbn [cf_members]. destruct (decide (j = i)) as [->|Hne].
  - rewrite Hm in Hj. rewrite list_lookup_insert_eq by (by eapply lookup_lt_Some). by apply Hg.
  - rewrite list_lookup_insert_ne by done. exists w, []. by rewrite app_nil_r.
Qed.

(** Only the node's primary half or its engine changes. *)
Lemma adv_primary G K c i m d' p' :
  sys_inv G K c -> cf_members c !! i = Some m -> ne_replication d' = None -> rl_view d' = data_of m ->
  prim_ok (D := D) G (fun id => K !! (i, id)) (fun id => dict_get (i, id) (cf_syncs c)) p' -> evolves (prim m) p' ->
  let c' := put_member i (mkMember (set_world d' p' (mb_node m)) (mb_session m)) c in
  in_range c' -> advances G c c'.
Proof.
  intros Hi Hm Hd Hv Hp (E1 & E2 & _ & E4 & Hg) c' Hrange.
  set (m' := mkMember (set_world d' p' (mb_node m)) (mb_session m)).
  assert (Es : state_of m' = state_of m) by done.
  assert (Hid : replid_of m' = replid_of m) by (unfold replid_of; by rewrite Es).
  apply (adv_move G K c i m m'); try done.
  - apply (node_ok_same G m m'); try done; [by eapply si_node|]. intros Hr. cbn [mb_session m'].
    by destruct (no_primary _ _ (si_node _ _ _ Hi i m Hm) Hr) as (_ & _ & ? & _).
  - by left.
  - intros _. split; [exact (f_equal rs_offset E1)|done].
  - assert (Hs : session_ok G K c' m).
    { eapply session_ok_le; [apply hist_le_refl|apply shapes_le_refl| |by eapply si_session].
      by apply wire_at_put with (m := m). }
    revert Hs. unfold session_ok. cbn [mb_session m']. unfold phase_of, role_of. cbn [mb_node m' set_world nd_link nd_role].
    destruct (mb_session m) as [s|]; [|done]. intros (Hr & ph & Hph & Hc). split; [done|]. exists ph. split; [done|].
    destruct (ss_conn s) as [id|]; [|by rewrite Es]. fold c'. destruct Hc as (sh & w & Hsh & Hwa & Hrec). exists sh, w. conj; try done.
    unfold receiving in *. unfold offset_of, replid_of in *. rewrite Es. by replace (data_of m') with (data_of m) by done.
Qed.

Lemma stream_ready G K c i m :
  sys_inv G K c -> cf_members c !! i = Some m -> pr_replicas (prim m) = [] \/ stream_of G (prim m).
Proof.
  intros Hi Hm. destruct (no_position _ _ (si_node _ _ _ Hi i m Hm)) as [(h & Hh & _ & Hb & _)|(_ & _ & ?)]; [|by left].
  right. by exists h.
Qed.

Lemma adv_upd G K c i m f :
  sys_inv G K c -> cf_members c !! i = Some m ->
  prim_ok (D := D) G (fun id => K !! (i, id)) (fun id => dict_get (i, id) (cf_syncs c)) (f (prim m)) /\ evolves (prim m) (f (prim m)) ->
  in_range (put_member i (upd_primary f m) c) -> advances G c (put_member i (upd_primary f m) c).
Proof.
  intros Hi Hm [Hp He] Hr. unfold upd_primary in *. eapply adv_primary; try done. by apply (no_replication _ _ (si_node _ _ _ Hi i m Hm)).
Qed.

(** ** A primary's history grows *)
Lemma backlog_in_append h b raw : backlog_in h b -> segment h (bl_end b) raw -> backlog_in h (append raw b).
Proof.
  intros (Hc & Hs & He) Hr.
  assert (Ha : segment h (bl_start b) (bl_buf b ++ raw)) by (apply segment_app; by rewrite <- He).
  unfold append. destruct (Z.ltb_spec 0 (Z.of_nat (length (bl_buf b ++ raw)) - capacity b)) as [Hx|Hx];
    unfold backlog_in; cbn [capacity bl_buf bl_start bl_end]; rewrite ?length_drop, length_app in *; (conj; [done| |lia]); [|done].
  rewrite <- (take_drop (Z.to_nat (Z.of_nat (length (bl_buf b) + length raw) - capacity b)) (bl_buf b ++ raw)) in Ha.
  apply segment_app in Ha as [_ Ha]. rewrite length_take, length_app in Ha.
  replace (Z.of_nat (_ `min` _)) with (Z.of_nat (length (bl_buf b) + length raw) - capacity b) in Ha by lia. done.
Qed.

Lemma prim_ok_state G sh sy s p :
  rs_replid s = rs_replid (pr_state p) \/ pr_replicas p = [] -> prim_ok (D := D) G sh sy p -> prim_ok (D := D) G sh sy (set_state s p).
Proof.
  intros Hs [Hwf Hw Hr Hb]. split; [done|done| |done]. intros id r Hi. cbn [set_state pr_replicas] in Hi.
  destruct Hs as [Hs|Hs]; [|by rewrite Hs in Hi]. destruct (Hr id r Hi) as (s' & w & seg & H1 & H2 & H3 & H4 & Hrest).
  exists s', w, seg. cbn [set_state pr_wires pr_state]. rewrite Hs. done.
Qed.

Definition grown (X : pystr) h (f : Frame) G : Hist := <[X := add_frame f h]> G.

Lemma grown_le X h (f : Frame) G : G !! X = Some h -> hist_le G (grown X h f G).
Proof.
  intros Hh Y h' Hy. unfold grown. destruct (decide (Y = X)) as [->|Hne].
  - rewrite lookup_insert_eq. exists (add_frame f h). split; [done|]. assert (h' = h) as -> by congruence. apply extends_add.
  - rewrite lookup_insert_ne by done. by exists h'.
Qed.

Lemma end_add h (f : Frame) : h_end (add_frame f h) = h_end h + Z.of_nat (length f.1).
Proof. unfold h_end, add_frame. cbn [h_base h_frames]. rewrite raws_app, length_app, raws_cons. cbn [raws]. rewrite app_nil_r. lia. Qed.

Lemma segment_end h (f : Frame) : segment (add_frame f h) (h_end h) f.1.
Proof.
  exists (raws (h_frames h)), []. unfold add_frame. cbn [h_base h_frames]. split; [|done].
  by rewrite raws_app, raws_cons, !app_nil_r.
Qed.

Lemma position_add h (f : Frame) v : position h (h_end h) v -> framed (h_frames h) ->
  position (add_frame f h) (h_end (add_frame f h)) (effect v f.2).
Proof.
  intros Hp Hf. assert (v = run_frames effect (h_view h) (h_frames h)) as ->.
  { eapply position_unique; [done|exact Hp|apply position_end]. }
  eapply eq_rect; [apply position_end|]. unfold add_frame. cbn [h_view h_frames]. by rewrite run_frames_app.
Qed.

(** A position of the longer history is one of the shorter or its end. *)
Lemma position_add_inv h (f : Frame) o v : position (add_frame f h) o v ->
  position h o v \/ o = h_end (add_frame f h) /\ v = effect (run_frames effect (h_view h) (h_frames h)) f.2.
Proof.
  intros (l1 & l2 & El & Eo & Ev). unfold add_frame in *. cbn [h_base h_view h_frames] in *.
  destruct l2 as [|g l2 _] using rev_ind.
  - right. rewrite app_nil_r in El. subst l1. rewrite Eo, Ev, run_frames_app. done.
  - rewrite app_assoc in El. apply app_inj_tail in El as [El _]. left. by exists l1, l2.
Qed.

Lemma member_range c i m : in_range c -> cf_members c !! i = Some m -> Z.abs (offset_of m) < 2 ^ 63.
Proof. intros Hr Hm. unfold in_range in Hr. rewrite Forall_lookup in Hr. by destruct (Hr i m Hm). Qed.

Lemma hist_ok_grown G drawn X h (f : Frame) :
  hist_ok (D := D) G drawn -> G !! X = Some h -> stream_frame f.1 f.2 -> frame_ok (D := D) (V := V) f.2 ->
  h_end (add_frame f h) < 2 ^ 63 -> hist_ok (D := D) (grown X h f G) drawn.
Proof.
  intros Hok Hh Hf Hfo He Y h' Hy. unfold grown in Hy. destruct (decide (Y = X)) as [->|Hne].
  - rewrite lookup_insert_eq in Hy. injection Hy as <-. destruct (Hok X h Hh) as (F1 & F2 & F3 & F4 & F5 & _). cbn [add_frame h_frames h_base].
    conj; try done; apply Forall_app; split; try done; by apply Forall_singleton.
  - rewrite lookup_insert_ne in Hy by done. by apply Hok.
Qed.

Lemma grown_end h b (f : Frame) :
  backlog_in h b -> bl_end b = h_end h ->
  bl_end (append f.1 b) = h_end (add_frame f h) /\ backlog_in (add_frame f h) (append f.1 b).
Proof.
  intros Hb He. split.
  - rewrite end_add, <- He. unfold append. by destruct (0 <? _).
  - apply backlog_in_append; [eapply backlog_in_le; [apply extends_add|done]|]. rewrite He. apply segment_end.
Qed.

(** The primary [m] is at the end of its history, [m'] one frame further. *)
Lemma adv_grow G K c i m m' h (f : Frame) :
  sys_inv G K c -> cf_members c !! i = Some m -> role_of m = RPrimary -> G !! replid_of m = Some h ->
  stream_frame f.1 f.2 -> frame_ok (D := D) (V := V) f.2 ->
  let G' := grown (replid_of m) h f G in
  node_ok G' m' -> role_of m' = RPrimary -> replid_of m' = replid_of m ->
  prim_ok (D := D) G' (fun id => K !! (i, id)) (fun id => dict_get (i, id) (cf_syncs c)) (prim m') ->
  wires_grow (prim m) (prim m') -> position (add_frame f h) (offset_of m') (data_of m') -> in_range (put_member i m' c) ->
  advances G c (put_member i m' c).
Proof.
  intros Hi Hm Hr Hh Hf Hfo G' Hn Hr' Eid Hp Hg Hpos Hrange.
  assert (Hh' : G' !! replid_of m = Some (add_frame f h)) by (unfold G', grown; by rewrite lookup_insert_eq).
  destruct (no_primary _ _ Hn Hr') as (_ & Hl & Hse & Hact). rewrite Eid in Hact. destruct (Hact _ Hh') as [_ Eoff].
  assert (Hilt : (i < length (cf_members c))%nat) by (by eapply lookup_lt_Some).
  assert (Hi' : cf_members (put_member i m' c) !! i = Some m') by (by apply list_lookup_insert_eq).
  assert (Hok : hist_ok (D := D) G' (cf_drawn c)).
  { apply hist_ok_grown; try done; [apply Hi|]. pose proof (member_range _ _ _ Hrange Hi'). lia. }
  exists G', K. split.
  - eapply (inv_put G K c i m m' G' K); try done.
    + by apply grown_le.
    + apply shapes_le_refl.
    + intros j m2 Hj Hm2 Hor. unfold G', grown. rewrite lookup_insert_ne; [done|]. intros E. apply Hj.
      symmetry. eapply (si_own _ _ _ Hi i j m m2); try done. destruct Hor as [?|?]; [by left|right; congruence].
    + intros j m2 Hj Hm2 E Hor. apply Hj. symmetry. eapply (si_own _ _ _ Hi i j m m2); try done; [congruence|].
      destruct Hor as [[? ?]|?]; [by left|]. congruence.
    + rewrite Eid. by eapply si_drawn.
    + unfold session_ok. rewrite Hse. left. unfold phase_of. by rewrite Hl.
    + apply Hi.
  - split.
    + intros X h' o v Hx Hpx. destruct (decide (X = replid_of m)) as [->|Hne].
      * rewrite Hh' in Hx. injection Hx as <-. destruct (position_add_inv _ _ _ _ Hpx) as [Hold|[Ho _]]; [left; by exists (replid_of m), h|].
        right. exists i, m'. conj; try done; [congruence|]. eapply position_unique; [|exact Hpos|rewrite Eoff, <- Ho; exact Hpx].
        by destruct (Hok _ _ Hh').
      * unfold G', grown in Hx. rewrite lookup_insert_ne in Hx by done. left. by exists X, h'.
    + intros j m2 Hj Hrj Hnone. cbn [put_member cf_members] in Hj. apply list_lookup_insert_Some in Hj as [(-> & -> & _)|[_ Hj]]; [congruence|].
      by exists m2.
Qed.

(** A primary nobody replicates from may do anything to its data. *)
Lemma adv_idle G K c i m d' p' :
  sys_inv G K c -> cf_members c !! i = Some m -> role_of m = RPrimary -> ne_replication d' = None ->
  quiet G (state_of m) -> pr_active (prim m) = false -> pr_replicas (prim m) = [] ->
  prim_ok (D := D) G (fun id => K !! (i, id)) (fun id => dict_get (i, id) (cf_syncs c)) p' -> evolves (prim m) p' ->
  let c' := put_member i (mkMember (set_world d' p' (mb_node m)) (mb_session m)) c in
  in_range c' -> advances G c c'.
Proof.
  intros Hi Hm Hr Hd Hq Hina Hrep Hpok (E1 & E2 & E3 & E4 & Hg) c' Hrange. pose proof (si_node _ _ _ Hi i m Hm) as Hn.
  destruct (no_primary _ _ Hn Hr) as (Ha & Hl & Hse & _). assert (Hnone : G !! replid_of m = None) by apply Hq.
  set (m' := mkMember (set_world d' p' (mb_node m)) (mb_session m)).
  assert (Es : state_of m' = state_of m) by exact E1. assert (Eid : replid_of m' = replid_of m) by (unfold replid_of; by rewrite Es).
  exists G, K. split; [|apply moments_put; intros Hrr; exfalso; unfold role_of in *; cbn in Hrr; congruence].
  eapply (inv_put G K c i m m' G K); try done; [apply hist_le_refl|apply Hi|apply shapes_le_refl| | | | |apply Hi].
  - split; try done.
    + rewrite Eid. apply Hn.
    + right. rewrite Es. conj; [done|by rewrite <- Hina|auto].
    + intros _. conj; try done. intros h'. rewrite Eid. congruence.
    + intros Hrr. unfold role_of in Hrr, Hr. cbn in Hrr. congruence.
  - intros j m2 Hj Hm2 E _. apply Hj. symmetry. eapply (si_own _ _ _ Hi i j m m2); try done; [congruence|by right].
  - rewrite Eid. by eapply si_drawn.
  - unfold session_ok. cbn [mb_session m']. rewrite Hse. left. unfold phase_of. cbn. by rewrite Hl.
Qed.

(** The primary [m] records a frame, if its stream is active, and does
    something more that is no change of its state. *)
Lemma adv_feed G K c i m d' p' (f : Frame) :
  sys_inv G K c -> cf_members c !! i = Some m -> role_of m = RPrimary -> ne_replication d' = None ->
  stream_frame f.1 f.2 -> frame_ok (D := D) (V := V) f.2 ->
  (pr_active (prim m) = true -> rl_view d' = effect (data_of m) f.2) ->
  (forall G', prim_ok (D := D) G' (fun id => K !! (i, id)) (fun id => dict_get (i, id) (cf_syncs c)) (Primary.feed f.1 (prim m)) ->
     (pr_replicas (prim m) = [] \/ stream_of G' (Primary.feed f.1 (prim m))) ->
     prim_ok (D := D) G' (fun id => K !! (i, id)) (fun id => dict_get (i, id) (cf_syncs c)) p' /\ evolves (Primary.feed f.1 (prim m)) p') ->
  let c' := put_member i (mkMember (set_world d' p' (mb_node m)) (mb_session m)) c in
  in_range c' -> advances G c c'.
Proof.
  intros Hi Hm Hr Hd Hf Hfo Hv Hp' c' Hrange. pose proof (si_node _ _ _ Hi i m Hm) as Hn.
  destruct (no_primary _ _ Hn Hr) as (Ha & Hl & Hse & Hact). pose proof (si_prim _ _ _ Hi i m Hm) as Hp.
  unfold Primary.feed in Hp'. set (m' := mkMember (set_world d' p' (mb_node m)) (mb_session m)).
  destruct (no_position _ _ Hn) as [(h & Hh & Hpos & Hb & H2)|(Hq & Hina & Hrep)].
  - destruct (Hact h Hh) as [Hac Hend]. rewrite Hac in Hp'. change (rs_replid (state_of m)) with (replid_of m) in Hh.
    set (G' := grown (replid_of m) h f G). destruct (grown_end h (rs_backlog (state_of m)) f Hb Hend) as [Ee Hb'].
    assert (Hle : hist_le G G') by (by apply grown_le).
    assert (Hh' : G' !! replid_of m = Some (add_frame f h)) by (unfold G', grown; by rewrite lookup_insert_eq).
    destruct (Hp' G') as [Hpok (E1 & E2 & E3 & E4 & Hg)].
    { apply prim_ok_state; [by left|]. by eapply prim_ok_le. }
    { right. by exists (add_frame f h). }
    assert (Hposv : position (add_frame f h) (h_end (add_frame f h)) (data_of m')).
    { unfold data_of. cbn [mb_node m' set_world nd_world]. rewrite (Hv Hac). apply position_add.
      - rewrite <- Hend. done.
      - by destruct (si_hist _ _ _ Hi _ _ Hh). }
    assert (Es : state_of m' = set_backlog (append f.1 (rs_backlog (state_of m))) (state_of m)) by exact E1.
    assert (Eid : replid_of m' = replid_of m) by (unfold replid_of; by rewrite Es).
    assert (Eoff : offset_of m' = h_end (add_frame f h)) by (unfold offset_of; by rewrite Es).
    apply (adv_grow G K c i m m' h f); try done; [|by rewrite Eoff].
    split; try done; fold G'.
    + unfold replid_of. rewrite Es. apply Hn.
    + left. rewrite Es. exists (add_frame f h). conj; [done|unfold rs_offset; cbn [set_backlog rs_backlog]; by rewrite Ee|done|].
      intros H2n. destruct (H2 H2n) as (h2 & Hh2 & Hag). destruct (Hle _ _ Hh2) as (h2' & Hh2' & Hx2). exists h2'. split; [done|].
      eapply agree_le; [exact Hx2|apply extends_add|exact Hag].
    + intros _. conj; try done. intros h'. rewrite Eid, Hh'. intros [= <-]. split; [|done]. unfold m'. cbn [mb_node set_world nd_primary].
      rewrite E2. exact Hac.
    + intros Hrr. unfold role_of in Hrr, Hr. unfold m' in Hrr. cbn [mb_node set_world nd_role] in Hrr. congruence.
  - rewrite Hina in Hp'. destruct (Hp' G) as [Hpok He]; [done|by left|]. by eapply adv_idle.
Qed.
End Steps.
