(* ===== verification/ReplLinkSteps.v ===== *)
(** * The steps of primaries, and changes of role *)

From Stdlib Require Import String.
From S2P Require Import Prelude PyStr PyFloat Codec Errors Store Snapshot Registry Resp RespProofs Engine.
From S2P Require Import ReplStream Primary ReplicaLink Metrics ShardNode ReplSystem ReplLinkProofs ReplWires.
From S2P Require Import ReplInv.
Local Close Scope string_scope.

Section Roles.
Context {D V : Type} `{NodeEngine D} `{ReplicaEngine D} `{!ReplicaLaws D V}.
Abbreviation Hist := (gmap pystr (History (V := V))).
Abbreviation Shapes := (gmap (nat * nat) Shape).
Abbreviation position := (position (effect (D := D) (V := V))).
Abbreviation prim m := (nd_primary (mb_node m)).
Abbreviation world m := (nd_world (mb_node m)).
Implicit Types (G : Hist) (K : Shapes) (c : Config (D := D)) (m : Member (D := D)) (h : History (V := V)) (n : Node (D := D)).

(** ** The stream of a primary *)
Lemma set_world_same n : set_world (nd_world n) (nd_primary n) n = n.
Proof. by destruct n. Qed.

Lemma adv_none G K c i m :
  sys_inv G K c -> cf_members c !! i = Some m ->
  let c' := put_member i (mkMember (mb_node m) (mb_session m)) c in in_range c' -> advances G c c'.
Proof.
  intros Hi Hm. assert (E : mkMember (mb_node m) (mb_session m) = mkMember (set_world (world m) (prim m) (mb_node m)) (mb_session m))
    by (by rewrite set_world_same).
  rewrite E. apply (adv_primary G K); try done; [apply (si_node _ _ _ Hi i m Hm)|by apply (si_prim _ _ _ Hi i m)].
Qed.

Lemma adv_effect G K c i m d' args raw :
  sys_inv G K c -> cf_members c !! i = Some m -> role_of m = RPrimary -> ne_replication d' = None ->
  effect_fits args -> encode_command args = Ok raw ->
  (pr_active (prim m) = true ->
   rl_command (arg_text <$> args) /\ rl_view d' = rl_effect (data_of m) (arg_text <$> args)) ->
  let c' := put_member i (mkMember (set_world d' (Primary.feed raw (prim m)) (mb_node m)) (mb_session m)) c in
  in_range c' -> advances G c c'.
Proof.
  intros Hi Hm Hr Hd Hfit Henc Hact c' Hrange. destruct (encode_stream_frame args Hfit) as (raw' & E & Hf).
  assert (raw' = raw) as -> by congruence. destruct (pr_active (prim m)) eqn:Ea.
  - destruct (Hact eq_refl) as [Hc Hv]. destruct (command_effect (D := D) (data_of m) (arg_text <$> args) Hc) as [He Hfo].
    apply (adv_feed G K c i m d' _ (raw, arg_text <$> args)); try done. intros _. simpl. by rewrite He.
  - pose proof (si_node _ _ _ Hi i m Hm) as Hn. unfold c', Primary.feed in *. rewrite Ea in *.
    destruct (no_position _ _ Hn) as [(h & Hh & _)|(Hq & _ & Hrep)].
    + destruct (no_primary _ _ Hn Hr) as (_ & _ & _ & Hx). destruct (Hx h Hh). congruence.
    + eapply adv_idle; try done. by apply (si_prim _ _ _ Hi i m).
Qed.

(** The stream's own commands change nothing. *)
Lemma internal_frame args :
  effect_fits args -> match args with AStr name :: _ => internal name | _ => false end = true ->
  exists raw, encode_command args = Ok raw /\ stream_frame raw (arg_text <$> args) /\
    frame_ok (D := D) (V := V) (arg_text <$> args) /\ forall v, effect (D := D) v (arg_text <$> args) = v.
Proof.
  intros Hfit Hin. destruct (encode_stream_frame args Hfit) as (raw & E & Hf). exists raw. conj; try done.
  - destruct args as [|a args]; [done|]. destruct a as [name| | | |]; try done. exists name, (arg_text <$> args). split; [done|by left].
  - intros v. destruct args as [|a args]; [done|]. destruct a as [name| | | |]; try done. simpl. by rewrite Hin.
Qed.

Lemma ascii_fits s : ascii s -> Z.of_nat (length s) <= 2 ^ 64 -> arg_fits (2 ^ 64) (AStr s).
Proof. intros Ha Hl. exists s. cbn [arg_text]. rewrite to_bytes_ascii, to_str_ascii by done. done. Qed.

Ltac words_fit := split; [done|]; repeat (apply Forall_cons; split; [apply ascii_fits; [|done]|]); try done; repeat constructor; done.

Lemma adv_ping G K c i m :
  sys_inv G K c -> cf_members c !! i = Some m ->
  let c' := put_member i (mkMember (ping_replicas (mb_node m)).2 (mb_session m)) c in in_range c' -> advances G c c'.
Proof.
  intros Hi Hm. cbv zeta. unfold ping_replicas, bindM, getM. destruct (nd_role (mb_node m)) eqn:Hr; [|by apply (adv_none G K)].
  unfold on_primary, ping, bindM, getM.
  destruct (internal_frame [AStr (lit "PING")]) as (raw & E & Hf & Hfo & He); [words_fit|done|].
  unfold feed_command, bindM, lift. rewrite E. destruct (pr_replicas (prim m)) eqn:Erep.
  { cbn. rewrite set_world_same. by apply (adv_none G K). }
  cbn [modifyM snd]. intros Hrange. eapply (adv_feed G K c i m (world m) _ (raw, _)); [done|done|done| |exact Hf|exact Hfo| | |done].
  - apply (si_node _ _ _ Hi i m Hm).
  - intros _. symmetry. apply He.
  - intros G' Hp Hst. apply flush_ok; [done|]. destruct Hst as [Hst|Hst]; [congruence|by right].
Qed.

Lemma adv_wait G K c i m needed :
  sys_inv G K c -> cf_members c !! i = Some m -> role_of m = RPrimary ->
  let c' := put_member i (mkMember (node_wait needed (mb_node m)).2 (mb_session m)) c in in_range c' -> advances G c c'.
Proof.
  intros Hi Hm Hr. cbv zeta. unfold node_wait, on_primary, wait_begin, bindM, getM.
  destruct ((needed <=? acked (pr_offset (prim m)) (prim m)) || _) eqn:Edone.
  { cbn. rewrite set_world_same. by apply (adv_none G K). }
  apply orb_false_elim in Edone as [_ Edone].
  destruct (internal_frame [AStr (lit "REPLCONF"); AStr (lit "GETACK"); AStr (lit "*")]) as (raw & E & Hf & Hfo & He); [words_fit|done|].
  unfold feed_command, bindM, lift. rewrite E. cbn [modifyM snd].
  intros Hrange. eapply (adv_feed G K c i m (world m) _ (raw, _)); [done|done|done| |exact Hf|exact Hfo| | |done].
  - apply (si_node _ _ _ Hi i m Hm).
  - intros _. symmetry. apply He.
  - intros G' Hp Hst. destruct (waiters_ok G' _ _ (pr_waiters (prim m) ++ [(fresh_waiter (prim m), mkWaiter (pr_offset (prim m)) needed None)]) _ Hp) as [Hp1 He1].
    cbn [fst] in *.
    assert (Ew : forall l, Primary.feed raw (set_waiters l (prim m)) = set_waiters l (Primary.feed raw (prim m)))
      by (intros l; unfold Primary.feed; cbn [set_waiters pr_active pr_state]; by destruct (pr_active (prim m))).
    rewrite Ew. destruct (flush_ok G' _ _ _ Hp1) as [Hp2 He2].
    + destruct Hst as [Hst|Hst]; [by rewrite Hst in Edone|by right].
    + split; [done|by etransitivity].
Qed.

(** ** Changes of role *)
Lemma node_expiry b n :
  exists d', on_node_engine (ne_expiry_deletes b) n = (Ok tt, set_world d' (nd_primary n) n) /\
    rl_view d' = rl_view (nd_world n) /\ ne_replication d' = None.
Proof.
  unfold on_node_engine, engine_world, store_world.
  destruct (rl_expiry b (ne_set_replication (if nd_attached n then Some (nd_primary n) else None) (nd_world n))) as (d' & -> & Hv & Hr).
  rewrite rl_get_replication in Hr. rewrite rl_set_replication in Hv. exists (ne_set_replication None d').
  rewrite Hr, rl_set_replication, rl_get_replication. by destruct (nd_attached n).
Qed.

Lemma become_primary_ok fresh n :
  nd_role n = RReplica ->
  exists d', rl_view d' = rl_view (nd_world n) /\ ne_replication d' = None /\
    (become_primary fresh n).2 =
      set_world d' (set_active true (set_state (fork fresh (pr_state (nd_primary n))) (nd_primary n)))
        (set_role RPrimary true (set_link None n)).
Proof.
  intros Hr. unfold become_primary, on_primary. cbn [bindM getM]. rewrite Hr. unfold bindM, modifyM, getM.
  match goal with |- context [on_node_engine _ ?n'] => destruct (node_expiry true n') as (d' & -> & Hv & Hd) end.
  exists d'. done.
Qed.

Lemma become_replica_ok host port now n :
  match nd_link n with Some k => same_primary host port k | None => false end = false ->
  exists d', rl_view d' = rl_view (nd_world n) /\ ne_replication d' = None /\
    (become_replica host port now n).2 =
      set_link (Some (start_link (new_link host port (nd_listening_port n) now)))
        (set_world d' (disconnect_all (nd_primary n)) (set_role RReplica false n)).
Proof.
  intros Hr. unfold become_replica, on_primary. cbn [bindM getM]. rewrite Hr. unfold bindM, modifyM, getM.
  match goal with |- context [on_node_engine _ ?n'] => destruct (node_expiry false n') as (d' & -> & Hv & Hd) end.
  exists d'. done.
Qed.

Lemma adv_demote G K c i m host port now :
  sys_inv G K c -> cf_members c !! i = Some m ->
  match nd_link (mb_node m) with Some k => same_primary host port k | None => false end = false ->
  let c' := put_member i (mkMember (become_replica host port now (mb_node m)).2 None) c in
  in_range c' -> advances G c c'.
Proof.
  intros Hi Hm Hsame. destruct (become_replica_ok host port now (mb_node m) Hsame) as (d' & Hv & Hd & ->).
  set (m' := mkMember _ _). intros c' Hrange. pose proof (si_node _ _ _ Hi i m Hm) as Hn.
  destruct (disconnect_ok _ _ _ _ (si_prim _ _ _ Hi i m Hm)) as (Hp & (E1 & E2 & _ & _ & Hg) & Erep).
  assert (Es : state_of m' = state_of m) by exact E1. assert (Ed : data_of m' = data_of m) by exact Hv.
  assert (Eid : replid_of m' = replid_of m) by (unfold replid_of; by rewrite Es).
  exists G, K. split.
  2: { apply moments_put. intros _ _. exists m. unfold offset_of. by rewrite Es, Ed. }
  eapply (inv_put G K c i m m' G K); try done; [apply hist_le_refl|apply Hi|apply shapes_le_refl| | | | |apply Hi].
  - split; try done.
    + rewrite Eid. apply Hn.
    + rewrite Es, Ed. destruct (no_position _ _ Hn) as [?|(? & Ha & _)]; [by left|right]. conj; [done|exact (eq_trans E2 Ha)|done].
  - intros j m2 Hj Hm2 E [[Hr _]|Hnone]; [done|]. apply Hj. symmetry.
    eapply (si_own _ _ _ Hi i j m m2); try done; [congruence|right; by rewrite <- Eid].
  - rewrite Eid. by eapply si_drawn.
  - by right.
Qed.

(** The history a promoted node starts: what it has of the old one. *)
Lemma fork_history h o v b :
  position h o v -> backlog_in h b -> bl_end b = o -> framed (h_frames h) -> Forall (fun f => frame_ok (D := D) (V := V) f.2) (h_frames h) ->
  exists h', agree h h' o /\ h_end h' = o /\ position h' o v /\ backlog_in h' b /\ h_base h' = h_base h /\
    framed (h_frames h') /\ Forall (fun f => frame_ok (D := D) (V := V) f.2) (h_frames h') /\
    forall o' v', position h' o' v' -> position h o' v'.
Proof.
  intros (l1 & l2 & El & Eo & Ev) Hb He Hf Hfo. exists (mkHistory (h_base h) (h_view h) l1).
  assert (Ha : agree h (mkHistory (h_base h) (h_view h) l1) o) by (exists l1, l2, []; by rewrite app_nil_r).
  rewrite El in Hf, Hfo. apply Forall_app in Hf as [Hf _], Hfo as [Hfo _]. conj; try done.
  - exists l1, []. by rewrite app_nil_r.
  - eapply agree_backlog; [done|done|lia].
  - intros o' v' (k1 & k2 & Ek & -> & ->). exists k1, (k2 ++ l2). cbn [h_frames h_base h_view] in *. by rewrite El, Ek, app_assoc.
Qed.

Lemma hist_ok_drawn G drawn fresh : hist_ok (D := D) G drawn -> hist_ok (D := D) G (fresh :: drawn).
Proof. intros Hok X h Hx. destruct (Hok X h Hx) as (F1 & F2 & F3 & F4). conj; try done; [by right|apply F4..]. Qed.

Lemma insert_fresh_le G X h : G !! X = None -> hist_le G (<[X := h]> G).
Proof.
  intros Hn Y h' Hy. exists h'. split; [|reflexivity]. rewrite lookup_insert_ne; [done|]. intros ->. congruence.
Qed.

Lemma prim_ok_active G sh sy b p : prim_ok (D := D) G sh sy p -> prim_ok (D := D) G sh sy (set_active b p).
Proof. intros [Hwf Hw Hr Hb]. by split. Qed.

Lemma adv_promote_tracked G K c i m fresh :
  sys_inv G K c -> cf_members c !! i = Some m -> role_of m = RReplica -> tracked G (state_of m) (data_of m) ->
  replid_ok fresh -> fresh ∉ cf_drawn c ->
  let m' := mkMember (become_primary fresh (mb_node m)).2 None in
  let c' := mkConfig (<[i := m']> (cf_members c)) (cf_syncs c) (fresh :: cf_drawn c) in
  in_range c' -> exists G', sys_inv G' K c' /\ moments G c G' c' /\ offset_of m' = offset_of m /\ data_of m' = data_of m /\ role_of m' = RPrimary.
Proof.
  intros Hi Hm Hr (h & Hh & Hpos & Hb & H2) Hfresh Hnew. destruct (become_primary_ok fresh (mb_node m) Hr) as (d' & Hv & Hd & ->).
  intros m' c' Hrange. destruct (si_hist _ _ _ Hi _ _ Hh) as (F1 & F2 & F3 & F4 & F5 & F6).
  destruct (fork_history h _ _ _ Hpos Hb eq_refl F1 F2) as (h' & Ha & Hend & Hpos' & Hb' & Hbase & Hf' & Hfo' & Hsub).
  assert (Hnf : G !! fresh = None).
  { destruct (G !! fresh) as [hf|] eqn:E; [|done]. by destruct (si_hist _ _ _ Hi _ _ E) as (_ & _ & ? & _). }
  assert (Hne : fresh <> replid_of m) by (intros ->; by apply Hnew, (si_drawn _ _ _ Hi i)).
  destruct (no_replica _ _ (si_node _ _ _ Hi i m Hm) Hr) as (_ & _ & Erep).
  set (G' := <[fresh := h']> G). assert (Hle : hist_le G G') by (by apply insert_fresh_le).
  assert (Hh' : G' !! fresh = Some h') by apply lookup_insert_eq.
  assert (Hh2 : G' !! replid_of m = Some h) by (unfold G'; by rewrite lookup_insert_ne).
  exists G'. conj; try done.
  - eapply (inv_put G K c i m m' G' K); try done.
    + intros X hx Hx. destruct (decide (X = fresh)) as [->|Hx'].
      * assert (hx = h') as -> by congruence. conj; try done; [by left|lia|]. rewrite Hend.
        pose proof (member_range _ _ _ (si_range _ _ _ Hi) Hm) as Hrg. unfold offset_of in Hrg. lia.
      * unfold G' in Hx. rewrite lookup_insert_ne in Hx by done. by eapply (hist_ok_drawn G (cf_drawn c) fresh (si_hist _ _ _ Hi)).
    + apply shapes_le_refl.
    + intros j m2 Hj Hm2 _. unfold G'. rewrite lookup_insert_ne; [done|]. intros ->. by apply Hnew, (si_drawn _ _ _ Hi j m2).
    + split; try done.
      * left. exists h'. assert (Ed : data_of m' = data_of m) by exact Hv. rewrite Ed. conj; try done. intros _. by exists h.
      * intros _. conj; try done. intros hx Hx. split; [done|]. change (replid_of m') with fresh in Hx.
        assert (hx = h') as -> by congruence. exact (eq_sym Hend).
    + eapply prim_ok_le; [exact Hle|]. apply prim_ok_active. apply (prim_ok_state G _ _ (fork fresh (pr_state (prim m))) (prim m)); [by right|].
      by apply (si_prim _ _ _ Hi i m).
    + intros id w Hw. exists w, []. by rewrite app_nil_r.
    + intros j m2 Hj Hm2 E _. change (replid_of m') with fresh in E. apply Hnew. rewrite E. by apply (si_drawn _ _ _ Hi j).
    + by left.
    + intros X. by right.
    + by left.
    + apply Hi.
  - split.
    + intros X hx o v Hx Hp. left. destruct (decide (X = fresh)) as [->|Hx'].
      * assert (hx = h') as -> by congruence. exists (replid_of m), h. split; [done|by apply Hsub].
      * unfold G' in Hx. rewrite lookup_insert_ne in Hx by done. by exists X, hx.
    + intros j m2 Hj Hrj _. cbn [c' cf_members] in Hj. apply list_lookup_insert_Some in Hj as [(_ & Em & _)|[_ Hj]]; [by rewrite <- Em in Hrj|by exists m2].
Qed.

(** A node nobody knew of gets a history of its own. *)
Definition revealed m G : Hist := <[replid_of m := mkHistory (offset_of m) (data_of m) []]> G.

Lemma reveal_hist G K c i m :
  sys_inv G K c -> cf_members c !! i = Some m -> quiet G (state_of m) ->
  hist_le G (revealed m G) /\ hist_ok (D := D) (revealed m G) (cf_drawn c) /\ tracked (revealed m G) (state_of m) (data_of m) /\
  (forall j m2, j <> i -> cf_members c !! j = Some m2 -> unmoved G (revealed m G) m2).
Proof.
  intros Hi Hm (Q1 & Q2 & Q3 & Q4 & Q5 & Q6). pose proof (si_node _ _ _ Hi i m Hm) as Hn.
  set (h := mkHistory (offset_of m) (data_of m) []). change (rs_replid (state_of m)) with (replid_of m) in *.
  assert (Hh : revealed m G !! replid_of m = Some h) by apply lookup_insert_eq. conj.
  - by apply insert_fresh_le.
  - intros X hx Hx. destruct (decide (X = replid_of m)) as [->|Hx'].
    + assert (hx = h) as -> by congruence. pose proof (member_range _ _ _ (si_range _ _ _ Hi) Hm). unfold h_end. cbn.
      conj; [constructor|constructor|by apply (si_drawn _ _ _ Hi i)|apply Hn|lia|lia].
    + unfold revealed in Hx. rewrite lookup_insert_ne in Hx by done. by apply (si_hist _ _ _ Hi).
  - exists h. pose proof (position_base (effect (D := D) (V := V)) h). conj; [done|done| |by rewrite Q2].
    unfold backlog_in. rewrite Q4, Q5, Q6. conj; [done| |done]. exists [], []. split; [done|]. cbn. unfold offset_of, rs_offset. by rewrite Q6.
  - intros j m2 Hj Hm2 Hor. unfold revealed. rewrite lookup_insert_ne; [done|]. intros E. apply Hj. symmetry.
    eapply (si_own _ _ _ Hi i j m m2); try done. by right.
Qed.

Lemma reveal_position G m X h o v :
  revealed m G !! X = Some h -> position h o v -> (exists h0, G !! X = Some h0 /\ position h0 o v) \/ offset_of m = o /\ data_of m = v.
Proof.
  intros Hx Hp. unfold revealed in Hx. destruct (decide (X = replid_of m)) as [->|Hne].
  - rewrite lookup_insert_eq in Hx. injection Hx as <-. right. destruct Hp as (l1 & l2 & El & -> & ->). cbn in El. symmetry in El.
    apply app_nil in El as [-> ->]. cbn. split; [lia|done].
  - rewrite lookup_insert_ne in Hx by done. left. by exists h.
Qed.

Lemma reveal G K c i m :
  sys_inv G K c -> cf_members c !! i = Some m -> role_of m = RReplica -> quiet G (state_of m) ->
  sys_inv (revealed m G) K c /\ tracked (revealed m G) (state_of m) (data_of m).
Proof.
  intros Hi Hm Hr Hq. pose proof (si_node _ _ _ Hi i m Hm) as Hn. destruct (reveal_hist G K c i m Hi Hm Hq) as (Hle & Hok & Ht & Hun).
  split; [|done]. assert (Ec : c = mkConfig (<[i := m]> (cf_members c)) (cf_syncs c) (cf_drawn c)).
  { rewrite list_insert_id by done. by destruct c. }
  rewrite Ec. apply (inv_put G K c i m m (revealed m G) K); try done.
  - apply shapes_le_refl.
  - split; try apply Hn; [by left|]. intros Hrr. congruence.
  - eapply prim_ok_le; [exact Hle|]. by apply (si_prim _ _ _ Hi i m).
  - apply wires_refl.
  - intros j m2 Hj Hm2 E [[Hrr _]|Hnone]; [congruence|]. unfold revealed in Hnone. rewrite lookup_insert_eq in Hnone. done.
  - by apply (si_drawn _ _ _ Hi i).
  - rewrite <- Ec. eapply session_ok_le; [exact Hle|apply shapes_le_refl| |by eapply si_session]. intros j id w Hw. exists w, []. by rewrite app_nil_r.
  - rewrite <- Ec. apply Hi.
  - apply Hi.
Qed.

Lemma adv_promote G K c i m fresh :
  sys_inv G K c -> cf_members c !! i = Some m -> replid_ok fresh -> fresh ∉ cf_drawn c ->
  let c' := mkConfig (<[i := mkMember (become_primary fresh (mb_node m)).2 None]> (cf_members c)) (cf_syncs c) (fresh :: cf_drawn c) in
  in_range c' -> advances G c c'.
Proof.
  intros Hi Hm Hfresh Hnew c' Hrange. pose proof (si_node _ _ _ Hi i m Hm) as Hn. destruct (nd_role (mb_node m)) eqn:Hr.
  - assert (E : (become_primary fresh (mb_node m)).2 = mb_node m) by (unfold become_primary; cbn [bindM getM]; by rewrite Hr).
    unfold c' in *. rewrite E in *. destruct (no_primary _ _ Hn Hr) as (_ & _ & Hse & _).
    assert (Em : mkMember (mb_node m) None = m) by (destruct m; cbn in *; by subst). rewrite Em in *.
    exists G, K. split; [|apply moments_put; intros Hrr; unfold role_of in Hrr; congruence].
    eapply (inv_put G K c i m m G K); try done; [apply hist_le_refl|apply hist_ok_drawn, Hi|apply shapes_le_refl|by apply (si_prim _ _ _ Hi i m)|
      apply wires_refl| |right; by eapply si_drawn|intros X; by right| |apply Hi].
    + intros j m2 Hj Hm2 E' Hor. apply Hj. symmetry. eapply (si_own _ _ _ Hi i j m m2); done.
    + eapply session_ok_le; [apply hist_le_refl|apply shapes_le_refl| |by eapply si_session].
      apply (wire_at_put c i m m Hm (wires_refl _)).
  - destruct (no_position _ _ Hn) as [Ht|(Hq & _)].
    + edestruct (adv_promote_tracked G K c i m fresh) as (G' & Hi' & Hmo & _); try done. by exists G', K.
    + destruct (reveal G K c i m Hi Hm Hr Hq) as [Hi1 Ht].
      edestruct (adv_promote_tracked _ K c i m fresh Hi1 Hm) as (G' & Hi' & (Hm1 & Hm2) & Eo & Ed & Er'); try done. exists G', K. split; [done|]. split.
      * intros X h o v Hx Hp. destruct (Hm1 X h o v Hx Hp) as [(X0 & h0 & H0' & Hp0)|?]; [|by right].
        destruct (reveal_position G m X0 h0 o v H0' Hp0) as [(h1 & Hh1 & Hp1)|[Ho Hd]]; [left; by exists X0, h1|].
        right. exists i, (mkMember (become_primary fresh (mb_node m)).2 None). conj; [|done|congruence|congruence].
        apply list_lookup_insert_eq. by eapply lookup_lt_Some.
      * done.
Qed.
End Roles.

(** * The steps of a replica's link *)

Section LinkSteps.
Context {D V : Type} `{NodeEngine D} `{ReplicaEngine D} `{!ReplicaLaws D V}.
Abbreviation Hist := (gmap pystr (History (V := V))).
Abbreviation Shapes := (gmap (nat * nat) Shape).
Abbreviation position := (position (effect (D := D) (V := V))).
Abbreviation prim m := (nd_primary (mb_node m)).
Abbreviation world m := (nd_world (mb_node m)).
Implicit Types (G : Hist) (K : Shapes) (c : Config (D := D)) (m : Member (D := D)) (h : History (V := V)) (n : Node (D := D)).

(** ** What a link's action does to the node *)
Definition linked d' st k n : Node (D := D) :=
  set_link (Some k) (set_world (ne_set_replication None d') (set_state st (nd_primary n)) n).

Lemma on_link_ok {A} (act : M exn (LinkWorld D) A) n k r d' st k' :
  nd_link n = Some k -> nd_attached n = false ->
  act (mkLW (ne_set_replication None (nd_world n)) (pr_state (nd_primary n)) k) = (r, mkLW d' st k') ->
  ne_replication d' = None -> on_link act n = (r, linked d' st k' n).
Proof.
  intros Hk Ha Hact Hd. unfold on_link, engine_world. rewrite Hk, Ha, Hact. unfold store_world. cbn [lw_data lw_state lw_link].
  rewrite Hd. done.
Qed.

(** The world in which it acts. *)
Lemma link_world n :
  let d := ne_set_replication None (nd_world n) in rl_view d = rl_view (nd_world n) /\ ne_replication d = None.
Proof. cbv zeta. by rewrite rl_set_replication, rl_get_replication. Qed.

Lemma session_ok_same G K c m m' :
  mb_session m' = mb_session m -> role_of m' = role_of m -> phase_of m' = phase_of m -> state_of m' = state_of m ->
  data_of m' = data_of m -> session_ok G K c m -> session_ok G K c m'.
Proof.
  intros Es Er Ep Est Ed. unfold session_ok. rewrite Es, Er, Ep, Est. destruct (mb_session m) as [s|]; [|done].
  intros (Hr & ph & Hph & Hc). split; [done|]. exists ph. split; [done|]. destruct (ss_conn s) as [id|]; [|done].
  destruct Hc as (sh & w & H1 & H2 & H3). exists sh, w. conj; try done. unfold receiving, offset_of, replid_of in *. by rewrite Est, Ed.
Qed.

Lemma session_ok_put G K c i m m' :
  cf_members c !! i = Some m -> pr_wires (prim m') = pr_wires (prim m) -> session_ok G K c m' -> session_ok G K (put_member i m' c) m'.
Proof.
  intros Hm Hw. apply session_ok_le; [apply hist_le_refl|apply shapes_le_refl|]. apply (wire_at_put c i m m' Hm).
  intros id w Hi. exists w, []. by rewrite Hw, app_nil_r.
Qed.

(** ** The link moves the replica *)
Lemma adv_link G K c i m d' st k' ses' :
  sys_inv G K c -> cf_members c !! i = Some m -> role_of m = RReplica ->
  let m' := mkMember (linked d' st k' (mb_node m)) ses' in
  tracked G st (rl_view d') \/ st = state_of m /\ rl_view d' = data_of m ->
  session_ok G K c m' -> in_range (put_member i m' c) -> advances G c (put_member i m' c).
Proof.
  intros Hi Hm Hr m' Hpos Hs Hrange. pose proof (si_node _ _ _ Hi i m Hm) as Hn. pose proof (si_prim _ _ _ Hi i m Hm) as Hp.
  destruct (no_replica _ _ Hn Hr) as (Ha & Hl & Hrep).
  assert (Ed : data_of m' = rl_view d') by (unfold data_of; cbn; apply rl_set_replication).
  assert (Es : state_of m' = st) by done.
  apply (adv_move G K c i m m'); try done.
  - split; try done.
    + cbn. apply rl_get_replication.
    + unfold replid_of. rewrite Es. destruct Hpos as [(h & Hh & _)|[-> _]]; [by destruct (si_hist _ _ _ Hi _ _ Hh) as (_ & _ & _ & ? & _)|apply Hn].
    + rewrite Es, Ed. destruct Hpos as [Ht|[-> ->]]; [by left|apply Hn].
    + intros Hr'. exfalso. unfold role_of in *. cbn in Hr'. congruence.
  - apply (prim_ok_state G _ _ st (prim m)); [by right|done].
  - intros id w Hw. exists w, []. by rewrite app_nil_r.
  - unfold replid_of. rewrite Es. destruct Hpos as [(h & Hh & _)|[-> _]]; [right|by left]. by rewrite Hh.
  - unfold replid_of, offset_of. rewrite Es, Ed. destruct Hpos as [(h & Hh & _)|[-> ->]]; [congruence|done].
  - by eapply session_ok_put.
Qed.

(** A node with a link is a replica. *)
Lemma linked_replica G m k : node_ok G m -> nd_link (mb_node m) = Some k -> role_of m = RReplica /\ nd_attached (mb_node m) = false.
Proof.
  intros Hn Hk. destruct (role_of m) eqn:Hr.
  - destruct (no_primary _ _ Hn Hr) as (_ & Hl & _). congruence.
  - by destruct (no_replica _ _ Hn Hr).
Qed.

Lemma adv_connect G K c i m k peer :
  sys_inv G K c -> cf_members c !! i = Some m -> nd_link (mb_node m) = Some k ->
  let c' := put_member i (mkMember (on_link session_begin (mb_node m)).2 (Some (mkSession peer None (lit "?", -1) 0))) c in
  in_range c' -> advances G c c'.
Proof.
  intros Hi Hm Hk. pose proof (si_node _ _ _ Hi i m Hm) as Hn. destruct (linked_replica G m k Hn Hk) as [Hr Ha].
  destruct (link_world (mb_node m)) as [Hv Hd].
  assert (exists out, session_begin (mkLW (ne_set_replication None (world m)) (state_of m) k) =
    (Ok tt, mkLW (ne_set_replication None (world m)) (state_of m) (set_phase POk (set_link_out out (set_link_state LSync (set_link_out [] k)))))) as [out E].
  { unfold session_begin, announce_port, bindM, upd_link, modifyM, get_link, readM. cbn [lw_data lw_state lw_link].
    match goal with |- context [link_write ?a ?w'] => destruct (link_write_ok a w' (port_ascii _)) as (out & E) end.
    exists out. rewrite E. done. }
  rewrite (on_link_ok _ _ _ _ _ _ _ Hk Ha E Hd). intros c' Hrange.
  eapply (adv_link G K); try done; [right; done|]. unfold session_ok. cbn [mb_session]. split; [done|]. by exists POk.
Qed.

Lemma adv_ask G K c i m s :
  sys_inv G K c -> cf_members c !! i = Some m -> mb_session m = Some s -> phase_of m = Some POk ->
  let c' := put_member i (mkMember (on_link (expect_ok (lit "+OK" ++ CRLF)) (mb_node m)).2
                  (Some (mkSession (ss_peer s) None (psync_args (state_of m)) 0))) c in
  in_range c' -> advances G c c'.
Proof.
  intros Hi Hm Hs Hph. unfold phase_of in Hph. destruct (nd_link (mb_node m)) as [k|] eqn:Hk; [|done].
  pose proof (si_node _ _ _ Hi i m Hm) as Hn. destruct (linked_replica G m k Hn Hk) as [Hr Ha].
  destruct (link_world (mb_node m)) as [Hv Hd].
  assert (exists out, expect_ok (lit "+OK" ++ CRLF) (mkLW (ne_set_replication None (world m)) (state_of m) k) =
    (Ok tt, mkLW (ne_set_replication None (world m)) (state_of m) (set_phase PLine (set_link_out out k)))) as [out E].
  { unfold expect_ok, get_state, readM. change (starts_with _ _) with true. cbn [negb bindM lw_state].
    assert (Hasc : ascii (psync_args (state_of m)).1).
    { unfold psync_args. destruct (_ || _); [apply replid_ascii, Hn|repeat constructor; done]. }
    destruct (psync_args (state_of m)) as [id o]. unfold bindM.
    match goal with |- context [link_write ?a ?w] => destruct (link_write_ok a w) as [out E] end.
    { repeat (apply Forall_cons; split); try done; cbn [arg_text]; first [apply int_ascii|done|repeat constructor; done]. }
    exists out. rewrite E. done. }
  rewrite (on_link_ok _ _ _ _ _ _ _ Hk Ha E Hd). intros c' Hrange.
  eapply (adv_link G K); try done; [right; done|]. unfold session_ok. cbn [mb_session]. split; [done|]. by exists PLine.
Qed.

Lemma adv_ack G K c i m s buf :
  sys_inv G K c -> cf_members c !! i = Some m -> mb_session m = Some s -> phase_of m = Some (PStream buf) ->
  let c' := put_member i (mkMember (on_link send_ack (mb_node m)).2 (Some s)) c in in_range c' -> advances G c c'.
Proof.
  intros Hi Hm Hs Hph. pose proof Hph as Hph'. unfold phase_of in Hph'. destruct (nd_link (mb_node m)) as [k|] eqn:Hk; [|done].
  pose proof (si_node _ _ _ Hi i m Hm) as Hn. destruct (linked_replica G m k Hn Hk) as [Hr Ha].
  destruct (link_world (mb_node m)) as [Hv Hd].
  destruct (send_ack_ok (mkLW (ne_set_replication None (world m)) (state_of m) k)) as [out E].
  rewrite (on_link_ok _ _ _ _ _ _ _ Hk Ha E Hd). intros c' Hrange.
  eapply (adv_link G K); try done; [right; done|].
  eapply session_ok_same; [exact (eq_sym Hs)|done| |done| |by eapply si_session].
  - rewrite Hph. exact Hph'.
  - unfold data_of. cbn [mb_node linked set_link set_world nd_world]. by rewrite rl_set_replication.
Qed.

Lemma adv_lost G K c i m :
  sys_inv G K c -> cf_members c !! i = Some m -> in_range (put_member i (lose_session m) c) ->
  advances G c (put_member i (lose_session m) c).
Proof.
  intros Hi Hm Hrange. pose proof (si_node _ _ _ Hi i m Hm) as Hn. apply (adv_move G K c i m); try done.
  - apply (node_ok_same G m); try done; [apply Hn|]. cbn. by destruct (nd_link (mb_node m)).
  - by apply (si_prim _ _ _ Hi i m).
  - intros id w Hw. exists w, []. by rewrite app_nil_r.
  - by left.
  - unfold session_ok. cbn. unfold phase_of. cbn. destruct (nd_link (mb_node m)); [by right|by left].
Qed.

(** ** What arrives *)
Lemma session_wire G K c i m s ph :
  sys_inv G K c -> cf_members c !! i = Some m -> mb_session m = Some s -> phase_of m = Some ph ->
  match ph with POk | PLine => unread_of c s <> [] | _ => True end ->
  exists id sh w, ss_conn s = Some id /\ K !! (ss_peer s, id) = Some sh /\ wire_at c (ss_peer s) id = Some w /\
    receiving G m s sh (wi_out w) ph /\ shape_ok (D := D) G sh (wi_out w) /\ Z.of_nat (length (wi_out w)) < 2 ^ 63 /\
    unread_of c s = drop (ss_read s) (wi_out w).
Proof.
  intros Hi Hm Hs Hph Hne. pose proof (si_session _ _ _ Hi i m Hm) as Hse. unfold session_ok in Hse. rewrite Hs in Hse.
  destruct Hse as (_ & ph' & Hph' & Hc). assert (ph' = ph) as -> by congruence.
  destruct (ss_conn s) as [id|] eqn:Eid.
  2: { destruct ph; try done; unfold unread_of in Hne; rewrite Eid in Hne; by destruct (cf_members c !! ss_peer s). }
  destruct Hc as (sh & w & Hsh & Hw & Hrec). exists id, sh, w. unfold wire_at, unread_of in *. rewrite Eid in *.
  destruct (cf_members c !! ss_peer s) as [p|] eqn:Hp; [|done]. rewrite Hw in *. conj; try done.
  - destruct (po_wires _ _ _ _ (si_prim _ _ _ Hi _ _ Hp) id w Hw) as (sh' & Hsh' & Hok & _). by assert (sh' = sh) as -> by congruence.
  - pose proof (si_range _ _ _ Hi) as Hr. unfold in_range in Hr. rewrite Forall_lookup in Hr. destruct (Hr _ _ Hp) as [_ Hall].
    apply dict_get_Some_elem in Hw. rewrite Forall_forall in Hall. by apply (Hall (id, w)).
Qed.

Lemma unread_line c s line rest : unread_of c s = line ++ rest -> is_line line -> unread_of c s <> [].
Proof. intros -> (l & -> & _). by destruct l. Qed.

Lemma continued_id Y st : rs_replid (continued Y st) = Y.
Proof. unfold continued. by case_bool_decide. Qed.

Lemma continued_offset Y st : rs_offset (continued Y st) = rs_offset st.
Proof. unfold continued. by case_bool_decide. Qed.

(** A node that continues in a history it agrees with up to its offset. *)
Lemma tracked_continue G drawn Y st v h :
  hist_ok (D := D) G drawn -> tracked G st v \/ quiet G st -> replid_ok (rs_replid st) -> G !! Y = Some h -> position h (rs_offset st) v ->
  (Y <> rs_replid st -> exists hr, G !! rs_replid st = Some hr /\ agree hr h (rs_offset st)) -> tracked G (continued Y st) v.
Proof.
  intros Hok Hold Hid Hh Hp Hag. unfold continued. case_bool_decide as E.
  - destruct Hold as [?|(Hq & _)]; [done|]. rewrite E in Hh. congruence.
  - destruct (Hag E) as (hr & Hhr & Ha). destruct Hold as [(hr' & Hhr' & _ & Hb & _)|(Hq & _)]; [|congruence].
    assert (hr' = hr) as -> by congruence. exists h. cbn [rs_replid rs_backlog rs_replid2 rs_second_offset]. conj; try done.
    + eapply agree_backlog; [exact Ha|done|done].
    + intros _. by exists hr.
Qed.

Lemma position_of_node G m : node_ok G m -> tracked G (state_of m) (data_of m) \/ quiet G (state_of m).
Proof. intros Hn. destruct (no_position _ _ Hn) as [?|[? _]]; auto. Qed.

Lemma adv_psync G K c i m s line rest now :
  sys_inv G K c -> cf_members c !! i = Some m -> mb_session m = Some s -> phase_of m = Some PLine ->
  unread_of c s = line ++ rest -> is_line line ->
  let c' := put_member i (link_receives (psync_line line now) (length line) m) c in in_range c' -> advances G c c'.
Proof.
  intros Hi Hm Hs Hph Hun Hline. pose proof Hph as Hph'. unfold phase_of in Hph'. destruct (nd_link (mb_node m)) as [k|] eqn:Hk; [|done].
  pose proof (si_node _ _ _ Hi i m Hm) as Hn. destruct (linked_replica G m k Hn Hk) as [Hr Ha].
  destruct (link_world (mb_node m)) as [Hv Hd].
  destruct (session_wire G K c i m s PLine Hi Hm Hs Hph (unread_line _ _ _ _ Hun Hline)) as (id & sh & w & Hid & Hsh & Hw & Hrec & Hok & _ & Hu).
  destruct Hrec as [Hread Hcont]. destruct Hok as (h & seg & Hh & Hrid & Hout & _). rewrite Hu, Hread, drop_0, Hout in Hun.
  unfold head_of in *. unfold link_receives. rewrite Hs. cbn [fmap option_fmap option_map]. destruct (sh_full sh) eqn:Hfull.
  - destruct (fullresync_line_newline _ (sh_off sh) Hrid) as (l & El & Hl). rewrite El, <- app_assoc in Hun. symmetry in Hun.
    destruct (line_of l line rest _ Hline Hl Hun) as [-> _]. rewrite <- El.
    rewrite (on_link_ok _ _ _ _ _ _ _ Hk Ha (psync_full _ _ _ _ Hrid) Hd). cbv zeta. intros Hrange.
    eapply (adv_link G K); try done; [right; done|]. unfold session_ok. cbn [mb_session]. split; [done|]. eexists. split; [done|].
    cbn [ss_conn]. rewrite Hid. exists sh, w. cbn. by rewrite Hread.
  - destruct (Hcont eq_refl) as (Hoff & h' & Hh' & Hpos & Hag). assert (h' = h) as -> by congruence.
    destruct (continue_line_newline _ Hrid) as (l & El & Hl). rewrite El in Hun. symmetry in Hun.
    destruct (line_of l line rest _ Hline Hl Hun) as [-> _]. rewrite <- El.
    destruct (psync_continue (sh_id sh) now (mkLW (ne_set_replication None (world m)) (state_of m) k) Hrid) as [out E].
    cbn [lw_data lw_state lw_link] in E. rewrite (on_link_ok _ _ _ _ _ _ _ Hk Ha E Hd). cbv zeta. intros Hrange.
    eapply (adv_link G K); try done.
    + left. rewrite Hv. eapply tracked_continue; [apply Hi|by apply position_of_node|apply Hn|exact Hh|done|done].
    + unfold session_ok. cbn [mb_session]. split; [done|]. eexists. split; [done|]. cbn [ss_conn]. rewrite Hid. exists sh, w.
      conj; try done. cbn [receiving streaming set_phase lk_phase]. conj.
      * unfold sh_ready. by rewrite Hfull.
      * symmetry. apply continued_id.
      * apply incomplete_nil.
      * exists [], seg. unfold head_of. rewrite Hfull, Hread, !app_nil_r. conj; try done. rewrite Z.add_0_r, Hoff. apply continued_offset.
Qed.

Lemma head_line_is_line z : is_line (head_line 36 z).
Proof. destruct (head_line_newline z) as (l & -> & Hl). by exists l. Qed.

(** A snapshot follows the line of a full resync. *)
Lemma shape_full G sh out :
  shape_ok (D := D) G sh out -> sh_full sh = true ->
  let line := fullresync_line (sh_id sh) (sh_off sh) in
  (sh_payload sh = [] /\ drop (length line) out = [] \/
   exists h records v t payload seg, G !! sh_id sh = Some h /\ encode_snapshot records t = Ok payload /\ rl_records records v /\
     position h (sh_off sh) v /\ sh_payload sh = head_line 36 (Z.of_nat (length payload)) ++ payload /\
     out = line ++ head_line 36 (Z.of_nat (length payload)) ++ payload ++ seg).
Proof.
  intros (h & seg & Hh & _ & Hout & _ & Hnr & Hsnap) Hfull line. unfold head_of, sh_ready in *. rewrite Hfull in *. fold line in Hout.
  destruct (decide (sh_payload sh = [])) as [E|E].
  - left. split; [done|]. rewrite E, bool_decide_true in * by done. rewrite Hnr, !app_nil_r in Hout by done. by rewrite Hout, drop_all.
  - right. destruct (Hsnap E) as (records & v & t & payload & He & Hr & Hp & Ep). exists h, records, v, t, payload, seg.
    conj; try done. by rewrite Hout, Ep, <- !app_assoc.
Qed.

Lemma adv_header G K c i m s replid start line rest :
  sys_inv G K c -> cf_members c !! i = Some m -> mb_session m = Some s -> phase_of m = Some (PHeader replid start) ->
  unread_of c s = line ++ rest -> is_line line ->
  let c' := put_member i (link_receives (snapshot_header replid start line) (length line) m) c in in_range c' -> advances G c c'.
Proof.
  intros Hi Hm Hs Hph Hun Hline. pose proof Hph as Hph'. unfold phase_of in Hph'. destruct (nd_link (mb_node m)) as [k|] eqn:Hk; [|done].
  pose proof (si_node _ _ _ Hi i m Hm) as Hn. destruct (linked_replica G m k Hn Hk) as [Hr Ha].
  destruct (link_world (mb_node m)) as [Hv Hd]. pose proof (unread_line _ _ _ _ Hun Hline) as Hne.
  destruct (session_wire G K c i m s _ Hi Hm Hs Hph I) as (id & sh & w & Hid & Hsh & Hw & Hrec & Hok & Hlen & Hu).
  destruct Hrec as (Hfull & -> & -> & Hread). destruct (shape_full G sh _ Hok Hfull) as [[_ Hnil]|Hsnap]; [by rewrite Hu, Hread, Hnil in Hne|].
  destruct Hsnap as (h & records & v & t & payload & seg & Hh & Henc & Hrec & Hpos & Hpay & Hout).
  rewrite Hu, Hread, Hout, drop_app_length in Hun. symmetry in Hun. destruct (head_line_newline (Z.of_nat (length payload))) as (l & El & Hl).
  rewrite El in Hun. destruct (line_of l line rest _ Hline Hl Hun) as [-> _]. rewrite <- El.
  assert (Hsize : 0 <= Z.of_nat (length payload) <= 2 ^ 64) by (rewrite Hout, !length_app in Hlen; lia).
  unfold link_receives. rewrite Hs. cbn [fmap option_fmap option_map]. rewrite (on_link_ok _ _ _ _ _ _ _ Hk Ha (header_ok _ _ _ _ Hsize) Hd).
  cbv zeta. intros Hrange. eapply (adv_link G K); try done; [right; done|].
  unfold session_ok. cbn [mb_session]. split; [done|]. eexists. split; [done|]. cbn [ss_conn]. rewrite Hid. exists sh, w.
  conj; try done. cbn [receiving set_phase lk_phase]. conj; try done. exists payload. cbn [ss_read]. by rewrite Hread.
Qed.

Lemma snapshot_payload_ok Y start payload records v t now d st k :
  encode_snapshot records t = Ok payload -> rl_records records v -> Z.abs start <= 2 ^ 64 -> ne_replication d = None ->
  exists d' out, snapshot_payload Y (str_of_int start) payload now (mkLW d st k) =
    (Ok tt, mkLW d' (mkRState (ReplStream.reset start (rs_backlog st)) Y NO_REPLID (-1))
              (streaming out now (set_syncs (full_syncs k + 1) (partial_syncs k) k))) /\
    rl_view d' = v /\ ne_replication d' = None.
Proof.
  intros Henc Hrec Hstart Hd. unfold snapshot_payload. pose proof (rl_load records v t payload d Hrec Henc) as Hload.
  destruct (decode_snapshot payload (lit "full resync")) as [received failure]. destruct Hload as (keys & d' & El & Hv & Hr).
  unfold bindM at 1, on_engine. cbn [lw_data lw_state lw_link]. rewrite El. destruct (py_int_str_of_int64 start Hstart) as [-> _].
  unfold bindM, upd_state, upd_link, modifyM. cbn [lw_data lw_state lw_link].
  match goal with |- context [enter_stream now ?w] => destruct (enter_stream_ok now w) as [out E] end.
  exists d', out. rewrite E. conj; [done|done|congruence].
Qed.

Lemma capacity_pos G m : node_ok G m -> 0 < capacity (rs_backlog (state_of m)).
Proof. intros Hn. destruct (position_of_node G m Hn) as [(h & _ & _ & (Hc & _) & _)|(_ & _ & ? & _)]; done. Qed.

Lemma adv_payload G K c i m s replid start size now :
  sys_inv G K c -> cf_members c !! i = Some m -> mb_session m = Some s -> phase_of m = Some (PPayload replid start size) ->
  let c' := put_member i (link_receives (snapshot_payload replid start (take (Z.to_nat size) (unread_of c s)) now) (Z.to_nat size) m) c in
  in_range c' -> advances G c c'.
Proof.
  intros Hi Hm Hs Hph. pose proof Hph as Hph'. unfold phase_of in Hph'. destruct (nd_link (mb_node m)) as [k|] eqn:Hk; [|done].
  pose proof (si_node _ _ _ Hi i m Hm) as Hn. destruct (linked_replica G m k Hn Hk) as [Hr Ha].
  destruct (link_world (mb_node m)) as [Hv Hd].
  destruct (session_wire G K c i m s _ Hi Hm Hs Hph I) as (id & sh & w & Hid & Hsh & Hw & Hrec & Hok & Hlen & Hu).
  destruct Hrec as (Hfull & -> & -> & payload & Hpay & -> & Hread). destruct (head_line_newline (Z.of_nat (length payload))) as (l & El & Hl).
  destruct (shape_full G sh _ Hok Hfull) as [[Hnil _]|(h & records & v & t & payload' & seg & Hh & Henc & Hrec & Hpos & Hpay' & Hout)].
  { rewrite Hpay, El in Hnil. by destruct l. }
  rewrite Hpay', El in Hpay. destruct (line_of l _ payload' payload (head_line_is_line _) Hl Hpay) as [Eh ->]. clear Eh.
  assert (Htake : take (Z.to_nat (Z.of_nat (length payload))) (unread_of c s) = payload).
  { rewrite Hu, Hread, Hout, app_assoc, <- length_app, drop_app_length, Nat2Z.id. by rewrite take_app_length. }
  rewrite Htake. destruct (si_hist _ _ _ Hi _ _ Hh) as (_ & _ & _ & _ & Hb1 & Hb2). pose proof (position_range _ _ _ _ Hpos) as Hrg.
  destruct (snapshot_payload_ok (sh_id sh) (sh_off sh) payload records v t now (ne_set_replication None (world m)) (state_of m) k Henc Hrec)
    as (d' & out & E & Hv' & Hd'); [lia|done|].
  unfold link_receives. rewrite Hs. cbn [fmap option_fmap option_map]. rewrite (on_link_ok _ _ _ _ _ _ _ Hk Ha E Hd').
  cbv zeta. intros Hrange. eapply (adv_link G K); try done.
  - left. exists h. rewrite Hv'. conj; try done. unfold backlog_in. conj; [by apply (capacity_pos G)|by eapply segment_nil|cbn; lia].
  - unfold session_ok. cbn [mb_session]. split; [done|]. eexists. split; [done|]. cbn [ss_conn]. rewrite Hid. exists sh, w.
    conj; try done. cbn [receiving streaming set_phase lk_phase]. conj; [|done|apply incomplete_nil|].
    + unfold sh_ready. rewrite Hpay', El, bool_decide_false; [by rewrite orb_true_r|]. by destruct l.
    + exists [], seg. unfold head_of. rewrite Hfull, Hpay', !app_nil_r. cbn [ss_read].
      rewrite Hread, Hout, !length_app, <- !app_assoc, Nat2Z.id. conj; [done|lia|cbn; unfold rs_offset; cbn; lia].
Qed.

(** ** The stream *)
Lemma append_frames_backlog ls : forall h st,
  backlog_in h (rs_backlog st) -> segment h (rs_offset st) (raws ls) ->
  let st' := append_frames ls st in
  backlog_in h (rs_backlog st') /\ rs_offset st' = rs_offset st + Z.of_nat (length (raws ls)) /\
  rs_replid st' = rs_replid st /\ rs_replid2 st' = rs_replid2 st /\ rs_second_offset st' = rs_second_offset st.
Proof.
  induction ls as [|f ls IH]; intros h st Hb Hs; [cbn; conj; try done; lia|].
  rewrite raws_cons in Hs. apply segment_app in Hs as [Hs1 Hs2].
  assert (Ee : rs_offset (set_backlog (append f.1 (rs_backlog st)) st) = rs_offset st + Z.of_nat (length f.1)).
  { unfold rs_offset, append. cbn [set_backlog rs_backlog]. by destruct (0 <? _). }
  destruct (IH h (set_backlog (append f.1 (rs_backlog st)) st)) as (B & O & R); [by apply backlog_in_append|by rewrite Ee|].
  cbn [append_frames fold_left]. rewrite raws_cons, length_app. split; [exact B|]. split; [|exact R].
  etrans; [exact O|]. rewrite Ee. lia.
Qed.

Lemma frames_short ls : framed ls -> (length ls <= length (raws ls))%nat.
Proof.
  induction 1 as [|f ls (Hne & _) _ IH]; [done|]. rewrite raws_cons, length_app. cbn [length]. destruct f.1; [done|]. cbn [length]. lia.
Qed.

Lemma slice_rest (a b : bytes) : py_slice (Z.of_nat (length a)) (Z.of_nat (length (a ++ b))) (a ++ b) = b.
Proof.
  rewrite <- (Nat.add_0_r (length a)) at 1. rewrite length_app, py_slice_app by lia. unfold slice. by rewrite drop_0, Nat.sub_0_r, firstn_all.
Qed.

Lemma stream_data_ok buf data ls part now d st k :
  data <> [] -> buf ++ data = raws ls ++ part -> framed ls -> Forall (fun f => frame_ok (D := D) (V := V) f.2) ls ->
  (forall pre, next_command (pre ++ part) (Z.of_nat (length pre)) = Ok None) -> ne_replication d = None ->
  exists d' out, (let! _ := stream_data buf data now in ret tt) (mkLW d st k) =
    (Ok tt, mkLW d' (append_frames ls st) (set_phase (PStream part) (set_link_out out (set_last_io now k)))) /\
    rl_view d' = run_frames effect (rl_view d) ls /\ ne_replication d' = None.
Proof.
  intros Hne E Hf Ho Hpart Hd. unfold stream_data. destruct data as [|b data]; [done|]. rewrite E.
  unfold bindM, upd_link, modifyM. cbn [lw_data lw_state lw_link].
  destruct (stream_loop_ok ls (length (raws ls ++ part)) [] part (mkLW d st (set_last_io now k)) Hf Ho) as (d' & out & El & Hv & Hr); [|done|].
  { rewrite length_app. pose proof (frames_short ls Hf). lia. }
  cbn [app length] in El. change (Z.of_nat 0) with 0 in El. rewrite El. exists d', out. cbn [lw_data lw_state lw_link] in *.
  conj; [|done|congruence]. by rewrite slice_rest.
Qed.

Definition read_more (n : nat) (s : Session) : Session := mkSession (ss_peer s) (ss_conn s) (ss_request s) (ss_read s + n).

(** The replica after a piece of the stream. *)
Lemma stream_step G K c i m s buf data rest now :
  sys_inv G K c -> cf_members c !! i = Some m -> mb_session m = Some s -> phase_of m = Some (PStream buf) ->
  unread_of c s = data ++ rest -> data <> [] ->
  exists d' st k' part, lk_phase k' = PStream part /\ tracked G st (rl_view d') /\ role_of m = RReplica /\
    let m' := mkMember (linked d' st k' (mb_node m)) (Some (read_more (length data) s)) in
    link_receives (let! _ := stream_data buf data now in ret tt) (length data) m = m' /\ session_ok G K c m'.
Proof.
  intros Hi Hm Hs Hph Hun Hne. pose proof Hph as Hph'. unfold phase_of in Hph'. destruct (nd_link (mb_node m)) as [k|] eqn:Hk; [|done].
  pose proof (si_node _ _ _ Hi i m Hm) as Hn. destruct (linked_replica G m k Hn Hk) as [Hr Ha].
  destruct (link_world (mb_node m)) as [Hv Hd].
  destruct (session_wire G K c i m s _ Hi Hm Hs Hph I) as (id & sh & w & Hid & Hsh & Hw & Hrec & Hok & _ & Hu).
  destruct Hrec as (Hrdy & Hrid & _ & consumed & rest' & Hout & Hread & Hoff). destruct Hok as (h & seg & Hh & _ & Hout' & Hseg & _).
  assert (Hrest : rest' = data ++ rest).
  { rewrite <- Hun, Hu, Hread, Hout.
    replace (head_of sh ++ consumed ++ buf ++ rest') with ((head_of sh ++ consumed ++ buf) ++ rest') by (by rewrite <- !app_assoc).
    by rewrite drop_app_length. }
  assert (seg = consumed ++ (buf ++ data) ++ rest) as ->.
  { rewrite Hout, Hrest in Hout'. apply app_inv_head in Hout'. by rewrite <- Hout', <- app_assoc. }
  apply segment_app in Hseg as [_ Hseg]. rewrite <- Hoff in Hseg. apply segment_app in Hseg as [Hseg _].
  rewrite Hrid in Hh. destruct (position_of_node G m Hn) as [(h' & Hh' & Hpos & Hb & H2)|(Hq & _)].
  2: { change (rs_replid (state_of m)) with (replid_of m) in Hq. congruence. }
  change (rs_replid (state_of m)) with (replid_of m) in Hh'. assert (h' = h) as -> by congruence.
  destruct (si_hist _ _ _ Hi _ _ Hh) as (F1 & F2 & _).
  destruct (segment_frames _ h _ _ _ F1 Hpos Hseg) as (ls & part & Eb & Hf & Hall & Hpos' & Hpart).
  destruct (stream_data_ok buf data ls part now (ne_set_replication None (world m)) (state_of m) k Hne Eb Hf (Hall _ F2) Hpart Hd)
    as (d' & out & E & Hv' & Hd').
  rewrite Eb in Hseg. apply segment_app in Hseg as [Hseg _].
  destruct (append_frames_backlog ls h (state_of m) Hb Hseg) as (B & O & R1 & R2 & R3).
  unfold link_receives. rewrite Hs. cbn [fmap option_fmap option_map]. rewrite (on_link_ok _ _ _ _ _ _ _ Hk Ha E Hd').
  eexists d', _, _, part. conj; [| |done|reflexivity|]; [done|..].
  - exists h. rewrite Hv', Hv, O, R1, R2, R3. done.
  - unfold session_ok. cbn [mb_session]. split; [done|]. eexists. split; [done|]. cbn [ss_conn read_more ss_peer]. rewrite Hid. exists sh, w.
    conj; try done. cbn [receiving set_phase lk_phase]. conj; [done|by rewrite Hrid|exact Hpart|].
    exists (consumed ++ raws ls), rest. cbn [ss_read read_more]. rewrite <- !app_assoc, (app_assoc (raws ls)), <- Eb. conj.
    + by rewrite Hout, Hrest, <- app_assoc.
    + rewrite Hread, !length_app. apply (f_equal length) in Eb. rewrite !length_app in Eb. lia.
    + rewrite length_app, Nat2Z.inj_add, Z.add_assoc, <- Hoff. exact O.
Qed.

Lemma adv_stream G K c i m s buf data rest now :
  sys_inv G K c -> cf_members c !! i = Some m -> mb_session m = Some s -> phase_of m = Some (PStream buf) ->
  unread_of c s = data ++ rest -> data <> [] ->
  let c' := put_member i (link_receives (let! _ := stream_data buf data now in ret tt) (length data) m) c in
  in_range c' -> advances G c c'.
Proof.
  intros Hi Hm Hs Hph Hun Hne.
  destruct (stream_step G K c i m s buf data rest now Hi Hm Hs Hph Hun Hne) as (d' & st & k' & part & _ & Ht & Hr & E & Hse).
  rewrite E. cbv zeta. apply (adv_link G K c i m d' st k' _ Hi Hm Hr); [by left|done].
Qed.
End LinkSteps.
