(* ===== verification/ReplServe.v ===== *)
(** * Serving a replica, restarting a node, and the theorem of a step *)

From Stdlib Require Import String.
From S2P Require Import Prelude PyStr PyFloat Errors Codec Store Snapshot Registry Resp RespProofs ReplStream.
From S2P Require Import Engine Primary ReplicaLink Metrics ShardNode ReplSystem ReplLinkProofs ReplWires ReplInv.
From S2P Require Import ReplLinkSteps.
Local Close Scope string_scope.

Section Serve.
Context {D V : Type} `{NodeEngine D} `{ReplicaEngine D} `{!ReplicaLaws D V}.
Abbreviation Hist := (gmap pystr (History (V := V))).
Abbreviation Shapes := (gmap (nat * nat) Shape).
Abbreviation position := (position (effect (D := D) (V := V))).
Abbreviation prim m := (nd_primary (mb_node m)).
Abbreviation world m := (nd_world (mb_node m)).
Implicit Types (G : Hist) (K : Shapes) (c : Config (D := D)) (m p : Member (D := D)) (h : History (V := V)) (n : Node (D := D)).

(** ** The start of [serve] *)
Lemma dict_set_twice {X} (id : nat) (a b : X) l : dict_set id a (dict_set id b l) = dict_set id a l.
Proof.
  induction l as [|[i x] l IH]; cbn [dict_set]; [by rewrite decide_True|]. case_decide as E; cbn [dict_set].
  - by rewrite decide_True.
  - rewrite decide_False by done. by rewrite IH.
Qed.

Lemma encode_replid s : replid_ok s -> encode_text s = Ok s.
Proof. intros Hs. unfold encode_text. by rewrite to_bytes_ascii by (by apply replid_ascii). Qed.

(** [register] and the first line. *)
Lemma register_line line host start now a f q (pr : Primary) :
  let '(id, pr') := register host start now pr in
  on_wire (wire_write line) id (set_resyncs f q (set_active a pr')) =
    enter (mkReplica host 0 InSync start 0 now start []) (mkWire line (Z.of_nat (length line)) false) a f q pr.
Proof.
  unfold register, on_wire, set_resyncs, set_active, set_wires, set_replicas, take_id, enter. cbn. rewrite dict_get_set, decide_True by done.
  cbn. by rewrite dict_set_twice.
Qed.

Definition served full start st : Shape := mkShape (rs_replid st) start full [].

Lemma node_serve_ok host replid offset now n id node :
  nd_attached n = true -> ne_replication (nd_world n) = None -> replid_ok (rs_replid (pr_state (nd_primary n))) ->
  node_serve host replid offset now n = (Ok id, node) ->
  let pr := nd_primary n in
  let full := negb (can_continue replid offset (pr_state pr)) in
  let start := if full then pr_offset pr else offset in
  id = pr_next_id pr /\
  exists d' r w f q, node = set_world d' (enter r w (full || pr_active pr) f q pr) n /\
    rl_view d' = rl_view (nd_world n) /\ ne_replication d' = None /\
    cr_start r = start /\ cr_sent r = start /\ cr_state r = InSync /\
    wi_out w = head_of (served full start (pr_state pr)) /\ wi_closed w = false.
Proof.
  intros Ha Hn0 Hid. unfold node_serve, serve_begin. unfold bindM at 1, on_primary at 1, readM at 1. cbn [set_world nd_world].
  rewrite set_world_same. destruct (can_continue replid offset (pr_state (nd_primary n))) eqn:Ec; cbn [negb].
  - unfold on_primary, bindM, readM, modifyM, lift.
    destruct (register host offset now (nd_primary n)) as [id0 pr0] eqn:Er.
    assert (E0 : rs_replid (pr_state pr0) = rs_replid (pr_state (nd_primary n)) /\ id0 = pr_next_id (nd_primary n) /\ pr_active pr0 = pr_active (nd_primary n)).
    { unfold register in Er. injection Er as <- <-. done. }
    destruct E0 as (E0 & -> & E1). cbn [set_resyncs pr_state]. rewrite E0, (encode_replid _ Hid). intros [= <- <-]. cbv zeta. split; [done|].
    pose proof (register_line (continue_line (rs_replid (pr_state (nd_primary n)))) host offset now (pr_active (nd_primary n))
      (full_resyncs pr0) (partial_resyncs pr0 + 1) (nd_primary n)) as El. rewrite Er in El.
    replace (set_active (pr_active (nd_primary n)) pr0) with pr0 in El by (rewrite <- E1; by destruct pr0). rewrite El.
    eexists (nd_world n), _, _, _, _. split; [reflexivity|]. done.
  - unfold bindM at 1, on_primary at 1, modifyM at 1. unfold bindM at 1, on_primary at 1, readM at 1.
    cbn [set_active set_world nd_primary pr_next_id nd_world]. unfold bindM at 1, on_node_engine, engine_world.
    cbn [set_world nd_attached nd_primary nd_world]. rewrite Ha.
    match goal with |- context [ne_begin_snapshot ?i ?d] => destruct (rl_snapshot i d) as [Hv Hr]; destruct (ne_begin_snapshot i d) as [[u|x] d'] end; [|done].
    cbn [snd] in Hv, Hr. rewrite rl_set_replication in Hv. rewrite rl_get_replication in Hr. unfold store_world. rewrite Hr. cbn [default from_option set_world nd_primary nd_world]. unfold Datatypes.id.
    unfold on_primary, bindM, readM, modifyM, lift. cbn [set_world nd_primary nd_world].
    set (pa := set_active true (nd_primary n)).
    destruct (register host (pr_offset pa) now pa) as [id0 pr0] eqn:Er.
    assert (E0 : rs_replid (pr_state pr0) = rs_replid (pr_state (nd_primary n)) /\ id0 = pr_next_id (nd_primary n) /\ pr0 = set_active true pr0).
    { unfold register in Er. injection Er as <- <-. done. }
    destruct E0 as (E0 & -> & E1). cbn [set_resyncs pr_state]. rewrite E0, (encode_replid _ Hid). intros [= <- <-]. cbv zeta. split; [done|].
    pose proof (register_line (fullresync_line (rs_replid (pr_state (nd_primary n))) (pr_offset pa)) host (pr_offset pa) now true
      (full_resyncs pr0 + 1) (partial_resyncs pr0) pa) as El. rewrite Er, <- E1 in El. rewrite El.
    eexists (ne_set_replication None d'), _, _, _, _. split; [reflexivity|]. rewrite rl_set_replication, rl_get_replication. conj; try done.
    unfold head_of, served. cbn. by rewrite app_nil_r.
Qed.

(** ** A replica that may continue *)
Lemma continue_ok G K c i m j p :
  sys_inv G K c -> cf_members c !! i = Some m -> role_of m = RReplica -> cf_members c !! j = Some p -> role_of p = RPrimary ->
  can_continue (psync_args (state_of m)).1 (psync_args (state_of m)).2 (state_of p) = true ->
  (psync_args (state_of m)).2 = offset_of m /\
  exists h, G !! replid_of p = Some h /\ position h (offset_of m) (data_of m) /\
    (replid_of p <> replid_of m -> exists hr, G !! replid_of m = Some hr /\ agree hr h (offset_of m)).
Proof.
  intros Hi Hm Hr Hp Hrp Hcan. pose proof (si_node _ _ _ Hi i m Hm) as Hn. pose proof (si_node _ _ _ Hi j p Hp) as Hnp.
  assert (Hij : i <> j) by (intros ->; congruence). destruct (no_id _ _ Hn) as (Hlen & _ & Hno). destruct (no_id _ _ Hnp) as (Hlenp & _ & _).
  unfold can_continue in Hcan. apply andb_prop in Hcan as [Hid Hcon].
  assert (Hask : psync_args (state_of m) = (replid_of m, offset_of m) \/ psync_args (state_of m) = (lit "?", -1))
    by (clear; unfold psync_args; match goal with |- context [if ?b then _ else _] => destruct b end; [by left|by right]).
  destruct Hask as [Hask|Hask]; rewrite Hask in *; cbn [fst snd] in *.
  2: { apply orb_prop in Hid as [E|E]; [|apply andb_prop in E as [E _]]; apply bool_decide_eq_true in E.
       - unfold replid_of in Hlenp. by rewrite <- E in Hlenp.
       - destruct (position_of_node G p Hnp) as [(h & _ & _ & _ & H2)|(_ & Q2 & _)]; [|by rewrite <- E in Q2].
         destruct H2 as (h2 & Hh2 & _); [by rewrite <- E|]. destruct (si_hist _ _ _ Hi _ _ Hh2) as (_ & _ & _ & (Hl & _) & _). by rewrite <- E in Hl. }
  split; [done|]. change (rs_replid (state_of m)) with (replid_of m) in *. change (rs_offset (state_of m)) with (offset_of m) in *.
  apply orb_prop in Hid as [E|E].
  - apply bool_decide_eq_true in E. change (rs_replid (state_of p)) with (replid_of p) in E.
    destruct (position_of_node G m Hn) as [(h & Hh & Hpos & _)|(Hq & _)].
    + exists h. rewrite <- E. done.
    + exfalso. apply Hij. eapply (si_own _ _ _ Hi i j m p); try done. by right.
  - apply andb_prop in E as [E Hso]. apply bool_decide_eq_true in E. apply Z.leb_le in Hso.
    destruct (position_of_node G p Hnp) as [(h & Hh & _ & _ & H2)|(_ & Q2 & _)]; [|congruence].
    destruct H2 as (h2 & Hh2 & Hag); [by rewrite <- E|]. rewrite <- E in Hh2.
    destruct (position_of_node G m Hn) as [(hm & Hhm & Hpos & _)|(Hq & _)].
    2: { change (rs_replid (state_of m)) with (replid_of m) in Hq. congruence. }
    change (rs_replid (state_of m)) with (replid_of m) in Hhm. assert (hm = h2) as -> by congruence.
    destruct (si_hist _ _ _ Hi _ _ Hh2) as (Hf & _). destruct (agree_position h2 h _ _ _ Hf Hag Hpos Hso) as [Hpos' Hag'].
    exists h. conj; [done|done|]. intros _. by exists h2.
Qed.

(** The history of a primary that serves a full resync. *)
Lemma grounded G K c j p :
  sys_inv G K c -> cf_members c !! j = Some p -> role_of p = RPrimary ->
  exists G' h, hist_le G G' /\ hist_ok (D := D) G' (cf_drawn c) /\ tracked G' (state_of p) (data_of p) /\
    (forall k m2, k <> j -> cf_members c !! k = Some m2 -> unmoved G G' m2) /\
    G' !! replid_of p = Some h /\ position h (offset_of p) (data_of p) /\ offset_of p = h_end h /\
    (is_Some (G !! replid_of p) -> pr_active (prim p) = true) /\
    (forall X h o v, G' !! X = Some h -> position h o v -> (exists h0, G !! X = Some h0 /\ position h0 o v) \/ offset_of p = o /\ data_of p = v).
Proof.
  intros Hi Hp Hr. pose proof (si_node _ _ _ Hi j p Hp) as Hn. destruct (no_primary _ _ Hn Hr) as (_ & _ & _ & Hact).
  destruct (position_of_node G p Hn) as [Ht|Hq].
  - pose proof Ht as (h & Hh & Hpos & _). exists G, h. destruct (Hact h Hh). conj; try done; [apply hist_le_refl|apply Hi|].
    intros X h' o v Hx Hpx. left. by exists h'.
  - destruct (reveal_hist G K c j p Hi Hp Hq) as (Hle & Hok & Ht & Hun). exists (revealed p G), (mkHistory (offset_of p) (data_of p) []).
    pose proof (position_base (effect (D := D) (V := V)) (mkHistory (offset_of p) (data_of p) [])). conj; try done.
    + apply lookup_insert_eq.
    + unfold h_end. cbn. lia.
    + intros [h' Hh']. by apply (Hact h').
    + intros X h' o v. apply reveal_position.
Qed.

Lemma enter_grow G sh sy r w a f q (pr : Primary) : prim_ok (D := D) G sh sy pr -> wires_grow pr (enter r w a f q pr).
Proof.
  intros Hp id w0 Hw. exists w0, []. rewrite app_nil_r. split; [|done]. cbn [enter pr_wires]. rewrite dict_get_set.
  case_decide as E; [|done]. destruct (po_bound _ _ _ _ Hp (pr_next_id pr)) as (_ & Hn & _); [done|]. congruence.
Qed.

Lemma inv_serve G K c j p host replid offset now records id node :
  sys_inv G K c -> cf_members c !! j = Some p -> role_of p = RPrimary -> rl_records records (data_of p) ->
  node_serve host replid offset now (mb_node p) = (Ok id, node) ->
  let can := can_continue replid offset (state_of p) in
  (can = true -> exists h v, G !! replid_of p = Some h /\ position h offset v) ->
  let sh := served (negb can) (if negb can then offset_of p else offset) (state_of p) in
  let p' := mkMember node (mb_session p) in
  let c1 := mkConfig (<[j := p']> (cf_members c)) (if can then cf_syncs c else dict_set (j, id) records (cf_syncs c)) (cf_drawn c) in
  in_range c1 ->
  exists G' w, sys_inv G' (<[(j, id) := sh]> K) c1 /\ hist_le G G' /\ wire_at c1 j id = Some w /\
    state_of p' = state_of p /\ data_of p' = data_of p /\ role_of p' = RPrimary /\
    (forall X h o v, G' !! X = Some h -> position h o v -> (exists h0, G !! X = Some h0 /\ position h0 o v) \/ offset_of p = o /\ data_of p = v).
Proof.
  intros Hi Hp Hr Hrec Hserve can Hcan sh p' c1 Hrange. pose proof (si_node _ _ _ Hi j p Hp) as Hn.
  destruct (no_primary _ _ Hn Hr) as (Ha & Hl & Hse & Hact). pose proof (si_prim _ _ _ Hi j p Hp) as Hpo.
  destruct (node_serve_ok host replid offset now (mb_node p) id node Ha (no_replication _ _ Hn) (no_id _ _ Hn) Hserve)
    as (Eid & d' & r & w & f & q & En & Hv & Hd & R1 & R2 & R3 & W1 & W2).
  change (can_continue replid offset (pr_state (nd_primary (mb_node p)))) with can in *.
  change (pr_offset (nd_primary (mb_node p))) with (offset_of p) in *. change (pr_state (nd_primary (mb_node p))) with (state_of p) in *. fold sh in W1.
  destruct (grounded G K c j p Hi Hp Hr) as (G' & h & Hle & Hok & Ht & Hun & Hh & Hpos & Hend & Hwas & Hpx).
  assert (Es : state_of p' = state_of p) by (unfold p', state_of; by rewrite En).
  assert (Ed : data_of p' = data_of p) by (unfold p', data_of; by rewrite En).
  assert (Er : role_of p' = RPrimary) by (unfold p', role_of; by rewrite En).
  assert (Eact : pr_active (prim p') = true).
  { unfold p'. rewrite En. cbn [mb_node set_world nd_primary enter pr_active]. destruct can eqn:Ec; [|done]. cbn [negb orb]. apply Hwas.
    destruct Hcan as (h0 & v0 & Hh0 & _); [done|by exists h0]. }
  assert (exists v, position h (sh_off sh) v /\ (sh_full sh = true -> rl_records records v)) as (v & Hv0 & Hrv).
  { cbn [sh served sh_off sh_full]. destruct can eqn:Ec; cbn [negb]; [|by exists (data_of p)].
    destruct Hcan as (h0 & v0 & Hh0 & Hp0); [done|]. exists v0. split; [|done]. destruct (Hle _ _ Hh0) as (h1 & Hh1 & Hx).
    assert (h1 = h) as -> by congruence. by eapply position_extends. }
  exists G', w. conj; try done.
  - eapply (inv_put G K c j p p' G'); try done.
    + intros k s0 Hk. exists s0. split; [|by left]. rewrite lookup_insert_ne; [done|]. intros <-.
      destruct (po_bound _ _ _ _ Hpo id) as (Hb & _); [by rewrite Eid|]. congruence.
    + split; try done; [unfold p'; by rewrite En|unfold replid_of; rewrite Es; apply Hn|left; by rewrite Es, Ed|..].
      * intros _. conj; [unfold p'; by rewrite En|unfold p'; by rewrite En|done|]. intros h'. unfold replid_of, offset_of. rewrite Es.
        change (rs_replid (state_of p)) with (replid_of p). rewrite Hh. by intros [= <-].
      * congruence.
    + unfold p'. rewrite En. cbn [mb_node set_world nd_primary].
      eapply prim_ok_ext; [| |eapply (enter_ok G' _ _ (prim p) sh h v r w records); try done; [by eapply prim_ok_le|apply Hn]].
      * intros i'. unfold upd. case_decide as E; [rewrite E, <- Eid; apply lookup_insert_eq|]. rewrite lookup_insert_ne; [done|]. intros [= ?]. congruence.
      * intros i'. cbn [sh served sh_full]. destruct can; [done|]. cbn [negb]. unfold upd. rewrite dict_get_set, <- Eid.
        do 2 case_decide; try done; congruence.
    + intros k i' Hk. rewrite lookup_insert_ne by congruence. split; [done|]. destruct can; [done|]. by rewrite dict_get_set, decide_False by congruence.
    + unfold p'. rewrite En. cbn [mb_node set_world nd_primary]. by eapply enter_grow.
    + intros k m2 Hk Hm2 E [[_ Hr2]|Hnone].
      * apply Hk. symmetry. eapply (si_own _ _ _ Hi j k p m2); try done; [unfold replid_of in *; by rewrite <- Es|by left].
      * unfold replid_of in Hnone. rewrite Es in Hnone. change (rs_replid (state_of p)) with (replid_of p) in Hnone. congruence.
    + unfold replid_of. rewrite Es. by apply (si_drawn _ _ _ Hi j).
    + unfold session_ok. cbn [mb_session p']. rewrite Hse. left. unfold phase_of, p'. rewrite En. cbn [mb_node set_world nd_link]. by rewrite Hl.
    + destruct can; [apply Hi|]. apply dict_set_wf, Hi.
  - unfold wire_at. cbn [c1 cf_members]. rewrite list_lookup_insert_eq by (by eapply lookup_lt_Some). unfold p'. rewrite En, Eid.
    cbn [mb_node set_world nd_primary enter pr_wires]. by rewrite dict_get_set, decide_True.
Qed.

Lemma in_range_session (l : list (Member (D := D))) i m s sy sy' dr dr' :
  l !! i = Some m -> in_range (mkConfig (<[i := mkMember (mb_node m) s]> l) sy dr) -> in_range (mkConfig l sy' dr').
Proof.
  intros Hm Hr. unfold in_range in *. cbn [cf_members] in *. rewrite Forall_lookup in *. intros k x Hk.
  destruct (decide (k = i)) as [->|Hne].
  - assert (x = m) as -> by congruence. apply (Hr i (mkMember (mb_node m) s)). apply list_lookup_insert_eq. by eapply lookup_lt_Some.
  - apply (Hr k x). by rewrite list_lookup_insert_ne.
Qed.

Lemma adv_serve G K c i m s j p host now records id node :
  sys_inv G K c -> cf_members c !! i = Some m -> mb_session m = Some s -> phase_of m = Some PLine -> ss_conn s = None ->
  ss_peer s = j -> cf_members c !! j = Some p -> role_of p = RPrimary -> rl_records records (data_of p) ->
  node_serve host (ss_request s).1 (ss_request s).2 now (mb_node p) = (Ok id, node) ->
  let c' := mkConfig (<[i := mkMember (mb_node m) (Some (mkSession j (Some id) (ss_request s) 0))]>
                   (<[j := mkMember node (mb_session p)]> (cf_members c)))
         (if can_continue (ss_request s).1 (ss_request s).2 (state_of p) then cf_syncs c
          else dict_set (j, id) records (cf_syncs c))
         (cf_drawn c) in
  in_range c' -> advances G c c'.
Proof.
  intros Hi Hm Hs Hph Hconn <- Hp Hrp Hrec Hserve c' Hrange. pose proof (si_session _ _ _ Hi i m Hm) as Hses. unfold session_ok in Hses.
  rewrite Hs, Hph, Hconn in Hses. destruct Hses as (Hr & ph & [= <-] & Hreq). set (j := ss_peer s) in *.
  assert (Hij : j <> i) by (intros E; rewrite E in Hp; congruence).
  pose proof (continue_ok G K c i m j p Hi Hm Hr Hp Hrp) as Hcont. rewrite <- Hreq in Hcont. set (can := can_continue _ _ _) in *.
  set (p' := mkMember node (mb_session p)) in *. set (m' := mkMember (mb_node m) _) in *.
  assert (Hm1 : <[j := p']> (cf_members c) !! i = Some m) by (by rewrite list_lookup_insert_ne).
  assert (Hp1 : <[j := p']> (cf_members c) !! j = Some p') by (apply list_lookup_insert_eq; by eapply lookup_lt_Some).
  edestruct (inv_serve G K c j p host _ _ now records id node Hi Hp Hrp Hrec Hserve) as (G' & w & Hi1 & Hle & Hw & Es & Ed & Er & Hpx).
  { intros Ec. destruct (Hcont Ec) as (-> & h & Hh & Hpos & _). by exists h, (data_of m). }
  { eapply in_range_session; [exact Hm1|exact Hrange]. }
  fold can p' in Hi1, Hw. set (c1 := mkConfig (<[j := p']> (cf_members c)) _ _) in *. set (K1 := <[(j, id) := _]> K) in *.
  assert (Hc1 : cf_members c1 !! i = Some m) by exact Hm1.
  exists G', K1. split.
  - apply (inv_put G' K1 c1 i m m' G' K1); try done; [apply hist_le_refl|apply Hi1|apply shapes_le_refl| |exact (si_prim _ _ _ Hi1 i m Hc1)|apply wires_refl| |exact (si_drawn _ _ _ Hi1 i m Hc1)| |apply Hi1].
    + pose proof (si_node _ _ _ Hi1 i m Hc1) as Hn1. apply (node_ok_same G' m m'); try done; [apply Hn1|congruence].
    + intros k m2 Hk Hm2 E Hor. apply Hk. symmetry. by eapply (si_own _ _ _ Hi1 i k m m2).
    + unfold session_ok. cbn [mb_session m']. split; [done|]. exists PLine. split; [exact Hph|]. cbn [ss_conn ss_peer].
      exists (served (negb can) (if negb can then offset_of p else (ss_request s).2) (state_of p)), w. conj.
      * apply lookup_insert_eq.
      * unfold wire_at in *. cbn [cf_members] in *. by rewrite list_lookup_insert_ne.
      * cbn [receiving ss_read served sh_full sh_off sh_id]. split; [done|]. intros Hnf. destruct can; [|done]. cbn [negb].
        destruct (Hcont eq_refl) as (Eo & h & Hh & Hpos & Hag). split; [done|]. destruct (Hle _ _ Hh) as (h' & Hh' & Hx).
        exists h'. conj; [done|by eapply position_extends|]. intros Hne. destruct (Hag Hne) as (hr & Hhr & Ha).
        destruct (Hle _ _ Hhr) as (hr' & Hhr' & Hxr). exists hr'. split; [done|by eapply agree_le].
  - split.
    + intros X h o v Hx Hpos. destruct (Hpx X h o v Hx Hpos) as [(h0 & Hh0 & Hp0)|[Ho Hv]]; [left; by exists X, h0|]. right. exists j, p'.
      conj; [|exact Er|exact (eq_trans (f_equal rs_offset Es) Ho)|exact (eq_trans Ed Hv)]. change (<[i := m']> (<[j := p']> (cf_members c)) !! j = Some p').
      by rewrite list_lookup_insert_ne.
    + intros k m2 Hk Hrk _. change (<[i := m']> (<[j := p']> (cf_members c)) !! k = Some m2) in Hk.
      apply list_lookup_insert_Some in Hk as [(<- & <- & _)|[_ Hk]]; [by exists m|].
      apply list_lookup_insert_Some in Hk as [(_ & Em & _)|[_ Hk]]; [|by exists m2]. rewrite <- Em in Hrk. discriminate (eq_trans (eq_sym Hrk) Er).
Qed.

(** ** The snapshot is sent *)
Lemma adv_sync G K c j p (p1 : Primary) K' syncs' :
  sys_inv G K c -> cf_members c !! j = Some p -> shapes_le K K' ->
  prim_ok (D := D) G (fun i => K' !! (j, i)) (fun i => dict_get (j, i) syncs') p1 -> evolves (prim p) p1 ->
  (forall k i, k <> j -> K' !! (k, i) = K !! (k, i) /\ dict_get (k, i) syncs' = dict_get (k, i) (cf_syncs c)) -> dict_wf syncs' ->
  let p' := mkMember (set_world (world p) p1 (mb_node p)) (mb_session p) in
  let c' := mkConfig (<[j := p']> (cf_members c)) syncs' (cf_drawn c) in
  in_range c' -> advances G c c'.
Proof.
  intros Hi Hp HK Hpo (E1 & E2 & _ & E4 & Hg) Hoth Hwf p' c' Hrange. pose proof (si_node _ _ _ Hi j p Hp) as Hn.
  assert (Es : state_of p' = state_of p) by exact E1. assert (Eid : replid_of p' = replid_of p) by (unfold replid_of; by rewrite Es).
  exists G, K'. split.
  2: { apply moments_put. intros _ _. exists p. conj; [done|exact (f_equal rs_offset Es)|done]. }
  apply (inv_put G K c j p p' G K'); try done; [apply hist_le_refl|apply Hi| | | |].
  - apply (node_ok_same G p p'); try done; [apply Hn|]. intros Hr. by destruct (no_primary _ _ Hn Hr) as (_ & _ & ? & _).
  - intros k m2 Hk Hm2 E Hor. apply Hk. symmetry. eapply (si_own _ _ _ Hi j k p m2); try done; [congruence|by rewrite Eid in Hor].
  - rewrite Eid. by eapply si_drawn.
  - apply (session_ok_same G K' c' p p'); try done. eapply session_ok_le; [apply hist_le_refl|exact HK| |by eapply si_session].
    exact (wire_at_put c j p p' Hp Hg).
Qed.

Lemma pop_syncs c j id :
  dict_wf (cf_syncs c) ->
  (forall i, dict_get (j, i) (dict_pop (j, id) (cf_syncs c)) = upd (fun i => dict_get (j, i) (cf_syncs c)) id None i) /\
  (forall k i, k <> j -> dict_get (k, i) (dict_pop (j, id) (cf_syncs c)) = dict_get (k, i) (cf_syncs c)).
Proof.
  intros Hwf. split; [intros i|intros k i Hk]; rewrite dict_get_pop by done.
  - unfold upd. do 2 case_decide; try done; congruence.
  - by rewrite decide_False by congruence.
Qed.

Lemma adv_snapshot G K c j p id records created_at node r :
  sys_inv G K c -> cf_members c !! j = Some p -> dict_get (j, id) (cf_syncs c) = Some records ->
  on_primary _ (serve_snapshot id records created_at) (mb_node p) = (r, node) ->
  let c' := mkConfig (<[j := upd_primary (match r with Ok _ => fun x => x | Raise _ => serve_end id end)
                          (mkMember node (mb_session p))]> (cf_members c))
         (dict_pop (j, id) (cf_syncs c)) (cf_drawn c) in
  in_range c' -> advances G c c'.
Proof.
  intros Hi Hp Hsync. pose proof (si_prim _ _ _ Hi j p Hp) as Hpo. destruct (pop_syncs c j id (si_syncs _ _ _ Hi)) as [Hpop Hoth].
  unfold on_primary, serve_snapshot, bindM, lift, modifyM. destruct (encode_snapshot records created_at) as [payload|x] eqn:Henc; intros [= <- <-]; cbv zeta; intros Hrange.
  - destruct (write_snapshot_ok G _ _ (prim p) id records created_at payload Hpo Hsync Henc) as (sh' & Hpo' & Hev & Hsh).
    destruct (Hsh id) as [Esame|(_ & sh & Hk & Hfull & Hpay & Enew)].
    + apply (adv_sync G K c j p (write_snapshot payload id (prim p)) K (dict_pop (j, id) (cf_syncs c)) Hi Hp (shapes_le_refl K)); [|done|auto|apply dict_pop_wf, Hi|exact Hrange].
      eapply prim_ok_ext; [| |exact Hpo']; [|apply Hpop]. intros i. destruct (Hsh i) as [->|(-> & _)]; [done|by rewrite Esame].
    + apply (adv_sync G K c j p (write_snapshot payload id (prim p)) (<[(j, id) := with_payload payload sh]> K) (dict_pop (j, id) (cf_syncs c)) Hi Hp); [|  |done| |apply dict_pop_wf, Hi|exact Hrange].
      * intros k s Hs. destruct (decide (k = (j, id))) as [->|Hne].
        -- rewrite lookup_insert_eq. eexists. split; [done|]. right. assert (s = sh) as -> by congruence. eauto.
        -- rewrite lookup_insert_ne by done. exists s. split; [done|by left].
      * eapply prim_ok_ext; [| |exact Hpo']; [|apply Hpop]. intros i. destruct (decide (i = id)) as [->|Hne].
        -- by rewrite lookup_insert_eq, Enew.
        -- rewrite lookup_insert_ne by congruence. by destruct (Hsh i) as [->|(-> & _)].
      * intros k i Hne. rewrite lookup_insert_ne by congruence. auto.
  - apply (adv_sync G K c j p (drop_replica id (prim p)) K (dict_pop (j, id) (cf_syncs c)) Hi Hp (shapes_le_refl K)); [|by apply (drop_ok G _ _ id _ Hpo)|auto|apply dict_pop_wf, Hi|exact Hrange].
    eapply prim_ok_ext; [| |exact (drop_sync_ok G _ _ _ id Hpo)]; [done|apply Hpop].
Qed.

(** ** A node restarts *)
Definition keep (i : nat) (e : (nat * nat) * list SnapshotRecord) : bool := negb (bool_decide (e.1.1 = i)).

Lemma syncs_keep i (l : list ((nat * nat) * list SnapshotRecord)) k id :
  dict_get (k, id) (List.filter (keep i) l) = if decide (k = i) then None else dict_get (k, id) l.
Proof.
  induction l as [|[[a b] r] l IH]; cbn [List.filter dict_get]; [by case_decide|]. unfold keep at 1. cbn [fst].
  case_bool_decide as E; cbn [negb dict_get]; rewrite IH; repeat case_decide; congruence.
Qed.

Lemma keep_wf i (l : list ((nat * nat) * list SnapshotRecord)) : dict_wf l -> dict_wf (List.filter (keep i) l).
Proof.
  unfold dict_wf. induction l as [|e l IH]; [done|]. cbn [List.filter fmap list_fmap]. intros [Hn Hd]%NoDup_cons. destruct (keep i e); [|by apply IH].
  cbn [fmap list_fmap]. apply NoDup_cons. split; [|by apply IH]. intros Hin. apply Hn. apply list_elem_of_fmap in Hin as (x & -> & Hx).
  apply list_elem_of_fmap. exists x. split; [done|]. apply list_elem_of_In, filter_In in Hx as [Hx _]. by apply list_elem_of_In.
Qed.

Definition forget (i : nat) K : Shapes := filter (fun kv => kv.1.1 <> i) K.

Lemma forget_other i K k id : k <> i -> forget i K !! (k, id) = K !! (k, id).
Proof.
  intros Hne. unfold forget. destruct (K !! (k, id)) as [sh|] eqn:E.
  - by apply map_lookup_filter_Some_2.
  - by apply map_lookup_filter_None_2; left.
Qed.

Lemma forget_own i K id : forget i K !! (i, id) = None.
Proof. apply map_lookup_filter_None_2. right. intros x _ Hx. by apply Hx. Qed.

Lemma reset_peer_same i m :
  state_of (reset_peer i m) = state_of m /\ data_of (reset_peer i m) = data_of m /\ role_of (reset_peer i m) = role_of m /\
  prim (reset_peer i m) = prim m.
Proof. unfold reset_peer. destruct (mb_session m) as [s|]; [|done]. by case_bool_decide. Qed.

Lemma reset_peer_ok G i m : node_ok G m -> node_ok G (reset_peer i m).
Proof.
  intros Hn. unfold reset_peer. destruct (mb_session m) as [s|] eqn:Es; [|done]. case_bool_decide; [|done].
  apply (node_ok_same G m); try done; [apply Hn|]. cbn. by destruct (nd_link (mb_node m)).
Qed.

Lemma new_node_quiet d dir port settings metrics fresh (node : Node (D := D)) :
  new_node d dir port settings metrics fresh = Ok node ->
  nd_world node = d /\ nd_role node = RPrimary /\ nd_attached node = true /\ nd_link node = None /\
  exists b, nd_primary node = new_primary (new_state b fresh) /\ 0 < capacity b /\ bl_buf b = [] /\ bl_start b = 0 /\ bl_end b = 0.
Proof.
  unfold new_node, new_backlog. destruct (Z.leb_spec (backlog_bytes settings) 0) as [|Hc]; [done|].
  destruct (load_epoch _); [|done]. intros [= <-]. conj; try done. by eexists.
Qed.

Lemma new_node_ok G d dir port settings metrics fresh (node : Node (D := D)) :
  new_node d dir port settings metrics fresh = Ok node -> ne_replication d = None -> replid_ok fresh -> G !! fresh = None ->
  node_ok G (mkMember node None) /\ replid_of (mkMember node None) = fresh /\ role_of (mkMember node None) = RPrimary /\
  (forall sh sy, (forall id, sh id = None) -> (forall id, sy id = None) -> prim_ok (D := D) G sh sy (nd_primary node)).
Proof.
  intros Hnew Hd Hid Hg. destruct (new_node_quiet _ _ _ _ _ _ _ Hnew) as (W & R & A & L & b & Ep & B).
  assert (Ei : replid_of (mkMember node None) = fresh) by (unfold replid_of, state_of; cbn [mb_node]; by rewrite Ep).
  conj; try done.
  - split; cbn [mb_node mb_session]; try done; [congruence|by rewrite Ei|right|..].
    + unfold state_of. cbn [mb_node]. rewrite Ep. unfold quiet. cbn. conj; try done; apply B.
    + intros _. conj; try done. rewrite Ei. congruence.
    + unfold role_of. cbn [mb_node]. congruence.
  - intros sh sy Hsh Hsy. rewrite Ep. split; [constructor|done|done|]. intros id _. conj; [apply Hsh|done|done|apply Hsy].
Qed.

Lemma restart_lookup c i m' k x :
  (i < length (cf_members c))%nat -> <[i := m']> (reset_peer i <$> cf_members c) !! k = Some x ->
  (k = i /\ x = m') \/ (k <> i /\ exists m, cf_members c !! k = Some m /\ x = reset_peer i m).
Proof.
  intros Hlt Hk. apply list_lookup_insert_Some in Hk as [(-> & -> & _)|[Hne Hk]]; [by left|right]. split; [done|].
  apply list_lookup_fmap_Some in Hk as (m & -> & Hm). by exists m.
Qed.

(** A session that does not lead to the restarted node goes on. *)
Lemma restart_session G K c i k m m' syncs drawn :
  k <> i -> cf_members c !! k = Some m -> session_ok G K c m -> node_ok G m ->
  session_ok G (forget i K) (mkConfig (<[i := m']> (reset_peer i <$> cf_members c)) syncs drawn) (reset_peer i m).
Proof.
  intros Hne Hm Hs Hn. set (c' := mkConfig _ _ _). unfold reset_peer. destruct (mb_session m) as [s|] eqn:Es; [|unfold session_ok in *; by rewrite Es in *].
  case_bool_decide as Ep.
  - unfold session_ok. cbn. unfold phase_of. cbn. destruct (nd_link (mb_node m)); [by right|by left].
  - unfold session_ok in *. rewrite Es in *. destruct Hs as (Hr & ph & Hph & Hc). split; [done|]. exists ph. split; [done|].
    destruct (ss_conn s) as [id|]; [|done]. destruct Hc as (sh & w & Hsh & Hw & Hrec). exists sh, w. conj; [by rewrite forget_other| |done].
    unfold wire_at in *. cbn [c' cf_members]. rewrite list_lookup_insert_ne, list_lookup_fmap by done.
    destruct (cf_members c !! ss_peer s) as [p|]; [|done]. cbn [fmap option_fmap option_map].
    by destruct (reset_peer_same i p) as (_ & _ & _ & ->).
Qed.

Lemma adv_restart G K c i m d dir port settings metrics fresh node :
  sys_inv G K c -> cf_members c !! i = Some m -> replid_ok fresh -> fresh ∉ cf_drawn c -> ne_replication d = None ->
  new_node d dir port settings metrics fresh = Ok node ->
  let c' := mkConfig (<[i := mkMember node None]> (reset_peer i <$> cf_members c)) (List.filter (keep i) (cf_syncs c)) (fresh :: cf_drawn c) in
  in_range c' -> advances G c c'.
Proof.
  intros Hi Hm Hfresh Hnew Hd Hnode c' Hrange. assert (Hlt : (i < length (cf_members c))%nat) by (by eapply lookup_lt_Some).
  assert (Hg : G !! fresh = None).
  { destruct (G !! fresh) as [h|] eqn:E; [|done]. by destruct (si_hist _ _ _ Hi _ _ E) as (_ & _ & ? & _). }
  destruct (new_node_ok G d dir port settings metrics fresh node Hnode Hd Hfresh Hg) as (Hno & Eid & Er & Hpr).
  pose proof (fun k x => restart_lookup c i (mkMember node None) k x Hlt) as Hget.
  assert (Hnf : forall k x, cf_members c !! k = Some x -> replid_of x <> fresh) by (intros k x Hk <-; by apply Hnew, (si_drawn _ _ _ Hi k)).
  exists G, (forget i K). split.
  - split; cbn [c' cf_members cf_syncs cf_drawn]; [apply hist_ok_drawn, Hi|..| |exact Hrange|apply keep_wf, Hi].
    + intros k x Hk. destruct (Hget k x Hk) as [[-> ->]|(Hne & x0 & Hx & ->)]; [done|]. apply reset_peer_ok. by apply (si_node _ _ _ Hi k).
    + intros k x Hk. destruct (Hget k x Hk) as [[-> ->]|(Hne & x0 & Hx & ->)]; [rewrite Eid; by left|]. right.
      unfold replid_of. destruct (reset_peer_same i x0) as (-> & _). by apply (si_drawn _ _ _ Hi k).
    + intros k x Hk. destruct (Hget k x Hk) as [[-> ->]|(Hne & x0 & Hx & ->)].
      * apply Hpr; [apply forget_own|]. intros id. by rewrite syncs_keep, decide_True.
      * destruct (reset_peer_same i x0) as (_ & _ & _ & ->). eapply prim_ok_ext; [| |by apply (si_prim _ _ _ Hi k)]; intros id; [by apply forget_other|].
        by rewrite syncs_keep, decide_False.
    + intros k1 k2 x1 x2 H1' H2'. destruct (Hget k1 x1 H1') as [[-> ->]|(Hne1 & y1 & Hy1 & ->)], (Hget k2 x2 H2') as [[-> ->]|(Hne2 & y2 & Hy2 & ->)]; unfold replid_of in *;
        repeat match goal with |- context [reset_peer i ?y] => destruct (reset_peer_same i y) as (-> & _ & -> & _) end; try done.
      * intros E. exfalso. apply (Hnf k2 y2 Hy2). unfold replid_of. congruence.
      * intros E. exfalso. apply (Hnf k1 y1 Hy1). unfold replid_of. congruence.
      * apply (si_own _ _ _ Hi k1 k2 y1 y2 Hy1 Hy2).
    + intros k x Hk. destruct (Hget k x Hk) as [[-> ->]|(Hne & x0 & Hx & ->)].
      * destruct (no_primary _ _ Hno Er) as (_ & Hl & Hse & _). unfold session_ok. cbn [mb_session]. left. unfold phase_of. by rewrite Hl.
      * apply (restart_session G K c i k x0); try done; [by apply (si_session _ _ _ Hi k)|by apply (si_node _ _ _ Hi k)].
  - split; [intros X h o v Hx Hp; left; by exists X, h|]. intros k x Hk Hr _. destruct (Hget k x Hk) as [[-> ->]|(Hne & x0 & Hx & ->)]; [congruence|].
    exists x0. destruct (reset_peer_same i x0) as (E1 & E2 & _). conj; [done|unfold offset_of; by rewrite E1|done].
Qed.

(** ** Every step *)
Theorem step_advances address G K c c' : sys_inv G K c -> sys_step address c c' -> in_range c' -> advances G c c'.
Proof.
  intros Hi Hstep Hrange. destruct Hstep.
  - eapply adv_effect; eassumption.
  - eapply adv_primary; try eassumption; [by eapply si_prim|reflexivity].
  - eapply adv_upd; try eassumption. apply flush_ok; [by eapply si_prim|by eapply stream_ready].
  - eapply adv_ping; eassumption.
  - eapply adv_wait; eassumption.
  - eapply adv_promote; eassumption.
  - eapply adv_demote; eassumption.
  - eapply adv_connect; eassumption.
  - eapply adv_ask; eassumption.
  - eapply adv_serve; eassumption.
  - eapply adv_snapshot; eassumption.
  - eapply adv_upd; try eassumption. apply online_ok; [by eapply si_prim|by eapply stream_ready|done].
  - eapply (adv_upd G K c j p (fun x => (serve_data id data now x).2)); try eassumption. apply serve_data_ok. by eapply si_prim.
  - eapply adv_upd; try eassumption. apply drop_ok. by eapply si_prim.
  - eapply adv_upd; try eassumption. apply on_wire_same_ok; [done|]. by eapply si_prim.
  - destruct (phase_of m) as [[]|] eqn:Hph; try done; subst act; [eapply adv_psync|eapply adv_header]; eassumption.
  - eapply adv_payload; eassumption.
  - eapply adv_stream; eassumption.
  - eapply adv_ack; eassumption.
  - eapply adv_lost; eassumption.
  - assert (E : List.filter (fun '(j, _, _) => negb (bool_decide (j = i))) (cf_syncs c) = List.filter (keep i) (cf_syncs c))
      by (apply filter_ext; by intros [[]]). rewrite E in *. eapply adv_restart; eassumption.
Qed.
End Serve.
