(* ===== verification/ReplSpec.v ===== *)
(** * What replication guarantees

    In every run of nodes that replicate each other, whatever connections are
    lost, nodes promoted, demoted or restarted: a node's data is what some
    primary had at that offset, nodes at the same place of the same history hold
    the same data, and a replica that reads what its primary sent has its
    primary's data. *)

From Stdlib Require Import String.
From S2P Require Import Prelude PyStr PyFloat Codec Errors Store Snapshot Registry Resp RespProofs Engine.
From S2P Require Import ReplStream Primary ReplicaLink Metrics Migration ShardNode ReplSystem ReplLinkProofs.
From S2P Require Import ReplWires ReplInv ReplLinkSteps ReplServe.
Local Close Scope string_scope.

Section Spec.
Context {D V : Type} `{NodeEngine D} `{ReplicaEngine D} `{!ReplicaLaws D V}.
Abbreviation Hist := (gmap pystr (History (V := V))).
Abbreviation Shapes := (gmap (nat * nat) Shape).
Abbreviation position := (position (effect (D := D) (V := V))).
Abbreviation prim m := (nd_primary (mb_node m)).
Abbreviation world m := (nd_world (mb_node m)).
Implicit Types (G : Hist) (K : Shapes) (c : Config (D := D)) (m p : Member (D := D)) (h : History (V := V)) (n : Node (D := D)).

(** ** The runs *)
Lemma started_inv c : started c -> in_range c /\ sys_inv (V := V) ∅ ∅ c.
Proof.
  intros (Hsy & Hdr & Hnd & Hok & Hall). rewrite Forall_lookup in Hall.
  assert (Hnew : forall i m, cf_members c !! i = Some m -> node_ok (∅ : Hist) m /\ role_of m = RPrimary /\ offset_of m = 0 /\
    pr_wires (prim m) = [] /\ replid_of m ∈ cf_drawn c /\
    (forall sh sy, (forall id, sh id = None) -> (forall id, sy id = None) -> prim_ok (D := D) (∅ : Hist) sh sy (prim m))).
  { intros i m Hm. destruct (Hall i m Hm) as (d & dir & port & settings & metrics & fresh & Hn & Hd & Hs).
    assert (Em : m = mkMember (mb_node m) None) by (destruct m; cbn in *; by subst).
    destruct (new_node_quiet _ _ _ _ _ _ _ Hn) as (_ & _ & _ & _ & b & Ep & _ & _ & _ & Be).
    assert (Hin : replid_of m ∈ cf_drawn c) by (rewrite Hdr; apply list_elem_of_fmap; exists m; split; [done|by eapply list_elem_of_lookup_2]).
    assert (Ef : replid_of m = fresh) by (unfold replid_of, state_of; by rewrite Ep).
    assert (Hfr : replid_ok fresh) by (rewrite Forall_forall in Hok; apply Hok; by rewrite <- Ef).
    destruct (new_node_ok (∅ : Hist) _ _ _ _ _ _ _ Hn Hd Hfr (lookup_empty _)) as (N1 & _ & N3 & N4). rewrite <- Em in N1, N3.
    unfold offset_of, state_of. rewrite Ep. conj; try done. by rewrite <- Ep. }
  split; [|split; try done].
  - unfold in_range. rewrite Forall_lookup. intros i m Hm. destruct (Hnew i m Hm) as (_ & _ & -> & -> & _). split; [lia|constructor].
  - intros i m Hm. by apply (Hnew i).
  - intros i m Hm. by apply (Hnew i).
  - intros i m Hm. apply (Hnew i m Hm); intros id; [apply lookup_empty|by rewrite Hsy].
  - intros i j m m' Hm Hm' E _. eapply (NoDup_lookup (cf_drawn c)); [done|rewrite Hdr, list_lookup_fmap, Hm; done|].
    rewrite Hdr, list_lookup_fmap, Hm'. cbn. by rewrite E.
  - intros i m Hm. destruct (Hnew i m Hm) as (N & R & _). destruct (no_primary _ _ N R) as (_ & L & S & _).
    unfold session_ok. rewrite S. left. unfold phase_of. by rewrite L.
  - unfold in_range. rewrite Forall_lookup. intros i m Hm. destruct (Hnew i m Hm) as (_ & _ & -> & -> & _). split; [lia|constructor].
  - rewrite Hsy. constructor.
Qed.

Definition seen (run : list (Config (D := D))) (o : Z) (v : V) : Prop := exists c, c ∈ run /\ primary_at c o v.

Lemma seen_more c run o v : seen run o v -> seen (c :: run) o v.
Proof. intros (c0 & Hc & Hp). exists c0. split; [by right|done]. Qed.

Lemma run_inv address run : sys_run address run ->
  exists c past G K, run = c :: past /\ sys_inv G K c /\
    (forall X h o v, G !! X = Some h -> position h o v -> seen run o v) /\
    (forall i m, cf_members c !! i = Some m -> seen run (offset_of m) (data_of m)).
Proof.
  induction 1 as [c Hst|c c' past Hrun (c0 & past0 & G & K & [= <- <-] & Hi & Hpos & Hmem) Hstep Hrange].
  - destruct (started_inv c Hst) as [_ Hi]. exists c, [], ∅, ∅. conj; try done. intros i m Hm. exists c. split; [by left|].
    exists i, m. destruct Hst as (_ & _ & _ & _ & Hall). rewrite Forall_lookup in Hall.
    destruct (Hall i m Hm) as (d & dir & port & settings & metrics & fresh & Hn & _). conj; try done. by destruct (new_node_quiet _ _ _ _ _ _ _ Hn) as (_ & R & _).
  - destruct (step_advances address G K c c' Hi Hstep Hrange) as (G' & K' & Hi' & Hm1 & Hm2). exists c', (c :: past), G', K'. conj; try done.
    + intros X h o v Hx Hp. destruct (Hm1 X h o v Hx Hp) as [(X0 & h0 & Hx0 & Hp0)|Hpa]; [apply seen_more; by eapply Hpos|].
      exists c'. split; [by left|done].
    + intros i m Hm. destruct (role_of m) eqn:Hr; [exists c'; split; [by left|]; by exists i, m|].
      destruct (position_of_node G' m (si_node _ _ _ Hi' i m Hm)) as [(h & Hh & Hp & _)|(Hq & _)].
      * destruct (Hm1 _ h _ _ Hh Hp) as [(X0 & h0 & Hx0 & Hp0)|Hpa]; [apply seen_more; by eapply Hpos|]. exists c'. split; [by left|done].
      * destruct (Hm2 i m Hm Hr Hq) as (m0 & Hm0 & -> & ->). apply seen_more. by eapply Hmem.
Qed.

Lemma same_place G K c i j m m' :
  sys_inv G K c -> cf_members c !! i = Some m -> cf_members c !! j = Some m' ->
  replid_of m = replid_of m' -> offset_of m = offset_of m' -> data_of m = data_of m'.
Proof.
  intros Hi Hm Hm' Er Eo. destruct (position_of_node G m (si_node _ _ _ Hi i m Hm)) as [(h & Hh & Hp & _)|(Hq & _)].
  - destruct (position_of_node G m' (si_node _ _ _ Hi j m' Hm')) as [(h' & Hh' & Hp' & _)|(Hq & _)]; unfold replid_of, offset_of in *; [|congruence].
    assert (h' = h) as -> by congruence. rewrite <- Eo in Hp'. eapply position_unique; [|exact Hp|exact Hp']. by destruct (si_hist _ _ _ Hi _ _ Hh).
  - assert (i = j) as <- by (eapply (si_own _ _ _ Hi i j m m'); try done; by right). congruence.
Qed.


(** ** Catching up *)

(** A replica that has read all its primary wrote, when that is all there is,
    is where its primary is. *)
Lemma caught_up G K c i m s buf j p id r :
  sys_inv G K c -> cf_members c !! i = Some m -> mb_session m = Some s -> phase_of m = Some (PStream buf) ->
  ss_peer s = j -> ss_conn s = Some id -> cf_members c !! j = Some p -> dict_get id (pr_replicas (prim p)) = Some r ->
  cr_sent r = offset_of p -> unread_of c s = [] ->
  replid_of m = replid_of p /\ offset_of m = offset_of p /\ data_of m = data_of p.
Proof.
  intros Hi Hm Hs Hph Hpeer Hconn Hp Hr Hsent Hun. pose proof (si_node _ _ _ Hi i m Hm) as Hn. pose proof (si_node _ _ _ Hi j p Hp) as Hnp.
  destruct (session_wire G K c i m s _ Hi Hm Hs Hph I) as (id' & sh & w & Hid & Hsh & Hw & Hrec & (h & seg & Hh & _ & Hout' & Hseg & _) & _ & Hu).
  assert (id' = id) as -> by congruence. rewrite Hpeer in *. destruct Hrec as (Hrdy & Hrid & Hinc & consumed & rest & Hout & Hread & Hoff).
  destruct (po_replicas _ _ _ _ (si_prim _ _ _ Hi j p Hp) id r Hr) as (sh' & w' & seg' & Hsh' & Hw' & _ & Hid' & _ & Ho' & Hse' & _).
  assert (sh' = sh) as -> by congruence. unfold wire_at in Hw. rewrite Hp in Hw. assert (w' = w) as -> by congruence.
  assert (rest = []) as ->.
  { rewrite <- Hun, Hu, Hread, Hout. replace (head_of sh ++ consumed ++ buf ++ rest) with ((head_of sh ++ consumed ++ buf) ++ rest) by (by rewrite <- !app_assoc).
    by rewrite drop_app_length. }
  rewrite app_nil_r in Hout. rewrite Hout in Hout', Ho'. apply app_inv_head in Hout', Ho'. subst seg seg'.
  assert (Eid : replid_of m = replid_of p) by (rewrite <- Hrid; exact Hid').
  assert (Hrole : role_of p = RPrimary).
  { destruct (role_of p) eqn:E; [done|]. destruct (no_replica _ _ Hnp E) as (_ & _ & E0). by rewrite E0 in Hr. }
  rewrite Hrid in Hh. destruct (no_primary _ _ Hnp Hrole) as (_ & _ & _ & Hend). rewrite <- Eid in Hend. destruct (Hend h Hh) as [_ Hend'].
  assert (buf = []) as ->.
  { destruct (position_of_node G m Hn) as [(h' & Hh' & Hpos & _)|(Hq & _)].
    2: { change (rs_replid (state_of m)) with (replid_of m) in Hq. congruence. }
    change (rs_replid (state_of m)) with (replid_of m) in Hh'. assert (h' = h) as -> by congruence. destruct (si_hist _ _ _ Hi _ _ Hh) as (F1 & _).
    apply segment_app in Hseg as [_ Hseg]. rewrite <- Hoff in Hseg. destruct Hpos as (l1 & l2 & El & Eo & _). destruct Hseg as (pre & post & Es & Eo').
    change (rs_offset (state_of m)) with (offset_of m) in Eo. rewrite El, raws_app in Es. apply app_inj_1 in Es as [_ Es]; [|lia].
    assert (post = []) as ->.
    { apply length_zero_iff_nil. unfold h_end in Hend'. rewrite El, raws_app, length_app, Es, !length_app in Hend'. rewrite length_app in Hse'. lia. }
    rewrite app_nil_r in Es. destruct l2 as [|f l2]; [done|]. rewrite El in F1. apply Forall_app in F1 as [_ F1].
    apply Forall_cons in F1 as [(_ & Hparse & _) _]. specialize (Hparse [] (raws l2)). specialize (Hinc []). rewrite <- Es, raws_cons in Hinc. congruence. }
  assert (Eo : offset_of m = offset_of p) by (rewrite app_nil_r in Hse'; lia).
  conj; [done|done|]. by apply (same_place G K c i j m p Hi).
Qed.

(** *** The commit sends what is missing *)
Definition ready (id : nat) (r : ConnectedReplica) (pr : Primary) : Prop :=
  dict_get id (pr_replicas pr) = Some r /\ is_Some (since (cr_sent r) (rs_backlog (pr_state pr))) /\ unsent id pr <= MAX_REPLICA_BUFFER.

Definition sent_all (id : nat) (pr : Primary) : Prop :=
  exists r, dict_get id (pr_replicas pr) = Some r /\ is_online r = true /\ cr_sent r = pr_offset pr.

Lemma send_other_wires id (pr : Primary) i : i <> id -> dict_get i (pr_wires (send id pr)) = dict_get i (pr_wires pr).
Proof.
  intros Hi. unfold send. destruct (dict_get id (pr_replicas pr)) as [r|]; [|done].
  assert (Hd : dict_get i (pr_wires (drop_replica id pr)) = dict_get i (pr_wires pr)) by (rewrite get_drop_wire; by rewrite decide_False).
  destruct (since _ _) as [data|]; [|done]. destruct (_ <? _); [done|]. destruct data as [|b data]; [done|].
  unfold on_replica. destruct (dict_get id (pr_replicas _)); cbn [pr_wires set_replicas]; rewrite get_on_wire, decide_False; done.
Qed.

Lemma send_state id (pr : Primary) : pr_state (send id pr) = pr_state pr.
Proof.
  unfold send. destruct (dict_get id (pr_replicas pr)) as [r|]; [|done]. destruct (drop_rest id pr) as (Hd & _).
  destruct (since _ _) as [data|]; [|done]. destruct (_ <? _); [done|]. destruct data as [|b data]; [done|].
  unfold on_replica. destruct (on_wire_rest (wire_write (b :: data)) id pr) as (Hw & _). by destruct (dict_get id (pr_replicas _)).
Qed.

Lemma send_ready id r (pr : Primary) :
  ready id r pr -> is_online r = true -> bl_end (rs_backlog (pr_state pr)) = bl_start (rs_backlog (pr_state pr)) + Z.of_nat (length (bl_buf (rs_backlog (pr_state pr)))) ->
  sent_all id (send id pr).
Proof.
  intros (Hr & [data Hd] & Hu) Hon Hb. unfold send. rewrite Hr, Hd. destruct (Z.ltb_spec MAX_REPLICA_BUFFER (unsent id pr)); [lia|].
  destruct data as [|b data].
  - exists r. conj; try done. unfold since, contains in Hd. destruct (_ && _) eqn:E; [|done]. apply andb_prop in E as [E1 E2].
    apply Z.leb_le in E1, E2. injection Hd as Hd. apply (f_equal length) in Hd. rewrite length_drop in Hd. cbn in Hd. unfold pr_offset, rs_offset. lia.
  - unfold on_replica. destruct (on_wire_rest (wire_write (b :: data)) id pr) as (E1 & E2 & _). rewrite E2, Hr.
    exists (set_sent (pr_offset pr) r). cbn [pr_replicas set_replicas]. rewrite dict_get_set, decide_True by done.
    conj; try done. unfold pr_offset. cbn [pr_state set_replicas set_sent cr_sent]. by rewrite E1.
Qed.

Lemma send_keeps_sent id i (pr : Primary) : i <> id -> dict_wf (pr_replicas pr) -> sent_all i pr -> sent_all i (send id pr).
Proof.
  intros Hi Hwf (r & Hr & Hon & Hs). exists r. rewrite send_others by done. conj; try done. unfold pr_offset. by rewrite send_state.
Qed.

Lemma send_wf id (pr : Primary) : dict_wf (pr_replicas pr) -> dict_wf (pr_replicas (send id pr)).
Proof.
  intros Hwf. unfold send. destruct (dict_get id (pr_replicas pr)) as [r|]; [|done]. destruct (drop_rest id pr) as (_ & Hd & _).
  assert (Hdw : dict_wf (pr_replicas (drop_replica id pr))) by (rewrite Hd; by apply dict_pop_wf).
  destruct (since _ _) as [data|]; [|done]. destruct (_ <? _); [done|]. destruct data as [|b data]; [done|].
  unfold on_replica. destruct (on_wire_rest (wire_write (b :: data)) id pr) as (_ & Hw & _). rewrite Hw.
  destruct (dict_get id (pr_replicas pr)); [|by rewrite Hw]. by apply dict_set_wf.
Qed.

Lemma flush_loop_sends id r l : forall pr : Primary,
  dict_wf (pr_replicas pr) -> NoDup l.*1 ->
  bl_end (rs_backlog (pr_state pr)) = bl_start (rs_backlog (pr_state pr)) + Z.of_nat (length (bl_buf (rs_backlog (pr_state pr)))) ->
  is_online r = true -> ((id, r) ∈ l /\ ready id r pr) \/ ((id ∉ l.*1) /\ sent_all id pr) ->
  sent_all id (fold_left (fun pr '(i, x) => if is_online x then send i pr else pr) l pr).
Proof.
  induction l as [|[i x] l IH]; intros pr Hwf Hnd Hb Hon Hcase.
  { destruct Hcase as [[Hin _]|[_ ?]]; [by apply not_elem_of_nil in Hin|done]. }
  apply NoDup_cons in Hnd as [Hid Hnd]. cbn [fold_left fst fmap list_fmap] in *.
  apply IH; [destruct (is_online x); [by apply send_wf|done]|done|destruct (is_online x); [by rewrite send_state|done]|done|].
  destruct Hcase as [[Hin Hrdy]|[Hin Hsent]].
  - apply elem_of_cons in Hin as [[= -> ->]|Hin].
    + right. split; [done|]. rewrite Hon. by eapply send_ready.
    + left. split; [done|]. assert (Hne : id <> i) by (intros ->; apply Hid; by apply (list_elem_of_fmap_2 fst) in Hin).
      destruct (is_online x); [|done]. destruct Hrdy as (H1 & H2 & H3). unfold ready, unsent in *.
      rewrite send_others, send_other_wires, send_state by done. done.
  - apply not_elem_of_cons in Hin as [Hne Hin]. right. split; [done|]. destruct (is_online x); [by apply send_keeps_sent|done].
Qed.

Lemma flush_sends id r (pr : Primary) :
  dict_wf (pr_replicas pr) -> bl_end (rs_backlog (pr_state pr)) = bl_start (rs_backlog (pr_state pr)) + Z.of_nat (length (bl_buf (rs_backlog (pr_state pr)))) ->
  is_online r = true -> ready id r pr -> sent_all id (Primary.flush pr).
Proof.
  intros Hwf Hb Hon Hr. unfold Primary.flush. eapply flush_loop_sends; try done. left. split; [|done].
  destruct Hr as [Hr _]. by apply dict_get_Some_elem.
Qed.

(** *** Reading it, in whatever pieces it arrives *)
Lemma stream_in_range G K c i m d' st k' s' :
  sys_inv G K c -> cf_members c !! i = Some m -> tracked G st (rl_view d') ->
  in_range (put_member i (mkMember (linked d' st k' (mb_node m)) s') c).
Proof.
  intros Hi Hm (h & Hh & Hp & _). pose proof (si_range _ _ _ Hi) as Hr. unfold in_range, put_member in *. cbn [cf_members].
  apply Forall_insert; [done|]. rewrite Forall_lookup in Hr. destruct (Hr i m Hm) as [_ Hw]. split; [|exact Hw].
  apply position_range in Hp. destruct (si_hist _ _ _ Hi _ _ Hh) as (_ & _ & _ & _ & B & E). change (Z.abs (rs_offset st) < 2 ^ 63). lia.
Qed.

Lemma read_all address c1 past j id p chunks (now : float) : forall c run i m s buf,
  sys_run address (run ++ c1 :: past) -> head (run ++ [c1]) = Some c ->
  cf_members c !! i = Some m -> mb_session m = Some s -> phase_of m = Some (PStream buf) -> ss_peer s = j -> ss_conn s = Some id ->
  cf_members c !! j = Some p -> sent_all id (prim p) -> Forall (fun x => x <> []) chunks -> concat chunks = unread_of c s ->
  exists run' c' m', sys_run address (run' ++ c1 :: past) /\ head (run' ++ [c1]) = Some c' /\
    length run' = (length run + length chunks)%nat /\ cf_members c' !! i = Some m' /\ cf_members c' !! j = Some p /\
    replid_of m' = replid_of p /\ offset_of m' = offset_of p /\ data_of m' = data_of p.
Proof.
  induction chunks as [|data chunks IH]; intros c run i m s buf Hrun Hhead Hm Hs Hph Hpeer Hconn Hp Hsent Hall Hun.
  - destruct (run_inv address _ Hrun) as (c0 & past0 & G & K & Erun & Hi & _).
    assert (c0 = c) as ->. { destruct run; cbn in Hhead, Erun; congruence. }
    destruct Hsent as (r & Hr & _ & Hsr). exists run, c, m. destruct (caught_up G K c i m s buf j p id r) as (E1 & E2 & E3); try done.
  - apply Forall_cons in Hall as [Hne Hall]. cbn [concat] in Hun.
    destruct (run_inv address _ Hrun) as (c0 & past0 & G & K & Erun & Hi & _).
    assert (c0 = c) as ->. { destruct run; cbn in Hhead, Erun; congruence. }
    destruct (stream_step G K c i m s buf data _ now Hi Hm Hs Hph (eq_sym Hun) Hne) as (d' & st & k' & part & Hk & Ht & Hr & E & Hse).
    set (m' := mkMember _ _) in E. set (c' := put_member i m' c).
    assert (Hij : j <> i).
    { intros ->. destruct Hsent as (r & Hx & _). assert (p = m) as -> by congruence.
      destruct (no_replica _ _ (si_node _ _ _ Hi i m Hm) Hr) as (_ & _ & E0). by rewrite E0 in Hx. }
    assert (Hlt : (i < length (cf_members c))%nat) by (by eapply lookup_lt_Some).
    assert (Hun' : unread_of c' (read_more (length data) s) = concat chunks).
    { unfold unread_of in *. cbn [read_more ss_peer ss_conn ss_read c' put_member cf_members]. rewrite Hpeer in *.
      rewrite list_lookup_insert_ne by done. rewrite Hp, Hconn in *. destruct (dict_get id (pr_wires (prim p))) as [w|].
      - rewrite <- drop_drop, <- Hun. by rewrite drop_app_length.
      - apply app_nil in Hun as [? _]. done. }
    edestruct (IH c' (c' :: run) i m' (read_more (length data) s) part) as (run' & c2 & m2 & R1 & R2 & R3 & R4 & R5 & R6); try done.
    + cbn [app]. rewrite Erun. apply run_step; [by rewrite <- Erun| |by eapply stream_in_range].
      unfold c'. rewrite <- E. by eapply step_stream.
    + by apply list_lookup_insert_eq.
    + unfold phase_of. cbn. by rewrite Hk.
    + cbn [c' put_member cf_members]. by rewrite list_lookup_insert_ne.
    + exists run', c2, m2. conj; try done; [|apply R6..]. rewrite R3. cbn [length]. lia.
Qed.

End Spec.

(** * Replication: concrete runs

    Two nodes over an engine that keeps the effects it applied: a full resync,
    a write, and the replica catches up. *)

(** ** An engine that keeps the effects it applied *)
Record LogEngine := mkLE { le_log : list (list pystr); le_replication : option Primary }.

Definition le_apply (name : pystr) (args : list PyArg) (d : LogEngine) : LogEngine :=
  mkLE (le_log d ++ [name :: (arg_text <$> args)]) (le_replication d).

#[export] Instance log_engine : NodeEngine LogEngine := {|
  ne_replication := le_replication;
  ne_set_replication r d := mkLE (le_log d) r;
  ne_begin_snapshot _ := ret tt;
  ne_expiry_deletes _ := ret tt;
  ne_is_write _ := Some true;
  ne_execute _ _ _ := ret OK;
  ne_check_migration _ _ _ := ret tt
|}.

#[export] Instance log_replica : ReplicaEngine LogEngine := {|
  re_apply_replicated name args := modifyM (le_apply name args);
  re_load_snapshot _ _ := modifyM (fun d => mkLE [] (le_replication d));; ret 0
|}.

#[export] Instance log_laws : ReplicaLaws LogEngine (list (list pystr)).
Proof.
  refine (Build_ReplicaLaws _ _ _ _ le_log (fun v args => v ++ [args])
    (fun args => exists name rest, args = name :: rest /\ str_upper name <> lit "PING" /\ str_upper name <> lit "REPLCONF")
    (fun _ v => v = []) _ _ _ _ _ _ _).
  - done.
  - done.
  - done.
  - intros b d. by exists d.
  - done.
  - intros name args d _. unfold re_apply_replicated, log_replica, modifyM. conj; try done. cbn. do 3 f_equal.
    induction args as [|a args IH]; [done|]. cbn. by f_equal.
  - intros records v t payload d -> _. destruct (decode_snapshot payload (lit "full resync")) as [received failure].
    by eexists 0, _.
Defined.

(** ** A primary and a replica *)
Definition settings0 : ReplicationSettings := mkSettings 1024 0 (float_of_Z 10).
Definition at0 : float := float_of_Z 0.
Definition id_a : pystr := repeat 97 40.
Definition id_b : pystr := repeat 98 40.

Definition fresh_node (id : pystr) : Member (D := LogEngine) :=
  match new_node (mkLE [] None) None 7000 settings0 false id with
  | Ok n => mkMember n None
  | Raise _ => mkMember (mkNode (mkLE [] None) (new_primary (new_state (mkBacklog 1 [] 0 0) id)) true settings0 7000 RPrimary None 0 None None (new_stats false) []) None
  end.

Abbreviation C := (Config (D := LogEngine)).
Definition nth_member (i : nat) (c : C) : Member := default (fresh_node id_a) (cf_members c !! i).
Definition only_node (host : pystr) (port : Z) : option nat := Some 0%nat.

Definition r0 : C := mkConfig [fresh_node id_a; fresh_node id_b] [] [id_a; id_b].
Definition r1 : C := put_member 1 (mkMember (become_replica (lit "a") 7000 at0 (mb_node (nth_member 1 r0))).2 None) r0.
Definition r2 : C :=
  put_member 1 (mkMember (on_link session_begin (mb_node (nth_member 1 r1))).2 (Some (mkSession 0 None (lit "?", -1) 0))) r1.
Definition r3 : C :=
  put_member 1 (mkMember (on_link (expect_ok (lit "+OK" ++ CRLF)) (mb_node (nth_member 1 r2))).2
                  (Some (mkSession 0 None (psync_args (state_of (nth_member 1 r2))) 0))) r2.
Definition r4_node : Node := (node_serve (lit "b") (lit "?") (-1) at0 (mb_node (nth_member 0 r3))).2.
Definition r4 : C :=
  mkConfig (<[1%nat := mkMember (mb_node (nth_member 1 r3)) (Some (mkSession 0 (Some 1%nat) (lit "?", -1) 0))]>
             (<[0%nat := mkMember r4_node None]> (cf_members r3)))
    [((0, 1)%nat, [])] (cf_drawn r3).
Definition r5_node : Node := (on_primary _ (serve_snapshot 1 [] at0) (mb_node (nth_member 0 r4))).2.
Definition r5 : C := mkConfig (<[0%nat := upd_primary (fun x => x) (mkMember r5_node None)]> (cf_members r4)) [] (cf_drawn r4).
Definition r6 : C := put_member 0 (upd_primary (serve_online 1) (nth_member 0 r5)) r5.
Definition r7_line : bytes := fullresync_line id_a 0.
Definition r7 : C := put_member 1 (link_receives (psync_line r7_line at0) (length r7_line) (nth_member 1 r6)) r6.
Definition r8_payload : bytes := match encode_snapshot [] at0 with Ok b => b | Raise _ => [] end.
Definition r8_line : bytes := head_line 36 (Z.of_nat (length r8_payload)).
Definition r8 : C := put_member 1 (link_receives (snapshot_header id_a (lit "0") r8_line) (length r8_line) (nth_member 1 r7)) r7.
Definition r9 : C :=
  put_member 1 (link_receives (snapshot_payload id_a (lit "0") r8_payload at0) (length r8_payload) (nth_member 1 r8)) r8.
Definition r10_args : list PyArg := [AStr (lit "SET"); AStr (lit "k"); AStr (lit "v")].
Definition r10_raw : bytes := match encode_command r10_args with Ok b => b | Raise _ => [] end.
Definition r10 : C :=
  put_member 0 (mkMember (set_world (mkLE [arg_text <$> r10_args] None)
                  (Primary.feed r10_raw (nd_primary (mb_node (nth_member 0 r9)))) (mb_node (nth_member 0 r9))) None) r9.


Definition rangeb (c : C) : bool :=
  forallb (fun m => (Z.abs (offset_of m) <? 2 ^ 63) &&
             forallb (fun '(_, w) => Z.of_nat (length (wi_out w)) <? 2 ^ 63) (pr_wires (nd_primary (mb_node m)))) (cf_members c).

Lemma rangeb_ok c : rangeb c = true -> in_range c.
Proof.
  unfold rangeb, in_range. rewrite forallb_forall, Forall_forall. intros Hb m Hm. apply list_elem_of_In in Hm. apply Hb in Hm.
  apply andb_prop in Hm as [H1 H2]. split; [lia|]. rewrite forallb_forall in H2. apply Forall_forall. intros [id w] Hw.
  apply list_elem_of_In in Hw. apply H2 in Hw. lia.
Qed.

Lemma hex_id (z : Z) : is_hex z = true -> z <> 48 -> replid_ok (repeat z 40).
Proof.
  intros Hz Hne. split; [apply repeat_length|]. split; [by apply Forall_forall; intros x ->%list_elem_of_In%repeat_spec|].
  unfold NO_REPLID. cbn. congruence.
Qed.

Lemma r0_started : started r0.
Proof.
  split; [done|]. split; [done|]. split; [apply (bool_decide_unpack _); vm_compute; exact I|]. split.
  - repeat (apply Forall_cons; split); [apply hex_id; done|apply hex_id; done|constructor].
  - repeat (apply Forall_cons; split); [..|constructor]; by eexists (mkLE [] None), None, 7000, settings0, false, _.
Qed.

Lemma step_to (c c1 c2 : C) : sys_step only_node c c1 -> c1 = c2 -> sys_step only_node c c2.
Proof. by intros ? <-. Qed.

Ltac ran_step s :=
  apply run_step; [|eapply step_to; [eapply s|vm_compute; reflexivity]; try (vm_compute; reflexivity)|apply rangeb_ok; vm_compute; reflexivity].

Lemma line_is l : bool_decide (10 ∈ l) = false -> is_line (l ++ [10]).
Proof. intros Hl%bool_decide_eq_false. by exists l. Qed.

Lemma r9_run : sys_run only_node [r9; r8; r7; r6; r5; r4; r3; r2; r1; r0].
Proof.
  ran_step (step_payload only_node r8 1 (nth_member 1 r8) (mkSession 0 (Some 1%nat) (lit "?", -1) (length r7_line + length r8_line)) id_a (lit "0") (Z.of_nat (length r8_payload)) at0);
    [|vm_compute; congruence].
  ran_step (step_line only_node r7 1 (nth_member 1 r7) (mkSession 0 (Some 1%nat) (lit "?", -1) (length r7_line)) r8_line r8_payload
    (snapshot_header id_a (lit "0") r8_line) at0).
  2: { change r8_line with (lit "$29" ++ [13] ++ [10]). apply (line_is (lit "$29" ++ [13])). reflexivity. }
  ran_step (step_line only_node r6 1 (nth_member 1 r6) (mkSession 0 (Some 1%nat) (lit "?", -1) 0) r7_line (r8_line ++ r8_payload)
    (psync_line r7_line at0) at0).
  2: { change r7_line with ((lit "+FULLRESYNC " ++ id_a ++ lit " 0" ++ [13]) ++ [10]). apply line_is. reflexivity. }
  ran_step (step_online only_node r5 0 (nth_member 0 r5) 1).
  ran_step (step_snapshot only_node r4 0 (nth_member 0 r4) 1 [] at0 r5_node (Ok tt)).
  ran_step (step_serve only_node r3 1 (nth_member 1 r3) (mkSession 0 None (lit "?", -1) 0) 0 (nth_member 0 r3) (lit "b") at0 [] 1 r4_node).
  ran_step (step_ask only_node r2 1 (nth_member 1 r2) (mkSession 0 None (lit "?", -1) 0)).
  ran_step (step_connect only_node r1 1 (nth_member 1 r1) (start_link (new_link (lit "a") 7000 7000 at0)) 0).
  ran_step (step_demote only_node r0 1 (nth_member 1 r0) (lit "a") 7000 at0).
  apply run_start, r0_started.
Qed.

Lemma r10_run : sys_run only_node [r10; r9; r8; r7; r6; r5; r4; r3; r2; r1; r0].
Proof.
  apply run_step; [apply r9_run| |apply rangeb_ok; vm_compute; reflexivity].
  eapply step_to; [eapply (step_effect only_node r9 0 (nth_member 0 r9) (mkLE [arg_text <$> r10_args] None) r10_args r10_raw)|vm_compute; reflexivity];
    [reflexivity|vm_compute; reflexivity|reflexivity| |vm_compute; reflexivity|].
  - split; [done|]. repeat (apply Forall_cons; split); [..|constructor]; apply ascii_fits; try done; repeat constructor; done.
  - intros _. split; [by exists (lit "SET"), [lit "k"; lit "v"]|vm_compute; reflexivity].
Qed.


Definition r10_session : Session := mkSession 0 (Some 1%nat) (lit "?", -1) (length r7_line + length r8_line + length r8_payload).
Definition r11 : C := put_member 0 (upd_primary Primary.flush (nth_member 0 r10)) r10.

