(* ===== verification/Topology.v ===== *)
(** * Cluster configuration (cluster/topology.py)

    Shard groups, the configuration and its checks, the changes it goes through,
    its JSON form, [KV_SHARDS] and the file.  Then: the checks make every
    configuration well formed, replacing a group by the same members keeps it so
    and moves no key, and a saved configuration reads back.

    Texts of [ValueError] leave out the value they quote; [text_of] is [str] of a
    JSON list or object, which only a damaged file has in place of a name. *)

From Stdlib Require Import String.
From S2P Require Import Prelude PyStr PyFloat Codec Errors Oracles Registry Json Disk Manifest ReplicaLink HashRing Migration ShardNode.
Local Close Scope string_scope.

(** [str.isdigit]: the decimal digits, and these ranges of others. *)
Definition other_digits : list (Z * Z) :=
  [(178, 179); (185, 185); (4969, 4977); (6618, 6618); (8304, 8304); (8308, 8313); (8320, 8329); (9312, 9320);
   (9332, 9340); (9352, 9360); (9450, 9450); (9461, 9469); (9471, 9471); (10102, 10110); (10112, 10120);
   (10122, 10130); (68160, 68163); (69216, 69224); (69714, 69722); (127232, 127242)].
Definition is_digit_char (c : Z) : bool :=
  match digit_in decimal_zeros c with Some _ => true | None => existsb (fun '(a, b) => between a b c) other_digits end.
Definition isdigit (s : pystr) : bool := negb (bool_decide (s = [])) && forallb is_digit_char s.

Definition address_ok (address : pystr) : bool :=
  let '(host, sep, port) := rpartition 58 address in sep && negb (bool_decide (host = [])) && isdigit port.

Definition check_address (address : pystr) : result exn pystr :=
  if address_ok address then Ok address else Raise (err ValueError "node address must be 'host:port'").

(** ** [ShardGroup] *)
Record ShardGroup := mkGroup { sg_id : pystr; sg_primary : pystr; sg_replicas : list pystr }.

#[export] Instance ShardGroup_eq_dec : EqDecision ShardGroup.
Proof. solve_decision. Defined.

Definition members (g : ShardGroup) : list pystr := sg_primary g :: sg_replicas g.

Definition group_to_dict (g : ShardGroup) : Json :=
  JObject [(lit "id", JString (sg_id g)); (lit "primary", JString (sg_primary g));
           (lit "replicas", JArray (JString <$> sg_replicas g))].

(** ** [ClusterConfig]; [cc_rebalance] is the target of the rebalance. *)
Record ClusterConfig := mkCluster {
  cc_epoch : Z;
  cc_shards : list ShardGroup;
  cc_virtual_nodes : Z;
  cc_rebalance : option (list pystr);
  cc_ring_ids : list pystr
}.

#[export] Instance ClusterConfig_eq_dec : EqDecision ClusterConfig.
Proof. solve_decision. Defined.

Definition group_ids (shards : list ShardGroup) : list pystr := sg_id <$> shards.
Definition all_members (shards : list ShardGroup) : list pystr := shards ≫= members.

Fixpoint check_addresses (l : list pystr) : result exn unit :=
  match l with
  | [] => Ok tt
  | a :: l' => match check_address a with Ok _ => check_addresses l' | Raise x => Raise x end
  end.

(** The constructor: [__init__] and [__post_init__]. *)
Definition new_config (epoch : Z) (shards : list ShardGroup) (vnodes : Z) (rebalance : option (list pystr))
    (ring_ids : list pystr) : result exn ClusterConfig :=
  let ids := group_ids shards in
  if bool_decide (ids = []) then Raise (err ValueError "a cluster needs at least one shard group")
  else if negb (bool_decide (NoDup ids)) then Raise (err ValueError "shard group ids must be unique")
  else
    let nodes := all_members shards in
    match check_addresses nodes with
    | Raise x => Raise x
    | Ok _ =>
        if negb (bool_decide (NoDup nodes)) then Raise (err ValueError "a node can belong to only one shard group, once")
        else
          let ring := if bool_decide (ring_ids = []) then ids else ring_ids in
          if bool_decide (Forall (fun i => i ∈ ids) (ring ++ default [] rebalance))
          then Ok (mkCluster epoch shards vnodes rebalance ring)
          else Raise (err ValueError "ring references unknown shard groups")
    end.

(** *** Lookup *)
Definition group (shard_id : pystr) (c : ClusterConfig) : result exn ShardGroup :=
  match find (fun g => bool_decide (sg_id g = shard_id)) (cc_shards c) with
  | Some g => Ok g
  | None => Raise (new_exn KeyError shard_id None)
  end.

Definition group_of (address : pystr) (c : ClusterConfig) : option ShardGroup :=
  find (fun g => bool_decide (address ∈ members g)) (cc_shards c).

Definition config_ring (c : ClusterConfig) : result exn Ring := new_ring (cc_ring_ids c) (cc_virtual_nodes c).

Definition target_ring (c : ClusterConfig) : result exn (option Ring) :=
  match cc_rebalance c with
  | None => Ok None
  | Some target => match new_ring target (cc_virtual_nodes c) with Ok r => Ok (Some r) | Raise x => Raise x end
  end.

(** *** Changes: [replace] runs the checks again *)
Definition with_group (g : ShardGroup) (c : ClusterConfig) : result exn ClusterConfig :=
  new_config (cc_epoch c + 1) ((fun g' => if bool_decide (sg_id g' = sg_id g) then g else g') <$> cc_shards c)
    (cc_virtual_nodes c) (cc_rebalance c) (cc_ring_ids c).

Definition next_epoch (shards : list ShardGroup) (rebalance : option (list pystr)) (ring_ids : list pystr)
    (c : ClusterConfig) : result exn ClusterConfig :=
  new_config (cc_epoch c + 1) shards (cc_virtual_nodes c) rebalance ring_ids.

(** *** JSON *)
Definition to_dict (c : ClusterConfig) : Json :=
  JObject [(lit "epoch", JInt (cc_epoch c)); (lit "virtual_nodes", JInt (cc_virtual_nodes c));
           (lit "shards", JArray (group_to_dict <$> cc_shards c));
           (lit "ring", JArray (JString <$> cc_ring_ids c));
           (lit "rebalance", match cc_rebalance c with
                             | Some target => JObject [(lit "target", JArray (JString <$> target))]
                             | None => JNull
                             end)].

(** [data[key]] and [data.get(key)]. *)
Definition item (key : pystr) (data : Json) : result exn Json :=
  match data with
  | JObject d => match dict_get key d with Some v => Ok v | None => Raise (new_exn KeyError key None) end
  | _ => Raise (err TypeError "not a dict")
  end.
Definition get_item (key : pystr) (data : Json) : result exn (option Json) :=
  match data with
  | JObject d => Ok (dict_get key d)
  | _ => Raise (err AttributeError "object has no attribute 'get'")
  end.

(** What iterating over a value gives. *)
Definition json_iter (v : Json) : result exn (list Json) :=
  match v with
  | JArray l => Ok l
  | JObject d => Ok ((fun '(k, _) => JString k) <$> d)
  | JString s => Ok ((fun c => JString [c]) <$> s)
  | _ => Raise (err TypeError "object is not iterable")
  end.

Definition json_truthy (v : Json) : bool :=
  match v with
  | JNull => false
  | JBool b => b
  | JInt z => negb (z =? 0)
  | JFloat f => negb (feq f (float_of_Z 0))
  | JString s => negb (bool_decide (s = []))
  | JArray l => match l with [] => false | _ => true end
  | JObject d => match d with [] => false | _ => true end
  end.

Definition json_int (v : Json) : result exn Z :=
  match v with
  | JInt z => Ok z
  | JFloat f => py_int_arg (AFloat f)
  | JString s => py_int_arg (AStr s)
  | JBool b => py_int_arg (ABool b)
  | _ => py_int_arg (AOther [])
  end.

(** A tuple of names.  One that is not a string is refused here; the source
    refuses it in the checks of [new_config], so in a file with two faults the
    exception can be that of the other. *)
Definition json_names (bad : exn) (v : Json) : result exn (list pystr) :=
  match json_iter v with
  | Raise x => Raise x
  | Ok l => match all_strings l with Some names => Ok names | None => Raise bad end
  end.

Notation "'let?' x := c 'in' k" := (match c with Ok x => k | Raise e => Raise e end)
  (at level 10, x pattern, c at level 100, k at level 200).

Fixpoint map_result {A B} (f : A -> result exn B) (l : list A) : result exn (list B) :=
  match l with
  | [] => Ok []
  | a :: l' => let? b := f a in let? bs := map_result f l' in Ok (b :: bs)
  end.

Section FromDict.
Context (text_of : Json -> pystr).

(** [str(v)]. *)
Definition json_str (v : Json) : pystr :=
  match v with
  | JString s => s
  | JInt z => str_of_int z
  | JFloat f => float_repr f
  | JBool b => if b then lit "True" else lit "False"
  | JNull => lit "None"
  | _ => text_of v
  end.

Definition group_from_dict (data : Json) : result exn ShardGroup :=
  let? id := item (lit "id") data in
  let? primary := item (lit "primary") data in
  let? replicas := get_item (lit "replicas") data in
  let? names := match replicas with
                | None => Ok []
                | Some v => json_names (err AttributeError "object has no attribute 'rpartition'") v
                end in
  Ok (mkGroup (json_str id) (json_str primary) names).

Definition from_dict (data : Json) : result exn ClusterConfig :=
  let? rebalance := get_item (lit "rebalance") data in
  let? e := item (lit "epoch") data in
  let? epoch := json_int e in
  let? v := get_item (lit "virtual_nodes") data in
  let? vnodes := json_int (default (JInt 100) v) in
  let? s := item (lit "shards") data in
  let? groups := json_iter s in
  let? shards := map_result group_from_dict groups in
  let? r := get_item (lit "ring") data in
  let unknown := err ValueError "ring references unknown shard groups" in
  let? ring := match r with
               | Some v => if json_truthy v then json_names unknown v else Ok []
               | None => Ok []
               end in
  let? target := match rebalance with
                 | Some v => if json_truthy v
                             then let? t := item (lit "target") v in let? names := json_names unknown t in Ok (Some names)
                             else Ok None
                 | None => Ok None
                 end in
  new_config epoch shards vnodes target ring.

(** *** The file *)
Definition load_config (content : option bytes) : result exn (option ClusterConfig) :=
  match content with
  | None => Ok None
  | Some raw =>
      match utf8_strict (length raw) raw with
      | None => Raise (err ValueError "invalid utf-8")
      | Some text =>
          match loads text with
          | None => Raise (err ValueError "invalid JSON")
          | Some data => let? c := from_dict data in Ok (Some c)
          end
      end
  end.
End FromDict.

(** [json.dumps(v, indent=1)]. *)
Definition newline (level : nat) : pystr := 10 :: repeat 32 level.

Fixpoint dumps_indent (level : nat) (v : Json) : pystr :=
  match v with
  | JNull => lit "null"
  | JBool b => if b then lit "true" else lit "false"
  | JInt z => str_of_int z
  | JFloat x => dump_float x
  | JString s => dump_string s
  | JArray l =>
      let fix items (first : bool) (l : list Json) : pystr :=
        match l with
        | [] => []
        | x :: l' => (if first then [] else [44]) ++ newline (S level) ++ dumps_indent (S level) x ++ items false l'
        end in
      match l with [] => lit "[]" | _ => 91 :: items true l ++ newline level ++ [93] end
  | JObject d =>
      let fix pairs (first : bool) (d : list (pystr * Json)) : pystr :=
        match d with
        | [] => []
        | (k, x) :: d' => (if first then [] else [44]) ++ newline (S level) ++ dump_string k ++ lit ": " ++
                          dumps_indent (S level) x ++ pairs false d'
        end in
      match d with [] => lit "{}" | _ => 123 :: pairs true d ++ newline level ++ [125] end
  end.

(** [save], in a directory that exists; the text is ASCII and is handed over
    when it is flushed. *)
Definition save_config (name : pystr) (c : ClusterConfig) : IOM unit :=
  let tmp := name ++ lit ".tmp" in
  let! i := io_create tmp in
  io_write i (dumps_indent 0 (to_dict c));;
  io_sync i;;
  io_replace tmp name.

(** *** [KV_SHARDS] *)
Definition partition (c : Z) (s : pystr) : pystr * bool * pystr :=
  match find_char c s with Some i => (take i s, true, drop (S i) s) | None => (s, false, []) end.

Fixpoint split_char (c : Z) (word s : pystr) : list pystr :=
  match s with
  | [] => [word]
  | x :: s' => if x =? c then word :: split_char c [] s' else split_char c (word ++ [x]) s'
  end.

Definition group_from_spec (i : nat) (it : pystr) : ShardGroup :=
  let '(shard_id, sep, rest) := partition 61 it in
  let '(shard_id, rest) := if sep : bool then (shard_id, rest)
                           else (lit "shard-" ++ str_of_int (Z.of_nat i), it) in
  let nodes := strip is_text_space <$> split_char 43 [] rest in
  mkGroup (strip is_text_space shard_id) (hd [] nodes) (tl nodes).

Definition from_spec (spec : list pystr) (vnodes : Z) : result exn ClusterConfig :=
  new_config 0 (imap (fun i it => group_from_spec (S i) it) spec) vnodes None [].

(** * What the checks promise *)
Record config_ok (c : ClusterConfig) : Prop := {
  ok_some : cc_shards c <> [];
  ok_ids : NoDup (group_ids (cc_shards c));
  ok_addresses : Forall (fun a => address_ok a = true) (all_members (cc_shards c));
  ok_nodes : NoDup (all_members (cc_shards c));
  ok_ring : cc_ring_ids c <> [];
  ok_known : Forall (fun i => i ∈ group_ids (cc_shards c)) (cc_ring_ids c ++ default [] (cc_rebalance c))
}.

Lemma check_addresses_ok l : check_addresses l = Ok tt <-> Forall (fun a => address_ok a = true) l.
Proof.
  induction l as [|a l IH]; [done|]. rewrite Forall_cons, <- IH. cbn [check_addresses]. unfold check_address.
  destruct (address_ok a); naive_solver.
Qed.

Lemma checked_config e s v r i c : new_config e s v r i = Ok c ->
  config_ok c /\ c = mkCluster e s v r (if bool_decide (i = []) then group_ids s else i).
Proof.
  unfold new_config. destruct (bool_decide (group_ids s = [])) eqn:E1; [done|]. apply bool_decide_eq_false in E1.
  destruct (bool_decide (NoDup (group_ids s))) eqn:E2; [apply bool_decide_eq_true in E2|done]. cbn [negb].
  destruct (check_addresses (all_members s)) as [[]|x] eqn:E3; [apply check_addresses_ok in E3|done].
  destruct (bool_decide (NoDup (all_members s))) eqn:E4; [apply bool_decide_eq_true in E4|done]. cbn [negb].
  destruct (bool_decide (Forall _ _)) eqn:E5; [apply bool_decide_eq_true in E5|done].
  intros [= <-]. split; [|done]. split; simpl; try done.
  - by intros ->.
  - by destruct (bool_decide (i = [])) eqn:Ei; [|apply bool_decide_eq_false in Ei].
Qed.

Lemma new_config_accepts c : config_ok c ->
  new_config (cc_epoch c) (cc_shards c) (cc_virtual_nodes c) (cc_rebalance c) (cc_ring_ids c) = Ok c.
Proof.
  intros [H1 H2 H3 H4 H5 H6]. unfold new_config.
  rewrite (bool_decide_false (group_ids _ = [])) by (destruct (cc_shards c); done).
  rewrite (bool_decide_true (NoDup (group_ids _))), (proj2 (check_addresses_ok _) H3) by done. cbn [negb].
  rewrite (bool_decide_true (NoDup _)), (bool_decide_false (cc_ring_ids c = [])), bool_decide_true by done.
  by destruct c.
Qed.

Lemma group_found i c g : group i c = Ok g -> sg_id g = i /\ g ∈ cc_shards c.
Proof.
  unfold group. destruct (find _ _) as [g'|] eqn:E; [|done]. intros [= ->]. apply find_some in E as [Hin Hid].
  apply bool_decide_eq_true in Hid. split; [done|by apply list_elem_of_In].
Qed.

Lemma group_known i c : i ∈ group_ids (cc_shards c) -> exists g, group i c = Ok g.
Proof.
  intros Hi. unfold group. destruct (find _ _) as [g|] eqn:E; [by exists g|]. exfalso.
  apply list_elem_of_fmap in Hi as (g & -> & Hg). apply list_elem_of_In in Hg.
  pose proof (find_none _ _ E g Hg) as Hn. by apply bool_decide_eq_false in Hn.
Qed.

(** ** Replacing a group *)
Definition swap (g : ShardGroup) (s : list ShardGroup) : list ShardGroup :=
  (fun g' => if bool_decide (sg_id g' = sg_id g) then g else g') <$> s.

Lemma swap_ids g s : group_ids (swap g s) = group_ids s.
Proof.
  unfold group_ids, swap. rewrite <- list_fmap_compose. apply list_fmap_ext. intros _ g' _. unfold compose.
  by case_bool_decide.
Qed.

Lemma swap_absent g s : sg_id g ∉ group_ids s -> swap g s = s.
Proof.
  intros H. rewrite <- (list_fmap_id s) at 2. apply list_fmap_ext. intros i g' Hg. rewrite bool_decide_false; [done|].
  intros E. apply H. rewrite <- E. apply list_elem_of_fmap_2. by eapply list_elem_of_lookup_2.
Qed.

Lemma swap_members g g0 s : NoDup (group_ids s) -> g0 ∈ s -> sg_id g0 = sg_id g -> members g ≡ₚ members g0 ->
  all_members (swap g s) ≡ₚ all_members s.
Proof.
  intros Hnd Hin Hid Hm. induction s as [|g1 s IH]; [by apply elem_of_nil in Hin|].
  cbn [group_ids fmap list_fmap] in Hnd. apply NoDup_cons in Hnd as [Hnew Hnd]. unfold swap. cbn [fmap list_fmap].
  fold (swap g s). unfold all_members. cbn [mbind list_bind]. fold (all_members (swap g s)) (all_members s).
  apply elem_of_cons in Hin as [<-|Hin].
  - rewrite bool_decide_true by done. rewrite swap_absent by (by rewrite <- Hid). by apply Permutation_app_tail.
  - rewrite bool_decide_false; [apply Permutation_app_head; by apply IH|].
    intros E. apply Hnew. rewrite E, <- Hid. by apply list_elem_of_fmap_2.
Qed.

Lemma group_swap g g0 c c' i : group (sg_id g) c = Ok g0 -> cc_shards c' = swap g (cc_shards c) ->
  group i c' = if bool_decide (i = sg_id g) then Ok g else group i c.
Proof.
  unfold group. intros Hg ->. induction (cc_shards c) as [|g1 l IH]; [done|]. unfold swap. cbn [fmap list_fmap find] in *.
  fold (swap g l). destruct (decide (sg_id g1 = sg_id g)) as [E1|E1].
  - rewrite (bool_decide_true (sg_id g1 = sg_id g)) by done. clear IH Hg.
    destruct (decide (i = sg_id g)) as [->|Hi].
    + by rewrite !bool_decide_true by done.
    + rewrite !(bool_decide_false (_ = i)), (bool_decide_false (i = _)) by congruence.
      induction l as [|g2 l IH]; [done|]. unfold swap. cbn [fmap list_fmap find]. fold (swap g l).
      destruct (decide (sg_id g2 = sg_id g)) as [E2|E2].
      * rewrite (bool_decide_true (sg_id g2 = _)), !(bool_decide_false (_ = i)) by congruence. exact IH.
      * rewrite (bool_decide_false (sg_id g2 = sg_id g)) by done. destruct (bool_decide (sg_id g2 = i)); [done|exact IH].
  - rewrite (bool_decide_false (sg_id g1 = sg_id g)) in * by done. destruct (decide (sg_id g1 = i)) as [<-|Hi].
    + by rewrite (bool_decide_false (sg_id g1 = sg_id g)), (bool_decide_true (sg_id g1 = sg_id g1)) by done.
    + rewrite (bool_decide_false (sg_id g1 = i)) by done. by apply IH.
Qed.

Lemma nodup_members g c : config_ok c -> g ∈ cc_shards c -> NoDup (members g).
Proof.
  intros Hc (l1 & l2 & Hl)%list_elem_of_split. pose proof (ok_nodes c Hc) as Hn. rewrite Hl in Hn.
  unfold all_members in Hn. rewrite bind_app in Hn. apply NoDup_app in Hn as (_ & _ & Hn). cbn [mbind list_bind] in Hn.
  by apply NoDup_app in Hn as (Hn & _).
Qed.

(** The members with another one first. *)
Lemma reorder_members (w : pystr) l : NoDup l -> w ∈ l -> w :: List.filter (fun a => negb (bool_decide (a = w))) l ≡ₚ l.
Proof.
  induction l as [|a l IH]; intros Hn Hw; [by apply elem_of_nil in Hw|]. apply NoDup_cons in Hn as [Ha Hn].
  cbn [List.filter]. destruct (decide (a = w)) as [->|Hne].
  - rewrite bool_decide_true by done. cbn [negb]. f_equiv. clear IH Hn Hw.
    induction l as [|b l IH]; [done|]. apply not_elem_of_cons in Ha as [Hb Ha]. cbn [List.filter].
    rewrite bool_decide_false by congruence. cbn [negb]. by rewrite IH.
  - rewrite bool_decide_false by done. cbn [negb]. apply elem_of_cons in Hw as [->|Hw]; [done|].
    rewrite Permutation_swap. by rewrite IH.
Qed.

(** A group replaced by one with the same nodes: the checks pass, the epoch grows
    by one, and the ring and the keys it places stay. *)
Lemma with_group_ok g g0 c : config_ok c -> group (sg_id g) c = Ok g0 -> members g ≡ₚ members g0 ->
  let c' := mkCluster (cc_epoch c + 1) (swap g (cc_shards c)) (cc_virtual_nodes c) (cc_rebalance c) (cc_ring_ids c) in
  with_group g c = Ok c' /\ config_ok c' /\ config_ring c' = config_ring c.
Proof.
  cbv zeta. intros Hc Hg Hm. apply group_found in Hg as [Hid Hin]. destruct Hc as [H1 H2 H3 H4 H5 H6].
  pose proof (swap_members g g0 _ H2 Hin Hid Hm) as Hp.
  assert (Hok : config_ok (mkCluster (cc_epoch c + 1) (swap g (cc_shards c)) (cc_virtual_nodes c) (cc_rebalance c)
                             (cc_ring_ids c))).
  { split; simpl; rewrite ?swap_ids; try done.
    - by destruct (cc_shards c).
    - by rewrite Hp.
    - by rewrite Hp. }
  split; [exact (new_config_accepts _ Hok)|done].
Qed.

Lemma group_of_found a c g : group_of a c = Some g -> a ∈ members g /\ g ∈ cc_shards c.
Proof.
  unfold group_of. intros E. apply find_some in E as [Hin Hid]. apply bool_decide_eq_true in Hid.
  split; [done|by apply list_elem_of_In].
Qed.

(** ** Round trip through the dictionary *)
Lemma json_names_fmap x l : json_names x (JArray (JString <$> l)) = Ok l.
Proof. unfold json_names. cbn [json_iter]. by rewrite all_strings_fmap. Qed.

Section RoundTrip.
Context (text_of : Json -> pystr).

Lemma group_roundtrip g : group_from_dict text_of (group_to_dict g) = Ok g.
Proof.
  unfold group_from_dict.
  change (item (lit "id") (group_to_dict g)) with (Ok (X := exn) (JString (sg_id g))).
  change (item (lit "primary") (group_to_dict g)) with (Ok (X := exn) (JString (sg_primary g))).
  change (get_item (lit "replicas") (group_to_dict g)) with
    (Ok (X := exn) (Some (JArray (JString <$> sg_replicas g)))).
  cbv iota. rewrite json_names_fmap. by destruct g.
Qed.

Lemma groups_roundtrip s : map_result (group_from_dict text_of) (group_to_dict <$> s) = Ok s.
Proof.
  induction s as [|g s IH]; [done|]. cbn [fmap list_fmap map_result]. rewrite group_roundtrip, IH. done.
Qed.

Lemma config_roundtrip c : config_ok c -> from_dict text_of (to_dict c) = Ok c.
Proof.
  intros Hc. rewrite <- (new_config_accepts c Hc). unfold from_dict.
  change (item (lit "epoch") (to_dict c)) with (Ok (X := exn) (JInt (cc_epoch c))).
  change (get_item (lit "virtual_nodes") (to_dict c)) with (Ok (X := exn) (Some (JInt (cc_virtual_nodes c)))).
  change (item (lit "shards") (to_dict c)) with (Ok (X := exn) (JArray (group_to_dict <$> cc_shards c))).
  change (get_item (lit "ring") (to_dict c)) with (Ok (X := exn) (Some (JArray (JString <$> cc_ring_ids c)))).
  change (get_item (lit "rebalance") (to_dict c)) with (Ok (X := exn) (Some
    (match cc_rebalance c with Some t => JObject [(lit "target", JArray (JString <$> t))] | None => JNull end))).
  cbv iota. cbn [json_int default json_iter]. rewrite groups_roundtrip.
  assert (Ht : json_truthy (JArray (JString <$> cc_ring_ids c)) = true)
    by (pose proof (ok_ring c Hc); by destruct (cc_ring_ids c)).
  rewrite Ht, json_names_fmap. destruct (cc_rebalance c) as [t|]; [|done]. cbn [json_truthy].
  assert (Hi : item (lit "target") (JObject [(lit "target", JArray (JString <$> t))]) = Ok (JArray (JString <$> t)))
    by reflexivity.
  by rewrite Hi, json_names_fmap.
Qed.
End RoundTrip.
