(* ===== verification/Router.v ===== *)
(** * The router (cluster/router.py)

    A batch of commands: each is checked and routed to the group that owns its
    keys, a group's share goes out as one pipeline, and what was certainly not
    run is sent again.

    The nodes, the clock and the router's other tasks are a [Network]: every
    [await] is answered by it, and may find that the configuration was replaced
    meanwhile.  The groups of a batch are sent one after another, which is one of
    the orders [asyncio.gather] allows; a group's share only touches its own
    results. *)

From Stdlib Require Import String.
From S2P Require Import Prelude PyStr PyFloat Errors Codec Oracles Containers Eviction Store Snapshot Registry.
From S2P Require Import CmdServer Resp Replies Client ReplicaLink HashRing Metrics Topology.
Local Close Scope string_scope.

(** What a result slot holds: a handler's own value, or what a node sent. *)
Inductive Answer := Local (r : Reply) | Remote (r : PReply).

(** ** Merging the replies of a fan-out *)
Fixpoint sum_replies (l : list PReply) : result exn Z :=
  match l with
  | [] => Ok 0
  | PInt n :: l' => let? m := sum_replies l' in Ok (n + m)
  | _ => Raise (err TypeError "unsupported operand type(s) for +")
  end.

(** What iterating over a reply gives. *)
Definition reply_items (r : PReply) : result exn (list PReply) :=
  match r with
  | PArray l => Ok l
  | PText s | PStatus s => Ok ((fun c => PText [c]) <$> s)
  | _ => Raise (err TypeError "object is not iterable")
  end.

Fixpoint concat_replies (l : list PReply) : result exn (list PReply) :=
  match l with
  | [] => Ok []
  | r :: l' => let? items := reply_items r in let? rest := concat_replies l' in Ok (items ++ rest)
  end.

Inductive Merge := MSum | MConcat | MOk.

Definition FANOUT : list (pystr * Merge) :=
  [(lit "DBSIZE", MSum); (lit "KEYS", MConcat); (lit "FLUSHALL", MOk); (lit "FLUSHDB", MOk); (lit "BGSAVE", MOk);
   (lit "BGREWRITEAOF", MOk); (lit "SAVE", MOk)].

Definition merge_replies (m : Merge) (l : list PReply) : result exn Answer :=
  match m with
  | MSum => let? n := sum_replies l in Ok (Remote (PInt n))
  | MConcat => let? items := concat_replies l in Ok (Remote (PArray items))
  | MOk => Ok (Local OK)
  end.

(** ** State *)
Record RouterSettings := mkRouterSettings {
  rs_pool_size : Z;
  rs_retries : Z;
  rs_wait_replicas : Z;
  rs_wait_timeout_ms : Z;  (* [round(wait_timeout_s * 1000)] *)
  rs_read_from_replicas : bool
}.

Record ShardRouter (W : Type) := mkRouter {
  rt_settings : RouterSettings;
  rt_replica_turn : nat;
  rt_pools : list (pystr * KVClientPool);
  rt_config : ClusterConfig;
  rt_ring : Ring;
  rt_retries_performed : Z;
  rt_commands : list (pystr * Z);
  rt_group_stats : CommandStats;
  rt_group_commands : list (pystr * Z);
  rt_net : W
}.
Arguments mkRouter {W}. Arguments rt_settings {W}. Arguments rt_replica_turn {W}. Arguments rt_pools {W}.
Arguments rt_config {W}. Arguments rt_ring {W}. Arguments rt_retries_performed {W}. Arguments rt_commands {W}.
Arguments rt_group_stats {W}. Arguments rt_group_commands {W}. Arguments rt_net {W}.

Section Setters.
Context {W : Type}.
Implicit Types r : ShardRouter W.

Definition set_turn n r := mkRouter (rt_settings r) n (rt_pools r) (rt_config r) (rt_ring r) (rt_retries_performed r)
  (rt_commands r) (rt_group_stats r) (rt_group_commands r) (rt_net r).
Definition set_pools p r := mkRouter (rt_settings r) (rt_replica_turn r) p (rt_config r) (rt_ring r)
  (rt_retries_performed r) (rt_commands r) (rt_group_stats r) (rt_group_commands r) (rt_net r).
Definition set_config c r := mkRouter (rt_settings r) (rt_replica_turn r) (rt_pools r) c (rt_ring r)
  (rt_retries_performed r) (rt_commands r) (rt_group_stats r) (rt_group_commands r) (rt_net r).
Definition set_ring g r := mkRouter (rt_settings r) (rt_replica_turn r) (rt_pools r) (rt_config r) g
  (rt_retries_performed r) (rt_commands r) (rt_group_stats r) (rt_group_commands r) (rt_net r).
Definition set_retries n r := mkRouter (rt_settings r) (rt_replica_turn r) (rt_pools r) (rt_config r) (rt_ring r)
  n (rt_commands r) (rt_group_stats r) (rt_group_commands r) (rt_net r).
Definition set_counts c r := mkRouter (rt_settings r) (rt_replica_turn r) (rt_pools r) (rt_config r) (rt_ring r)
  (rt_retries_performed r) c (rt_group_stats r) (rt_group_commands r) (rt_net r).
Definition set_group_stats s c r := mkRouter (rt_settings r) (rt_replica_turn r) (rt_pools r) (rt_config r) (rt_ring r)
  (rt_retries_performed r) (rt_commands r) s c (rt_net r).
Definition set_net (w : W) r : ShardRouter W := mkRouter (rt_settings r) (rt_replica_turn r) (rt_pools r) (rt_config r) (rt_ring r)
  (rt_retries_performed r) (rt_commands r) (rt_group_stats r) (rt_group_commands r) w.
End Setters.

(** ** What the router relies on

    [nt_pipeline]: [KVClient.pipeline] of one client of the pool of an address;
    [nt_healthy]: [is_healthy], if it is set; [nt_on_stale] likewise;
    [nt_applied]: the configurations other tasks apply during an [await];
    [nt_clock]: [time.perf_counter()]; [nt_local]: where the handlers of
    stateless commands run, which use nothing of it but the time of day. *)
Class Network (W L : Type) := {
  nt_pipeline : pystr -> nat -> list (list PyArg) -> M exn W (list PReply);
  nt_healthy : W -> option (pystr -> bool);
  nt_on_stale : option (M exn W unit);
  nt_applied : W -> list ClusterConfig * W;
  nt_clock : W -> float * W;
  nt_local : W -> L
}.

Section Router.
Context `{Sizing} {P : Type} `{EvictionPolicy P} {D E : Type} `{Hooks D E} `{CommandContext P D E}.
Context {W : Type} `{!Network W (World P D E)}.
(** [str] of a list of replies, for a message. *)
Context (list_text : list PReply -> pystr).
Abbreviation RM := (M exn (ShardRouter W)).
Implicit Types (command : list PyArg) (shard address : pystr).

Definition spec_of (name : pystr) : option (CommandSpec P D E) := find_command name.

(** A call of the network. *)
Definition net {A} (m : M exn W A) : RM A := fun r =>
  let '(a, w) := m (rt_net r) in (a, set_net w r).

Definition ask {A} (f : W -> A * W) : RM A := fun r => let '(a, w) := f (rt_net r) in (Ok a, set_net w r).

(** What came of a call, exception or not. *)
Definition outcome {A} (c : RM A) : RM (result exn A) := fun r => let '(a, r') := c r in (Ok a, r').

(** [__init__]. *)
Definition new_router (config : ClusterConfig) (settings : RouterSettings) (w : W) : result exn (ShardRouter W) :=
  let? ring := config_ring config in
  Ok (mkRouter settings 0 [] config ring 0 [] (new_stats true) [] w).

(** ** Configuration *)
Definition apply_config (config : ClusterConfig) : RM bool :=
  let! r := getM in
  let old := rt_config r in
  if cc_epoch config <=? cc_epoch old then ret false
  else
    modifyM (set_config config);;
    (if negb (bool_decide (cc_ring_ids config = cc_ring_ids old)) ||
        negb (cc_virtual_nodes config =? cc_virtual_nodes old)
     then let! ring := lift (config_ring config) in modifyM (set_ring ring)
     else ret tt);;
    modifyM (fun r => set_pools (List.filter (fun '(a, _) => bool_decide (a ∈ all_members (cc_shards config)))
                                   (rt_pools r)) r);;
    ret true.

(** An [await]: other tasks may apply newer configurations, and see its
    exceptions themselves. *)
Definition awaited : RM unit :=
  let! configs := ask nt_applied in
  forM_list (fun c => let! _ := outcome (apply_config c) in ret tt) configs.

Definition owner (key : pystr) : RM pystr :=
  let! r := getM in lift (get_node (hash_slot_key key) (rt_ring r)).

Definition primary shard : RM pystr :=
  let! r := getM in let! g := lift (group shard (rt_config r)) in ret (sg_primary g).

(** [pool(address)], and the client of it whose turn it is. *)
Definition pool address : RM KVClientPool :=
  let! r := getM in
  match dict_get address (rt_pools r) with
  | Some p => ret p
  | None =>
      let! p := lift (new_pool address (rs_pool_size (rt_settings r))) in
      modifyM (fun r => set_pools (dict_set address p (rt_pools r)) r);;
      ret p
  end.

Definition pool_pipeline address (commands : list (list PyArg)) : RM (list PReply) :=
  let! p := pool address in
  let '(turn, p') := pool_next p in
  modifyM (fun r => set_pools (dict_set address p' (rt_pools r)) r);;
  let! a := outcome (net (nt_pipeline address turn commands)) in
  awaited;;
  lift a.

(** ** Routing *)
Record Routed := mkRouted { ro_shard : option pystr; ro_fanout : bool; ro_readonly : bool }.

Fixpoint owners (keys : list pystr) : RM (list pystr) :=
  match keys with
  | [] => ret []
  | k :: keys' => let! o := owner k in let! os := owners keys' in ret (o :: os)
  end.

Definition route command : RM (option Routed * Answer) :=
  match command with
  | [] => raise (err IndexError "list index out of range")
  | name :: args =>
      match match name with AStr n => spec_of (str_upper n) | _ => None end with
      | None => raise (new_exn UnknownCommandError (lit "unknown command '" ++ str_of_arg name ++ lit "'") None)
      | Some spec =>
          check_arity spec args;;
          if bool_decide (STATELESS ∈ cs_flags spec) then
            let! r := getM in
            let! reply := lift (cs_handler spec args (nt_local (rt_net r))).1 in
            ret (None, Local reply)
          else
            let keys := spec_keys spec args in
            match keys with
            | [] =>
                if dict_mem (cs_name spec) FANOUT then ret (Some (mkRouted None true (negb (is_write spec))), Local RNone)
                else raise (new_exn CommandError (lit "'" ++ cs_name spec ++ lit "' is not supported through the router") None)
            | _ =>
                if negb (forallb (fun k => match k with AStr _ => true | _ => false end) keys)
                then raise (err InvalidArgumentError "key must be a string")
                else
                  let! os := owners (key_names keys) in
                  match remove_dups os with
                  | [o] => ret (Some (mkRouted (Some o) false (negb (is_write spec))), Local RNone)
                  | _ => raise (err CrossShardError "Keys in request don't hash to the same shard")
                  end
            end
      end
  end.

Definition is_read command : bool :=
  match command with
  | name :: _ => match spec_of (str_upper (str_of_arg name)) with Some spec => negb (is_write spec) | None => false end
  | [] => false
  end.

(** Where to send a command, or the error that answers it. *)
Definition address_in shard (replica : bool) : RM (pystr + exn) :=
  let! r := getM in
  match group shard (rt_config r) with
  | Raise _ => ret (inr (new_exn NodeUnavailableError (lit "shard group " ++ quoted shard ++ lit " left the cluster") None))
  | Ok g =>
      let healthy := List.filter (fun a => match nt_healthy (rt_net r) with Some h => h a | None => true end)
                       (sg_replicas g) in
      match replica, healthy with
      | true, _ :: _ =>
          modifyM (set_turn (S (rt_replica_turn r)));;
          ret (inl (default [] (healthy !! (rt_replica_turn r mod length healthy)%nat)))
      | _, _ => ret (inl (sg_primary g))
      end
  end.

Definition command_address command (shard : option pystr) (replica : bool) : RM (pystr + exn) :=
  match shard with
  | Some s => address_in s replica
  | None =>
      let! routed := outcome (route command) in
      match routed with
      | Raise x => if isinstance x KVStoreError then ret (inr x) else raise x
      | Ok (Some (mkRouted (Some s) _ _), _) => address_in s replica
      | Ok _ => raise (err AssertionError "")
      end
  end.

(** ** One pipeline to one node *)
Definition reply_str (r : PReply) : pystr :=
  match r with
  | PNone => lit "None"
  | PStatus s | PText s => s
  | PInt n => str_of_int n
  | PError e => exn_msg e
  | PArray l => list_text l
  end.

Definition WAIT_command (needed timeout_ms : Z) : list PyArg := [AStr (lit "WAIT"); AInt needed; AInt timeout_ms].

Definition is_error (r : PReply) : bool := match r with PError e => isinstance e KVStoreError | _ => false end.

(** The replies when too few replicas confirmed. *)
Definition unconfirmed (reason : exn) (commands : list (list PyArg)) (replies : list PReply) : list PReply :=
  imap (fun i r => if negb (is_read (default [] (commands !! i))) && bool_decide (i < length commands)%nat &&
                      negb (is_error r) then PError reason else r) replies.

Definition exchange address (commands : list (list PyArg)) : RM (list PReply) :=
  let! r := getM in
  let needed := rs_wait_replicas (rt_settings r) in
  if (needed =? 0) || forallb is_read commands then pool_pipeline address commands
  else
    let! all := pool_pipeline address (commands ++ [WAIT_command needed (rs_wait_timeout_ms (rt_settings r))]) in
    match last all with
    | None => raise (err ValueError "not enough values to unpack")
    | Some confirmed =>
        let replies := removelast all in
        if match confirmed with PInt n => needed <=? n | _ => false end then ret replies
        else ret (unconfirmed (new_exn NotEnoughReplicasError
                                 (lit "write reached " ++ reply_str confirmed ++ lit " of " ++ str_of_int needed ++
                                  lit " replicas") None) commands replies)
    end.

(** ** One group's share, with the retries *)

(** [AskRedirectError.target]. *)
Definition ask_target (e : exn) : result exn pystr :=
  match last (split_text [] (exn_msg e)) with
  | Some t => Ok t
  | None => Raise (err IndexError "list index out of range")
  end.

(** The local variables of an attempt. *)
Record Sending := mkSending {
  sd_results : list PReply;
  sd_redirect : list (nat * pystr);
  sd_retry : list nat;
  sd_stale : bool
}.

Definition take_reply (i : nat) (r : PReply) (s : Sending) : result exn Sending :=
  let results := <[i := r]> (sd_results s) in
  match r with
  | PError e =>
      if isinstance e AskRedirectError then
        let? target := ask_target e in
        Ok (mkSending results (dict_set i target (sd_redirect s)) (sd_retry s ++ [i]) (sd_stale s))
      else if isinstance e ReadOnlyReplicaError || isinstance e TryAgainError then
        Ok (mkSending results (dict_pop i (sd_redirect s)) (sd_retry s ++ [i])
              (sd_stale s || isinstance e ReadOnlyReplicaError))
      else Ok (mkSending results (sd_redirect s) (sd_retry s) (sd_stale s))
  | _ => Ok (mkSending results (sd_redirect s) (sd_retry s) (sd_stale s))
  end.

Fixpoint take_replies (idxs : list nat) (replies : list PReply) (s : Sending) : result exn Sending :=
  match idxs, replies with
  | [], [] => Ok s
  | i :: idxs', r :: replies' => let? s' := take_reply i r s in take_replies idxs' replies' s'
  | _, _ => Raise (err ValueError "zip() argument 2 has another length than argument 1")
  end.

Definition set_all (idxs : list nat) (r : PReply) (results : list PReply) : list PReply :=
  foldl (fun l i => <[i := r]> l) results idxs.

Definition pick_commands (commands : list (list PyArg)) (idxs : list nat) : list (list PyArg) :=
  (fun i => default [] (commands !! i)) <$> idxs.

Definition exchange_one (commands : list (list PyArg)) (readonly : bool) address (idxs : list nat) (s : Sending) :
    RM Sending :=
  let! a := outcome (exchange address (pick_commands commands idxs)) in
  match a with
  | Ok replies => lift (take_replies idxs replies s)
  | Raise x =>
      if isinstance x ConnectFailedError
      then ret (mkSending (set_all idxs (PError x) (sd_results s)) (sd_redirect s) (sd_retry s ++ idxs) true)
      else if isinstance x NodeUnavailableError
      then ret (mkSending (set_all idxs (PError x) (sd_results s)) (sd_redirect s)
                  (if readonly then sd_retry s ++ idxs else sd_retry s) (sd_stale s))
      else raise x
  end.

Fixpoint exchange_all (commands : list (list PyArg)) (readonly : bool) (by_address : list (pystr * list nat))
    (s : Sending) : RM Sending :=
  match by_address with
  | [] => ret s
  | (address, idxs) :: rest =>
      let! s' := exchange_one commands readonly address idxs s in exchange_all commands readonly rest s'
  end.

(** [by_address], and the results of what cannot be sent. *)
Fixpoint addresses (commands : list (list PyArg)) (shard : option pystr) (replica : bool)
    (redirect : list (nat * pystr)) (todo : list nat) (results : list PReply) (by_address : list (pystr * list nat)) :
    RM (list PReply * list (pystr * list nat)) :=
  match todo with
  | [] => ret (results, by_address)
  | i :: todo' =>
      let! a := match dict_get i redirect with
                | Some ((_ :: _) as target) => ret (inl target)
                | _ => command_address (default [] (commands !! i)) shard replica
                end in
      match a with
      | inr x => addresses commands shard replica redirect todo' (<[i := PError x]> results) by_address
      | inl address =>
          addresses commands shard replica redirect todo' results
            (dict_set address (default [] (dict_get address by_address) ++ [i]) by_address)
      end
  end.

(** [attempts] more attempts, the next one numbered [attempt]. *)
Fixpoint attempt_loop (attempts attempt : nat) shard (commands : list (list PyArg)) (readonly replica : bool)
    (todo : list nat) (results : list PReply) (redirect : list (nat * pystr)) : RM (list PReply) :=
  match attempts with
  | O => ret results
  | S n =>
      (if bool_decide (attempt = 0%nat) then ret tt
       else modifyM (fun r => set_retries (rt_retries_performed r + 1) r);; awaited);;
      let! (results, by_address) :=
        addresses commands (if bool_decide (attempt = 0%nat) then Some shard else None) replica redirect todo results [] in
      let! s := exchange_all commands readonly by_address (mkSending results redirect [] false) in
      match sd_retry s with
      | [] => ret (sd_results s)
      | retry =>
          match sd_stale s, nt_on_stale with
          | true, Some refresh => net refresh;; awaited
          | _, _ => ret tt
          end;;
          attempt_loop n (S attempt) shard commands readonly replica (merge_sort le retry) (sd_results s) (sd_redirect s)
      end
  end.

Definition send_with_retries shard (commands : list (list PyArg)) : RM (list PReply) :=
  let! r := getM in
  let readonly := forallb is_read commands in
  let replica := readonly && rs_read_from_replicas (rt_settings r) &&
                 bool_decide (cc_rebalance (rt_config r) = None) in
  attempt_loop (Z.to_nat (rs_retries (rt_settings r) + 1)) 0 shard commands readonly replica
    (seq 0 (length commands)) (replicate (length commands) PNone) [].

Definition count_errors shard (results : list PReply) (s : CommandStats) : CommandStats :=
  foldl (fun s r => match r with
                    | PError e => if isinstance e KVStoreError then stats_error shard (exn_prefix e) s else s
                    | _ => s
                    end) s results.

Definition send shard (commands : list (list PyArg)) : RM (list PReply) :=
  let! started := ask nt_clock in
  let! results := send_with_retries shard commands in
  let! now := ask nt_clock in
  modifyM (fun r =>
    set_group_stats (count_errors shard results (stats_record shard (fsub now started) (rt_group_stats r)))
      (dict_set shard (default 0 (dict_get shard (rt_group_commands r)) + Z.of_nat (length commands))
         (rt_group_commands r)) r);;
  ret results.

(** ** A batch *)

(** [results[i] = reply] for the two lists, which must have one length. *)
Fixpoint put_replies (idxs : list nat) (replies : list PReply) (results : list Answer) : result exn (list Answer) :=
  match idxs, replies with
  | [], [] => Ok results
  | i :: idxs', r :: replies' => put_replies idxs' replies' (<[i := Remote r]> results)
  | _, _ => Raise (err ValueError "zip() argument 2 has another length than argument 1")
  end.

Fixpoint flush_groups (commands : list (list PyArg)) (groups : list (pystr * list nat)) (results : list Answer) :
    RM (list Answer) :=
  match groups with
  | [] => ret results
  | (shard, idxs) :: rest =>
      let! replies := send shard (pick_commands commands idxs) in
      let! results := lift (put_replies idxs replies results) in
      flush_groups commands rest results
  end.

Fixpoint send_everywhere command (groups : list ShardGroup) : RM (list PReply) :=
  match groups with
  | [] => ret []
  | g :: groups' =>
      let! replies := send (sg_id g) [command] in
      match replies with
      | [r] => let! rest := send_everywhere command groups' in ret (r :: rest)
      | _ => raise (err ValueError "too many values to unpack")
      end
  end.

Definition fanout command : RM Answer :=
  let! r := getM in
  match command with
  | [] => raise (err IndexError "list index out of range")
  | name :: _ =>
      match spec_of (str_upper (str_of_arg name)) with
      | None => raise (err KeyError "")
      | Some spec =>
          let! replies := send_everywhere command (cc_shards (rt_config r)) in
          match find is_error replies with
          | Some e => ret (Remote e)
          | None =>
              match dict_get (cs_name spec) FANOUT with
              | None => raise (err KeyError "")
              | Some m => lift (merge_replies m replies)
              end
          end
      end
  end.

Definition count_name command : pystr :=
  let name := match command with a :: _ => str_lower (str_of_arg a) | [] => [] end in
  match spec_of (str_upper name) with Some _ => name | None => lit "unknown" end.

Fixpoint run_batch (commands : list (list PyArg)) (i : nat) (rest : list (list PyArg))
    (pending : list (pystr * list nat)) (results : list Answer) : RM (list Answer) :=
  match rest with
  | [] => flush_groups commands pending results
  | command :: rest' =>
      let! routed := outcome (route command) in
      match routed with
      | Raise x =>
          if isinstance x KVStoreError then run_batch commands (S i) rest' pending (<[i := Remote (PError x)]> results)
          else raise x
      | Ok (None, value) => run_batch commands (S i) rest' pending (<[i := value]> results)
      | Ok (Some (mkRouted (Some shard) false _), _) =>
          run_batch commands (S i) rest'
            (dict_set shard (default [] (dict_get shard pending) ++ [i]) pending) results
      | Ok (Some (mkRouted _ true _), _) =>
          let! results := flush_groups commands pending results in
          let! value := fanout command in
          run_batch commands (S i) rest' [] (<[i := value]> results)
      | Ok (Some (mkRouted None false _), _) => raise (err AssertionError "")
      end
  end.

Definition execute_batch (commands : list (list PyArg)) : RM (list Answer) :=
  forM_list (fun command => modifyM (fun r =>
    set_counts (dict_set (count_name command) (default 0 (dict_get (count_name command) (rt_commands r)) + 1)
                  (rt_commands r)) r)) commands;;
  run_batch commands 0 commands [] (replicate (length commands) (Local RNone)).

Definition execute command : RM Answer :=
  let! results := execute_batch [command] in
  match results with
  | [Remote (PError e)] => if isinstance e KVStoreError then raise e else ret (Remote (PError e))
  | [a] => ret a
  | _ => raise (err ValueError "too many values to unpack")
  end.

(** ** Health *)
Record NodeStatus := mkStatus {
  ns_address : pystr; ns_shard : pystr; ns_role : pystr; ns_healthy : bool;
  ns_latency : option (float * float); ns_error : option pystr
}.

(** [_ping]; [latency_ms] is rounded from the two readings kept here. *)
Definition ping_node shard address (role : pystr) : RM NodeStatus :=
  let! start := ask nt_clock in
  let! a := outcome (let! replies := pool_pipeline address [[AStr (lit "PING")]] in
                     match replies with
                     | [r] => match r with
                              | PError e => if isinstance e KVStoreError then raise e else ret r
                              | _ => ret r
                              end
                     | _ => raise (err ValueError "not enough values to unpack")
                     end) in
  match a with
  | Raise x => if isinstance x KVStoreError
               then ret (mkStatus address shard role false None (Some (exn_msg x))) else raise x
  | Ok _ => let! now := ask nt_clock in ret (mkStatus address shard role true (Some (start, now)) None)
  end.

Fixpoint ping_members (g : ShardGroup) (l : list pystr) : RM (list NodeStatus) :=
  match l with
  | [] => ret []
  | a :: l' =>
      let! s := ping_node (sg_id g) a (if bool_decide (a = sg_primary g) then lit "primary" else lit "replica") in
      let! rest := ping_members g l' in ret (s :: rest)
  end.

Fixpoint ping_groups (l : list ShardGroup) : RM (list NodeStatus) :=
  match l with
  | [] => ret []
  | g :: l' => let! s := ping_members g (members g) in let! rest := ping_groups l' in ret (s ++ rest)
  end.

Definition node_status : RM (list NodeStatus) :=
  let! r := getM in ping_groups (cc_shards (rt_config r)).

Definition close_router : RM unit := modifyM (set_pools []).
End Router.
