(* ===== verification/RouterSpec.v ===== *)
(** * The router sends a write at most once

    The network is watched: every pipeline and what came of it is recorded, and
    of each record the commands a node may have run.  Whatever the nodes, the
    clock and the other tasks do, a batch's writes are run at most once each. *)

From Stdlib Require Import String.
From S2P Require Import Prelude PyStr PyFloat Errors Codec Oracles Containers Eviction Store Snapshot Registry.
From S2P Require Import CmdServer Resp Replies Client ReplicaLink HashRing Metrics Topology Router.
Local Close Scope string_scope.

(** A pipeline that was sent, or tried. *)
Record Sent := mkSent { st_address : pystr; st_commands : list (list PyArg); st_result : result exn (list PReply) }.

(** A reply that says the command was not run. *)
Definition refused (r : PReply) : bool :=
  match r with
  | PError e => isinstance e AskRedirectError || (isinstance e ReadOnlyReplicaError || isinstance e TryAgainError)
  | _ => false
  end.

(** The commands that may have been run: all but those refused in their reply. *)
Fixpoint ran (commands : list (list PyArg)) (replies : list PReply) : list (list PyArg) :=
  match commands, replies with
  | [], _ => []
  | c :: commands', [] => c :: ran commands' []
  | c :: commands', r :: replies' => (if refused r then [] else [c]) ++ ran commands' replies'
  end.

(** What failed to connect was never sent. *)
Definition executed (s : Sent) : list (list PyArg) :=
  match st_result s with
  | Ok replies => ran (st_commands s) replies
  | Raise x => if isinstance x ConnectFailedError then [] else st_commands s
  end.

#[export] Instance watched {W L} `{!Network W L} : Network (W * list Sent) L := {|
  nt_pipeline a i cs := fun '(w, log) => let '(res, w') := nt_pipeline a i cs w in (res, (w', log ++ [mkSent a cs res]));
  nt_healthy s := nt_healthy s.1;
  nt_on_stale := (fun m '(w, log) => let '(res, w') := m w in (res, (w', log))) <$> nt_on_stale;
  nt_applied := fun '(w, log) => let '(cs, w') := nt_applied w in (cs, (w', log));
  nt_clock := fun '(w, log) => let '(t, w') := nt_clock w in (t, (w', log));
  nt_local s := nt_local s.1
|}.

Section Spec.
Context `{Sizing} {P : Type} `{EvictionPolicy P} {D E : Type} `{Hooks D E} `{CommandContext P D E}.
Context {W : Type} `{!Network W (World P D E)} (list_text : list PReply -> pystr).
Abbreviation R := (ShardRouter (W * list Sent)).
Abbreviation RM := (M exn R).
Implicit Types (commands : list (list PyArg)) (idxs : list nat).

Definition log_of (r : R) : list Sent := (rt_net r).2.

(** The writes, without those that go to every group. *)
Definition counted (command : list PyArg) : bool :=
  match command with
  | name :: _ =>
      match spec_of (P := P) (D := D) (E := E) (str_upper (str_of_arg name)) with
      | Some spec => is_write spec && negb (dict_mem (cs_name spec) FANOUT)
      | None => false
      end
  | [] => false
  end.
Definition writes (l : list (list PyArg)) : list (list PyArg) := List.filter counted l.
Definition done_writes (new : list Sent) : list (list PyArg) := writes (new ≫= executed).

(** [m] sends pipelines [new] such that [Q] of its result and [new]. *)
Definition sent {A} (m : RM A) (Q : result exn A -> list Sent -> Prop) : Prop :=
  forall r, exists new, log_of (m r).2 = log_of r ++ new /\ Q (m r).1 new.
Definition silent {A} (m : RM A) : Prop := sent m (fun _ new => new = []).

(** ** Rules *)
Lemma sent_mono {A} (m : RM A) (Q Q' : _ -> _ -> Prop) : (forall a new, Q a new -> Q' a new) -> sent m Q -> sent m Q'.
Proof. intros HQ Hm r. destruct (Hm r) as (new & Hl & H'). eauto. Qed.

Lemma sent_ret {A} (a : A) (Q : _ -> _ -> Prop) : Q (Ok a) [] -> sent (ret a) Q.
Proof. intros HQ r. exists []. by rewrite app_nil_r. Qed.
Lemma sent_raise {A} x (Q : result exn A -> _ -> Prop) : Q (Raise x) [] -> sent (raise x) Q.
Proof. intros HQ r. exists []. by rewrite app_nil_r. Qed.
Lemma sent_lift {A} (a : result exn A) (Q : _ -> _ -> Prop) : Q a [] -> sent (lift a) Q.
Proof. intros HQ r. exists []. rewrite app_nil_r. by destruct a. Qed.

Lemma sent_bind {A B} (m : RM A) (k : A -> RM B) (Q1 : _ -> _ -> Prop) (Q2 : _ -> _ -> Prop) :
  sent m Q1 -> (forall x new, Q1 (Raise x) new -> Q2 (Raise x) new) ->
  (forall a new, Q1 (Ok a) new -> sent (k a) (fun b new' => Q2 b (new ++ new'))) -> sent (bindM m k) Q2.
Proof.
  intros Hm Hx Hk r. destruct (Hm r) as (new & Hl & HQ). unfold bindM. destruct (m r) as [[a|x] r']; simpl in *.
  - destruct (Hk a new HQ r') as (new' & Hl' & HQ'). exists (new ++ new'). by rewrite app_assoc, <- Hl.
  - exists new. eauto.
Qed.

(** After something silent. *)
Lemma sent_after {A B} (m : RM A) (k : A -> RM B) (Q : _ -> _ -> Prop) :
  silent m -> (forall x, Q (Raise x) []) -> (forall a, sent (k a) Q) -> sent (bindM m k) Q.
Proof. intros Hm Hx Hk. eapply sent_bind; [exact Hm| |]; simpl; [by intros x new ->|by intros a new ->]. Qed.

Lemma silent_bind {A B} (m : RM A) (k : A -> RM B) : silent m -> (forall a, silent (k a)) -> silent (bindM m k).
Proof. intros Hm Hk. by apply sent_after. Qed.

Lemma sent_getM {A} (k : R -> RM A) (Q : _ -> _ -> Prop) : (forall r, sent (k r) Q) -> sent (bindM getM k) Q.
Proof. intros Hk r. exact (Hk r r). Qed.

Lemma sent_outcome {A} (m : RM A) (Q : _ -> _ -> Prop) : sent m (fun a => Q (Ok a)) -> sent (outcome m) Q.
Proof. intros Hm r. destruct (Hm r) as (new & Hl & HQ). exists new. unfold outcome. by destruct (m r). Qed.

Lemma sent_try {A B} (m : RM A) (k : result exn A -> RM B) (Q1 : result exn A -> list Sent -> Prop) (Q2 : _ -> _ -> Prop) :
  sent m Q1 -> (forall a new, Q1 a new -> sent (k a) (fun b new' => Q2 b (new ++ new'))) -> sent (bindM (outcome m) k) Q2.
Proof.
  intros Hm Hk. apply (sent_bind _ _ (fun a new => match a with Ok a => Q1 a new | Raise _ => False end)); [|done|done].
  by apply sent_outcome.
Qed.

Lemma silent_modify (f : R -> R) : (forall r, rt_net (f r) = rt_net r) -> silent (modifyM f).
Proof. intros Hf r. exists []. unfold modifyM, log_of. simpl. by rewrite Hf, app_nil_r. Qed.

Lemma silent_forM {A} (f : A -> RM unit) l : (forall a, silent (f a)) -> silent (forM_list f l).
Proof. intros Hf. induction l as [|a l IH]; simpl; [by apply sent_ret|by apply silent_bind]. Qed.

Lemma silent_ask {A} (f : W * list Sent -> A * (W * list Sent)) :
  (forall s, (f s).2.2 = s.2) -> silent (ask f).
Proof.
  intros Hf r. exists []. unfold ask, log_of. specialize (Hf (rt_net r)). destruct (f (rt_net r)) as [a w]; simpl in *.
  by rewrite app_nil_r.
Qed.

Ltac quiet_step :=
  lazymatch goal with
  | |- forall _, _ => intros ?
  | |- silent (ret _) => by apply sent_ret
  | |- silent (raise _) => by apply sent_raise
  | |- silent (lift _) => by apply sent_lift
  | |- silent (modifyM _) => by apply silent_modify
  | |- silent (outcome _) => apply sent_outcome
  | |- silent (forM_list _ _) => apply silent_forM
  | |- silent (bindM getM _) => apply sent_getM
  | |- silent (bindM _ _) => apply silent_bind
  | |- silent (match ?x with _ => _ end) => destruct x
  | |- sent ?m _ => change (silent m)
  end.
Ltac quiet := repeat first [solve [auto] | quiet_step].

Lemma silent_apply c : silent (apply_config c).
Proof. unfold apply_config. quiet. Qed.

Lemma silent_awaited : silent awaited.
Proof.
  unfold awaited. apply silent_bind.
  - apply silent_ask. intros [w log]. simpl. by destruct (nt_applied w).
  - intros cs. apply silent_forM. intros c. apply silent_bind; [|by intros; apply sent_ret].
    apply sent_outcome. apply silent_apply.
Qed.

Lemma forM_ok {A} (f : A -> RM unit) l r : (forall a r, (f a r).1 = Ok tt) -> (forM_list f l r).1 = Ok tt.
Proof.
  intros Hf. revert r. induction l as [|a l IH]; intros r; [done|]. cbn [forM_list]. unfold bindM.
  specialize (Hf a r). destruct (f a r) as [b r']. simpl in Hf. by subst b.
Qed.

Lemma awaited_ok r : exists r', awaited r = (Ok tt, r') /\ log_of r' = log_of r.
Proof.
  destruct (silent_awaited r) as (new & Hl & ->). rewrite app_nil_r in Hl.
  enough (H' : (awaited r).1 = Ok tt) by (destruct (awaited r) as [a r'] eqn:Ea; simpl in *; subst a; by exists r').
  unfold awaited. unfold bindM at 1, ask. destruct (nt_applied _) as [cs w]. apply forM_ok. intros c r1.
  unfold bindM, outcome. by destruct (apply_config c r1).
Qed.

Lemma silent_pool a : silent (pool a).
Proof. unfold pool. quiet. Qed.

Lemma silent_clock : silent (ask nt_clock).
Proof. apply silent_ask. intros [w log]. simpl. by destruct (nt_clock w). Qed.

(** A pipeline is recorded with its result, unless the pool has no client. *)
Lemma pipeline_sent a cs :
  sent (pool_pipeline a cs) (fun res new => (exists x, res = Raise x /\ new = []) \/ new = [mkSent a cs res]).
Proof.
  unfold pool_pipeline. apply sent_after; [apply silent_pool|eauto|]. intros p.
  apply sent_after; [by apply silent_modify|eauto|]. intros [] r. unfold bindM, outcome, net, lift. simpl.
  destruct (rt_net r) as [w log] eqn:Er. destruct (nt_pipeline a (cp_next p) cs w) as [res w'].
  destruct (awaited_ok (set_net (w', log ++ [mkSent a cs res]) r)) as (r' & -> & Hl).
  exists [mkSent a cs res]. split; [|by right; destruct res].
  transitivity (log_of r'); [by destruct res|]. rewrite Hl. unfold log_of. by rewrite Er.
Qed.

Lemma silent_owners keys : silent (owners keys).
Proof. induction keys as [|k keys IH]; simpl; unfold owner; quiet. Qed.

Lemma silent_route c : silent (route c).
Proof. unfold route. pose proof silent_owners. unfold check_arity. quiet. Qed.

Lemma silent_address c s b : silent (command_address c s b).
Proof. unfold command_address, address_in. pose proof silent_route. quiet. Qed.

(** ** Accounting *)
Lemma writes_app l l' : writes (l ++ l') = writes l ++ writes l'.
Proof. apply List.filter_app. Qed.
Lemma done_app new new' : done_writes (new ++ new') = done_writes new ++ done_writes new'.
Proof. unfold done_writes. by rewrite bind_app, writes_app. Qed.

#[local] Instance writes_perm : Proper ((≡ₚ) ==> (≡ₚ)) writes.
Proof.
  intros l l' Hp. unfold writes. induction Hp as [|x l l' Hp IH|x y l|l1 l2 l3 _ IH1 _ IH2]; simpl; try done.
  - destruct (counted x); by rewrite IH.
  - destruct (counted x), (counted y); try done. apply Permutation_swap.
  - by rewrite IH1.
Qed.

Lemma writes_sub l l' : l ⊆+ l' -> writes l ⊆+ writes l'.
Proof.
  intros (k & ->)%submseteq_Permutation. rewrite writes_app. by apply submseteq_inserts_r.
Qed.

Lemma read_not_counted c : is_read (P := P) (D := D) (E := E) c = true -> counted c = false.
Proof.
  unfold is_read, counted. destruct c as [|name args]; [done|]. destruct (spec_of _) as [spec|]; [|done].
  by destruct (is_write spec).
Qed.

Lemma reads_not_counted l : forallb (is_read (P := P) (D := D) (E := E)) l = true -> writes l = [].
Proof.
  induction l as [|c l IH]; [done|]. simpl. intros [Hc Hl]%andb_true_iff. rewrite read_not_counted by done. by apply IH.
Qed.

(** Only which replies are refusals matters. *)
Lemma ran_refused commands replies replies' :
  refused <$> replies = refused <$> replies' -> ran commands replies = ran commands replies'.
Proof.
  revert replies replies'. induction commands as [|c commands IH]; intros replies replies' Hr; [done|].
  destruct replies as [|r replies], replies' as [|r' replies']; try done. simpl in *. injection Hr as Hr Hrs.
  rewrite Hr. f_equal. by apply IH.
Qed.

Lemma refused_error r : refused r = true -> is_error r = true.
Proof. destruct r as [| | | |e|]; try done. unfold refused, is_error, isinstance. by destruct (exn_cls e). Qed.

Lemma unconfirmed_refused text commands replies :
  refused <$> unconfirmed (P := P) (D := D) (E := E) (new_exn NotEnoughReplicasError text None) commands replies =
  refused <$> replies.
Proof.
  unfold unconfirmed. rewrite fmap_imap. transitivity (imap (fun _ => refused) replies).
  - apply imap_ext. intros i r _. unfold compose. case_match eqn:Ec; [|done].
    apply andb_true_iff in Ec as [_ Ec]. destruct (refused r) eqn:Hr; [|done]. apply refused_error in Hr. by rewrite Hr in Ec.
  - by rewrite (imap_const refused).
Qed.

Lemma writes_one c : writes [c] = if counted c then [c] else [].
Proof. done. Qed.

Lemma ran_nil commands : ran commands [] = commands.
Proof. induction commands as [|c commands IH]; simpl; by rewrite ?IH. Qed.

Lemma ran_sub commands replies : ran commands replies ⊆+ commands.
Proof.
  revert replies. induction commands as [|c commands IH]; intros [|r replies]; simpl; try done.
  - by rewrite ran_nil.
  - destruct (refused r); simpl; [by apply submseteq_cons|by apply submseteq_skip].
Qed.

Lemma ran_extra w c commands replies : counted w = false ->
  writes (ran (commands ++ [w]) (replies ++ [c])) ⊆+ writes (ran commands replies).
Proof.
  intros Hw. revert replies. induction commands as [|c0 commands IH]; intros replies.
  - assert (Hn : writes (ran ([] ++ [w]) (replies ++ [c])) = []); [|by rewrite Hn; apply submseteq_nil_l].
    destruct replies; cbn [app ran]; rewrite app_nil_r; case_match; try done; cbn; by rewrite Hw.
  - destruct replies as [|r replies]; cbn [app ran].
    + rewrite ran_nil. assert (Hn : writes (commands ++ [w]) = writes commands).
      { rewrite writes_app. cbn. by rewrite Hw, app_nil_r. }
      rewrite writes_app, ran_nil, Hn. change (c0 :: commands) with ([c0] ++ commands). rewrite (writes_app [c0]).
      apply submseteq_app; [|done]. case_match; [apply submseteq_nil_l|done].
    + rewrite !writes_app. by apply submseteq_app.
Qed.

(** The positions whose command was refused. *)
Fixpoint again (idxs : list nat) (replies : list PReply) : list nat :=
  match idxs, replies with
  | i :: idxs', r :: replies' => (if refused r then [i] else []) ++ again idxs' replies'
  | _, _ => []
  end.

Lemma again_sub idxs replies : again idxs replies ⊆+ idxs.
Proof.
  revert replies. induction idxs as [|i idxs IH]; intros [|r replies]; simpl; try apply submseteq_nil_l. 
  destruct (refused r); simpl; [by apply submseteq_skip|by apply submseteq_cons].
Qed.

Lemma take_replies_retry idxs replies s s' :
  take_replies idxs replies s = Ok s' -> sd_retry s' = sd_retry s ++ again idxs replies /\ length idxs = length replies.
Proof.
  revert replies s. induction idxs as [|i idxs IH]; intros [|r replies] s; try done; cbn [take_replies again].
  - intros [= ->]. by rewrite app_nil_r.
  - destruct (take_reply i r s) as [s1|] eqn:Es; [|done]. intros (Hr & Hl)%IH. split; [|simpl; lia].
    rewrite Hr. enough (Hs : sd_retry s1 = sd_retry s ++ (if refused r then [i] else [])) by by rewrite Hs, app_assoc.
    unfold take_reply in Es. destruct r as [| | | |e|]; try (injection Es as <-; simpl; by rewrite app_nil_r).
    unfold refused. destruct (isinstance e AskRedirectError); cbn [orb].
    + destruct (ask_target e); [|done]. by injection Es as <-.
    + destruct (isinstance e ReadOnlyReplicaError || isinstance e TryAgainError); injection Es as <-; simpl; by rewrite ?app_nil_r.
Qed.

(** What ran and what is sent again are the writes that were sent. *)
Lemma ran_again commands idxs replies : length idxs = length replies ->
  writes (ran (pick_commands commands idxs) replies) ++ writes (pick_commands commands (again idxs replies)) ≡ₚ
  writes (pick_commands commands idxs).
Proof.
  revert replies. induction idxs as [|i idxs IH]; intros [|r replies] Hl; try done. simpl in Hl.
  cbn [again]. unfold pick_commands. cbn [fmap list_fmap ran]. rewrite fmap_app, !writes_app.
  specialize (IH replies ltac:(lia)). unfold pick_commands in IH. set (c := default [] (commands !! i)).
  change (writes (c :: ?l)) with (writes ([c] ++ l)). rewrite writes_app, <- IH.
  destruct (refused r); cbn [fmap list_fmap app]; [|by rewrite <- app_assoc].
  fold c. change (writes []) with (@nil (list PyArg)). cbn [app]. apply Permutation_app_swap_app.
Qed.

(** ** The operations *)
Abbreviation exchanged cs := (fun (res : result exn (list PReply)) (new : list Sent) =>
  match res with
  | Ok replies => done_writes new ⊆+ writes (ran cs replies)
  | Raise x => done_writes new ⊆+ writes cs /\ (isinstance x ConnectFailedError = true -> done_writes new = [])
  end).

Lemma done_one a cs res : done_writes [mkSent a cs res] =
  writes (match res with Ok replies => ran cs replies | Raise x => if isinstance x ConnectFailedError then [] else cs end).
Proof. unfold done_writes, executed. cbn. rewrite app_nil_r. by destruct res. Qed.

Lemma pipeline_exchanged a cs cs' : writes cs' = writes cs ->
  sent (pool_pipeline a cs') (fun res new => match res with Ok replies => new = [mkSent a cs' res] | Raise _ => exchanged cs res new end).
Proof.
  intros Hw. eapply sent_mono; [|apply pipeline_sent]. intros res new [(x & -> & ->)| ->].
  - split; [apply submseteq_nil_l|done].
  - destruct res as [replies|x]; [done|]. rewrite done_one. destruct (isinstance x ConnectFailedError).
    + split; [apply submseteq_nil_l|done].
    + by rewrite Hw.
Qed.

Lemma exchange_sent a cs : sent (exchange list_text a cs) (exchanged cs).
Proof.
  unfold exchange. apply sent_getM. intros r. set (needed := rs_wait_replicas _).
  destruct ((needed =? 0) || forallb is_read cs).
  - eapply sent_mono; [|by apply (pipeline_exchanged a cs cs)]. intros [replies|x] new; [|done]. intros ->. by rewrite done_one.
  - set (w := WAIT_command _ _). assert (Hw : counted w = false) by reflexivity.
    assert (Hws : writes (cs ++ [w]) = writes cs) by (by rewrite writes_app, writes_one, Hw, app_nil_r).
    eapply sent_bind; [exact (pipeline_exchanged a cs (cs ++ [w]) Hws)|done|]. intros all new ->.
    assert (Hall : all <> [] -> forall c, last all = Some c ->
      done_writes [mkSent a (cs ++ [w]) (Ok all)] ⊆+ writes (ran cs (removelast all))).
    { intros Hne c Hc. rewrite done_one. destruct all as [|c0 all _] using rev_ind; [done|].
      rewrite removelast_last. by apply ran_extra. }
    destruct (last all) as [c|] eqn:Hl.
    + specialize (Hall ltac:(by intros ->) c eq_refl). case_match; apply sent_ret; rewrite app_nil_r; [done|].
      by rewrite (ran_refused cs (unconfirmed _ _ _) (removelast all)) by apply unconfirmed_refused.
    + apply sent_raise. rewrite app_nil_r. split; [|done]. apply last_None in Hl as ->. rewrite done_one, ran_nil. by rewrite Hws.
Qed.

(** What runs, and what is tried again, of the commands at [idxs]. *)
Definition settled (cmds : list (list PyArg)) (idxs before : list nat) (res : result exn Sending) (new : list Sent) : Prop :=
  done_writes new ⊆+ writes (pick_commands cmds idxs) /\
  forall s', res = Ok s' -> exists more, sd_retry s' = before ++ more /\ more ⊆+ idxs /\
    done_writes new ++ writes (pick_commands cmds more) ⊆+ writes (pick_commands cmds idxs).

Lemma pick_app cmds l l' : writes (pick_commands cmds (l ++ l')) = writes (pick_commands cmds l) ++ writes (pick_commands cmds l').
Proof. unfold pick_commands. by rewrite fmap_app, writes_app. Qed.

Lemma pick_sub cmds l l' : l ⊆+ l' -> writes (pick_commands cmds l) ⊆+ writes (pick_commands cmds l').
Proof. intros Hs. apply writes_sub. by apply (fmap_submseteq _). Qed.

Lemma reads_pick cmds idxs : forallb (is_read (P := P) (D := D) (E := E)) cmds = true -> writes (pick_commands cmds idxs) = [].
Proof.
  intros Hr. induction idxs as [|i idxs IH]; [done|]. change (i :: idxs) with ([i] ++ idxs).
  rewrite pick_app, IH, app_nil_r. change (pick_commands cmds [i]) with [default [] (cmds !! i)]. rewrite writes_one.
  destruct (cmds !! i) as [c|] eqn:Hc; [|done]. cbn [default]. rewrite read_not_counted; [done|].
  rewrite forallb_forall in Hr. apply Hr, list_elem_of_In. by eapply list_elem_of_lookup_2.
Qed.

Lemma exchange_one_sent cmds a idxs s : 
  sent (exchange_one list_text cmds (forallb is_read cmds) a idxs s) (settled cmds idxs (sd_retry s)).
Proof.
  unfold exchange_one, settled. eapply sent_try; [apply exchange_sent|].
  intros [replies|x] new Hq.
  - apply sent_lift. rewrite app_nil_r. split; [etrans; [exact Hq|apply writes_sub, ran_sub]|].
    intros s' (Hr & Hl)%take_replies_retry. exists (again idxs replies). conj; [done|apply again_sub|].
    rewrite <- (ran_again cmds idxs replies Hl). by apply submseteq_app.
  - destruct Hq as [Hq Hnone]. destruct (isinstance x ConnectFailedError) eqn:Hx; [|destruct (isinstance x NodeUnavailableError)].
    + apply sent_ret. rewrite app_nil_r, Hnone by done. split; [apply submseteq_nil_l|]. intros s' [= <-]. by exists idxs.
    + apply sent_ret. rewrite app_nil_r. split; [done|]. intros s' [= <-]. simpl.
      destruct (forallb is_read cmds) eqn:Hr.
      * exists idxs. rewrite (reads_pick cmds idxs Hr) in *. by rewrite app_nil_r.
      * exists []. rewrite app_nil_r. conj; [done|apply submseteq_nil_l|]. cbn. by rewrite app_nil_r.
    + apply sent_raise. by rewrite app_nil_r.
Qed.

Lemma exchange_all_sent cmds by_address s :
  sent (exchange_all list_text cmds (forallb is_read cmds) by_address s)
    (settled cmds (by_address ≫= snd) (sd_retry s)).
Proof.
  unfold settled. revert s. induction by_address as [|[a idxs] rest IH]; intros s; cbn [exchange_all].
  - apply sent_ret. split; [done|]. intros s' [= <-]. exists []. by rewrite app_nil_r.
  - cbn [mbind list_bind]. rewrite pick_app.
    eapply sent_bind; [apply exchange_one_sent| |].
    + intros x new [Hd _]. split; [|done]. by apply submseteq_inserts_r.
    + intros s1 new [Hd Hs]. destruct (Hs s1 eq_refl) as (m1 & Hm1 & Hi1 & Hd1).
      eapply sent_mono; [|apply IH]. intros res new' [Hd' Hs']. rewrite done_app. split; [by apply submseteq_app|].
      intros s2 ->. destruct (Hs' s2 eq_refl) as (m2 & Hm2 & Hi2 & Hd2). exists (m1 ++ m2).
      rewrite Hm2, Hm1, app_assoc, pick_app. conj; [done|by apply submseteq_app|].
      rewrite (app_assoc _ (writes _)), <- (app_assoc (done_writes new)), (Permutation_app_comm (done_writes new')).
      rewrite (app_assoc (done_writes new)), <- app_assoc. by apply submseteq_app.
Qed.

Lemma addresses_sent cmds shard replica redirect todo results by_address :
  sent (addresses cmds shard replica redirect todo results by_address) (fun res new =>
    new = [] /\ forall results' by', res = Ok (results', by') -> by' ≫= snd ⊆+ (by_address ≫= snd) ++ todo).
Proof.
  revert results by_address. induction todo as [|i todo IH]; intros results by_address; cbn [addresses].
  - apply sent_ret. split; [done|]. intros ? ? [= <- <-]. by rewrite app_nil_r.
  - apply sent_after; [|by intros x; split|].
    + pose proof silent_address. quiet.
    + intros [a|x]; (eapply sent_mono; [|apply IH]); intros res new [-> Hb]; (split; [done|]); intros results' by' Hr;
        specialize (Hb results' by' Hr).
      * rewrite bucket_add, <- app_assoc in Hb. exact Hb.
      * etrans; [exact Hb|]. apply submseteq_app; [done|by apply submseteq_cons].
Qed.

Lemma stale_silent : silent (match nt_on_stale with Some refresh => net refresh;; awaited | None => ret tt end).
Proof.
  cbn. destruct nt_on_stale as [m|]; cbn [fmap option_fmap option_map]; [|by apply sent_ret].
  apply silent_bind; [|intros []; apply silent_awaited]. intros r. exists []. unfold net, log_of. rewrite app_nil_r.
  destruct (rt_net r) as [w log]. by destruct (m w).
Qed.

Lemma attempts_sent n k shard cmds replica todo results redirect :
  sent (attempt_loop list_text n k shard cmds (forallb is_read cmds) replica todo results redirect)
    (fun _ new => done_writes new ⊆+ writes (pick_commands cmds todo)).
Proof.
  revert k todo results redirect. induction n as [|n IH]; intros k todo results redirect; cbn [attempt_loop].
  { apply sent_ret. apply submseteq_nil_l. }
  apply sent_after; [pose proof silent_awaited; quiet|intros; apply submseteq_nil_l|intros []].
  eapply sent_bind; [apply addresses_sent|intros x new [-> _]; apply submseteq_nil_l|].
  intros [results1 by_address] new [-> Hb]. specialize (Hb _ _ eq_refl). cbn [mbind list_bind app] in Hb.
  pose proof (pick_sub cmds _ _ Hb) as Hp.
  eapply sent_bind; [apply exchange_all_sent|intros x new [Hd _]; cbn [app]; by etrans|].
  intros s new [_ Hs]. destruct (Hs s eq_refl) as (more & Hm & _ & Hd). cbn [sd_retry app] in Hm. cbn [app].
  rewrite Hp in Hd. destruct (sd_retry s) as [|i retry] eqn:Hr.
  - apply sent_ret. rewrite app_nil_r. etrans; [|exact Hd]. by apply submseteq_inserts_r.
  - apply sent_after.
    + destruct (sd_stale s); [|by apply sent_ret]. apply stale_silent.
    + intros x. rewrite app_nil_r. etrans; [|exact Hd]. by apply submseteq_inserts_r.
    + intros []. eapply sent_mono; [|apply IH]. intros ? new' Hd'. rewrite done_app. etrans; [|exact Hd].
      apply submseteq_app; [done|]. rewrite <- Hm. etrans; [exact Hd'|]. apply pick_sub.
      by rewrite (merge_sort_Permutation le).
Qed.

(** One group's share of a batch. *)
Lemma send_sent shard cmds : sent (send list_text shard cmds) (fun _ new => done_writes new ⊆+ writes cmds).
Proof.
  unfold send, send_with_retries. apply sent_after; [apply silent_clock|intros; apply submseteq_nil_l|intros started].
  eapply (sent_bind _ _ (fun _ new => done_writes new ⊆+ writes cmds)); [|done|].
  - apply sent_getM. intros r. replace (writes cmds) with (writes (pick_commands cmds (seq 0 (length cmds)))); [apply attempts_sent|].
    f_equal. unfold pick_commands. apply list_eq. intros i. rewrite list_lookup_fmap.
    destruct (decide (i < length cmds)%nat) as [Hi|Hi].
    + rewrite lookup_seq_lt by done. cbn. by destruct (lookup_lt_is_Some_2 cmds i Hi) as [c ->].
    + rewrite lookup_seq_ge by lia. by rewrite lookup_ge_None_2 by lia.
  - intros results new Hd. eapply sent_mono; [|apply (silent_bind (ask nt_clock)); [apply silent_clock|]; quiet].
    intros _ new' ->. by rewrite app_nil_r.
Qed.

(** ** A batch *)
Abbreviation answered want n := (fun (res : result exn (list Answer)) (new : list Sent) =>
  done_writes new ⊆+ want /\ forall l, res = Ok l -> length l = n).

Lemma put_replies_length idxs replies (results l : list Answer) :
  put_replies idxs replies results = Ok l -> length l = length results.
Proof.
  revert replies results. induction idxs as [|i idxs IH]; intros [|r replies] results; try done; cbn [put_replies].
  - by intros [= ->].
  - intros ->%IH. apply length_insert.
Qed.

Lemma flush_sent cmds groups results :
  sent (flush_groups list_text cmds groups results) (answered (writes (pick_commands cmds (groups ≫= snd))) (length results)).
Proof.
  revert results. induction groups as [|[shard idxs] rest IH]; intros results; cbn [flush_groups].
  - apply sent_ret. split; [done|]. by intros l [= <-].
  - cbn [mbind list_bind snd]. rewrite pick_app. eapply sent_bind; [apply send_sent| |].
    + intros x new Hd. split; [by apply submseteq_inserts_r|done].
    + intros replies new Hd. destruct (put_replies idxs replies results) as [results'|x] eqn:Ep.
      * unfold bindM at 1, lift at 1. apply put_replies_length in Ep. eapply sent_mono; [|apply IH].
        intros res new' [Hd' Hl]. rewrite done_app, <- Ep. split; [by apply submseteq_app|done].
      * unfold bindM, lift. apply (sent_raise x). rewrite app_nil_r. split; [by apply submseteq_inserts_r|done].
Qed.

Lemma everywhere_sent c groups : counted c = false ->
  sent (send_everywhere list_text c groups) (fun _ new => done_writes new = []).
Proof.
  intros Hc. induction groups as [|g groups IH]; cbn [send_everywhere]; [by apply sent_ret|].
  eapply (sent_bind _ _ (fun _ new => done_writes new = [])); [|done|].
  - eapply sent_mono; [|apply send_sent]. intros ? new Hd. rewrite writes_one, Hc in Hd. by apply submseteq_nil_r.
  - intros replies new Hd. destruct replies as [|r [|r' replies]]; [by apply sent_raise; rewrite app_nil_r| |by apply sent_raise; rewrite app_nil_r].
    eapply sent_bind; [exact IH| |].
    + intros x new' Hd'. by rewrite done_app, Hd, Hd'.
    + intros rest new' Hd'. apply sent_ret. by rewrite app_nil_r, done_app, Hd, Hd'.
Qed.

Lemma fanout_sent c : counted c = false -> sent (fanout list_text c) (fun _ new => done_writes new = []).
Proof.
  intros Hc. unfold fanout. apply sent_getM. intros r. destruct c as [|name args]; [by apply sent_raise|].
  destruct (spec_of _) as [spec|]; [|by apply sent_raise].
  eapply sent_bind; [by apply everywhere_sent|done|]. intros replies new Hd.
  destruct (find is_error replies); [apply sent_ret; by rewrite app_nil_r|].
  destruct (dict_get _ FANOUT); [apply sent_lift|apply sent_raise]; by rewrite app_nil_r.
Qed.

(** A command that goes everywhere is not one of the counted writes. *)
Lemma route_sent c : sent (route c) (fun res new =>
  new = [] /\ forall ro v, res = Ok (Some ro, v) -> ro_fanout ro = true -> counted c = false).
Proof.
  intros r. destruct (silent_route c r) as (new & Hl & ->). exists []. conj; [done|done|]. intros ro v Hr Hf. clear Hl.
  unfold route in Hr. destruct c as [|name args]; [done|]. destruct name as [n| | | |]; try done. cbn [counted str_of_arg].
  destruct (spec_of (str_upper n)) as [spec|]; [|done]. unfold check_arity in Hr. destruct (arity_ok spec args); [|done].
  unfold bindM at 1, ret at 1 in Hr. destruct (bool_decide (STATELESS ∈ _)).
  { unfold bindM, getM, lift in Hr. by destruct (cs_handler spec args _).1. }
  destruct (spec_keys spec args) as [|k keys].
  - destruct (dict_mem (cs_name spec) FANOUT) eqn:Hm; [|done]. by rewrite andb_false_r.
  - destruct (negb _); [done|]. unfold bindM in Hr. destruct (owners _ r) as [[os|x] r']; [|done].
    destruct (remove_dups os) as [|o [|]]; try done. cbn in Hr. injection Hr as <- <-. done.
Qed.

Lemma batch_sent cmds i rest pending results : rest = drop i cmds ->
  sent (run_batch list_text cmds i rest pending results)
    (answered (writes (pick_commands cmds (pending ≫= snd)) ++ writes rest) (length results)).
Proof.
  revert i pending results. induction rest as [|c rest IH]; intros i pending results Hd; cbn [run_batch].
  { rewrite app_nil_r. apply flush_sent. }
  assert (Hc : cmds !! i = Some c /\ rest = drop (S i) cmds).
  { split; [by rewrite <- (Nat.add_0_r i), <- lookup_drop, <- Hd|]. replace (S i) with (i + 1)%nat by lia.
    by rewrite <- drop_drop, <- Hd. }
  destruct Hc as [Hc Hrest]. change (c :: rest) with ([c] ++ rest). rewrite writes_app.
  assert (Hskip : forall res new n, answered (writes (pick_commands cmds (pending ≫= snd)) ++ writes rest) n res new ->
    answered (writes (pick_commands cmds (pending ≫= snd)) ++ writes [c] ++ writes rest) n res new).
  { intros res new n [H1' H2']. split; [|done]. etrans; [exact H1'|]. apply submseteq_app; [done|by apply submseteq_inserts_l]. }
  eapply sent_try; [apply route_sent|]. intros [[[[shard fan ro]|] v]|x] new [-> Hf]; cbn [app].
  - specialize (Hf _ _ eq_refl). cbn [ro_fanout] in Hf. destruct fan; [|destruct shard as [shard|]].
    + specialize (Hf eq_refl). rewrite writes_one, Hf. cbn [app].
      assert (Hgo : sent (bindM (flush_groups list_text cmds pending results) (fun results0 =>
        bindM (fanout list_text c) (fun value => run_batch list_text cmds (S i) rest [] (<[i := value]> results0))))
        (answered (writes (pick_commands cmds (pending ≫= snd)) ++ writes rest) (length results))); [|by destruct shard].
      eapply sent_bind; [apply flush_sent| |].
      * intros x new [Hn _]. split; [by apply submseteq_inserts_r|done].
      * intros results1 new [Hn Hl]. eapply sent_bind; [by apply fanout_sent| |].
        -- intros x new' Hn'. rewrite done_app, Hn', app_nil_r. split; [by apply submseteq_inserts_r|done].
        -- intros value new' Hn'. eapply sent_mono; [|by apply IH]. intros res new2 [H1' H2'].
           rewrite length_insert, (Hl _ eq_refl) in H2'. rewrite !done_app, Hn'. split; [by apply submseteq_app|done].
    + eapply sent_mono; [|by apply IH]. intros res new [H1' H2']. split; [|done]. etrans; [exact H1'|].
      unfold pick_commands. rewrite bucket_add, fmap_app. cbn [fmap list_fmap]. rewrite Hc. cbn [default].
      by rewrite writes_app, <- app_assoc.
    + apply sent_raise. split; [apply submseteq_nil_l|done].
  - eapply sent_mono; [|by apply IH]. intros res new Ha. rewrite length_insert in Ha. by apply Hskip.
  - destruct (isinstance x KVStoreError); [|apply sent_raise; split; [apply submseteq_nil_l|done]].
    eapply sent_mono; [|by apply IH]. intros res new Ha. rewrite length_insert in Ha. by apply Hskip.
Qed.

(** C4. Whatever the nodes answer, when they fail, and whatever configurations
    arrive meanwhile: a batch is answered with one result per command, and of
    its writes to a single group each is run at most once.  The pipelines [new]
    that the batch sends hold, among the commands a node may have run, no more
    than the batch's own writes. *)
Theorem batch_writes_at_most_once commands (r : R) :
  let '(answers, r') := execute_batch list_text commands r in
  exists new, log_of r' = log_of r ++ new /\
    writes (new ≫= executed) ⊆+ writes commands /\
    forall l, answers = Ok l -> length l = length commands.
Proof.
  assert (Hs : sent (execute_batch list_text commands) (answered (writes commands) (length commands))).
  { unfold execute_batch. apply sent_after; [apply silent_forM; intros c; by apply silent_modify| |].
    - intros x. split; [apply submseteq_nil_l|done].
    - intros []. eapply sent_mono; [|by apply batch_sent]. intros res new. cbn [mbind list_bind pick_commands fmap list_fmap].
      by rewrite length_replicate. }
  destruct (Hs r) as (new & Hl & Hd & Hn). destruct (execute_batch list_text commands r) as [a r']. by exists new.
Qed.
End Spec.
