(* ===== verification/ClusterManager.v ===== *)
(** * The cluster manager (cluster/manager.py)

    Heartbeats, failover, reconciliation and the rebalance.  The nodes and the
    clocks are a [ManagerNet]; the coroutines run under the manager's lock, so a
    round or a failover is one operation.  The rebalance gives the lock up between
    its steps: it is three operations, and rounds may come between them.  The task
    that saves the configuration is cut at its writes. *)

From Stdlib Require Import String.
From S2P Require Import Prelude PyStr PyFloat Errors Codec Oracles Store Snapshot Registry Json Disk Replies Client ReplicaLink HashRing.
From S2P Require Import Migration ShardNode Topology.
Local Close Scope string_scope.

(** ** [parse_info] *)
Definition is_line_break (c : Z) : bool :=
  between 10 13 c || between 28 30 c || (c =? 133) || (c =? 8232) || (c =? 8233).

(** [s.splitlines()]; [line] is what was read of the line, backwards. *)
Fixpoint splitlines (line s : pystr) : list pystr :=
  match s with
  | [] => match line with [] => [] | _ => [reverse line] end
  | 13 :: 10 :: s' => reverse line :: splitlines [] s'
  | c :: s' => if is_line_break c then reverse line :: splitlines [] s' else splitlines (c :: line) s'
  end.

Definition parse_info (text : pystr) : list (pystr * pystr) :=
  foldl (fun fields line =>
           let '(key, sep, value) := partition 58 line in
           if sep && negb (starts_with [35] line)
           then dict_set (strip is_text_space key) (strip is_text_space value) fields else fields)
    [] (splitlines [] text).

(** ** State *)
Inductive Health := Healthy | Suspect | Dead.

#[export] Instance Health_eq_dec : EqDecision Health.
Proof. solve_decision. Defined.

(** By address; the objects are shared by address. *)
Record NodeHealth := mkHealth {
  nh_state : Health;
  nh_last_ok : float;
  nh_role : option pystr;
  nh_offset : Z;
  nh_epoch : Z;
  nh_replicating : option pystr;
  nh_link_up : bool;
  nh_error : option pystr
}.

Definition new_health (now : float) : NodeHealth := mkHealth Healthy now None 0 0 None false None.

Record FailoverEvent := mkEvent {
  ev_shard : pystr; ev_old_primary : pystr; ev_new_primary : pystr; ev_epoch : Z; ev_reason : pystr;
  ev_detected_after : float; ev_promoted_at : float; ev_offsets : list (pystr * Z)
}.

Record ManagerSettings := mkManagerSettings {
  ms_saves : bool;  (* [config_path] is set *)
  ms_suspect_after_s : float;
  ms_dead_after_s : float;
  ms_failover_enabled : bool
}.

(** The task that saves: none or done, created, or writing a configuration. *)
Inductive Saving := NotSaving | SaveStarts | SaveWrites (c : ClusterConfig).

Record ClusterManager (W : Type) := mkManager {
  cm_config : ClusterConfig;
  cm_settings : ManagerSettings;
  cm_health : list (pystr * NodeHealth);
  cm_events : list FailoverEvent;
  cm_clients : list (pystr * KVClient);
  cm_saved : option ClusterConfig;
  cm_saving : Saving;
  cm_net : W
}.
Arguments mkManager {W}. Arguments cm_config {W}. Arguments cm_settings {W}. Arguments cm_health {W}.
Arguments cm_events {W}. Arguments cm_clients {W}. Arguments cm_saved {W}. Arguments cm_saving {W}. Arguments cm_net {W}.

(** [mn_execute]: [KVClient.execute] at an address; [mn_on_change]: the callback;
    [mn_monotonic] and [mn_time]: the clocks. *)
Class ManagerNet (W : Type) := {
  mn_execute : pystr -> list PyArg -> M exn W PReply;
  mn_on_change : ClusterConfig -> M exn W unit;
  mn_monotonic : W -> float * W;
  mn_time : W -> float * W
}.

Section Setters.
Context {W : Type}.
Implicit Types m : ClusterManager W.

Definition put_config c m := mkManager c (cm_settings m) (cm_health m) (cm_events m) (cm_clients m) (cm_saved m)
  (cm_saving m) (cm_net m).
Definition put_health h m := mkManager (cm_config m) (cm_settings m) h (cm_events m) (cm_clients m) (cm_saved m)
  (cm_saving m) (cm_net m).
Definition put_events e m := mkManager (cm_config m) (cm_settings m) (cm_health m) e (cm_clients m) (cm_saved m)
  (cm_saving m) (cm_net m).
Definition put_clients k m := mkManager (cm_config m) (cm_settings m) (cm_health m) (cm_events m) k (cm_saved m)
  (cm_saving m) (cm_net m).
Definition put_saving s t m := mkManager (cm_config m) (cm_settings m) (cm_health m) (cm_events m) (cm_clients m) s t
  (cm_net m).
Definition put_net (w : W) m : ClusterManager W := mkManager (cm_config m) (cm_settings m) (cm_health m) (cm_events m) (cm_clients m) (cm_saved m)
  (cm_saving m) w.
End Setters.

Section Manager.
Context {W : Type} `{!ManagerNet W}.
Abbreviation MM := (M exn (ClusterManager W)).
Implicit Types (address : pystr).

Definition new_manager (config : ClusterConfig) (settings : ManagerSettings) (w : W) : ClusterManager W :=
  mkManager config settings [] [] [] None NotSaving w.

Definition mnet {A} (c : M exn W A) : MM A := fun m => let '(a, w) := c (cm_net m) in (a, put_net w m).
Definition mask {A} (f : W -> A * W) : MM A := fun m => let '(a, w) := f (cm_net m) in (Ok a, put_net w m).

(** What came of a call, exception or not. *)
Definition result_of {A} (c : MM A) : MM (result exn A) := fun m => let '(a, m') := c m in (Ok a, m').

(** ** The configuration and its file *)
Definition adopt_config (config : ClusterConfig) : MM unit :=
  modifyM (put_config config);;
  mnet (mn_on_change config);;
  modifyM (fun m => match ms_saves (cm_settings m), cm_saving m with
                    | true, NotSaving => put_saving (cm_saved m) SaveStarts m
                    | _, _ => m
                    end).

(** [_save_latest] up to the next write: [while self._saved is not self.config]. *)
Definition save_next (m : ClusterManager W) : ClusterManager W :=
  put_saving (cm_saved m)
    (if bool_decide (cm_saved m = Some (cm_config m)) then NotSaving else SaveWrites (cm_config m)) m.

(** The task takes its first step. *)
Definition save_start (m : ClusterManager W) : ClusterManager W :=
  match cm_saving m with SaveStarts => save_next m | _ => m end.

(** A write ends, or failed with an [OSError]. *)
Definition save_done (written : bool) (m : ClusterManager W) : ClusterManager W :=
  match cm_saving m with
  | SaveWrites c => if written then save_next (put_saving (Some c) (cm_saving m) m) else put_saving (cm_saved m) NotSaving m
  | _ => m
  end.

(** ** Nodes *)
Definition node_client address : MM unit :=
  let! m := getM in
  match dict_get address (cm_clients m) with
  | Some _ => ret tt
  | None =>
      let! c := lift (from_address address) in
      modifyM (fun m => put_clients (dict_set address c (cm_clients m)) m)
  end.

Definition execute_at address (args : list PyArg) : MM PReply :=
  node_client address;; mnet (mn_execute address args).

(** [_command]: an error is logged. *)
Definition manager_command address (args : list PyArg) : MM unit :=
  catchM (let! _ := execute_at address args in ret tt) (fun x => isinstance x KVStoreError) (fun _ => ret tt).

Definition update_health address (f : NodeHealth -> NodeHealth) : MM unit :=
  modifyM (fun m => match dict_get address (cm_health m) with
                    | Some h => put_health (dict_set address (f h) (cm_health m)) m
                    | None => m
                    end).

(** [int(info.get(key, 0))]. *)
Definition info_int (key : pystr) (info : list (pystr * pystr)) : result exn Z :=
  match dict_get key info with
  | None => Ok 0
  | Some text => match py_int text with Some n => Ok n | None => Raise (err ValueError "invalid literal for int()") end
  end.

Definition info_or_none (key : pystr) (info : list (pystr * pystr)) : pystr := default (lit "None") (dict_get key info).

(** How long a node has been silent decides its state. *)
Definition silence (settings : ManagerSettings) (silent : float) (message : pystr) (h : NodeHealth) : NodeHealth :=
  mkHealth (if fle (ms_dead_after_s settings) silent then Dead
            else if fle (ms_suspect_after_s settings) silent then Suspect else nh_state h)
    (nh_last_ok h) (nh_role h) (nh_offset h) (nh_epoch h) (nh_replicating h) (nh_link_up h) (Some message).

Definition set_alive (now : float) (role : option pystr) (h : NodeHealth) : NodeHealth :=
  mkHealth Healthy now role (nh_offset h) (nh_epoch h) (nh_replicating h) (nh_link_up h) None.
Definition set_health_epoch (e : Z) (h : NodeHealth) : NodeHealth :=
  mkHealth (nh_state h) (nh_last_ok h) (nh_role h) (nh_offset h) e (nh_replicating h) (nh_link_up h) (nh_error h).
Definition set_progress (offset : Z) (replicating : option pystr) (up : bool) (h : NodeHealth) : NodeHealth :=
  mkHealth (nh_state h) (nh_last_ok h) (nh_role h) offset (nh_epoch h) replicating up (nh_error h).
Definition set_role (role : pystr) (h : NodeHealth) : NodeHealth :=
  mkHealth (nh_state h) (nh_last_ok h) (Some role) (nh_offset h) (nh_epoch h) (nh_replicating h) (nh_link_up h) (nh_error h).

Definition slave : pystr := lit "slave".

(** The answer to a heartbeat. *)
Definition take_info address (info : list (pystr * pystr)) : MM unit :=
  let! now := mask mn_monotonic in
  let role := dict_get (lit "role") info in
  update_health address (set_alive now role);;
  let! epoch := lift (info_int (lit "epoch") info) in
  update_health address (set_health_epoch epoch);;
  if bool_decide (role = Some slave) then
    let! offset := lift (info_int (lit "slave_repl_offset") info) in
    update_health address
      (set_progress offset (Some (info_or_none (lit "master_host") info ++ 58 :: info_or_none (lit "master_port") info))
         (bool_decide (dict_get (lit "master_link_status") info = Some (lit "up"))))
  else
    let! offset := lift (info_int (lit "master_repl_offset") info) in
    update_health address (set_progress offset None false).

Definition probe address : MM bool :=
  let! now := mask mn_monotonic in
  modifyM (fun m => match dict_get address (cm_health m) with
                    | Some _ => m
                    | None => put_health (dict_set address (new_health now) (cm_health m)) m
                    end);;
  node_client address;;
  let! answer := result_of (mnet (mn_execute address [AStr (lit "INFO"); AStr (lit "replication")])) in
  match answer with
  | Raise x =>
      if isinstance x KVStoreError then
        let! now := mask mn_monotonic in
        let! m := getM in
        update_health address (fun h => silence (cm_settings m) (fsub now (nh_last_ok h)) (exn_msg x) h);;
        ret false
      else raise x
  | Ok (PText text) | Ok (PStatus text) => take_info address (parse_info text);; ret true
  | Ok _ => raise (err AttributeError "object has no attribute 'splitlines'")
  end.

Definition manager_is_healthy address (m : ClusterManager W) : bool :=
  match dict_get address (cm_health m) with
  | Some h => bool_decide (nh_state h = Healthy) && (negb (bool_decide (nh_role h = Some slave)) || nh_link_up h)
  | None => false
  end.

(** ** Reconciliation *)
Definition REPLICAOF (host port : PyArg) (epoch : Z) : list PyArg :=
  [AStr (lit "REPLICAOF"); host; port; AStr (lit "EPOCH"); AInt epoch].
Definition promote (epoch : Z) : list PyArg := REPLICAOF (AStr (lit "NO")) (AStr (lit "ONE")) epoch.

Definition reconcile_replica (g : ShardGroup) (epoch : Z) address : MM unit :=
  let '(host, _, port) := rpartition 58 (sg_primary g) in
  let! m := getM in
  match dict_get address (cm_health m) with
  | Some h =>
      if bool_decide (nh_state h = Healthy) &&
         (negb (bool_decide (nh_role h = Some slave)) || negb (bool_decide (nh_replicating h = Some (sg_primary g))))
      then manager_command address (REPLICAOF (AStr host) (AStr port) epoch)
      else ret tt
  | None => ret tt
  end.

Definition reconcile (g : ShardGroup) : MM unit :=
  let! m := getM in
  let epoch := cc_epoch (cm_config m) in
  (match dict_get (sg_primary g) (cm_health m) with
   | Some h => if bool_decide (nh_state h = Healthy) && bool_decide (nh_role h = Some slave)
               then manager_command (sg_primary g) (promote epoch) else ret tt
   | None => ret tt
   end);;
  forM_list (reconcile_replica g epoch) (sg_replicas g).

(** ** Failover *)
Definition health_of address (m : ClusterManager W) : NodeHealth := default (new_health fzero) (dict_get address (cm_health m)).

Definition candidates (g : ShardGroup) (m : ClusterManager W) : list pystr :=
  List.filter (fun a => match dict_get a (cm_health m) with
                        | Some h => bool_decide (nh_state h = Healthy) && bool_decide (nh_role h = Some slave)
                        | None => false
                        end) (sg_replicas g).

(** [max(candidates, key=offset)]: the first of the largest. *)
Fixpoint best (offset : pystr -> Z) (winner : pystr) (l : list pystr) : pystr :=
  match l with
  | [] => winner
  | a :: l' => best offset (if offset winner <? offset a then a else winner) l'
  end.

(** [_let_replicas_catch_up]; [rounds] is more than the deadline leaves time for. *)
Fixpoint catch_up_loop (rounds : nat) (deadline : float) (g : ShardGroup) (who : list pystr) : MM unit :=
  match rounds with
  | O => ret tt
  | S n =>
      let! now := mask mn_monotonic in
      if flt now deadline then
        forM_list (fun a => let! _ := probe a in ret tt) (members g);;
        let! m := getM in
        if existsb (fun a => nh_offset (health_of (sg_primary g) m) <=? nh_offset (health_of a m)) who then ret tt
        else catch_up_loop n deadline g who
      else ret tt
  end.

Definition let_replicas_catch_up (rounds : nat) (g : ShardGroup) (who : list pystr) : MM unit :=
  let! now := mask mn_monotonic in
  catch_up_loop rounds (fadd now (float_of_Z 1)) g who.

(** What a promotion that was accepted changes. *)
Definition record_failover (g : ShardGroup) (reason : pystr) (who : list pystr) (winner : pystr) (epoch : Z) : MM FailoverEvent :=
  let! m := getM in
  let! config := lift (with_group (mkGroup (sg_id g) winner
                         (List.filter (fun a => negb (bool_decide (a = winner))) (members g))) (cm_config m)) in
  adopt_config config;;
  let! now := mask mn_monotonic in
  let! wall := mask mn_time in
  let! m := getM in
  let event := mkEvent (sg_id g) (sg_primary g) winner epoch reason
                 (match dict_get (sg_primary g) (cm_health m) with
                  | Some old => fsub now (nh_last_ok old)
                  | None => fzero
                  end) wall ((fun a => (a, nh_offset (health_of a m))) <$> who) in
  modifyM (fun m => put_events (cm_events m ++ [event]) m);;
  update_health winner (set_role (lit "master"));;
  ret event.

Definition failover_group (g : ShardGroup) (reason : pystr) (graceful : option nat) : MM (option FailoverEvent) :=
  let! m := getM in
  let who := candidates g m in
  match who with
  | [] => ret None
  | first :: others =>
      (match graceful with Some rounds => let_replicas_catch_up rounds g who | None => ret tt end);;
      let! m := getM in
      let winner := best (fun a => nh_offset (health_of a m)) first others in
      let epoch := cc_epoch (cm_config m) + 1 in
      let! answer := result_of (execute_at winner (promote epoch)) in
      match answer with
      | Raise x => if isinstance x KVStoreError then ret None else raise x
      | Ok _ =>
          let! event := record_failover g reason who winner epoch in
          let! m := getM in
          let! g' := lift (group (sg_id g) (cm_config m)) in
          reconcile g';;
          ret (Some event)
      end
  end.

(** [failover], requested. *)
Definition failover (shard reason : pystr) (rounds : nat) : MM FailoverEvent :=
  let! m := getM in
  let! g := lift (group shard (cm_config m)) in
  let! event := failover_group g reason (Some rounds) in
  match event with
  | Some e => ret e
  | None => raise (new_exn ClusterError (lit "no healthy replica to promote in " ++ quoted shard) None)
  end.

(** ** A round *)
Definition tick_group (g : ShardGroup) : MM unit :=
  let! m := getM in
  match dict_get (sg_primary g) (cm_health m) with
  | None => raise (new_exn KeyError (sg_primary g) None)
  | Some h =>
      if bool_decide (nh_state h = Dead) && ms_failover_enabled (cm_settings m)
      then let! _ := failover_group g (lit "primary unreachable") None in ret tt
      else let! g' := lift (group (sg_id g) (cm_config m)) in reconcile g'
  end.

Definition tick : MM unit :=
  let! m := getM in
  forM_list (fun a => let! _ := probe a in ret tt) (all_members (cc_shards (cm_config m)));;
  forM_list tick_group (cc_shards (cm_config m)).

(** ** Rebalance *)

(** The local variables of [_rebalance]. *)
Record Rebalancing := mkRebalancing {
  rb_target : list pystr;
  rb_sources : list pystr;
  rb_sent : list (pystr * (pystr * MigrationPlan));
  rb_base : list (pystr * Z);
  rb_moved : list (pystr * Z)
}.

Definition from_keys {A} (v : A) (keys : list pystr) : list (pystr * A) := foldl (fun d k => dict_set k v d) [] keys.

(** The check before the lock is asked for, and what is done under it. *)
Definition rebalance_check : MM unit :=
  let! m := getM in
  match cc_rebalance (cm_config m) with
  | Some _ => raise (err ClusterError "a rebalance is already in progress")
  | None => ret tt
  end.

Definition rebalance_set (target : list pystr) : MM Rebalancing :=
  let! m := getM in
  let c := cm_config m in
  let! config := lift (next_epoch (cc_shards c) (Some target) (cc_ring_ids c) c) in
  adopt_config config;;
  let! m := getM in
  let sources := cc_ring_ids (cm_config m) in
  ret (mkRebalancing target sources [] (from_keys 0 sources) (from_keys 0 sources)).

(** [{t: self.config.group(t).primary for t in target}]. *)
Fixpoint plan_targets (config : ClusterConfig) (target : list pystr) (d : list (pystr * pystr)) :
    result exn (list (pystr * pystr)) :=
  match target with
  | [] => Ok d
  | t :: target' => let? g := group t config in plan_targets config target' (dict_set t (sg_primary g) d)
  end.

Definition CLUSTER (l : list PyArg) : list PyArg := AStr (lit "CLUSTER") :: AStr (lit "REBALANCE") :: l.

(** [state, count, error = ...], and [int(count)]. *)
Definition poll_reply (r : PReply) : result exn (PReply * PReply * PReply) :=
  match r with
  | PArray [state; count; error] => Ok (state, count, error)
  | _ => Raise (err ValueError "not enough values to unpack")
  end.
Definition reply_int (r : PReply) : result exn Z :=
  match r with
  | PInt n => Ok n
  | PText s | PStatus s => match py_int s with Some n => Ok n | None => Raise (err ValueError "invalid literal for int()") end
  | _ => Raise (err TypeError "int() argument must be a string or a number")
  end.
Definition reply_is (text : pystr) (r : PReply) : bool :=
  match r with PText s | PStatus s => bool_decide (s = text) | _ => false end.

Abbreviation PM := (M exn (Rebalancing * ClusterManager W)).
Definition on_manager {A} (c : MM A) : PM A := fun '(b, m) => let '(a, m') := c m in (a, (b, m')).

Definition add_base (shard : pystr) (n : Z) : PM unit := modifyM (fun '(b, m) =>
  (mkRebalancing (rb_target b) (rb_sources b) (rb_sent b)
     (dict_set shard (default 0 (dict_get shard (rb_base b)) + n) (rb_base b)) (rb_moved b), m)).
Definition set_sent (shard : pystr) (p : pystr * MigrationPlan) : PM unit := modifyM (fun '(b, m) =>
  (mkRebalancing (rb_target b) (rb_sources b) (dict_set shard p (rb_sent b)) (rb_base b) (rb_moved b), m)).
Definition set_moved (shard : pystr) (n : Z) : PM unit := modifyM (fun '(b, m) =>
  (mkRebalancing (rb_target b) (rb_sources b) (rb_sent b) (rb_base b)
     (dict_set shard (default 0 (dict_get shard (rb_base b)) + n) (rb_moved b)), m)).

(** A source's status; [None] when it was (re)started instead. *)
Definition poll_source (shard primary : pystr) (plan : MigrationPlan) : PM (option (PReply * PReply * PReply)) :=
  let! r := on_manager (execute_at primary (CLUSTER [AStr (lit "STATUS")])) in
  let! (state, count, error) := lift (poll_reply r) in
  let! (b, _) := getM in
  if bool_decide (dict_get shard (rb_sent b) = Some (primary, plan)) then ret (Some (state, count, error))
  else
    (if reply_is (lit "idle") state then ret tt
     else
       let! _ := on_manager (execute_at primary (CLUSTER [AStr (lit "STOP")])) in
       let! n := lift (reply_int count) in
       add_base shard n);;
    let! _ := on_manager (execute_at primary (CLUSTER (plan_to_args plan))) in
    set_sent shard (primary, plan);;
    ret None.

(** One source in a round: is it done?  An error that is not a text is left out
    of the message. *)
Definition poll_shard (shard : pystr) : PM bool :=
  let! (b, m) := getM in
  let config := cm_config m in
  let! g := lift (group shard config) in
  let! targets := lift (plan_targets config (rb_target b) []) in
  let plan := mkPlan shard (cc_virtual_nodes config) targets in
  on_manager (node_client (sg_primary g));;
  let! status := catchM (poll_source shard (sg_primary g) plan) (fun x => isinstance x KVStoreError) (fun _ => ret None) in
  match status with
  | None => ret false
  | Some (state, count, error) =>
      if reply_is (lit "failed") state
      then raise (new_exn ClusterError (lit "moving keys off " ++ quoted shard ++ lit " failed: " ++
                                        match error with PText s | PStatus s => s | _ => [] end) None)
      else
        let! n := lift (reply_int count) in
        set_moved shard n;;
        ret (reply_is (lit "done") state)
  end.

(** The new ring, then the redirects stop. *)
Definition stop_source (kept : list ShardGroup) (b : Rebalancing) (shard : pystr) : MM unit :=
  let! owner := match find (fun g => bool_decide (sg_id g = shard)) kept with
                | Some g => ret (sg_primary g)
                | None => match dict_get shard (rb_sent b) with
                          | Some (a, _) => ret a
                          | None => raise (new_exn KeyError shard None)
                          end
                end in
  manager_command owner (CLUSTER [AStr (lit "STOP")]).

Definition rebalance_finish (b : Rebalancing) : MM (list (pystr * Z)) :=
  let! m := getM in
  let c := cm_config m in
  let kept := List.filter (fun g => bool_decide (sg_id g ∈ rb_target b)) (cc_shards c) in
  let! config := lift (next_epoch kept None (rb_target b) c) in
  adopt_config config;;
  forM_list (stop_source kept b) (rb_sources b);;
  ret (rb_moved b).

(** [add_group] before and under the lock, and [remove_group]; each goes on with
    [_rebalance] of the ring it returns. *)
Definition add_group_check (g : ShardGroup) : MM unit :=
  let! m := getM in
  if bool_decide (sg_id g ∈ group_ids (cc_shards (cm_config m)))
  then raise (new_exn ClusterError (lit "shard group " ++ quoted (sg_id g) ++ lit " already exists") None)
  else
    let! answered := probe (sg_primary g) in
    if answered : bool then ret tt
    else raise (new_exn ClusterError (sg_primary g ++ lit " is not reachable") None).

Definition add_group_set (g : ShardGroup) : MM (list pystr) :=
  let! m := getM in
  let c := cm_config m in
  let! config := lift (next_epoch (cc_shards c ++ [g]) (cc_rebalance c) (cc_ring_ids c) c) in
  adopt_config config;;
  let! m := getM in
  ret (cc_ring_ids (cm_config m) ++ [sg_id g]).

Definition remove_group (shard : pystr) : MM (list pystr) :=
  let! m := getM in
  let! _ := lift (group shard (cm_config m)) in
  let remaining := List.filter (fun s => negb (bool_decide (s = shard))) (cc_ring_ids (cm_config m)) in
  if bool_decide (remaining = []) then raise (err ClusterError "cannot remove the last shard group") else ret remaining.

(** ** The manager with its requests

    [add_group], [remove_group] and the rebalance they start are tasks: one waits
    for the lock, or polls the sources one after another. *)
Inductive Task :=
| TAdd (g : ShardGroup)
| TSet (target : list pystr)
| TPoll (b : Rebalancing) (rest : list pystr) (finished : nat)
| TFinish (b : Rebalancing).

Record System := mkSystem { sy_tasks : list Task; sy_manager : ClusterManager W }.

(** [_rebalance] up to the lock, of the ring that was worked out. *)
Definition then_check (c : MM (list pystr)) : MM (list pystr) := let! target := c in rebalance_check;; ret target.

(** After a poll: the next source, the next round, or the end. *)
Definition next_poll (b : Rebalancing) (rest : list pystr) (finished : nat) : Task :=
  match rest with
  | [] => if (finished =? length (rb_sources b))%nat then TFinish b else TPoll b (rb_sources b) 0
  | _ => TPoll b rest finished
  end.

(** A task's next step; an exception ends it. *)
Definition task_step (t : Task) (m : ClusterManager W) : option Task * ClusterManager W :=
  match t with
  | TAdd g =>
      let '(r, m) := then_check (add_group_set g) m in (match r with Ok target => Some (TSet target) | Raise _ => None end, m)
  | TSet target =>
      let '(r, m) := rebalance_set target m in
      (match r with Ok b => Some (TPoll b (rb_sources b) 0) | Raise _ => None end, m)
  | TPoll b [] n => (Some (next_poll b [] n), m)
  | TPoll b (s :: rest) n =>
      let '(r, (b, m)) := poll_shard s (b, m) in
      (match r with Ok f => Some (next_poll b rest (if f : bool then S n else n)) | Raise _ => None end, m)
  | TFinish b => (None, (rebalance_finish b m).2)
  end.

Inductive mstep : System -> System -> Prop :=
| s_tick ts m : mstep (mkSystem ts m) (mkSystem ts (tick m).2)
| s_failover ts m shard reason rounds : mstep (mkSystem ts m) (mkSystem ts (failover shard reason rounds m).2)
| s_add ts m g : mstep (mkSystem ts m)
    (let '(r, m') := add_group_check g m in mkSystem (match r with Ok _ => ts ++ [TAdd g] | Raise _ => ts end) m')
| s_remove ts m shard : mstep (mkSystem ts m)
    (let '(r, m') := then_check (remove_group shard) m in
     mkSystem (match r with Ok target => ts ++ [TSet target] | Raise _ => ts end) m')
| s_task ts1 t ts2 m : mstep (mkSystem (ts1 ++ t :: ts2) m)
    (let '(t', m') := task_step t m in mkSystem (ts1 ++ option_list t' ++ ts2) m')
| s_save_start ts m : mstep (mkSystem ts m) (mkSystem ts (save_start m))
| s_save_done ts m written : mstep (mkSystem ts m) (mkSystem ts (save_done written m)).
End Manager.
