(* ===== verification/ClusterSpec.v ===== *)
(** * What the cluster manager keeps

    Every configuration it adopts is well formed and one epoch after the last; a
    failover promotes the replica that has most and moves no key.  Then runs of
    the manager over real nodes. *)

From Stdlib Require Import String.
From S2P Require Import Prelude PyStr PyFloat Errors Codec Oracles Store Snapshot Registry Json Disk Replies Client.
From S2P Require Import ReplicaLink HashRing Metrics Migration ShardNode ReplSystem ReplSpec Topology ClusterManager.
Local Close Scope string_scope.

(** Configurations, each one epoch after the one before. *)
Fixpoint chain (c : ClusterConfig) (l : list ClusterConfig) : Prop :=
  match l with
  | [] => True
  | c' :: l' => config_ok c' /\ cc_epoch c' = cc_epoch c + 1 /\ chain c' l'
  end.
Definition newest (c : ClusterConfig) (l : list ClusterConfig) : ClusterConfig := default c (last l).

Lemma newest_app c l l' : newest c (l ++ l') = newest (newest c l) l'.
Proof. unfold newest. rewrite last_app. by destruct (last l'). Qed.

Lemma newest_cons c c' l : newest c (c' :: l) = newest c' l.
Proof. exact (newest_app c [c'] l). Qed.

Lemma chain_app c l l' : chain c l -> chain (newest c l) l' -> chain c (l ++ l').
Proof.
  revert c. induction l as [|c1 l IH]; intros c; [done|]. rewrite newest_cons. cbn [chain app].
  intros (H1 & H2 & H3) H'. conj; [done|done|by apply IH].
Qed.

Lemma chain_newest c l : config_ok c -> chain c l -> config_ok (newest c l).
Proof.
  revert c. induction l as [|c1 l IH]; intros c Hc; [done|]. rewrite newest_cons. cbn [chain]. intros (H1 & _ & H3). by apply IH.
Qed.

(** ** Watching what is handed over *)
#[export] Instance handed {W} `{!ManagerNet W} : ManagerNet (W * list ClusterConfig) := {|
  mn_execute a args := fun '(w, log) => let '(r, w') := mn_execute a args w in (r, (w', log));
  mn_on_change c := fun '(w, log) => let '(r, w') := mn_on_change c w in (r, (w', log ++ [c]));
  mn_monotonic := fun '(w, log) => let '(t, w') := mn_monotonic w in (t, (w', log));
  mn_time := fun '(w, log) => let '(t, w') := mn_time w in (t, (w', log))
|}.

Section Spec.
Context {W : Type} `{!ManagerNet W}.
Abbreviation CM := (ClusterManager (W * list ClusterConfig)).
Abbreviation MM := (M exn CM).

Definition given (m : CM) : list ClusterConfig := (cm_net m).2.

(** From [m] to [m'], the configurations adopted are a chain and were handed over. *)
Definition moves (m m' : CM) : Prop :=
  exists new, given m' = given m ++ new /\ chain (cm_config m) new /\ cm_config m' = newest (cm_config m) new.
Definition adopts {A} (c : MM A) : Prop := forall m, moves m (c m).2.

(** Nothing of it changes. *)
Definition still (m m' : CM) : Prop := cm_config m' = cm_config m /\ given m' = given m.
Definition steady {A} (c : MM A) : Prop := forall m, still m (c m).2.

#[local] Instance moves_preorder : PreOrder moves.
Proof.
  split.
  - intros m. exists []. by rewrite app_nil_r.
  - intros m1 m2 m3 (n1 & G1 & C1 & E1) (n2 & G2 & C2 & E2). exists (n1 ++ n2). rewrite G2, G1, app_assoc. conj; [done| |].
    + apply chain_app; [done|]. by rewrite <- E1.
    + by rewrite E2, E1, newest_app.
Qed.
#[local] Instance still_preorder : PreOrder still.
Proof. split; [done|]. intros m1 m2 m3 [A1 B1] [A2 B2]. split; congruence. Qed.

Lemma still_moves m m' : still m m' -> moves m m'.
Proof. intros [Hc Hg]. exists []. by rewrite app_nil_r. Qed.

Lemma steady_adopts {A} (c : MM A) : steady c -> adopts c.
Proof. intros Hc m. apply still_moves, Hc. Qed.

(** ** Rules, for both and for the state of a poll *)
Section Rules.
Context {S : Type} (I : S -> S -> Prop) `{!PreOrder I}.
Definition within {A} (c : M exn S A) : Prop := forall s, I s (c s).2.

Lemma within_bind {A B} (c : M exn S A) (k : A -> M exn S B) :
  within c -> (forall a, within (k a)) -> within (bindM c k).
Proof.
  intros Hc Hk s. specialize (Hc s). unfold bindM. destruct (c s) as [[a|x] s']; [|done]. etrans; [exact Hc|apply Hk].
Qed.
Lemma within_ret {A} (a : A) : within (ret a).
Proof. intros s. done. Qed.
Lemma within_raise {A} x : within (A := A) (raise x).
Proof. intros s. done. Qed.
Lemma within_lift {A} (a : result exn A) : within (lift a).
Proof. intros s. by destruct a. Qed.
Lemma within_getM {A} (k : S -> M exn S A) : (forall s, within (k s)) -> within (bindM getM k).
Proof. intros Hk s. apply (Hk s). Qed.
Lemma within_forM {A} (f : A -> M exn S unit) l : (forall a, within (f a)) -> within (forM_list f l).
Proof. intros Hf. induction l as [|a l IH]; cbn [forM_list]; [apply within_ret|by apply within_bind]. Qed.
Lemma within_catch {A} (c : M exn S A) p h : within c -> (forall x, within (h x)) -> within (catchM c p h).
Proof.
  intros Hc Hh s. specialize (Hc s). unfold catchM. destruct (c s) as [[a|x] s']; [done|].
  destruct (p x); [|done]. etrans; [exact Hc|apply Hh].
Qed.
End Rules.

Lemma within_result I {A} (c : MM A) : within I c -> within I (result_of c).
Proof. intros Hc m. specialize (Hc m). unfold result_of. by destruct (c m). Qed.

Lemma steady_modify (f : CM -> CM) : (forall m, still m (f m)) -> steady (modifyM f).
Proof. intros Hf m. apply Hf. Qed.
Lemma steady_ask {A} (f : W * list ClusterConfig -> A * (W * list ClusterConfig)) :
  (forall s, (f s).2.2 = s.2) -> steady (mask f).
Proof. intros Hf m. specialize (Hf (cm_net m)). unfold mask, still, given. by destruct (f (cm_net m)). Qed.

Lemma steady_monotonic : steady (mask mn_monotonic).
Proof. apply steady_ask. intros [w log]. cbn. by destruct (mn_monotonic w). Qed.
Lemma steady_time : steady (mask mn_time).
Proof. apply steady_ask. intros [w log]. cbn. by destruct (mn_time w). Qed.
Lemma steady_execute a args : steady (mnet (mn_execute a args)).
Proof.
  intros m. unfold mnet, still, given. destruct (cm_net m) as [w log] eqn:En. cbn. rewrite ?En. by destruct (mn_execute a args w).
Qed.
Lemma steady_health a f : steady (update_health a f).
Proof. apply steady_modify. intros m. by destruct (dict_get a (cm_health m)). Qed.

Ltac within_step I :=
  lazymatch goal with
  | |- forall _, _ => intros ?
  | |- within _ (ret _) => apply within_ret
  | |- within _ (raise _) => apply within_raise
  | |- within _ (lift _) => apply within_lift
  | |- within _ (result_of _) => apply within_result
  | |- within _ (forM_list _ _) => apply within_forM
  | |- within _ (catchM _ _ _) => apply within_catch
  | |- within _ (bindM getM _) => apply within_getM
  | |- within _ (bindM _ _) => apply within_bind
  | |- within _ (match ?x with _ => _ end) => destruct x
  | |- within _ (mask mn_monotonic) => apply steady_monotonic
  | |- within _ (mask mn_time) => apply steady_time
  | |- within _ (mnet (mn_execute _ _)) => apply steady_execute
  | |- within _ (update_health _ _) => apply steady_health
  | |- PreOrder _ => apply _
  end.
Ltac stay := repeat first [solve [auto] | within_step still].

Lemma steady_client a : within still (node_client a).
Proof. unfold node_client. stay; by apply steady_modify. Qed.
Lemma steady_at a args : within still (execute_at a args).
Proof. unfold execute_at. pose proof steady_client. stay. Qed.
Lemma steady_command a args : within still (manager_command a args).
Proof. unfold manager_command. pose proof steady_at. stay. Qed.
Lemma steady_probe a : within still (probe a).
Proof.
  unfold probe, take_info. pose proof steady_client. stay.
  all: apply steady_modify; intros m; by destruct (dict_get a (cm_health m)).
Qed.
Lemma steady_reconcile g : within still (reconcile g).
Proof. unfold reconcile, reconcile_replica. pose proof steady_command. destruct (rpartition _ _) as [[host ?] port]. stay. Qed.
Lemma steady_catch_up n d g who : within still (catch_up_loop n d g who).
Proof. pose proof steady_probe. induction n as [|n IH]; cbn [catch_up_loop]; stay. Qed.

(** ** A change of configuration *)
Lemma adopt_moves c m : config_ok c -> cc_epoch c = cc_epoch (cm_config m) + 1 -> moves m (adopt_config c m).2.
Proof.
  intros Hc He. exists [c]. unfold adopt_config, bindM, modifyM, mnet, given. cbn.
  destruct (cm_net m) as [w log] eqn:En. cbn. destruct (mn_on_change c w) as [[[]|x] w']; cbn; [|done].
  by destruct (ms_saves _), (cm_saving m).
Qed.

Lemma adopt_config_is c (m : CM) : cm_config (adopt_config c m).2 = c.
Proof.
  unfold adopt_config, bindM, modifyM, mnet. cbn. destruct (cm_net m) as [w log]. cbn.
  destruct (mn_on_change c w) as [[[]|x] w']; cbn; [|done]. by destruct (ms_saves _), (cm_saving m).
Qed.

Lemma next_config s v r i c c' : new_config (cc_epoch c + 1) s v r i = Ok c' -> config_ok c' /\ cc_epoch c' = cc_epoch c + 1.
Proof. intros [Hok ->]%checked_config. done. Qed.

Lemma change_moves {A} (f : CM -> result exn ClusterConfig) (k : CM -> unit -> MM A) :
  (forall m c, f m = Ok c -> config_ok c /\ cc_epoch c = cc_epoch (cm_config m) + 1) ->
  (forall m u, within moves (k m u)) ->
  within moves (bindM getM (fun m => bindM (lift (f m)) (fun c => bindM (adopt_config c) (k m)))).
Proof.
  intros Hf Hk m. unfold bindM, getM, lift. destruct (f m) as [c|x] eqn:Ef; [|done]. destruct (Hf m c Ef) as [Hc He].
  pose proof (adopt_moves c m Hc He) as Hm. destruct (adopt_config c m) as [[u|x] m']; [|done]. etrans; [exact Hm|apply Hk].
Qed.

Lemma within_steady {A} (c : MM A) : within still c -> within moves c.
Proof. intros Hc m. apply still_moves, Hc. Qed.

Lemma record_moves g reason who winner e : within moves (record_failover g reason who winner e).
Proof.
  unfold record_failover. apply change_moves; [intros m c; apply next_config|]. intros m []. apply within_steady.
  stay; by apply steady_modify.
Qed.

Ltac go_on := repeat first [solve [auto] | apply within_steady; solve [auto] | within_step moves].

Lemma failover_moves g reason graceful : within moves (failover_group g reason graceful).
Proof.
  unfold failover_group, let_replicas_catch_up. pose proof record_moves. pose proof steady_at. pose proof steady_reconcile.
  pose proof steady_catch_up. go_on. apply within_steady. stay.
Qed.

Lemma tick_moves : within moves tick.
Proof.
  unfold tick, tick_group. pose proof failover_moves. pose proof steady_probe. pose proof steady_reconcile. go_on.
Qed.

Lemma request_moves shard reason rounds : within moves (failover shard reason rounds).
Proof. unfold failover. pose proof failover_moves. go_on. Qed.

Lemma check_moves g : within moves (add_group_check g).
Proof. unfold add_group_check. pose proof steady_probe. go_on. Qed.

Lemma then_check_moves c : within moves c -> within moves (then_check c).
Proof. intros Hc. unfold then_check, rebalance_check. go_on. Qed.

Lemma add_set_moves g : within moves (add_group_set g).
Proof.
  unfold add_group_set. apply (change_moves (fun m => next_epoch _ _ _ (cm_config m)) (fun _ _ => _));
    [intros m c; apply next_config|]. intros _ _. go_on.
Qed.

Lemma remove_moves shard : within moves (remove_group shard).
Proof. unfold remove_group. go_on. Qed.

Lemma set_moves target : within moves (rebalance_set target).
Proof.
  unfold rebalance_set. apply (change_moves (fun m => next_epoch _ _ _ (cm_config m)) (fun _ _ => _));
    [intros m c; apply next_config|]. intros _ _. go_on.
Qed.

Lemma finish_moves b : within moves (rebalance_finish b).
Proof.
  unfold rebalance_finish, stop_source. pose proof steady_command.
  apply (change_moves (fun m => next_epoch _ _ _ (cm_config m)) (fun m _ => _)); [intros m c; apply next_config|].
  intros m []. go_on.
Qed.

(** ** Polling *)
Definition still_poll (s s' : Rebalancing * CM) : Prop := still s.2 s'.2.
#[local] Instance still_poll_preorder : PreOrder still_poll.
Proof. split; [intros s; done|]. intros s1 s2 s3. unfold still_poll. apply transitivity. Qed.

Lemma within_on_manager {A} (c : MM A) : within still c -> within still_poll (on_manager c).
Proof. intros Hc [b m]. specialize (Hc m). unfold on_manager, still_poll. by destruct (c m). Qed.

Lemma within_local f : (forall b m, (f (b, m)).2 = m) -> within still_poll (modifyM f).
Proof. intros Hf [b m]. unfold still_poll, modifyM. cbn. by rewrite Hf. Qed.

Lemma poll_still shard b (m : CM) : still m (poll_shard shard (b, m)).2.2.
Proof.
  enough (Hp : within still_poll (poll_shard shard)) by apply (Hp (b, m)). clear b m.
  unfold poll_shard, poll_source, add_base, set_sent, set_moved.
  repeat first [apply within_on_manager; first [apply steady_client|apply steady_at] | by apply within_local | within_step still_poll].
Qed.

Lemma task_moves t (m : CM) : moves m (task_step t m).2.
Proof.
  destruct t as [g|target|b [|s rest] n|b]; cbn [task_step].
  - pose proof (then_check_moves _ (add_set_moves g) m) as Hm. by destruct (then_check _ m).
  - pose proof (set_moves target m) as Hm. by destruct (rebalance_set target m).
  - done.
  - pose proof (poll_still s b m) as Hm. destruct (poll_shard s (b, m)) as [r [b' m']]. by apply still_moves.
  - apply finish_moves.
Qed.

Lemma step_moves s s' : mstep s s' -> moves (sy_manager s) (sy_manager s').
Proof.
  intros Hs. destruct Hs as [ts m|ts m shard reason rounds|ts m g|ts m shard|ts1 t ts2 m|ts m|ts m w]; cbn [sy_manager].
  - apply tick_moves.
  - apply request_moves.
  - pose proof (check_moves g m) as Hm. by destruct (add_group_check g m).
  - pose proof (then_check_moves _ (remove_moves shard) m) as Hm. by destruct (then_check _ m).
  - pose proof (task_moves t m) as Hm. by destruct (task_step t m).
  - apply still_moves. unfold save_start. by destruct (cm_saving m).
  - apply still_moves. unfold save_done. destruct (cm_saving m), w; done.
Qed.

(** C6. However rounds, failovers, requests, rebalances and saves interleave, and
    whatever the nodes answer: the manager's configuration stays well formed
    (groups with unique names and nodes, addresses that parse, a ring of known
    groups), and the configurations it hands to the router are well formed and
    each one epoch after the one before, the last one being its own. *)
Theorem manager_configs_well_formed (s s' : System (W := W * list ClusterConfig)) :
  config_ok (cm_config (sy_manager s)) -> rtc mstep s s' ->
  config_ok (cm_config (sy_manager s')) /\
  exists new, given (sy_manager s') = given (sy_manager s) ++ new /\ chain (cm_config (sy_manager s)) new /\
    cm_config (sy_manager s') = newest (cm_config (sy_manager s)) new.
Proof.
  intros Hc Hr. assert (Hm : moves (sy_manager s) (sy_manager s')).
  { clear Hc. induction Hr as [s|s1 s2 s3 Hs _ IH]; [done|]. etrans; [by apply step_moves|exact IH]. }
  destruct Hm as (new & Hg & Hch & Hn). split; [|by exists new]. rewrite Hn. by apply chain_newest.
Qed.

(** ** Failover *)
Lemma best_max f w l : (w ∈ w :: l -> best f w l ∈ w :: l) /\ f w <= f (best f w l) /\ Forall (fun a => f a <= f (best f w l)) l.
Proof.
  revert w. induction l as [|a l IH]; intros w; cbn [best]; [by conj; [|lia|]|].
  destruct (IH (if f w <? f a then a else w)) as (Hin & Hw & Hl). specialize (Hin ltac:(left)).
  destruct (Z.ltb_spec (f w) (f a)); conj.
  - intros _. right. exact Hin.
  - lia.
  - constructor; [lia|done].
  - intros _. apply elem_of_cons in Hin as [->|Hin]; [left|by right; right].
  - lia.
  - constructor; [lia|done].
Qed.

Lemma candidates_replicas g (m : CM) a : a ∈ candidates g m -> a ∈ sg_replicas g.
Proof. unfold candidates. rewrite !list_elem_of_In, filter_In. tauto. Qed.

(** The group after [winner] was promoted. *)
Definition promoted (g : ShardGroup) (winner : pystr) : ShardGroup :=
  mkGroup (sg_id g) winner (List.filter (fun a => negb (bool_decide (a = winner))) (members g)).

Lemma promoted_members g winner c : config_ok c -> group (sg_id g) c = Ok g -> winner ∈ members g ->
  members (promoted g winner) ≡ₚ members g.
Proof.
  intros Hc [_ Hin]%group_found Hw. apply reorder_members; [by eapply nodup_members|done].
Qed.

Lemma record_config g reason who winner e (m : CM) c' :
  with_group (promoted g winner) (cm_config m) = Ok c' -> cm_config (record_failover g reason who winner e m).2 = c'.
Proof.
  intros Hw. unfold record_failover. unfold bindM at 1, getM at 1. cbv beta iota. fold (promoted g winner).
  unfold bindM at 1, lift at 1. rewrite Hw. cbv beta iota. unfold bindM at 1.
  pose proof (adopt_config_is c' m) as Ha. destruct (adopt_config c' m) as [[[]|x] m']; [|done]. rewrite <- Ha.
  match goal with |- cm_config (?k m').2 = _ => enough (Hk : within still k) by apply (Hk m') end.
  stay; by apply steady_modify.
Qed.

End Spec.

(** * A cluster of nodes, to run the manager on

    The nodes by address, and a clock that advances a second at every reading;
    a node that is missing refuses connections. *)
Record Nodes := mkNodes { ns_nodes : list (pystr * Node (D := LogEngine)); ns_time : Z }.

Fixpoint wire_reply (r : Reply) : PReply :=
  match r with
  | RNone => PNone
  | RStatus s => PStatus s
  | RText s => PText s
  | RInt z => PInt z
  | RArg a => PText (str_of_arg a)
  | RArray l => PArray (wire_reply <$> l)
  end.

(** What INFO replication answers. *)
Definition info_text (n : Node (D := LogEngine)) : pystr :=
  foldr (fun '(f, v) rest => f ++ lit ":" ++ CmdServer.info_value v ++ [13; 10] ++ rest) []
    (replication_fields fzero n).

Definition at_node (a : pystr) (args : list PyArg) (s : Nodes) : result exn PReply * Nodes :=
  match dict_get a (ns_nodes s), args with
  | Some n, name :: args' =>
      if bool_decide (name = AStr (lit "INFO")) then (Ok (PText (info_text n)), s)
      else
        let '(r, n') := node_execute name ((fun x => AStr (str_of_arg x)) <$> args') id_a fzero fzero n in
        (match r with
         | Ok (NReply v) => Ok (wire_reply v)
         | Ok _ => Raise (err NodeUnavailableError "no reply")
         | Raise x => Raise x
         end, mkNodes (dict_set a n' (ns_nodes s)) (ns_time s))
  | _, _ => (Raise (err ConnectFailedError "connection refused"), s)
  end.

Definition read_clock (s : Nodes) : float * Nodes := (float_of_Z (ns_time s), mkNodes (ns_nodes s) (ns_time s + 1)).

#[export] Instance nodes_net : ManagerNet Nodes := {|
  mn_execute := at_node;
  mn_on_change _ := ret tt;
  mn_monotonic := read_clock;
  mn_time := read_clock
|}.

Definition addr (c : Z) : pystr := [c; 58; 55; 48; 48; 48].
Definition addr_a : pystr := addr 97.
Definition addr_b : pystr := addr 98.
Definition addr_c : pystr := addr 99.

(** The configuration of the file: epoch 5, [a] with the replicas [b] and [c]. *)
Definition shard1 : ShardGroup := mkGroup (lit "shard-1") addr_a [addr_b; addr_c].
Definition config5 : ClusterConfig := mkCluster 5 [shard1] 1 None [lit "shard-1"].

(** [b] and [c] replicate [a], which is down. *)
Definition replica_of_a : Node (D := LogEngine) :=
  (node_execute (AStr (lit "REPLICAOF")) (AStr <$> [lit "a"; lit "7000"; lit "EPOCH"; lit "5"]) id_a fzero fzero
     (mb_node (fresh_node id_b))).2.
Definition cluster0 : Nodes := mkNodes [(addr_b, replica_of_a); (addr_c, replica_of_a)] 0.

(** A reading later than the last answer is silence enough. *)
Definition manager_settings : ManagerSettings := mkManagerSettings true (float_of_Z 1) (float_of_Z 1) true.

Abbreviation Mgr := (ClusterManager (Nodes * list ClusterConfig)).
Definition manager0 : Mgr := new_manager config5 manager_settings (cluster0, []).

(** The manager's round promotes [b], under epoch 6. *)
Definition manager1 : Mgr := (tick manager0).2.

(** It stops before its file is written.  Another starts from that file. *)
Definition manager2 : Mgr := new_manager config5 manager_settings (cm_net manager1).
Definition manager3 : Mgr := (tick manager2).2.

Definition role_at (a : pystr) (m : Mgr) : option (Role * Z) :=
  (fun n => (nd_role n, nd_epoch n)) <$> dict_get a (ns_nodes (cm_net m).1).

Lemma config5_ok : config_ok config5.
Proof.
  apply (fun H => proj1 (checked_config 5 [shard1] 1 None [lit "shard-1"] config5 H)). vm_compute. reflexivity.
Qed.

Lemma manager_configs_well_formed_witness :
  config_ok (cm_config (sy_manager (mkSystem [] manager1))) /\ cc_epoch (cm_config manager1) = 6 /\
  role_at addr_b manager1 = Some (RPrimary, 6).
Proof.
  pose proof (s_tick [] manager0) as Hs. assert (Hm : (tick manager0).2 = manager1) by (vm_compute; reflexivity).
  rewrite Hm in Hs. conj.
  - exact (proj1 (manager_configs_well_formed (mkSystem [] manager0) (mkSystem [] manager1) config5_ok (rtc_once _ _ Hs))).
  - vm_compute. reflexivity.
  - vm_compute. reflexivity.
Defined.

(** Before its failovers, a round has heard the nodes. *)
Definition manager_probed : Mgr :=
  (forM_list (fun a => let! _ := probe a in ret tt) (members shard1) manager0).2.


