(* ===== verification/MigrationSpec.v ===== *)
(** * Moving keys loses nothing

    A node serves requests while its keys move.  As long as the move has not
    failed, what a target was sent of a key is the key's present content and
    deadline, or the key is gone: deleting it, once the target has it, loses
    nothing that was acknowledged. *)

From Stdlib Require Import String.
From S2P Require Import Prelude PyStr PyFloat Errors Codec Oracles KeySet Containers ZSet Eviction Store.
From S2P Require Import Frames StoreInv StoreOps Snapshot Registry CmdKeys CmdServer CmdInv CmdHandlers Replies.
From S2P Require Import Engine EngineInv EngineDepth EngineLife EngineSpec HashRing Migration EngineRuns.
Local Close Scope string_scope.

Section Spec.
Context `{Sizing} {P : Type} `{PolicyLaws P} {L R : Type} `{Persistence L} `{ReplicationFeed R}.
Abbreviation E := (EngineEnv L R).
Abbreviation W := (World P Done E).
Abbreviation SM := (M exn W).
Abbreviation MS := (W * Migration)%type.
Abbreviation MM := (M exn MS).
Implicit Types (w : W) (m : Migration).

(** ** The node while it moves keys *)

(** A request to a primary: a command is checked by the migration first. *)
Definition node_request (m : Migration) (q : Request) : SM unit :=
  match q with
  | QExecute command args => migration_check m (upper command) args;; serve q
  | _ => serve q
  end.

(** Requests of a replica or of the end are not meant. *)
Definition of_primary (q : Request) : Prop :=
  match q with QReplicated _ _ | QLoadSnapshot _ _ | QClose => False | _ => request_ok q end.

Inductive move_step : MS -> MS -> Prop :=
| mv_request q w m : of_primary q -> move_step (w, m) ((node_request m q w).2, m)
| mv_begin w m : mg_sends m = [] -> mg_batch m = None -> move_step (w, m) (run_begin (w, m)).2
| mv_answer n answer s : move_step s (send_reply n answer s).2
| mv_gathered s : move_step s (gathered s).2
| mv_stop w m : move_step (w, m) (w, stop_migration m).

(** ** What is on its way *)
Definition data_of w : list (pystr * Entry) := st_data (w_store w).

(** What was sent is the key's content and deadline, or the key is gone. *)
Definition current (d : list (pystr * Entry)) (item : pystr * list PyArg) : Prop :=
  dict_get item.1 d = None \/ exists r, seen item.1 d = Some r /\ restore_command r = Ok item.2.

Definition items_of (m : Migration) : list (pystr * list PyArg) := mg_sends m ≫= (fun s => sd_items s.2).

Definition guarded (d : list (pystr * Entry)) (flight : list pystr) (items : list (pystr * list PyArg)) : Prop :=
  NoDup items.*1 /\ Forall (fun it => it.1 ∈ flight /\ current d it) items.

Context (base : nat) (ep0 : Z) (J0 : Ghost) (s0 : Store P Done) (Hflags : flags_ok s0).
Abbreviation engine_ok := (engine_inv (P := P) (L := L) (R := R) base ep0 J0 s0).

Definition move_inv (s : MS) : Prop :=
  engine_ok s.1 /\
  (mg_task s.2 = true -> NoDup (mg_pending s.2) /\ guarded (data_of s.1) (mg_in_flight s.2) (items_of s.2)).

(** ** The keyspace under a move *)
Lemma current_kept d d' it : dict_get it.1 d' = None \/ seen it.1 d' = seen it.1 d -> current d it -> current d' it.
Proof.
  intros [Hn|Hs] [Hc|(r & Hr & Hcmd)]; [by left|by left| |right; exists r; by rewrite Hs].
  left. unfold seen in Hs. rewrite Hc in Hs. by destruct (dict_get it.1 d').
Qed.

Lemma guarded_kept dirty d d' flight items :
  frame_of dirty d d' -> (forall k, k ∈ dirty -> k ∉ items.*1) -> guarded d flight items -> guarded d' flight items.
Proof.
  intros [_ Hf] Hd [Hn Hg]. split; [done|]. rewrite Forall_forall in *. intros it Hit. destruct (Hg it Hit) as [Hin Hc].
  split; [done|]. eapply current_kept; [|exact Hc]. apply Hf. intros Hk. apply (Hd _ Hk). by apply list_elem_of_fmap_2.
Qed.

Lemma frame_start dirty w : engine_ok w -> frame dirty (data_of w) w.
Proof. intros [(J & _ & Hw) _]. split; [apply Hw|]. by right. Qed.

(** Steps of the store that keep the engine's invariant and every entry. *)
Definition gentle {A} (c : SM A) : Prop := forall d0, keeps (fun w => engine_ok w /\ frame [] d0 w) c.

Lemma gentle_run {A} (c : SM A) w : gentle c -> engine_ok w ->
  engine_ok (c w).2 /\ frame_of [] (data_of w) (data_of (c w).2).
Proof. intros Hc Hw. apply (Hc (data_of w) w (conj Hw (frame_start [] w Hw))). Qed.

Lemma gentle_bind {A B} (c : SM A) (k : A -> SM B) : gentle c -> (forall a, gentle (k a)) -> gentle (bindM c k).
Proof. intros Hc Hk d0. apply keeps_bind; [apply Hc|intros a; apply Hk]. Qed.

Lemma gentle_pure {A} (a : result exn A) : gentle (lift a).
Proof. intros d0 w Hw. by destruct a. Qed.

Lemma gentle_store {A} (c : SM A) :
  (forall J, keeps (StoreInv.inv (J := J) [] s0) c) -> (forall Rd, Rider Rd -> keeps (Frames.rides Rd) c) ->
  (forall d0, keeps (frame [] d0) c) -> gentle c.
Proof.
  intros H1' H2' H3' d0. apply keeps_and; [|apply H3'].
  apply keeps_cinv; [exact H1'|intros ep; apply H2'; apply _|apply H2'; apply _].
Qed.

Lemma gentle_peek k : gentle (peek k).
Proof. apply gentle_store; intros; [apply keeps_peek|eauto with rides|eauto with frames]. Qed.
Lemma gentle_record k : gentle (record k).
Proof. apply gentle_store; intros; [apply keeps_record|eauto with rides|eauto with frames]. Qed.
Lemma gentle_iter : gentle iter_keys.
Proof. apply gentle_store; intros; [apply keeps_iter_keys|eauto with rides|eauto with frames]. Qed.

Lemma gentle_filterM {A} (f : A -> SM bool) l : (forall a, gentle (f a)) -> gentle (filterM_list f l).
Proof. intros Hf d0. apply keeps_filterM. intros a _. apply Hf. Qed.

(** ** Commands of clients *)
Lemma check_gentle m name args : gentle (migration_check m name args).
Proof.
  unfold migration_check, gone_keys. destruct (find_command _) as [spec|]; [|apply (gentle_pure (Ok tt))].
  destruct (keys_of spec args) as [|k keys]; [apply (gentle_pure (Ok tt))|].
  destruct (existsb _ _); [apply (gentle_pure (Raise _))|].
  apply gentle_bind.
  - apply gentle_filterM. intros a. apply gentle_bind; [apply gentle_peek|]. intros [e|]; [apply (gentle_pure (Ok false))|].
    apply gentle_bind; [apply gentle_pure|intros d; apply (gentle_pure (Ok (found d)))].
  - intros [|first gone]; [apply (gentle_pure (Ok tt))|]. destruct (bool_decide _); [apply (gentle_pure (Raise _))|].
    apply gentle_bind; [apply gentle_pure|]. intros [[shard address]|]; apply (gentle_pure (Raise _)).
Qed.

Lemma table_upper : Forall (fun spec => str_upper (cs_name spec) = cs_name spec) (COMMANDS (P := P) (D := Done) (E := E)).
Proof.
  unfold COMMANDS, commands_with. rewrite !Forall_app. conj; repeat (apply Forall_cons; split; [reflexivity|]); constructor.
Qed.

Lemma find_upper name spec : find_command (P := P) (D := Done) (E := E) (str_upper name) = Some spec ->
  str_upper (str_upper name) = str_upper name.
Proof.
  unfold find_command. intros [Hin Hn]%find_some. apply bool_decide_eq_true in Hn. rewrite <- Hn.
  pose proof table_upper as Ht. rewrite Forall_forall in Ht. apply Ht. by apply list_elem_of_In.
Qed.

(** A command that passes the check changes no key that is on its way. *)
Lemma check_clears m command args w w' k :
  migration_check m (upper command) args w = (Ok tt, w') ->
  k ∈ command_keys (P := P) (L := L) (R := R) command args -> k ∉ mg_in_flight m.
Proof.
  unfold migration_check, command_keys, upper. destruct command as [name| | | |]; try (intros _ Hk; by apply elem_of_nil in Hk).
  destruct (find_command (str_upper name)) as [spec|] eqn:Hf; [|intros _ Hk; by apply elem_of_nil in Hk].
  rewrite (find_upper name spec Hf), Hf. unfold touched. intros Hc Hk.
  destruct (is_write spec); [|by apply elem_of_nil in Hk]. destruct (keys_of spec args) as [|k0 keys]; [by apply elem_of_nil in Hk|].
  destruct (existsb _ _) eqn:He; [done|]. intros Hin. apply not_true_iff_false in He. apply He, existsb_exists. exists k.
  split; [by apply list_elem_of_In|by apply bool_decide_eq_true].
Qed.

Lemma frame_expire_sample d0 t l : keeps (frame (P := P) (D := Done) (E := E) [] d0) (expire_sample t l).
Proof. induction l as [|k l IH]; cbn [expire_sample]; unfold data_expired; stay. Qed.
#[local] Hint Resolve frame_expire_sample : frames.

Lemma frame_expire_rounds d0 n size t : keeps (frame (P := P) (D := Done) (E := E) [] d0) (expire_rounds n size t).
Proof. induction n as [|n IH]; cbn [expire_rounds]; stay. Qed.
#[local] Hint Resolve frame_expire_rounds : frames.

Lemma frame_cron d0 n : keeps (frame (P := P) (D := Done) (E := E) [] d0) (cron n).
Proof.
  unfold cron, expire_cycle. pose proof (frame_start_rewrite (P := P) (L := L) (R := R) [] d0).
  pose proof (fun A (f : E -> A) => frame_get_env (P := P) (L := L) (R := R) [] d0 f). stay.
Qed.

(** A request other than a command. *)
Lemma upkeep_frame q d0 : of_primary q -> match q with QExecute _ _ => False | _ => True end ->
  keeps (frame (P := P) (D := Done) (E := E) [] d0) (serve q).
Proof.
  intros Hq Hn. destruct q; try done; cbn [serve]; try (apply keeps_bind; [|intros ?; apply keeps_ret]).
  - apply frame_clear.
  - apply frame_start_rewrite.
  - apply frame_save.
  - apply frame_wait.
  - apply frame_begin_snapshot.
  - apply frame_step_snapshot.
  - apply frame_cron.
  - apply frame_env.
  - apply frame_env.
Qed.

Lemma request_kept q w m items : of_primary q -> engine_ok w -> guarded (data_of w) (mg_in_flight m) items ->
  engine_ok (node_request m q w).2 /\ guarded (data_of (node_request m q w).2) (mg_in_flight m) items.
Proof.
  intros Hq Hw Hg. destruct (match q with QExecute _ _ => true | _ => false end) eqn:Eq.
  - destruct q as [command args| | | | | | | | | | | |]; try done. cbn [node_request]. unfold bindM at 1 2.
    destruct (gentle_run _ w (check_gentle m (upper command) args) Hw) as [Hw1 Hf1].
    assert (Hg1 : guarded (data_of (migration_check m (upper command) args w).2) (mg_in_flight m) items)
      by (eapply guarded_kept; [exact Hf1|intros k Hk; by apply elem_of_nil in Hk|exact Hg]).
    destruct (migration_check m (upper command) args w) as [[[]|x] w1] eqn:Ec; [|done]. cbn [snd] in *.
    split; [by apply serve_inv|]. cbn [serve]. unfold bindM.
    pose proof (execute_frame base ep0 J0 s0 (data_of w1) command args w1 Hflags Hq Hw1 (frame_start _ w1 Hw1)) as Hf.
    assert (Hgo : guarded (data_of (execute command args w1).2) (mg_in_flight m) items).
    { eapply guarded_kept; [exact Hf| |exact Hg1]. intros k Hk Hin. apply (check_clears m command args w w1 k Ec Hk).
      destruct Hg as [_ Hg]. rewrite Forall_forall in Hg. apply list_elem_of_fmap in Hin as (it & -> & Hit). by apply Hg. }
    by destruct (execute command args w1) as [[]].
  - assert (Hs : node_request m q = serve q) by (by destruct q). rewrite Hs.
    split; [apply serve_inv; [done| |done]; by destruct q|].
    eapply guarded_kept; [|intros k Hk; by apply elem_of_nil in Hk|exact Hg].
    apply (upkeep_frame q (data_of w) Hq); [by destruct q|by apply frame_start].
Qed.

(** ** The move itself *)
Lemma record_seen k w r w' : engine_ok w -> record k w = (Ok (Some r), w') -> seen k (data_of w') = Some r.
Proof.
  intros [(J & _ & Hw) _] Hr. unfold record in Hr. apply bind_Ok in Hr as (o & w1 & Hl & [= Ho <-]).
  destruct (lookup_spec (J := J) [] s0 k w Hw) as (r' & w2 & Hl' & _ & _ & Hm). rewrite Hl in Hl'. injection Hl' as <- <-.
  destruct o as [e|]; [|done]. destruct Hm as [_ He]. unfold seen, data_of. unfold entry_at in He. rewrite He. exact Ho.
Qed.

Lemma guarded_perm d flight items items' : items ≡ₚ items' -> guarded d flight items -> guarded d flight items'.
Proof. intros Hp [Hn Hg]. split; [by rewrite <- Hp|by rewrite <- Hp]. Qed.

Lemma guarded_more d flight flight' items : flight ⊆ flight' -> guarded d flight items -> guarded d flight' items.
Proof. intros Hs [Hn Hg]. split; [done|]. eapply Forall_impl; [exact Hg|]. intros it [Hi Hc]. split; [by apply Hs|done]. Qed.

Lemma guarded_one d flight items k cmd r :
  guarded d flight items -> k ∉ items.*1 -> k ∈ flight -> seen k d = Some r -> restore_command r = Ok cmd ->
  guarded d flight (items ++ [(k, cmd)]).
Proof.
  intros [Hn Hg] Hk Hf Hs Hc. split.
  - rewrite fmap_app. apply NoDup_app. conj; [done| |apply NoDup_singleton]. intros x Hx ->%list_elem_of_singleton. done.
  - apply Forall_app. split; [done|]. constructor; [|constructor]. split; [done|]. right. by exists r.
Qed.

(** What the loop over a batch's keys guarantees. *)
Definition loop_ok (m : Migration) (o : result exn (list (pystr * list (pystr * list PyArg))) * MS) : Prop :=
  engine_ok o.2.1 /\ (exists flight, o.2.2 = set_in_flight flight m) /\
  forall out, o.1 = Ok out -> guarded (data_of o.2.1) (mg_in_flight o.2.2) (out ≫= snd).

Lemma loop_stops w m x : engine_ok w -> loop_ok m (Raise x, (w, m)).
Proof. intros Hw. unfold loop_ok. conj; [done|exists (mg_in_flight m); by destruct m|done]. Qed.

Lemma move_loop_ok keys by_target w m :
  engine_ok w -> NoDup keys -> (forall k, k ∈ keys -> k ∉ (by_target ≫= snd).*1) ->
  guarded (data_of w) (mg_in_flight m) (by_target ≫= snd) ->
  loop_ok m (move_loop keys by_target (w, m)).
Proof.
  revert by_target w m. induction keys as [|key keys IH]; intros by_target w m Hw Hn Hfree Hg; cbn [move_loop].
  { unfold loop_ok. conj; [done|exists (mg_in_flight m); by destruct m|]. by intros out [= <-]. }
  apply NoDup_cons in Hn as [Hkey Hn]. unfold bindM at 1, on_world.
  destruct (gentle_run _ w (gentle_record key) Hw) as [Hw1 Hf1]. cbn [fst snd].
  destruct (record key w) as [[r|x] w1] eqn:Er; cbn [snd] in *;
    [|by apply loop_stops].
  assert (Hg1 : guarded (data_of w1) (mg_in_flight m) (by_target ≫= snd))
    by (eapply guarded_kept; [exact Hf1|intros k Hk; by apply elem_of_nil in Hk|exact Hg]).
  unfold bindM at 1, get_mig, readM. cbn [snd]. unfold bindM at 1, lift at 1.
  destruct (destination key m) as [d|x]; [|by apply loop_stops].
  assert (Hskip : forall k, k ∈ keys -> k ∉ (by_target ≫= snd).*1) by (intros k Hk; apply Hfree; by right).
  destruct r as [r|]; [|by apply IH]. destruct d as [[shard address]|]; [|by apply IH].
  unfold bindM at 1, lift at 1. destruct (restore_command r) as [cmd|x] eqn:Ecmd;
    [|by apply loop_stops].
  unfold bindM at 1, upd_mig, modifyM. cbn [fst snd]. set (flight := remove_dups (mg_in_flight m ++ [key])).
  set (by1 := dict_set address _ by_target). assert (Hb : by1 ≫= snd ≡ₚ (by_target ≫= snd) ++ [(key, cmd)]) by apply bucket_add.
  specialize (IH by1 w1 (set_in_flight flight m) Hw1 Hn). 
  destruct IH as (He & (fl & Hs) & Ho).
  - intros k Hk. rewrite Hb, fmap_app. intros [Hin|Hin]%elem_of_app; [by apply (Hskip k)|].
    cbn in Hin. apply list_elem_of_singleton in Hin as ->. done.
  - apply (guarded_perm _ _ _ _ (symmetry Hb)). cbn [mg_in_flight set_in_flight].
    apply (guarded_one _ _ _ key cmd r); try done.
    + eapply guarded_more; [|exact Hg1]. intros x Hx. apply elem_of_remove_dups, elem_of_app. by left.
    + apply Hfree. by left.
    + apply elem_of_remove_dups, elem_of_app. right. by left.
    + exact (record_seen key w r w1 Hw Er).
  - unfold loop_ok. conj; [done| |done]. exists fl. by rewrite Hs.
Qed.

Lemma start_sends_items l m :
  items_of (start_sends l m) = items_of m ++ (l ≫= snd) /\ mg_in_flight (start_sends l m) = mg_in_flight m /\
  mg_pending (start_sends l m) = mg_pending m.
Proof.
  revert m. induction l as [|[a items] l IH]; intros m; cbn [start_sends]; [by rewrite app_nil_r|].
  destruct (IH (set_sends (mg_sends m ++ [(mg_next m, mkSending a items)]) (S (mg_next m)) m)) as (-> & -> & ->).
  conj; [|done|done]. unfold items_of. cbn [set_sends mg_sends]. rewrite bind_app. cbn. by rewrite app_nil_r, <- app_assoc.
Qed.

(** What holds of a state the task goes on from. *)
Definition going (s : MS) : Prop :=
  mg_task s.2 = true -> NoDup (mg_pending s.2) /\ guarded (data_of s.1) (mg_in_flight s.2) (items_of s.2).

Lemma next_batch_ok w m : engine_ok w -> mg_sends m = [] -> NoDup (mg_pending m) ->
  let '(r, s) := next_batch (w, m) in engine_ok s.1 /\ (r = Ok tt -> going s).
Proof.
  intros Hw Hs Hn. unfold next_batch, bindM at 1, get_mig, readM. cbn [snd].
  destruct (mg_pending m) as [|k pending] eqn:Ep; [by split|]. cbv zeta. rewrite <- Ep in *. clear Ep.
  unfold bindM at 1, upd_mig at 1, modifyM at 1. cbn [fst snd]. set (m1 := set_todo _ None m). unfold bindM at 1.
  assert (Hbatch : NoDup (take (mg_batch_size m) (mg_pending m))) by (eapply sublist_NoDup; [exact Hn|apply sublist_take]).
  pose proof (move_loop_ok (take (mg_batch_size m) (mg_pending m)) [] w m1 Hw Hbatch) as Hloop.
  destruct (move_loop _ [] (w, m1)) as [[out|x] [w2 m2]];
    (destruct Hloop as (He & (fl & Hm2) & Hg); [intros k' _; apply not_elem_of_nil|split; constructor|]); [|by split].
  cbn [fst snd] in *. specialize (Hg out eq_refl). split; [done|]. intros _ _. cbn [fst snd].
  destruct (start_sends_items out (set_todo (mg_pending m2) (Some (take (mg_batch_size m) (mg_pending m))) m2)) as (Hi & Hf & Hp).
  rewrite Hi, Hf, Hp. cbn [set_todo mg_pending mg_in_flight]. subst m2 m1. cbn [set_in_flight set_todo mg_pending mg_in_flight] in *.
  split; [eapply sublist_NoDup; [exact Hn|apply sublist_drop]|].
  unfold items_of. cbn [set_todo set_in_flight mg_sends]. rewrite Hs. exact Hg.
Qed.

(** ** Steps of the task *)
Lemma in_run_ok (c : MM unit) s :
  engine_ok (c s).2.1 -> ((c s).1 = Ok tt -> going (c s).2) -> move_inv (in_run c s).2.
Proof.
  intros Hw Hg. unfold in_run, catchM. destruct (c s) as [[[]|x] s']; cbn [fst snd] in *; [split; [done|by apply Hg]|].
  split; [done|]. cbn. done.
Qed.

Lemma next_batch_inv w m (c : MM unit) s :
  c s = next_batch (w, m) -> engine_ok w -> mg_sends m = [] -> NoDup (mg_pending m) -> move_inv (in_run c s).2.
Proof.
  intros Hc Hw Hs Hn. pose proof (next_batch_ok w m Hw Hs Hn) as Hb. apply in_run_ok; rewrite Hc;
    by destruct (next_batch (w, m)) as [r s'], Hb.
Qed.

Lemma begin_inv w m : engine_ok w -> mg_sends m = [] -> move_inv (run_begin (w, m)).2.
Proof.
  intros Hw Hs. unfold run_begin. destruct (gentle_run _ w gentle_iter Hw) as [Hw1 _].
  set (f := fun m k => let! d := lift (destination k m) in (ret (found d) : MM bool)).
  change (move_inv (in_run (let! keys := on_world iter_keys in let! now := get_mig in
    let! pending := filterM_list (f now) keys in upd_mig (set_todo pending None);; next_batch) (w, m)).2).
  set (c := bindM _ _). destruct (iter_keys w) as [[keys|x] w1] eqn:Ek; cbn [snd] in Hw1; cycle 1.
  { assert (Hc : c (w, m) = (Raise x, (w1, m))) by (apply after_Raise; unfold on_world; cbn [fst snd]; by rewrite Ek).
    by apply in_run_ok; rewrite Hc. }
  assert (Hk : NoDup keys).
  { unfold iter_keys in Ek. apply bind_Ok in Ek as (st & w2 & [= <- <-] & Ek). apply filterM_sublist in Ek.
    eapply sublist_NoDup; [|exact Ek]. destruct Hw as [(J & _ & Hi) _]. apply Hi. }
  assert (Hf : (filterM_list (f m) keys (w1, m)).2 = (w1, m)).
  { apply (keeps_filterM (fun s => s = (w1, m)) (f m) keys); [|done]. intros a _ s ->. unfold f. by destruct (destination a m). }
  assert (Hc : c (w, m) = bindM (filterM_list (f m) keys) (fun pending => upd_mig (set_todo pending None);; next_batch) (w1, m)).
  { unfold c. etrans; [apply (after_Ok _ _ _ keys (w1, m)); unfold on_world; cbn [fst snd]; by rewrite Ek|reflexivity]. }
  destruct (filterM_list (f m) keys (w1, m)) as [[pending|x] s1] eqn:Ef; cbn [snd] in Hf; subst s1.
  - apply (next_batch_inv w1 (set_todo pending None m)); [|done|done|].
    + rewrite Hc. etrans; [apply (after_Ok _ _ _ _ _ Ef)|done].
    + cbn. eapply sublist_NoDup; [exact Hk|]. by eapply filterM_sublist.
  - rewrite (after_Raise _ _ _ _ _ Ef) in Hc. by apply in_run_ok; rewrite Hc.
Qed.

Lemma gathered_inv s : move_inv s -> move_inv (gathered s).2.
Proof.
  intros Hs. unfold gathered, bindM at 1, get_mig, readM. destruct s as [w m]. cbn [snd].
  destruct (mg_task m) eqn:Et, (mg_batch m) as [keys|], (mg_sends m) eqn:Es; try exact Hs.
  destruct Hs as [Hw Hg]. destruct (Hg Et) as [Hn _].
  by apply (next_batch_inv w (set_todo (mg_pending (clear_flight keys m)) None (clear_flight keys m))).
Qed.

Lemma stop_inv w m : move_inv (w, m) -> move_inv (w, stop_migration m).
Proof. intros [Hw Hg]. unfold stop_migration. destruct (mg_task m); [|done]. split; [done|]. cbn. done. Qed.

Lemma moved_all items replies moved : moved_keys items replies = Ok moved -> moved = items.*1.
Proof.
  revert replies moved. induction items as [|[k c] items IH]; intros [|r replies] moved; cbn [moved_keys]; try done; [by intros [= <-]|].
  destruct r; try done; (destruct (moved_keys items replies) as [mk|x] eqn:Em; [|done]); intros [= <-]; cbn; by rewrite (IH _ _ Em).
Qed.

Lemma names_strings (l : list pystr) : key_names (AStr <$> l) = l.
Proof. unfold key_names. induction l as [|s l IH]; [done|]. cbn. by rewrite IH. Qed.

Lemma del_keys keys : command_keys (P := P) (L := L) (R := R) (AStr (lit "DEL")) (AStr <$> keys) = keys.
Proof.
  assert (Hs : exists spec, find_command (P := P) (D := Done) (E := E) (str_upper (lit "DEL")) = Some spec /\
    is_write spec = true /\ cs_key_spec spec = Some ALL_KEYS) by (eexists; conj; reflexivity).
  destruct Hs as (spec & Hf & Hw & Hk). unfold command_keys. rewrite Hf. unfold touched. rewrite Hw, (all_keys_names _ _ Hk).
  apply names_strings.
Qed.

Lemma guarded_rest d flight items rest : guarded d flight (items ++ rest) ->
  guarded d flight rest /\ forall k, k ∈ items.*1 -> k ∉ rest.*1.
Proof.
  intros [Hn Hg]. rewrite fmap_app in Hn. apply NoDup_app in Hn as (_ & Hd & Hn). apply Forall_app in Hg as [_ Hg].
  by split.
Qed.

(** A [_send] is over: what the others carry is as current as before. *)
Definition sent_ok (w : W) (m : Migration) (items rest : list (pystr * list PyArg)) (s : MS) : Prop :=
  engine_ok s.1 /\
  (guarded (data_of w) (mg_in_flight m) (items ++ rest) -> guarded (data_of s.1) (mg_in_flight m) rest) /\
  exists n, s.2 = add_moved n m.

Lemma sent_same w m items rest : engine_ok w -> sent_ok w m items rest (w, m).
Proof.
  intros Hw. unfold sent_ok. conj; [done|apply guarded_rest|]. exists 0. destruct m. unfold add_moved. cbn. by rewrite Z.add_0_r.
Qed.

Lemma send_done_ok items replies w m rest : engine_ok w -> sent_ok w m items rest (send_done items replies (w, m)).2.
Proof.
  intros Hw. unfold send_done, bindM at 1, lift. destruct (moved_keys items replies) as [moved|x] eqn:Em; [|by apply sent_same].
  apply moved_all in Em. destruct moved as [|k moved]; [by apply sent_same|]. rewrite Em. clear Em k moved.
  pose proof (execute_frame base ep0 J0 s0 (data_of w) (AStr (lit "DEL")) (AStr <$> items.*1) w Hflags
    ltac:(by intros ? [= <-]) Hw (frame_start _ w Hw)) as Hf.
  pose proof (execute_inv base ep0 J0 s0 (AStr (lit "DEL")) (AStr <$> items.*1) Hflags ltac:(by intros ? [= <-]) w Hw) as Hi.
  unfold bindM, on_world. cbn [fst snd]. set (o := execute _ _ w) in *.
  assert (Ho : sent_ok w m items rest (o.2, m)).
  { unfold sent_ok. conj; [exact Hi| |by apply (sent_same w m items rest)]. intros Hg. rewrite del_keys in Hf.
    apply guarded_rest in Hg as [Hg Hd]. by eapply guarded_kept. }
  destruct o as [[v|x] w1]; [|exact Ho]. destruct Ho as (H1' & H2' & _). unfold sent_ok. conj; [done|done|]. by eexists.
Qed.

Lemma items_popped n sd m : dict_get n (mg_sends m) = Some sd ->
  items_of m ≡ₚ sd_items sd ++ items_of (set_sends (dict_pop n (mg_sends m)) (mg_next m) m).
Proof. intros Hn. unfold items_of. cbn [set_sends mg_sends]. by rewrite (dict_pop_perm _ _ _ Hn) at 1. Qed.

Lemma reply_inv n answer s : move_inv s -> move_inv (send_reply n answer s).2.
Proof.
  intros Hs. destruct s as [w m]. unfold send_reply. unfold bindM at 1, get_mig at 1, readM at 1. cbn [snd].
  destruct (dict_get n (mg_sends m)) as [sd|] eqn:En; [|exact Hs]. destruct Hs as [Hw Hg].
  set (m1 := set_sends (dict_pop n (mg_sends m)) (mg_next m) m).
  assert (Hc : forall c : MM unit, sent_ok w m1 (sd_items sd) (items_of m1) (c (w, m1)).2 ->
    move_inv (catchM c (fun _ => true) (fun x => let! now := get_mig in if mg_task now then upd_mig (run_failed x) else ret tt) (w, m1)).2).
  { intros c (He & Hr & (k & Hk)). unfold catchM. destruct (c (w, m1)) as [[[]|x] [w2 m2]]; cbn [fst snd] in *; subst m2.
    - split; [done|]. cbn. intros Ht. destruct (Hg Ht) as [Hn Hitems]. split; [done|]. apply Hr.
      by eapply guarded_perm; [apply items_popped|].
    - unfold bindM, get_mig, readM. cbn. destruct (mg_task m) eqn:Et; (split; [done|]); cbn; [done|by rewrite Et]. }
  destruct answer as [replies|x]; [|destruct (isinstance x KVStoreError); [by split|]];
    (etrans || idtac); unfold bindM at 1, upd_mig at 1, modifyM; cbn [fst snd]; apply Hc; [by apply send_done_ok|by apply sent_same].
Qed.

Lemma move_step_inv s s' : move_step s s' -> move_inv s -> move_inv s'.
Proof.
  intros Hstep Hs. destruct Hstep as [q w m Hq|w m Hsends _|n answer s|s|w m].
  - destruct Hs as [Hw Hg]. destruct (mg_task m) eqn:Et.
    + destruct (Hg Et) as [Hn Hi]. destruct (request_kept q w m _ Hq Hw Hi) as [H1' H2']. by split.
    + split; [|by cbn; rewrite Et]. apply (request_kept q w m []); [done|done|split; constructor].
  - by apply begin_inv; [apply Hs|].
  - by apply reply_inv.
  - by apply gathered_inv.
  - by apply stop_inv.
Qed.

Lemma moves_inv s s' : rtc move_step s s' -> move_inv s -> move_inv s'.
Proof. induction 1 as [|s s1 s2 Hs _ IH]; [done|]. intros Hi. apply IH. by eapply move_step_inv. Qed.

Lemma flight_refused m command args spec key w :
  find_command (P := P) (D := Done) (E := E) (str_upper command) = Some spec -> key ∈ keys_of spec args ->
  key ∈ mg_in_flight m -> migration_check m command args w = (Raise (err TryAgainError "key is being migrated"), w).
Proof.
  intros Hf Hk Hin. unfold migration_check. rewrite Hf. destruct (keys_of spec args) as [|k keys]; [by apply elem_of_nil in Hk|].
  destruct (existsb _ _) eqn:He; [done|]. apply not_true_iff_false in He. destruct He. apply existsb_exists. exists key.
  split; [by apply list_elem_of_In|by apply bool_decide_eq_true].
Qed.

Lemma begin_then_request w m q : mg_sends m = [] -> mg_batch m = None -> of_primary q ->
  let s := (run_begin (w, m)).2 in rtc move_step (w, m) ((node_request s.2 q s.1).2, s.2).
Proof.
  intros Hs Hb Hq s. eapply rtc_l; [by apply mv_begin|]. eapply rtc_l; [|apply rtc_refl]. fold s. destruct s. by apply mv_request.
Qed.

(** C5. Requests, answers of the targets and the task's own steps interleave
    in any order.  While the move has not failed or been stopped, what a
    [_send] that is still unanswered carries of a key is the key's content and
    deadline at the node, or the key is gone; and a command that names such a
    key is refused.  So when the answer comes, deleting the key loses no write
    that was acknowledged. *)
Theorem moving_copies_current w m w' m' n sd key cmd :
  engine_ok w -> mg_sends m = [] -> mg_pending m = [] -> rtc move_step (w, m) (w', m') ->
  mg_task m' = true -> dict_get n (mg_sends m') = Some sd -> (key, cmd) ∈ sd_items sd ->
  (dict_get key (data_of w') = None \/ exists r, seen key (data_of w') = Some r /\ restore_command r = Ok cmd) /\
  forall command args spec, find_command (P := P) (D := Done) (E := E) (str_upper command) = Some spec ->
    key ∈ keys_of spec args ->
    migration_check m' command args w' = (Raise (err TryAgainError "key is being migrated"), w').
Proof.
  intros Hw Hs Hp Hr Ht Hn Hin.
  assert (Hi : move_inv (w, m)).
  { split; [done|]. intros _. cbn. unfold items_of. rewrite Hs, Hp. split; [|split]; constructor. }
  destruct (moves_inv _ _ Hr Hi) as [_ Hg]. destruct (Hg Ht) as [_ [_ Hall]]. rewrite Forall_forall in Hall.
  destruct (Hall (key, cmd)) as [Hf Hc].
  { cbn. rewrite (items_popped n sd m' Hn). apply elem_of_app. by left. }
  split; [exact Hc|]. intros command args spec Hcmd Hk. by eapply flight_refused.
Qed.
End Spec.

(** ** Runs *)

(** Of three keys, [b] moves to group [s2] and [c] to [s3]. *)
Definition three_groups : MigrationPlan :=
  mkPlan (lit "s1") 4 [(lit "s1", lit "h1:1"); (lit "s2", lit "h2:2"); (lit "s3", lit "h3:3")].
Definition groups_ring : Ring := default (mkRing 0 [] [] []) (match plan_ring three_groups with Ok r => Some r | Raise _ => None end).
Definition fresh_move : Migration := start_migration (mkMigration three_groups groups_ring 100 [] [] None [] 0 false MRunning 0 None).
Lemma fresh_move_new : exists m, new_migration three_groups = Ok m /\ fresh_move = start_migration m.
Proof. eexists. split; vm_compute; reflexivity. Qed.
Definition node3 : World' := do "SET" ["c"; "1"]%string (do "SET" ["b"; "1"]%string (do "SET" ["a"; "1"]%string lru_node)).
Definition set_c : Request := QExecute (AStr (lit "SET")) (texts_of ["c"; "2"]%string).

(** Both groups were sent their key; a client writes [c] meanwhile. *)
Definition sent3 : World' * Migration := (run_begin (node3, fresh_move)).2.
Definition asked3 : World' := (node_request sent3.2 set_c sent3.1).2.

Lemma moving_copies_current_witness :
  exists sd cmd r, dict_get 1%nat (mg_sends sent3.2) = Some sd /\ (lit "c", cmd) ∈ sd_items sd /\
    seen (lit "c") (data_of asked3) = Some r /\ restore_command r = Ok cmd.
Proof.
  destruct (dict_get 1%nat (mg_sends sent3.2)) as [sd|] eqn:Hsd; [|exfalso; revert Hsd; vm_compute; discriminate].
  destruct (snd <$> head (sd_items sd)) as [cmd|] eqn:Hcmd; [|exfalso; revert Hsd Hcmd; vm_compute; intros [= <-]; discriminate].
  assert (Hin : (lit "c", cmd) ∈ sd_items sd).
  { revert Hsd Hcmd. vm_compute. intros [= <-] [= <-]. by left. }
  destruct (moving_copies_current 0 0 no_ghost (w_store lru_node) lru_flags node3 fresh_move asked3 sent3.2 1 sd (lit "c") cmd)
    as [[Hgone|(r & Hr & Hc)] _].
  - node_inv.
  - reflexivity.
  - reflexivity.
  - unfold asked3, sent3. apply (begin_then_request node3 fresh_move set_c); [reflexivity|reflexivity|]. apply (served "SET"). run.
  - run.
  - exact Hsd.
  - exact Hin.
  - exfalso. revert Hgone. vm_compute. discriminate.
  - exists sd, cmd, r. exact (conj eq_refl (conj Hin (conj Hr Hc))).
Defined.

(** Group [s2] has no memory for [b]; then [c] is written, and [s3] answers. *)
Definition failed3 : World' * Migration :=
  (send_reply 0 (Ok [PError (err OutOfMemoryError "command not allowed when used memory > 'maxmemory'.")]) sent3).2.
Definition wrote3 : result exn unit * World' := node_request failed3.2 set_c failed3.1.
Definition lost3 : World' * Migration := (send_reply 1 (Ok [PStatus (lit "OK")]) (wrote3.2, failed3.2)).2.

