(* ===== verification/Services.v ===== *)
(** * The HTTP API's services, the router's replies and the housekeeping task

    - [status_for], the error envelope (api/errors.py);
    - [KVService] over an [execute] that is its parameter, with the two roles'
      [execute]s (services/kv_service.py), and the endpoints that use it
      (api/v1/endpoints/keys.py, commands.py, cluster.py);
    - what the router's RESP server writes for a result (protocol/tcp_server.py);
    - [run_cron], cut at its awaits (engine/cron.py), and the timing of garbage
      collections (observability/gcpolicy.py).

    Requests arrive validated: paths, bodies and JSON are the web framework's. *)

From Stdlib Require Import String.
From S2P Require Import Prelude PyStr PyFloat Errors Codec Oracles Containers Eviction Store StoreInv Snapshot Json.
From S2P Require Import Registry CmdServer Resp Replies TcpServer ClientSpec Engine EngineInv EngineLife EngineSpec.
From S2P Require Import HashRing Metrics Topology ClusterManager Router.
Local Close Scope string_scope.

(** ** Errors over HTTP *)
Definition STATUS_BY_ERROR : list (exn_class * Z) :=
  [(KeyNotFoundError, 404); (OutOfMemoryError, 507); (PersistenceWriteError, 503); (CommandError, 400);
   (ProtocolError, 400); (CrossShardError, 400); (NodeUnavailableError, 503); (ReadOnlyReplicaError, 503);
   (TryAgainError, 503); (NotEnoughReplicasError, 503); (ClusterError, 502)].

(** [type(error).__mro__], from a class up; four classes at most. *)
Fixpoint mro (n : nat) (c : exn_class) : list exn_class :=
  c :: match n, base_class c with S n', Some b => mro n' b | _, _ => [] end.

Definition status_for (error : exn) : Z :=
  match omap (fun c => dict_get c STATUS_BY_ERROR) (mro 4 (exn_cls error)) with
  | status :: _ => status
  | [] => 500
  end.

(** A response: its status and body. *)
Inductive Body :=
| BKeyValue (key : pystr) (value : Answer)
| BKeyTTL (key : pystr) (ttl_seconds : option Answer)
| BKeyType (key kind : pystr)
| BResult (result : Answer)
| BOwner (key shard primary : pystr)
| BEvent (event : FailoverEvent)
| BConfig (config : Json)
| BNoContent
| BError (code message : pystr).

Definition error_response (x : exn) : Z * Body := (status_for x, BError (code (exn_cls x)) (exn_msg x)).

(** An endpoint's result; an error that is not the program's own leaves it. *)
Definition endpoint {S} (status : Z) (c : M exn S Body) : M exn S (Z * Body) :=
  catchM (let! body := c in ret (status, body)) (fun x => isinstance x KVStoreError) (fun x => ret (error_response x)).

(** ** What a command answered, as Python sees it *)
Section Answers.
(** [str] of a list. *)
Context (list_text : list PReply -> pystr) (local_text : list Reply -> pystr).

Definition answer_none (a : Answer) : bool :=
  match a with Local RNone | Remote PNone => true | _ => false end.

(** [a == n] for an integer [n]. *)
Definition answer_is (n : Z) (a : Answer) : bool :=
  match a with
  | Local (RInt z) | Local (RArg (AInt z)) | Remote (PInt z) => z =? n
  | Local (RArg (ABool b)) => (if b then 1 else 0) =? n
  | Local (RArg (AFloat f)) => feq f (float_of_Z n)
  | _ => false
  end.

Definition answer_str (a : Answer) : pystr :=
  match a with
  | Local RNone => lit "None"
  | Local (RStatus s) | Local (RText s) => s
  | Local (RInt z) => str_of_int z
  | Local (RArg arg) => str_of_arg arg
  | Local (RArray l) => local_text l
  | Remote r => reply_str list_text r
  end.

(** ** [KVService] *)
Section KVService.
Context {S : Type} (execute : pystr -> list PyArg -> M exn S Answer).
Abbreviation SV := (M exn S).

Definition key_missing (key : pystr) : exn := new_exn KeyNotFoundError (lit "key '" ++ key ++ lit "' not found") None.

Definition kv_get (key : pystr) : SV Answer :=
  let! value := execute (lit "GET") [AStr key] in
  if answer_none value then raise (key_missing key) else ret value.

Definition kv_set (key value : pystr) (ttl_seconds : option Z) : SV unit :=
  execute (lit "SET") ([AStr key; AStr value] ++
    match ttl_seconds with Some n => [AStr (lit "EX"); AInt n] | None => [] end);;
  ret tt.

Definition kv_delete (key : pystr) : SV unit :=
  let! n := execute (lit "DEL") [AStr key] in
  if answer_is 0 n then raise (key_missing key) else ret tt.

Definition kv_ttl (key : pystr) : SV (option Answer) :=
  let! remaining := execute (lit "TTL") [AStr key] in
  if answer_is (-2) remaining then raise (key_missing key)
  else if answer_is (-1) remaining then ret None else ret (Some remaining).

Definition kv_expire (key : pystr) (seconds : Z) : SV unit :=
  let! n := execute (lit "EXPIRE") [AStr key; AInt seconds] in
  if answer_is 0 n then raise (key_missing key) else ret tt.

Definition kv_persist (key : pystr) : SV unit :=
  let! n := execute (lit "PERSIST") [AStr key] in
  if answer_is 0 n then
    let! m := execute (lit "EXISTS") [AStr key] in
    if answer_is 0 m then raise (key_missing key) else ret tt
  else ret tt.

Definition kv_type (key : pystr) : SV pystr :=
  let! kind := execute (lit "TYPE") [AStr key] in
  if bool_decide (answer_str kind = lit "none") then raise (key_missing key) else ret (answer_str kind).

(** *** The endpoints *)
Inductive HttpRequest :=
| GetKey (key : pystr)
| GetType (key : pystr)
| SetKey (key value : pystr) (ttl_seconds : option Z)
| DeleteKey (key : pystr)
| GetTTL (key : pystr)
| SetTTL (key : pystr) (seconds : Z)
| RemoveTTL (key : pystr)
| RunCommand (command : pystr) (args : list PyArg).

Definition get_key key : SV (Z * Body) := endpoint 200 (let! v := kv_get key in ret (BKeyValue key v)).
Definition get_type key : SV (Z * Body) := endpoint 200 (let! kind := kv_type key in ret (BKeyType key kind)).
Definition set_key key value (ttl_seconds : option Z) : SV (Z * Body) :=
  endpoint 200 (kv_set key value ttl_seconds;; ret (BKeyTTL key ((fun n => Local (RInt n)) <$> ttl_seconds))).
Definition delete_key key : SV (Z * Body) := endpoint 204 (kv_delete key;; ret BNoContent).
Definition get_ttl key : SV (Z * Body) := endpoint 200 (let! t := kv_ttl key in ret (BKeyTTL key t)).
Definition set_ttl key (seconds : Z) : SV (Z * Body) :=
  endpoint 200 (kv_expire key seconds;; ret (BKeyTTL key (Some (Local (RInt seconds))))).
Definition remove_ttl key : SV (Z * Body) := endpoint 200 (kv_persist key;; ret (BKeyTTL key None)).
Definition run_command command (args : list PyArg) : SV (Z * Body) :=
  endpoint 200 (let! r := execute command ((fun a => AStr (str_of_arg a)) <$> args) in ret (BResult r)).

Definition serve_http (q : HttpRequest) : SV (Z * Body) :=
  match q with
  | GetKey key => get_key key
  | GetType key => get_type key
  | SetKey key value ttl => set_key key value ttl
  | DeleteKey key => delete_key key
  | GetTTL key => get_ttl key
  | SetTTL key seconds => set_ttl key seconds
  | RemoveTTL key => remove_ttl key
  | RunCommand command args => run_command command args
  end.
End KVService.
End Answers.

(** [LocalKVService.execute]: the node's [execute], and with a group commit the
    reply waits for it, whether the command succeeded or not. *)
Definition local_execute {S} (run : PyArg -> list PyArg -> M exn S Reply) (group_commit : option (M exn S unit * M exn S unit))
    (command : pystr) (args : list PyArg) : M exn S Answer :=
  let served := let! v := run (AStr command) args in ret (Local v) in
  match group_commit with
  | None => served
  | Some (join, committed) => join;; finallyM served committed
  end.

(** ** The cluster's endpoints, on the router *)
Section ClusterApi.
Context `{Sizing} {P : Type} `{EvictionPolicy P} {D E : Type} `{Hooks D E} `{CommandContext P D E}.
Context {W : Type} `{!Network W (World P D E)} {V : Type} `{!ManagerNet V}.
Context (list_text : list PReply -> pystr).

(** [RoutedKVService.execute]. *)
Definition routed_execute (command : pystr) (args : list PyArg) : M exn (ShardRouter W) Answer :=
  Router.execute list_text (AStr command :: args).

Definition key_owner (key : pystr) : M exn (ShardRouter W) (Z * Body) :=
  endpoint 200 (let! shard := owner key in let! address := primary shard in ret (BOwner key shard address)).

Definition cluster_config : M exn (ShardRouter W) (Z * Body) :=
  endpoint 200 (readM (fun r => BConfig (to_dict (rt_config r)))).

Definition api_failover (shard : pystr) (rounds : nat) : M exn (ClusterManager V) (Z * Body) :=
  endpoint 200 (let! event := failover shard (lit "requested") rounds in ret (BEvent event)).

(** What [add_shard] and [remove_shard] make of an error of the manager's. *)
Definition add_shard_error (x : exn) : exn :=
  if isinstance x ValueError then new_exn InvalidArgumentError (exn_msg x) None else x.
Definition remove_shard_error (shard : pystr) (x : exn) : exn :=
  if isinstance x KeyError then new_exn InvalidArgumentError (lit "unknown shard group " ++ quoted shard) None else x.

(** [add_shard] up to the lock, and [remove_shard] up to the rebalance. *)
Definition add_shard_begin (id address : pystr) (replicas : list pystr) : M exn (ClusterManager V) ShardGroup :=
  let g := mkGroup id address replicas in
  catchM (add_group_check g;; ret g) (fun _ => true) (fun x => raise (add_shard_error x)).
Definition remove_shard_begin (shard : pystr) : M exn (ClusterManager V) (list pystr) :=
  catchM (then_check (remove_group shard)) (fun _ => true) (fun x => raise (remove_shard_error shard x)).

(** ** What the router's RESP server answers *)

(** A node's reply as the value it stands for; an error inside an array is an
    object [encode_reply] does not know. *)
Fixpoint reply_value (r : PReply) : Reply :=
  match r with
  | PNone => RNone
  | PStatus s => RStatus s
  | PText s => RText s
  | PInt z => RInt z
  | PError e => RArg (AOther (exn_msg e))
  | PArray l => RArray (map reply_value l)
  end.

Definition encode_result (a : Answer) : result exn bytes :=
  match a with
  | Remote (PError e) => encode_error (if isinstance e KVStoreError then e else err KVStoreError "internal error")
  | Remote r => encode_reply (reply_value r)
  | Local v => encode_reply v
  end.

(** [_run] with a [batch_handler]. *)
Definition run_batch_handler (commands : list (list pystr)) : M exn (ShardRouter W) (list bytes) :=
  let! results := execute_batch list_text (map (fmap AStr) commands) in
  mapM_list (fun a => lift (encode_result a)) results.
End ClusterApi.

(** ** [run_cron] *)
Section Cron.
Context `{Sizing} {P : Type} `{EvictionPolicy P} {L R : Type} `{Persistence L} `{ReplicationFeed R}.
Abbreviation W := (World P Done (EngineEnv L R)).
Context (interval_s : float) (expiry_sample_size : nat).

(** Any [Exception] is logged and the task goes on. *)
Definition logged {A} (c : M exn W A) : M exn W unit := catchM (c;; ret tt) (fun _ => true) (fun _ => ret tt).

(** Where the task waits, with the next tick's time: after a slice, or asleep. *)
Inductive CronAt := AfterSlice (next_tick : float) | Sleeping (next_tick : float).

(** The top of the loop: a slice of the snapshot, or sleep until the tick. *)
Definition cron_loop (extra : nat) (next_tick : float) : M exn W CronAt :=
  let! running := readM (fun w => bool_decide (st_job (w_store w) <> None)) in
  if running : bool then logged (step_snapshot extra);; ret (AfterSlice next_tick) else ret (Sleeping next_tick).

(** The tick: [now] is the clock when the task is woken, [later] when it has
    worked out the next one. *)
Definition cron_resume (extra : nat) (now later : float) (at_ : CronAt) : M exn W CronAt :=
  let tick := logged (cron expiry_sample_size);; cron_loop extra (fadd later interval_s) in
  match at_ with
  | AfterSlice next_tick => if flt now next_tick then cron_loop extra next_tick else tick
  | Sleeping _ => tick
  end.

(** The task over a run: how many slices fit and what the clock says each time. *)
Fixpoint run_cron (wakes : list (nat * float * float)) (at_ : CronAt) : M exn W CronAt :=
  match wakes with
  | [] => ret at_
  | (extra, now, later) :: rest => let! at' := cron_resume extra now later at_ in run_cron rest at'
  end.
End Cron.

(** ** Timing the collector *)
Record GcStats := mkGcStats { gs_pauses : list (Z * Histogram); gs_collected : list (Z * Z); gs_started : float }.

Definition gc_started (now : float) (s : GcStats) : GcStats := mkGcStats (gs_pauses s) (gs_collected s) now.
Definition gc_stopped (generation collected : Z) (now : float) (s : GcStats) : GcStats :=
  let h := default (new_histogram LATENCY_BUCKETS) (dict_get generation (gs_pauses s)) in
  mkGcStats (dict_set generation (observe (fsub now (gs_started s)) h) (gs_pauses s))
    (dict_set generation (default 0 (dict_get generation (gs_collected s)) + collected) (gs_collected s)) (gs_started s).

(** ** The router passes on what a node answered *)
Lemma encode_array l : encode_reply (RArray l) =
  match concat_ok encode_reply l with Ok body => Ok (head_line 42 (Z.of_nat (length l)) ++ body) | Raise e => Raise e end.
Proof.
  cbn [encode_reply]. match goal with |- match ?go l with _ => _ end = _ => assert (Hgo : go l = concat_ok encode_reply l) end.
  { induction l as [|v l IH]; [done|]. cbn [concat_ok]. by rewrite <- IH. }
  by rewrite Hgo.
Qed.

Lemma image_value : forall v raw, encode_reply v = Ok raw -> encode_reply (reply_value (reply_image v)) = Ok raw.
Proof.
  fix IH 1. intros [|s|s|z|[s|z|f|b|t]|l] raw Hr; try exact Hr; [done|].
  cbn [reply_image reply_value]. rewrite encode_array in *. rewrite !length_map.
  assert (Hgo : forall body, concat_ok encode_reply l = Ok body ->
    concat_ok encode_reply (map reply_value (map reply_image l)) = Ok body).
  { clear Hr. induction l as [|v l IHl]; intros body; cbn [map concat_ok]; [done|].
    pose proof (IH v) as Hv. destruct (encode_reply v) as [x|]; [|done]. rewrite (Hv x eq_refl).
    destruct (concat_ok encode_reply l) as [y|]; [|done]. by rewrite (IHl y eq_refl). }
  destruct (concat_ok encode_reply l) as [body|]; [|done]. by rewrite (Hgo body eq_refl).
Qed.

Lemma no_line_break_idem (s : pystr) : no_line_break <$> (no_line_break <$> s) = no_line_break <$> s.
Proof.
  induction s as [|c s IH]; [done|]. rewrite !fmap_cons, IH. f_equal. unfold no_line_break.
  destruct ((c =? 13) || (c =? 10)) eqn:Ec; [done|by rewrite Ec].
Qed.

Lemma prefix_one_line c : no_line_break <$> resp_prefix c = resp_prefix c.
Proof. by destruct c. Qed.

Lemma wire_class_own c : is_subclass (wire_class c) KVStoreError = true.
Proof. by destruct c. Qed.

(** What a node may answer: a value, or an error with its class's prefix. *)
Definition node_answer (a : Reply + exn) : Prop :=
  match a with inl _ => True | inr x => exn_prefix x = resp_prefix (exn_cls x) /\ exn_msg x <> [] end.



(** ** The two roles share the API *)
Section Roles.
Context {S1 S2 : Type} (here : pystr -> list PyArg -> M exn S1 Answer) (there : pystr -> list PyArg -> M exn S2 Answer).
Context (list_text : list PReply -> pystr) (local_text : list Reply -> pystr).
Context (Htext : forall l, local_text l = list_text (map reply_image l)) (related : S1 -> S2 -> Prop).

(** A value and what a client decodes from its bytes. *)
Definition alike (a b : Answer) : Prop :=
  exists v, a = Local v /\ b = Remote (reply_image v) /\ match v with RArg _ => False | _ => True end.

Definition alike_body (a b : Body) : Prop :=
  match a, b with
  | BKeyValue k v, BKeyValue k' v' => k = k' /\ alike v v'
  | BKeyTTL k (Some v), BKeyTTL k' (Some v') => k = k' /\ (v = v' \/ alike v v')
  | BResult v, BResult v' => alike v v'
  | _, _ => a = b
  end.

(** Both end in related states, with results related by [Q] or the same error. *)
Definition alike_runs {A B} (Q : A -> B -> Prop) (c : M exn S1 A) (c' : M exn S2 B) : Prop :=
  forall s s', related s s' -> related (c s).2 (c' s').2 /\
    match (c s).1, (c' s').1 with Ok a, Ok b => Q a b | Raise x, Raise y => x = y | _, _ => False end.

Context (Hexec : forall command args, alike_runs alike (here command args) (there command args)).

Lemma alike_ret {A B} (Q : A -> B -> Prop) a b : Q a b -> alike_runs Q (ret a) (ret b).
Proof. by intros Hq s s' Hs. Qed.
Lemma alike_raise {A B} (Q : A -> B -> Prop) x : alike_runs Q (raise x) (raise x).
Proof. by intros s s' Hs. Qed.
Lemma alike_bind {A B A' B'} (Q : A -> B -> Prop) (Q' : A' -> B' -> Prop) c c' k k' :
  alike_runs Q c c' -> (forall a b, Q a b -> alike_runs Q' (k a) (k' b)) -> alike_runs Q' (bindM c k) (bindM c' k').
Proof.
  intros Hc Hk s s' Hs. specialize (Hc s s' Hs) as [Hr Hm]. unfold bindM.
  destruct (c s) as [[a|x] s1], (c' s') as [[b|y] s1']; cbn [fst snd] in *; try done. by apply Hk.
Qed.
Lemma alike_endpoint status c c' :
  alike_runs alike_body c c' -> alike_runs (fun a b => a.1 = b.1 /\ alike_body a.2 b.2) (endpoint status c) (endpoint status c').
Proof.
  intros Hc s s' Hs. specialize (Hc s s' Hs) as [Hr Hm]. unfold endpoint, catchM, bindM.
  destruct (c s) as [[a|x] s1], (c' s') as [[b|y] s1']; cbn [fst snd] in *; try done; subst.
  destruct (isinstance y KVStoreError); by cbn.
Qed.

Lemma alike_none a b : alike a b -> answer_none a = answer_none b.
Proof. intros (v & -> & -> & Hv). by destruct v. Qed.
Lemma alike_is n a b : alike a b -> answer_is n a = answer_is n b.
Proof. intros (v & -> & -> & Hv). by destruct v. Qed.
Lemma alike_str a b : alike a b -> answer_str list_text local_text a = answer_str list_text local_text b.
Proof. intros (v & -> & -> & Hv). destruct v; try done. apply Htext. Qed.

Local Ltac roles := repeat match goal with
  | |- alike_runs _ (bindM (here _ _) _) _ => eapply (alike_bind alike); [apply Hexec|intros ? ? ?]
  | H : alike ?a ?b |- context [answer_none ?a] => rewrite (alike_none a b H)
  | H : alike ?a ?b |- context [answer_is _ ?a] => rewrite !(alike_is _ a b H)
  | H : alike ?a ?b |- context [answer_str _ _ ?a] => rewrite !(alike_str a b H)
  | |- alike_runs _ (if ?t then _ else _) _ => destruct t
  | |- alike_runs _ (raise _) _ => apply alike_raise
  | |- alike_runs _ (ret _) _ => apply alike_ret
  end.

Lemma alike_kv_get key : alike_runs alike (kv_get here key) (kv_get there key).
Proof. unfold kv_get. by roles. Qed.
Lemma alike_kv_type key : alike_runs eq (kv_type list_text local_text here key) (kv_type list_text local_text there key).
Proof. unfold kv_type. by roles. Qed.
Lemma alike_kv_set key value ttl : alike_runs eq (kv_set here key value ttl) (kv_set there key value ttl).
Proof. unfold kv_set. by roles. Qed.
Lemma alike_kv_delete key : alike_runs eq (kv_delete here key) (kv_delete there key).
Proof. unfold kv_delete. by roles. Qed.
Lemma alike_kv_ttl key : alike_runs (option_Forall2 alike) (kv_ttl here key) (kv_ttl there key).
Proof. unfold kv_ttl. roles; by constructor. Qed.
Lemma alike_kv_expire key n : alike_runs eq (kv_expire here key n) (kv_expire there key n).
Proof. unfold kv_expire. by roles. Qed.
Lemma alike_kv_persist key : alike_runs eq (kv_persist here key) (kv_persist there key).
Proof. unfold kv_persist. by roles. Qed.

(** A request answered by the node that owns the key, and by the router in
    front of it, has the same status and the same body. *)
Lemma roles_answer_alike q :
  alike_runs (fun a b => a.1 = b.1 /\ alike_body a.2 b.2)
    (serve_http list_text local_text here q) (serve_http list_text local_text there q).
Proof.
  destruct q as [key|key|key value ttl|key|key|key n|key|command args]; cbn [serve_http]; apply alike_endpoint.
  - eapply alike_bind; [apply alike_kv_get|]. intros a b Hab. by apply alike_ret.
  - eapply alike_bind; [apply alike_kv_type|]. intros a b ->. by apply alike_ret.
  - eapply alike_bind; [apply alike_kv_set|]. intros a b _. apply alike_ret. destruct ttl; cbn; auto.
  - eapply alike_bind; [apply alike_kv_delete|]. intros a b _. by apply alike_ret.
  - eapply alike_bind; [apply alike_kv_ttl|]. intros a b Hab. apply alike_ret. destruct Hab; cbn; auto.
  - eapply alike_bind; [apply alike_kv_expire|]. intros a b _. apply alike_ret. cbn; auto.
  - eapply alike_bind; [apply alike_kv_persist|]. intros a b _. by apply alike_ret.
  - eapply (alike_bind alike); [apply Hexec|]. intros a b Hab. by apply alike_ret.
Qed.
End Roles.

(** ** The housekeeping task never ends and keeps the engine consistent *)
Section CronProofs.
Context `{Sizing} {P : Type} `{PolicyLaws P} {L R : Type} `{Persistence L} `{ReplicationFeed R}.
Context (base : nat) (ep0 : Z) (J0 : Ghost) (s0 : Store P Done) (Hflags : flags_ok s0).
Abbreviation ok := (engine_inv (P := P) (L := L) (R := R) base ep0 J0 s0).

(** The step succeeds, whatever the engine raised, and keeps the invariant. *)
Definition goes_on {A} (c : M exn (World P Done (EngineEnv L R)) A) : Prop :=
  forall w, ok w -> exists a, (c w).1 = Ok a /\ ok (c w).2.

Lemma goes_on_ret {A} (a : A) : goes_on (ret a).
Proof. intros w Hw. by exists a. Qed.
Lemma goes_on_bind {A B} (c : M exn _ A) (k : A -> M exn _ B) : goes_on c -> (forall a, goes_on (k a)) -> goes_on (bindM c k).
Proof.
  intros Hc Hk w Hw. destruct (Hc w Hw) as (a & Ha & Ho). unfold bindM. destruct (c w) as [r w1]. cbn [fst snd] in *. subst r.
  by apply Hk.
Qed.
Lemma goes_on_logged q {A} (c : M exn _ A) : request_ok q -> (forall w, (c w).2 = (serve q w).2) -> goes_on (logged c).
Proof.
  intros Hq Hc w Hw. exists tt. pose proof (serve_inv base ep0 J0 s0 q w Hflags Hq Hw) as Hs. rewrite <- Hc in Hs.
  unfold logged, catchM, bindM. by destruct (c w) as [[a|x] w1].
Qed.

Lemma goes_on_loop extra next_tick : goes_on (cron_loop (P := P) (L := L) (R := R) extra next_tick).
Proof.
  unfold cron_loop. apply goes_on_bind; [intros w Hw; by eexists|]. intros [|]; [|apply goes_on_ret].
  apply goes_on_bind; [|intros; apply goes_on_ret]. apply (goes_on_logged (QStepSnapshot extra)); [done|].
  intros w. cbn [serve]. unfold bindM. by destruct (step_snapshot extra w) as [[]].
Qed.

Lemma cron_goes_on interval_s sample wakes at_ : goes_on (run_cron (P := P) (L := L) (R := R) interval_s sample wakes at_).
Proof.
  revert at_. induction wakes as [|[[extra now] later] wakes IH]; intros at_; cbn [run_cron]; [apply goes_on_ret|].
  apply goes_on_bind; [|intros a; apply IH].
  assert (Ht : forall t, goes_on (logged (cron (P := P) (L := L) (R := R) sample);; cron_loop extra t)).
  { intros t. apply goes_on_bind; [|intros; apply goes_on_loop]. apply (goes_on_logged (QCron sample)); [done|].
    intros w. cbn [serve]. unfold bindM. by destruct (cron sample w) as [[]]. }
  destruct at_ as [t|t]; cbn [cron_resume]; [|apply Ht]. destruct (flt now t); [apply goes_on_loop|apply Ht].
Qed.
End CronProofs.
