(* ===== verification/Findings.v ===== *)
(** * Where the code departs from what it means to do

    Each theorem runs the engine on a concrete input and shows the departure:
    commands that are accepted but leave a log the node cannot replay, a NaN
    that slips past the checks, a replica that expires a key on its own, a
    replication stream that is read forever, exceptions that leave the router. *)

From Stdlib Require Import SpecFloat String.
From S2P Require Import ReplStream Primary HashRing Topology Replies Router.
From S2P Require Import Prelude PyStr PyFloat Errors Codec Oracles KeySet Containers ZSet Eviction Store.
From S2P Require Import Snapshot Registry CmdKeys CmdServer Resp Engine EngineRuns.
Local Close Scope string_scope.

Definition reply_of (command : String.string) (args : list String.string) (w : World') : result exn Reply :=
  (execute (AStr (lit command)) (texts_of args) w).1.
Definition log_of (w : World') : list bytes := default [] (ml_records <$> en_persistence (w_env w)).

(** What a restart does with one logged command. *)
Definition replay (command : String.string) (args : list PyArg) : result exn unit :=
  (load_event (EvCommand (lit "appendonly-1.aof:2") (lit command) args) (mkWorld (w_store lru_node)
     (set_replaying true (w_env lru_node)) (w_orc lru_node))).1.

Definition minus_one : World' := do "SET" ["a"; "-1"]%string lru_node.


Definition far_deadline : World' := do "EXPIRE" ["a"; "9223372036854775807"]%string iso_w.


(** INCRBYFLOAT promises an error instead of NaN; infinity minus infinity is
    stored as [nan]. *)
Lemma incrbyfloat_stores_nan :
  let w := do "SET" ["a"; "inf"]%string lru_node in
  reply_of "INCRBYFLOAT" ["a"; "-inf"]%string w = Ok (RText (lit "nan")) /\
  reply_of "GET" ["a"]%string (do "INCRBYFLOAT" ["a"; "-inf"]%string w) = Ok (RText (lit "nan")).
Proof. split; vm_compute; reflexivity. Qed.

(** A dump whose sorted set holds a NaN score. *)
Definition nan_dump : pystr :=
  match dump_value (RZset [(lit "m", S754_nan)]) with Ok data => to_str data | Raise _ => [] end.

(** ZADD refuses NaN, RESTORE takes it. *)
Lemma restore_accepts_nan :
  match reply_of "ZADD" ["z"; "nan"; "m"]%string lru_node with
  | Raise x => exn_cls x = InvalidArgumentError
  | Ok _ => False
  end /\
  let args := [AStr (lit "z"); AStr (lit "0"); AStr nan_dump] in
  (execute (AStr (lit "RESTORE")) args lru_node).1 = Ok OK /\
  reply_of "ZSCORE" ["z"; "m"]%string (execute (AStr (lit "RESTORE")) args lru_node).2 = Ok (RText (lit "nan")).
Proof. split; [vm_compute; reflexivity|]. split; vm_compute; reflexivity. Qed.


(** ** Replication *)

(** An array of one bulk string whose length is -12. *)
Definition bad_stream : bytes := lit "*1" ++ [13; 10] ++ lit "$-12" ++ [13; 10].

(** C34. The stream parser takes the length -12 for the bulk string: the command
    ends where it began, and the loop over a replica's acknowledgements never
    ends, whatever the primary's state; the event loop is blocked. *)
Theorem negative_length_read_forever fuel id now (p : Primary) :
  ack_loop fuel id bad_stream 0 now p = (Ok None, p).
Proof.
  assert (Hn : ReplStream.next_command bad_stream 0 = Ok (Some ([[]], 0))) by (vm_compute; reflexivity).
  induction fuel as [|fuel IH]; cbn [ack_loop]; unfold bindM at 1, lift at 1; rewrite Hn; [done|exact IH].
Qed.

(** ** The router *)

(** A cluster of one node that refuses connections. *)
#[local] Instance down : Network unit World' := {|
  nt_pipeline a _ _ := raise (new_exn ConnectFailedError (a ++ lit " unavailable") None);
  nt_healthy _ := None;
  nt_on_stale := None;
  nt_applied w := ([], w);
  nt_clock w := (fzero, w);
  nt_local _ := lru_node
|}.

Definition one_group : ClusterConfig :=
  mkCluster 0 [mkGroup (lit "shard-1") (lit "127.0.0.1:6379") []] 1 None [lit "shard-1"].
Definition router_settings : RouterSettings := mkRouterSettings 2 3 0 1000 false.

Definition through_router (command : list PyArg) : option exn_class :=
  match new_router one_group router_settings tt with
  | Ok r => match (execute_batch (P := Policy) (D := Done) (E := EngineEnv MemLog (list bytes)) (fun _ => []) [command] r).1 with Ok _ => None | Raise x => Some (exn_cls x) end
  | Raise _ => None
  end.


